(* ===== verification/_CoqProject ===== *)
-Q . S2P
Prelude.v
Endian.v
Params.v
Hasher.v
Sha2.v
Sha1Ripemd.v
HashFns.v
ArithUint256.v
Chain.v
MedianTime.v
Merkle.v
MerkleBlock.v
Pow.v
VersionBits.v
Serialize.v
Script.v
Transaction.v
Keccak.v
Ethash.v
Progpow.v
Compressor.v
Interpreter.v
EvalSafety.v
ScriptFlags.v
Spending.v
SigHash.v
TxVerify.v
Standard.v
Base58.v
AssetNames.v
LibBoolEE.v
AssetScripts.v
AssetRules.v
CheckTransaction.v
BlockCheck.v
BlockBinding.v
BlockTree.v
ChainSelect.v
ChainActivate.v
AssetTotals.v
Coins.v
ConnectBlock.v
