(* ===== verification/Prelude.v ===== *)
(** * HookersAndBlowCoin: verification development

    A shallow embedding of the consensus core of the node (a Bitcoin descendant with
    assets, sources under [src/src]) and theorems about it.  Pure functions are Rocq
    functions, code that can fail returns [result], code that mutates an object passes
    the object on.  Machine integers are [Z] with their wrap-around written out ([u8],
    [u32], [u64], [i32], [i64] below); bytes and characters are [Z]s, byte vectors and
    strings lists of them.  What C++ leaves undefined, failed assertions included, is a
    value of [fault]; signed arithmetic that overflows, which C++ leaves undefined too, wraps
    as it does on the usual machines.

    ** Parts, in the order of the files

    - Foundations.  [Prelude] (this file): integers, results, tactics, list lemmas.
      [Endian]: [crypto/common.h].  [Params]: [consensus/params.h], the block header.
    - Hashing.  [Hasher]: the streaming scheme all hash classes share.  [Sha2],
      [Sha1Ripemd]: the compression functions of [crypto/].  [HashFns]: [hash.h],
      HMAC, MurmurHash3, SipHash.  Writing in any portions hashes the concatenation.
    - Block tree.  [ArithUint256]: [arith_uint256] limb by limb, proved to be arithmetic
      modulo 2^256.  [Chain], [MedianTime]: [chain.cpp], block entries in a heap.
      [Pow]: [pow.cpp], with Dark Gravity Wave proved to compute its average without wrap-around
      and to yield a valid target.  [VersionBits]: [versionbits.cpp] as a refinement of
      the BIP 9 machine without its cache.
    - Merkle trees.  [Merkle]: [consensus/merkle.cpp] against the recursive tree.
      [MerkleBlock]: partial trees and what they authenticate.
    - Wire and disk formats.  [Serialize]: [serialize.h]; a [codec] pairs writer and
      reader, [CodecOk] and [CodecCanonical] state round trip and uniqueness.
      [Transaction]: transactions, blocks and their ids.  [Compressor]: coins on disk
      and undo records.
    - Proof-of-work hash.  [Keccak]: the unrolled permutations and the sponge of
      [crypto/ethash/lib/keccak], proved to be Keccak.  [Ethash]: epochs, the light cache
      and the data set.  [Progpow]: the random programs, the hash with and without the
      data set, and KAWPOW as [hash.cpp] calls it.
    - Scripts.  [Script]: opcodes, numbers, iteration and predicates.  [Interpreter]:
      [script/interpreter.cpp] opcode by opcode; [EvalSafety]: it ends without a fault;
      [ScriptFlags]: more flags only reject more; [Spending]: the exact verdict on common
      outputs; [SigHash]: signature hashes and the transaction's signature checker, an
      instance of the class [BaseSignatureChecker] the interpreter is written against.
      [Standard]: [script/standard.cpp].  [Base58]: [base58.cpp] and addresses.
    - Transactions in context.  [TxVerify]: lock times, signature operations and values
      of [consensus/tx_verify.cpp].
      [CheckTransaction]: the checks that need no context, with the soundness of
      acceptance.  [Coins]: the stack of coins views, its caches and the batched database
      ([coins.cpp], [txdb.cpp]), refined to one map from outpoints to coins.
    - Blocks.  [BlockCheck]: header hashes, the subsidy, the checks of headers and blocks
      of [validation.cpp] and the commitment to witnesses, with the soundness of
      acceptance.  [BlockBinding]: an accepted block is determined by its header.
      [BlockTree]: the index as headers arrive, an invariant of every sequence of them.
      [ChainSelect]: the candidates for the tip as blocks arrive in any order, and the
      search for the best of them.  [ChainActivate]: switching to it block by block, past
      branches that turn out to be invalid, until the tip is the best valid entry.
      [ConnectBlock]: the coins as blocks are connected and disconnected; their value never
      exceeds the subsidies, and undo data restore what was there.
    - Assets.  [AssetNames]: the name rules, with the regular expressions as data and a
      matcher proved to decide their language.  [LibBoolEE]: verifier expressions.
      [AssetScripts]: the records, their scripts and parsers.
      [AssetRules]: what a transaction that issues, reissues or tags must look like.
      [AssetTotals]: the rules that read the asset state, behind the class [AssetsView],
      and the conservation of asset amounts.

    ** What the theorems show

    Every operation is given a theorem on all its branches where the code has a contract:
    equivalence with a reference (Merkle root, skip list, signature hash, streaming
    hashes, Keccak, ProgPoW with and without its data set, BIP 68), round trips (all formats, scripts, addresses), refinement (version
    bits, coins caches), invariants of the block index and the active chain, safety of the
    interpreter and of the accounting of values, bounds and overflow of the integer code,
    and termination.  Cryptographic facts are never assumed: a theorem that needs
    collision resistance offers as the alternative a collision between two of the strings
    or pairs of hashes that the theorem lists, those hashed for the data at hand.

    ** Bounds and fuel

    Loops that are not structural carry fuel that the theorems show to be enough: the
    height of an entry for walks along [pprev], the length of the script for loops over
    instructions, the length of the string for the recursion of [resolve], the bits of
    the operand for long division and integer formats, the number of candidates for the
    search of the best chain.  [ActivateBestChain] ends for all large enough fuel.  [OutOfFuel] is an error like any
    other, so that a theorem that a function returns excludes it.

    ** Parameters

    libsecp256k1 ([Ecdsa], [LowS], the public keys of [Compressor]), the hash functions of
    sphlib ([SphLib]), the addresses of the allocator, the clock and connections of the node,
    the failures of its disk, and the deployment state are arguments.  [ChainActivate] takes
    the verdict of [ConnectBlock] on a block as an argument, and [ConnectBlock] the cache of
    assets before each transaction.  That the transactions of a block are not among those
    with unspent outputs is a condition of its theorems, since the test for it is commented
    out in the source.

    ** Not modelled

    The hash functions of sphlib that X16R and X16RV2 chain, libsecp256k1, LevelDB and
    univalue are libraries in the tree that the modelled code only calls.  Of
    [validation.cpp], the updates of the asset caches, the indexes of addresses and the block
    files are not modelled.  The graphical client, the RPC server, the wallet, ZMQ, the daemon's start
    and the tests are input and output around the core.  The peer-to-peer protocol, the
    memory pool, the miner and fee estimation depend on time, threads and sockets.  The
    databases of assets, messages and rewards are storage behind the rules modelled
    here. *)

From Stdlib Require Export ZArith Lia.
From stdpp Require Export sorting.
From stdpp Require Export base tactics numbers gmap strings option list.

Declare Scope hnb_scope.
Delimit Scope hnb_scope with hnb.
#[global] Open Scope Z_scope.

(** ** Machine integers *)

(** Conversion of a mathematical integer to the unsigned C types. *)
Definition u8 (x : Z) : Z := x mod 2 ^ 8.
Definition u32 (x : Z) : Z := x mod 2 ^ 32.
Definition u64 (x : Z) : Z := x mod 2 ^ 64.

(** Conversion to the signed C types (two's complement). *)
Definition swrap (w x : Z) : Z := (x + 2 ^ (w - 1)) mod 2 ^ w - 2 ^ (w - 1).
Definition i32 (x : Z) : Z := swrap 32 x.
Definition i64 (x : Z) : Z := swrap 64 x.

Definition is_u8 (x : Z) : Prop := 0 <= x < 2 ^ 8.
Definition is_u32 (x : Z) : Prop := 0 <= x < 2 ^ 32.
Definition is_u64 (x : Z) : Prop := 0 <= x < 2 ^ 64.
Definition is_i32 (x : Z) : Prop := - 2 ^ 31 <= x < 2 ^ 31.
Definition is_i64 (x : Z) : Prop := - 2 ^ 63 <= x < 2 ^ 63.

(** A byte string of the program ([std::vector<unsigned char>], [valtype]). *)
Abbreviation bytes := (list Z) (only parsing).
Abbreviation is_bytes := (Forall is_u8).

(** A string literal of the program, as its characters. *)
Definition chars (s : string) : bytes := (fun a => Z.of_N (Ascii.N_of_ascii a)) <$> String.list_ascii_of_string s.

(** ** Results of fallible code: a value, or the error that was thrown or returned. *)
Inductive result (E A : Type) : Type :=
| Ok (a : A)
| Err (e : E).
Arguments Ok {E A} a.
Arguments Err {E A} e.

(** What the C++ code would do instead of returning: a failed assertion, an undefined
    operation, or (for a model with fuel) not terminating within the bound. *)
Inductive fault := AssertFailure | NullDereference | OutOfBounds | OutOfFuel | ArithmeticError.

#[global] Instance result_ret E : MRet (result E) := fun A a => Ok a.
#[global] Instance result_bind E : MBind (result E) := fun A B f m =>
  match m with Ok a => f a | Err e => Err e end.
#[global] Instance result_fmap E : FMap (result E) := fun A B f m =>
  match m with Ok a => Ok (f a) | Err e => Err e end.

(** Binding of a tuple of results. *)
Notation "'let*' p := m 'in' k" := (match m with Ok p => k | Err e => Err e end)
  (at level 10, p pattern, m at level 100, k at level 200) : hnb_scope.
#[global] Open Scope hnb_scope.

Definition guard_or {E} (b : bool) (e : E) : result E unit :=
  if b then Ok tt else Err e.

Definition is_ok {E A} (r : result E A) : bool :=
  match r with Ok _ => true | Err _ => false end.

(** ** Automation *)

Create HintDb hnb.

(** Turn boolean comparisons of the code, in hypotheses and goal, into
    propositions. *)
Ltac b2p :=
  repeat match goal with
  | H : (_ && _)%bool = true |- _ => apply andb_true_iff in H; destruct H
  | H : (_ || _)%bool = false |- _ => apply orb_false_iff in H; destruct H
  | H : negb _ = true |- _ => apply negb_true_iff in H
  | H : negb _ = false |- _ => apply negb_false_iff in H
  | H : (_ =? _) = true |- _ => apply Z.eqb_eq in H
  | H : (_ =? _) = false |- _ => apply Z.eqb_neq in H
  | H : (_ <? _) = true |- _ => apply Z.ltb_lt in H
  | H : (_ <? _) = false |- _ => apply Z.ltb_ge in H
  | H : (_ <=? _) = true |- _ => apply Z.leb_le in H
  | H : (_ <=? _) = false |- _ => apply Z.leb_gt in H
  | H : (_ >? _) = _ |- _ => rewrite Z.gtb_ltb in H
  | H : (_ >=? _) = _ |- _ => rewrite Z.geb_leb in H
  | H : (_ =? _)%nat = true |- _ => apply Nat.eqb_eq in H
  | H : (_ =? _)%nat = false |- _ => apply Nat.eqb_neq in H
  | H : (_ <? _)%nat = true |- _ => apply Nat.ltb_lt in H
  | H : (_ <? _)%nat = false |- _ => apply Nat.ltb_ge in H
  | H : (_ <=? _)%nat = true |- _ => apply Nat.leb_le in H
  | H : (_ <=? _)%nat = false |- _ => apply Nat.leb_gt in H
  end.

(** Case split on the first boolean test of the goal and simplify. *)
Ltac split_if :=
  match goal with
  | |- context [if ?b then _ else _] =>
    lazymatch type of b with bool => destruct b eqn:?; b2p end
  end.

Lemma bind_Ok {E A B} (f : A -> result E B) (m : result E A) b : mbind f m = Ok b -> exists a, m = Ok a /\ f a = Ok b.
Proof. destruct m as [a|]; [by exists a|done]. Qed.

(** Follow a computation that succeeded through its next step, or through all of them up
    to a case distinction. *)
Ltac ok_step H :=
  cbn [mbind result_bind] in H; cbv zeta in H;
  lazymatch type of H with
  | mbind _ _ = Ok _ => let E := fresh "E" in let r := fresh "r" in apply bind_Ok in H as (r & E & H); cbv beta in H
  | (match ?m with Ok _ => _ | Err _ => _ end) = Ok _ =>
    let E := fresh "E" in let r := fresh "r" in destruct m as [r|] eqn:E; [|discriminate H]
  | (let (_, _) := ?p in _) = Ok _ => destruct p
  end.
Ltac ok_steps H := repeat ok_step H.

(** Unfold the range predicates of single values, in hypotheses and goal. *)
Ltac ranges :=
  repeat match goal with
  | H : is_u8 _ |- _ => unfold is_u8 in H
  | H : is_u32 _ |- _ => unfold is_u32 in H
  | H : is_u64 _ |- _ => unfold is_u64 in H
  | H : is_i32 _ |- _ => unfold is_i32 in H
  | H : is_i64 _ |- _ => unfold is_i64 in H
  | |- is_u8 _ => unfold is_u8
  | |- is_u32 _ => unfold is_u32
  | |- is_u64 _ => unfold is_u64
  | |- is_i32 _ => unfold is_i32
  | |- is_i64 _ => unfold is_i64
  end.

(** Split a conjunction into all its parts. *)
Ltac splits := repeat match goal with |- _ /\ _ => split end.

(** ** Integers *)

Lemma u8_range x : is_u8 (u8 x).
Proof. unfold is_u8, u8. apply Z.mod_pos_bound. lia. Qed.
Lemma u32_range x : is_u32 (u32 x).
Proof. unfold is_u32, u32. apply Z.mod_pos_bound. lia. Qed.
Lemma u64_range x : is_u64 (u64 x).
Proof. unfold is_u64, u64. apply Z.mod_pos_bound. lia. Qed.
Lemma u8_id x : is_u8 x -> u8 x = x.
Proof. apply Z.mod_small. Qed.
Lemma u32_id x : is_u32 x -> u32 x = x.
Proof. apply Z.mod_small. Qed.
Lemma u64_id x : is_u64 x -> u64 x = x.
Proof. apply Z.mod_small. Qed.
Lemma swrap_id w x : 0 < w -> - 2 ^ (w - 1) <= x < 2 ^ (w - 1) -> swrap w x = x.
Proof.
  intros Hw Hx. unfold swrap. rewrite Z.mod_small; [lia|].
  replace (2 ^ w) with (2 * 2 ^ (w - 1)); [lia|].
  rewrite <- Z.pow_succ_r by lia. f_equal. lia.
Qed.
Lemma i32_id x : is_i32 x -> i32 x = x.
Proof. intros H. apply swrap_id; unfold is_i32 in H; lia. Qed.
Lemma i64_id x : is_i64 x -> i64 x = x.
Proof. intros H. apply swrap_id; unfold is_i64 in H; lia. Qed.

#[export] Hint Resolve u8_range u32_range u64_range : hnb.

(** Values with no common bit: disjunction is addition. *)
Lemma lor_add_disjoint a b n :
  0 <= n -> 0 <= a < 2 ^ n -> Z.lor a (b * 2 ^ n) = a + b * 2 ^ n.
Proof.
  intros Hn Ha.
  rewrite <- Z.lxor_lor, <- Z.add_nocarry_lxor; try reflexivity;
  apply Z.bits_inj'; intros i Hi; rewrite Z.land_spec, Z.bits_0;
  destruct (decide (i < n)).
  1,3: rewrite Z.mul_pow2_bits_low by lia; apply andb_false_r.
  all: rewrite <- (Z.mod_small a (2 ^ n)), Z.mod_pow2_bits_high by lia; reflexivity.
Qed.

Lemma Zlor_comm_add a b n :
  0 <= n -> 0 <= a < 2 ^ n -> Z.lor (b * 2 ^ n) a = a + b * 2 ^ n.
Proof. intros. rewrite Z.lor_comm. by apply lor_add_disjoint. Qed.

Lemma land_ones_mod a n : 0 <= n -> Z.land a (2 ^ n - 1) = a mod 2 ^ n.
Proof.
  intros. rewrite <- Z.land_ones by lia. f_equal. rewrite Z.ones_equiv. lia.
Qed.

Lemma lor_range a b n : 0 <= n -> 0 <= a < 2 ^ n -> 0 <= b < 2 ^ n -> 0 <= Z.lor a b < 2 ^ n.
Proof.
  intros Hn Ha Hb. split; [apply Z.lor_nonneg; lia|].
  assert (Hm : Z.lor a b = Z.lor a b mod 2 ^ n).
  { apply Z.bits_inj'. intros i Hi. destruct (decide (i < n)).
    - by rewrite Z.mod_pow2_bits_low by lia.
    - rewrite Z.mod_pow2_bits_high, Z.lor_spec by lia.
      rewrite <- (Z.mod_small a (2 ^ n)), <- (Z.mod_small b (2 ^ n)) by lia.
      by rewrite !Z.mod_pow2_bits_high by lia. }
  rewrite Hm. apply Z.mod_pos_bound. lia.
Qed.

(** A mixed-radix step: low digit [x], the rest [y] kept modulo [m]. *)
Lemma mod_digit x y n m :
  0 <= x < n -> 0 < m -> x + n * (y mod m) = (x + n * y) mod (n * m).
Proof.
  intros Hx Hm. rewrite Z.rem_mul_r by lia.
  rewrite (Z.mul_comm n y), Z.mod_add, Z.div_add by lia.
  by rewrite (Z.mod_small x), (Z.div_small x), Z.add_0_l by lia.
Qed.

(** ** Loops over an index range *)

(** Invariant rule for [for (i = 0; i < n; i++) acc = f acc i]. *)
Lemma foldl_seq_inv {A} (P : nat -> A -> Prop) (f : A -> nat -> A) (n : nat) (init : A) :
  P 0%nat init ->
  (forall i acc, (i < n)%nat -> P i acc -> P (S i) (f acc i)) ->
  P n (foldl f init (seq 0 n)).
Proof.
  intros H0 Hs.
  assert (Hg : forall k s acc, (s + k <= n)%nat -> P s acc -> P (s + k)%nat (foldl f acc (seq s k))).
  { induction k as [|k IH]; intros s acc Hk Hp; simpl; [by rewrite Nat.add_0_r|].
    replace (s + S k)%nat with (S s + k)%nat by lia. apply IH; [lia|]. apply Hs; [lia|done]. }
  apply (Hg n 0%nat); [lia|done].
Qed.

(** ** Bit length *)

(** Position of the highest set bit plus one, zero for zero. *)
Definition bit_length (x : Z) : Z := if x =? 0 then 0 else Z.log2 x + 1.

Lemma bit_length_unique x n :
  0 < n -> 2 ^ (n - 1) <= x < 2 ^ n -> bit_length x = n.
Proof.
  intros Hn Hx. unfold bit_length.
  assert (0 < 2 ^ (n - 1)) by (apply Z.pow_pos_nonneg; lia).
  destruct (Z.eqb_spec x 0); [lia|].
  rewrite (Z.log2_unique x (n - 1)); [lia|lia|].
  by replace (Z.succ (n - 1)) with n by lia.
Qed.

Lemma bit_length_bounds x :
  0 < x -> 0 < bit_length x /\ 2 ^ (bit_length x - 1) <= x < 2 ^ bit_length x.
Proof.
  intros Hx. unfold bit_length. destruct (Z.eqb_spec x 0); [lia|].
  pose proof (Z.log2_spec x Hx). pose proof (Z.log2_nonneg x).
  replace (Z.log2 x + 1 - 1) with (Z.log2 x) by lia.
  replace (Z.log2 x + 1) with (Z.succ (Z.log2 x)) by lia. lia.
Qed.

Lemma bit_length_le x n : 0 <= n -> 0 <= x < 2 ^ n -> 0 <= bit_length x <= n.
Proof.
  intros Hn Hx. unfold bit_length. destruct (Z.eqb_spec x 0); [lia|].
  pose proof (Z.log2_nonneg x). pose proof (Z.log2_lt_pow2 x n ltac:(lia)). lia.
Qed.

Lemma bit_length_lt x : 0 <= x -> x < 2 ^ bit_length x.
Proof.
  intros Hx. destruct (decide (x = 0)) as [->|Hn]; [vm_compute; done|].
  apply bit_length_bounds. lia.
Qed.

Lemma land_bit_zero x n : 0 <= n -> (Z.land x (Z.shiftl 1 n) =? 0) = negb (Z.testbit x n).
Proof.
  intros Hn. rewrite Z.shiftl_1_l. apply eq_true_iff_eq.
  rewrite Z.eqb_eq, negb_true_iff. split.
  - intros H. apply (f_equal (fun z => Z.testbit z n)) in H.
    rewrite Z.land_spec, Z.pow2_bits_true, Z.bits_0, andb_true_r in H; done.
  - intros H. apply Z.bits_inj'. intros i Hi. rewrite Z.land_spec, Z.bits_0.
    rewrite Z.pow2_bits_eqb by done. destruct (Z.eqb_spec n i) as [->|]; [|apply andb_false_r].
    by rewrite H.
Qed.

Lemma lor_pow2_clear x n : 0 <= n -> Z.testbit x n = false -> Z.lor x (2 ^ n) = x + 2 ^ n.
Proof.
  intros Hn Ht.
  assert (Z.land x (2 ^ n) = 0).
  { apply Z.eqb_eq. rewrite <- Z.shiftl_1_l, land_bit_zero by done. by rewrite Ht. }
  by rewrite <- Z.lxor_lor, <- Z.add_nocarry_lxor by done.
Qed.

Lemma testbit_multiple x n i : 0 <= i < n -> Z.testbit (x * 2 ^ n) i = false.
Proof. intros. apply Z.mul_pow2_bits_low. lia. Qed.

(** Two values of [0, m) that agree modulo [m]. *)
Lemma mod_unique_range x y m : 0 <= x < m -> (exists k, y = x + k * m) -> x = y mod m.
Proof. intros Hx [k ->]. rewrite Z.mod_add by lia. by rewrite Z.mod_small. Qed.

Lemma Zland_le_r a b : 0 <= a -> 0 <= b -> Z.land a b <= b.
Proof.
  intros Ha Hb. rewrite <- (Z2N.id a), <- (Z2N.id b), <- N2Z.inj_land by done.
  apply N2Z.inj_le, N.land_le_r.
Qed.
