(* ===== verification/Endian.v ===== *)
(** * Byte order: [src/crypto/common.h]

    The fixed-width readers and writers of the code base, on byte strings, and
    their round trips.  A pointer to [n] bytes is the list of the bytes from
    there on. *)

From S2P Require Import Prelude.

(** ** Definitions *)

(** The little-endian representation of an integer on [n] bytes. *)
Fixpoint le_split (n : nat) (x : Z) : bytes :=
  match n with
  | O => []
  | S n => x mod 256 :: le_split n (x / 256)
  end.

(** The value of a little-endian byte string. *)
Fixpoint le_combine (b : bytes) : Z :=
  match b with
  | [] => 0
  | x :: r => x + 256 * le_combine r
  end.

Definition ReadLE16 (ptr : bytes) : Z := le_combine (take 2 ptr).
Definition ReadLE32 (ptr : bytes) : Z := le_combine (take 4 ptr).
Definition ReadLE64 (ptr : bytes) : Z := le_combine (take 8 ptr).
Definition WriteLE16 (x : Z) : bytes := le_split 2 x.
Definition WriteLE32 (x : Z) : bytes := le_split 4 x.
Definition WriteLE64 (x : Z) : bytes := le_split 8 x.
Definition ReadBE32 (ptr : bytes) : Z := le_combine (reverse (take 4 ptr)).
Definition ReadBE64 (ptr : bytes) : Z := le_combine (reverse (take 8 ptr)).
Definition WriteBE32 (x : Z) : bytes := reverse (le_split 4 x).
Definition WriteBE64 (x : Z) : bytes := reverse (le_split 8 x).

(** [CountBits], the portable loop: number of right shifts until zero. *)
Fixpoint CountBits_loop (fuel : nat) (x ret : Z) : Z :=
  match fuel with
  | O => ret
  | S fuel => if x =? 0 then ret else CountBits_loop fuel (Z.shiftr x 1) (ret + 1)
  end.
Definition CountBits (x : Z) : Z := CountBits_loop 64 x 0.

(** ** Lemmas *)

Lemma le_split_length n x : length (le_split n x) = n.
Proof. revert x. induction n; intros; simpl; auto. Qed.

Lemma le_split_bytes n x : is_bytes (le_split n x).
Proof.
  revert x. induction n; intros; simpl; constructor; auto.
  unfold is_u8. pose proof (Z.mod_pos_bound x 256). lia.
Qed.

Lemma pow256_S n : 2 ^ (8 * Z.of_nat (S n)) = 256 * 2 ^ (8 * Z.of_nat n).
Proof.
  replace (8 * Z.of_nat (S n)) with (8 + 8 * Z.of_nat n) by lia.
  rewrite Z.pow_add_r by lia. reflexivity.
Qed.

Lemma le_combine_split n x : le_combine (le_split n x) = x mod 2 ^ (8 * Z.of_nat n).
Proof.
  revert x. induction n as [|n IH]; intros x.
  - simpl. by rewrite Z.mod_1_r.
  - cbn [le_split le_combine]. rewrite IH, pow256_S, Z.rem_mul_r by lia. lia.
Qed.

Lemma le_combine_range b : is_bytes b -> 0 <= le_combine b < 2 ^ (8 * Z.of_nat (length b)).
Proof.
  induction 1 as [|x b Hx Hb IH]; [simpl; lia|].
  cbn [le_combine length]. rewrite pow256_S. unfold is_u8 in Hx. lia.
Qed.

Lemma le_split_combine b : is_bytes b -> le_split (length b) (le_combine b) = b.
Proof.
  induction 1 as [|x b Hx Hb IH]; [done|].
  cbn [le_combine length le_split]. unfold is_u8 in Hx.
  rewrite (Z.mul_comm 256), Z.mod_add, Z.div_add by lia.
  rewrite (Z.mod_small x), (Z.div_small x), Z.add_0_l by lia.
  by rewrite IH.
Qed.

Lemma le_combine_app a b :
  le_combine (a ++ b) = le_combine a + 2 ^ (8 * Z.of_nat (length a)) * le_combine b.
Proof.
  induction a as [|x a IH]; [cbn [app le_combine length]; change (2 ^ _) with 1; lia|].
  cbn [le_combine app length]. rewrite IH, pow256_S. lia.
Qed.

Lemma is_bytes_take n b : is_bytes b -> is_bytes (take n b).
Proof. apply Forall_take. Qed.
Lemma is_bytes_drop n b : is_bytes b -> is_bytes (drop n b).
Proof. apply Forall_drop. Qed.
Lemma is_bytes_app a b : is_bytes a -> is_bytes b -> is_bytes (a ++ b).
Proof. intros; by apply Forall_app. Qed.
Lemma is_bytes_snoc a x : is_bytes a -> is_u8 x -> is_bytes (a ++ [x]).
Proof. intros Ha Hx. apply Forall_app. split; [done|]. constructor; [done|constructor]. Qed.
#[export] Hint Resolve is_bytes_take is_bytes_drop is_bytes_app le_split_bytes : hnb.

(** Reading back what was written, whatever follows it in memory. *)
Lemma ReadLE32_Write x rest : is_u32 x -> ReadLE32 (WriteLE32 x ++ rest) = x.
Proof.
  intros. unfold ReadLE32, WriteLE32.
  rewrite (take_app_length' (le_split 4 x)) by (symmetry; apply le_split_length).
  rewrite le_combine_split. by apply Z.mod_small.
Qed.

Lemma ReadBE32_Write x rest : is_u32 x -> ReadBE32 (WriteBE32 x ++ rest) = x.
Proof.
  intros. unfold ReadBE32, WriteBE32.
  rewrite take_app_length' by (by rewrite length_reverse, le_split_length).
  rewrite reverse_involutive, le_combine_split. by apply Z.mod_small.
Qed.

Lemma ReadLE64_Write x rest : is_u64 x -> ReadLE64 (WriteLE64 x ++ rest) = x.
Proof.
  intros. unfold ReadLE64, WriteLE64.
  rewrite (take_app_length' (le_split 8 x)) by (symmetry; apply le_split_length).
  rewrite le_combine_split. by apply Z.mod_small.
Qed.

(** Writing back what was read. *)
Lemma WriteLE32_Read ptr : is_bytes ptr -> (4 <= length ptr)%nat -> WriteLE32 (ReadLE32 ptr) = take 4 ptr.
Proof.
  intros Hb Hl. unfold WriteLE32, ReadLE32.
  assert (H4 : length (take 4 ptr) = 4%nat) by (rewrite length_take; lia).
  rewrite <- H4 at 1. auto using le_split_combine with hnb.
Qed.

Lemma ReadLE32_range ptr : is_bytes ptr -> is_u32 (ReadLE32 ptr).
Proof.
  intros Hb. unfold ReadLE32, is_u32.
  pose proof (le_combine_range (take 4 ptr) (is_bytes_take _ _ Hb)) as H.
  rewrite length_take in H. split; [lia|]. eapply Z.lt_le_trans; [apply H|].
  apply Z.pow_le_mono_r; lia.
Qed.

(** [CountBits] is the bit length of a 64-bit word. *)
Lemma CountBits_loop_spec fuel x ret :
  0 <= x < 2 ^ Z.of_nat fuel ->
  CountBits_loop fuel x ret = ret + (if x =? 0 then 0 else Z.log2 x + 1).
Proof.
  revert x ret. induction fuel as [|fuel IH]; intros x ret Hx.
  - simpl in *. replace x with 0 by lia. simpl. lia.
  - cbn [CountBits_loop]. destruct (Z.eqb_spec x 0) as [->|Hn]; [lia|].
    rewrite Z.shiftr_div_pow2 by lia. change (2 ^ 1) with 2.
    rewrite Nat2Z.inj_succ, Z.pow_succ_r in Hx by lia.
    assert (0 <= x / 2 < 2 ^ Z.of_nat fuel).
    { split; [apply Z.div_pos; lia | apply Z.div_lt_upper_bound; lia]. }
    rewrite IH by lia. destruct (Z.eqb_spec (x / 2) 0) as [E|E].
    + assert (x = 1) as -> by (apply Z.div_small_iff in E; lia). simpl. lia.
    + assert (2 <= x) by (destruct (decide (x = 1)); [subst; by vm_compute in E | lia]).
      change 2 with (2 ^ 1). rewrite <- Z.shiftr_div_pow2, Z.log2_shiftr by lia.
      pose proof (Z.log2_le_mono 2 x ltac:(lia)). change (Z.log2 2) with 1 in *. lia.
Qed.

Lemma CountBits_spec x : is_u64 x -> CountBits x = if x =? 0 then 0 else Z.log2 x + 1.
Proof. intros. unfold CountBits. rewrite CountBits_loop_spec; [lia|done]. Qed.
