(* ===== verification/Params.v ===== *)
(** * Consensus parameters and block headers: [src/consensus/params.h],
    [src/primitives/block.h]

    The records the consensus components read.  A network's parameters are an
    argument of the definitions that use them; [main_params] are the values
    [CMainParams] sets in [src/chainparams.cpp]. *)

From S2P Require Import Prelude Endian.

Record BIP9Deployment := mkDeployment {
  dep_bit : Z;
  nStartTime : Z;
  nTimeout : Z;
  nOverrideMinerConfirmationWindow : Z;
  nOverrideRuleChangeActivationThreshold : Z;
}.

Record Params := mkParams {
  nSubsidyHalvingInterval : Z;
  nBIP34Enabled : bool;
  nBIP65Enabled : bool;
  nBIP66Enabled : bool;
  nRuleChangeActivationThreshold : Z;
  nMinerConfirmationWindow : Z;
  vDeployments : list BIP9Deployment;
  powLimit : bytes;
  kawpowLimit : bytes;
  fPowAllowMinDifficultyBlocks : bool;
  fPowNoRetargeting : bool;
  nPowTargetSpacing : Z;
  nPowTargetTimespan : Z;
  nMinimumChainWork : bytes;
  nSegwitEnabled : bool;
  nCSVEnabled : bool;
}.

(** C++ integer division truncates; a zero divisor traps. *)
Definition c_div (a b : Z) : option Z := if b =? 0 then None else Some (Z.quot a b).
Definition c_rem (a b : Z) : option Z := if b =? 0 then None else Some (Z.rem a b).

Definition DifficultyAdjustmentInterval (params : Params) : option Z :=
  c_div (nPowTargetTimespan params) (nPowTargetSpacing params).

(** [CBlockHeader]. *)
Record CBlockHeader := mkHeader {
  hdr_nVersion : Z;
  hdr_hashPrevBlock : bytes;
  hdr_hashMerkleRoot : bytes;
  hdr_nTime : Z;
  hdr_nBits : Z;
  hdr_nNonce : Z;
  hdr_nHeight : Z;
  hdr_nNonce64 : Z;
  hdr_mix_hash : bytes;
}.

(** Limits of [src/consensus/consensus.h] and the getters of [consensus.cpp]. *)
Definition MAX_BLOCK_WEIGHT : Z := 4000000.
Definition MAX_BLOCK_WEIGHT_RIP2 : Z := 8000000.
Definition MAX_BLOCK_SERIALIZED_SIZE_RIP2 : Z := 8000000.
Definition MAX_BLOCK_SIGOPS_COST : Z := 80000.
Definition COINBASE_MATURITY : Z := 100.
Definition WITNESS_SCALE_FACTOR : Z := 4.
Definition MIN_TRANSACTION_WEIGHT : Z := WITNESS_SCALE_FACTOR * 60.
Definition GetMaxBlockWeight : Z := MAX_BLOCK_WEIGHT_RIP2.
Definition GetMaxBlockSerializedSize : Z := MAX_BLOCK_SERIALIZED_SIZE_RIP2.

Definition null_uint256 : bytes := replicate 32 0.

Definition header_SetNull : CBlockHeader :=
  {| hdr_nVersion := 0; hdr_hashPrevBlock := null_uint256; hdr_hashMerkleRoot := null_uint256;
     hdr_nTime := 0; hdr_nBits := 0; hdr_nNonce := 0; hdr_nHeight := 0; hdr_nNonce64 := 0;
     hdr_mix_hash := null_uint256 |}.

Definition header_IsNull (h : CBlockHeader) : bool := hdr_nBits h =? 0.

(** [SetHex] of a 64-digit constant: its 32 bytes, least significant first. *)
Definition uint256_of_Z (x : Z) : bytes := le_split 32 x.

(** Mainnet values of [CMainParams] used by the proof-of-work and subsidy code. *)
Definition main_params : Params :=
  {| nSubsidyHalvingInterval := 2100000;
     nBIP34Enabled := true; nBIP65Enabled := true; nBIP66Enabled := true;
     nRuleChangeActivationThreshold := 1613;
     nMinerConfirmationWindow := 2016;
     vDeployments :=
       [mkDeployment 28 1199145601 1230767999 2016 1814;
        mkDeployment 6 1750251600 1854843600 2016 1814;
        mkDeployment 7 1755435600 1854843600 2016 1714;
        mkDeployment 8 1758027600 1854843600 2016 1714;
        mkDeployment 9 1758027600 1854843600 2016 1411;
        mkDeployment 10 1759237200 1854843600 2016 1411];
     powLimit := uint256_of_Z (2 ^ 236 - 1);
     kawpowLimit := uint256_of_Z (2 ^ 216 - 1);
     fPowAllowMinDifficultyBlocks := false;
     fPowNoRetargeting := false;
     nPowTargetSpacing := 1 * 60;
     nPowTargetTimespan := 2016 * 60;
     nMinimumChainWork := null_uint256;
     nSegwitEnabled := true; nCSVEnabled := true |}.
