(* ===== verification/Hasher.v ===== *)
(** * Streaming hash functions: the [Write]/[Finalize] classes of [src/crypto]

    [CSHA256], [CSHA1], [CSHA512] and [CRIPEMD160] share one structure: words of
    state, a buffer of one block, a byte counter; [Write] completes the buffer,
    processes whole blocks directly from the input and keeps the rest.  The class
    [BlockHash] states what differs.  The specification is the one-shot hash of the padded message,
    and the theorem of this file is that any sequence of [Write]s computes it. *)

From S2P Require Import Prelude Endian.

(** [memcpy(buf + off, data, len)] into an array. *)
Definition memcpy (buf : bytes) (off : nat) (data : bytes) : bytes :=
  take off buf ++ data ++ drop (off + length data) buf.

Class BlockHash := {
  block_size : nat;
  init_words : list Z;                    (* Initialize *)
  transform : list Z -> bytes -> list Z;  (* Transform on one chunk *)
  size_desc : Z -> bytes;                 (* sizedesc from bytes << 3 *)
  pad_base : Z;                           (* 119 or 239 *)
  output_words : list Z -> bytes;         (* the writes into hash[] *)
}.

Class BlockHashOk (H : BlockHash) := {
  block_size_divides : exists k, 2 ^ 64 = k * Z.of_nat block_size;
  block_size_pos : (0 < block_size)%nat;
}.

Record hasher := mkHasher {
  h_words : list Z;
  h_buf : bytes;
  h_bytes : Z;
}.

Section Hasher.
Context {H : BlockHash}.

(** The constructor and [Reset]; the buffer is uninitialised. *)
Definition hasher_init (garbage : bytes) : hasher :=
  {| h_words := init_words; h_buf := garbage; h_bytes := 0 |}.
Definition hasher_Reset (h : hasher) : hasher :=
  {| h_words := init_words; h_buf := h_buf h; h_bytes := 0 |}.

(** Process [n] full chunks directly from the source. *)
Fixpoint absorb (n : nat) (s : list Z) (data : bytes) : list Z :=
  match n with
  | O => s
  | S n => absorb n (transform s (take block_size data)) (drop block_size data)
  end.

(** "Fill the buffer, and process it." *)
Definition write_fill (h : hasher) (bufsize : nat) (data : bytes) : hasher * bytes :=
  let k := (block_size - bufsize)%nat in
  let buf := memcpy (h_buf h) bufsize (take k data) in
  ({| h_words := transform (h_words h) buf; h_buf := buf; h_bytes := u64 (h_bytes h + Z.of_nat k) |}, drop k data).

Definition write_blocks (h : hasher) (data : bytes) : hasher * bytes :=
  let n := (length data / block_size)%nat in
  ({| h_words := absorb n (h_words h) data; h_buf := h_buf h;
      h_bytes := u64 (h_bytes h + Z.of_nat (n * block_size)) |}, drop (n * block_size) data).

(** "Fill the buffer with what remains." *)
Definition write_tail (h : hasher) (bufsize : nat) (data : bytes) : hasher :=
  match data with
  | [] => h
  | _ => {| h_words := h_words h; h_buf := memcpy (h_buf h) bufsize data;
            h_bytes := u64 (h_bytes h + Z.of_nat (length data)) |}
  end.

Definition hasher_Write (h : hasher) (data : bytes) : hasher :=
  let bufsize := Z.to_nat (h_bytes h mod Z.of_nat block_size) in
  let '(h, data, bufsize) :=
    if negb (bufsize =? 0)%nat && (block_size <=? bufsize + length data)%nat
    then let '(h, data) := write_fill h bufsize data in (h, data, O)
    else (h, data, bufsize) in
  let '(h, data) := if (block_size <=? length data)%nat then write_blocks h data else (h, data) in
  write_tail h bufsize data.

Definition pad_bytes : bytes := 0x80 :: replicate (block_size - 1) 0.

(** How many bytes of [pad] are written: [1 + ((119 - (bytes % 64)) % 64)]. *)
Definition pad_len (nbytes : Z) : nat :=
  Z.to_nat (1 + (pad_base - nbytes mod Z.of_nat block_size) mod Z.of_nat block_size).

(** The state [Finalize] leaves behind, and its output. *)
Definition hasher_finalized (h : hasher) : hasher :=
  let sizedesc := size_desc (u64 (Z.shiftl (h_bytes h) 3)) in
  let h := hasher_Write h (take (pad_len (h_bytes h)) pad_bytes) in
  hasher_Write h sizedesc.
Definition hasher_Finalize (h : hasher) : bytes := output_words (h_words (hasher_finalized h)).

(** ** Specification *)

Definition padded (M : bytes) : bytes :=
  M ++ take (pad_len (Z.of_nat (length M))) pad_bytes ++ size_desc (u64 (8 * Z.of_nat (length M))).

Definition md_hash (M : bytes) : bytes :=
  let P := padded M in output_words (absorb (length P / block_size) init_words P).

(** The hasher has absorbed [M]. *)
Definition repr (h : hasher) (M : bytes) : Prop :=
  length (h_buf h) = block_size
  /\ h_bytes h = u64 (Z.of_nat (length M))
  /\ h_words h = absorb (length M / block_size) init_words M
  /\ take (length M mod block_size) (h_buf h) = drop (length M / block_size * block_size) M.
End Hasher.

Section HasherProofs.
Context {H : BlockHash} {HOk : BlockHashOk H}.
Local Abbreviation B := block_size.

Lemma absorb_app n k s M : absorb (n + k) s M = absorb k (absorb n s M) (drop (n * B) M).
Proof.
  revert s M. induction n as [|n IH]; intros s M; cbn [absorb Nat.add Nat.mul]; [by rewrite drop_0|].
  rewrite IH, drop_drop. done.
Qed.

Lemma absorb_prefix n s M X : (n * B <= length M)%nat -> absorb n s (M ++ X) = absorb n s M.
Proof.
  revert s M. induction n as [|n IH]; intros s M Hl; cbn [absorb]; [done|]. cbn [Nat.mul] in Hl.
  rewrite take_app_le, drop_app_le by lia. apply IH. rewrite length_drop. lia.
Qed.

Lemma bytes_mod n : Z.to_nat (u64 (Z.of_nat n) mod Z.of_nat B) = (n mod B)%nat.
Proof.
  pose proof block_size_pos as HB. destruct block_size_divides as [k Hk].
  unfold u64. rewrite Hk, Z.mod_mod_divide by (by exists k).
  rewrite <- Nat2Z.inj_mod. lia.
Qed.

Lemma u64_add n k : u64 (u64 (Z.of_nat n) + Z.of_nat k) = u64 (Z.of_nat (n + k)).
Proof. unfold u64. rewrite Zplus_mod_idemp_l. f_equal. lia. Qed.

Lemma div_mod_eq n : (n = n / B * B + n mod B)%nat /\ (n mod B < B)%nat.
Proof.
  pose proof block_size_pos. pose proof (Nat.div_mod_eq n B). pose proof (Nat.mod_upper_bound n B ltac:(lia)). lia.
Qed.

Lemma app_take_drop (M data : bytes) k : M ++ data = (M ++ take k data) ++ drop k data.
Proof. by rewrite <- app_assoc, take_drop. Qed.

Lemma memcpy_length buf off data :
  (off + length data <= length buf)%nat -> length (memcpy buf off data) = length buf.
Proof. intros Hl. unfold memcpy. rewrite !length_app, length_take, length_drop. lia. Qed.

Lemma memcpy_take buf off data :
  (off + length data <= length buf)%nat -> take (off + length data) (memcpy buf off data) = take off buf ++ data.
Proof.
  intros Hl. unfold memcpy. rewrite app_assoc. apply take_app_length'. rewrite length_app, length_take. lia.
Qed.

(** Completing a partial block. *)
Lemma write_fill_spec h M data :
  repr h M -> let r := (length M mod B)%nat in (r <> 0)%nat -> (B <= r + length data)%nat ->
  let '(h', data') := write_fill h r data in
  repr h' (M ++ take (B - r) data) /\ data' = drop (B - r) data /\ (length (M ++ take (B - r) data) mod B = 0)%nat.
Proof.
  intros (Hb & Hn & Hs & Hbuf) r Hr Hd. unfold write_fill. pose proof block_size_pos as HB.
  destruct (div_mod_eq (length M)) as [Hdm Hrb]. fold r in Hdm, Hrb, Hbuf. set (q := (length M / B)%nat) in *.
  set (d := take (B - r) data). assert (Hdl : length d = (B - r)%nat) by (subst d; rewrite length_take; lia).
  assert (Hlen : length (M ++ d) = (S q * B)%nat) by (rewrite length_app; cbn [Nat.mul]; lia).
  assert (Hq : (length (M ++ d) / B = S q)%nat) by (rewrite Hlen; apply Nat.div_mul; lia).
  assert (Hm : (length (M ++ d) mod B = 0)%nat) by (rewrite Hlen; apply Nat.Div0.mod_mul).
  assert (Hfull : memcpy (h_buf h) r d = drop (q * B) M ++ d).
  { unfold memcpy. rewrite Hbuf, (drop_ge (h_buf h)) by lia. by rewrite app_nil_r. }
  splits; try done. unfold repr. cbn [h_buf h_bytes h_words]. rewrite Hq, Hm. splits.
  - rewrite memcpy_length; lia.
  - rewrite Hn, u64_add. do 2 f_equal. rewrite length_app, Hdl. done.
  - rewrite <- Nat.add_1_r, absorb_app, absorb_prefix, <- Hs by lia. cbn [absorb].
    rewrite drop_app_le by lia. rewrite Hfull, take_ge; [done|]. rewrite length_app, length_drop. lia.
  - rewrite take_0, drop_ge; [done|]. lia.
Qed.

Lemma write_blocks_spec h M data :
  repr h M -> (length M mod B = 0)%nat ->
  let '(h', data') := write_blocks h data in
  let n := (length data / B)%nat in
  repr h' (M ++ take (n * B) data) /\ data' = drop (n * B) data
  /\ (length (M ++ take (n * B) data) mod B = 0)%nat.
Proof.
  intros (Hb & Hn & Hs & Hbuf) Hm0. unfold write_blocks. cbv zeta. pose proof block_size_pos as HB.
  destruct (div_mod_eq (length M)) as [Hdm _]. destruct (div_mod_eq (length data)) as [Hdd Hdr].
  set (q := (length M / B)%nat) in *. set (n := (length data / B)%nat) in *.
  assert (Htl : length (take (n * B) data) = (n * B)%nat) by (rewrite length_take; lia).
  assert (Hlen : length (M ++ take (n * B) data) = ((q + n) * B)%nat) by (rewrite length_app; lia).
  assert (Hq : (length (M ++ take (n * B) data) / B = q + n)%nat) by (rewrite Hlen; apply Nat.div_mul; lia).
  assert (Hm : (length (M ++ take (n * B) data) mod B = 0)%nat) by (rewrite Hlen; apply Nat.Div0.mod_mul).
  splits; try done. unfold repr. cbn [h_buf h_bytes h_words]. rewrite Hq, Hm. splits; try done.
  - rewrite Hn, u64_add. do 2 f_equal. rewrite length_app, Htl. done.
  - rewrite absorb_app, absorb_prefix, <- Hs by lia. rewrite drop_app_le, drop_ge by lia. cbn [app].
    rewrite <- (take_drop (n * B) data) at 1. rewrite absorb_prefix by lia. done.
  - rewrite take_0, drop_ge; [done|]. lia.
Qed.

Lemma write_tail_spec h M data :
  repr h M -> (length M mod B + length data < B)%nat ->
  repr (write_tail h (length M mod B) data) (M ++ data).
Proof.
  intros (Hb & Hn & Hs & Hbuf) Hlt. pose proof block_size_pos as HB. unfold write_tail.
  destruct data as [|x data]; [rewrite app_nil_r; by splits|]. set (d := x :: data) in *.
  destruct (div_mod_eq (length M)) as [Hdm _]. set (q := (length M / B)%nat) in *. set (r := (length M mod B)%nat) in *.
  assert (Hq : (length (M ++ d) / B = q)%nat).
  { rewrite length_app. symmetry. apply (Nat.div_unique _ B q (r + length d)); lia. }
  assert (Hm : (length (M ++ d) mod B = r + length d)%nat).
  { rewrite length_app. symmetry. apply (Nat.mod_unique _ B q (r + length d)); lia. }
  unfold repr. cbn [h_buf h_bytes h_words]. rewrite Hq, Hm. splits.
  - rewrite memcpy_length; lia.
  - rewrite Hn, u64_add. by rewrite length_app.
  - by rewrite absorb_prefix by lia.
  - rewrite memcpy_take, Hbuf by lia. by rewrite drop_app_le by lia.
Qed.

Lemma hasher_Write_spec h M data : repr h M -> repr (hasher_Write h data) (M ++ data).
Proof.
  intros Hr. pose proof block_size_pos as HB. unfold hasher_Write.
  pose proof Hr as (_ & Hn & _). rewrite Hn, bytes_mod.
  destruct (negb (length M mod B =? 0)%nat && (B <=? length M mod B + length data)%nat) eqn:Efill.
  - b2p. pose proof (write_fill_spec h M data Hr ltac:(done) ltac:(done)) as Hf.
    destruct (write_fill h _ data) as [h1 d1]. destruct Hf as (Hr1 & -> & Hm1).
    rewrite (app_take_drop M data (B - length M mod B)).
    set (M1 := M ++ take _ data) in *. set (d1 := drop _ data). clearbody M1 d1.
    destruct (B <=? length d1)%nat eqn:Eb.
    + pose proof (write_blocks_spec h1 M1 d1 Hr1 Hm1) as Hb. destruct (write_blocks h1 d1) as [h2 d2].
      destruct Hb as (Hr2 & -> & Hm2). set (k := (length d1 / B * B)%nat) in *.
      rewrite (app_take_drop M1 d1 k), <- Hm2. apply write_tail_spec; [done|].
      rewrite Hm2, length_drop. destruct (div_mod_eq (length d1)). subst k. lia.
    + b2p. rewrite <- Hm1. apply write_tail_spec; [done|]. rewrite Hm1. lia.
  - destruct (B <=? length data)%nat eqn:Eb.
    + b2p. apply andb_false_iff in Efill.
      assert (Hm0 : (length M mod B = 0)%nat) by (destruct Efill; b2p; [done|lia]).
      pose proof (write_blocks_spec h M data Hr Hm0) as Hb. destruct (write_blocks h data) as [h2 d2].
      destruct Hb as (Hr2 & -> & Hm2). set (k := (length data / B * B)%nat) in *.
      rewrite (app_take_drop M data k), Hm0, <- Hm2. apply write_tail_spec; [done|].
      rewrite Hm2, length_drop. destruct (div_mod_eq (length data)). subst k. lia.
    + b2p. apply write_tail_spec; [done|]. apply andb_false_iff in Efill. destruct Efill; b2p; lia.
Qed.

Lemma hasher_init_repr garbage : length garbage = B -> repr (hasher_init garbage) [].
Proof.
  intros Hg. pose proof block_size_pos as HB. unfold repr. cbn [length h_buf h_bytes h_words hasher_init].
  rewrite Nat.Div0.div_0_l. rewrite Nat.Div0.mod_0_l. splits; done.
Qed.

Lemma hasher_Reset_repr h M : repr h M -> repr (hasher_Reset h) [].
Proof. intros (Hb & _). by apply (hasher_init_repr (h_buf h)). Qed.

Lemma hasher_finalized_repr h M : repr h M -> repr (hasher_finalized h) (padded M).
Proof.
  intros Hr. unfold hasher_finalized, padded. pose proof Hr as (_ & Hn & _).
  assert (Hp : pad_len (h_bytes h) = pad_len (Z.of_nat (length M))).
  { unfold pad_len. rewrite Hn. pose proof block_size_pos. destruct block_size_divides as [k Hk].
    do 3 f_equal. unfold u64. by rewrite Hk, Z.mod_mod_divide by (by exists k). }
  assert (Hsz : u64 (Z.shiftl (h_bytes h) 3) = u64 (8 * Z.of_nat (length M))).
  { rewrite Hn, Z.shiftl_mul_pow2 by lia. unfold u64. rewrite Zmult_mod_idemp_l. f_equal. lia. }
  rewrite Hp, Hsz, app_assoc. do 2 apply hasher_Write_spec. done.
Qed.

Lemma hasher_Finalize_spec h M : repr h M -> hasher_Finalize h = md_hash M.
Proof.
  intros Hr. unfold hasher_Finalize, md_hash.
  destruct (hasher_finalized_repr h M Hr) as (_ & _ & Hw & _). by rewrite Hw.
Qed.

Lemma hasher_writes_repr chunks : forall h M, repr h M -> repr (foldl hasher_Write h chunks) (M ++ concat chunks).
Proof.
  induction chunks as [|c chunks IH]; intros h M Hr; cbn [foldl concat]; [by rewrite app_nil_r|].
  rewrite app_assoc. apply IH. by apply hasher_Write_spec.
Qed.

Lemma hasher_stream chunks h M :
  repr h M -> hasher_Finalize (foldl hasher_Write h chunks) = md_hash (M ++ concat chunks).
Proof. intros Hr. by apply hasher_Finalize_spec, hasher_writes_repr. Qed.
End HasherProofs.
