(* ===== verification/Sha2.v ===== *)
(** * SHA-256 and SHA-512: [src/crypto/sha256.cpp], [src/crypto/sha512.cpp]

    The compression functions with their round constants, and the classes [CSHA256]
    and [CSHA512] as instances of [BlockHash].  The portable [Transform] is
    modelled; the assembly version it may be replaced by is not. *)

From S2P Require Import Prelude Endian Hasher.

(** [(x >> n | x << (w - n))] on [w]-bit words. *)
Definition rotr (w x n : Z) : Z := Z.lor (Z.shiftr x n) (Z.shiftl x (w - n) mod 2 ^ w).

(** ** [CSHA256] *)

Definition sha256_Ch (x y z : Z) : Z := Z.lxor z (Z.land x (Z.lxor y z)).
Definition sha256_Maj (x y z : Z) : Z := Z.lor (Z.land x y) (Z.land z (Z.lor x y)).
Definition sha256_Sigma0 (x : Z) : Z := Z.lxor (Z.lxor (rotr 32 x 2) (rotr 32 x 13)) (rotr 32 x 22).
Definition sha256_Sigma1 (x : Z) : Z := Z.lxor (Z.lxor (rotr 32 x 6) (rotr 32 x 11)) (rotr 32 x 25).
Definition sha256_sigma0 (x : Z) : Z := Z.lxor (Z.lxor (rotr 32 x 7) (rotr 32 x 18)) (Z.shiftr x 3).
Definition sha256_sigma1 (x : Z) : Z := Z.lxor (Z.lxor (rotr 32 x 17) (rotr 32 x 19)) (Z.shiftr x 10).

(** The eight working variables, in the order a call of [Round] names them. *)
Definition sha256_regs : Type := Z * Z * Z * Z * Z * Z * Z * Z.

(** [Round] updates [d] and [h]; the next call names the variables one place later. *)
Definition sha256_Round (r : sha256_regs) (k w : Z) : sha256_regs :=
  let '(a, b, c, d, e, f, g, h) := r in
  let t1 := u32 (h + sha256_Sigma1 e + sha256_Ch e f g + k + w) in
  let t2 := u32 (sha256_Sigma0 a + sha256_Maj a b c) in
  (u32 (t1 + t2), a, b, c, u32 (d + t1), e, f, g).

Definition sha256_Initialize : list Z :=
  [0x6a09e667; 0xbb67ae85; 0x3c6ef372; 0xa54ff53a;
   0x510e527f; 0x9b05688c; 0x1f83d9ab; 0x5be0cd19].

(** Constant and message word of each call of [Round], in program order. *)
Definition sha256_rounds : list (Z * nat) :=
  [(0x428a2f98, 0%nat); (0x71374491, 1%nat); (0xb5c0fbcf, 2%nat); (0xe9b5dba5, 3%nat);
   (0x3956c25b, 4%nat); (0x59f111f1, 5%nat); (0x923f82a4, 6%nat); (0xab1c5ed5, 7%nat);
   (0xd807aa98, 8%nat); (0x12835b01, 9%nat); (0x243185be, 10%nat); (0x550c7dc3, 11%nat);
   (0x72be5d74, 12%nat); (0x80deb1fe, 13%nat); (0x9bdc06a7, 14%nat); (0xc19bf174, 15%nat);
   (0xe49b69c1, 0%nat); (0xefbe4786, 1%nat); (0x0fc19dc6, 2%nat); (0x240ca1cc, 3%nat);
   (0x2de92c6f, 4%nat); (0x4a7484aa, 5%nat); (0x5cb0a9dc, 6%nat); (0x76f988da, 7%nat);
   (0x983e5152, 8%nat); (0xa831c66d, 9%nat); (0xb00327c8, 10%nat); (0xbf597fc7, 11%nat);
   (0xc6e00bf3, 12%nat); (0xd5a79147, 13%nat); (0x06ca6351, 14%nat); (0x14292967, 15%nat);
   (0x27b70a85, 0%nat); (0x2e1b2138, 1%nat); (0x4d2c6dfc, 2%nat); (0x53380d13, 3%nat);
   (0x650a7354, 4%nat); (0x766a0abb, 5%nat); (0x81c2c92e, 6%nat); (0x92722c85, 7%nat);
   (0xa2bfe8a1, 8%nat); (0xa81a664b, 9%nat); (0xc24b8b70, 10%nat); (0xc76c51a3, 11%nat);
   (0xd192e819, 12%nat); (0xd6990624, 13%nat); (0xf40e3585, 14%nat); (0x106aa070, 15%nat);
   (0x19a4c116, 0%nat); (0x1e376c08, 1%nat); (0x2748774c, 2%nat); (0x34b0bcb5, 3%nat);
   (0x391c0cb3, 4%nat); (0x4ed8aa4a, 5%nat); (0x5b9cca4f, 6%nat); (0x682e6ff3, 7%nat);
   (0x748f82ee, 8%nat); (0x78a5636f, 9%nat); (0x84c87814, 10%nat); (0x8cc70208, 11%nat);
   (0x90befffa, 12%nat); (0xa4506ceb, 13%nat); (0xbef9a3f7, 14%nat); (0xc67178f2, 15%nat)].

(** The word passed to a round: as read from the chunk in the first sixteen rounds, then
    [wj += sigma1(w(j+14)) + w(j+9) + sigma0(w(j+1))], indices modulo 16. *)
Definition sha256_word (w : list Z) (i j : nat) : Z :=
  if (i <? 16)%nat then nth j w 0
  else u32 (nth j w 0 + sha256_sigma1 (nth ((j + 14) mod 16) w 0) + nth ((j + 9) mod 16) w 0
            + sha256_sigma0 (nth ((j + 1) mod 16) w 0)).

Definition sha256_step (st : sha256_regs * list Z) (call : nat * (Z * nat)) : sha256_regs * list Z :=
  let '(r, w) := st in
  let '(i, (k, j)) := call in
  let x := sha256_word w i j in
  (sha256_Round r k x, <[j := x]> w).

Definition sha256_Transform (s : list Z) (chunk : bytes) : list Z :=
  let w := map (fun i => ReadBE32 (take 4 (drop (4 * i) chunk))) (seq 0 16) in
  let x i := nth i s 0 in
  let '(a, b, c, d, e, f, g, h, _) :=
    foldl sha256_step ((x 0%nat, x 1%nat, x 2%nat, x 3%nat, x 4%nat, x 5%nat, x 6%nat, x 7%nat), w)
      (combine (seq 0 64) sha256_rounds) in
  [u32 (x 0%nat + a); u32 (x 1%nat + b); u32 (x 2%nat + c); u32 (x 3%nat + d);
   u32 (x 4%nat + e); u32 (x 5%nat + f); u32 (x 6%nat + g); u32 (x 7%nat + h)].

#[export] Instance CSHA256 : BlockHash :=
  {| block_size := 64; init_words := sha256_Initialize; transform := sha256_Transform;
     size_desc := WriteBE64; pad_base := 119; output_words s := concat (map WriteBE32 s) |}.
#[export] Instance CSHA256_ok : BlockHashOk CSHA256.
Proof. split; [exists (2 ^ 58); reflexivity|cbn; lia]. Qed.

Definition CSHA256_init : hasher := hasher_init (H := CSHA256) (replicate 64 0).
Definition CSHA256_Write : hasher -> bytes -> hasher := hasher_Write (H := CSHA256).
Definition CSHA256_Finalize : hasher -> bytes := hasher_Finalize (H := CSHA256).
Definition CSHA256_Reset : hasher -> hasher := hasher_Reset (H := CSHA256).

(** [SelfTest]: the test vectors the code checks at start-up. *)
Definition SelfTest (tr : list Z -> bytes -> nat -> list Z) : bool :=
  let in1 := 0x80 :: replicate 63 0 in
  let in2 := replicate 64 32 ++ (0x80 :: replicate 61 0) ++ [2; 0] in
  let init := [0x6a09e667; 0xbb67ae85; 0x3c6ef372; 0xa54ff53a; 0x510e527f; 0x9b05688c; 0x1f83d9ab; 0x5be0cd19] in
  let out1 := [0xe3b0c442; 0x98fc1c14; 0x9afbf4c8; 0x996fb924; 0x27ae41e4; 0x649b934c; 0xa495991b; 0x7852b855] in
  let out2 := [0xce4153b0; 0x147c2a86; 0x3ed4298e; 0xe0676bc8; 0x79fc77a1; 0x2abe1f49; 0xb2b055df; 0x1069523e] in
  if negb (bool_decide (tr init [] 0%nat = init)) then false
  else if negb (bool_decide (tr init in1 1%nat = out1)) then false
  else if negb (bool_decide (tr init in2 2%nat = out2)) then false
  else true.

Lemma SelfTest_ok : SelfTest (fun s chunk blocks => absorb (H := CSHA256) blocks s chunk) = true.
Proof. by vm_compute. Qed.

(** ** [CSHA512] *)

Definition sha512_Ch (x y z : Z) : Z := Z.lxor z (Z.land x (Z.lxor y z)).
Definition sha512_Maj (x y z : Z) : Z := Z.lor (Z.land x y) (Z.land z (Z.lor x y)).
Definition sha512_Sigma0 (x : Z) : Z := Z.lxor (Z.lxor (rotr 64 x 28) (rotr 64 x 34)) (rotr 64 x 39).
Definition sha512_Sigma1 (x : Z) : Z := Z.lxor (Z.lxor (rotr 64 x 14) (rotr 64 x 18)) (rotr 64 x 41).
Definition sha512_sigma0 (x : Z) : Z := Z.lxor (Z.lxor (rotr 64 x 1) (rotr 64 x 8)) (Z.shiftr x 7).
Definition sha512_sigma1 (x : Z) : Z := Z.lxor (Z.lxor (rotr 64 x 19) (rotr 64 x 61)) (Z.shiftr x 6).

(** The eight working variables, in the order a call of [Round] names them. *)
Definition sha512_regs : Type := Z * Z * Z * Z * Z * Z * Z * Z.

(** [Round] updates [d] and [h]; the next call names the variables one place later. *)
Definition sha512_Round (r : sha512_regs) (k w : Z) : sha512_regs :=
  let '(a, b, c, d, e, f, g, h) := r in
  let t1 := u64 (h + sha512_Sigma1 e + sha512_Ch e f g + k + w) in
  let t2 := u64 (sha512_Sigma0 a + sha512_Maj a b c) in
  (u64 (t1 + t2), a, b, c, u64 (d + t1), e, f, g).

Definition sha512_Initialize : list Z :=
  [0x6a09e667f3bcc908; 0xbb67ae8584caa73b; 0x3c6ef372fe94f82b;
   0xa54ff53a5f1d36f1; 0x510e527fade682d1; 0x9b05688c2b3e6c1f; 0x1f83d9abfb41bd6b; 0x5be0cd19137e2179].

(** Constant and message word of each call of [Round], in program order. *)
Definition sha512_rounds : list (Z * nat) :=
  [(0x428a2f98d728ae22, 0%nat); (0x7137449123ef65cd, 1%nat); (0xb5c0fbcfec4d3b2f, 2%nat);
   (0xe9b5dba58189dbbc, 3%nat); (0x3956c25bf348b538, 4%nat); (0x59f111f1b605d019, 5%nat);
   (0x923f82a4af194f9b, 6%nat); (0xab1c5ed5da6d8118, 7%nat); (0xd807aa98a3030242, 8%nat);
   (0x12835b0145706fbe, 9%nat); (0x243185be4ee4b28c, 10%nat); (0x550c7dc3d5ffb4e2, 11%nat);
   (0x72be5d74f27b896f, 12%nat); (0x80deb1fe3b1696b1, 13%nat); (0x9bdc06a725c71235, 14%nat);
   (0xc19bf174cf692694, 15%nat); (0xe49b69c19ef14ad2, 0%nat); (0xefbe4786384f25e3, 1%nat);
   (0x0fc19dc68b8cd5b5, 2%nat); (0x240ca1cc77ac9c65, 3%nat); (0x2de92c6f592b0275, 4%nat);
   (0x4a7484aa6ea6e483, 5%nat); (0x5cb0a9dcbd41fbd4, 6%nat); (0x76f988da831153b5, 7%nat);
   (0x983e5152ee66dfab, 8%nat); (0xa831c66d2db43210, 9%nat); (0xb00327c898fb213f, 10%nat);
   (0xbf597fc7beef0ee4, 11%nat); (0xc6e00bf33da88fc2, 12%nat); (0xd5a79147930aa725, 13%nat);
   (0x06ca6351e003826f, 14%nat); (0x142929670a0e6e70, 15%nat); (0x27b70a8546d22ffc, 0%nat);
   (0x2e1b21385c26c926, 1%nat); (0x4d2c6dfc5ac42aed, 2%nat); (0x53380d139d95b3df, 3%nat);
   (0x650a73548baf63de, 4%nat); (0x766a0abb3c77b2a8, 5%nat); (0x81c2c92e47edaee6, 6%nat);
   (0x92722c851482353b, 7%nat); (0xa2bfe8a14cf10364, 8%nat); (0xa81a664bbc423001, 9%nat);
   (0xc24b8b70d0f89791, 10%nat); (0xc76c51a30654be30, 11%nat); (0xd192e819d6ef5218, 12%nat);
   (0xd69906245565a910, 13%nat); (0xf40e35855771202a, 14%nat); (0x106aa07032bbd1b8, 15%nat);
   (0x19a4c116b8d2d0c8, 0%nat); (0x1e376c085141ab53, 1%nat); (0x2748774cdf8eeb99, 2%nat);
   (0x34b0bcb5e19b48a8, 3%nat); (0x391c0cb3c5c95a63, 4%nat); (0x4ed8aa4ae3418acb, 5%nat);
   (0x5b9cca4f7763e373, 6%nat); (0x682e6ff3d6b2b8a3, 7%nat); (0x748f82ee5defb2fc, 8%nat);
   (0x78a5636f43172f60, 9%nat); (0x84c87814a1f0ab72, 10%nat); (0x8cc702081a6439ec, 11%nat);
   (0x90befffa23631e28, 12%nat); (0xa4506cebde82bde9, 13%nat); (0xbef9a3f7b2c67915, 14%nat);
   (0xc67178f2e372532b, 15%nat); (0xca273eceea26619c, 0%nat); (0xd186b8c721c0c207, 1%nat);
   (0xeada7dd6cde0eb1e, 2%nat); (0xf57d4f7fee6ed178, 3%nat); (0x06f067aa72176fba, 4%nat);
   (0x0a637dc5a2c898a6, 5%nat); (0x113f9804bef90dae, 6%nat); (0x1b710b35131c471b, 7%nat);
   (0x28db77f523047d84, 8%nat); (0x32caab7b40c72493, 9%nat); (0x3c9ebe0a15c9bebc, 10%nat);
   (0x431d67c49c100d4c, 11%nat); (0x4cc5d4becb3e42b6, 12%nat); (0x597f299cfc657e2a, 13%nat);
   (0x5fcb6fab3ad6faec, 14%nat); (0x6c44198c4a475817, 15%nat)].

(** The word passed to a round: as read from the chunk in the first sixteen rounds, then
    [wj += sigma1(w(j+14)) + w(j+9) + sigma0(w(j+1))], indices modulo 16. *)
Definition sha512_word (w : list Z) (i j : nat) : Z :=
  if (i <? 16)%nat then nth j w 0
  else u64 (nth j w 0 + sha512_sigma1 (nth ((j + 14) mod 16) w 0) + nth ((j + 9) mod 16) w 0
            + sha512_sigma0 (nth ((j + 1) mod 16) w 0)).

Definition sha512_step (st : sha512_regs * list Z) (call : nat * (Z * nat)) : sha512_regs * list Z :=
  let '(r, w) := st in
  let '(i, (k, j)) := call in
  let x := sha512_word w i j in
  (sha512_Round r k x, <[j := x]> w).

Definition sha512_Transform (s : list Z) (chunk : bytes) : list Z :=
  let w := map (fun i => ReadBE64 (take 8 (drop (8 * i) chunk))) (seq 0 16) in
  let x i := nth i s 0 in
  let '(a, b, c, d, e, f, g, h, _) :=
    foldl sha512_step ((x 0%nat, x 1%nat, x 2%nat, x 3%nat, x 4%nat, x 5%nat, x 6%nat, x 7%nat), w)
      (combine (seq 0 80) sha512_rounds) in
  [u64 (x 0%nat + a); u64 (x 1%nat + b); u64 (x 2%nat + c); u64 (x 3%nat + d);
   u64 (x 4%nat + e); u64 (x 5%nat + f); u64 (x 6%nat + g); u64 (x 7%nat + h)].

#[export] Instance CSHA512 : BlockHash :=
  {| block_size := 128; init_words := sha512_Initialize; transform := sha512_Transform;
     size_desc x := replicate 8 0 ++ WriteBE64 x; pad_base := 239; output_words s := concat (map WriteBE64 s) |}.
#[export] Instance CSHA512_ok : BlockHashOk CSHA512.
Proof. split; [exists (2 ^ 57); reflexivity|cbn; lia]. Qed.

Definition CSHA512_init : hasher := hasher_init (H := CSHA512) (replicate 128 0).
Definition CSHA512_Write : hasher -> bytes -> hasher := hasher_Write (H := CSHA512).
Definition CSHA512_Finalize : hasher -> bytes := hasher_Finalize (H := CSHA512).
Definition CSHA512_Reset : hasher -> hasher := hasher_Reset (H := CSHA512).

(** The FIPS 180-4 vector for "abc". *)
Lemma sha512_abc :
  le_combine (reverse (CSHA512_Finalize (CSHA512_Write CSHA512_init [97; 98; 99])))
  = 0xddaf35a193617abacc417349ae20413112e6fa4e89a97ea20a9eeee64b55d39a2192992a274fc1a836ba3c23a3feebbd454d4423643ce80e2a9ac94fa54ca49f.
Proof. by vm_compute. Qed.
