(* ===== verification/Sha1Ripemd.v ===== *)
(** * SHA-1 and RIPEMD-160: [src/crypto/sha1.cpp], [src/crypto/ripemd160.cpp] *)

From S2P Require Import Prelude Endian Hasher.

(** ** [CSHA1] *)

(** [(x << n) | (x >> (32 - n))] *)
Definition rol (x n : Z) : Z := Z.lor (u32 (Z.shiftl x n)) (Z.shiftr x (32 - n)).

Definition sha1_f1 (b c d : Z) : Z := Z.lxor d (Z.land b (Z.lxor c d)).
Definition sha1_f2 (b c d : Z) : Z := Z.lxor (Z.lxor b c) d.
Definition sha1_f3 (b c d : Z) : Z := Z.lor (Z.land b c) (Z.land d (Z.lor b c)).
Definition sha1_left (x : Z) : Z := rol x 1.

Definition sha1_regs : Type := Z * Z * Z * Z * Z.

(** [Round] updates [e] and [b]; the next call names the variables one place later. *)
Definition sha1_Round (r : sha1_regs) (f : Z -> Z -> Z -> Z) (k w : Z) : sha1_regs :=
  let '(a, b, c, d, e) := r in
  (u32 (e + u32 (rol a 5 + f b c d + k + w)), a, rol b 30, c, d).

Definition sha1_Initialize : list Z := [0x67452301; 0xEFCDAB89; 0x98BADCFE; 0x10325476; 0xC3D2E1F0].

(** The function and constant of round [i]: [f1, k1], [f2, k2], [f3, k3], [f2, k4]. *)
Definition sha1_round_kind (i : nat) : (Z -> Z -> Z -> Z) * Z :=
  if (i <? 20)%nat then (sha1_f1, 0x5A827999)
  else if (i <? 40)%nat then (sha1_f2, 0x6ED9EBA1)
  else if (i <? 60)%nat then (sha1_f3, 0x8F1BBCDC)
  else (sha1_f2, 0xCA62C1D6).

Definition sha1_word (w : list Z) (i : nat) : Z :=
  if (i <? 16)%nat then nth i w 0
  else sha1_left (Z.lxor (Z.lxor (Z.lxor (nth (i mod 16) w 0) (nth ((i + 13) mod 16) w 0))
                                 (nth ((i + 8) mod 16) w 0)) (nth ((i + 2) mod 16) w 0)).

Definition sha1_step (st : sha1_regs * list Z) (i : nat) : sha1_regs * list Z :=
  let '(r, w) := st in
  let '(f, k) := sha1_round_kind i in
  let x := sha1_word w i in
  (sha1_Round r f k x, <[(i mod 16)%nat := x]> w).

Definition sha1_Transform (s : list Z) (chunk : bytes) : list Z :=
  let w := map (fun i => ReadBE32 (take 4 (drop (4 * i) chunk))) (seq 0 16) in
  let x i := nth i s 0 in
  let '(a, b, c, d, e, _) :=
    foldl sha1_step ((x 0%nat, x 1%nat, x 2%nat, x 3%nat, x 4%nat), w) (seq 0 80) in
  [u32 (x 0%nat + a); u32 (x 1%nat + b); u32 (x 2%nat + c); u32 (x 3%nat + d); u32 (x 4%nat + e)].

#[export] Instance CSHA1 : BlockHash :=
  {| block_size := 64; init_words := sha1_Initialize; transform := sha1_Transform;
     size_desc := WriteBE64; pad_base := 119; output_words s := concat (map WriteBE32 s) |}.
#[export] Instance CSHA1_ok : BlockHashOk CSHA1.
Proof. split; [exists (2 ^ 58); reflexivity|cbn; lia]. Qed.

Definition CSHA1_init : hasher := hasher_init (H := CSHA1) (replicate 64 0).
Definition CSHA1_Write : hasher -> bytes -> hasher := hasher_Write (H := CSHA1).
Definition CSHA1_Finalize : hasher -> bytes := hasher_Finalize (H := CSHA1).
Definition CSHA1_Reset : hasher -> hasher := hasher_Reset (H := CSHA1).

(** The FIPS 180-4 vector for "abc". *)
Lemma sha1_abc :
  le_combine (reverse (CSHA1_Finalize (CSHA1_Write CSHA1_init [97; 98; 99])))
  = 0xa9993e364706816aba3e25717850c26c9cd0d89d.
Proof. by vm_compute. Qed.

(** ** [CRIPEMD160] *)

(** [~x] on 32-bit words. *)
Definition not32 (x : Z) : Z := 2 ^ 32 - 1 - x.

Definition ripemd_f1 (x y z : Z) : Z := Z.lxor (Z.lxor x y) z.
Definition ripemd_f2 (x y z : Z) : Z := Z.lor (Z.land x y) (Z.land (not32 x) z).
Definition ripemd_f3 (x y z : Z) : Z := Z.lxor (Z.lor x (not32 y)) z.
Definition ripemd_f4 (x y z : Z) : Z := Z.lor (Z.land x z) (Z.land y (not32 z)).
Definition ripemd_f5 (x y z : Z) : Z := Z.lxor x (Z.lor y (not32 z)).

Definition ripemd_Initialize : list Z := [0x67452301; 0xEFCDAB89; 0x98BADCFE; 0x10325476; 0xC3D2E1F0].

(** [Round] updates [a] and [c]; the next call names the variables one place later. *)
Definition ripemd_Round (st : sha1_regs) (f : Z -> Z -> Z -> Z) (x k r : Z) : sha1_regs :=
  let '(a, b, c, d, e) := st in
  (e, u32 (rol (u32 (a + f b c d + x + k)) r + e), b, rol c 10, d).

(** [R11] to [R51] and [R12] to [R52]: function and constant of the two lines. *)
Definition ripemd_left (i : nat) : (Z -> Z -> Z -> Z) * Z :=
  match (i / 16)%nat with
  | 0%nat => (ripemd_f1, 0)
  | 1%nat => (ripemd_f2, 0x5A827999)
  | 2%nat => (ripemd_f3, 0x6ED9EBA1)
  | 3%nat => (ripemd_f4, 0x8F1BBCDC)
  | _ => (ripemd_f5, 0xA953FD4E)
  end.
Definition ripemd_right (i : nat) : (Z -> Z -> Z -> Z) * Z :=
  match (i / 16)%nat with
  | 0%nat => (ripemd_f5, 0x50A28BE6)
  | 1%nat => (ripemd_f4, 0x5C4DD124)
  | 2%nat => (ripemd_f3, 0x6D703EF3)
  | 3%nat => (ripemd_f2, 0x7A6D76E9)
  | _ => (ripemd_f1, 0)
  end.

(** Message word and rotation of the rounds of the two lines, in program order. *)
Definition ripemd_left_rounds : list (nat * Z) :=
  [(0%nat, 11); (1%nat, 14); (2%nat, 15); (3%nat, 12); (4%nat, 5); (5%nat, 8); (6%nat, 7); (7%nat, 9);
   (8%nat, 11); (9%nat, 13); (10%nat, 14); (11%nat, 15); (12%nat, 6); (13%nat, 7); (14%nat, 9); (15%nat, 8);
   (7%nat, 7); (4%nat, 6); (13%nat, 8); (1%nat, 13); (10%nat, 11); (6%nat, 9); (15%nat, 7); (3%nat, 15);
   (12%nat, 7); (0%nat, 12); (9%nat, 15); (5%nat, 9); (2%nat, 11); (14%nat, 7); (11%nat, 13); (8%nat, 12);
   (3%nat, 11); (10%nat, 13); (14%nat, 6); (4%nat, 7); (9%nat, 14); (15%nat, 9); (8%nat, 13); (1%nat, 15);
   (2%nat, 14); (7%nat, 8); (0%nat, 13); (6%nat, 6); (13%nat, 5); (11%nat, 12); (5%nat, 7); (12%nat, 5);
   (1%nat, 11); (9%nat, 12); (11%nat, 14); (10%nat, 15); (0%nat, 14); (8%nat, 15); (12%nat, 9); (4%nat, 8);
   (13%nat, 9); (3%nat, 14); (7%nat, 5); (15%nat, 6); (14%nat, 8); (5%nat, 6); (6%nat, 5); (2%nat, 12);
   (4%nat, 9); (0%nat, 15); (5%nat, 5); (9%nat, 11); (7%nat, 6); (12%nat, 8); (2%nat, 13); (10%nat, 12);
   (14%nat, 5); (1%nat, 12); (3%nat, 13); (8%nat, 14); (11%nat, 11); (6%nat, 8); (15%nat, 5); (13%nat, 6)].
Definition ripemd_right_rounds : list (nat * Z) :=
  [(5%nat, 8); (14%nat, 9); (7%nat, 9); (0%nat, 11); (9%nat, 13); (2%nat, 15); (11%nat, 15); (4%nat, 5);
   (13%nat, 7); (6%nat, 7); (15%nat, 8); (8%nat, 11); (1%nat, 14); (10%nat, 14); (3%nat, 12); (12%nat, 6);
   (6%nat, 9); (11%nat, 13); (3%nat, 15); (7%nat, 7); (0%nat, 12); (13%nat, 8); (5%nat, 9); (10%nat, 11);
   (14%nat, 7); (15%nat, 7); (8%nat, 12); (12%nat, 7); (4%nat, 6); (9%nat, 15); (1%nat, 13); (2%nat, 11);
   (15%nat, 9); (5%nat, 7); (1%nat, 15); (3%nat, 11); (7%nat, 8); (14%nat, 6); (6%nat, 6); (9%nat, 14);
   (11%nat, 12); (8%nat, 13); (12%nat, 5); (2%nat, 14); (10%nat, 13); (0%nat, 13); (4%nat, 7); (13%nat, 5);
   (8%nat, 15); (6%nat, 5); (4%nat, 8); (1%nat, 11); (3%nat, 14); (11%nat, 14); (15%nat, 6); (0%nat, 14);
   (5%nat, 6); (12%nat, 9); (2%nat, 12); (13%nat, 9); (9%nat, 12); (7%nat, 5); (10%nat, 15); (14%nat, 8);
   (12%nat, 8); (15%nat, 5); (10%nat, 12); (4%nat, 9); (1%nat, 12); (5%nat, 5); (8%nat, 14); (7%nat, 6);
   (6%nat, 8); (2%nat, 13); (13%nat, 6); (14%nat, 5); (0%nat, 15); (3%nat, 13); (9%nat, 11); (11%nat, 11)].

Definition ripemd_line (kind : nat -> (Z -> Z -> Z -> Z) * Z) (rounds : list (nat * Z)) (w : list Z)
  (st : sha1_regs) : sha1_regs :=
  foldl (fun st '(i, (x, r)) => let '(f, k) := kind i in ripemd_Round st f (nth x w 0) k r) st
    (combine (seq 0 80) rounds).

Definition ripemd_Transform (s : list Z) (chunk : bytes) : list Z :=
  let w := map (fun i => ReadLE32 (take 4 (drop (4 * i) chunk))) (seq 0 16) in
  let x i := nth i s 0 in
  let st := (x 0%nat, x 1%nat, x 2%nat, x 3%nat, x 4%nat) in
  let '(a1, b1, c1, d1, e1) := ripemd_line ripemd_left ripemd_left_rounds w st in
  let '(a2, b2, c2, d2, e2) := ripemd_line ripemd_right ripemd_right_rounds w st in
  [u32 (x 1%nat + c1 + d2); u32 (x 2%nat + d1 + e2); u32 (x 3%nat + e1 + a2); u32 (x 4%nat + a1 + b2);
   u32 (x 0%nat + b1 + c2)].

#[export] Instance CRIPEMD160 : BlockHash :=
  {| block_size := 64; init_words := ripemd_Initialize; transform := ripemd_Transform;
     size_desc := WriteLE64; pad_base := 119; output_words s := concat (map WriteLE32 s) |}.
#[export] Instance CRIPEMD160_ok : BlockHashOk CRIPEMD160.
Proof. split; [exists (2 ^ 58); reflexivity|cbn; lia]. Qed.

Definition CRIPEMD160_init : hasher := hasher_init (H := CRIPEMD160) (replicate 64 0).
Definition CRIPEMD160_Write : hasher -> bytes -> hasher := hasher_Write (H := CRIPEMD160).
Definition CRIPEMD160_Finalize : hasher -> bytes := hasher_Finalize (H := CRIPEMD160).
Definition CRIPEMD160_Reset : hasher -> hasher := hasher_Reset (H := CRIPEMD160).

(** The vector for "abc" of the RIPEMD-160 specification. *)
Lemma ripemd160_abc :
  le_combine (reverse (CRIPEMD160_Finalize (CRIPEMD160_Write CRIPEMD160_init [97; 98; 99])))
  = 0x8eb208f7e05d987a9b044a8e98c6b087f15a0bfc.
Proof. by vm_compute. Qed.
