(* ===== verification/HashFns.v ===== *)
(** * Hashing of the node: [src/hash.h], [src/hash.cpp], [src/crypto/hmac_sha256.cpp],
    [src/crypto/hmac_sha512.cpp]

    Double SHA-256 and its variants, HMAC, MurmurHash3 and SipHash-2-4 with the
    specialised versions for 256-bit values. *)

From S2P Require Import Prelude Endian Hasher Sha2 Sha1Ripemd.

(** ** [CHash256], [CHash160] *)

Definition CHash256_init : hasher := CSHA256_init.
Definition CHash256_Write : hasher -> bytes -> hasher := CSHA256_Write.
Definition CHash256_Finalize (sha : hasher) : bytes :=
  let buf := CSHA256_Finalize sha in
  let sha := hasher_finalized (H := CSHA256) sha in
  CSHA256_Finalize (CSHA256_Write (CSHA256_Reset sha) buf).

Definition CHash160_init : hasher := CSHA256_init.
Definition CHash160_Write : hasher -> bytes -> hasher := CSHA256_Write.
Definition CHash160_Finalize (sha : hasher) : bytes :=
  let buf := CSHA256_Finalize sha in
  CRIPEMD160_Finalize (CRIPEMD160_Write CRIPEMD160_init buf).

(** [Hash] of one, two and more ranges. *)
Definition Hash (data : bytes) : bytes := CHash256_Finalize (CHash256_Write CHash256_init data).
Definition Hash2 (d1 d2 : bytes) : bytes :=
  CHash256_Finalize (CHash256_Write (CHash256_Write CHash256_init d1) d2).
Definition HashN (ds : list bytes) : bytes := CHash256_Finalize (foldl CHash256_Write CHash256_init ds).
Definition Hash160 (data : bytes) : bytes := CHash160_Finalize (CHash160_Write CHash160_init data).

(** ** HMAC over a block hash *)
Section HMAC.
Context (H : BlockHash) (init : hasher).

Record hmac := mkHMAC { hm_outer : hasher; hm_inner : hasher }.

(** [rkey]: the key, or its hash if it is longer than a block, padded with zeros. *)
Definition hmac_rkey (key : bytes) : bytes :=
  if (length key <=? block_size)%nat then key ++ replicate (block_size - length key) 0
  else let k := hasher_Finalize (hasher_Write init key) in k ++ replicate (block_size - length k) 0.

Definition hmac_init (key : bytes) : hmac :=
  let rkey := map (fun x => Z.lxor x 0x5c) (hmac_rkey key) in
  let outer := hasher_Write init rkey in
  let rkey := map (fun x => Z.lxor x (Z.lxor 0x5c 0x36)) rkey in
  {| hm_outer := outer; hm_inner := hasher_Write init rkey |}.
Definition hmac_Write (h : hmac) (data : bytes) : hmac :=
  {| hm_outer := hm_outer h; hm_inner := hasher_Write (hm_inner h) data |}.
Definition hmac_Finalize (h : hmac) : bytes :=
  let temp := hasher_Finalize (hm_inner h) in
  hasher_Finalize (hasher_Write (hm_outer h) temp).
End HMAC.

Definition CHMAC_SHA256 (key : bytes) : hmac := hmac_init CSHA256 CSHA256_init key.
Definition CHMAC_SHA256_Write : hmac -> bytes -> hmac := hmac_Write CSHA256.
Definition CHMAC_SHA256_Finalize : hmac -> bytes := hmac_Finalize CSHA256.
Definition CHMAC_SHA512 (key : bytes) : hmac := hmac_init CSHA512 CSHA512_init key.
Definition CHMAC_SHA512_Write : hmac -> bytes -> hmac := hmac_Write CSHA512.
Definition CHMAC_SHA512_Finalize : hmac -> bytes := hmac_Finalize CSHA512.

Definition BIP32Hash (chainCode : bytes) (nChild : Z) (header : Z) (data : bytes) : bytes :=
  let num := [Z.land (Z.shiftr nChild 24) 0xFF; Z.land (Z.shiftr nChild 16) 0xFF;
              Z.land (Z.shiftr nChild 8) 0xFF; Z.land (Z.shiftr nChild 0) 0xFF] in
  CHMAC_SHA512_Finalize (CHMAC_SHA512_Write (CHMAC_SHA512_Write (CHMAC_SHA512_Write (CHMAC_SHA512 chainCode) [header]) data) num).

(** ** [MurmurHash3] *)

Definition ROTL32 (x r : Z) : Z := Z.lor (u32 (Z.shiftl x r)) (Z.shiftr x (32 - r)).

Definition murmur_c1 : Z := 0xcc9e2d51.
Definition murmur_c2 : Z := 0x1b873593.
Definition murmur_mix (k1 : Z) : Z := u32 (ROTL32 (u32 (k1 * murmur_c1)) 15 * murmur_c2).

Fixpoint murmur_body (nblocks : nat) (blocks : bytes) (h1 : Z) : Z :=
  match nblocks with
  | O => h1
  | S n =>
    let h1 := Z.lxor h1 (murmur_mix (ReadLE32 blocks)) in
    let h1 := ROTL32 h1 13 in
    murmur_body n (drop 4 blocks) (u32 (h1 * 5 + 0xe6546b64))
  end.

Definition murmur_tail (size : nat) (tail : bytes) (h1 : Z) : Z :=
  let t i := nth i tail 0 in
  match (size mod 4)%nat with
  | 3%nat => Z.lxor h1 (murmur_mix (Z.lxor (Z.lxor (Z.shiftl (t 2%nat) 16) (Z.shiftl (t 1%nat) 8)) (t 0%nat)))
  | 2%nat => Z.lxor h1 (murmur_mix (Z.lxor (Z.shiftl (t 1%nat) 8) (t 0%nat)))
  | 1%nat => Z.lxor h1 (murmur_mix (t 0%nat))
  | _ => h1
  end.

Definition MurmurHash3 (nHashSeed : Z) (vDataToHash : bytes) : Z :=
  let size := length vDataToHash in
  let nblocks := (size / 4)%nat in
  let h1 := murmur_body nblocks vDataToHash nHashSeed in
  let h1 := murmur_tail size (drop (nblocks * 4) vDataToHash) h1 in
  let h1 := Z.lxor h1 (u32 (Z.of_nat size)) in
  let h1 := Z.lxor h1 (Z.shiftr h1 16) in
  let h1 := u32 (h1 * 0x85ebca6b) in
  let h1 := Z.lxor h1 (Z.shiftr h1 13) in
  let h1 := u32 (h1 * 0xc2b2ae35) in
  Z.lxor h1 (Z.shiftr h1 16).

(** Vectors of the repository's [hash_tests.cpp]. *)
Lemma murmurhash3_vectors :
  map (fun '(seed, data) => MurmurHash3 seed data)
    [(0, []); (0xFBA4C795, []); (0xffffffff, []); (0, [0]); (0, [0xff]); (0, [0; 0x11]); (0, [0; 0x11; 0x22]);
     (0, [0; 0x11; 0x22; 0x33]); (0, [0; 0x11; 0x22; 0x33; 0x44; 0x55; 0x66; 0x77; 0x88])]
  = [0; 0x6a396f08; 0x81f16f39; 0x514e28b7; 0xfd6cf10d; 0x16c6b7ab; 0x8eb51c3d; 0xb4471bf8; 0xb4698def].
Proof. by vm_compute. Qed.

(** ** [CSipHasher] *)

Definition ROTL (x b : Z) : Z := Z.lor (u64 (Z.shiftl x b)) (Z.shiftr x (64 - b)).

Definition sip_state : Type := Z * Z * Z * Z.

Definition SIPROUND (v : sip_state) : sip_state :=
  let '(v0, v1, v2, v3) := v in
  let v0 := u64 (v0 + v1) in let v1 := ROTL v1 13 in let v1 := Z.lxor v1 v0 in
  let v0 := ROTL v0 32 in
  let v2 := u64 (v2 + v3) in let v3 := ROTL v3 16 in let v3 := Z.lxor v3 v2 in
  let v0 := u64 (v0 + v3) in let v3 := ROTL v3 21 in let v3 := Z.lxor v3 v0 in
  let v2 := u64 (v2 + v1) in let v1 := ROTL v1 17 in let v1 := Z.lxor v1 v2 in
  let v2 := ROTL v2 32 in
  (v0, v1, v2, v3).

(** [v3 ^= d; SIPROUND; SIPROUND; v0 ^= d] *)
Definition sip_absorb (v : sip_state) (d : Z) : sip_state :=
  let '(v0, v1, v2, v3) := v in
  let '(v0, v1, v2, v3) := SIPROUND (SIPROUND (v0, v1, v2, Z.lxor v3 d)) in
  (Z.lxor v0 d, v1, v2, v3).

(** [v2 ^= 0xFF; SIPROUND x 4; return v0 ^ v1 ^ v2 ^ v3] *)
Definition sip_finish (v : sip_state) : Z :=
  let '(v0, v1, v2, v3) := v in
  let '(v0, v1, v2, v3) := SIPROUND (SIPROUND (SIPROUND (SIPROUND (v0, v1, Z.lxor v2 0xFF, v3)))) in
  Z.lxor (Z.lxor (Z.lxor v0 v1) v2) v3.

Record CSipHasher := mkSip { sip_v : sip_state; sip_tmp : Z; sip_count : Z }.

Definition sip_init (k0 k1 : Z) : CSipHasher :=
  {| sip_v := (Z.lxor 0x736f6d6570736575 k0, Z.lxor 0x646f72616e646f6d k1,
               Z.lxor 0x6c7967656e657261 k0, Z.lxor 0x7465646279746573 k1);
     sip_tmp := 0; sip_count := 0 |}.

(** [Write(uint64_t)]: the assertion fails off an 8-byte boundary. *)
Definition sip_Write64 (h : CSipHasher) (data : Z) : result fault CSipHasher :=
  if negb (Z.rem (sip_count h) 8 =? 0) then Err AssertFailure
  else Ok {| sip_v := sip_absorb (sip_v h) data; sip_tmp := sip_tmp h; sip_count := sip_count h + 8 |}.

Fixpoint sip_Write (h : CSipHasher) (data : bytes) : CSipHasher :=
  match data with
  | [] => h
  | x :: data =>
    let t := Z.lor (sip_tmp h) (u64 (Z.shiftl x (8 * Z.rem (sip_count h) 8))) in
    let c := sip_count h + 1 in
    sip_Write
      (if Z.land c 7 =? 0 then {| sip_v := sip_absorb (sip_v h) t; sip_tmp := 0; sip_count := c |}
       else {| sip_v := sip_v h; sip_tmp := t; sip_count := c |}) data
  end.

Definition sip_Finalize (h : CSipHasher) : Z :=
  let t := Z.lor (sip_tmp h) (u64 (Z.shiftl (u64 (sip_count h)) 56)) in
  sip_finish (sip_absorb (sip_v h) t).

(** [uint256::GetUint64] *)
Definition GetUint64 (val : bytes) (pos : nat) : Z := ReadLE64 (drop (pos * 8) val).

Definition SipHashUint256 (k0 k1 : Z) (val : bytes) : Z :=
  let d := GetUint64 val 0 in
  let v0 := Z.lxor 0x736f6d6570736575 k0 in
  let v1 := Z.lxor 0x646f72616e646f6d k1 in
  let v2 := Z.lxor 0x6c7967656e657261 k0 in
  let v3 := Z.lxor (Z.lxor 0x7465646279746573 k1) d in
  let '(v0, v1, v2, v3) := SIPROUND (SIPROUND (v0, v1, v2, v3)) in
  let v := (Z.lxor v0 d, v1, v2, v3) in
  let v := sip_absorb v (GetUint64 val 1) in
  let v := sip_absorb v (GetUint64 val 2) in
  let v := sip_absorb v (GetUint64 val 3) in
  let v := sip_absorb v (u64 (Z.shiftl 4 59)) in
  sip_finish v.

Definition SipHashUint256Extra (k0 k1 : Z) (val : bytes) (extra : Z) : Z :=
  let d := GetUint64 val 0 in
  let v0 := Z.lxor 0x736f6d6570736575 k0 in
  let v1 := Z.lxor 0x646f72616e646f6d k1 in
  let v2 := Z.lxor 0x6c7967656e657261 k0 in
  let v3 := Z.lxor (Z.lxor 0x7465646279746573 k1) d in
  let '(v0, v1, v2, v3) := SIPROUND (SIPROUND (v0, v1, v2, v3)) in
  let v := (Z.lxor v0 d, v1, v2, v3) in
  let v := sip_absorb v (GetUint64 val 1) in
  let v := sip_absorb v (GetUint64 val 2) in
  let v := sip_absorb v (GetUint64 val 3) in
  let v := sip_absorb v (Z.lor (u64 (Z.shiftl 36 56)) extra) in
  sip_finish v.

Lemma siphash_vectors :
  SipHashUint256 0x0706050403020100 0x0F0E0D0C0B0A0908 (map Z.of_nat (seq 0 32)) = 0x7127512f72f27cce
  /\ sip_Finalize (sip_Write (sip_init 0x0706050403020100 0x0F0E0D0C0B0A0908) [0]) = 0x74f839c593dc67fd.
Proof. by vm_compute. Qed.

(** ** Lemmas *)

Definition sha256 (M : bytes) : bytes := md_hash (H := CSHA256) M.
Definition ripemd160 (M : bytes) : bytes := md_hash (H := CRIPEMD160) M.

Lemma CSHA256_init_repr : repr (H := CSHA256) CSHA256_init [].
Proof. by apply (hasher_init_repr (H := CSHA256)). Qed.

Lemma CHash256_Finalize_spec h M : repr (H := CSHA256) h M -> CHash256_Finalize h = sha256 (sha256 M).
Proof.
  intros Hr. unfold CHash256_Finalize, CSHA256_Finalize, CSHA256_Write, CSHA256_Reset.
  rewrite (hasher_Finalize_spec h M Hr). apply hasher_Finalize_spec.
  apply (hasher_Write_spec _ []). eapply hasher_Reset_repr. by apply hasher_finalized_repr.
Qed.

Lemma HashN_spec ds : HashN ds = sha256 (sha256 (concat ds)).
Proof. apply CHash256_Finalize_spec. apply (hasher_writes_repr ds _ []). exact CSHA256_init_repr. Qed.

Lemma Hash2_spec a b : Hash2 a b = sha256 (sha256 (a ++ b)).
Proof.
  apply CHash256_Finalize_spec. apply (hasher_Write_spec (CSHA256_Write CSHA256_init a) a b).
  apply (hasher_Write_spec CSHA256_init [] a). exact CSHA256_init_repr.
Qed.

(** *** Digests *)

Lemma absorb_length (H : BlockHash) k :
  (forall s c, length (transform s c) = k) -> forall n s d, length s = k -> length (absorb n s d) = k.
Proof. intros Ht n. induction n as [|n IH]; intros s d Hs; [done|]. cbn [absorb]. by apply IH. Qed.

Lemma concat_words (f : Z -> bytes) ws :
  (forall x, is_bytes (f x) /\ length (f x) = 4%nat) ->
  is_bytes (concat (map f ws)) /\ length (concat (map f ws)) = (4 * length ws)%nat.
Proof.
  intros Hf. induction ws as [|w ws [IH1 IH2]]; [by split; [apply Forall_nil|]|]. cbn [map concat length].
  destruct (Hf w) as [Hb Hl]. split; [by apply is_bytes_app|]. rewrite length_app, IH2, Hl. lia.
Qed.

Lemma WriteBE32_digest x : is_bytes (WriteBE32 x) /\ length (WriteBE32 x) = 4%nat.
Proof.
  unfold WriteBE32. split; [|by rewrite length_reverse, le_split_length].
  apply Forall_reverse, le_split_bytes.
Qed.
Lemma WriteLE32_digest x : is_bytes (WriteLE32 x) /\ length (WriteLE32 x) = 4%nat.
Proof. unfold WriteLE32. split; [apply le_split_bytes|apply le_split_length]. Qed.

Lemma md_hash_digest (H : BlockHash) (f : Z -> bytes) k M :
  (forall ws, output_words ws = concat (map f ws)) -> (forall x, is_bytes (f x) /\ length (f x) = 4%nat) ->
  (forall s c, length (transform s c) = k) -> length init_words = k ->
  is_bytes (md_hash M) /\ length (md_hash M) = (4 * k)%nat.
Proof.
  intros Ho Hf Ht Hi. unfold md_hash. rewrite Ho.
  destruct (concat_words f (absorb (length (padded M) / block_size) init_words (padded M)) Hf) as [Hb Hl].
  split; [exact Hb|]. by rewrite Hl, (absorb_length H k Ht _ _ _ Hi).
Qed.

Lemma sha256_digest M : is_bytes (sha256 M) /\ length (sha256 M) = 32%nat.
Proof.
  apply (md_hash_digest CSHA256 WriteBE32 8); [done|exact WriteBE32_digest| |done].
  intros s c. cbn [transform CSHA256]. unfold sha256_Transform. by repeat case_match.
Qed.

Lemma sha1_digest M : is_bytes (md_hash (H := CSHA1) M) /\ length (md_hash (H := CSHA1) M) = 20%nat.
Proof.
  apply (md_hash_digest CSHA1 WriteBE32 5); [done|exact WriteBE32_digest| |done].
  intros s c. cbn [transform CSHA1]. unfold sha1_Transform. by repeat case_match.
Qed.

Lemma ripemd160_digest M : is_bytes (ripemd160 M) /\ length (ripemd160 M) = 20%nat.
Proof.
  apply (md_hash_digest CRIPEMD160 WriteLE32 5); [done|exact WriteLE32_digest| |done].
  intros s c. cbn [transform CRIPEMD160]. unfold ripemd_Transform. by repeat case_match.
Qed.

(** One [Write] and [Finalize]. *)
Lemma CSHA256_once M : CSHA256_Finalize (CSHA256_Write CSHA256_init M) = sha256 M.
Proof. apply hasher_Finalize_spec. apply (hasher_Write_spec _ []). exact CSHA256_init_repr. Qed.
Lemma CSHA1_once M : CSHA1_Finalize (CSHA1_Write CSHA1_init M) = md_hash (H := CSHA1) M.
Proof. apply hasher_Finalize_spec. apply (hasher_Write_spec _ []). by apply hasher_init_repr. Qed.
Lemma CRIPEMD160_once M : CRIPEMD160_Finalize (CRIPEMD160_Write CRIPEMD160_init M) = ripemd160 M.
Proof. apply hasher_Finalize_spec. apply (hasher_Write_spec _ []). by apply hasher_init_repr. Qed.
Lemma CHash256_once M : CHash256_Finalize (CHash256_Write CHash256_init M) = sha256 (sha256 M).
Proof. apply CHash256_Finalize_spec. apply (hasher_Write_spec CSHA256_init [] M). exact CSHA256_init_repr. Qed.
Lemma CHash160_Finalize_spec h M : repr (H := CSHA256) h M -> CHash160_Finalize h = ripemd160 (sha256 M).
Proof.
  intros Hr. unfold CHash160_Finalize, CSHA256_Finalize. rewrite (hasher_Finalize_spec h M Hr). apply CRIPEMD160_once.
Qed.
Lemma CHash160_once M : CHash160_Finalize (CHash160_Write CHash160_init M) = ripemd160 (sha256 M).
Proof. apply CHash160_Finalize_spec. apply (hasher_Write_spec CSHA256_init [] M). exact CSHA256_init_repr. Qed.
Lemma Hash_spec M : Hash M = sha256 (sha256 M).
Proof. exact (CHash256_once M). Qed.
Lemma Hash160_spec M : Hash160 M = ripemd160 (sha256 M).
Proof. exact (CHash160_once M). Qed.

(** *** HMAC *)

(** RFC 2104. *)
Definition hmac_spec (H : BlockHash) (key M : bytes) : bytes :=
  let k := if (length key <=? block_size)%nat then key else md_hash key in
  let k := k ++ replicate (block_size - length k) 0 in
  md_hash (map (fun x => Z.lxor x 0x5c) k ++ md_hash (map (fun x => Z.lxor x 0x36) k ++ M)).

Lemma hmac_correct (H : BlockHash) (HOk : BlockHashOk H) init key chunks :
  repr init [] ->
  hmac_Finalize H (foldl (hmac_Write H) (hmac_init H init key) chunks) = hmac_spec H key (concat chunks).
Proof.
  intros Hi. unfold hmac_spec, hmac_init.
  assert (Hk : hmac_rkey H init key =
    (if (length key <=? block_size)%nat then key else md_hash key)
      ++ replicate (block_size - length (if (length key <=? block_size)%nat then key else md_hash key)) 0).
  { unfold hmac_rkey. destruct (_ <=? _)%nat; [done|].
    by rewrite (hasher_Finalize_spec _ key) by (apply (hasher_Write_spec _ []); done). }
  rewrite Hk. set (k := _ ++ replicate _ _). clearbody k. clear Hk.
  rewrite map_map. replace (map (fun x => Z.lxor (Z.lxor x 92) (Z.lxor 92 54)) k) with (map (fun x => Z.lxor x 54) k).
  2:{ apply map_ext. intros x. rewrite !Z.lxor_assoc. f_equal. }
  pose proof (hasher_Write_spec init [] (map (fun x => Z.lxor x 92) k) Hi) as Ho.
  pose proof (hasher_Write_spec init [] (map (fun x => Z.lxor x 54) k) Hi) as Hn. cbn [app] in Ho, Hn.
  set (outer := hasher_Write init (map (fun x => Z.lxor x 92) k)) in *.
  set (inner := hasher_Write init (map (fun x => Z.lxor x 54) k)) in *.
  assert (Hf : foldl (hmac_Write H) {| hm_outer := outer; hm_inner := inner |} chunks
               = {| hm_outer := outer; hm_inner := foldl hasher_Write inner chunks |}).
  { clearbody inner. clear. revert inner. induction chunks as [|c chunks IH]; intros inner; [done|]. apply IH. }
  rewrite Hf. unfold hmac_Finalize. cbn [hm_outer hm_inner].
  rewrite (hasher_stream chunks inner _ Hn). apply hasher_Finalize_spec. by apply hasher_Write_spec.
Qed.

(** *** SipHash *)

Lemma le_combine_push pre x :
  is_bytes pre -> is_u8 x -> (length pre < 8)%nat ->
  Z.lor (le_combine pre) (u64 (Z.shiftl x (8 * Z.of_nat (length pre)))) = le_combine (pre ++ [x]).
Proof.
  intros Hp Hx Hl. pose proof (le_combine_range pre Hp) as Hr. rewrite Z.shiftl_mul_pow2 by lia.
  assert (Hu : is_u64 (x * 2 ^ (8 * Z.of_nat (length pre)))).
  { ranges. assert (0 < 2 ^ (8 * Z.of_nat (length pre))) by (apply Z.pow_pos_nonneg; lia).
    split; [nia|]. apply Z.lt_le_trans with (2 ^ 8 * 2 ^ (8 * Z.of_nat (length pre))); [nia|].
    rewrite <- Z.pow_add_r by lia. apply Z.pow_le_mono_r; lia. }
  rewrite u64_id, lor_add_disjoint by (done || lia). rewrite le_combine_app. cbn [le_combine]. lia.
Qed.

Lemma sip_count_mod k j : 0 <= k -> 0 <= j < 8 -> Z.rem (8 * k + j) 8 = j.
Proof.
  intros Hk Hj. rewrite Z.rem_mod_nonneg by lia. rewrite Z.mul_comm, Z.add_comm, Z.mod_add by lia.
  by apply Z.mod_small.
Qed.

Lemma land7 k j : 0 <= k -> 0 <= j < 8 -> (Z.land (8 * k + j) 7 =? 0) = (j =? 0).
Proof.
  intros Hk Hj. change 7 with (Z.ones 3). rewrite Z.land_ones by lia. change (2 ^ 3) with 8.
  rewrite Z.mul_comm, Z.add_comm, Z.mod_add, Z.mod_small by lia. done.
Qed.

(** Bytes that complete, or do not complete, a word. *)
Lemma sip_Write_word data : forall pre rest v k,
  is_bytes pre -> is_bytes data -> data <> [] -> (length pre + length data = 8)%nat -> 0 <= k ->
  sip_Write (mkSip v (le_combine pre) (8 * k + Z.of_nat (length pre))) (data ++ rest)
  = sip_Write (mkSip (sip_absorb v (le_combine (pre ++ data))) 0 (8 * (k + 1))) rest.
Proof.
  induction data as [|x data IH]; intros pre rest v k Hp Hd Hne Hl Hk; [done|].
  inversion Hd as [|? ? Hx Hd']; subst. cbn [length] in Hl. cbn [app sip_Write sip_tmp sip_count sip_v].
  rewrite sip_count_mod, le_combine_push by (done || lia).
  destruct data as [|y data].
  - replace (8 * k + Z.of_nat (length pre) + 1) with (8 * (k + 1) + 0) by (cbn in Hl; lia).
    rewrite land7 by lia. cbn [Z.eqb app]. by rewrite Z.add_0_r.
  - replace (8 * k + Z.of_nat (length pre) + 1) with (8 * k + Z.of_nat (length (pre ++ [x])))
      by (rewrite length_app; cbn; lia).
    rewrite land7 by (rewrite ?length_app; cbn in *; lia).
    destruct (Z.eqb_spec (Z.of_nat (length (pre ++ [x]))) 0) as [E|_]; [rewrite length_app in E; cbn in E; lia|].
    rewrite IH; [by rewrite <- app_assoc|by apply is_bytes_snoc|done|done| |done].
    rewrite length_app. cbn in *. lia.
Qed.

Lemma sip_Write_tail data : forall pre v k,
  is_bytes pre -> is_bytes data -> (length pre + length data < 8)%nat -> 0 <= k ->
  sip_Write (mkSip v (le_combine pre) (8 * k + Z.of_nat (length pre))) data
  = mkSip v (le_combine (pre ++ data)) (8 * k + Z.of_nat (length (pre ++ data))).
Proof.
  induction data as [|x data IH]; intros pre v k Hp Hd Hl Hk; [by rewrite app_nil_r|].
  inversion Hd as [|? ? Hx Hd']; subst. cbn [length] in Hl. cbn [sip_Write sip_tmp sip_count sip_v].
  rewrite sip_count_mod, le_combine_push by (done || lia).
  replace (8 * k + Z.of_nat (length pre) + 1) with (8 * k + Z.of_nat (length (pre ++ [x])))
    by (rewrite length_app; cbn; lia).
  rewrite land7 by (rewrite ?length_app; cbn in *; lia).
  destruct (Z.eqb_spec (Z.of_nat (length (pre ++ [x]))) 0) as [E|_]; [rewrite length_app in E; cbn in E; lia|].
  rewrite IH; [by rewrite <- app_assoc|by apply is_bytes_snoc|done| |done].
  rewrite length_app. cbn in *. lia.
Qed.

(** A whole word written as bytes, anywhere on a word boundary. *)
Lemma sip_Write_8 data v k :
  is_bytes data -> (8 <= length data)%nat -> 0 <= k ->
  sip_Write (mkSip v 0 (8 * k)) data = sip_Write (mkSip (sip_absorb v (ReadLE64 data)) 0 (8 * (k + 1))) (drop 8 data).
Proof.
  intros Hd Hl Hk. rewrite <- (take_drop 8 data) at 1.
  pose proof (sip_Write_word (take 8 data) [] (drop 8 data) v k) as Hw. cbn [app length le_combine] in Hw.
  rewrite Z.add_0_r in Hw. apply Hw; [constructor|by apply is_bytes_take| |rewrite length_take; lia|done].
  destruct data; [cbn in Hl; lia|done].
Qed.

Lemma sip_Write_words val rest k0 k1 :
  is_bytes val -> is_bytes rest -> length val = 32%nat -> (length rest < 8)%nat ->
  sip_Write (sip_init k0 k1) (val ++ rest) =
  {| sip_v := sip_absorb (sip_absorb (sip_absorb (sip_absorb (sip_v (sip_init k0 k1)) (GetUint64 val 0))
                (GetUint64 val 1)) (GetUint64 val 2)) (GetUint64 val 3);
     sip_tmp := le_combine rest; sip_count := 32 + Z.of_nat (length rest) |}.
Proof.
  intros Hv Hr Hl Hlr. unfold sip_init. cbn [sip_v].
  assert (Hb : is_bytes (val ++ rest)) by (by apply is_bytes_app).
  assert (Hread : forall i, (i <= 3)%nat -> ReadLE64 (drop (i * 8) (val ++ rest)) = GetUint64 val i).
  { intros i Hi. unfold GetUint64, ReadLE64. rewrite drop_app_le by lia. rewrite take_app_le by (rewrite length_drop; lia). done. }
  change 0 with (8 * 0) at 2.
  rewrite sip_Write_8 by (try done; rewrite ?length_app; lia).
  rewrite sip_Write_8 by (try (by repeat apply is_bytes_drop); rewrite ?length_drop, ?length_app; lia).
  rewrite sip_Write_8 by (try (by repeat apply is_bytes_drop); rewrite ?length_drop, ?length_app; lia).
  rewrite sip_Write_8 by (try (by repeat apply is_bytes_drop); rewrite ?length_drop, ?length_app; lia).
  rewrite !drop_drop. cbn [Nat.add].
  rewrite <- (Hread 0%nat), <- (Hread 1%nat), <- (Hread 2%nat), <- (Hread 3%nat) by lia. cbn [Nat.mul Nat.add].
  replace (drop 32 (val ++ rest)) with rest by (by rewrite drop_app_length' by done).
  pose proof (sip_Write_tail rest [] (sip_absorb (sip_absorb (sip_absorb (sip_absorb
     (Z.lxor 0x736f6d6570736575 k0, Z.lxor 0x646f72616e646f6d k1, Z.lxor 0x6c7967656e657261 k0, Z.lxor 0x7465646279746573 k1)
     (ReadLE64 (drop 0 (val ++ rest)))) (ReadLE64 (drop 8 (val ++ rest)))) (ReadLE64 (drop 16 (val ++ rest))))
     (ReadLE64 (drop 24 (val ++ rest)))) 4) as Ht. cbn [app length le_combine] in Ht.
  rewrite Z.add_0_r in Ht. rewrite drop_0 in Ht |- *. apply Ht; [constructor|done|lia|lia].
Qed.

(** The first word, absorbed by hand in the specialised versions. *)
Lemma sip_first_word k0 k1 d (A : Type) (k : sip_state -> A) :
  (let '(v0, v1, v2, v3) := SIPROUND (SIPROUND (Z.lxor 0x736f6d6570736575 k0, Z.lxor 0x646f72616e646f6d k1,
       Z.lxor 0x6c7967656e657261 k0, Z.lxor (Z.lxor 0x7465646279746573 k1) d)) in k (Z.lxor v0 d, v1, v2, v3))
  = k (sip_absorb (sip_v (sip_init k0 k1)) d).
Proof.
  unfold sip_init, sip_absorb. cbn [sip_v]. by destruct (SIPROUND _) as [[[v0 v1] v2] v3].
Qed.

Lemma SipHashUint256_eq k0 k1 val :
  is_bytes val -> length val = 32%nat -> SipHashUint256 k0 k1 val = sip_Finalize (sip_Write (sip_init k0 k1) val).
Proof.
  intros Hv Hl. rewrite <- (app_nil_r val) at 2. rewrite sip_Write_words by (done || (cbn; lia)).
  unfold SipHashUint256, sip_Finalize. rewrite (sip_first_word k0 k1 (GetUint64 val 0) Z
    (fun v => sip_finish (sip_absorb (sip_absorb (sip_absorb (sip_absorb v (GetUint64 val 1)) (GetUint64 val 2))
       (GetUint64 val 3)) (u64 (Z.shiftl 4 59))))).
  cbn [sip_v sip_tmp sip_count le_combine length]. f_equal.
Qed.

Lemma SipHashUint256Extra_eq k0 k1 val extra :
  is_bytes val -> length val = 32%nat -> is_u32 extra ->
  SipHashUint256Extra k0 k1 val extra = sip_Finalize (sip_Write (sip_init k0 k1) (val ++ WriteLE32 extra)).
Proof.
  intros Hv Hl He. rewrite sip_Write_words by (done || apply le_split_bytes || (cbn; lia)).
  unfold SipHashUint256Extra, sip_Finalize. rewrite (sip_first_word k0 k1 (GetUint64 val 0) Z
    (fun v => sip_finish (sip_absorb (sip_absorb (sip_absorb (sip_absorb v (GetUint64 val 1)) (GetUint64 val 2))
       (GetUint64 val 3)) (Z.lor (u64 (Z.shiftl 36 56)) extra)))).
  cbn [sip_v sip_tmp sip_count]. unfold WriteLE32.
  rewrite le_combine_split, Z.mod_small by done. rewrite (Z.lor_comm extra). f_equal.
Qed.

(** ** Properties *)

(** C21: whatever the sequence of [Write] calls, [Finalize] of the SHA-256, SHA-512,
    SHA-1 and RIPEMD-160 classes returns the one-shot hash of the padded
    concatenation of the written data; [CHash256] is double SHA-256 and [CHash160] is
    RIPEMD-160 of SHA-256 of it; and the HMAC classes compute the construction of
    RFC 2104 for keys of any length. *)
Theorem streaming_hashes_correct (key : bytes) (chunks : list bytes) :
  CSHA256_Finalize (foldl CSHA256_Write CSHA256_init chunks) = sha256 (concat chunks)
  /\ CSHA512_Finalize (foldl CSHA512_Write CSHA512_init chunks) = md_hash (H := CSHA512) (concat chunks)
  /\ CSHA1_Finalize (foldl CSHA1_Write CSHA1_init chunks) = md_hash (H := CSHA1) (concat chunks)
  /\ CRIPEMD160_Finalize (foldl CRIPEMD160_Write CRIPEMD160_init chunks) = ripemd160 (concat chunks)
  /\ CHash256_Finalize (foldl CHash256_Write CHash256_init chunks) = sha256 (sha256 (concat chunks))
  /\ CHash160_Finalize (foldl CHash160_Write CHash160_init chunks) = ripemd160 (sha256 (concat chunks))
  /\ CHMAC_SHA256_Finalize (foldl CHMAC_SHA256_Write (CHMAC_SHA256 key) chunks) = hmac_spec CSHA256 key (concat chunks)
  /\ CHMAC_SHA512_Finalize (foldl CHMAC_SHA512_Write (CHMAC_SHA512 key) chunks) = hmac_spec CSHA512 key (concat chunks).
Proof.
  splits.
  - apply (hasher_stream (H := CSHA256) chunks _ []). by apply hasher_init_repr.
  - apply (hasher_stream (H := CSHA512) chunks _ []). by apply hasher_init_repr.
  - apply (hasher_stream (H := CSHA1) chunks _ []). by apply hasher_init_repr.
  - apply (hasher_stream (H := CRIPEMD160) chunks _ []). by apply hasher_init_repr.
  - apply CHash256_Finalize_spec. apply (hasher_writes_repr chunks _ []). exact CSHA256_init_repr.
  - apply CHash160_Finalize_spec. apply (hasher_writes_repr chunks _ []). exact CSHA256_init_repr.
  - apply (hmac_correct CSHA256 CSHA256_ok CSHA256_init key chunks). exact CSHA256_init_repr.
  - apply (hmac_correct CSHA512 CSHA512_ok CSHA512_init key chunks). by apply hasher_init_repr.
Qed.

(** The specialised SipHash of a 256-bit value, with or without a 32-bit suffix,
    equals the generic SipHash-2-4 of its bytes, for every key. *)
Theorem SipHashUint256_equivalent (k0 k1 : Z) (val : bytes) (extra : Z) :
  is_bytes val -> length val = 32%nat -> is_u32 extra ->
  SipHashUint256 k0 k1 val = sip_Finalize (sip_Write (sip_init k0 k1) val)
  /\ SipHashUint256Extra k0 k1 val extra = sip_Finalize (sip_Write (sip_init k0 k1) (val ++ WriteLE32 extra)).
Proof. intros Hv Hl He. split; [by apply SipHashUint256_eq|by apply SipHashUint256Extra_eq]. Qed.

Lemma SipHashUint256_equivalent_witness :
  SipHashUint256 1 2 (le_split 32 12345) = sip_Finalize (sip_Write (sip_init 1 2) (le_split 32 12345))
  /\ SipHashUint256Extra 1 2 (le_split 32 12345) 7 = sip_Finalize (sip_Write (sip_init 1 2) (le_split 32 12345 ++ WriteLE32 7)).
Proof. apply (SipHashUint256_equivalent 1 2 (le_split 32 12345) 7); [apply le_split_bytes|reflexivity|ranges; lia]. Defined.
