(* ===== verification/ArithUint256.v ===== *)
(** * 256-bit arithmetic: [src/arith_uint256.h], [src/arith_uint256.cpp]

    [base_uint<256>] as its array of [WIDTH] 32-bit limbs, least significant
    first, with every operator as the loop of the source.  The theorems relate
    each operator to arithmetic modulo [2^256] through [eval]. *)

From S2P Require Import Prelude Endian.

(** ** The limb array *)

Definition WIDTH : nat := 8.

(** [uint32_t pn[WIDTH]]. *)
Abbreviation base_uint := (list Z) (only parsing).

(** Reading [pn[i]] (all reads of the code are in range). *)
Definition limb (a : base_uint) (i : nat) : Z := default 0 (a !! i).

(** [pn[i] |= v]. *)
Definition or_at (i : nat) (v : Z) (a : base_uint) : base_uint :=
  <[i := Z.lor (limb a i) v]> a.

(** The default constructor, and construction or assignment from [uint64_t]. *)
Definition base_uint_zero : base_uint := replicate WIDTH 0.
Definition of_uint64 (b : Z) : base_uint :=
  u32 b :: u32 (Z.shiftr b 32) :: replicate (WIDTH - 2) 0.

(** [operator!]. *)
Definition is_zero (a : base_uint) : bool := forallb (fun x => x =? 0) a.

(** [operator~], [operator++] (prefix), [operator--] (prefix), unary [operator-]. *)
Definition bnot (a : base_uint) : base_uint := map (fun x => u32 (Z.lnot x)) a.

Fixpoint incr (a : base_uint) : base_uint :=
  match a with
  | [] => []
  | x :: r => let x' := u32 (x + 1) in
              if x' =? 0 then x' :: incr r else x' :: r
  end.

Fixpoint decr (a : base_uint) : base_uint :=
  match a with
  | [] => []
  | x :: r => let x' := u32 (x - 1) in
              if x' =? u32 (-1) then x' :: decr r else x' :: r
  end.

Definition neg (a : base_uint) : base_uint := incr (bnot a).

(** [operator^=], [operator&=], [operator|=]. *)
Definition bxor (a b : base_uint) : base_uint := zip_with Z.lxor a b.
Definition band (a b : base_uint) : base_uint := zip_with Z.land a b.
Definition bor (a b : base_uint) : base_uint := zip_with Z.lor a b.

(** [operator+=]: the carry loop. *)
Fixpoint add_loop (carry : Z) (a b : base_uint) : base_uint :=
  match a, b with
  | x :: a, y :: b =>
    let n := u64 (carry + x + y) in
    Z.land n 0xffffffff :: add_loop (Z.shiftr n 32) a b
  | _, _ => []
  end.
Definition add (a b : base_uint) : base_uint := add_loop 0 a b.

(** [operator-=] and the [uint64_t] overloads. *)
Definition sub (a b : base_uint) : base_uint := add a (neg b).
Definition add64 (a : base_uint) (b64 : Z) : base_uint := add a (of_uint64 b64).
Definition sub64 (a : base_uint) (b64 : Z) : base_uint := add a (neg (of_uint64 b64)).

(** [operator<<=] and [operator>>=]. *)
Definition shl_step (k : nat) (shift : Z) (a pn : base_uint) (i : nat) : base_uint :=
  let pn := if (i + k + 1 <? WIDTH)%nat && negb (shift =? 0)
            then or_at (i + k + 1) (Z.shiftr (limb a i) (32 - shift)) pn else pn in
  if (i + k <? WIDTH)%nat
  then or_at (i + k) (u32 (Z.shiftl (limb a i) shift)) pn else pn.
Definition shl (a : base_uint) (shift : Z) : base_uint :=
  foldl (shl_step (Z.to_nat (shift / 32)) (shift mod 32) a) base_uint_zero (seq 0 WIDTH).

Definition shr_step (k : nat) (shift : Z) (a pn : base_uint) (i : nat) : base_uint :=
  let pn := if (k + 1 <=? i)%nat && negb (shift =? 0)
            then or_at (i - k - 1) (u32 (Z.shiftl (limb a i) (32 - shift))) pn else pn in
  if (k <=? i)%nat
  then or_at (i - k) (Z.shiftr (limb a i) shift) pn else pn.
Definition shr (a : base_uint) (shift : Z) : base_uint :=
  foldl (shr_step (Z.to_nat (shift / 32)) (shift mod 32) a) base_uint_zero (seq 0 WIDTH).

(** [operator*=(uint32_t)]. *)
Fixpoint mul32_loop (carry b32 : Z) (a : base_uint) : base_uint :=
  match a with
  | [] => []
  | x :: a =>
    let n := u64 (carry + b32 * x) in
    Z.land n 0xffffffff :: mul32_loop (Z.shiftr n 32) b32 a
  end.
Definition mul32 (a : base_uint) (b32 : Z) : base_uint := mul32_loop 0 b32 a.

(** [operator*=(const base_uint&)]: for each limb [a.pn[j]], the inner loop adds
    [a.pn[j] * b] to the limbs of the accumulator from index [j] on. *)
Fixpoint mul_row (carry aj : Z) (pn b : base_uint) : base_uint :=
  match pn, b with
  | p :: pn, y :: b =>
    let n := u64 (carry + p + aj * y) in
    Z.land n 0xffffffff :: mul_row (Z.shiftr n 32) aj pn b
  | _, _ => []
  end.
Definition mul_step (a b pn : base_uint) (j : nat) : base_uint :=
  take j pn ++ mul_row 0 (limb a j) (drop j pn) b.
Definition mul (a b : base_uint) : base_uint :=
  foldl (mul_step a b) base_uint_zero (seq 0 WIDTH).

(** [CompareTo]: from the most significant limb down. *)
Fixpoint compare_loop (a b : base_uint) (i : nat) : Z :=
  match i with
  | O => 0
  | S i => if limb a i <? limb b i then -1
           else if limb b i <? limb a i then 1
           else compare_loop a b i
  end.
Definition CompareTo (a b : base_uint) : Z := compare_loop a b WIDTH.

(** [EqualTo(uint64_t)]. *)
Definition EqualTo (a : base_uint) (b : Z) : bool :=
  if existsb (fun x => negb (x =? 0)) (drop 2 a) then false
  else if negb (limb a 1 =? Z.shiftr b 32) then false
  else if negb (limb a 0 =? Z.land b 0xffffffff) then false
  else true.

(** [bits]: position of the highest set bit plus one. *)
Fixpoint word_bits (x : Z) (nbits : nat) : Z :=
  match nbits with
  | O => 1
  | S n => if negb (Z.land x (Z.shiftl 1 (Z.of_nat nbits)) =? 0)
           then Z.of_nat nbits + 1 else word_bits x n
  end.
Fixpoint bits_loop (a : base_uint) (pos : nat) : Z :=
  match pos with
  | O => 0
  | S p => if negb (limb a p =? 0) then 32 * Z.of_nat p + word_bits (limb a p) 31
           else bits_loop a p
  end.
Definition bits (a : base_uint) : Z := bits_loop a WIDTH.

(** [operator/=]: shift-and-subtract; the argument [S s] of the loop stands for
    the C variable [shift = s] and [O] for [shift = -1]. *)
Inductive uint_error := DivisionByZero.

Fixpoint div_loop (fuel : nat) (num div q : base_uint) : base_uint :=
  match fuel with
  | O => q
  | S s =>
    let '(num, q) :=
      if 0 <=? CompareTo num div
      then (sub num div, or_at (s / 32) (Z.shiftl 1 (Z.land (Z.of_nat s) 31)) q)
      else (num, q) in
    div_loop s num (shr div 1) q
  end.
Definition div (a b : base_uint) : result uint_error base_uint :=
  let num_bits := bits a in
  let div_bits := bits b in
  if div_bits =? 0 then Err DivisionByZero
  else if num_bits <? div_bits then Ok base_uint_zero
  else let shift := num_bits - div_bits in
       Ok (div_loop (S (Z.to_nat shift)) a (shl b shift) base_uint_zero).

Definition GetLow64 (a : base_uint) : Z := Z.lor (limb a 0) (Z.shiftl (limb a 1) 32).

(** ** Compact encoding *)

(** [SetCompact]: the value, [*pfNegative] and [*pfOverflow]. *)
Definition SetCompact (nCompact : Z) : base_uint * bool * bool :=
  let nSize := Z.shiftr nCompact 24 in
  let nWord0 := Z.land nCompact 0x007fffff in
  let '(nWord, this) :=
    if nSize <=? 3
    then let w := Z.shiftr nWord0 (8 * (3 - nSize)) in (w, of_uint64 w)
    else (nWord0, shl (of_uint64 nWord0) (8 * (nSize - 3))) in
  (this,
   negb (nWord =? 0) && negb (Z.land nCompact 0x00800000 =? 0),
   negb (nWord =? 0) && ((nSize >? 34)
                         || ((nWord >? 0xff) && (nSize >? 33))
                         || ((nWord >? 0xffff) && (nSize >? 32)))).

Definition compact_value (nCompact : Z) : base_uint := (SetCompact nCompact).1.1.

(** [GetCompact]; [None] is a failed [assert]. *)
Definition GetCompact (a : base_uint) (fNegative : bool) : option Z :=
  let nSize := (bits a + 7) / 8 in
  let nCompact :=
    if nSize <=? 3 then u32 (u64 (Z.shiftl (GetLow64 a) (8 * (3 - nSize))))
    else u32 (GetLow64 (shr a (8 * (nSize - 3)))) in
  let '(nCompact, nSize) :=
    if negb (Z.land nCompact 0x00800000 =? 0)
    then (Z.shiftr nCompact 8, nSize + 1) else (nCompact, nSize) in
  if negb (Z.land nCompact (u32 (Z.lnot 0x007fffff)) =? 0) then None
  else if negb (nSize <? 256) then None
  else
    let nCompact := Z.lor nCompact (u32 (Z.shiftl nSize 24)) in
    Some (Z.lor nCompact
            (if fNegative && negb (Z.land nCompact 0x007fffff =? 0) then 0x00800000 else 0)).

(** ** Conversion to and from the opaque 32-byte [uint256] *)

Definition ArithToUint256 (a : base_uint) : bytes := concat (map WriteLE32 a).
Definition UintToArith256 (a : bytes) : base_uint :=
  map (fun x => ReadLE32 (drop (x * 4) a)) (seq 0 WIDTH).

(** ** The value of a limb array *)

Fixpoint eval (a : base_uint) : Z :=
  match a with
  | [] => 0
  | x :: r => x + 2 ^ 32 * eval r
  end.

Definition limbs_ok (a : base_uint) : Prop := Forall is_u32 a.
Definition wf (a : base_uint) : Prop := length a = WIDTH /\ Forall is_u32 a.

Lemma pow32_S n : 2 ^ (32 * Z.of_nat (S n)) = 2 ^ 32 * 2 ^ (32 * Z.of_nat n).
Proof.
  replace (32 * Z.of_nat (S n)) with (32 + 32 * Z.of_nat n) by lia.
  by rewrite Z.pow_add_r by lia.
Qed.
Lemma pow32_pos n : 0 < 2 ^ (32 * Z.of_nat n).
Proof. apply Z.pow_pos_nonneg; lia. Qed.

Lemma eval_range a : Forall is_u32 a -> 0 <= eval a < 2 ^ (32 * Z.of_nat (length a)).
Proof.
  induction 1 as [|x a Hx Ha IH]; [simpl; lia|].
  cbn [eval length]. rewrite pow32_S. unfold is_u32 in Hx. lia.
Qed.

Lemma eval_wf_range a : wf a -> 0 <= eval a < 2 ^ 256.
Proof. intros [Hl Ha]. apply eval_range in Ha. by rewrite Hl in Ha. Qed.

Lemma eval_app a b : eval (a ++ b) = eval a + 2 ^ (32 * Z.of_nat (length a)) * eval b.
Proof.
  induction a as [|x a IH]; [cbn [app eval length]; change (2 ^ _) with 1; lia|].
  cbn [eval app length]. rewrite IH, pow32_S. lia.
Qed.

Lemma eval_replicate n : eval (replicate n 0) = 0.
Proof. induction n; cbn [replicate eval]; lia. Qed.

Lemma eval_inj a b :
  Forall is_u32 a -> Forall is_u32 b -> length a = length b -> eval a = eval b -> a = b.
Proof.
  intros Ha. revert b. induction Ha as [|x a Hx Ha IH]; intros [|y b] Hb Hl He;
    try done; inversion Hb; subst; clear Hb.
  cbn [eval length] in *. unfold is_u32 in *.
  assert (x = y) as -> by lia. f_equal. apply IH; [done|lia|lia].
Qed.

Lemma limb_u32 a i : Forall is_u32 a -> is_u32 (limb a i).
Proof.
  intros Ha. unfold limb. destruct (a !! i) eqn:E; [|by vm_compute].
  eapply Forall_lookup_1 in E; eauto.
Qed.

Lemma limb_cons_S x a i : limb (x :: a) (S i) = limb a i.
Proof. done. Qed.

Lemma limb_insert_eq a i v : (i < length a)%nat -> limb (<[i:=v]> a) i = v.
Proof. intros. unfold limb. by rewrite list_lookup_insert_eq. Qed.
Lemma limb_insert_ne a i j v : i <> j -> limb (<[i:=v]> a) j = limb a j.
Proof. intros. unfold limb. by rewrite list_lookup_insert_ne. Qed.

Lemma eval_insert a i v :
  (i < length a)%nat ->
  eval (<[i:=v]> a) = eval a + (v - limb a i) * 2 ^ (32 * Z.of_nat i).
Proof.
  revert i. induction a as [|x a IH]; intros [|i] Hi; cbn [length] in Hi; try lia.
  - cbn [insert list_insert eval]. unfold limb. simpl. lia.
  - change (<[S i:=v]> (x :: a)) with (x :: <[i:=v]> a).
    cbn [eval]. rewrite IH, limb_cons_S, pow32_S by lia. lia.
Qed.

(** Splitting a value at a limb boundary. *)
Lemma eval_take_drop a i :
  (i <= length a)%nat ->
  eval a = eval (take i a) + 2 ^ (32 * Z.of_nat i) * eval (drop i a).
Proof.
  intros. rewrite <- (take_drop i a) at 1. by rewrite eval_app, length_take_le by done.
Qed.

Lemma drop_limb a i : (i < length a)%nat -> drop i a = limb a i :: drop (S i) a.
Proof.
  intros Hi. unfold limb. destruct (lookup_lt_is_Some_2 a i Hi) as [x Hx].
  rewrite Hx. by apply drop_S.
Qed.

Lemma eval_take_S a i :
  (i < length a)%nat ->
  eval (take (S i) a) = eval (take i a) + 2 ^ (32 * Z.of_nat i) * limb a i.
Proof.
  intros Hi. destruct (lookup_lt_is_Some_2 a i Hi) as [x Hx].
  rewrite (take_S_r _ _ _ Hx), eval_app, length_take_le by lia.
  unfold limb. rewrite Hx. cbn [eval default]. simpl. lia.
Qed.

(** ** Refinement of the operators *)

Lemma low32 n : Z.land n 0xffffffff = u32 n.
Proof. change 0xffffffff with (2 ^ 32 - 1). by rewrite land_ones_mod. Qed.
Lemma high32 n : Z.shiftr n 32 = n / 2 ^ 32.
Proof. by rewrite Z.shiftr_div_pow2. Qed.

(** One limb of a carry loop: the low half is kept, the high half carried into
    the value [h] of the remaining limbs. *)
Lemma carry_step n h m :
  0 < m -> u32 n + 2 ^ 32 * ((n / 2 ^ 32 + h) mod m) = (n + 2 ^ 32 * h) mod (2 ^ 32 * m).
Proof.
  intros. rewrite mod_digit by (apply u32_range || lia). f_equal.
  unfold u32. pose proof (Z.div_mod n (2 ^ 32)). lia.
Qed.

Lemma high32_range n c : 0 <= n < 2 ^ 32 * c -> 0 <= n / 2 ^ 32 < c.
Proof. intros. split; [apply Z.div_pos|apply Z.div_lt_upper_bound]; lia. Qed.

Lemma add_loop_spec carry a b :
  0 <= carry <= 1 -> Forall is_u32 a -> Forall is_u32 b -> length a = length b ->
  eval (add_loop carry a b) = (carry + eval a + eval b) mod 2 ^ (32 * Z.of_nat (length a))
  /\ Forall is_u32 (add_loop carry a b) /\ length (add_loop carry a b) = length a.
Proof.
  intros Hc Ha. revert carry b Hc.
  induction Ha as [|x a Hx Ha IH]; intros carry [|y b] Hc Hb Hl; try done.
  { cbn. rewrite Z.mod_1_r. auto. }
  inversion Hb; subst. cbn [add_loop]. ranges.
  rewrite u64_id, low32, high32 by (ranges; lia).
  set (n := carry + x + y) in *.
  pose proof (high32_range n 2 ltac:(lia)).
  destruct (IH (n / 2 ^ 32) b) as (He & Hu & Hlen); [lia|done|simpl in Hl; lia|].
  splits; [|by constructor; auto using u32_range|simpl; lia].
  cbn [eval length]. rewrite He, pow32_S, <- Z.add_assoc, carry_step by apply pow32_pos.
  f_equal. lia.
Qed.

Lemma mul32_loop_spec carry b32 a :
  is_u32 carry -> is_u32 b32 -> Forall is_u32 a ->
  eval (mul32_loop carry b32 a) = (carry + b32 * eval a) mod 2 ^ (32 * Z.of_nat (length a))
  /\ Forall is_u32 (mul32_loop carry b32 a) /\ length (mul32_loop carry b32 a) = length a.
Proof.
  intros Hc Hb Ha. revert carry Hc.
  induction Ha as [|x a Hx Ha IH]; intros carry Hc.
  { cbn. rewrite Z.mod_1_r. auto. }
  cbn [mul32_loop]. ranges.
  rewrite u64_id, low32, high32 by (ranges; nia).
  set (n := carry + b32 * x) in *.
  pose proof (high32_range n (2 ^ 32) ltac:(nia)).
  destruct (IH (n / 2 ^ 32)) as (He & Hu & Hlen); [ranges; lia|].
  splits; [|by constructor; auto using u32_range|simpl; lia].
  cbn [eval length]. rewrite He, pow32_S, carry_step by apply pow32_pos.
  f_equal. lia.
Qed.

Lemma mul_row_spec carry aj pn b :
  is_u32 carry -> is_u32 aj -> Forall is_u32 pn -> Forall is_u32 b ->
  (length pn <= length b)%nat ->
  eval (mul_row carry aj pn b)
    = (carry + eval pn + aj * eval b) mod 2 ^ (32 * Z.of_nat (length pn))
  /\ Forall is_u32 (mul_row carry aj pn b) /\ length (mul_row carry aj pn b) = length pn.
Proof.
  intros Hc Hj Hp. revert carry b Hc.
  induction Hp as [|p pn Hx Hp IH]; intros carry b Hc Hb Hl.
  { cbn. rewrite Z.mod_1_r. destruct b; auto. }
  destruct b as [|y b]; [simpl in Hl; lia|]. inversion Hb; subst.
  cbn [mul_row]. ranges.
  rewrite u64_id, low32, high32 by (ranges; nia).
  set (n := carry + p + aj * y) in *.
  pose proof (high32_range n (2 ^ 32) ltac:(nia)).
  destruct (IH (n / 2 ^ 32) b) as (He & Hu & Hlen); [ranges; lia|done|simpl in Hl; lia|].
  splits; [|by constructor; auto using u32_range|simpl; lia].
  cbn [eval length]. rewrite He, pow32_S, <- Z.add_assoc, carry_step by apply pow32_pos.
  f_equal. lia.
Qed.

(** *** Construction, complement, increment *)

Lemma base_uint_zero_wf : wf base_uint_zero.
Proof. split; [done|]. by apply Forall_replicate. Qed.
Lemma base_uint_zero_eval : eval base_uint_zero = 0.
Proof. apply eval_replicate. Qed.

Lemma of_uint64_spec b : is_u64 b -> wf (of_uint64 b) /\ eval (of_uint64 b) = b.
Proof.
  intros Hb. unfold of_uint64. rewrite high32. ranges.
  pose proof (high32_range b (2 ^ 32) ltac:(lia)).
  rewrite (u32_id (b / 2 ^ 32)) by (ranges; lia).
  split; [split; [done|]|].
  - repeat constructor; ranges; try lia; apply u32_range.
  - cbn [eval]. rewrite eval_replicate. unfold u32. pose proof (Z.div_mod b (2 ^ 32)). lia.
Qed.

Lemma bnot_spec a :
  Forall is_u32 a ->
  eval (bnot a) = 2 ^ (32 * Z.of_nat (length a)) - 1 - eval a
  /\ Forall is_u32 (bnot a) /\ length (bnot a) = length a.
Proof.
  intros Ha. unfold bnot. rewrite length_map. splits; [|apply Forall_map, Forall_true; intros; apply u32_range|done].
  induction Ha as [|x a Hx Ha IH]; [done|].
  cbn [map eval length]. rewrite IH, pow32_S. ranges.
  assert (u32 (Z.lnot x) = 2 ^ 32 - 1 - x) as ->; [|lia].
  unfold u32. replace (Z.lnot x) with (2 ^ 32 - 1 - x + (-1) * 2 ^ 32)
    by (rewrite Z.lnot_eq_pred_opp; lia).
  rewrite Z.mod_add, Z.mod_small by lia. done.
Qed.

Lemma incr_spec a :
  Forall is_u32 a ->
  eval (incr a) = (eval a + 1) mod 2 ^ (32 * Z.of_nat (length a))
  /\ Forall is_u32 (incr a) /\ length (incr a) = length a.
Proof.
  induction 1 as [|x a Hx Ha (He & Hu & Hl)]; [by rewrite Z.mod_1_r|].
  cbn [incr length]. pose proof (eval_range a Ha) as Hr. ranges. rewrite pow32_S.
  destruct (decide (x = 2 ^ 32 - 1)) as [->|Hn].
  - change (u32 (2 ^ 32 - 1 + 1)) with 0. cbn [Z.eqb eval length]. splits; [|by constructor; [vm_compute|]|lia].
    rewrite He. rewrite mod_digit by lia. f_equal. lia.
  - rewrite u32_id by (ranges; lia).
    destruct (Z.eqb_spec (x + 1) 0); [lia|]. cbn [eval length].
    splits; [|by constructor; [ranges; lia|]|done].
    rewrite Z.mod_small by lia. lia.
Qed.

Lemma decr_spec a :
  Forall is_u32 a ->
  eval (decr a) = (eval a - 1) mod 2 ^ (32 * Z.of_nat (length a))
  /\ Forall is_u32 (decr a) /\ length (decr a) = length a.
Proof.
  induction 1 as [|x a Hx Ha (He & Hu & Hl)]; [by rewrite Z.mod_1_r|].
  cbn [decr length]. pose proof (eval_range a Ha) as Hr. ranges. rewrite pow32_S.
  change (u32 (-1)) with (2 ^ 32 - 1).
  destruct (decide (x = 0)) as [->|Hn].
  - change (u32 (0 - 1)) with (2 ^ 32 - 1). rewrite Z.eqb_refl. cbn [eval length].
    splits; [|by constructor; [vm_compute|]|lia].
    rewrite He. rewrite mod_digit by lia. f_equal. lia.
  - rewrite u32_id by (ranges; lia).
    destruct (Z.eqb_spec (x - 1) (2 ^ 32 - 1)); [lia|]. cbn [eval length].
    splits; [|by constructor; [ranges; lia|]|done].
    rewrite Z.mod_small by lia. lia.
Qed.

(** *** Ring operations on 256-bit values *)

Lemma wf_intro a : length a = WIDTH -> Forall is_u32 a -> wf a.
Proof. by split. Qed.

Lemma add_spec a b : wf a -> wf b -> wf (add a b) /\ eval (add a b) = (eval a + eval b) mod 2 ^ 256.
Proof.
  intros [La Ha] [Lb Hb]. unfold add.
  destruct (add_loop_spec 0 a b) as (He & Hu & Hl); [lia|done|done|congruence|].
  split; [split; congruence|]. by rewrite He, La.
Qed.

Lemma bnot_wf_spec a : wf a -> wf (bnot a) /\ eval (bnot a) = 2 ^ 256 - 1 - eval a.
Proof.
  intros [La Ha]. destruct (bnot_spec a Ha) as (He & Hu & Hl).
  split; [split; congruence|]. by rewrite He, La.
Qed.

Lemma incr_wf_spec a : wf a -> wf (incr a) /\ eval (incr a) = (eval a + 1) mod 2 ^ 256.
Proof.
  intros [La Ha]. destruct (incr_spec a Ha) as (He & Hu & Hl).
  split; [split; congruence|]. by rewrite He, La.
Qed.

Lemma decr_wf_spec a : wf a -> wf (decr a) /\ eval (decr a) = (eval a - 1) mod 2 ^ 256.
Proof.
  intros [La Ha]. destruct (decr_spec a Ha) as (He & Hu & Hl).
  split; [split; congruence|]. by rewrite He, La.
Qed.

Lemma neg_spec a : wf a -> wf (neg a) /\ eval (neg a) = (- eval a) mod 2 ^ 256.
Proof.
  intros Ha. destruct (bnot_wf_spec a Ha) as [Hw He].
  destruct (incr_wf_spec _ Hw) as [Hw' He']. split; [done|].
  unfold neg. rewrite He', He.
  replace (2 ^ 256 - 1 - eval a + 1) with (- eval a + 1 * 2 ^ 256) by lia.
  by rewrite Z.mod_add by lia.
Qed.

Lemma sub_spec a b : wf a -> wf b -> wf (sub a b) /\ eval (sub a b) = (eval a - eval b) mod 2 ^ 256.
Proof.
  intros Ha Hb. destruct (neg_spec b Hb) as [Hw He].
  destruct (add_spec a (neg b) Ha Hw) as [Hw' He']. split; [done|].
  unfold sub. by rewrite He', He, Z.add_mod_idemp_r by lia.
Qed.

Lemma mul32_spec a b32 :
  wf a -> is_u32 b32 -> wf (mul32 a b32) /\ eval (mul32 a b32) = (eval a * b32) mod 2 ^ 256.
Proof.
  intros [La Ha] Hb. unfold mul32.
  destruct (mul32_loop_spec 0 b32 a) as (He & Hu & Hl); [by vm_compute|done|done|].
  split; [split; congruence|]. rewrite He, La. f_equal. lia.
Qed.

Lemma eval_drop_limbs a j : Forall is_u32 a -> Forall is_u32 (drop j a) /\ Forall is_u32 (take j a).
Proof. intros; split; [by apply Forall_drop|by apply Forall_take]. Qed.

Lemma mul_step_spec a b pn j :
  wf a -> wf b -> wf pn -> (j < WIDTH)%nat ->
  wf (mul_step a b pn j)
  /\ eval (mul_step a b pn j) = (eval pn + 2 ^ (32 * Z.of_nat j) * limb a j * eval b) mod 2 ^ 256.
Proof.
  intros [La Ha] [Lb Hb] [Lp Hp] Hj. unfold mul_step.
  destruct (eval_drop_limbs pn j Hp) as [Hd Ht].
  destruct (mul_row_spec 0 (limb a j) (drop j pn) b) as (He & Hu & Hl);
    [by vm_compute|by apply limb_u32|done|done|rewrite length_drop; lia|].
  assert (Hlt : length (take j pn) = j) by (rewrite length_take; lia).
  split.
  - apply wf_intro; [|by apply Forall_app]. rewrite length_app, Hlt, Hl, length_drop. lia.
  - rewrite eval_app, Hlt, He, length_drop, Lp.
    pose proof (eval_range _ Ht) as Hr. rewrite Hlt in Hr.
    rewrite mod_digit by (try apply pow32_pos; lia).
    rewrite <- Z.pow_add_r by lia.
    replace (32 * Z.of_nat j + 32 * Z.of_nat (WIDTH - j)) with 256 by (unfold WIDTH in *; lia).
    f_equal. rewrite (eval_take_drop pn j) by lia. ring.
Qed.

Lemma mul_spec a b : wf a -> wf b -> wf (mul a b) /\ eval (mul a b) = (eval a * eval b) mod 2 ^ 256.
Proof.
  intros Ha Hb. unfold mul.
  pose proof (foldl_seq_inv
    (fun j pn => wf pn /\ eval pn = (eval (take j a) * eval b) mod 2 ^ 256)
    (mul_step a b) WIDTH base_uint_zero) as Hinv. cbv beta in Hinv.
  rewrite (take_ge a WIDTH) in Hinv by (destruct Ha; lia). apply Hinv.
  - split; [apply base_uint_zero_wf|]. by rewrite base_uint_zero_eval.
  - intros j pn Hj [Hw He]. destruct (mul_step_spec a b pn j Ha Hb Hw Hj) as [Hw' He'].
    split; [done|]. rewrite He', He, eval_take_S by (destruct Ha; lia).
    rewrite Z.add_mod_idemp_l by lia. f_equal. lia.
Qed.

(** *** Comparison and bit length *)

Lemma eval_take_range a i :
  Forall is_u32 a -> (i <= length a)%nat -> 0 <= eval (take i a) < 2 ^ (32 * Z.of_nat i).
Proof.
  intros Ha Hi. pose proof (eval_range (take i a) ltac:(by apply Forall_take)) as H.
  by rewrite length_take_le in H.
Qed.

Lemma compare_loop_spec a b i :
  Forall is_u32 a -> Forall is_u32 b -> (i <= length a)%nat -> (i <= length b)%nat ->
  compare_loop a b i = Z.sgn (eval (take i a) - eval (take i b)).
Proof.
  intros Ha Hb. induction i as [|i IH]; intros Hla Hlb; [done|].
  cbn [compare_loop]. rewrite !eval_take_S by lia.
  pose proof (eval_take_range a i Ha ltac:(lia)). pose proof (eval_take_range b i Hb ltac:(lia)).
  pose proof (pow32_pos i).
  destruct (Z.ltb_spec (limb a i) (limb b i)); [symmetry; apply Z.sgn_neg; nia|].
  destruct (Z.ltb_spec (limb b i) (limb a i)); [symmetry; apply Z.sgn_pos; nia|].
  rewrite IH by lia. replace (limb a i) with (limb b i) by lia. f_equal. lia.
Qed.

Lemma CompareTo_spec a b : wf a -> wf b -> CompareTo a b = Z.sgn (eval a - eval b).
Proof.
  intros [La Ha] [Lb Hb]. unfold CompareTo.
  rewrite compare_loop_spec by (done || lia). by rewrite !take_ge by lia.
Qed.

Lemma eval_zero_iff a : Forall is_u32 a -> (existsb (fun x => negb (x =? 0)) a = false <-> eval a = 0).
Proof.
  induction 1 as [|x a Hx Ha IH]; [done|]. cbn [existsb eval].
  rewrite orb_false_iff, IH, negb_false_iff, Z.eqb_eq.
  pose proof (eval_range a Ha). ranges. lia.
Qed.

Lemma EqualTo_spec a b : wf a -> is_u64 b -> EqualTo a b = (eval a =? b).
Proof.
  intros [La Ha] Hb. unfold EqualTo. rewrite high32, low32.
  rewrite (eval_take_drop a 2) by (unfold WIDTH in *; lia).
  pose proof (limb_u32 a 0 Ha). pose proof (limb_u32 a 1 Ha).
  assert (eval (take 2 a) = limb a 0 + 2 ^ 32 * limb a 1) as ->.
  { rewrite !eval_take_S by (unfold WIDTH in *; lia). cbn [take eval]. change (32 * Z.of_nat 1) with 32.
    change (eval (take 0 a)) with 0. change (2 ^ (32 * Z.of_nat 0)) with 1. lia. }
  destruct (eval_drop_limbs a 2 Ha) as [Hd _].
  pose proof (eval_range _ Hd). pose proof (eval_zero_iff _ Hd) as Hz.
  pose proof (Z.div_mod b (2 ^ 32)). pose proof (u32_range b). unfold u32 in *. ranges.
  change (32 * Z.of_nat 2) with 64.
  destruct existsb.
  - symmetry. apply Z.eqb_neq. intros Heq. assert (eval (drop 2 a) = 0) as E by lia.
    by apply Hz in E.
  - assert (eval (drop 2 a) = 0) as -> by by apply Hz.
    destruct (Z.eqb_spec (limb a 1) (b / 2 ^ 32)), (Z.eqb_spec (limb a 0) (b mod 2 ^ 32)); simpl;
      symmetry; try apply Z.eqb_neq; try apply Z.eqb_eq; lia.
Qed.

Lemma word_bits_spec x n :
  0 < x < 2 ^ Z.of_nat (S n) -> word_bits x n = bit_length x.
Proof.
  induction n as [|n IH]; intros Hx.
  - cbn in *. assert (x = 1) as -> by lia. done.
  - cbn [word_bits]. rewrite land_bit_zero, negb_involutive by lia.
    destruct (decide (2 ^ Z.of_nat (S n) <= x)) as [Hge|Hlt].
    + assert (Hb : bit_length x = Z.of_nat (S n) + 1).
      { apply bit_length_unique; [lia|].
        replace (Z.of_nat (S n) + 1 - 1) with (Z.of_nat (S n)) by lia.
        replace (Z.of_nat (S n) + 1) with (Z.of_nat (S (S n))) by lia. lia. }
      unfold bit_length in Hb. destruct (Z.eqb_spec x 0); [lia|].
      replace (Z.of_nat (S n)) with (Z.log2 x) at 1 by lia.
      rewrite Z.bit_log2 by lia. unfold bit_length. destruct (Z.eqb_spec x 0); lia.
    + assert (Z.testbit x (Z.of_nat (S n)) = false) as ->; [|apply IH; lia].
      by rewrite Z.testbit_false, Z.div_small by lia.
Qed.

Lemma bits_loop_spec a pos :
  Forall is_u32 a -> (pos <= length a)%nat -> bits_loop a pos = bit_length (eval (take pos a)).
Proof.
  intros Ha. induction pos as [|p IH]; intros Hl; [done|].
  cbn [bits_loop]. rewrite eval_take_S by lia.
  pose proof (limb_u32 a p Ha). pose proof (eval_take_range a p Ha ltac:(lia)).
  pose proof (pow32_pos p). ranges.
  destruct (Z.eqb_spec (limb a p) 0) as [->|Hn]; cbn [negb].
  - rewrite IH by lia. f_equal. lia.
  - rewrite word_bits_spec by (change (Z.of_nat 32) with 32; lia).
    destruct (bit_length_bounds (limb a p)) as (Hp & Hb); [lia|].
    symmetry. apply bit_length_unique; [lia|].
    rewrite <- Z.add_sub_assoc, !Z.pow_add_r by lia. nia.
Qed.

Lemma bits_spec a : wf a -> bits a = bit_length (eval a).
Proof.
  intros [La Ha]. unfold bits. rewrite bits_loop_spec by (done || lia). by rewrite take_ge by lia.
Qed.

(** *** Shifts *)

Lemma limb_le_eval a j :
  Forall is_u32 a -> 0 <= limb a j * 2 ^ (32 * Z.of_nat j) <= eval a.
Proof.
  intros Ha. pose proof (limb_u32 a j Ha). pose proof (pow32_pos j).
  pose proof (eval_range a Ha). ranges.
  destruct (decide (j < length a)%nat) as [Hj|Hj].
  - rewrite (eval_take_drop a j), (drop_limb a j) by lia. cbn [eval].
    pose proof (eval_take_range a j Ha ltac:(lia)).
    pose proof (eval_range (drop (S j) a) ltac:(by apply Forall_drop)). nia.
  - unfold limb. rewrite lookup_ge_None_2 by lia. cbn [default]. simpl. lia.
Qed.

Lemma limb_lt_pow2 a j n :
  Forall is_u32 a -> eval a < 2 ^ n -> 32 * Z.of_nat j <= n ->
  0 <= limb a j < 2 ^ (n - 32 * Z.of_nat j).
Proof.
  intros Ha He Hn. pose proof (limb_le_eval a j Ha). pose proof (pow32_pos j).
  split; [nia|]. replace n with (n - 32 * Z.of_nat j + 32 * Z.of_nat j) in He by lia.
  rewrite Z.pow_add_r in He by lia. nia.
Qed.

Lemma or_at_spec a i v :
  (i < length a)%nat -> Forall is_u32 a -> is_u32 v ->
  length (or_at i v a) = length a /\ Forall is_u32 (or_at i v a)
  /\ eval (or_at i v a) = eval a + (Z.lor (limb a i) v - limb a i) * 2 ^ (32 * Z.of_nat i).
Proof.
  intros Hi Ha Hv. unfold or_at. splits.
  - apply length_insert.
  - apply Forall_insert; [done|]. apply lor_range; [lia|by apply limb_u32|done].
  - by apply eval_insert.
Qed.

(** Adding a value into a limb whose low (resp. all) bits it does not touch. *)
Lemma or_at_add a i v n :
  (i < length a)%nat -> Forall is_u32 a -> 0 <= n -> limb a i < 2 ^ n ->
  0 <= v * 2 ^ n < 2 ^ 32 ->
  length (or_at i (v * 2 ^ n) a) = length a /\ Forall is_u32 (or_at i (v * 2 ^ n) a)
  /\ eval (or_at i (v * 2 ^ n) a) = eval a + v * 2 ^ n * 2 ^ (32 * Z.of_nat i).
Proof.
  intros Hi Ha Hn Hl Hv. pose proof (limb_u32 a i Ha).
  destruct (or_at_spec a i (v * 2 ^ n) Hi Ha Hv) as (? & ? & He).
  splits; [done|done|]. rewrite He, lor_add_disjoint by (ranges; lia). f_equal. lia.
Qed.

Lemma or_at_high a i v n :
  (i < length a)%nat -> Forall is_u32 a -> 0 <= n ->
  (exists y, limb a i = y * 2 ^ n) -> 0 <= v < 2 ^ n -> n <= 32 ->
  length (or_at i v a) = length a /\ Forall is_u32 (or_at i v a)
  /\ eval (or_at i v a) = eval a + v * 2 ^ (32 * Z.of_nat i).
Proof.
  intros Hi Ha Hn [y Hy] Hv H32.
  assert (2 ^ n <= 2 ^ 32) by (apply Z.pow_le_mono_r; lia).
  destruct (or_at_spec a i v Hi Ha) as (? & ? & He); [ranges; lia|].
  splits; [done|done|]. rewrite He, Hy, Zlor_comm_add by lia. f_equal. lia.
Qed.

(** Shifting a word left drops its high bits into the next word. *)
Lemma word_shl_split x r :
  is_u32 x -> 0 <= r < 32 ->
  u32 (Z.shiftl x r) = (x mod 2 ^ (32 - r)) * 2 ^ r
  /\ 0 <= x mod 2 ^ (32 - r) * 2 ^ r < 2 ^ 32
  /\ 0 <= Z.shiftr x (32 - r) < 2 ^ r
  /\ x * 2 ^ r = (x mod 2 ^ (32 - r)) * 2 ^ r + 2 ^ 32 * Z.shiftr x (32 - r).
Proof.
  intros Hx Hr. ranges. rewrite Z.shiftl_mul_pow2, Z.shiftr_div_pow2 by lia.
  assert (Hp : 2 ^ 32 = 2 ^ (32 - r) * 2 ^ r) by (rewrite <- Z.pow_add_r by lia; f_equal; lia).
  assert (0 < 2 ^ (32 - r)) by (apply Z.pow_pos_nonneg; lia).
  assert (0 < 2 ^ r) by (apply Z.pow_pos_nonneg; lia).
  pose proof (Z.div_mod x (2 ^ (32 - r)) ltac:(lia)).
  pose proof (Z.mod_pos_bound x (2 ^ (32 - r)) ltac:(lia)).
  splits; try nia.
  - unfold u32. rewrite Hp, Z.mul_mod_distr_r by lia. done.
Qed.

Lemma shl_step_spec k r a pn i :
  wf a -> wf pn -> 0 <= r < 32 -> (i < WIDTH)%nat ->
  eval pn < 2 ^ (32 * Z.of_nat (i + k) + r) ->
  wf (shl_step k r a pn i)
  /\ exists c, eval pn + limb a i * 2 ^ r * 2 ^ (32 * Z.of_nat (i + k))
               = eval (shl_step k r a pn i) + c * 2 ^ 256.
Proof.
  intros [La Ha] [Lp Hp] Hr Hi Hlow. unfold shl_step.
  pose proof (limb_u32 a i Ha) as Hx.
  destruct (word_shl_split (limb a i) r Hx Hr) as (-> & Hlo & Hhi & Hsum).
  set (lo := limb a i mod 2 ^ (32 - r)) in *. set (hi := Z.shiftr (limb a i) (32 - r)) in *.
  assert (Hik : limb a i * 2 ^ r * 2 ^ (32 * Z.of_nat (i + k))
                = lo * 2 ^ r * 2 ^ (32 * Z.of_nat (i + k)) + hi * 2 ^ (32 * Z.of_nat (i + k + 1))).
  { rewrite Hsum. replace (i + k + 1)%nat with (S (i + k)) by lia. rewrite pow32_S. ring. }
  destruct (Nat.ltb_spec (i + k) WIDTH) as [Hlt|Hge].
  2: { destruct (Nat.ltb_spec (i + k + 1) WIDTH); [lia|]. simpl. split; [done|].
       exists (limb a i * 2 ^ r * 2 ^ (32 * Z.of_nat (i + k - WIDTH))).
       replace (32 * Z.of_nat (i + k)) with (32 * Z.of_nat (i + k - WIDTH) + 256)
         by (unfold WIDTH in *; lia).
       rewrite Z.pow_add_r by lia. ring. }
  set (pn1 := if ((i + k + 1 <? WIDTH)%nat && negb (r =? 0))%bool then _ else pn).
  assert (H1 : wf pn1 /\ limb pn1 (i + k) = limb pn (i + k) /\
    exists c, eval pn + hi * 2 ^ (32 * Z.of_nat (i + k + 1)) = eval pn1 + c * 2 ^ 256).
  { subst pn1. destruct (Nat.ltb_spec (i + k + 1) WIDTH) as [H1|H1]; simpl.
    - destruct (Z.eqb_spec r 0) as [->|Hr0]; simpl.
      + splits; [done|done|]. exists 0. change (2 ^ 0) with 1 in Hhi. lia.
      + assert (Hz : limb pn (i + k + 1) = 0).
        { pose proof (limb_lt_pow2 pn (i + k + 1) (32 * Z.of_nat (i + k + 1)) Hp) as Hb.
          rewrite Z.sub_diag in Hb. change (2 ^ 0) with 1 in Hb.
          enough (eval pn < 2 ^ (32 * Z.of_nat (i + k + 1))) by (apply Z.le_antisymm; lia).
          eapply Z.lt_le_trans; [exact Hlow|]. apply Z.pow_le_mono_r; lia. }
        destruct (or_at_spec pn (i + k + 1) hi) as (Hl' & Hu' & He'); [lia|done| |].
        { ranges. assert (2 ^ r <= 2 ^ 32) by (apply Z.pow_le_mono_r; lia). lia. }
        splits; [by split; [rewrite Hl'|]|unfold or_at; rewrite limb_insert_ne; [done|lia]|].
        exists 0. rewrite He', Hz, Z.lor_0_l. lia.
    - splits; [done|done|].
      exists hi. replace (i + k + 1)%nat with WIDTH by lia. done. }
  destruct H1 as ([Lp1 Hp1] & Hl1 & c & Hc).
  destruct (or_at_add pn1 (i + k) lo r) as (Hl' & Hu' & He'); [lia|done|lia| |done|].
  { rewrite Hl1. pose proof (limb_lt_pow2 pn (i + k) _ Hp Hlow ltac:(lia)) as Hb.
    replace (32 * Z.of_nat (i + k) + r - 32 * Z.of_nat (i + k)) with r in Hb by lia. lia. }
  split; [by split; [rewrite Hl'|]|]. exists c. rewrite He', Hik. lia.
Qed.

Lemma shl_spec a s :
  wf a -> 0 <= s -> wf (shl a s) /\ eval (shl a s) = (eval a * 2 ^ s) mod 2 ^ 256.
Proof.
  intros Ha Hs. unfold shl. set (k := Z.to_nat (s / 32)). set (r := s mod 32).
  assert (0 <= r < 32) by (apply Z.mod_pos_bound; lia).
  assert (Hsk : s = 32 * Z.of_nat k + r).
  { unfold k, r. rewrite Z2Nat.id by (apply Z.div_pos; lia). apply Z.div_mod. lia. }
  pose proof (foldl_seq_inv
    (fun i pn => wf pn /\ eval pn = (eval (take i a) * 2 ^ s) mod 2 ^ 256)
    (shl_step k r a) WIDTH base_uint_zero) as Hinv. cbv beta in Hinv.
  rewrite (take_ge a WIDTH) in Hinv by (destruct Ha; lia). apply Hinv.
  - split; [apply base_uint_zero_wf|]. by rewrite base_uint_zero_eval.
  - intros i pn Hi [Hw He].
    assert (Hpow : 2 ^ s = 2 ^ r * 2 ^ (32 * Z.of_nat k)) by (rewrite Hsk, Z.pow_add_r by lia; ring).
    assert (0 < 2 ^ s) by (apply Z.pow_pos_nonneg; lia).
    pose proof (eval_take_range a i ltac:(apply Ha) ltac:(destruct Ha; lia)).
    destruct (shl_step_spec k r a pn i Ha Hw) as [Hw' [c Hc]]; [lia|done| |].
    { rewrite He. eapply Z.le_lt_trans; [apply Z.mod_le; nia|].
      replace (32 * Z.of_nat (i + k) + r) with (32 * Z.of_nat i + s) by lia.
      rewrite Z.pow_add_r by lia. nia. }
    split; [done|]. rewrite eval_take_S by (destruct Ha; lia).
    apply mod_unique_range; [by apply eval_wf_range|].
    exists (c + (eval (take i a) * 2 ^ s) / 2 ^ 256).
    pose proof (Z.div_mod (eval (take i a) * 2 ^ s) (2 ^ 256) ltac:(lia)).
    replace ((eval (take i a) + 2 ^ (32 * Z.of_nat i) * limb a i) * 2 ^ s)
      with (eval (take i a) * 2 ^ s + limb a i * 2 ^ r * 2 ^ (32 * Z.of_nat (i + k))); [lia|].
    rewrite Hpow, Nat2Z.inj_add, Z.mul_add_distr_l, Z.pow_add_r by lia. ring.
Qed.

(** Shifting a word right drops its low bits into the previous word. *)
Lemma word_shr_split x r :
  is_u32 x -> 0 <= r < 32 ->
  u32 (Z.shiftl x (32 - r)) = (x mod 2 ^ r) * 2 ^ (32 - r)
  /\ 0 <= x mod 2 ^ r * 2 ^ (32 - r) < 2 ^ 32
  /\ 0 <= Z.shiftr x r < 2 ^ (32 - r)
  /\ x * 2 ^ (32 - r) = (x mod 2 ^ r) * 2 ^ (32 - r) + 2 ^ 32 * Z.shiftr x r.
Proof.
  intros Hx Hr. ranges. rewrite Z.shiftl_mul_pow2, Z.shiftr_div_pow2 by lia.
  assert (Hp : 2 ^ 32 = 2 ^ (32 - r) * 2 ^ r) by (rewrite <- Z.pow_add_r by lia; f_equal; lia).
  assert (0 < 2 ^ (32 - r)) by (apply Z.pow_pos_nonneg; lia).
  assert (0 < 2 ^ r) by (apply Z.pow_pos_nonneg; lia).
  pose proof (Z.div_mod x (2 ^ r) ltac:(lia)).
  pose proof (Z.mod_pos_bound x (2 ^ r) ltac:(lia)).
  split; [|nia]. unfold u32. rewrite Hp, (Z.mul_comm (2 ^ (32 - r)) (2 ^ r)).
  by rewrite Z.mul_mod_distr_r by lia.
Qed.

Lemma shr_step_low k r a pn i :
  wf a -> wf pn -> 0 <= r < 32 -> (i < WIDTH)%nat -> (i < k)%nat -> shr_step k r a pn i = pn.
Proof.
  intros. unfold shr_step.
  destruct (Nat.leb_spec (k + 1) i); [lia|]. destruct (Nat.leb_spec k i); [lia|]. done.
Qed.

Lemma shr_step_spec k r a pn i :
  wf a -> wf pn -> 0 <= r < 32 -> (i < WIDTH)%nat -> (k < i)%nat ->
  eval pn < 2 ^ (32 * Z.of_nat (i - k) - r) ->
  wf (shr_step k r a pn i)
  /\ eval (shr_step k r a pn i) = eval pn + limb a i * 2 ^ (32 * Z.of_nat (i - k) - r).
Proof.
  intros [La Ha] [Lp Hp] Hr Hi Hk Hlow. unfold shr_step.
  pose proof (limb_u32 a i Ha) as Hx.
  destruct (word_shr_split (limb a i) r Hx Hr) as (-> & Hlo & Hhi & Hsum).
  set (lo := limb a i mod 2 ^ r) in *. set (hi := Z.shiftr (limb a i) r) in *.
  destruct (Nat.leb_spec (k + 1) i); [|lia]. destruct (Nat.leb_spec k i); [|lia]. simpl.
  replace (i - k - 1)%nat with (pred (i - k)) by lia.
  remember (i - k)%nat as m eqn:Hm. destruct m as [|m]; [lia|]. cbn [pred].
  set (pn1 := if negb (r =? 0) then _ else pn).
  assert (H1 : wf pn1 /\ limb pn1 (S m) = limb pn (S m) /\
               eval pn1 = eval pn + lo * 2 ^ (32 - r) * 2 ^ (32 * Z.of_nat m)).
  { subst pn1. destruct (Z.eqb_spec r 0) as [->|Hr0]; cbn [negb].
    - splits; [done|done|]. subst lo. change (2 ^ 0) with 1. rewrite Z.mod_1_r. lia.
    - destruct (or_at_add pn m lo (32 - r)) as (Hl' & Hu' & He'); [lia|done|lia| |done|].
      { pose proof (limb_lt_pow2 pn m _ Hp Hlow ltac:(lia)) as Hb.
        replace (32 * Z.of_nat (S m) - r - 32 * Z.of_nat m) with (32 - r) in Hb by lia. lia. }
      splits; [by split; [rewrite Hl'|]|unfold or_at; rewrite limb_insert_ne; [done|lia]|done]. }
  destruct H1 as ([Lp1 Hp1] & Hl1 & He1).
  destruct (or_at_high pn1 (S m) hi (32 - r)) as (Hl' & Hu' & He'); [lia|done|lia| |done|lia|].
  { exists 0. rewrite Hl1.
    pose proof (limb_lt_pow2 pn (S m) (32 * Z.of_nat (S m)) Hp) as Hb.
    rewrite Z.sub_diag in Hb. change (2 ^ 0) with 1 in Hb.
    enough (eval pn < 2 ^ (32 * Z.of_nat (S m))) by lia.
    eapply Z.lt_le_trans; [exact Hlow|]. apply Z.pow_le_mono_r; lia. }
  split; [by split; [rewrite Hl'|]|]. rewrite He', He1.
  replace (32 * Z.of_nat (S m) - r) with (32 - r + 32 * Z.of_nat m) by lia.
  rewrite Z.pow_add_r, Z.mul_assoc, Hsum, pow32_S by lia. ring.
Qed.

Lemma shr_step_first k r a i :
  wf a -> 0 <= r < 32 -> (i < WIDTH)%nat -> i = k ->
  wf (shr_step k r a base_uint_zero i)
  /\ eval (shr_step k r a base_uint_zero i) = limb a i / 2 ^ r.
Proof.
  intros [La Ha] Hr Hi ->. unfold shr_step.
  destruct (Nat.leb_spec (k + 1) k); [lia|]. destruct (Nat.leb_spec k k); [|lia]. simpl.
  rewrite Nat.sub_diag. pose proof (limb_u32 a k Ha) as Hx.
  destruct (word_shr_split (limb a k) r Hx Hr) as (_ & _ & Hhi & _).
  destruct base_uint_zero_wf as [Lz Hz].
  destruct (or_at_high base_uint_zero 0 (Z.shiftr (limb a k) r) 32) as (Hl' & Hu' & He');
    [by vm_compute; lia|done|lia|by exists 0| |lia|].
  { assert (2 ^ (32 - r) <= 2 ^ 32) by (apply Z.pow_le_mono_r; lia). lia. }
  split; [by split; [rewrite Hl'|]|]. rewrite He', base_uint_zero_eval.
  rewrite Z.shiftr_div_pow2 by lia. change (2 ^ (32 * Z.of_nat 0)) with 1. lia.
Qed.

Lemma shr_spec a s :
  wf a -> 0 <= s -> wf (shr a s) /\ eval (shr a s) = eval a / 2 ^ s.
Proof.
  intros Ha Hs. unfold shr. set (k := Z.to_nat (s / 32)). set (r := s mod 32).
  assert (0 <= r < 32) by (apply Z.mod_pos_bound; lia).
  assert (Hsk : s = 32 * Z.of_nat k + r).
  { unfold k, r. rewrite Z2Nat.id by (apply Z.div_pos; lia). apply Z.div_mod. lia. }
  pose proof (foldl_seq_inv
    (fun i pn => wf pn /\ eval pn = eval (take i a) / 2 ^ s /\ ((i <= k)%nat -> pn = base_uint_zero))
    (shr_step k r a) WIDTH base_uint_zero) as Hinv. cbv beta in Hinv.
  rewrite (take_ge a WIDTH) in Hinv by (destruct Ha; lia).
  enough (H0 : wf (foldl (shr_step k r a) base_uint_zero (seq 0 WIDTH)) /\
    eval (foldl (shr_step k r a) base_uint_zero (seq 0 WIDTH)) = eval a / 2 ^ s /\
    ((WIDTH <= k)%nat -> foldl (shr_step k r a) base_uint_zero (seq 0 WIDTH) = base_uint_zero))
    by (split; apply H0).
  apply Hinv; clear Hinv.
  { split; [apply base_uint_zero_wf|]. split; [by rewrite base_uint_zero_eval|done]. }
  intros i pn Hi (Hw & He & Hz).
  pose proof (eval_take_range a i ltac:(apply Ha) ltac:(destruct Ha; lia)).
  pose proof (limb_u32 a i ltac:(apply Ha)) as Hx. ranges.
  assert (0 < 2 ^ s) by (apply Z.pow_pos_nonneg; lia).
  rewrite eval_take_S by (destruct Ha; lia).
  destruct (lt_eq_lt_dec i k) as [[Hik|Hik]|Hik].
  - rewrite shr_step_low by (done || lia). splits; [done| |intros; apply Hz; lia].
    rewrite He. rewrite !Z.div_small; [done| |].
    + split; [lia|]. eapply Z.lt_le_trans; [|apply (Z.pow_le_mono_r 2 (32 * Z.of_nat (S i))); lia].
      rewrite pow32_S. nia.
    + split; [lia|]. eapply Z.lt_le_trans; [|apply (Z.pow_le_mono_r 2 (32 * Z.of_nat i)); lia]. lia.
  - rewrite Hz by lia. destruct (shr_step_first k r a i) as [Hw' He']; [done|done|done|done|].
    splits; [done| |lia]. rewrite He', Hsk, <- Hik, Z.pow_add_r by lia.
    rewrite <- Z.div_div by lia. rewrite (Z.mul_comm (2 ^ (32 * Z.of_nat i))), Z.div_add by lia.
    by rewrite (Z.div_small (eval (take i a))), Z.add_0_l by lia.
  - destruct (shr_step_spec k r a pn i) as [Hw' He']; [done|done|done|done|lia| |].
    { rewrite He. apply Z.div_lt_upper_bound; [lia|]. rewrite <- Z.pow_add_r by lia.
      replace (s + (32 * Z.of_nat (i - k) - r)) with (32 * Z.of_nat i) by lia. lia. }
    splits; [done| |lia]. rewrite He', He.
    replace (2 ^ (32 * Z.of_nat i) * limb a i)
      with (limb a i * 2 ^ (32 * Z.of_nat (i - k) - r) * 2 ^ s); [by rewrite Z.div_add by lia|].
    rewrite <- Z.mul_assoc, <- Z.pow_add_r by lia.
    replace (32 * Z.of_nat (i - k) - r + s) with (32 * Z.of_nat i) by lia. ring.
Qed.

(** *** Division *)

Lemma limb_testbit a j t :
  Forall is_u32 a -> (j < length a)%nat -> 0 <= t < 32 ->
  Z.testbit (limb a j) t = Z.testbit (eval a) (32 * Z.of_nat j + t).
Proof.
  intros Ha Hj Ht. rewrite (eval_take_drop a j), (drop_limb a j) by lia. cbn [eval].
  pose proof (eval_take_range a j Ha ltac:(lia)). pose proof (limb_u32 a j Ha). ranges.
  rewrite Z.add_comm, (Z.add_comm (32 * Z.of_nat j)), <- Z.div_pow2_bits by lia.
  rewrite (Z.mul_comm (2 ^ (32 * Z.of_nat j))), Z.div_add_l, Z.div_small, Z.add_0_r by lia.
  rewrite (Z.mul_comm (2 ^ 32)).
  by rewrite <- (Z.mod_pow2_bits_low (limb a j + _ * _) 32 t), Z.mod_add, Z.mod_small by lia.
Qed.

(** Setting a clear bit of the quotient. *)
Lemma or_at_bit q s :
  wf q -> (s < 256)%nat -> Z.testbit (eval q) (Z.of_nat s) = false ->
  wf (or_at (s / 32) (Z.shiftl 1 (Z.land (Z.of_nat s) 31)) q)
  /\ eval (or_at (s / 32) (Z.shiftl 1 (Z.land (Z.of_nat s) 31)) q) = eval q + 2 ^ Z.of_nat s.
Proof.
  intros [Lq Hq] Hs Ht. change 31 with (2 ^ 5 - 1). rewrite land_ones_mod by lia.
  change (2 ^ 5) with 32. rewrite Z.shiftl_1_l.
  pose proof (Z.mod_pos_bound (Z.of_nat s) 32 ltac:(lia)) as Hm.
  assert (Hdm : Z.of_nat s = 32 * Z.of_nat (s / 32) + Z.of_nat s mod 32).
  { rewrite Nat2Z.inj_div. apply Z.div_mod. lia. }
  assert (Hi : (s / 32 < length q)%nat) by (rewrite Lq; unfold WIDTH; lia).
  destruct (or_at_spec q (s / 32) (2 ^ (Z.of_nat s mod 32))) as (Hl & Hu & He); [done|done| |].
  { ranges. split; [lia|]. apply Z.pow_lt_mono_r; lia. }
  split; [split; congruence|]. rewrite He, lor_pow2_clear; [|lia|].
  - replace (limb q (s / 32) + 2 ^ (Z.of_nat s mod 32) - limb q (s / 32))
      with (2 ^ (Z.of_nat s mod 32)) by lia.
    rewrite <- Z.pow_add_r by lia. f_equal. f_equal. lia.
  - rewrite limb_testbit by (done || lia). by rewrite <- Hdm.
Qed.

Lemma div_loop_spec fuel num div q A B :
  wf num -> wf div -> wf q -> 0 < B -> (fuel <= 256)%nat ->
  (fuel <> 0%nat -> eval div = B * 2 ^ (Z.of_nat fuel - 1)) ->
  eval num < B * 2 ^ Z.of_nat fuel ->
  A = eval q * B + eval num ->
  (exists Q, eval q = Q * 2 ^ Z.of_nat fuel) -> A < 2 ^ 256 ->
  wf (div_loop fuel num div q) /\ eval (div_loop fuel num div q) = A / B.
Proof.
  revert num div q. induction fuel as [|s IH]; intros num div q Hn Hd Hq HB Hf Hdiv Hnum HA [Q HQ] Hbig.
  - cbn [div_loop]. split; [done|]. change (2 ^ Z.of_nat 0) with 1 in *.
    pose proof (eval_wf_range num Hn). rewrite HA, Z.div_add_l, Z.div_small by lia. lia.
  - cbn [div_loop]. specialize (Hdiv ltac:(lia)).
    replace (Z.of_nat (S s) - 1) with (Z.of_nat s) in Hdiv by lia.
    rewrite Nat2Z.inj_succ, Z.pow_succ_r in * by lia.
    pose proof (eval_wf_range num Hn). pose proof (eval_wf_range q Hq).
    assert (0 < 2 ^ Z.of_nat s) by (apply Z.pow_pos_nonneg; lia).
    destruct (shr_spec div 1 Hd ltac:(lia)) as [Hw1 He1].
    assert (Hdiv' : s <> 0%nat -> eval (shr div 1) = B * 2 ^ (Z.of_nat s - 1)).
    { intros. rewrite He1, Hdiv. replace (Z.of_nat s) with (Z.of_nat s - 1 + 1) at 1 by lia.
      rewrite Z.pow_add_r, Z.mul_assoc, Z.div_mul by lia. done. }
    rewrite CompareTo_spec by done. destruct (Z.leb_spec 0 (Z.sgn (eval num - eval div))) as [Hge|Hlt].
    + destruct (sub_spec num div Hn Hd) as [Hws Hes]. rewrite Z.mod_small in Hes by lia.
      destruct (or_at_bit q s Hq) as [Hwq Heq]; [lia| |].
      { rewrite HQ. replace (2 * 2 ^ Z.of_nat s) with (2 ^ (Z.of_nat s + 1))
          by (rewrite Z.pow_add_r by lia; lia). apply testbit_multiple. lia. }
      apply IH; try done; try lia; try nia. exists (2 * Q + 1). rewrite Heq, HQ. lia.
    + apply IH; try done; try lia. exists (2 * Q). rewrite HQ. lia.
Qed.

Lemma div_spec a b :
  wf a -> wf b ->
  match div a b with
  | Err DivisionByZero => eval b = 0
  | Ok q => eval b <> 0 /\ wf q /\ eval q = eval a / eval b
  end.
Proof.
  intros Ha Hb. unfold div. rewrite !bits_spec by done.
  pose proof (eval_wf_range a Ha). pose proof (eval_wf_range b Hb).
  destruct (Z.eqb_spec (bit_length (eval b)) 0) as [E|E].
  { destruct (decide (eval b = 0)); [done|]. destruct (bit_length_bounds (eval b)); lia. }
  assert (Hb0 : eval b <> 0) by (intros Hz; rewrite Hz in E; done).
  destruct (bit_length_bounds (eval b)) as (? & Hbl); [lia|].
  pose proof (bit_length_le (eval a) 256 ltac:(lia) ltac:(lia)).
  destruct (Z.ltb_spec (bit_length (eval a)) (bit_length (eval b))) as [Hlt|Hge].
  { splits; [done|apply base_uint_zero_wf|]. rewrite base_uint_zero_eval, Z.div_small; [done|].
    split; [lia|]. pose proof (bit_length_lt (eval a) ltac:(lia)).
    assert (2 ^ bit_length (eval a) <= 2 ^ (bit_length (eval b) - 1)) by (apply Z.pow_le_mono_r; lia). lia. }
  split; [done|]. set (s := bit_length (eval a) - bit_length (eval b)).
  assert (Hab : 2 ^ bit_length (eval a) = 2 ^ (bit_length (eval b) - 1) * (2 * 2 ^ s)).
  { rewrite <- Z.pow_succ_r, <- Z.pow_add_r by lia. f_equal. lia. }
  assert (0 < 2 ^ s) by (apply Z.pow_pos_nonneg; lia).
  pose proof (bit_length_lt (eval a) ltac:(lia)).
  destruct (shl_spec b s Hb ltac:(lia)) as [Hws Hes].
  rewrite Z.mod_small in Hes.
  2: { split; [nia|]. apply Z.lt_le_trans with (2 ^ bit_length (eval b) * 2 ^ s); [nia|].
       rewrite <- Z.pow_add_r by lia. apply Z.pow_le_mono_r; lia. }
  apply div_loop_spec; try done; try lia.
  - apply base_uint_zero_wf.
  - intros _. rewrite Hes. f_equal. f_equal. lia.
  - replace (Z.of_nat (S (Z.to_nat s))) with (Z.succ s) by lia. rewrite Z.pow_succ_r by lia. nia.
  - exists 0. apply base_uint_zero_eval.
Qed.

(** *** The compact encoding *)

(** The whole number a compact encoding stands for: exponent (number of bytes)
    in the top eight bits, mantissa in the low 23. *)
Definition compact_exponent (c : Z) : Z := c / 2 ^ 24.
Definition compact_mantissa (c : Z) : Z := c mod 2 ^ 23.
Definition compact_number (c : Z) : Z :=
  let e := compact_exponent c in
  let m := compact_mantissa c in
  if e <=? 3 then m / 2 ^ (8 * (3 - e)) else m * 2 ^ (8 * (e - 3)).

Lemma bool_iff_eq (b : bool) (P : Prop) : (b = true <-> P) -> forall b', (b' = true <-> P) -> b = b'.
Proof. intros H b' H'. destruct b, b'; intuition congruence. Qed.

(** The overflow test of [SetCompact] against the size of the number. *)
Lemma compact_overflow_iff m e :
  0 <= m < 2 ^ 23 -> 3 < e ->
  negb (m =? 0) && ((e >? 34) || ((m >? 0xff) && (e >? 33)) || ((m >? 0xffff) && (e >? 32))) = true
  <-> 2 ^ 256 <= m * 2 ^ (8 * (e - 3)).
Proof.
  intros Hm He.
  rewrite andb_true_iff, !orb_true_iff, !andb_true_iff, negb_true_iff, Z.eqb_neq, !Z.gtb_lt.
  assert (Hcase : e <= 32 \/ e = 33 \/ e = 34 \/ 34 < e) by lia.
  destruct Hcase as [Hc|[->|[->|Hc]]].
  - assert (2 ^ (8 * (e - 3)) <= 2 ^ 232) by (apply Z.pow_le_mono_r; lia).
    change (2 ^ 256) with (2 ^ 24 * 2 ^ 232). split; nia.
  - change (2 ^ 256) with (2 ^ 16 * 2 ^ (8 * (33 - 3))). nia.
  - change (2 ^ 256) with (2 ^ 8 * 2 ^ (8 * (34 - 3))). nia.
  - assert (2 ^ 256 <= 2 ^ (8 * (e - 3))) by (apply Z.pow_le_mono_r; lia). split; nia.
Qed.

Lemma compact_range c :
  is_u32 c -> 0 <= compact_exponent c < 256 /\ 0 <= compact_mantissa c < 2 ^ 23.
Proof.
  intros Hc. ranges. unfold compact_exponent, compact_mantissa.
  pose proof (Z.mod_pos_bound c (2 ^ 23) ltac:(lia)).
  split; [|lia]. split; [apply Z.div_pos|apply Z.div_lt_upper_bound]; lia.
Qed.

Lemma compact_number_small c :
  is_u32 c -> compact_exponent c <= 3 -> 0 <= compact_number c < 2 ^ 23.
Proof.
  intros Hc He. pose proof (compact_range c Hc). unfold compact_number.
  destruct (Z.leb_spec (compact_exponent c) 3); [|lia].
  assert (0 < 2 ^ (8 * (3 - compact_exponent c))) by (apply Z.pow_pos_nonneg; lia).
  split; [apply Z.div_pos; lia|]. apply Z.div_lt_upper_bound; nia.
Qed.

Definition compact_negative (c : Z) : bool :=
  negb ((if compact_exponent c <=? 3 then compact_number c else compact_mantissa c) =? 0)
  && Z.testbit c 23.

Lemma SetCompact_spec c :
  is_u32 c ->
  let '(v, fNegative, fOverflow) := SetCompact c in
  wf v /\ eval v = compact_number c mod 2 ^ 256
  /\ fNegative = compact_negative c
  /\ (fOverflow = true <-> 2 ^ 256 <= compact_number c).
Proof.
  intros Hc. unfold SetCompact. destruct (compact_range c Hc) as [He Hm].
  assert (E1 : Z.shiftr c 24 = compact_exponent c) by by rewrite Z.shiftr_div_pow2.
  assert (E2 : Z.land c 0x007fffff = compact_mantissa c).
  { change 0x007fffff with (2 ^ 23 - 1). by rewrite land_ones_mod. }
  assert (E3 : (Z.land c 0x00800000 =? 0) = negb (Z.testbit c 23)) by by apply (land_bit_zero c 23).
  rewrite E1, E2, E3, negb_involutive. unfold compact_negative.
  destruct (Z.leb_spec (compact_exponent c) 3) as [Hle|Hgt].
  - pose proof (compact_number_small c Hc Hle) as Hn.
    assert (E : Z.shiftr (compact_mantissa c) (8 * (3 - compact_exponent c)) = compact_number c).
    { rewrite Z.shiftr_div_pow2 by lia. unfold compact_number.
      by destruct (Z.leb_spec (compact_exponent c) 3); [|lia]. }
    rewrite E. destruct (of_uint64_spec (compact_number c)) as [Hw Hv]; [ranges; lia|].
    splits; [done|by rewrite Hv, Z.mod_small by lia|done|split; [|lia]].
    intros Ho. b2p. exfalso. repeat rewrite orb_true_iff in *. rewrite !andb_true_iff, !Z.gtb_lt in *. lia.
  - assert (E : compact_number c = compact_mantissa c * 2 ^ (8 * (compact_exponent c - 3))).
    { unfold compact_number. by destruct (Z.leb_spec (compact_exponent c) 3); [lia|]. }
    destruct (of_uint64_spec (compact_mantissa c)) as [Hw Hv]; [ranges; lia|].
    destruct (shl_spec (of_uint64 (compact_mantissa c)) (8 * (compact_exponent c - 3)) Hw) as [Hw' Hv'];
      [lia|].
    splits; [done|by rewrite Hv', Hv, E|done|]. rewrite E. by apply compact_overflow_iff.
Qed.

(** Mantissa and exponent [GetCompact] computes for a value. *)
Lemma compact_number_nonneg c : is_u32 c -> 0 <= compact_number c.
Proof.
  intros Hc. destruct (compact_range c Hc). unfold compact_number.
  destruct (Z.leb_spec (compact_exponent c) 3).
  - apply Z.div_pos; [lia|apply Z.pow_pos_nonneg; lia].
  - apply Z.mul_nonneg_nonneg; [lia|apply Z.pow_nonneg; lia].
Qed.

Definition compact_parts (x : Z) : Z * Z :=
  let n := (bit_length x + 7) / 8 in
  let m := if n <=? 3 then x * 2 ^ (8 * (3 - n)) else x / 2 ^ (8 * (n - 3)) in
  if Z.testbit m 23 then (m / 2 ^ 8, n + 1) else (m, n).

(** Byte length of a value. *)
Lemma byte_length_spec x :
  0 <= x < 2 ^ 256 ->
  let n := (bit_length x + 7) / 8 in
  0 <= n <= 32 /\ x < 2 ^ (8 * n) /\ (0 < x -> 1 <= n /\ 2 ^ (8 * (n - 1)) <= x).
Proof.
  intros Hx n.
  pose proof (bit_length_le x 256 ltac:(lia) ltac:(lia)).
  assert (Hn : 8 * n <= bit_length x + 7 < 8 * n + 8).
  { unfold n. pose proof (Z.div_mod (bit_length x + 7) 8). pose proof (Z.mod_pos_bound (bit_length x + 7) 8). lia. }
  splits; [lia|lia| |].
  - pose proof (bit_length_lt x ltac:(lia)). eapply Z.lt_le_trans; [done|].
    apply Z.pow_le_mono_r; lia.
  - intros Hp. destruct (bit_length_bounds x Hp) as (Hb & Hlo & _). split; [lia|].
    eapply Z.le_trans; [|apply Hlo]. apply Z.pow_le_mono_r; lia.
Qed.

Lemma compact_mantissa_range x :
  0 <= x < 2 ^ 256 ->
  let n := (bit_length x + 7) / 8 in
  let m := if n <=? 3 then x * 2 ^ (8 * (3 - n)) else x / 2 ^ (8 * (n - 3)) in
  0 <= m < 2 ^ 24 /\ (0 < x -> 2 ^ 16 <= m).
Proof.
  intros Hx n m. destruct (byte_length_spec x Hx) as (Hn & Hlt & Hge). fold n in Hn, Hlt, Hge.
  subst m. destruct (Z.leb_spec n 3) as [H3|H3].
  - assert (E : 2 ^ 24 = 2 ^ (8 * n) * 2 ^ (8 * (3 - n))) by (rewrite <- Z.pow_add_r by lia; f_equal; lia).
    assert (0 < 2 ^ (8 * (3 - n))) by (apply Z.pow_pos_nonneg; lia).
    split; [nia|]. intros Hp. destruct (Hge Hp) as [H1 H2].
    assert (2 ^ 16 = 2 ^ (8 * (n - 1)) * 2 ^ (8 * (3 - n))) by (rewrite <- Z.pow_add_r by lia; f_equal; lia). nia.
  - assert (0 < 2 ^ (8 * (n - 3))) by (apply Z.pow_pos_nonneg; lia).
    split; [split; [apply Z.div_pos; lia|]|].
    + apply Z.div_lt_upper_bound; [lia|]. rewrite <- Z.pow_add_r by lia.
      replace (8 * (n - 3) + 24) with (8 * n) by lia. done.
    + intros Hp. destruct (Hge Hp) as [H1 H2]. apply Z.div_le_lower_bound; [lia|].
      rewrite <- Z.pow_add_r by lia. replace (8 * (n - 3) + 16) with (8 * (n - 1)) by lia. done.
Qed.

Lemma testbit23 m : 0 <= m < 2 ^ 24 -> Z.testbit m 23 = (2 ^ 23 <=? m).
Proof.
  intros Hm. destruct (Z.leb_spec (2 ^ 23) m).
  - rewrite Z.testbit_true by lia. replace (m / 2 ^ 23) with 1; [done|].
    apply Z.div_unique with (m - 2 ^ 23); lia.
  - by rewrite Z.testbit_false, Z.div_small by lia.
Qed.

Lemma compact_parts_range x :
  0 <= x < 2 ^ 256 ->
  let '(m, n) := compact_parts x in
  0 <= m < 2 ^ 23 /\ 0 <= n <= 33 /\ (0 < x -> 2 ^ 15 <= m) /\ (x = 0 -> m = 0 /\ n = 0)
  /\ (n = 33 -> m < 2 ^ 16).
Proof.
  intros Hx. unfold compact_parts.
  destruct (compact_mantissa_range x Hx) as [Hm Hp]. destruct (byte_length_spec x Hx) as (Hn & _ & _).
  assert (Hz : x = 0 -> (bit_length x + 7) / 8 = 0) by (intros ->; done).
  set (n := (bit_length x + 7) / 8) in *.
  set (m := if n <=? 3 then _ else _) in *.
  assert (Hzm : x = 0 -> m = 0).
  { intros E. subst m. rewrite (Hz E), E. done. }
  rewrite testbit23 by done. destruct (Z.leb_spec (2 ^ 23) m).
  - assert (2 ^ 15 <= m / 2 ^ 8) by (apply Z.div_le_lower_bound; lia).
    assert (m / 2 ^ 8 < 2 ^ 16) by (apply Z.div_lt_upper_bound; lia). lia.
  - lia.
Qed.

Lemma GetLow64_spec a : wf a -> GetLow64 a = eval a mod 2 ^ 64.
Proof.
  intros [La Ha]. unfold GetLow64. rewrite Z.shiftl_mul_pow2 by lia.
  pose proof (limb_u32 a 0 Ha). pose proof (limb_u32 a 1 Ha). ranges.
  rewrite lor_add_disjoint by lia.
  rewrite (eval_take_drop a 2), !eval_take_S by (unfold WIDTH in *; lia).
  change (eval (take 0 a)) with 0. change (2 ^ (32 * Z.of_nat 0)) with 1.
  change (32 * Z.of_nat 2) with 64. change (32 * Z.of_nat 1) with 32.
  rewrite (Z.mul_comm (2 ^ 64)), Z.mod_add, Z.mod_small by lia. lia.
Qed.

Definition compact_join (m n : Z) (sign : bool) : Z :=
  m + n * 2 ^ 24 + (if sign && negb (m =? 0) then 2 ^ 23 else 0).

Lemma GetCompact_spec a fNegative :
  wf a ->
  GetCompact a fNegative =
    Some (compact_join (compact_parts (eval a)).1 (compact_parts (eval a)).2 fNegative).
Proof.
  intros Ha. pose proof (eval_wf_range a Ha) as Hx.
  pose proof (compact_parts_range (eval a) Hx) as Hr. unfold compact_parts in *.
  destruct (compact_mantissa_range (eval a) Hx) as [Hm _].
  destruct (byte_length_spec (eval a) Hx) as (Hn & Hlt & _).
  unfold GetCompact. rewrite bits_spec by done.
  set (n := (bit_length (eval a) + 7) / 8) in *.
  set (m := if n <=? 3 then eval a * 2 ^ (8 * (3 - n)) else eval a / 2 ^ (8 * (n - 3))) in *.
  assert (E : (if n <=? 3 then u32 (u64 (Z.shiftl (GetLow64 a) (8 * (3 - n))))
               else u32 (GetLow64 (shr a (8 * (n - 3))))) = m).
  { subst m. destruct (Z.leb_spec n 3) as [H3|H3].
    - rewrite GetLow64_spec, Z.shiftl_mul_pow2 by (done || lia).
      assert (2 ^ (8 * n) <= 2 ^ 24) by (apply Z.pow_le_mono_r; lia).
      rewrite Z.mod_small by lia. rewrite u64_id, u32_id by (ranges; lia). done.
    - destruct (shr_spec a (8 * (n - 3)) Ha ltac:(lia)) as [Hw He].
      rewrite GetLow64_spec, He by done. rewrite Z.mod_small, u32_id by (ranges; lia). done. }
  rewrite E. clear E.
  assert (E3 : (Z.land m 0x00800000 =? 0) = negb (Z.testbit m 23)) by by apply (land_bit_zero m 23).
  rewrite E3, negb_involutive.
  assert (Ew : (if Z.testbit m 23 then (Z.shiftr m 8, n + 1) else (m, n))
               = (if Z.testbit m 23 then (m / 2 ^ 8, n + 1) else (m, n)))
    by (by rewrite Z.shiftr_div_pow2).
  rewrite Ew. destruct (if Z.testbit m 23 then _ else _) as [m' n'] eqn:E. cbn [fst snd].
  destruct Hr as (Hm' & Hn' & _).
  assert (E4 : Z.land m' (u32 (Z.lnot 0x007fffff)) = 0).
  { change (u32 (Z.lnot 0x007fffff)) with ((2 ^ 9 - 1) * 2 ^ 23).
    apply Z.bits_inj'. intros i Hi. rewrite Z.land_spec, Z.bits_0.
    destruct (decide (i < 23)); [rewrite testbit_multiple by lia; apply andb_false_r|].
    by rewrite <- (Z.mod_small m' (2 ^ 23)), Z.mod_pow2_bits_high by lia. }
  rewrite E4. cbn [Z.eqb negb]. destruct (Z.ltb_spec n' 256); [|lia]. cbn [negb].
  rewrite Z.shiftl_mul_pow2, u32_id, lor_add_disjoint by (ranges; lia).
  assert (E5 : Z.land (m' + n' * 2 ^ 24) 0x007fffff = m').
  { change 0x007fffff with (2 ^ 23 - 1). rewrite land_ones_mod by lia.
    replace (n' * 2 ^ 24) with (2 * n' * 2 ^ 23) by lia. rewrite Z.mod_add, Z.mod_small by lia. done. }
  rewrite E5. unfold compact_join. f_equal. destruct (fNegative && negb (m' =? 0)).
  - change 0x00800000 with (2 ^ 23). rewrite lor_pow2_clear; [done|lia|].
    replace (m' + n' * 2 ^ 24) with (m' + (2 * n') * 2 ^ 23) by lia.
    rewrite Z.testbit_false, Z.div_add, Z.div_small by lia. rewrite Z.add_0_l, Z.mul_comm. apply Z.mod_mul. lia.
  - by rewrite Z.lor_0_r, Z.add_0_r.
Qed.

Lemma compact_join_fields m n sign :
  0 <= m < 2 ^ 23 -> 0 <= n < 256 ->
  let c := compact_join m n sign in
  is_u32 c /\ compact_exponent c = n /\ compact_mantissa c = m
  /\ Z.testbit c 23 = sign && negb (m =? 0).
Proof.
  intros Hm Hn c. subst c. unfold compact_join, compact_exponent, compact_mantissa.
  set (s := sign && negb (m =? 0)).
  assert (Hs : (if s then 2 ^ 23 else 0) = Z.b2z s * 2 ^ 23) by (by destruct s).
  assert (0 <= Z.b2z s <= 1) by (destruct s; simpl; lia).
  rewrite Hs. clearbody s.
  splits.
  - ranges. lia.
  - symmetry. apply Z.div_unique with (m + Z.b2z s * 2 ^ 23); lia.
  - symmetry. apply Z.mod_unique with (2 * n + Z.b2z s); lia.
  - rewrite <- (Z.div_pow2_bits _ 23 0) by lia.
    replace (m + n * 2 ^ 24 + Z.b2z s * 2 ^ 23) with (m + (2 * n + Z.b2z s) * 2 ^ 23) by lia.
    rewrite Z.div_add, Z.div_small, Z.add_0_l, Z.add_comm by lia. by rewrite Z.add_b2z_double_bit0.
Qed.

(** [compact_shift x] is the number of low bytes the encoding of [x] drops. *)
Definition compact_shift (x : Z) : Z := Z.max 0 ((compact_parts x).2 - 3).

Lemma compact_number_parts x sign :
  0 <= x < 2 ^ 256 ->
  compact_number (compact_join (compact_parts x).1 (compact_parts x).2 sign)
    = x / 2 ^ (8 * compact_shift x) * 2 ^ (8 * compact_shift x)
  /\ (compact_shift x = 0 \/ 2 ^ (8 * compact_shift x + 15) <= x).
Proof.
  intros Hx. pose proof (compact_parts_range x Hx) as Hr.
  unfold compact_shift. destruct (compact_parts x) as [m' n'] eqn:E. cbn [fst snd].
  destruct Hr as (Hm' & Hn' & Hpos & Hzero & _).
  destruct (compact_join_fields m' n' sign Hm' ltac:(lia)) as (_ & He & Hma & _).
  unfold compact_number. rewrite He, Hma. clear He Hma.
  unfold compact_parts in E. destruct (byte_length_spec x Hx) as (Hn & Hlt & Hge).
  set (n := (bit_length x + 7) / 8) in *.
  assert (Hxz : x = 0 \/ 0 < x) by lia.
  destruct (Z.leb_spec n 3) as [H3|H3]; destruct (Z.testbit _ 23) eqn:Et; inversion E; subst; clear E.
  - assert (Hx0 : 0 < x) by (destruct Hxz as [->|]; [done|done]).
    destruct (Hge Hx0). destruct (Z.leb_spec (n + 1) 3) as [H4|H4].
    + rewrite Z.max_l, Z.mul_0_r, Z.div_1_r by lia. split; [|by left].
      replace (2 ^ (8 * (3 - n))) with (2 ^ (8 * (2 - n)) * 2 ^ 8)
        by (rewrite <- Z.pow_add_r by lia; f_equal; lia).
      rewrite Z.mul_assoc, Z.div_mul by lia. replace (3 - (n + 1)) with (2 - n) by lia.
      rewrite Z.div_mul; [lia|]. apply Z.pow_nonzero; lia.
    + assert (n = 3) as -> by lia. rewrite Z.max_r by lia.
      change (8 * (3 - 3)) with 0 in *. rewrite Z.mul_1_r in *. split; [done|]. right.
      rewrite testbit23 in Et by lia. b2p. done.
  - destruct (Z.leb_spec n 3); [|lia]. rewrite Z.max_l, Z.mul_0_r, Z.div_1_r by lia.
    rewrite Z.div_mul by (apply Z.pow_nonzero; lia). split; [lia|by left].
  - rewrite Z.max_r by lia. destruct (Z.leb_spec (n + 1) 3); [lia|].
    destruct (compact_mantissa_range x Hx) as [Hm _]. fold n in Hm.
    destruct (Z.leb_spec n 3); [lia|]. rewrite testbit23 in Et by done. b2p.
    rewrite Z.div_div by (try apply Z.pow_nonzero; lia).
    rewrite <- Z.pow_add_r by lia. replace (8 * (n - 3) + 8) with (8 * (n + 1 - 3)) by lia.
    split; [done|]. right. replace (8 * (n + 1 - 3) + 15) with (8 * (n - 3) + 23) by lia.
    rewrite Z.pow_add_r by lia. assert (0 < 2 ^ (8 * (n - 3))) by (apply Z.pow_pos_nonneg; lia).
    pose proof (Z.mul_div_le x (2 ^ (8 * (n - 3))) ltac:(lia)). nia.
  - rewrite Z.max_r by lia. destruct (Z.leb_spec n 3); [lia|]. split; [done|]. right.
    assert (0 < x) as Hx0 by (destruct Hxz as [->|]; [done|done]). destruct (Hge Hx0) as [_ Hg].
    eapply Z.le_trans; [|exact Hg]. apply Z.pow_le_mono_r; lia.
Qed.

(** Rounding down to a multiple of [g] does not cross a multiple of [g]. *)
Lemma round_down_threshold x g t : 0 < g -> (t * g <= x <-> t * g <= x / g * g).
Proof.
  intros Hg. pose proof (Z.mul_div_le x g Hg). split; [|lia].
  intros Ht. apply Z.mul_le_mono_pos_r; [done|]. apply Z.div_le_lower_bound; lia.
Qed.

(** Encoding a decoded value gives the same encoding back. *)
Lemma compact_parts_idem x :
  0 <= x < 2 ^ 256 ->
  compact_parts (x / 2 ^ (8 * compact_shift x) * 2 ^ (8 * compact_shift x)) = compact_parts x.
Proof.
  intros Hx. destruct (compact_number_parts x false Hx) as [_ Hbig].
  unfold compact_shift in *. pose proof (compact_parts_range x Hx) as Hr.
  unfold compact_parts in Hr, Hbig |- *. destruct (byte_length_spec x Hx) as (Hn & Hlt & Hge).
  set (n := (bit_length x + 7) / 8) in *.
  set (m := if n <=? 3 then x * 2 ^ (8 * (3 - n)) else x / 2 ^ (8 * (n - 3))) in *.
  set (k := Z.max 0 _) in *. set (g := 2 ^ (8 * k)).
  assert (0 <= k) by lia. assert (Hg : 0 < g) by (apply Z.pow_pos_nonneg; lia).
  destruct (decide (k = 0)) as [Hk|Hk].
  { subst g. rewrite Hk, Z.mul_0_r, Z.div_1_r, Z.mul_1_r. done. }
  destruct Hbig as [|Hbig]; [lia|]. set (y := x / g * g).
  assert (Hx0 : 0 < x) by (assert (0 < 2 ^ (8 * k + 15)) by (apply Z.pow_pos_nonneg; lia); lia).
  assert (Hbl : bit_length y = bit_length x).
  { destruct (bit_length_bounds x Hx0) as (Hb & Hlo & Hhi). apply bit_length_unique; [done|].
    assert (8 * k + 15 < bit_length x).
    { apply (Z.pow_lt_mono_r_iff 2); lia. }
    replace (bit_length x - 1) with (bit_length x - 1 - 8 * k + 8 * k) in * by lia.
    rewrite Z.pow_add_r in * by lia. fold g in Hlo |- *. subst y.
    apply round_down_threshold in Hlo; [|done]. pose proof (Z.mul_div_le x g Hg). lia. }
  rewrite Hbl. fold n. clear Hbl.
  assert (Hn3 : 3 < n \/ n = 3 /\ k = 1).
  { destruct (Z.testbit m 23); cbn [snd] in k; lia. }
  destruct (compact_mantissa_range x Hx) as [Hm _]. fold n in Hm. fold m in Hm.
  assert (Hk' : k = n - 3 \/ k = n - 3 + 1 /\ Z.testbit m 23 = true).
  { subst k. destruct (Z.testbit m 23); cbn [snd]; lia. }
  assert (Hgn : 0 < 2 ^ (8 * (n - 3))) by (apply Z.pow_pos_nonneg; lia).
  assert (Hm' : m = x / 2 ^ (8 * (n - 3))).
  { subst m. destruct (Z.leb_spec n 3); [|done]. assert (n = 3) as -> by lia.
    change (8 * (3 - 3)) with 0. rewrite Z.div_1_r. lia. }
  set (my := if n <=? 3 then y * 2 ^ (8 * (3 - n)) else y / 2 ^ (8 * (n - 3))).
  assert (Hmy : my = y / 2 ^ (8 * (n - 3))).
  { subst my. destruct (Z.leb_spec n 3); [|done]. assert (n = 3) as -> by lia.
    change (8 * (3 - 3)) with 0. rewrite Z.div_1_r. lia. }
  destruct Hk' as [Hk'|[Hk' Ht]].
  - assert (my = m) as ->; [|done]. rewrite Hm', Hmy. subst y g. rewrite Hk'. by rewrite Z.div_mul by lia.
  - rewrite testbit23 in Ht by done. b2p.
    assert (Hg2 : g = 2 ^ 8 * 2 ^ (8 * (n - 3))) by (unfold g; rewrite <- Z.pow_add_r by lia; f_equal; lia).
    assert (Hyx : y <= x) by (subst y; rewrite Z.mul_comm; apply Z.mul_div_le; lia).
    assert (Hmyx : my <= m) by (rewrite Hm', Hmy; by apply Z.div_le_mono).
    assert (Hmy23 : 2 ^ 23 <= my).
    { rewrite Hmy. apply Z.div_le_lower_bound; [done|].
      assert (2 ^ 15 * g <= x) as Hthr.
      { pose proof (Z.mul_div_le x (2 ^ (8 * (n - 3))) Hgn). rewrite Hm' in *. nia. }
      apply round_down_threshold in Hthr; [|done]. subst y. nia. }
    rewrite !testbit23 by lia.
    destruct (Z.leb_spec (2 ^ 23) my); [|lia]. destruct (Z.leb_spec (2 ^ 23) m); [|lia].
    f_equal. rewrite Hm', Hmy, !Z.div_div, (Z.mul_comm _ (2 ^ 8)), <- Hg2 by lia.
    subst y. by rewrite Z.div_mul by lia.
Qed.

(** *** Byte order conversion *)

Lemma UintToArith256_wf h : is_bytes h -> wf (UintToArith256 h).
Proof.
  intros Hh. apply wf_intro; [done|]. apply Forall_map, Forall_forall. intros x _.
  apply ReadLE32_range. by apply Forall_drop.
Qed.

Lemma UintToArith256_eval h : is_bytes h -> length h = 32%nat -> eval (UintToArith256 h) = le_combine h.
Proof.
  intros Hh Hl. do 32 (destruct h as [|? h]; [done|]). destruct h; [|done].
  unfold UintToArith256, ReadLE32. cbn -[Z.mul Z.add Z.pow]. lia.
Qed.

Lemma ArithToUint256_length a : wf a -> length (ArithToUint256 a) = 32%nat /\ is_bytes (ArithToUint256 a).
Proof.
  intros [La _]. unfold ArithToUint256. do 8 (destruct a as [|? a]; [done|]). destruct a; [|done].
  split; [done|]. cbn [map concat]. repeat apply is_bytes_app; try apply le_split_bytes. constructor.
Qed.

Lemma ArithToUint256_value a : wf a -> le_combine (ArithToUint256 a) = eval a.
Proof.
  intros [_ Ha]. unfold ArithToUint256. induction Ha as [|x a Hx Ha IH]; [done|].
  cbn [map concat eval]. unfold WriteLE32 in *. rewrite le_combine_app, le_split_length, le_combine_split, IH.
  change (8 * Z.of_nat 4) with 32. ranges. rewrite Z.mod_small by lia. lia.
Qed.

Lemma le_combine_inj a b :
  is_bytes a -> is_bytes b -> length a = length b -> le_combine a = le_combine b -> a = b.
Proof.
  intros Ha Hb Hl He. rewrite <- (le_split_combine a), <- (le_split_combine b) by done. congruence.
Qed.

Lemma uint256_roundtrip a h :
  wf a -> is_bytes h -> length h = 32%nat ->
  UintToArith256 (ArithToUint256 a) = a /\ ArithToUint256 (UintToArith256 h) = h.
Proof.
  intros Ha Hh Hl. pose proof (ArithToUint256_length a Ha) as [Hla Hba].
  pose proof (UintToArith256_wf h Hh) as Hw. pose proof (ArithToUint256_length _ Hw) as [Hlw Hbw].
  split.
  - apply eval_inj; [apply UintToArith256_wf, Hba|apply Ha|by rewrite (proj1 Ha)|].
    by rewrite UintToArith256_eval, ArithToUint256_value.
  - apply le_combine_inj; [done|done|congruence|].
    by rewrite ArithToUint256_value, UintToArith256_eval.
Qed.

Lemma GetCompact_decode (a : base_uint) :
  wf a ->
  exists c, GetCompact a false = Some c /\ is_u32 c /\
    let '(v, fNegative, fOverflow) := SetCompact c in
    wf v /\ fNegative = false /\ fOverflow = false
    /\ eval v <= eval a /\ (eval a - eval v) * 2 ^ 15 <= eval a
    /\ GetCompact v false = Some c.
Proof.
  intros Ha. pose proof (eval_wf_range a Ha) as Hx. rewrite GetCompact_spec by done.
  eexists; split; [done|]. pose proof (compact_parts_range (eval a) Hx) as Hr.
  destruct (compact_number_parts (eval a) false Hx) as [Hnum Hbig].
  pose proof (compact_parts_idem (eval a) Hx) as Hidem.
  set (k := compact_shift (eval a)) in *.
  assert (0 <= k) by (unfold k, compact_shift; lia).
  assert (0 < 2 ^ (8 * k)) by (apply Z.pow_pos_nonneg; lia).
  destruct (compact_parts (eval a)) as [m n] eqn:Ep. cbn [fst snd] in *.
  destruct (compact_join_fields m n false) as (Hu & He & Hma & Hsign); [lia|lia|].
  split; [done|]. pose proof (SetCompact_spec _ Hu) as Hset.
  destruct (SetCompact (compact_join m n false)) as [[v ng] ov]. destruct Hset as (Hw & Hv & Hng & Hov).
  pose proof (Z.mul_div_le (eval a) (2 ^ (8 * k)) ltac:(lia)).
  pose proof (Z.mod_pos_bound (eval a) (2 ^ (8 * k)) ltac:(lia)).
  pose proof (Z.div_mod (eval a) (2 ^ (8 * k)) ltac:(lia)).
  assert (Hfit : compact_number (compact_join m n false) <= eval a) by lia.
  assert (Hv' : eval v = compact_number (compact_join m n false)).
  { rewrite Hv. apply Z.mod_small. split; [|lia]. rewrite Hnum.
    apply Z.mul_nonneg_nonneg; [apply Z.div_pos|]; lia. }
  splits; [done|by rewrite Hng; unfold compact_negative; rewrite Hsign, andb_false_r| |lia| |].
  - destruct ov; [|done]. pose proof (proj1 Hov eq_refl). lia.
  - rewrite Hv', Hnum. destruct Hbig as [Hk|Hb].
    + rewrite Hk. rewrite Z.mul_0_r, Z.div_1_r. lia.
    + rewrite Z.pow_add_r in Hb by lia. nia.
  - by rewrite GetCompact_spec, Hv', Hnum, Hidem by done.
Qed.

(** Decide the well-formedness of a concrete limb array. *)
Ltac solve_wf :=
  split; [reflexivity | repeat (constructor; [unfold is_u32; lia|]); constructor].

(** ** Properties *)

(** [operator+=], [operator-=], unary [operator-], [operator~], [operator++],
    [operator--] and both [operator*=] overloads of [base_uint<256>] compute the
    ring operations modulo [2^256] and keep every limb a 32-bit word. *)
Theorem arith_uint256_ring (a b : base_uint) (b32 : Z) :
  wf a -> wf b -> is_u32 b32 ->
  (wf (add a b) /\ eval (add a b) = (eval a + eval b) mod 2 ^ 256)
  /\ (wf (sub a b) /\ eval (sub a b) = (eval a - eval b) mod 2 ^ 256)
  /\ (wf (neg a) /\ eval (neg a) = (- eval a) mod 2 ^ 256)
  /\ (wf (bnot a) /\ eval (bnot a) = 2 ^ 256 - 1 - eval a)
  /\ (wf (incr a) /\ eval (incr a) = (eval a + 1) mod 2 ^ 256)
  /\ (wf (decr a) /\ eval (decr a) = (eval a - 1) mod 2 ^ 256)
  /\ (wf (mul a b) /\ eval (mul a b) = (eval a * eval b) mod 2 ^ 256)
  /\ (wf (mul32 a b32) /\ eval (mul32 a b32) = (eval a * b32) mod 2 ^ 256).
Proof.
  intros Ha Hb H32.
  auto 12 using add_spec, sub_spec, neg_spec, bnot_wf_spec, incr_wf_spec, decr_wf_spec, mul_spec, mul32_spec.
Qed.

Lemma arith_uint256_ring_witness :
  eval (mul [0xffffffff; 1; 0; 0; 0; 0; 0; 7] [2; 0; 3; 0; 0; 0; 0; 5])
  = (eval [0xffffffff; 1; 0; 0; 0; 0; 0; 7] * eval [2; 0; 3; 0; 0; 0; 0; 5]) mod 2 ^ 256.
Proof.
  apply (arith_uint256_ring [0xffffffff; 1; 0; 0; 0; 0; 0; 7] [2; 0; 3; 0; 0; 0; 0; 5] 9);
    [solve_wf|solve_wf|unfold is_u32; lia].
Defined.

(** The shift-and-subtract [operator/=] is total: it throws "Division by
    zero" exactly for a zero divisor, and otherwise returns the floor of the
    quotient. *)
Theorem arith_uint256_division (a b : base_uint) :
  wf a -> wf b ->
  (div a b = Err DivisionByZero <-> eval b = 0)
  /\ (eval b <> 0 ->
      exists q, div a b = Ok q /\ wf q /\ eval q * eval b <= eval a < (eval q + 1) * eval b).
Proof.
  intros Ha Hb. pose proof (div_spec a b Ha Hb) as H.
  pose proof (eval_wf_range b Hb).
  destruct (div a b) as [q|[]].
  - destruct H as (Hnz & Hw & He). split; [split; [done|lia]|]. intros _. exists q.
    pose proof (Z.mul_div_le (eval a) (eval b)). pose proof (Z.mul_succ_div_gt (eval a) (eval b)).
    splits; [done|done|rewrite He; lia|rewrite He; lia].
  - split; [done|lia].
Qed.

Lemma arith_uint256_division_witness :
  exists q, div [5; 0; 0; 9; 0; 0; 0; 0] [3; 1; 0; 0; 0; 0; 0; 0] = Ok q /\ wf q
    /\ eval q * eval [3; 1; 0; 0; 0; 0; 0; 0] <= eval [5; 0; 0; 9; 0; 0; 0; 0]
       < (eval q + 1) * eval [3; 1; 0; 0; 0; 0; 0; 0].
Proof.
  apply (arith_uint256_division [5; 0; 0; 9; 0; 0; 0; 0] [3; 1; 0; 0; 0; 0; 0; 0]);
    [solve_wf|solve_wf|vm_compute; discriminate].
Defined.

(** [operator<<=], [operator>>=], [CompareTo], [EqualTo], [bits] and
    [GetLow64] agree with multiplication and division by powers of two, the order,
    the bit length and the low 64 bits of the represented number. *)
Theorem arith_uint256_bit_operations (a b : base_uint) (s x : Z) :
  wf a -> wf b -> 0 <= s -> is_u64 x ->
  (wf (shl a s) /\ eval (shl a s) = (eval a * 2 ^ s) mod 2 ^ 256)
  /\ (wf (shr a s) /\ eval (shr a s) = eval a / 2 ^ s)
  /\ CompareTo a b = Z.sgn (eval a - eval b)
  /\ EqualTo a x = (eval a =? x)
  /\ bits a = bit_length (eval a)
  /\ GetLow64 a = eval a mod 2 ^ 64.
Proof.
  intros. auto 8 using shl_spec, shr_spec, CompareTo_spec, EqualTo_spec, bits_spec, GetLow64_spec.
Qed.

Lemma arith_uint256_bit_operations_witness :
  eval (shl [0x80000001; 0; 0; 0; 0; 0; 0; 1] 65) = (eval [0x80000001; 0; 0; 0; 0; 0; 0; 1] * 2 ^ 65) mod 2 ^ 256.
Proof.
  apply (arith_uint256_bit_operations [0x80000001; 0; 0; 0; 0; 0; 0; 1] [0; 0; 0; 0; 0; 0; 0; 0] 65 0);
    [solve_wf|solve_wf|lia|unfold is_u64; lia].
Defined.

(** [SetCompact] reports overflow exactly when the encoded number does not
    fit in 256 bits, and without overflow the value is the encoded number. *)
Theorem SetCompact_overflow_exact (nCompact : Z) :
  is_u32 nCompact ->
  let '(v, _, fOverflow) := SetCompact nCompact in
  (fOverflow = true <-> 2 ^ 256 <= compact_number nCompact)
  /\ (fOverflow = false -> wf v /\ eval v = compact_number nCompact).
Proof.
  intros Hc. pose proof (SetCompact_spec nCompact Hc) as H.
  destruct (SetCompact nCompact) as [[v n] o]. destruct H as (Hw & He & _ & Ho).
  split; [done|]. intros ->. split; [done|]. rewrite He. apply Z.mod_small.
  split; [by apply compact_number_nonneg|apply Z.nle_gt; intros Hge; by apply Ho in Hge].
Qed.

Lemma SetCompact_overflow_exact_witness :
  eval (SetCompact 0x1b0404cb).1.1 = 0x0404cb * 2 ^ 192.
Proof.
  apply (SetCompact_overflow_exact 0x1b0404cb); [unfold is_u32; lia|vm_compute; reflexivity].
Defined.

(** [GetCompact] never fails an assertion; what it encodes decodes without
    sign or overflow to a value that is not above the original and differs from it
    by at most one part in [2^15]; and encoding that value again gives the same
    32-bit word. *)
Theorem GetCompact_roundtrip (a : base_uint) :
  wf a ->
  exists c, GetCompact a false = Some c /\ is_u32 c /\
    let '(v, fNegative, fOverflow) := SetCompact c in
    wf v /\ fNegative = false /\ fOverflow = false
    /\ eval v <= eval a /\ (eval a - eval v) * 2 ^ 15 <= eval a
    /\ GetCompact v false = Some c.
Proof. apply GetCompact_decode. Qed.

Lemma GetCompact_roundtrip_witness :
  exists c, GetCompact [0xffffffff; 0xffffffff; 0xffffffff; 0xffffffff; 0xffffffff; 0xffffffff; 0x00ffffff; 0] false = Some c
    /\ is_u32 c /\
    let '(v, fNegative, fOverflow) := SetCompact c in
    wf v /\ fNegative = false /\ fOverflow = false
    /\ eval v <= eval [0xffffffff; 0xffffffff; 0xffffffff; 0xffffffff; 0xffffffff; 0xffffffff; 0x00ffffff; 0]
    /\ (eval [0xffffffff; 0xffffffff; 0xffffffff; 0xffffffff; 0xffffffff; 0xffffffff; 0x00ffffff; 0] - eval v) * 2 ^ 15
       <= eval [0xffffffff; 0xffffffff; 0xffffffff; 0xffffffff; 0xffffffff; 0xffffffff; 0x00ffffff; 0]
    /\ GetCompact v false = Some c.
Proof.
  apply (GetCompact_roundtrip [0xffffffff; 0xffffffff; 0xffffffff; 0xffffffff; 0xffffffff; 0xffffffff; 0x00ffffff; 0]).
  solve_wf.
Defined.
