(* ===== verification/Chain.v ===== *)
(** * The block index tree and the active chain: [src/chain.h], [src/chain.cpp]

    Block index entries live in a heap indexed by pointers; [pprev] and [pskip]
    are pointers into it.  The file models the skip list ([GetSkipHeight],
    [GetAncestor], [BuildSkip]), [LastCommonAncestor], the proof of a block, the
    validity levels of an entry and the operations of [CChain]. *)

From S2P Require Import Prelude ArithUint256.

(** ** State *)

Abbreviation ptr := positive.

(** A 256-bit hash, opaque to this component. *)
Abbreviation hash256 := Z (only parsing).

Record CBlockIndex := mkBlockIndex {
  phashBlock : hash256;
  pprev : option ptr;
  pskip : option ptr;
  nHeight : Z;
  nFile : Z;
  nDataPos : Z;
  nUndoPos : Z;
  nChainWork : base_uint;
  nTx : Z;
  nChainTx : Z;
  nStatus : Z;
  nVersion : Z;
  hashMerkleRoot : hash256;
  nTime : Z;
  nBits : Z;
  nNonce : Z;
  nNonce64 : Z;
  mix_hash : hash256;
  nSequenceId : Z;
  nTimeMax : Z;
}.

(** The constructor's [SetNull]. *)
Definition SetNull : CBlockIndex :=
  {| phashBlock := 0; pprev := None; pskip := None; nHeight := 0;
     nFile := 0; nDataPos := 0; nUndoPos := 0; nChainWork := base_uint_zero; nTx := 0; nChainTx := 0; nStatus := 0;
     nVersion := 0; hashMerkleRoot := 0; nTime := 0; nBits := 0; nNonce := 0;
     nNonce64 := 0; mix_hash := 0; nSequenceId := 0; nTimeMax := 0 |}.

Abbreviation heap := (gmap ptr CBlockIndex).

(** [*p]. *)
Definition deref (mem : heap) (p : ptr) : result fault CBlockIndex :=
  match mem !! p with Some b => Ok b | None => Err NullDereference end.

(** Dereference of a pointer that may be [nullptr]. *)
Definition deref_opt (mem : heap) (p : option ptr) : result fault CBlockIndex :=
  match p with Some p => deref mem p | None => Err NullDereference end.

Definition GetBlockTime (b : CBlockIndex) : Z := nTime b.
Definition GetBlockTimeMax (b : CBlockIndex) : Z := nTimeMax b.

(** ** Block status *)

Definition BLOCK_VALID_MASK : Z := Z.lor 1 (Z.lor 2 (Z.lor 3 (Z.lor 4 5))).
Definition BLOCK_FAILED_MASK : Z := Z.lor 32 64.

(** [IsValid] and [RaiseValidity]; a validity level outside the mask fails the
    assertion.  [RaiseValidity] returns the new status and whether it changed. *)
Definition IsValid (b : CBlockIndex) (nUpTo : Z) : result fault bool :=
  if negb (Z.land nUpTo (Z.lnot BLOCK_VALID_MASK) =? 0) then Err AssertFailure
  else if negb (Z.land (nStatus b) BLOCK_FAILED_MASK =? 0) then Ok false
  else Ok (nUpTo <=? Z.land (nStatus b) BLOCK_VALID_MASK).

Definition RaiseValidity (status nUpTo : Z) : result fault (Z * bool) :=
  if negb (Z.land nUpTo (Z.lnot BLOCK_VALID_MASK) =? 0) then Err AssertFailure
  else if negb (Z.land status BLOCK_FAILED_MASK =? 0) then Ok (status, false)
  else if Z.land status BLOCK_VALID_MASK <? nUpTo
  then Ok (Z.lor (Z.land status (u32 (Z.lnot BLOCK_VALID_MASK))) nUpTo, true)
  else Ok (status, false).

(** ** The skip list *)

Definition InvertLowestOne (n : Z) : Z := Z.land n (n - 1).

Definition GetSkipHeight (height : Z) : Z :=
  if height <? 2 then 0
  else if negb (Z.land height 1 =? 0)
  then InvertLowestOne (InvertLowestOne (height - 1)) + 1
  else InvertLowestOne height.

(** The loop of [GetAncestor]; every iteration lowers [heightWalk], so
    [heightWalk - height] iterations are enough. *)
Fixpoint GetAncestor_loop (mem : heap) (fuel : nat) (pindexWalk : ptr) (heightWalk height : Z)
  : result fault ptr :=
  if height <? heightWalk then
    match fuel with
    | O => Err OutOfFuel
    | S fuel =>
      b ← deref mem pindexWalk;
      let heightSkip := GetSkipHeight heightWalk in
      let heightSkipPrev := GetSkipHeight (heightWalk - 1) in
      let follow := (heightSkip =? height)
        || ((heightSkip >? height)
            && negb ((heightSkipPrev <? heightSkip - 2) && (heightSkipPrev >=? height))) in
      match pskip b, follow with
      | Some q, true => GetAncestor_loop mem fuel q heightSkip height
      | _, _ =>
        match pprev b with
        | Some q => GetAncestor_loop mem fuel q (heightWalk - 1) height
        | None => Err AssertFailure
        end
      end
    end
  else Ok pindexWalk.

(** [CBlockIndex::GetAncestor]; [None] is [nullptr]. *)
Definition GetAncestor (mem : heap) (this : ptr) (height : Z) : result fault (option ptr) :=
  b ← deref mem this;
  if (nHeight b <? height) || (height <? 0) then Ok None
  else Some <$> GetAncestor_loop mem (Z.to_nat (nHeight b - height)) this (nHeight b) height.

Definition set_pskip (b : CBlockIndex) (q : option ptr) : CBlockIndex :=
  {| phashBlock := phashBlock b; pprev := pprev b; pskip := q; nHeight := nHeight b;
     nFile := nFile b; nDataPos := nDataPos b; nUndoPos := nUndoPos b; nChainWork := nChainWork b; nTx := nTx b; nChainTx := nChainTx b; nStatus := nStatus b;
     nVersion := nVersion b; hashMerkleRoot := hashMerkleRoot b; nTime := nTime b;
     nBits := nBits b; nNonce := nNonce b; nNonce64 := nNonce64 b; mix_hash := mix_hash b;
     nSequenceId := nSequenceId b; nTimeMax := nTimeMax b |}.

(** [CBlockIndex::BuildSkip]. *)
Definition BuildSkip (mem : heap) (this : ptr) : result fault heap :=
  b ← deref mem this;
  match pprev b with
  | None => Ok mem
  | Some q =>
    s ← GetAncestor mem q (GetSkipHeight (nHeight b));
    Ok (<[this := set_pskip b s]> mem)
  end.

(** [LastCommonAncestor]: the walk down both branches, then the assertion. *)
Fixpoint lca_loop (mem : heap) (fuel : nat) (pa pb : option ptr) : result fault (option ptr) :=
  if negb (bool_decide (pa = pb)) && (bool_decide (is_Some pa) && bool_decide (is_Some pb)) then
    match fuel with
    | O => Err OutOfFuel
    | S fuel =>
      a ← deref_opt mem pa; b ← deref_opt mem pb;
      lca_loop mem fuel (pprev a) (pprev b)
    end
  else if bool_decide (pa = pb) then Ok pa else Err AssertFailure.

Definition LastCommonAncestor (mem : heap) (pa pb : ptr) : result fault (option ptr) :=
  a ← deref mem pa; b ← deref mem pb;
  '(qa, qb) ←
    (if nHeight b <? nHeight a then qa ← GetAncestor mem pa (nHeight b); Ok (qa, Some pb)
     else if nHeight a <? nHeight b then qb ← GetAncestor mem pb (nHeight a); Ok (Some pa, qb)
     else Ok (Some pa, Some pb));
  lca_loop mem (S (Z.to_nat (Z.min (nHeight a) (nHeight b)))) qa qb.

(** ** Median time, proof of work of a block *)

Definition nMedianTimeSpan : nat := 11.

(** The times the loop of [GetMedianTimePast] collects, oldest first. *)
Fixpoint median_times (mem : heap) (n : nat) (pindex : option ptr) (acc : list Z)
  : result fault (list Z) :=
  match n, pindex with
  | S n, Some p => b ← deref mem p; median_times mem n (pprev b) (GetBlockTime b :: acc)
  | _, _ => Ok acc
  end.

(** [GetMedianTimePast]: [std::sort] on the collected times, then the middle one. *)
Definition GetMedianTimePast (mem : heap) (this : ptr) : result fault Z :=
  l ← median_times mem nMedianTimeSpan (Some this) [];
  Ok (default 0 (merge_sort Z.le l !! (length l / 2)%nat)).

(** [GetBlockProof]. *)
Definition GetBlockProof (b : CBlockIndex) : result fault base_uint :=
  let '(bnTarget, fNegative, fOverflow) := SetCompact (nBits b) in
  if fNegative || fOverflow || EqualTo bnTarget 0 then Ok (of_uint64 0)
  else match div (bnot bnTarget) (add64 bnTarget 1) with
       | Ok q => Ok (add64 q 1)
       | Err _ => Err ArithmeticError
       end.

(** [GetBlockProofEquivalentTime]; the unsigned product with [sign] is converted
    to the signed return type. *)
Definition GetBlockProofEquivalentTime (to from tip : CBlockIndex) (nPowTargetSpacing : Z)
  : result fault Z :=
  let '(r, sign) :=
    if CompareTo (nChainWork to) (nChainWork from) >? 0
    then (sub (nChainWork to) (nChainWork from), 1)
    else (sub (nChainWork from) (nChainWork to), -1) in
  proof ← GetBlockProof tip;
  match div (mul r (of_uint64 (u64 nPowTargetSpacing))) proof with
  | Err _ => Err ArithmeticError
  | Ok r => if bits r >? 63 then Ok (sign * (2 ^ 63 - 1))
            else Ok (i64 (u64 (sign * GetLow64 r)))
  end.

(** ** [CChain] *)

(** [std::vector<CBlockIndex*> vChain]. *)
Abbreviation CChain := (list (option ptr)).

Definition Genesis (vChain : CChain) : option ptr :=
  if (0 <? length vChain)%nat then mjoin (vChain !! 0%nat) else None.
Definition Tip (vChain : CChain) : option ptr :=
  if (0 <? length vChain)%nat then mjoin (vChain !! (length vChain - 1)%nat) else None.
(** [operator[]]. *)
Definition chain_at (vChain : CChain) (nHeight : Z) : option ptr :=
  if (nHeight <? 0) || (nHeight >=? Z.of_nat (length vChain)) then None
  else mjoin (vChain !! Z.to_nat nHeight).
Definition Contains (mem : heap) (vChain : CChain) (pindex : ptr) : result fault bool :=
  b ← deref mem pindex; Ok (bool_decide (chain_at vChain (nHeight b) = Some pindex)).
Definition Next (mem : heap) (vChain : CChain) (pindex : ptr) : result fault (option ptr) :=
  c ← Contains mem vChain pindex;
  if c : bool then b ← deref mem pindex; Ok (chain_at vChain (nHeight b + 1)) else Ok None.
Definition Height (vChain : CChain) : Z := Z.of_nat (length vChain) - 1.

(** [vector::resize]. *)
Definition resize_chain (n : nat) (vChain : CChain) : CChain :=
  take n vChain ++ replicate (n - length vChain) None.

Fixpoint SetTip_loop (mem : heap) (fuel : nat) (vChain : CChain) (pindex : option ptr)
  : result fault CChain :=
  match pindex with
  | None => Ok vChain
  | Some p =>
    b ← deref mem p;
    if bool_decide (mjoin (vChain !! Z.to_nat (nHeight b)) = Some p) then Ok vChain
    else match fuel with
         | O => Err OutOfFuel
         | S fuel => SetTip_loop mem fuel (<[Z.to_nat (nHeight b) := Some p]> vChain) (pprev b)
         end
  end.

Definition SetTip (mem : heap) (vChain : CChain) (pindex : option ptr) : result fault CChain :=
  match pindex with
  | None => Ok []
  | Some p =>
    b ← deref mem p;
    SetTip_loop mem (S (Z.to_nat (nHeight b))) (resize_chain (Z.to_nat (nHeight b + 1)) vChain) (Some p)
  end.

Fixpoint FindFork_loop (mem : heap) (fuel : nat) (vChain : CChain) (pindex : option ptr)
  : result fault (option ptr) :=
  match pindex with
  | None => Ok None
  | Some p =>
    c ← Contains mem vChain p;
    if c : bool then Ok (Some p)
    else match fuel with
         | O => Err OutOfFuel
         | S fuel => b ← deref mem p; FindFork_loop mem fuel vChain (pprev b)
         end
  end.

Definition FindFork (mem : heap) (vChain : CChain) (pindex : option ptr) : result fault (option ptr) :=
  match pindex with
  | None => Ok None
  | Some p =>
    b ← deref mem p;
    q ← (if nHeight b >? Height vChain then GetAncestor mem p (Height vChain) else Ok (Some p));
    FindFork_loop mem (S (Z.to_nat (nHeight b))) vChain q
  end.

(** [std::lower_bound] on [vChain] with the comparison of [FindEarliestAtLeast]. *)
Fixpoint lower_bound_loop (mem : heap) (fuel : nat) (vChain : CChain) (nTime : Z) (first len : nat)
  : result fault nat :=
  match len with
  | O => Ok first
  | _ =>
    match fuel with
    | O => Err OutOfFuel
    | S fuel =>
      let half := (len / 2)%nat in
      b ← deref_opt mem (mjoin (vChain !! (first + half)%nat));
      if GetBlockTimeMax b <? nTime
      then lower_bound_loop mem fuel vChain nTime (first + half + 1) (len - half - 1)
      else lower_bound_loop mem fuel vChain nTime first half
    end
  end.
Definition FindEarliestAtLeast (mem : heap) (vChain : CChain) (nTime : Z) : result fault (option ptr) :=
  i ← lower_bound_loop mem (length vChain) vChain nTime 0 (length vChain);
  Ok (if (i =? length vChain)%nat then None else mjoin (vChain !! i)).

(** [GetLocator]: the hashes pushed to [vHave]. *)
Fixpoint GetLocator_loop (mem : heap) (fuel : nat) (vChain : CChain) (pindex : option ptr) (nStep : Z)
  (vHave : list hash256) : result fault (list hash256) :=
  match pindex with
  | None => Ok vHave
  | Some p =>
    b ← deref mem p;
    let vHave := vHave ++ [phashBlock b] in
    if nHeight b =? 0 then Ok vHave
    else match fuel with
         | O => Err OutOfFuel
         | S fuel =>
           let h := Z.max (nHeight b - nStep) 0 in
           c ← Contains mem vChain p;
           q ← (if c : bool then Ok (chain_at vChain h) else GetAncestor mem p h);
           let nStep := if (10 <? length vHave)%nat then nStep * 2 else nStep in
           GetLocator_loop mem fuel vChain q nStep vHave
         end
  end.
Definition GetLocator (mem : heap) (vChain : CChain) (pindex : option ptr) : result fault (list hash256) :=
  let start := match pindex with None => Tip vChain | Some _ => pindex end in
  match start with
  | None => Ok []
  | Some p => b ← deref mem p; GetLocator_loop mem (Z.to_nat (nHeight b)) vChain start 1 []
  end.

(** ** The tree, as a specification *)

(** [prevs mem n p]: follow [pprev] [n] times from [p]. *)
Fixpoint prevs (mem : heap) (n : nat) (p : ptr) : option ptr :=
  match n with
  | O => Some p
  | S n => b ← mem !! p; q ← pprev b; prevs mem n q
  end.

(** The entry at height [h] of the branch that ends in [p]. *)
Definition ancestor_at (mem : heap) (p : ptr) (h : Z) : option ptr :=
  match mem !! p with
  | Some b => if (0 <=? h) && (h <=? nHeight b) then prevs mem (Z.to_nat (nHeight b - h)) p else None
  | None => None
  end.

(** Well-formed heaps: heights follow [pprev] down to a genesis entry at height
    zero, and a skip pointer, where set, leads to the ancestor [GetSkipHeight]
    names. *)
Definition prev_ok (mem : heap) (b : CBlockIndex) : Prop :=
  0 <= nHeight b /\
  match pprev b with
  | None => nHeight b = 0
  | Some q => exists b', mem !! q = Some b' /\ nHeight b' = nHeight b - 1
  end.
Definition skip_ok (mem : heap) (p : ptr) (b : CBlockIndex) : Prop :=
  match pskip b with
  | None => True
  | Some q => ancestor_at mem p (GetSkipHeight (nHeight b)) = Some q
  end.
Definition tree_ok (mem : heap) : Prop := forall p b, mem !! p = Some b -> prev_ok mem b.
Definition index_ok (mem : heap) : Prop :=
  tree_ok mem /\ forall p b, mem !! p = Some b -> skip_ok mem p b.

Lemma deref_ok mem p b : mem !! p = Some b -> deref mem p = Ok b.
Proof. unfold deref. by intros ->. Qed.

Lemma prevs_add mem n m p : prevs mem (n + m) p = q ← prevs mem n p; prevs mem m q.
Proof.
  revert p. induction n as [|n IH]; intros p; [done|]. cbn [prevs Nat.add].
  destruct (mem !! p) as [b|]; [|done]. cbn. destruct (pprev b); [|done]. cbn. apply IH.
Qed.

Lemma prevs_height mem n p q bp :
  tree_ok mem -> mem !! p = Some bp -> prevs mem n p = Some q ->
  exists bq, mem !! q = Some bq /\ nHeight bq = nHeight bp - Z.of_nat n /\ 0 <= nHeight bq.
Proof.
  intros Ht. revert p bp. induction n as [|n IH]; intros p bp Hp Hq.
  - inversion Hq; subst. exists bp. destruct (Ht _ _ Hp). splits; [done|lia|done].
  - cbn [prevs] in Hq. rewrite Hp in Hq. cbn in Hq. destruct (Ht _ _ Hp) as [_ Hprev].
    destruct (pprev bp) as [r|]; [|done]. cbn in Hq. destruct Hprev as (br & Hr & Hh).
    destruct (IH _ _ Hr Hq) as (bq & ? & ? & ?). exists bq. splits; [done|lia|done].
Qed.

Lemma prevs_total mem n p bp :
  tree_ok mem -> mem !! p = Some bp -> Z.of_nat n <= nHeight bp -> exists q, prevs mem n p = Some q.
Proof.
  intros Ht. revert p bp. induction n as [|n IH]; intros p bp Hp Hn; [by exists p|].
  cbn [prevs]. rewrite Hp. cbn. destruct (Ht _ _ Hp) as [_ Hprev].
  destruct (pprev bp) as [r|]; [|lia]. destruct Hprev as (br & Hr & Hh). cbn.
  apply (IH _ _ Hr). lia.
Qed.

Lemma ancestor_at_total mem p b h :
  tree_ok mem -> mem !! p = Some b -> 0 <= h <= nHeight b ->
  exists q bq, ancestor_at mem p h = Some q /\ mem !! q = Some bq /\ nHeight bq = h
               /\ prevs mem (Z.to_nat (nHeight b - h)) p = Some q.
Proof.
  intros Ht Hp Hh. unfold ancestor_at. rewrite Hp.
  destruct (prevs_total mem (Z.to_nat (nHeight b - h)) p b Ht Hp ltac:(lia)) as [q Hq].
  destruct (prevs_height _ _ _ _ _ Ht Hp Hq) as (bq & Hbq & He & _).
  exists q, bq. destruct (Z.leb_spec 0 h), (Z.leb_spec h (nHeight b)); try lia.
  splits; [done|done|lia|done].
Qed.

(** Ancestors compose. *)
Lemma ancestor_at_trans mem p b q bq h :
  tree_ok mem -> mem !! p = Some b -> mem !! q = Some bq -> 0 <= h <= nHeight bq ->
  ancestor_at mem p (nHeight bq) = Some q -> ancestor_at mem p h = ancestor_at mem q h.
Proof.
  intros Ht Hp Hq Hh Ha. unfold ancestor_at in *. rewrite Hp in *. rewrite Hq.
  destruct (Z.leb_spec 0 (nHeight bq)); [|done]. destruct (Z.leb_spec (nHeight bq) (nHeight b)); [|done].
  cbn in Ha. destruct (Z.leb_spec 0 h); [|lia]. destruct (Z.leb_spec h (nHeight b)); [|lia].
  destruct (Z.leb_spec h (nHeight bq)); [|lia]. cbn.
  replace (Z.to_nat (nHeight b - h))
    with (Z.to_nat (nHeight b - nHeight bq) + Z.to_nat (nHeight bq - h))%nat by lia.
  rewrite prevs_add, Ha. done.
Qed.

Lemma ancestor_at_prev mem p b q h :
  tree_ok mem -> mem !! p = Some b -> pprev b = Some q -> 0 <= h < nHeight b ->
  ancestor_at mem p h = ancestor_at mem q h.
Proof.
  intros Ht Hp Hq Hh. destruct (Ht _ _ Hp) as [_ Hprev]. rewrite Hq in Hprev.
  destruct Hprev as (bq & Hbq & Hhq). eapply ancestor_at_trans; eauto; [lia|].
  unfold ancestor_at. rewrite Hp. destruct (Z.leb_spec 0 (nHeight bq)); [|lia].
  destruct (Z.leb_spec (nHeight bq) (nHeight b)); [|lia]. cbn.
  replace (Z.to_nat (nHeight b - nHeight bq)) with 1%nat by lia.
  cbn [prevs]. rewrite Hp. cbn. by rewrite Hq.
Qed.

(** *** The skip list is sound and the search total *)

Lemma InvertLowestOne_range n : 0 <= n -> 0 <= InvertLowestOne n /\ (0 < n -> InvertLowestOne n < n)
  /\ InvertLowestOne n <= n.
Proof.
  intros Hn. unfold InvertLowestOne.
  destruct (decide (n = 0)) as [->|Hz]; [done|].
  assert (0 <= Z.land n (n - 1)) by (apply Z.land_nonneg; lia).
  pose proof (Zland_le_r n (n - 1) ltac:(lia) ltac:(lia)). lia.
Qed.

Lemma GetSkipHeight_range h : 1 <= h -> 0 <= GetSkipHeight h < h.
Proof.
  intros Hh. unfold GetSkipHeight. destruct (Z.ltb_spec h 2); [lia|].
  destruct (InvertLowestOne_range h ltac:(lia)) as (? & H1 & _).
  destruct (InvertLowestOne_range (h - 1) ltac:(lia)) as (? & H2 & _).
  destruct (InvertLowestOne_range (InvertLowestOne (h - 1)) ltac:(lia)) as (? & _ & ?).
  destruct (negb _); lia.
Qed.

Lemma GetAncestor_loop_spec mem fuel p b h :
  index_ok mem -> mem !! p = Some b -> 0 <= h <= nHeight b ->
  nHeight b - h <= Z.of_nat fuel ->
  exists q, GetAncestor_loop mem fuel p (nHeight b) h = Ok q /\ ancestor_at mem p h = Some q.
Proof.
  intros [Ht Hs]. revert p b. induction fuel as [|fuel IH]; intros p b Hp Hh Hf;
    cbn [GetAncestor_loop]; (destruct (Z.ltb_spec h (nHeight b)) as [Hlt|Hge]; [|
      exists p; split; [done|]; unfold ancestor_at; rewrite Hp;
      destruct (Z.leb_spec 0 h), (Z.leb_spec h (nHeight b)); try lia;
      by replace (Z.to_nat (nHeight b - h)) with 0%nat by lia]).
  - lia.
  - unfold deref. rewrite Hp. cbn. destruct (Ht _ _ Hp) as [_ Hprev].
    assert (Hstep : exists q, match pprev b with
        | Some q => GetAncestor_loop mem fuel q (nHeight b - 1) h
        | None => Err AssertFailure end = Ok q /\ ancestor_at mem p h = Some q).
    { destruct (pprev b) as [q|] eqn:Eq; [|lia]. destruct Hprev as (bq & Hq & Hhq).
      rewrite <- Hhq. rewrite (ancestor_at_prev mem p b q h) by (done || lia).
      apply IH; [done|lia|lia]. }
    set (follow := _ || _). pose proof (Hs _ _ Hp) as Hsk. unfold skip_ok in Hsk.
    destruct (pskip b) as [q|]; [|done]. destruct follow eqn:Ef; [|done].
    pose proof (GetSkipHeight_range (nHeight b) ltac:(lia)) as Hr.
    assert (Hge : h <= GetSkipHeight (nHeight b)).
    { subst follow. apply orb_true_iff in Ef. destruct Ef as [E|E]; b2p; lia. }
    destruct (ancestor_at_total mem p b (GetSkipHeight (nHeight b)) Ht Hp ltac:(lia))
      as (q' & bq & Hq' & Hbq & Hhq & _). rewrite Hsk in Hq'. inversion Hq'; subst q'.
    rewrite (ancestor_at_trans mem p b q bq h) by (done || lia || by rewrite Hhq).
    rewrite <- Hhq. apply IH; [done|lia|lia].
Qed.

Lemma GetAncestor_spec mem p b h :
  index_ok mem -> mem !! p = Some b -> GetAncestor mem p h = Ok (ancestor_at mem p h).
Proof.
  intros Hi Hp. unfold GetAncestor, deref. rewrite Hp. cbn.
  destruct ((nHeight b <? h) || (h <? 0)) eqn:E.
  - unfold ancestor_at. rewrite Hp. apply orb_true_iff in E.
    destruct ((0 <=? h) && (h <=? nHeight b)) eqn:E2; [|done].
    destruct E; b2p; lia.
  - b2p. destruct (GetAncestor_loop_spec mem (Z.to_nat (nHeight b - h)) p b h Hi Hp)
      as (q & -> & ->); [lia|lia|done].
Qed.

(** *** Building the skip list *)

Lemma set_pskip_prevs mem p b s n q :
  mem !! p = Some b -> prevs (<[p := set_pskip b s]> mem) n q = prevs mem n q.
Proof.
  intros Hp. revert q. induction n as [|n IH]; intros q; [done|]. cbn [prevs].
  destruct (decide (p = q)) as [<-|Hne].
  - rewrite lookup_insert_eq, Hp. cbn. destruct (pprev b); [|done]. cbn. apply IH.
  - rewrite lookup_insert_ne by done. destruct (mem !! q) as [c|]; [|done]. cbn.
    destruct (pprev c); [|done]. cbn. apply IH.
Qed.

Lemma set_pskip_ancestor_at mem p b s q h :
  mem !! p = Some b -> ancestor_at (<[p := set_pskip b s]> mem) q h = ancestor_at mem q h.
Proof.
  intros Hp. unfold ancestor_at.
  destruct (decide (p = q)) as [<-|Hne].
  - rewrite lookup_insert_eq, Hp. cbn. by rewrite set_pskip_prevs.
  - rewrite lookup_insert_ne by done. destruct (mem !! q); [|done]. by rewrite set_pskip_prevs.
Qed.

Lemma set_pskip_tree mem p b s :
  mem !! p = Some b -> tree_ok mem -> tree_ok (<[p := set_pskip b s]> mem).
Proof.
  intros Hp Ht q c Hc.
  assert (Hprev : exists c0, mem !! q = Some c0 /\ pprev c0 = pprev c /\ nHeight c0 = nHeight c).
  { destruct (decide (p = q)) as [<-|Hne].
    - rewrite lookup_insert_eq in Hc. inversion Hc; subst. by exists b.
    - rewrite lookup_insert_ne in Hc by done. by exists c. }
  destruct Hprev as (c0 & Hc0 & Hpp & Hh). destruct (Ht _ _ Hc0) as [H0 H1].
  unfold prev_ok. rewrite <- Hpp, <- Hh. split; [done|]. destruct (pprev c0) as [r|]; [|done].
  destruct H1 as (br & Hr & Hhr). destruct (decide (p = r)) as [<-|Hne].
  - exists (set_pskip b s). rewrite lookup_insert_eq. split; [done|]. cbn. congruence.
  - exists br. by rewrite lookup_insert_ne.
Qed.

Lemma BuildSkip_spec mem p b :
  index_ok mem -> mem !! p = Some b ->
  exists mem', BuildSkip mem p = Ok mem' /\ index_ok mem'
    /\ (forall q h, ancestor_at mem' q h = ancestor_at mem q h)
    /\ match pprev b with
       | None => mem' = mem
       | Some _ => exists b', mem' !! p = Some b'
                    /\ pskip b' = ancestor_at mem p (GetSkipHeight (nHeight b))
                    /\ is_Some (pskip b')
       end.
Proof.
  intros Hi Hp. destruct Hi as [Ht Hs]. unfold BuildSkip, deref. rewrite Hp. cbn.
  destruct (Ht _ _ Hp) as [H0 Hprev]. destruct (pprev b) as [q|] eqn:Eq; [|by exists mem].
  destruct Hprev as (bq & Hq & Hh). destruct (Ht _ _ Hq) as [Hq0 _].
  rewrite (GetAncestor_spec mem q bq) by done. cbn.
  pose proof (GetSkipHeight_range (nHeight b) ltac:(lia)) as Hr.
  rewrite <- (ancestor_at_prev mem p b q) by (done || lia).
  destruct (ancestor_at_total mem p b (GetSkipHeight (nHeight b)) Ht Hp ltac:(lia))
    as (r & br & Ha & _). rewrite Ha. eexists; split; [done|].
  splits; [|intros; by apply set_pskip_ancestor_at|].
  - split; [by apply set_pskip_tree|]. intros x c Hc. unfold skip_ok. rewrite set_pskip_ancestor_at by done.
    destruct (decide (p = x)) as [<-|Hne].
    + rewrite lookup_insert_eq in Hc. inversion Hc; subst. done.
    + rewrite lookup_insert_ne in Hc by done. by apply Hs.
  - exists (set_pskip b (Some r)). rewrite lookup_insert_eq. done.
Qed.

(** *** Last common ancestor *)

Definition is_ancestor (mem : heap) (q p : ptr) : Prop := exists n, prevs mem n p = Some q.

Lemma is_ancestor_refl mem p : is_ancestor mem p p.
Proof. by exists 0%nat. Qed.

Lemma is_ancestor_trans mem a b c : is_ancestor mem a b -> is_ancestor mem b c -> is_ancestor mem a c.
Proof. intros [n Hn] [m Hm]. exists (m + n)%nat. by rewrite prevs_add, Hm. Qed.

Lemma is_ancestor_parent mem p b r : mem !! p = Some b -> pprev b = Some r -> is_ancestor mem r p.
Proof. intros Hp Hr. exists 1%nat. cbn [prevs]. rewrite Hp. cbn. by rewrite Hr. Qed.

(** A strict ancestor is an ancestor of the parent. *)
Lemma is_ancestor_step mem q p b :
  mem !! p = Some b -> is_ancestor mem q p -> q <> p -> exists r, pprev b = Some r /\ is_ancestor mem q r.
Proof.
  intros Hp [n Hn] Hne. destruct n as [|n]; [by inversion Hn|].
  cbn [prevs] in Hn. rewrite Hp in Hn. cbn in Hn. destruct (pprev b) as [r|]; [|done].
  exists r. split; [done|]. by exists n.
Qed.

Lemma is_ancestor_same_height mem p q bp bq :
  tree_ok mem -> mem !! p = Some bp -> mem !! q = Some bq -> nHeight bp = nHeight bq ->
  is_ancestor mem q p -> q = p.
Proof.
  intros Ht Hp Hq Hh [n Hn]. destruct (prevs_height _ _ _ _ _ Ht Hp Hn) as (b' & Hb' & He & _).
  rewrite Hq in Hb'. inversion Hb'; subst b'. assert (n = 0%nat) as -> by lia. by inversion Hn.
Qed.

(** Two optional pointers at the same height. *)
Definition same_level (mem : heap) (pa pb : option ptr) : Prop :=
  match pa, pb with
  | Some a, Some b => exists ba bb, mem !! a = Some ba /\ mem !! b = Some bb /\ nHeight ba = nHeight bb
  | None, None => True
  | _, _ => False
  end.

Definition anc_opt (mem : heap) (q : ptr) (p : option ptr) : Prop :=
  match p with Some p => is_ancestor mem q p | None => False end.

Definition is_lca (mem : heap) (pa pb r : option ptr) : Prop :=
  forall c, anc_opt mem c pa /\ anc_opt mem c pb <-> anc_opt mem c r.

Lemma lca_loop_spec mem fuel pa pb :
  tree_ok mem -> same_level mem pa pb ->
  (forall a ba, pa = Some a -> mem !! a = Some ba -> nHeight ba < Z.of_nat fuel) ->
  exists r, lca_loop mem fuel pa pb = Ok r /\ is_lca mem pa pb r.
Proof.
  intros Ht. revert pa pb. induction fuel as [|fuel IH]; intros pa pb Hl Hf.
  - destruct pa as [a|], pb as [b|]; try done.
    + destruct Hl as (ba & bb & Ha & _). pose proof (Hf _ _ eq_refl Ha). destruct (Ht _ _ Ha). lia.
    + exists None. split; [done|]. intros c. cbn. tauto.
  - cbn [lca_loop]. destruct pa as [a|], pb as [b|]; try done.
    2: { exists None. split; [done|]. intros c. cbn. tauto. }
    destruct Hl as (ba & bb & Ha & Hb & Hh).
    rewrite !(bool_decide_eq_true_2 (is_Some _)) by eauto. rewrite andb_true_r.
    case_bool_decide as E; cbn.
    + inversion E; subst b. exists (Some a). split; [done|]. intros c. cbn. tauto.
    + assert (Hab : a <> b) by congruence. unfold deref. rewrite Ha, Hb. cbn.
      destruct (Ht _ _ Ha) as [Ha0 Hpa]. destruct (Ht _ _ Hb) as [Hb0 Hpb].
      destruct (IH (pprev ba) (pprev bb)) as (r & Hr & Hlca).
      * unfold same_level. destruct (pprev ba) as [a'|], (pprev bb) as [b'|]; [| | |done].
        -- destruct Hpa as (xa & ? & ?), Hpb as (xb & ? & ?). exists xa, xb. splits; [done|done|lia].
        -- destruct Hpa as (? & Hx & ?). destruct (Ht _ _ Hx). lia.
        -- destruct Hpb as (? & Hx & ?). destruct (Ht _ _ Hx). lia.
      * intros a' xa Hpx Hxa. rewrite Hpx in Hpa. destruct Hpa as (y & Hy & ?).
        rewrite Hxa in Hy. inversion Hy; subst. pose proof (Hf _ _ eq_refl Ha). lia.
      * exists r. split; [done|]. intros c. rewrite <- (Hlca c). cbn [anc_opt].
        split.
        -- intros [Hca Hcb].
           assert (c <> a) by (intros ->; apply Hab, (is_ancestor_same_height mem b a bb ba); eauto).
           assert (c <> b) by (intros ->; apply Hab; symmetry; apply (is_ancestor_same_height mem a b ba bb); eauto).
           destruct (is_ancestor_step _ _ _ _ Ha Hca) as (r1 & -> & ?); [done|].
           destruct (is_ancestor_step _ _ _ _ Hb Hcb) as (r2 & -> & ?); [done|]. done.
        -- intros [Hca Hcb]. destruct (pprev ba) as [r1|] eqn:E1; [|done].
           destruct (pprev bb) as [r2|] eqn:E2; [|done]. cbn in *.
           split; [apply (is_ancestor_trans mem c r1 a)|apply (is_ancestor_trans mem c r2 b)];
             eauto using is_ancestor_parent.
Qed.

Lemma ancestor_at_is_ancestor mem p h q : ancestor_at mem p h = Some q -> is_ancestor mem q p.
Proof.
  unfold ancestor_at. destruct (mem !! p) as [b|]; [|done].
  destruct (_ && _); [|done]. intros Hq. by eexists.
Qed.

(** Restricting one side to the height of the other keeps the common ancestors. *)
Lemma common_ancestor_clip mem p bp q bq r c :
  tree_ok mem -> mem !! p = Some bp -> mem !! q = Some bq -> nHeight bq <= nHeight bp ->
  ancestor_at mem p (nHeight bq) = Some r ->
  is_ancestor mem c q -> (is_ancestor mem c p <-> is_ancestor mem c r).
Proof.
  intros Ht Hp Hq Hle Hr [n Hn]. split.
  - intros [m Hm]. destruct (prevs_height _ _ _ _ _ Ht Hq Hn) as (bc & Hc & Hhc & ?).
    destruct (prevs_height _ _ _ _ _ Ht Hp Hm) as (bc' & Hc' & Hhc' & _).
    rewrite Hc in Hc'. inversion Hc'; subst bc'. destruct (Ht _ _ Hq).
    unfold ancestor_at in Hr. rewrite Hp in Hr.
    destruct (Z.leb_spec 0 (nHeight bq)); [|lia]. destruct (Z.leb_spec (nHeight bq) (nHeight bp)); [|lia].
    cbn in Hr. exists n.
    replace m with (Z.to_nat (nHeight bp - nHeight bq) + n)%nat in Hm by lia.
    rewrite prevs_add, Hr in Hm. done.
  - intros Hc. eapply is_ancestor_trans; [done|]. by eapply ancestor_at_is_ancestor.
Qed.

Lemma LastCommonAncestor_spec mem pa pb ba bb :
  index_ok mem -> mem !! pa = Some ba -> mem !! pb = Some bb ->
  exists r, LastCommonAncestor mem pa pb = Ok r /\ is_lca mem (Some pa) (Some pb) r.
Proof.
  intros Hi Ha Hb. pose proof Hi as [Ht _]. unfold LastCommonAncestor, deref. rewrite Ha, Hb. cbn.
  destruct (Ht _ _ Ha) as [Ha0 _]. destruct (Ht _ _ Hb) as [Hb0 _].
  destruct (Z.ltb_spec (nHeight bb) (nHeight ba)) as [Hlt|Hge].
  - rewrite (GetAncestor_spec mem pa ba) by done. cbn.
    destruct (ancestor_at_total mem pa ba (nHeight bb) Ht Ha ltac:(lia)) as (r & br & Hr & Hbr & Hh & _).
    rewrite Hr. destruct (lca_loop_spec mem (S (Z.to_nat (Z.min (nHeight ba) (nHeight bb)))) (Some r) (Some pb))
      as (x & Hx & Hlca); [done|by exists br, bb| |].
    { intros a' xa Ea Hxa. inversion Ea; subst. rewrite Hbr in Hxa. inversion Hxa; subst. lia. }
    exists x. split; [done|]. intros c. rewrite <- (Hlca c). cbn.
    split; intros [H1 H2]; (split; [|done]); apply (common_ancestor_clip mem pa ba pb bb r c); done || lia.
  - destruct (Z.ltb_spec (nHeight ba) (nHeight bb)) as [Hlt'|Hge'].
    + rewrite (GetAncestor_spec mem pb bb) by done. cbn.
      destruct (ancestor_at_total mem pb bb (nHeight ba) Ht Hb ltac:(lia)) as (r & br & Hr & Hbr & Hh & _).
      rewrite Hr. destruct (lca_loop_spec mem (S (Z.to_nat (Z.min (nHeight ba) (nHeight bb)))) (Some pa) (Some r))
        as (x & Hx & Hlca); [done|by exists ba, br| |].
      { intros a' xa Ea Hxa. inversion Ea; subst. rewrite Ha in Hxa. inversion Hxa; subst. lia. }
      exists x. split; [done|]. intros c. rewrite <- (Hlca c). cbn.
      split; intros [H1 H2]; (split; [done|]); apply (common_ancestor_clip mem pb bb pa ba r c); done || lia.
    + apply (lca_loop_spec mem (S (Z.to_nat (Z.min (nHeight ba) (nHeight bb)))) (Some pa) (Some pb));
        [done|exists ba, bb; splits; [done|done|lia]|].
      intros a' xa Ea Hxa. inversion Ea; subst. rewrite Ha in Hxa. inversion Hxa; subst. lia.
Qed.

(** *** The active chain *)

(** [vChain] holds exactly the branch that ends in [tip]. *)
Definition chain_ok (mem : heap) (vChain : CChain) (tip : ptr) : Prop :=
  exists b, mem !! tip = Some b /\ length vChain = S (Z.to_nat (nHeight b))
    /\ forall i, (i < length vChain)%nat -> vChain !! i = Some (ancestor_at mem tip (Z.of_nat i)).

(** Up to height [n], an entry of [vChain] determines all the entries below it. *)
Definition closed_upto (mem : heap) (vChain : CChain) (n : nat) : Prop :=
  forall i q, (i <= n)%nat -> vChain !! i = Some (Some q) ->
    forall j, (j <= i)%nat -> vChain !! j = Some (ancestor_at mem q (Z.of_nat j)).

Lemma ancestor_at_self mem p b : tree_ok mem -> mem !! p = Some b -> ancestor_at mem p (nHeight b) = Some p.
Proof.
  intros Ht Hp. unfold ancestor_at. rewrite Hp. destruct (Ht _ _ Hp) as [H0 _].
  destruct (Z.leb_spec 0 (nHeight b)), (Z.leb_spec (nHeight b) (nHeight b)); try lia.
  by rewrite Z.sub_diag.
Qed.

Lemma chain_ok_closed mem v tip n : tree_ok mem -> chain_ok mem v tip -> closed_upto mem v n.
Proof.
  intros Ht (b & Hb & Hl & Hv) i q _ Hq j Hj.
  assert (Hi : (i < length v)%nat) by (eapply lookup_lt_Some; eauto).
  rewrite Hv in Hq by done. inversion Hq as [Hq']. rewrite Hv by lia. f_equal.
  destruct (Ht _ _ Hb) as [H0 _].
  destruct (ancestor_at_total mem tip b (Z.of_nat i) Ht Hb ltac:(lia)) as (q' & bq & Hq1 & Hbq & Hh & _).
  rewrite Hq' in Hq1. inversion Hq1; subst q'.
  eapply ancestor_at_trans; eauto; [lia|]. by rewrite Hh.
Qed.

Lemma resize_closed mem v n m : (forall k, closed_upto mem v k) -> closed_upto mem (resize_chain n v) m.
Proof.
  intros Hc i q Him Hq j Hj. unfold resize_chain in *.
  destruct (decide (i < length (take n v))%nat) as [Hi|Hi].
  - rewrite lookup_app_l in Hq by done. rewrite lookup_app_l by lia.
    rewrite length_take in Hi. rewrite lookup_take in Hq by lia. rewrite lookup_take by lia.
    destruct (decide (i < n)%nat); [|done]. destruct (decide (j < n)%nat); [|lia].
    eapply (Hc i i q); eauto.
  - rewrite lookup_app_r in Hq by lia. apply lookup_replicate in Hq. destruct Hq as [? _]. done.
Qed.

Lemma resize_length n v : length (resize_chain n v) = n.
Proof. unfold resize_chain. rewrite length_app, length_take, length_replicate. lia. Qed.

Lemma SetTip_loop_spec mem fuel v p b :
  tree_ok mem -> mem !! p = Some b -> closed_upto mem v (Z.to_nat (nHeight b)) ->
  (Z.to_nat (nHeight b) < length v)%nat -> (Z.to_nat (nHeight b) < fuel)%nat ->
  exists v', SetTip_loop mem fuel v (Some p) = Ok v' /\ length v' = length v
    /\ forall j, if decide (j <= Z.to_nat (nHeight b))%nat
                 then v' !! j = Some (ancestor_at mem p (Z.of_nat j)) else v' !! j = v !! j.
Proof.
  intros Ht. revert v p b. induction fuel as [|fuel IH]; intros v p b Hp Hc Hl Hf; [lia|].
  cbn [SetTip_loop]. unfold deref. rewrite Hp. cbn. destruct (Ht _ _ Hp) as [H0 Hprev].
  set (n := Z.to_nat (nHeight b)) in *. case_bool_decide as E.
  - destruct (v !! n) as [o|] eqn:Ev; [|done]. cbn in E. subst o.
    exists v. splits; [done|done|]. intros j. case_decide; [|done]. by apply (Hc n p).
  - set (v1 := <[n := Some p]> v). assert (Hself : ancestor_at mem p (Z.of_nat n) = Some p).
    { unfold n. rewrite Z2Nat.id by done. by apply ancestor_at_self. }
    destruct (pprev b) as [q|] eqn:Eq.
    + destruct Hprev as (bq & Hq & Hh). destruct (Ht _ _ Hq) as [Hq0 _].
      assert (Hn : n = S (Z.to_nat (nHeight bq))) by (unfold n; lia).
      destruct (IH v1 q bq Hq) as (v' & Hv' & Hlen & Hj).
      * intros i r Hi Hr j Hji. unfold v1 in *. rewrite list_lookup_insert_ne in Hr by lia.
        rewrite list_lookup_insert_ne by lia. apply (Hc i r); [lia|done|done].
      * unfold v1. rewrite length_insert. lia.
      * lia.
      * exists v'. unfold v1 in *. rewrite length_insert in Hlen. splits; [done|done|].
        intros j. specialize (Hj j). destruct (decide (j <= Z.to_nat (nHeight bq))%nat) as [Hjl|Hjl].
        -- case_decide; [|lia]. rewrite (ancestor_at_prev mem p b q) by (done || lia). done.
        -- case_decide as Hjn.
           ++ assert (j = n) as -> by lia. rewrite Hj, list_lookup_insert_eq by done. by rewrite Hself.
           ++ by rewrite Hj, list_lookup_insert_ne by lia.
    + exists v1. assert (n = 0%nat) as Hn by (unfold n; lia).
      unfold v1. rewrite length_insert. splits; [by destruct fuel|done|].
      intros j. case_decide.
      * assert (j = n) as -> by lia. rewrite list_lookup_insert_eq by done. by rewrite Hself.
      * by rewrite list_lookup_insert_ne by lia.
Qed.

Lemma SetTip_spec mem v p b :
  tree_ok mem -> mem !! p = Some b -> (v = [] \/ exists tip, chain_ok mem v tip) ->
  exists v', SetTip mem v (Some p) = Ok v' /\ chain_ok mem v' p.
Proof.
  intros Ht Hp Hv. unfold SetTip, deref. rewrite Hp. cbn. destruct (Ht _ _ Hp) as [H0 _].
  destruct (SetTip_loop_spec mem (S (Z.to_nat (nHeight b)))
    (resize_chain (Z.to_nat (nHeight b + 1)) v) p b Ht Hp) as (v' & Hs & Hl & Hj).
  - apply resize_closed. intros k. destruct Hv as [->|[tip Htip]]; [|by eapply chain_ok_closed].
    intros i q _ Hq. done.
  - rewrite resize_length. lia.
  - lia.
  - exists v'. split; [done|]. rewrite resize_length in Hl. exists b. splits; [done|lia|].
    intros i Hi. specialize (Hj i). case_decide; [done|lia].
Qed.

Lemma chain_at_spec mem v tip b h :
  tree_ok mem -> chain_ok mem v tip -> mem !! tip = Some b -> chain_at v h = ancestor_at mem tip h.
Proof.
  intros Ht (b' & Hb' & Hl & Hv) Hb. rewrite Hb in Hb'. inversion Hb'; subst b'.
  destruct (Ht _ _ Hb) as [H0 _]. unfold chain_at.
  destruct ((h <? 0) || (h >=? Z.of_nat (length v))) eqn:E.
  - unfold ancestor_at. rewrite Hb. apply orb_true_iff in E.
    destruct ((0 <=? h) && (h <=? nHeight b)) eqn:E2; [|done]. destruct E; b2p; lia.
  - b2p. rewrite Hv by lia. cbn. by rewrite Z2Nat.id by lia.
Qed.

Lemma ancestor_at_iff mem tip bt q bq :
  tree_ok mem -> mem !! tip = Some bt -> mem !! q = Some bq ->
  ancestor_at mem tip (nHeight bq) = Some q <-> is_ancestor mem q tip.
Proof.
  intros Ht Hb Hq. split; [apply ancestor_at_is_ancestor|].
  intros [n Hn]. destruct (prevs_height _ _ _ _ _ Ht Hb Hn) as (b' & Hb' & Hh & ?).
  rewrite Hq in Hb'. inversion Hb'; subst b'. unfold ancestor_at. rewrite Hb.
  destruct (Z.leb_spec 0 (nHeight bq)), (Z.leb_spec (nHeight bq) (nHeight bt)); try lia.
  cbn. by replace (Z.to_nat (nHeight bt - nHeight bq)) with n by lia.
Qed.

Lemma Contains_spec mem v tip q bq :
  tree_ok mem -> chain_ok mem v tip -> mem !! q = Some bq ->
  exists c, Contains mem v q = Ok c /\ (c = true <-> is_ancestor mem q tip).
Proof.
  intros Ht Hc Hq. pose proof Hc as (bt & Hb & _). unfold Contains, deref. rewrite Hq. cbn.
  eexists; split; [done|]. rewrite bool_decide_eq_true, (chain_at_spec mem v tip bt) by done.
  by apply (ancestor_at_iff _ _ bt).
Qed.

Lemma FindFork_loop_spec mem fuel v tip q bq :
  tree_ok mem -> chain_ok mem v tip -> mem !! q = Some bq -> (Z.to_nat (nHeight bq) <= fuel)%nat ->
  exists r, FindFork_loop mem (S fuel) v (Some q) = Ok r /\ is_lca mem (Some tip) (Some q) r.
Proof.
  intros Ht Hc. revert q bq. induction fuel as [|fuel IH]; intros q bq Hq Hf;
    cbn [FindFork_loop]; destruct (Contains_spec mem v tip q bq Ht Hc Hq) as (c & Hcq & Hiff); rewrite Hcq; cbn;
    (destruct c; [exists (Some q); split; [done|]; intros x; cbn; split; [tauto|];
       intros Hx; split; [eapply is_ancestor_trans; [done|by apply Hiff]|done]|]).
  all: destruct (Ht _ _ Hq) as [H0 Hprev]; unfold deref; rewrite Hq; cbn.
  all: assert (Hstep : forall x, is_ancestor mem x tip /\ is_ancestor mem x q <->
         is_ancestor mem x tip /\ anc_opt mem x (pprev bq)).
  1,3: intros x; split; intros [Hx1 Hx2]; (split; [done|]);
    [destruct (decide (x = q)) as [->|Hne]; [by apply Hiff in Hx1|];
     destruct (is_ancestor_step _ _ _ _ Hq Hx2 Hne) as (y & Ey & ?); by rewrite Ey
    |destruct (pprev bq) as [y|] eqn:Ey; [|done];
     eapply is_ancestor_trans; [done|by eapply is_ancestor_parent]].
  - destruct (pprev bq) as [y|] eqn:Ey.
    + destruct Hprev as (by' & Hy & Hh). destruct (Ht _ _ Hy). lia.
    + exists None. split; [done|]. intros x. rewrite (Hstep x). cbn. tauto.
  - destruct (pprev bq) as [y|] eqn:Ey.
    + destruct Hprev as (by' & Hy & Hh). destruct (Ht _ _ Hy).
      destruct (IH y by' Hy ltac:(lia)) as (r & Hr & Hlca). exists r. split; [done|].
      intros x. rewrite <- (Hlca x). apply Hstep.
    + exists None. split; [done|]. intros x. rewrite (Hstep x). cbn. tauto.
Qed.

Lemma FindFork_spec mem v tip p bp :
  index_ok mem -> chain_ok mem v tip -> mem !! p = Some bp ->
  exists r, FindFork mem v (Some p) = Ok r /\ is_lca mem (Some tip) (Some p) r.
Proof.
  intros Hi Hc Hp. pose proof Hi as [Ht _]. pose proof Hc as (bt & Hb & Hl & _).
  destruct (Ht _ _ Hb) as [H0 _]. destruct (Ht _ _ Hp) as [Hp0 _].
  unfold FindFork, deref. rewrite Hp. cbn [mbind result_bind].
  assert (Hheight : Height v = nHeight bt) by (unfold Height; lia). rewrite Hheight.
  destruct (nHeight bp >? nHeight bt) eqn:E; b2p.
  - rewrite (GetAncestor_spec mem p bp) by done. cbn [mbind result_bind].
    destruct (ancestor_at_total mem p bp (nHeight bt) Ht Hp ltac:(lia)) as (r & br & Hr & Hbr & Hh & _).
    rewrite Hr. destruct (FindFork_loop_spec mem (Z.to_nat (nHeight bp)) v tip r br) as (x & Hx & Hlca);
      [done|done|done|lia|]. exists x. split; [done|]. intros c. rewrite <- (Hlca c). cbn.
    split; intros [H1 H2]; (split; [done|]); apply (common_ancestor_clip mem p bp tip bt r c); done || lia.
  - cbn [mbind result_bind]. by apply (FindFork_loop_spec mem (Z.to_nat (nHeight bp)) v tip p bp).
Qed.

(** *** Locators *)

(** Next entry of the walk: the chain's index when it applies, the skip list
    otherwise; either way the ancestor at the height asked for. *)
Lemma locator_next mem v tip p bp h :
  index_ok mem -> (v = [] \/ chain_ok mem v tip) -> mem !! p = Some bp -> 0 <= h <= nHeight bp ->
  (c ← Contains mem v p; if c : bool then Ok (chain_at v h) else GetAncestor mem p h)
    = Ok (ancestor_at mem p h).
Proof.
  intros Hi Hv Hp Hh. pose proof Hi as [Ht _].
  assert (Hga : GetAncestor mem p h = Ok (ancestor_at mem p h)) by (by eapply GetAncestor_spec).
  destruct Hv as [->|Hc].
  - unfold Contains, deref. rewrite Hp. cbn. rewrite bool_decide_eq_false_2; [done|].
    unfold chain_at. cbn. destruct (_ || _); done.
  - destruct (Contains_spec mem v tip p bp Ht Hc Hp) as (c & -> & Hiff). cbn. destruct c; [|done].
    pose proof Hc as (bt & Hb & _). rewrite (chain_at_spec mem v tip bt) by done. f_equal.
    eapply ancestor_at_trans; eauto. apply (ancestor_at_iff _ _ bt); [done|done|done|by apply Hiff].
Qed.

(** [hashes_of mem l] are the hashes of the entries [l]. *)
Definition block_hash (mem : heap) (p : ptr) : hash256 :=
  match mem !! p with Some b => phashBlock b | None => 0 end.

Lemma GetLocator_loop_spec mem v tip fuel t p bp nStep vHave :
  index_ok mem -> (v = [] \/ chain_ok mem v tip) -> mem !! p = Some bp ->
  1 <= nStep -> nHeight bp <= Z.of_nat fuel ->
  nHeight bp <= nStep * (2 ^ Z.of_nat t - 1) ->
  exists l g, GetLocator_loop mem fuel v (Some p) nStep vHave = Ok (vHave ++ map (block_hash mem) l)
    /\ Forall (fun q => is_ancestor mem q p) l /\ head l = Some p
    /\ last l = Some g /\ ancestor_at mem p 0 = Some g
    /\ (length l <= (10 - length vHave) + S t)%nat.
Proof.
  intros Hi Hv. pose proof Hi as [Ht _].
  revert t p bp nStep vHave. induction fuel as [|fuel IH]; intros t p bp nStep vHave Hp Hs Hf Hbound;
    destruct (Ht _ _ Hp) as [H0 _]; cbn [GetLocator_loop]; unfold deref; rewrite Hp; cbn;
    destruct (Z.eqb_spec (nHeight bp) 0) as [Hz|Hz]; try lia.
  1,2: exists [p], p; cbn; unfold block_hash; rewrite Hp; splits;
    [done|repeat constructor; apply is_ancestor_refl|done|done
    |by rewrite <- Hz; apply ancestor_at_self|intros; lia].
  set (h := Z.max (nHeight bp - nStep) 0).
  pose proof (locator_next mem v tip p bp h Hi Hv Hp ltac:(lia)) as Hnext.
  destruct (Contains mem v p) as [c|]; [|done]. cbn in Hnext |- *. rewrite Hnext. cbn.
  destruct (ancestor_at_total mem p bp h Ht Hp ltac:(lia)) as (q & bq & Hq & Hbq & Hh & _).
  rewrite Hq.
  assert (Hlen : length (vHave ++ [phashBlock bp]) = S (length vHave)) by (rewrite length_app; cbn; lia).
  rewrite Hlen.
  destruct t as [|t]; [change (2 ^ Z.of_nat 0 - 1) with 0 in Hbound; lia|].
  assert (Hpow : 2 ^ Z.of_nat (S t) = 2 * 2 ^ Z.of_nat t) by (rewrite Nat2Z.inj_succ, Z.pow_succ_r; lia).
  assert (0 < 2 ^ Z.of_nat t) by (apply Z.pow_pos_nonneg; lia).
  match goal with |- context [GetLocator_loop _ _ _ _ ?s _] => set (nStep' := s) end.
  assert (Hn' : nStep' = if (10 <? S (length vHave))%nat then nStep * 2 else nStep) by done.
  clearbody nStep'. subst nStep'.
  set (nStep' := if (10 <? S (length vHave))%nat then nStep * 2 else nStep).
  destruct (IH (if (10 <? S (length vHave))%nat then t else S t) q bq nStep' (vHave ++ [phashBlock bp]))
    as (l & g & Hl & Hall & Hhead & Hlast & Hg & Hlen').
  - done.
  - unfold nStep'. destruct (_ <? _)%nat; lia.
  - lia.
  - unfold nStep'. destruct (Nat.ltb_spec 10 (S (length vHave))); nia.
  - exists (p :: l), g. rewrite Hl. rewrite <- app_assoc. cbn [map app]. unfold block_hash at 2. rewrite Hp.
    splits.
    + done.
    + constructor; [apply is_ancestor_refl|]. eapply Forall_impl; [exact Hall|]. cbn. intros x Hx.
      eapply is_ancestor_trans; [done|]. by eapply ancestor_at_is_ancestor.
    + done.
    + destruct l; [done|done].
    + rewrite <- Hg. eapply ancestor_at_trans; eauto; [lia|]. by rewrite Hh.
    + rewrite Hlen in Hlen'. cbn [length]. destruct (Nat.ltb_spec 10 (S (length vHave))); lia.
Qed.

Lemma GetLocator_spec mem v tip p bp t :
  index_ok mem -> (v = [] \/ chain_ok mem v tip) -> mem !! p = Some bp ->
  nHeight bp < 2 ^ Z.of_nat t ->
  exists l g, GetLocator mem v (Some p) = Ok (map (block_hash mem) l)
    /\ Forall (fun q => is_ancestor mem q p) l /\ head l = Some p
    /\ last l = Some g /\ ancestor_at mem p 0 = Some g /\ (length l <= 11 + t)%nat.
Proof.
  intros Hi Hv Hp Ht. unfold GetLocator, deref. rewrite Hp. cbn [mbind result_bind].
  destruct Hi as [Htr Hs]. destruct (Htr _ _ Hp) as [H0 _].
  destruct (GetLocator_loop_spec mem v tip (Z.to_nat (nHeight bp)) t p bp 1 [])
    as (l & g & Hl & ? & ? & ? & ? & Hlen); [done|done|done|lia|lia|lia|].
  exists l, g. splits; [done|done|done|done|done|]. cbn [length] in Hlen. lia.
Qed.

(** *** Search by time *)

(** Time bound of the entry at index [i] of the chain. *)
Definition time_max_at (mem : heap) (v : CChain) (i : nat) (t : Z) : Prop :=
  exists p b, v !! i = Some (Some p) /\ mem !! p = Some b /\ nTimeMax b = t.

Definition times_sorted (mem : heap) (v : CChain) : Prop :=
  (forall i, (i < length v)%nat -> exists t, time_max_at mem v i t)
  /\ forall i j ti tj, (i <= j)%nat -> time_max_at mem v i ti -> time_max_at mem v j tj -> ti <= tj.

Lemma time_max_at_fun mem v i t t' : time_max_at mem v i t -> time_max_at mem v i t' -> t = t'.
Proof. intros (p & b & H1 & H2 & H3) (p' & b' & H1' & H2' & H3'). simplify_eq. done. Qed.

Lemma lower_bound_loop_spec mem v nTime fuel first len :
  times_sorted mem v -> (first + len <= length v)%nat -> (len <= fuel)%nat ->
  (forall i t, (i < first)%nat -> time_max_at mem v i t -> t < nTime) ->
  (forall i t, (first + len <= i)%nat -> time_max_at mem v i t -> nTime <= t) ->
  exists r, lower_bound_loop mem fuel v nTime first len = Ok r /\ (r <= length v)%nat
    /\ (forall i t, (i < r)%nat -> time_max_at mem v i t -> t < nTime)
    /\ (forall i t, (r <= i)%nat -> time_max_at mem v i t -> nTime <= t).
Proof.
  intros [Hall Hsort]. revert first len. induction fuel as [|fuel IH]; intros first len Hl Hf Hlo Hhi.
  - assert (len = 0%nat) as -> by lia. exists first. cbn. splits; [done|lia|done|].
    intros i t Hi. apply Hhi. lia.
  - destruct len as [|len'].
    { exists first. cbn. splits; [done|lia|done|]. intros i t Hi. apply Hhi. lia. }
    cbn [lower_bound_loop]. remember (S len') as len eqn:El. set (half := (len / 2)%nat).
    assert (half < len)%nat by (apply Nat.div_lt; lia). clearbody half.
    destruct (Hall (first + half)%nat ltac:(lia)) as (t & Ht). pose proof Ht as (p & b & Hv & Hb & Htm).
    rewrite Hv. cbn. unfold deref. rewrite Hb. cbn. unfold GetBlockTimeMax. rewrite Htm.
    destruct (Z.ltb_spec t nTime) as [Hlt|Hge].
    + apply IH; [lia|lia| |intros i t' Hi; apply Hhi; lia].
      intros i t' Hi Ht'. destruct (decide (i <= first + half)%nat); [|lia].
      pose proof (Hsort i (first + half)%nat t' t ltac:(lia) Ht' Ht). lia.
    + apply IH; [lia|lia|done|]. intros i t' Hi Ht'.
      pose proof (Hsort (first + half)%nat i t t' ltac:(lia) Ht Ht'). lia.
Qed.

Lemma FindEarliestAtLeast_spec mem v nTime :
  times_sorted mem v ->
  exists r, FindEarliestAtLeast mem v nTime = Ok r
    /\ match r with
       | None => forall i t, time_max_at mem v i t -> t < nTime
       | Some p => exists i t, v !! i = Some (Some p) /\ time_max_at mem v i t /\ nTime <= t
                     /\ forall j t', (j < i)%nat -> time_max_at mem v j t' -> t' < nTime
       end.
Proof.
  intros Hs. unfold FindEarliestAtLeast.
  destruct (lower_bound_loop_spec mem v nTime (length v) 0 (length v)) as (r & -> & Hr & Hlo & Hhi);
    [done|lia|lia|lia| |].
  { intros i t Hi (p & b & Hv & _). apply lookup_lt_Some in Hv. lia. }
  cbn. eexists; split; [done|]. destruct (Nat.eqb_spec r (length v)) as [->|Hne].
  - intros i t Ht. apply (Hlo i t); [|done]. destruct Ht as (p & b & Hv & _). by eapply lookup_lt_Some.
  - destruct (proj1 Hs r ltac:(lia)) as (t & Ht). pose proof Ht as (p & b & Hv & _).
    rewrite Hv. cbn. exists r, t. splits; [done|done|by apply (Hhi r)|done].
Qed.

(** *** Work of a block *)

(** [2^256 / (target + 1)], zero for an invalid target. *)
Definition block_work (nBits : Z) : Z :=
  let '(v, fNegative, fOverflow) := SetCompact nBits in
  if fNegative || fOverflow || (eval v =? 0) then 0 else 2 ^ 256 / (eval v + 1).

Lemma one_u64 : is_u64 1. Proof. by vm_compute. Qed.

(** A compact target leaves room for the increment of [GetBlockProof]. *)
Lemma compact_not_max c v ng ov :
  is_u32 c -> SetCompact c = (v, ng, ov) -> eval v + 1 < 2 ^ 256.
Proof.
  intros Hc Hs. pose proof (SetCompact_spec c Hc) as H. rewrite Hs in H. destruct H as (Hw & He & _).
  pose proof (eval_wf_range v Hw). pose proof (compact_range c Hc) as [? ?].
  destruct (decide (compact_exponent c <= 3)) as [Hle|Hgt].
  - pose proof (compact_number_small c Hc Hle). rewrite Z.mod_small in He by lia. lia.
  - unfold compact_number in He. destruct (Z.leb_spec (compact_exponent c) 3); [lia|].
    replace (8 * (compact_exponent c - 3)) with (8 * (compact_exponent c - 4) + 8) in He by lia.
    rewrite Z.pow_add_r, Z.mul_assoc in He by lia. set (k := compact_mantissa c * _) in He.
    change (2 ^ 256) with (2 ^ 248 * 2 ^ 8) in He. rewrite Z.mul_mod_distr_r in He by lia.
    pose proof (Z.mod_pos_bound k (2 ^ 248) ltac:(lia)). lia.
Qed.

Lemma GetBlockProof_spec b :
  is_u32 (nBits b) -> exists w, GetBlockProof b = Ok w /\ wf w /\ eval w = block_work (nBits b).
Proof.
  intros Hb. unfold GetBlockProof, block_work. pose proof (SetCompact_spec (nBits b) Hb) as Hset.
  destruct (SetCompact (nBits b)) as [[v ng] ov] eqn:Es. destruct Hset as (Hw & _).
  rewrite EqualTo_spec by (done || by vm_compute).
  destruct (ng || ov || (eval v =? 0)) eqn:E.
  - eexists; split; [done|]. by apply of_uint64_spec.
  - b2p. pose proof (eval_wf_range v Hw). pose proof (compact_not_max _ _ _ _ Hb Es).
    destruct (bnot_wf_spec v Hw) as [Hwn Hen].
    destruct (of_uint64_spec 1 one_u64) as [Hw1 He1].
    destruct (add_spec v (of_uint64 1) Hw Hw1) as [Hwa Hea]. rewrite He1, Z.mod_small in Hea by lia.
    pose proof (div_spec (bnot v) (add64 v 1) Hwn Hwa) as Hd. unfold add64 in *.
    destruct (div _ _) as [q|[]]; [|lia].
    destruct Hd as (_ & Hwq & Heq). destruct (add_spec q (of_uint64 1) Hwq Hw1) as [Hwr Her].
    eexists; split; [done|]. split; [done|]. rewrite Her, He1, Heq, Hea, Hen.
    assert (Hdiv : 2 ^ 256 / (eval v + 1) = (2 ^ 256 - 1 - eval v) / (eval v + 1) + 1).
    { replace (2 ^ 256) with (2 ^ 256 - 1 - eval v + 1 * (eval v + 1)) at 1 by lia.
      by rewrite Z.div_add by lia. }
    rewrite <- Hdiv. apply Z.mod_small.
    split; [apply Z.div_pos; lia|apply Z.div_lt_upper_bound; nia].
Qed.

(** ** An example tree

    Genesis [1] - [2] - [3], and a second child [4] of [2]. *)
Definition ex_entry (h : hash256) (prev skip : option ptr) (height : Z) : CBlockIndex :=
  {| phashBlock := h; pprev := prev; pskip := skip; nHeight := height;
     nFile := 0; nDataPos := 0; nUndoPos := 0; nChainWork := base_uint_zero; nTx := 1; nChainTx := 1;
     nStatus := 3; nVersion := 0x30000000; hashMerkleRoot := h; nTime := 1000 + 60 * height;
     nBits := 0x207fffff; nNonce := 0; nNonce64 := 0; mix_hash := 0; nSequenceId := 0;
     nTimeMax := 1000 + 60 * height |}.
Definition ex_heap : heap :=
  <[1%positive := ex_entry 101 None None 0]>
  (<[2%positive := ex_entry 102 (Some 1%positive) None 1]>
  (<[3%positive := ex_entry 103 (Some 2%positive) (Some 1%positive) 2]>
  (<[4%positive := ex_entry 104 (Some 2%positive) (Some 1%positive) 2]> ∅))).

(** Case analysis on the entries of a concrete heap. *)
Ltac heap_cases H :=
  repeat (apply lookup_insert_Some in H; destruct H as [[<- <-]|[_ H]]); [..|by rewrite lookup_empty in H].

Lemma ex_heap_ok : index_ok ex_heap.
Proof.
  split; intros p b H; unfold ex_heap in H; heap_cases H.
  1: by split.
  1-3: split; [done|]; eexists; split; [by vm_compute|done].
  all: by vm_compute.
Qed.

Lemma ex_chain_ok : chain_ok ex_heap [Some 1%positive; Some 2%positive; Some 3%positive] 3%positive.
Proof.
  eexists; splits; [by vm_compute|done|]. intros i Hi. cbn [length] in Hi.
  do 3 (destruct i as [|i]; [by vm_compute|]). lia.
Qed.

(** ** An example chain of any length, signalling bit 28 *)
Definition line_entry (bits : Z) (i : nat) : CBlockIndex :=
  {| phashBlock := Z.of_nat i; pprev := match i with O => None | S j => Some (Pos.of_succ_nat j) end;
     pskip := None; nHeight := Z.of_nat i;
     nFile := 0; nDataPos := 0; nUndoPos := 0; nChainWork := base_uint_zero; nTx := 1; nChainTx := 1;
     nStatus := 3; nVersion := 0x30000000; hashMerkleRoot := 0; nTime := 1000 + 60 * Z.of_nat i;
     nBits := bits; nNonce := 0; nNonce64 := 0; mix_hash := 0; nSequenceId := 0;
     nTimeMax := 1000 + 60 * Z.of_nat i |}.
Fixpoint line_heap (bits : Z) (n : nat) : heap :=
  match n with O => ∅ | S n => <[Pos.of_succ_nat n := line_entry bits n]> (line_heap bits n) end.

Lemma line_heap_lookup bits n i : (i < n)%nat -> line_heap bits n !! Pos.of_succ_nat i = Some (line_entry bits i).
Proof.
  induction n as [|n IH]; intros Hi; [lia|]. cbn [line_heap].
  destruct (decide (i = n)) as [->|Hne]; [by rewrite lookup_insert_eq|].
  rewrite lookup_insert_ne by lia. apply IH. lia.
Qed.

Lemma line_heap_inv bits n p b :
  line_heap bits n !! p = Some b -> exists i, (i < n)%nat /\ b = line_entry bits i.
Proof.
  induction n as [|n IH]; cbn [line_heap]; [by rewrite lookup_empty|].
  intros H. apply lookup_insert_Some in H. destruct H as [[_ <-]|[_ H]]; [exists n; split; [lia|done]|].
  destruct (IH H) as (i & ? & ->). exists i. split; [lia|done].
Qed.

Lemma line_heap_ok bits n : index_ok (line_heap bits n).
Proof.
  split; intros p b Hb; apply line_heap_inv in Hb; destruct Hb as (i & Hi & ->); [|done].
  split; [cbn; lia|]. destruct i as [|i]; [done|]. cbn [pprev line_entry].
  exists (line_entry bits i). split; [apply line_heap_lookup; lia|cbn; lia].
Qed.

(** ** Properties *)

(** C17: on a well-formed block index, the skip-list search [GetAncestor] neither
    runs into a null pointer or a failed assertion nor exhausts its loop bound, and
    returns exactly the entry reached by following [pprev] height by height ([nullptr]
    when the height is negative or above the entry). *)
Theorem GetAncestor_walks_pprev (mem : heap) (p : ptr) (b : CBlockIndex) (height : Z) :
  index_ok mem -> mem !! p = Some b ->
  (0 <= height <= nHeight b ->
     exists q bq, GetAncestor mem p height = Ok (Some q) /\ mem !! q = Some bq /\ nHeight bq = height
               /\ prevs mem (Z.to_nat (nHeight b - height)) p = Some q)
  /\ (height < 0 \/ nHeight b < height -> GetAncestor mem p height = Ok None).
Proof.
  intros Hi Hp. rewrite (GetAncestor_spec mem p b) by done. split.
  - intros Hh. destruct (ancestor_at_total mem p b height (proj1 Hi) Hp Hh) as (q & bq & -> & ? & ? & ?).
    exists q, bq. auto.
  - intros Hh. f_equal. unfold ancestor_at. rewrite Hp.
    destruct (Z.leb_spec 0 height), (Z.leb_spec height (nHeight b)); lia || done.
Qed.

Lemma GetAncestor_walks_pprev_witness :
  exists q bq, GetAncestor ex_heap 3%positive 0 = Ok (Some q) /\ ex_heap !! q = Some bq /\ nHeight bq = 0
    /\ prevs ex_heap 2 3%positive = Some q.
Proof.
  apply (GetAncestor_walks_pprev ex_heap 3%positive (ex_entry 103 (Some 2%positive) (Some 1%positive) 2) 0);
    [exact ex_heap_ok|vm_compute; reflexivity|vm_compute; split; discriminate].
Defined.

(** [BuildSkip] preserves the well-formedness of the index, changes no
    ancestor relation, and sets the skip pointer of a non-genesis entry to the
    ancestor at [GetSkipHeight]. *)
Theorem BuildSkip_preserves_index (mem : heap) (p : ptr) (b : CBlockIndex) :
  index_ok mem -> mem !! p = Some b -> pprev b <> None ->
  exists mem' b' q, BuildSkip mem p = Ok mem' /\ index_ok mem'
    /\ (forall x h, ancestor_at mem' x h = ancestor_at mem x h)
    /\ mem' !! p = Some b' /\ pskip b' = Some q
    /\ ancestor_at mem p (GetSkipHeight (nHeight b)) = Some q.
Proof.
  intros Hi Hp Hn. destruct (BuildSkip_spec mem p b Hi Hp) as (mem' & Hb & Hi' & Hanc & Hcase).
  destruct (pprev b); [|done]. destruct Hcase as (b' & Hb' & Hs & [q Hq]).
  exists mem', b', q. splits; congruence || done.
Qed.

Lemma BuildSkip_preserves_index_witness :
  exists mem' b' q, BuildSkip ex_heap 2%positive = Ok mem' /\ index_ok mem'
    /\ (forall x h, ancestor_at mem' x h = ancestor_at ex_heap x h)
    /\ mem' !! 2%positive = Some b' /\ pskip b' = Some q
    /\ ancestor_at ex_heap 2%positive (GetSkipHeight 1) = Some q.
Proof.
  apply (BuildSkip_preserves_index ex_heap 2%positive (ex_entry 102 (Some 1%positive) None 1));
    [exact ex_heap_ok|vm_compute; reflexivity|discriminate].
Defined.

(** [LastCommonAncestor] terminates without failing its assertion, and the
    ancestors of its result are exactly the common ancestors of its two arguments. *)
Theorem LastCommonAncestor_correct (mem : heap) (pa pb : ptr) (ba bb : CBlockIndex) :
  index_ok mem -> mem !! pa = Some ba -> mem !! pb = Some bb ->
  exists r, LastCommonAncestor mem pa pb = Ok r
    /\ forall c, (is_ancestor mem c pa /\ is_ancestor mem c pb)
                 <-> match r with Some q => is_ancestor mem c q | None => False end.
Proof. intros Hi Ha Hb. by apply (LastCommonAncestor_spec mem pa pb ba bb). Qed.

Lemma LastCommonAncestor_correct_witness :
  exists r, LastCommonAncestor ex_heap 3%positive 4%positive = Ok r
    /\ forall c, (is_ancestor ex_heap c 3%positive /\ is_ancestor ex_heap c 4%positive)
                 <-> match r with Some q => is_ancestor ex_heap c q | None => False end.
Proof.
  apply (LastCommonAncestor_correct ex_heap 3%positive 4%positive
    (ex_entry 103 (Some 2%positive) (Some 1%positive) 2) (ex_entry 104 (Some 2%positive) (Some 1%positive) 2));
    [exact ex_heap_ok|vm_compute; reflexivity|vm_compute; reflexivity].
Defined.

(** After a reorganisation [SetTip], the active chain holds exactly the branch
    of the new tip although the loop stops at the first entry already in place, and
    [FindFork] then returns the last common ancestor of the tip and any block. *)
Theorem SetTip_FindFork_correct (mem : heap) (v : CChain) (tip p x : ptr) (bp bx : CBlockIndex) :
  index_ok mem -> chain_ok mem v tip -> mem !! p = Some bp -> mem !! x = Some bx ->
  exists v', SetTip mem v (Some p) = Ok v' /\ chain_ok mem v' p
    /\ exists r, FindFork mem v' (Some x) = Ok r
      /\ forall c, (is_ancestor mem c p /\ is_ancestor mem c x)
                   <-> match r with Some q => is_ancestor mem c q | None => False end.
Proof.
  intros Hi Hc Hp Hx. destruct (SetTip_spec mem v p bp (proj1 Hi) Hp) as (v' & Hs & Hok); [eauto|].
  exists v'. splits; [done|done|]. by apply (FindFork_spec mem v' p x bx).
Qed.

Lemma SetTip_FindFork_correct_witness :
  exists v', SetTip ex_heap [Some 1%positive; Some 2%positive; Some 3%positive] (Some 4%positive) = Ok v'
    /\ chain_ok ex_heap v' 4%positive
    /\ exists r, FindFork ex_heap v' (Some 3%positive) = Ok r
      /\ forall c, (is_ancestor ex_heap c 4%positive /\ is_ancestor ex_heap c 3%positive)
                   <-> match r with Some q => is_ancestor ex_heap c q | None => False end.
Proof.
  apply (SetTip_FindFork_correct ex_heap [Some 1%positive; Some 2%positive; Some 3%positive]
    3%positive 4%positive 3%positive
    (ex_entry 104 (Some 2%positive) (Some 1%positive) 2) (ex_entry 103 (Some 2%positive) (Some 1%positive) 2));
    [exact ex_heap_ok|exact ex_chain_ok|vm_compute; reflexivity|vm_compute; reflexivity].
Defined.

(** A block locator starts with the block asked for, ends with its genesis
    block, lists only ancestors, and has at most [11 + t] entries for a height below
    [2^t]. *)
Theorem GetLocator_correct (mem : heap) (v : CChain) (tip p : ptr) (bp : CBlockIndex) (t : nat) :
  index_ok mem -> chain_ok mem v tip -> mem !! p = Some bp -> nHeight bp < 2 ^ Z.of_nat t ->
  exists l g, GetLocator mem v (Some p) = Ok (map (block_hash mem) l)
    /\ Forall (fun q => is_ancestor mem q p) l /\ head l = Some p
    /\ last l = Some g /\ ancestor_at mem p 0 = Some g /\ (length l <= 11 + t)%nat.
Proof. intros Hi Hc Hp Ht. by apply (GetLocator_spec mem v tip p bp t Hi (or_intror Hc)). Qed.

Lemma GetLocator_correct_witness :
  exists l g, GetLocator ex_heap [Some 1%positive; Some 2%positive; Some 3%positive] (Some 4%positive)
      = Ok (map (block_hash ex_heap) l)
    /\ Forall (fun q => is_ancestor ex_heap q 4%positive) l /\ head l = Some 4%positive
    /\ last l = Some g /\ ancestor_at ex_heap 4%positive 0 = Some g /\ (length l <= 11 + 2)%nat.
Proof.
  apply (GetLocator_correct ex_heap [Some 1%positive; Some 2%positive; Some 3%positive] 3%positive 4%positive
    (ex_entry 104 (Some 2%positive) (Some 1%positive) 2) 2);
    [exact ex_heap_ok|exact ex_chain_ok|vm_compute; reflexivity|vm_compute; reflexivity].
Defined.

(** [GetBlockProof] computes [floor (2^256 / (target + 1))] exactly although
    [2^256] is not representable, never divides by zero, and is zero for a negative,
    overflowing or zero target. *)
Theorem GetBlockProof_exact (b : CBlockIndex) :
  is_u32 (nBits b) ->
  exists w, GetBlockProof b = Ok w /\ wf w
    /\ let '(v, fNegative, fOverflow) := SetCompact (nBits b) in
       eval w = if fNegative || fOverflow || (eval v =? 0) then 0 else 2 ^ 256 / (eval v + 1).
Proof.
  intros Hb. destruct (GetBlockProof_spec b Hb) as (w & Hp & Hw & He). exists w. splits; [done|done|].
  unfold block_work in He. by destruct (SetCompact (nBits b)) as [[v ng] ov].
Qed.

Lemma GetBlockProof_exact_witness :
  exists w, GetBlockProof (ex_entry 1 None None 0) = Ok w /\ wf w
    /\ let '(v, fNegative, fOverflow) := SetCompact 0x207fffff in
       eval w = if fNegative || fOverflow || (eval v =? 0) then 0 else 2 ^ 256 / (eval v + 1).
Proof. apply (GetBlockProof_exact (ex_entry 1 None None 0)). vm_compute. split; [discriminate|reflexivity]. Defined.

(** On a chain whose maximal times do not decrease, [FindEarliestAtLeast]
    returns the first entry whose [nTimeMax] reaches the time, and [nullptr] exactly
    when every entry is earlier. *)
Theorem FindEarliestAtLeast_correct (mem : heap) (v : CChain) (nTime : Z) :
  times_sorted mem v ->
  exists r, FindEarliestAtLeast mem v nTime = Ok r
    /\ match r with
       | None => forall i t, time_max_at mem v i t -> t < nTime
       | Some p => exists i t, v !! i = Some (Some p) /\ time_max_at mem v i t /\ nTime <= t
                     /\ forall j t', (j < i)%nat -> time_max_at mem v j t' -> t' < nTime
       end.
Proof. apply FindEarliestAtLeast_spec. Qed.

Lemma ex_times_sorted : times_sorted ex_heap [Some 1%positive; Some 2%positive; Some 3%positive].
Proof.
  assert (Hx : forall i t, time_max_at ex_heap [Some 1%positive; Some 2%positive; Some 3%positive] i t ->
    (i < 3)%nat /\ t = 1000 + 60 * Z.of_nat i).
  { intros i t (p & b & Hv & Hb & <-).
    do 3 (destruct i as [|i]; [cbn in Hv; inversion Hv; subst; vm_compute in Hb; inversion Hb; cbn; lia|]). done. }
  split.
  - intros i Hi. cbn in Hi. exists (1000 + 60 * Z.of_nat i).
    do 3 (destruct i as [|i]; [do 2 eexists; splits; [done|by vm_compute|done]|]). lia.
  - intros i j ti tj Hij Hi Hj. apply Hx in Hi, Hj. lia.
Qed.

Lemma FindEarliestAtLeast_correct_witness :
  exists r, FindEarliestAtLeast ex_heap [Some 1%positive; Some 2%positive; Some 3%positive] 1050 = Ok r
    /\ match r with
       | None => forall i t, time_max_at ex_heap [Some 1%positive; Some 2%positive; Some 3%positive] i t -> t < 1050
       | Some p => exists i t, [Some 1%positive; Some 2%positive; Some 3%positive] !! i = Some (Some p)
                     /\ time_max_at ex_heap [Some 1%positive; Some 2%positive; Some 3%positive] i t /\ 1050 <= t
                     /\ forall j t', (j < i)%nat ->
                        time_max_at ex_heap [Some 1%positive; Some 2%positive; Some 3%positive] j t' -> t' < 1050
       end.
Proof. apply (FindEarliestAtLeast_correct ex_heap). exact ex_times_sorted. Defined.
