(* ===== verification/MedianTime.v ===== *)
(** * Median time past: [CBlockIndex::GetMedianTimePast] of [src/chain.h]

    [GetMedianTimePast] sorts the times of up to eleven blocks and takes the
    middle one.  The rule of [ContextualCheckBlockHeader] ([src/validation.cpp])
    that a block's time is above the median of its parent makes the median
    non-decreasing along every branch; the deployments of [VersionBits] rely on it. *)

From S2P Require Import Prelude Endian ArithUint256 Chain.

(** How many elements of [l] are at least [m]. *)
Definition count_ge (m : Z) (l : list Z) : nat := length (filter (fun x => m <= x) l).

Lemma count_ge_cons m x l : count_ge m (x :: l) = ((if decide (m <= x)%Z then 1 else 0) + count_ge m l)%nat.
Proof. unfold count_ge. rewrite filter_cons. by destruct (decide _). Qed.

Lemma count_ge_app m l l' : count_ge m (l ++ l') = (count_ge m l + count_ge m l')%nat.
Proof. unfold count_ge. by rewrite filter_app, length_app. Qed.

Lemma count_ge_perm m l l' : l ≡ₚ l' -> count_ge m l = count_ge m l'.
Proof. intros H. unfold count_ge. by rewrite H. Qed.

Lemma count_ge_le m l : (count_ge m l <= length l)%nat.
Proof. unfold count_ge. apply length_filter. Qed.

Lemma count_ge_all m l : Forall (fun x => m <= x) l -> count_ge m l = length l.
Proof. intros H. induction H as [|x l Hx _ IH]; [done|]. rewrite count_ge_cons. destruct (decide _); [cbn; lia|done]. Qed.

Lemma count_ge_none m l : Forall (fun x => x < m) l -> count_ge m l = 0%nat.
Proof. intros H. induction H as [|x l Hx _ IH]; [done|]. rewrite count_ge_cons. destruct (decide _); lia. Qed.

Lemma sorted_split (l : list Z) k m :
  StronglySorted Z.le l -> l !! k = Some m ->
  Forall (fun x => x <= m) (take (S k) l) /\ Forall (fun x => m <= x) (drop k l).
Proof.
  intros Hs. revert k. induction Hs as [|x l Hs IH Hall]; intros k Hk; [done|].
  destruct k as [|k]; cbn in Hk.
  - inversion Hk; subst. split; [|constructor; [lia|done]]. cbn. rewrite take_0. constructor; [lia|constructor].
  - destruct (IH k Hk) as [H1 H2]. split; [|done].
    change (take (S (S k)) (x :: l)) with (x :: take (S k) l). constructor; [|done].
    by apply (proj1 (Forall_lookup _ _) Hall k).
Qed.

Lemma sorted_count (l : list Z) k m :
  StronglySorted Z.le l -> l !! k = Some m -> (length l - k <= count_ge m l)%nat.
Proof.
  intros Hs Hk. destruct (sorted_split l k m Hs Hk) as [_ H2].
  rewrite <- (take_drop k l) at 2. rewrite count_ge_app, (count_ge_all m (drop k l) H2), length_drop. lia.
Qed.

Lemma sorted_ge (l : list Z) k m m' :
  StronglySorted Z.le l -> l !! k = Some m -> (length l - k <= count_ge m' l)%nat -> m' <= m.
Proof.
  intros Hs Hk Hc. destruct (Z.le_gt_cases m' m) as [|Hlt]; [done|exfalso].
  destruct (sorted_split l k m Hs Hk) as [H1 _].
  rewrite <- (take_drop (S k) l) in Hc at 2. rewrite count_ge_app, count_ge_none in Hc.
  - pose proof (count_ge_le m' (drop (S k) l)) as Hle. rewrite length_drop in Hle.
    apply lookup_lt_Some in Hk. lia.
  - eapply Forall_impl; [exact H1|]. cbn. lia.
Qed.

(** The middle element of a list of times. *)
Definition median (l : list Z) : Z := default 0 (merge_sort Z.le l !! (length l / 2)%nat).

#[global] Instance Zle_total_inst : Total Z.le. Proof. intros x y. lia. Qed.
#[global] Instance Zle_trans_inst : Transitive Z.le. Proof. intros x y z. lia. Qed.

Lemma median_lookup l :
  l <> [] -> merge_sort Z.le l !! (length l / 2)%nat = Some (median l).
Proof.
  intros Hl. unfold median. destruct (lookup_lt_is_Some_2 (merge_sort Z.le l) (length l / 2)) as [m ->]; [|done].
  rewrite (Permutation_length (merge_sort_Permutation Z.le l)).
  apply Nat.div_lt; [|lia]. destruct l; [done|cbn; lia].
Qed.

Lemma median_count l : l <> [] -> (length l - length l / 2 <= count_ge (median l) l)%nat.
Proof.
  intros Hl. pose proof (sorted_count _ _ _ (StronglySorted_merge_sort Z.le l) (median_lookup l Hl)) as H.
  by rewrite (count_ge_perm _ _ l), (Permutation_length (merge_sort_Permutation Z.le l)) in H
    by apply merge_sort_Permutation.
Qed.

Lemma median_ge l m : l <> [] -> (length l - length l / 2 <= count_ge m l)%nat -> m <= median l.
Proof.
  intros Hl Hc. apply (sorted_ge _ _ _ _ (StronglySorted_merge_sort Z.le l) (median_lookup l Hl)).
  by rewrite (count_ge_perm _ _ l), (Permutation_length (merge_sort_Permutation Z.le l))
    by apply merge_sort_Permutation.
Qed.

(** A new time above the median, with or without the oldest one dropped, does not lower it. *)
Lemma median_push l x : l <> [] -> median l < x -> median l <= median (x :: l).
Proof.
  intros Hl Hx. apply median_ge; [done|]. pose proof (median_count l Hl) as Hc.
  rewrite count_ge_cons. destruct (decide _); [|lia]. cbn [length].
  pose proof (Nat.Div0.div_le_mono (length l) (S (length l)) 2 ltac:(lia)). lia.
Qed.

Lemma median_slide l y x : median (l ++ [y]) < x -> median (l ++ [y]) <= median (x :: l).
Proof.
  intros Hx. apply median_ge; [done|].
  pose proof (median_count (l ++ [y]) ltac:(by destruct l)) as Hc.
  rewrite length_app in Hc. cbn [length] in Hc. rewrite Nat.add_1_r in Hc.
  rewrite count_ge_cons. cbn [length]. rewrite count_ge_app, (count_ge_cons _ y []) in Hc.
  change (count_ge (median (l ++ [y])) []) with 0%nat in Hc.
  destruct (decide (median (l ++ [y]) <= x)), (decide (median (l ++ [y]) <= y)); lia.
Qed.

(** Times of the [n] entries from [p] back, newest first. *)
Fixpoint times_back (mem : heap) (n : nat) (p : option ptr) : list Z :=
  match n, p with
  | S n, Some p => match mem !! p with
                   | Some b => nTime b :: times_back mem n (pprev b)
                   | None => []
                   end
  | _, _ => []
  end.

Lemma median_times_spec mem n : forall p acc,
  tree_ok mem -> (forall q, p = Some q -> is_Some (mem !! q)) ->
  median_times mem n p acc = Ok (reverse (times_back mem n p) ++ acc).
Proof.
  induction n as [|n IH]; intros p acc Ht Hp; [done|].
  destruct p as [q|]; [|done]. cbn [median_times times_back].
  destruct (Hp q eq_refl) as [b Hb]. unfold deref. rewrite Hb. cbn [mbind result_bind].
  rewrite IH; [|done|].
  - rewrite reverse_cons, <- app_assoc. done.
  - intros r Hr. destruct (Ht _ _ Hb) as [_ Hprev]. rewrite Hr in Hprev. destruct Hprev as (b' & -> & _). by eexists.
Qed.

Lemma median_perm l l' : l ≡ₚ l' -> median l = median l'.
Proof.
  intros H. unfold median. rewrite (Permutation_length H).
  replace (merge_sort Z.le l) with (merge_sort Z.le l'); [done|].
  assert (AntiSymm eq Z.le) by (intros x y; lia).
  apply (StronglySorted_unique Z.le); try apply StronglySorted_merge_sort; try apply _.
  by rewrite !merge_sort_Permutation.
Qed.

(** [GetMedianTimePast] never fails on a block of the tree. *)
Definition mtp (mem : heap) (p : ptr) : Z := median (times_back mem 11 (Some p)).

Lemma GetMedianTimePast_spec mem p b :
  tree_ok mem -> mem !! p = Some b -> GetMedianTimePast mem p = Ok (mtp mem p).
Proof.
  intros Ht Hp. unfold GetMedianTimePast. rewrite median_times_spec; [|done|].
  2:{ intros q [= <-]. by eexists. }
  cbn [mbind result_bind]. rewrite app_nil_r. f_equal.
  change (median (reverse (times_back mem nMedianTimeSpan (Some p))) = mtp mem p).
  apply median_perm. apply reverse_Permutation.
Qed.

(** The rule on block times of [ContextualCheckBlockHeader]. *)
Definition block_times_ok (mem : heap) : Prop :=
  forall p b q, mem !! p = Some b -> pprev b = Some q -> mtp mem q < nTime b.

Lemma times_back_snoc mem n : forall p,
  times_back mem n p = times_back mem (S n) p \/
  exists y, times_back mem (S n) p = times_back mem n p ++ [y].
Proof.
  induction n as [|n IH]; intros p.
  - destruct p as [q|]; [|by left]. cbn. destruct (mem !! q) as [b|]; [|by left]. right. by exists (nTime b).
  - destruct p as [q|]; [|by left].
    change (times_back mem (S (S n)) (Some q)) with
      (match mem !! q with Some b => nTime b :: times_back mem (S n) (pprev b) | None => [] end).
    change (times_back mem (S n) (Some q)) with
      (match mem !! q with Some b => nTime b :: times_back mem n (pprev b) | None => [] end).
    destruct (mem !! q) as [b|]; [|by left].
    destruct (IH (pprev b)) as [H|[y H]]; [left|right; exists y]; by rewrite H.
Qed.

Lemma mtp_step mem p b q bq :
  block_times_ok mem -> mem !! p = Some b -> pprev b = Some q -> mem !! q = Some bq -> mtp mem q <= mtp mem p.
Proof.
  intros Ht Hp Hq Hbq. pose proof (Ht p b q Hp Hq) as Hlt. unfold mtp in *.
  change (times_back mem 11 (Some p)) with
    (match mem !! p with Some b => nTime b :: times_back mem 10 (pprev b) | None => [] end).
  rewrite Hp, Hq. destruct (times_back_snoc mem 10 (Some q)) as [H|[y H]].
  - rewrite H in *. apply median_push; [|done]. cbn. by rewrite Hbq.
  - rewrite H in *. by apply median_slide.
Qed.

Lemma mtp_monotone mem p b q :
  tree_ok mem -> block_times_ok mem -> mem !! p = Some b -> is_ancestor mem q p -> mtp mem q <= mtp mem p.
Proof.
  intros Ht Hbt Hp [n Hn]. revert p b Hp Hn. induction n as [|n IH]; intros p b Hp Hn.
  - inversion Hn; subst. lia.
  - cbn [prevs] in Hn. rewrite Hp in Hn. cbn in Hn. destruct (Ht _ _ Hp) as [_ Hprev].
    destruct (pprev b) as [r|] eqn:Er; [|done]. cbn in Hn. destruct Hprev as (br & Hr & _).
    transitivity (mtp mem r); [by apply (IH r br)|by apply (mtp_step mem p b r br)].
Qed.

(** ** Property *)

Lemma ex_heap_times : block_times_ok ex_heap.
Proof.
  intros p b q Hp Hq. unfold ex_heap in Hp. heap_cases Hp; try done; injection Hq as <-; by vm_compute.
Qed.

(** If every block's time is above the median time past of its parent, the
    median time past is defined for every block of the tree and never decreases from
    a block to its descendants. *)
Theorem GetMedianTimePast_monotone (mem : heap) (p q : ptr) (b bq : CBlockIndex) :
  tree_ok mem -> block_times_ok mem -> mem !! p = Some b -> mem !! q = Some bq -> is_ancestor mem q p ->
  exists t t', GetMedianTimePast mem q = Ok t /\ GetMedianTimePast mem p = Ok t' /\ t <= t'.
Proof.
  intros Ht Hbt Hp Hq Ha. exists (mtp mem q), (mtp mem p). splits.
  - by apply (GetMedianTimePast_spec mem q bq).
  - by apply (GetMedianTimePast_spec mem p b).
  - by apply (mtp_monotone mem p b q).
Qed.

Lemma GetMedianTimePast_monotone_witness :
  exists t t', GetMedianTimePast ex_heap 1%positive = Ok t /\ GetMedianTimePast ex_heap 3%positive = Ok t' /\ t <= t'.
Proof.
  apply (GetMedianTimePast_monotone ex_heap 3%positive 1%positive
    (ex_entry 103 (Some 2%positive) (Some 1%positive) 2) (ex_entry 101 None None 0));
    [exact (proj1 ex_heap_ok)|exact ex_heap_times|vm_compute; reflexivity|vm_compute; reflexivity|].
  exists 2%nat. vm_compute. reflexivity.
Defined.
