(* ===== verification/Merkle.v ===== *)
(** * Merkle roots and branches: [src/consensus/merkle.cpp]

    [MerkleComputation] computes root, mutation flag and branch of a list of leaves
    in one pass with an array of 32 partial results.  The specification is the
    recursive tree in which a node without a right child is hashed with itself.
    The double-SHA256 of two concatenated hashes is the argument [hash2]. *)

From S2P Require Import Prelude.

Abbreviation uint256 := (list Z) (only parsing).
Definition uint256_zero : uint256 := replicate 32 0.

Section Merkle.
Context (hash2 : uint256 -> uint256 -> uint256).

(** [!(count & (((uint32_t)1) << level))] *)
Definition level_clear (count : Z) (level : nat) : bool :=
  Z.land count (u32 (Z.shiftl 1 (Z.of_nat level))) =? 0.

Definition inner_at (inner : list uint256) (level : nat) : result fault uint256 :=
  match inner !! level with Some x => Ok x | None => Err OutOfBounds end.

(** The update of the branch when two hashes are combined at [level]: the first
    argument tells whether a branch is wanted. *)
Definition branch_step (pbranch : bool) (matchlevel : Z) (level : nat) (x h : uint256)
  (matchh : bool) (branch : list uint256) : bool * list uint256 :=
  if pbranch then
    if matchh then (matchh, branch ++ [x])
    else if matchlevel =? Z.of_nat level then (true, branch ++ [h])
    else (matchh, branch)
  else (matchh, branch).

(** The inner [for] loop of the first phase: combine [h] upwards while the bits of
    [count] are zero.  Returns the level reached. *)
Fixpoint combine_loop (fuel : nat) (pbranch : bool) (count : Z) (inner : list uint256) (matchlevel : Z)
  (level : nat) (h : uint256) (matchh mutated : bool) (branch : list uint256)
  : result fault (nat * uint256 * bool * bool * list uint256) :=
  if level_clear count level then
    match fuel with
    | O => Err OutOfFuel
    | S fuel =>
      x ← inner_at inner level;
      let '(matchh, branch) := branch_step pbranch matchlevel level x h matchh branch in
      combine_loop fuel pbranch count inner matchlevel (S level) (hash2 x h) matchh
        (mutated || bool_decide (x = h)) branch
    end
  else Ok (level, h, matchh, mutated, branch).

(** First phase: process all leaves into [inner]. *)
Fixpoint process_leaves (pbranch : bool) (branchpos : Z) (leaves : list uint256) (count : Z)
  (inner : list uint256) (matchlevel : Z) (mutated : bool) (branch : list uint256)
  : result fault (Z * list uint256 * Z * bool * list uint256) :=
  match leaves with
  | [] => Ok (count, inner, matchlevel, mutated, branch)
  | leaf :: leaves =>
    let matchh := count =? branchpos in
    let count := u32 (count + 1) in
    let* (level, h, matchh, mutated, branch) := combine_loop 32 pbranch count inner matchlevel O leaf matchh mutated branch in
    _ ← inner_at inner level;
    process_leaves pbranch branchpos leaves count (<[level := h]> inner)
      (if matchh then Z.of_nat level else matchlevel) mutated branch
  end.

(** "As long as bit number level in count is zero, skip it." *)
Fixpoint first_level (fuel : nat) (count : Z) (level : nat) : result fault nat :=
  if level_clear count level then
    match fuel with O => Err OutOfFuel | S fuel => first_level fuel count (S level) end
  else Ok level.

(** "And propagate the result upwards accordingly." *)
Fixpoint sweep_up (fuel : nat) (pbranch : bool) (count : Z) (inner : list uint256) (matchlevel : Z)
  (level : nat) (h : uint256) (matchh : bool) (branch : list uint256)
  : result fault (nat * uint256 * bool * list uint256) :=
  if level_clear count level then
    match fuel with
    | O => Err OutOfFuel
    | S fuel =>
      x ← inner_at inner level;
      let '(matchh, branch) := branch_step pbranch matchlevel level x h matchh branch in
      sweep_up fuel pbranch count inner matchlevel (S level) (hash2 x h) matchh branch
    end
  else Ok (level, h, matchh, branch).

(** Second phase: the final sweep over the rightmost branch of the tree. *)
Fixpoint sweep (fuel : nat) (pbranch : bool) (count : Z) (inner : list uint256) (matchlevel : Z)
  (level : nat) (h : uint256) (matchh : bool) (branch : list uint256)
  : result fault (uint256 * list uint256) :=
  if count =? u32 (Z.shiftl 1 (Z.of_nat level)) then Ok (h, branch)
  else
    match fuel with
    | O => Err OutOfFuel
    | S fuel =>
      let branch := if pbranch && matchh then branch ++ [h] else branch in
      let count := u32 (count + u32 (Z.shiftl 1 (Z.of_nat level))) in
      let* (level, h, matchh, branch) := sweep_up 32 pbranch count inner matchlevel (S level) (hash2 h h) matchh branch in
      sweep fuel pbranch count inner matchlevel level h matchh branch
    end.

(** Returns [*proot], [*pmutated] and [*pbranch]. *)
Definition MerkleComputation (leaves : list uint256) (branchpos : Z) (pbranch : bool)
  : result fault (uint256 * bool * list uint256) :=
  match leaves with
  | [] => Ok (uint256_zero, false, [])
  | _ =>
    let* (count, inner, matchlevel, mutated, branch) := process_leaves pbranch branchpos leaves 0 (replicate 32 uint256_zero) (-1) false [] in
    level ← first_level 32 count O;
    h ← inner_at inner level;
    let* (h, branch) := sweep 32 pbranch count inner matchlevel level h (matchlevel =? Z.of_nat level) branch in
    Ok (h, mutated, branch)
  end.

(** [ComputeMerkleRoot]: [branchpos] is [-1], that is [0xffffffff]. *)
Definition ComputeMerkleRoot (leaves : list uint256) : result fault (uint256 * bool) :=
  let* (h, mutated, _) := MerkleComputation leaves (u32 (-1)) false in Ok (h, mutated).

Definition ComputeMerkleBranch (leaves : list uint256) (position : Z) : result fault (list uint256) :=
  let* (_, _, branch) := MerkleComputation leaves position true in Ok branch.

Fixpoint ComputeMerkleRootFromBranch (hash : uint256) (vMerkleBranch : list uint256) (nIndex : Z) : uint256 :=
  match vMerkleBranch with
  | [] => hash
  | x :: rest =>
    ComputeMerkleRootFromBranch
      (if negb (Z.land nIndex 1 =? 0) then hash2 x hash else hash2 hash x) rest (Z.shiftr nIndex 1)
  end.

(** [BlockMerkleRoot], [BlockWitnessMerkleRoot] and [BlockMerkleBranch] over the
    hashes ([GetHash], [GetWitnessHash]) of the block's transactions. *)
Definition BlockMerkleRoot (txids : list uint256) : result fault (uint256 * bool) := ComputeMerkleRoot txids.

Definition BlockWitnessMerkleRoot (wtxids : list uint256) : result fault (uint256 * bool) :=
  match wtxids with
  | [] => Err OutOfBounds
  | _ :: rest => ComputeMerkleRoot (uint256_zero :: rest)
  end.

Definition BlockMerkleBranch (txids : list uint256) (position : Z) : result fault (list uint256) :=
  ComputeMerkleBranch txids position.

(** ** Specification *)

(** The hash of the tree of height [h] over at most [2^h] leaves. *)
Fixpoint merkle_tree (h : nat) (l : list uint256) : uint256 :=
  match h with
  | O => hd uint256_zero l
  | S h =>
    if decide (length l <= 2 ^ h)%nat then let r := merkle_tree h l in hash2 r r
    else hash2 (merkle_tree h (take (2 ^ h) l)) (merkle_tree h (drop (2 ^ h) l))
  end.

(** The least height that fits [n] leaves. *)
Definition tree_height (n : nat) : nat := Nat.log2_up n.

Definition merkle_root (l : list uint256) : uint256 :=
  match l with [] => uint256_zero | _ => merkle_tree (tree_height (length l)) l end.

(** The node of height [k] and index [i] of the tree over [l]. *)
Definition node (l : list uint256) (k i : nat) : uint256 :=
  merkle_tree k (take (2 ^ k) (drop (i * 2 ^ k) l)).

(** Two sibling nodes, both over a full set of leaves, have the same hash. *)
Definition twin (l : list uint256) (n k i : nat) : Prop :=
  ((2 * i + 2) * 2 ^ k <= n)%nat /\ node l k (2 * i) = node l k (2 * i + 1).
End Merkle.

(** ** Lemmas *)

Lemma level_clear_spec (q L : nat) :
  (L < 32)%nat -> level_clear (Z.of_nat (q * 2 ^ L)) L = Nat.even q.
Proof.
  intros HL. unfold level_clear. rewrite u32_id.
  2:{ rewrite Z.shiftl_1_l. split; [apply Z.pow_nonneg; lia|]. apply Z.pow_lt_mono_r; lia. }
  rewrite land_bit_zero by lia. rewrite <- (Nat2Z.id L) at 2. rewrite Nat2Z.inj_mul, Nat2Z.inj_pow, Nat2Z.id.
  change (Z.of_nat 2) with 2. rewrite Z.testbit_odd, Z.shiftr_div_pow2, Z.div_mul by (lia || apply Z.pow_nonzero; lia).
  rewrite <- Z.negb_even, negb_involutive. apply eq_true_iff_eq. rewrite Nat.even_spec, Z.even_spec.
  split; [intros [m Hm]; exists (Z.to_nat m); lia|intros [m Hm]; exists (Z.of_nat m); lia].
Qed.

Lemma shift_level (L : nat) : (L < 32)%nat -> u32 (Z.shiftl 1 (Z.of_nat L)) = Z.of_nat (2 ^ L).
Proof.
  intros HL. rewrite Z.shiftl_1_l, Nat2Z.inj_pow. apply u32_id.
  split; [apply Z.pow_nonneg; lia|apply Z.pow_lt_mono_r; lia].
Qed.

Lemma pow2_pos k : (0 < 2 ^ k)%nat.
Proof. apply Nat.neq_0_lt_0, Nat.pow_nonzero. lia. Qed.

(** The power of two in a number with odd cofactor is maximal. *)
Lemma odd_pow_le (a q k j : nat) : (a * 2 ^ k = q * 2 ^ j)%nat -> Nat.odd q = true -> (k <= j)%nat.
Proof.
  intros H Ho. destruct (Nat.le_gt_cases k j) as [|Hlt]; [done|exfalso].
  replace k with (k - j - 1 + 1 + j)%nat in H by lia. rewrite !Nat.pow_add_r, !Nat.mul_assoc in H.
  apply Nat.mul_cancel_r in H; [|pose proof (pow2_pos j); lia].
  apply Nat.odd_spec in Ho. destruct Ho as [o ->]. cbn [Nat.pow] in H. lia.
Qed.

Lemma set_bit_above (q q' k L r : nat) :
  (q * 2 ^ L = q' * 2 ^ k + r)%nat -> (r < 2 ^ k)%nat -> Nat.odd q' = true -> (L <= k)%nat.
Proof.
  intros Hc Hr Ho. destruct (Nat.le_gt_cases L k) as [|Hlt]; [done|exfalso].
  replace L with (L - k - 1 + 1 + k)%nat in Hc by lia. rewrite !Nat.pow_add_r in Hc.
  set (P := (2 ^ (L - k - 1))%nat) in *. apply Nat.odd_spec in Ho. destruct Ho as [o ->].
  assert (2 * (q * P) = 2 * o + 1)%nat; [|lia]. cbn [Nat.pow] in Hc. nia.
Qed.

Section Proofs.
Context (hash2 : uint256 -> uint256 -> uint256) (l : list uint256).
Local Abbreviation n := (length l).
Local Abbreviation nd := (node hash2 l).

(** The node above two nodes, and above a node without a right sibling. *)
Lemma node_pair k i : ((2 * i + 1) * 2 ^ k < n)%nat -> nd (S k) i = hash2 (nd k (2 * i)) (nd k (2 * i + 1)).
Proof.
  intros H. unfold node. cbn [merkle_tree]. pose proof (pow2_pos k).
  rewrite decide_False.
  2:{ rewrite length_take, length_drop. cbn [Nat.pow]. lia. }
  f_equal; f_equal.
  - rewrite take_take. f_equal; [cbn [Nat.pow]; lia|]. f_equal. cbn [Nat.pow]. lia.
  - rewrite skipn_firstn_comm, drop_drop. f_equal; [cbn [Nat.pow]; lia|]. f_equal. cbn [Nat.pow]. lia.
Qed.

Lemma node_single k i :
  (2 * i * 2 ^ k < n <= (2 * i + 1) * 2 ^ k)%nat -> nd (S k) i = hash2 (nd k (2 * i)) (nd k (2 * i)).
Proof.
  intros H. unfold node. cbn [merkle_tree]. pose proof (pow2_pos k).
  rewrite decide_True.
  2:{ rewrite length_take, length_drop. cbn [Nat.pow]. lia. }
  assert (E : take (2 ^ S k) (drop (i * 2 ^ S k) l) = take (2 ^ k) (drop (2 * i * 2 ^ k) l)); [|by rewrite E].
  replace (i * 2 ^ S k)%nat with (2 * i * 2 ^ k)%nat by (cbn [Nat.pow]; lia).
  rewrite !take_ge; [done|..]; rewrite length_drop; cbn [Nat.pow]; lia.
Qed.

Lemma node_leaf i x : l !! i = Some x -> nd 0 i = x.
Proof.
  intros H. unfold node. cbn [merkle_tree Nat.pow]. rewrite Nat.mul_1_r.
  by rewrite (drop_S l x i H).
Qed.

(** [inner] after [c] leaves: the hash of the block of leaves for every bit of [c]. *)
Definition inner_ok (c : nat) (inner : list uint256) : Prop :=
  length inner = 32%nat /\
  forall k q r, (c = q * 2 ^ k + r)%nat -> (r < 2 ^ k)%nat -> Nat.odd q = true -> inner !! k = Some (nd k (q - 1)).

(** The branch of leaf [pos] up to level [k]: folding it gives the node above the leaf. *)
Definition branch_ok (pos k : nat) (x : uint256) (branch : list uint256) (i : nat) : Prop :=
  length branch = k /\ (pos / 2 ^ k = i)%nat
  /\ ComputeMerkleRootFromBranch hash2 x branch (Z.of_nat pos) = nd k i.

Definition match_ok (pos : nat) (x : uint256) (c : nat) (matchlevel : Z) (branch : list uint256) (L : nat) : Prop :=
  ((c <= pos)%nat /\ matchlevel = -1 /\ branch = [])
  \/ exists k q r, (L <= k)%nat /\ (c = q * 2 ^ k + r)%nat /\ (r < 2 ^ k)%nat /\ Nat.odd q = true
       /\ matchlevel = Z.of_nat k /\ branch_ok pos k x branch (q - 1).

Lemma from_branch_app br : forall h y pos,
  ComputeMerkleRootFromBranch hash2 h (br ++ [y]) (Z.of_nat pos)
  = let r := ComputeMerkleRootFromBranch hash2 h br (Z.of_nat pos) in
    if Nat.odd (pos / 2 ^ length br) then hash2 y r else hash2 r y.
Proof.
  induction br as [|z br IH]; intros h y pos; cbn [app ComputeMerkleRootFromBranch length].
  - rewrite Nat.pow_0_r, Nat.div_1_r. cbv zeta.
    replace (Z.land (Z.of_nat pos) 1) with (Z.of_nat pos mod 2) by (by rewrite <- (Z.land_ones _ 1)).
    rewrite Zmod_odd. replace (Z.odd (Z.of_nat pos)) with (Nat.odd pos).
    + by destruct (Nat.odd pos).
    + apply eq_true_iff_eq. rewrite Nat.odd_spec, Z.odd_spec.
      split; [intros [m Hm]; exists (Z.of_nat m); lia|intros [m Hm]; exists (Z.to_nat m); lia].
  - rewrite Z.shiftr_div_pow2 by lia. change (2 ^ 1) with (Z.of_nat 2). rewrite <- Nat2Z.inj_div, IH. cbv zeta.
    by rewrite Nat.Div0.div_div.
Qed.

Lemma branch_ok_right pos k x br i y :
  branch_ok pos k x br (2 * i + 1) -> ((2 * i + 1) * 2 ^ k < n)%nat -> y = nd k (2 * i) ->
  branch_ok pos (S k) x (br ++ [y]) i.
Proof.
  intros (Hlen & Hp & Hf) Hn ->. unfold branch_ok. rewrite length_app, from_branch_app, Hlen. cbv zeta. rewrite Hp, Hf.
  splits; [cbn; lia| |].
  - rewrite Nat.pow_succ_r', Nat.mul_comm, <- Nat.Div0.div_div, Hp. symmetry. apply (Nat.div_unique _ 2 i 1); lia.
  - replace (Nat.odd (2 * i + 1)) with true; [by rewrite node_pair|].
    symmetry. apply Nat.odd_spec. by exists i.
Qed.

Lemma branch_ok_left pos k x br i y :
  branch_ok pos k x br (2 * i) -> (2 * i * 2 ^ k < n)%nat -> hash2 (nd k (2 * i)) y = nd (S k) i ->
  branch_ok pos (S k) x (br ++ [y]) i.
Proof.
  intros (Hlen & Hp & Hf) Hn Hy. unfold branch_ok. rewrite length_app, from_branch_app, Hlen. cbv zeta. rewrite Hp, Hf.
  splits; [cbn; lia| |].
  - rewrite Nat.pow_succ_r', Nat.mul_comm, <- Nat.Div0.div_div, Hp. symmetry. apply (Nat.div_unique _ 2 i 0); lia.
  - replace (Nat.odd (2 * i)) with false; [done|]. symmetry. rewrite <- Nat.negb_even. by rewrite Nat.even_mul.
Qed.

(** While the node [h] of level [L] and index [i] is being combined: the branch leads
    either to [h] or to a node stored in [inner] at or above [L]. *)
Definition current_ok (pos : nat) (x : uint256) (c : nat) (matchlevel : Z) (L i : nat) (matchh : bool)
  (branch : list uint256) : Prop :=
  if matchh then branch_ok pos L x branch i else c <> pos /\ match_ok pos x c matchlevel branch L.

(** One combination of [inner[L]], of index [2 * i], with [h], of index [2 * i + 1]. *)
Lemma current_ok_step pos x c ml L i matchh branch b' br' :
  current_ok pos x c ml L (2 * i + 1) matchh branch -> ((2 * i + 1) * 2 ^ L < n)%nat ->
  (exists r, (c = (2 * i + 1) * 2 ^ L + r)%nat /\ (r < 2 ^ L)%nat) ->
  branch_step true ml L (nd L (2 * i)) (nd L (2 * i + 1)) matchh branch = (b', br') ->
  current_ok pos x c ml (S L) i b' br'.
Proof.
  intros Hcur Hn (r & Hc & Hr) Hstep. unfold branch_step in Hstep. destruct matchh; cbn [current_ok] in Hcur.
  { injection Hstep as <- <-. cbn. by apply branch_ok_right. }
  destruct (Z.eqb_spec ml (Z.of_nat L)) as [->|Hne]; injection Hstep as <- <-; cbn.
  - destruct Hcur as [_ [(_ & ? & _)|(k & q & r' & HL & Hc' & Hr' & Hodd & Hml & Hb)]]; [lia|].
    assert (k = L) as -> by lia.
    assert (q = 2 * i + 1)%nat as -> by nia.
    replace (2 * i + 1 - 1)%nat with (2 * i)%nat in Hb by lia.
    apply branch_ok_left; [done|lia|]. symmetry. by apply node_pair.
  - destruct Hcur as [Hcp [H|(k & q & r' & HL & Hrest)]]; (split; [done|]); [by left|right].
    exists k, q, r'. split; [|done]. destruct Hrest as (_ & _ & _ & -> & _). lia.
Qed.

Lemma even_double q : Nat.even q = true -> exists m, q = (2 * m)%nat.
Proof. intros H. apply Nat.even_spec in H. destruct H as [m ->]. by exists m. Qed.

Lemma combine_loop_spec fuel : forall pos x pbranch c inner ml L q h matchh mutated branch,
  (S c = q * 2 ^ L)%nat -> 0 < Z.of_nat q < 2 ^ Z.of_nat fuel -> (L + fuel <= 32)%nat -> (S c <= n)%nat ->
  inner_ok c inner -> h = nd L (q - 1) ->
  (pbranch = true -> current_ok pos x c ml L (q - 1) matchh branch) ->
  exists L' q' h' matchh' mutated' branch',
    combine_loop hash2 fuel pbranch (Z.of_nat (S c)) inner ml L h matchh mutated branch
      = Ok (L', h', matchh', mutated', branch')
    /\ (S c = q' * 2 ^ L')%nat /\ Nat.odd q' = true /\ (L' < 32)%nat /\ h' = nd L' (q' - 1)
    /\ (pbranch = true -> current_ok pos x c ml L' (q' - 1) matchh' branch')
    /\ (mutated' = true <-> mutated = true \/
          exists k i, (L <= k < L')%nat /\ ((2 * i + 2) * 2 ^ k = S c)%nat /\ nd k (2 * i) = nd k (2 * i + 1)).
Proof.
  induction fuel as [|fuel IH]; intros pos x pbranch c inner ml L q h matchh mutated branch Hc Hq HL Hn Hin -> Hcur;
    [cbn in Hq; lia|].
  cbn [combine_loop]. rewrite Hc, level_clear_spec by lia. destruct (Nat.even q) eqn:Eq.
  2:{ exists L, q, (nd L (q - 1)), matchh, mutated, branch. splits; try done; [by rewrite <- Nat.negb_even, Eq|lia|].
      split; [by left|]. intros [?|(k & i & ? & _)]; [done|lia]. }
  apply even_double in Eq. destruct Eq as [m ->]. destruct m as [|i]; [lia|].
  replace (2 * S i - 1)%nat with (2 * i + 1)%nat in * by lia. pose proof (pow2_pos L).
  assert (Hsplit : (c = (2 * i + 1) * 2 ^ L + (2 ^ L - 1))%nat) by lia.
  assert (Hx : inner !! L = Some (nd L (2 * i))).
  { replace (2 * i)%nat with (2 * i + 1 - 1)%nat by lia. apply (proj2 Hin _ _ _ Hsplit); [lia|].
    apply Nat.odd_spec. by exists i. }
  unfold inner_at. rewrite Hx. cbn [mbind result_bind].
  destruct (branch_step _ _ _ _ _ _ _) as [mh' br'] eqn:Est.
  rewrite <- Hc.
  destruct (IH pos x pbranch c inner ml (S L) (S i) (hash2 (nd L (2 * i)) (nd L (2 * i + 1))) mh'
    (mutated || bool_decide (nd L (2 * i) = nd L (2 * i + 1))) br')
    as (L' & q' & h' & mh & mu & br & -> & Hc' & Ho & HL' & Hh & Hcur' & Hmu).
  - rewrite Hc. cbn [Nat.pow]. lia.
  - rewrite Nat2Z.inj_succ, Z.pow_succ_r in Hq by lia. lia.
  - lia.
  - lia.
  - done.
  - replace (S i - 1)%nat with i by lia. rewrite node_pair; [done|lia].
  - intros ->. replace (S i - 1)%nat with i by lia. eapply current_ok_step; eauto; [lia|].
    exists (2 ^ L - 1)%nat. lia.
  - exists L', q', h', mh, mu, br. splits; try done. rewrite Hmu, orb_true_iff, bool_decide_eq_true. clear Hmu.
    split.
    + intros [[?|?]|(k & j & ? & ? & ?)]; [by left|right; exists L, i|right; exists k, j]; splits; try done; try lia.
      apply (odd_pow_le (S i) q' (S L) L'); [cbn [Nat.pow]; lia|done].
    + intros [?|(k & j & Hk & Hj & ?)]; [by left; left|]. destruct (decide (k = L)) as [->|Hne].
      * left; right. assert (j = i) as -> by nia. done.
      * right. exists k, j. splits; try done; lia.
Qed.

Lemma inner_ok_store c inner L q :
  inner_ok c inner -> (S c = q * 2 ^ L)%nat -> Nat.odd q = true -> (L < 32)%nat ->
  inner_ok (S c) (<[L := nd L (q - 1)]> inner).
Proof.
  intros [Hlen Hin] Hc Ho HL. split; [by rewrite length_insert|].
  intros k q' r Hk Hr Ho'. destruct (decide (k = L)) as [->|Hne].
  - rewrite list_lookup_insert_eq by lia. assert (q' = q) as ->; [|done]. pose proof (pow2_pos L). nia.
  - rewrite list_lookup_insert_ne by done.
    destruct (Nat.lt_ge_cases k L) as [Hlt|Hge].
    { assert (L <= k)%nat by (apply (set_bit_above q q' k L r); [lia|done|done]). lia. }
    destruct r as [|r]; [assert (k <= L)%nat by (apply (odd_pow_le q' q); [lia|done]); lia|].
    apply (Hin k q' r); [lia|lia|done].
Qed.

Lemma match_ok_finish pos x c ml L q matchh branch :
  current_ok pos x c ml L (q - 1) matchh branch -> (S c = q * 2 ^ L)%nat -> Nat.odd q = true ->
  match_ok pos x (S c) (if matchh then Z.of_nat L else ml) branch 0.
Proof.
  intros Hcur Hc Ho. destruct matchh; cbn [current_ok] in Hcur.
  - right. exists L, q, 0%nat. pose proof (pow2_pos L). splits; try done; lia.
  - destruct Hcur as [Hcp [(Hle & -> & ->)|(k & q' & r & HL & Hk & Hr & Ho' & -> & Hb)]].
    + left. splits; try done. lia.
    + right. exists k, q', (S r). splits; try done; try lia.
      destruct (decide (S r = 2 ^ k)%nat) as [E|]; [|lia]. exfalso.
      assert (k <= L)%nat by (apply (odd_pow_le (S q') q); [lia|done]). assert (k = L) as -> by lia.
      assert (q = S q') as -> by (pose proof (pow2_pos L); nia).
      rewrite Nat.odd_succ, <- Nat.negb_odd, Ho' in Ho. done.
Qed.

Definition mutated_ok (c : nat) (mutated : bool) : Prop := mutated = true <-> exists k i, twin hash2 l c k i.

Lemma mutated_ok_step c q L mutated mutated' :
  mutated_ok c mutated -> (S c = q * 2 ^ L)%nat -> Nat.odd q = true ->
  (mutated' = true <-> mutated = true \/
     exists k i, (0 <= k < L)%nat /\ ((2 * i + 2) * 2 ^ k = S c)%nat /\ nd k (2 * i) = nd k (2 * i + 1)) ->
  mutated_ok (S c) mutated'.
Proof.
  intros Hm Hc Ho H. unfold mutated_ok in *. rewrite H, Hm. unfold twin. split.
  - intros [(k & i & Hle & He)|(k & i & _ & Hle & He)]; exists k, i; split; try done; lia.
  - intros (k & i & Hle & He). destruct (decide ((2 * i + 2) * 2 ^ k = S c)%nat) as [E|].
    + right. exists k, i. splits; try done; [lia|].
      apply (odd_pow_le (i + 1) q (S k) L); [cbn [Nat.pow]; lia|done].
    + left. exists k, i. split; [lia|done].
Qed.

(** The first phase. *)
Lemma process_leaves_spec rest : forall pos x pbranch branchpos c inner ml mutated branch,
  Z.of_nat n <= 2 ^ 31 -> drop c l = rest -> (c <= n)%nat -> inner_ok c inner -> mutated_ok c mutated ->
  (pbranch = true -> branchpos = Z.of_nat pos /\ l !! pos = Some x) ->
  (pbranch = true -> match_ok pos x c ml branch 0) ->
  exists inner' ml' mutated' branch',
    process_leaves hash2 pbranch branchpos rest (Z.of_nat c) inner ml mutated branch
      = Ok (Z.of_nat n, inner', ml', mutated', branch')
    /\ inner_ok n inner' /\ mutated_ok n mutated' /\ (pbranch = true -> match_ok pos x n ml' branch' 0).
Proof.
  induction rest as [|y rest IH]; intros pos x pbranch branchpos c inner ml mutated branch Hmax Hd Hc Hin Hmu Hpos Hm.
  - assert (c = n) as ->. { apply (f_equal length) in Hd. rewrite length_drop in Hd. cbn in Hd. lia. }
    cbn [process_leaves]. by exists inner, ml, mutated, branch.
  - cbn [process_leaves].
    assert (Hcn : (c < n)%nat). { apply (f_equal length) in Hd. rewrite length_drop in Hd. cbn in Hd. lia. }
    assert (Hy : l !! c = Some y) by (rewrite <- (Nat.add_0_r c), <- lookup_drop, Hd; done).
    rewrite (u32_id (Z.of_nat c + 1)) by (ranges; lia).
    replace (Z.of_nat c + 1) with (Z.of_nat (S c)) by lia.
    destruct (combine_loop_spec 32 pos x pbranch c inner ml 0 (S c) y (Z.of_nat c =? branchpos) mutated branch)
      as (L & q & h & mh & mu & br & -> & Hq & Ho & HL & Hh & Hcur & Hmu'); try done; try lia.
    + cbn. lia.
    + rewrite Nat.sub_1_r. cbn [Nat.pred]. symmetry. by apply node_leaf.
    + intros Hp. rewrite Nat.sub_1_r. cbn [Nat.pred]. destruct (Hpos Hp) as [-> Hx].
      destruct (Z.eqb_spec (Z.of_nat c) (Z.of_nat pos)) as [E|E]; cbn; [|split; [lia|by apply Hm]].
      assert (c = pos) as -> by lia. rewrite Hy in Hx. injection Hx as <-.
      destruct (Hm Hp) as [(_ & _ & ->)|(k & q & r & _ & Hk & Hr & Ho & _ & _ & Hdiv & _)].
      * unfold branch_ok. rewrite Nat.div_1_r. splits; try done. symmetry. by apply node_leaf.
      * exfalso. assert (q <= pos / 2 ^ k)%nat by (apply Nat.div_le_lower_bound; pose proof (pow2_pos k); lia).
        destruct q; [done|lia].
    + cbn [mbind result_bind]. unfold inner_at.
      destruct (lookup_lt_is_Some_2 inner L) as [z ->]; [destruct Hin; lia|]. cbn [mbind result_bind]. subst h.
      apply (IH pos x pbranch branchpos (S c)); try done.
      * by rewrite <- Nat.add_1_r, <- drop_drop, Hd.
      * by apply inner_ok_store.
      * by apply (mutated_ok_step c q L mutated).
      * intros Hp. apply match_ok_finish with (q := q); try done. by apply Hcur.
Qed.

Lemma pow2_bound (q L : nat) : (0 < q)%nat -> Z.of_nat (q * 2 ^ L) <= 2 ^ 31 -> (L <= 31 /\ q <= 2 ^ (31 - L))%nat.
Proof.
  intros Hq H. rewrite Nat2Z.inj_mul, Nat2Z.inj_pow in H. change (Z.of_nat 2) with 2 in H.
  assert (HL : (L <= 31)%nat).
  { destruct (Nat.le_gt_cases L 31) as [|Hgt]; [done|exfalso].
    assert (2 ^ 32 <= 2 ^ Z.of_nat L) by (apply Z.pow_le_mono_r; lia). nia. }
  split; [done|]. apply Nat2Z.inj_le. rewrite Nat2Z.inj_pow. change (Z.of_nat 2) with 2.
  replace (2 ^ 31) with (2 ^ Z.of_nat (31 - L) * 2 ^ Z.of_nat L) in H
    by (rewrite <- Z.pow_add_r by lia; f_equal; lia).
  apply Z.mul_le_mono_pos_r in H; [done|apply Z.pow_pos_nonneg; lia].
Qed.

Lemma pow2_halve L : (L < 31)%nat -> (2 ^ (31 - L) = 2 * 2 ^ (31 - S L))%nat.
Proof. intros H. rewrite <- Nat.pow_succ_r'. f_equal. lia. Qed.

Lemma first_level_spec fuel : forall c q L,
  (c = q * 2 ^ L)%nat -> (0 < q)%nat -> (L <= 31 /\ q <= 2 ^ (31 - L))%nat -> (31 - L < fuel)%nat ->
  exists L' q', first_level fuel (Z.of_nat c) L = Ok L' /\ (c = q' * 2 ^ L')%nat /\ Nat.odd q' = true
    /\ (0 < q' /\ L' <= 31 /\ q' <= 2 ^ (31 - L'))%nat.
Proof.
  induction fuel as [|fuel IH]; intros c q L Hc Hq [HL Hle] Hf; [lia|].
  cbn [first_level]. rewrite Hc, level_clear_spec by lia. destruct (Nat.even q) eqn:Eq.
  2:{ exists L, q. splits; try done. by rewrite <- Nat.negb_even, Eq. }
  apply even_double in Eq. destruct Eq as [m ->].
  assert (L < 31)%nat. { destruct (decide (L = 31%nat)) as [->|]; [cbn in Hle; lia|lia]. }
  rewrite pow2_halve in Hle by done.
  apply (IH (2 * m * 2 ^ L)%nat m (S L)); [cbn [Nat.pow]; lia|lia|lia|lia].
Qed.

(** The node [q - 1] of level [L] is the last one, and level [L] is not above the root. *)
Definition sweep_at (q L : nat) : Prop :=
  (0 < q)%nat /\ (L <= 31)%nat /\ (q <= 2 ^ (31 - L))%nat /\ ((q - 1) * 2 ^ L < n <= q * 2 ^ L)%nat /\ (2 ^ L < 2 * n)%nat.

Lemma sweep_up_spec fuel : forall pos x pbranch inner ml L q h matchh branch,
  sweep_at q L -> (n < q * 2 ^ L)%nat -> (31 - L < fuel)%nat -> (pos < n)%nat ->
  inner_ok n inner -> h = nd L (q - 1) ->
  (pbranch = true -> current_ok pos x n ml L (q - 1) matchh branch) ->
  exists L' q' h' matchh' branch',
    sweep_up hash2 fuel pbranch (Z.of_nat (q * 2 ^ L)) inner ml L h matchh branch = Ok (L', h', matchh', branch')
    /\ (L <= L')%nat /\ (q' * 2 ^ L' = q * 2 ^ L)%nat
    /\ sweep_at q' L' /\ Nat.odd q' = true /\ h' = nd L' (q' - 1)
    /\ (pbranch = true -> current_ok pos x n ml L' (q' - 1) matchh' branch').
Proof.
  induction fuel as [|fuel IH]; intros pos x pbranch inner ml L q h matchh branch Hat Hlt Hf Hpos Hin -> Hcur; [lia|].
  pose proof Hat as (Hq0 & HL & Hq & Hn & H2). cbn [sweep_up]. rewrite level_clear_spec by lia.
  destruct (Nat.even q) eqn:Eq.
  2:{ exists L, q, (nd L (q - 1)), matchh, branch. splits; try done. by rewrite <- Nat.negb_even, Eq. }
  apply even_double in Eq. destruct Eq as [m ->]. destruct m as [|i]; [lia|].
  assert (HL' : (L < 31)%nat). { destruct (decide (L = 31%nat)) as [->|]; [cbn in Hq; lia|lia]. }
  rewrite pow2_halve in Hq by done.
  replace (2 * S i - 1)%nat with (2 * i + 1)%nat in * by lia. pose proof (pow2_pos L) as HP.
  assert (Hx : inner !! L = Some (nd L (2 * i))).
  { replace (2 * i)%nat with (2 * i + 1 - 1)%nat by lia.
    apply (proj2 Hin L (2 * i + 1)%nat (n - (2 * i + 1) * 2 ^ L)%nat); [lia|lia|].
    apply Nat.odd_spec. by exists i. }
  unfold inner_at. rewrite Hx. cbn [mbind result_bind].
  destruct (branch_step _ _ _ _ _ _ _) as [mh' br'] eqn:Est.
  replace (2 * S i * 2 ^ L)%nat with (S i * 2 ^ S L)%nat by (cbn [Nat.pow]; lia).
  destruct (IH pos x pbranch inner ml (S L) (S i) (hash2 (nd L (2 * i)) (nd L (2 * i + 1))) mh' br')
    as (L' & q' & h' & mh & br & -> & Hle & Hrest); try done; try lia.
  - unfold sweep_at. rewrite Nat.sub_1_r. cbn [Nat.pred Nat.pow]. splits; lia.
  - cbn [Nat.pow]. lia.
  - rewrite Nat.sub_1_r. cbn [Nat.pred]. rewrite node_pair; [done|lia].
  - intros ->. rewrite Nat.sub_1_r. cbn [Nat.pred]. eapply current_ok_step; eauto; [lia|].
    exists (n - (2 * i + 1) * 2 ^ L)%nat. lia.
  - exists L', q', h', mh, br. splits; try done; [lia|apply Hrest..].
Qed.

(** Duplicating the last node of a level. *)
Lemma current_ok_dup pos x ml L i matchh branch :
  current_ok pos x n ml L (2 * i) matchh branch -> (2 * i * 2 ^ L < n <= (2 * i + 1) * 2 ^ L)%nat -> (pos < n)%nat ->
  (n < (2 * i + 1) * 2 ^ L)%nat \/ matchh = (ml =? Z.of_nat L) ->
  current_ok pos x n ml (S L) i matchh (if matchh then branch ++ [nd L (2 * i)] else branch).
Proof.
  intros Hcur Hn Hpos Hml. destruct matchh; cbn [current_ok] in *.
  - apply branch_ok_left; [done|lia|]. symmetry. by apply node_single.
  - destruct Hcur as [Hcp [(Hle & _)|(k & q & r & HL & Hk & Hr & Ho & Hkl & Hb)]]; [lia|]. split; [done|right].
    exists k, q, r. splits; try done. destruct (decide (k = L)) as [->|]; [exfalso|lia].
    destruct Hml as [Hlt|Hml]; [|subst ml; by rewrite Z.eqb_refl in Hml].
    assert (q = 2 * i)%nat as -> by nia. rewrite Nat.odd_mul in Ho. done.
Qed.

(** The second phase ends at the root. *)
Lemma sweep_spec fuel : forall pos x pbranch inner ml L q h matchh branch,
  sweep_at q L -> Nat.odd q = true -> (31 - L <= fuel)%nat -> (pos < n)%nat ->
  inner_ok n inner -> h = nd L (q - 1) ->
  (n < q * 2 ^ L)%nat \/ matchh = (ml =? Z.of_nat L) ->
  (pbranch = true -> current_ok pos x n ml L (q - 1) matchh branch) ->
  exists R branch', sweep hash2 fuel pbranch (Z.of_nat (q * 2 ^ L)) inner ml L h matchh branch = Ok (nd R 0, branch')
    /\ (n <= 2 ^ R < 2 * n)%nat
    /\ (pbranch = true -> branch_ok pos R x branch' 0).
Proof.
  induction fuel as [|fuel IH]; intros pos x pbranch inner ml L q h matchh branch Hat Ho Hf Hpos Hin -> Hml Hcur;
    pose proof Hat as (Hq0 & HL & Hq & Hn & H2); cbn [sweep]; rewrite shift_level by lia;
    (destruct (Z.eqb_spec (Z.of_nat (q * 2 ^ L)) (Z.of_nat (2 ^ L))) as [E|E];
     [assert (q = 1)%nat as -> by (pose proof (pow2_pos L); nia);
      exists L, branch; splits; [done|lia|lia|]; intros Hp; specialize (Hcur Hp); destruct matchh; [done|];
      destruct Hcur as [_ [(? & _)|(k & q & r & HLk & Hk & Hr & Hok & Hkl & Hb)]]; [lia|];
      assert (Hq1 : (1 <= q)%nat) by (destruct q; [done|lia]);
      assert (HP : (2 ^ L <= 2 ^ k)%nat) by (apply Nat.pow_le_mono_r; lia);
      assert (2 ^ k <= 2 ^ L)%nat by nia;
      assert (k = L) as -> by (apply (Nat.pow_inj_r 2); lia);
      destruct Hml as [?|Hml]; [nia|subst ml; by rewrite Z.eqb_refl in Hml]|]).
  { assert (L = 31)%nat as -> by lia. assert (q = 1)%nat as -> by (cbn in Hq; lia). by rewrite Nat.mul_1_l in E. }
  apply Nat.odd_spec in Ho. destruct Ho as [i ->].
  replace (2 * i + 1 - 1)%nat with (2 * i)%nat in * by lia.
  assert (Hi : (1 <= i)%nat) by (destruct i; [by rewrite Nat.mul_1_l in E|lia]).
  assert (HL' : (L < 31)%nat). { destruct (decide (L = 31%nat)) as [->|]; [cbn in Hq; lia|lia]. }
  pose proof Hq as Hq'. rewrite pow2_halve in Hq' by done. pose proof (pow2_pos L) as HP.
  assert (Hat' : sweep_at (i + 1) (S L)).
  { unfold sweep_at. rewrite Nat.add_sub. cbn [Nat.pow]. splits; try lia; nia. }
  replace (u32 (Z.of_nat ((2 * i + 1) * 2 ^ L) + Z.of_nat (2 ^ L))) with (Z.of_nat ((i + 1) * 2 ^ S L)).
  2:{ rewrite u32_id; [cbn [Nat.pow]; lia|]. ranges.
      assert (Hb : Z.of_nat ((i + 1) * 2 ^ S L) <= 2 ^ 31).
      { destruct Hat' as (_ & HSL & HqS & _). replace (2 ^ 31) with (Z.of_nat (2 ^ (31 - S L)) * Z.of_nat (2 ^ S L)).
        - rewrite <- Nat2Z.inj_mul. apply inj_le, Nat.mul_le_mono_r. done.
        - rewrite !Nat2Z.inj_pow, <- Z.pow_add_r by lia. change (Z.of_nat 2) with 2. f_equal. lia. }
      cbn [Nat.pow] in Hb. lia. }
  destruct (sweep_up_spec 32 pos x pbranch inner ml (S L) (i + 1) (hash2 (nd L (2 * i)) (nd L (2 * i))) matchh
     (if pbranch && matchh then branch ++ [nd L (2 * i)] else branch))
    as (L' & q' & h' & mh & br & -> & Hle & Heq & Hat2 & Ho' & Hh' & Hcur'); try done; try lia.
  - cbn [Nat.pow]. nia.
  - rewrite Nat.add_sub, node_single; [done|lia].
  - intros ->. rewrite Nat.add_sub. apply current_ok_dup; try done. by apply Hcur.
  - cbn [mbind result_bind]. rewrite <- Heq. apply (IH pos x pbranch inner ml L' q' h' mh br); try done; [lia|].
    left. rewrite Heq. cbn [Nat.pow]. nia.
Qed.

Lemma root_of_node R : (n <= 2 ^ R < 2 * n)%nat -> nd R 0 = merkle_root hash2 l.
Proof.
  intros H. unfold node, merkle_root. rewrite Nat.mul_0_l, drop_0, take_ge by lia.
  replace (tree_height n) with R; [destruct l; [cbn in H; lia|done]|].
  unfold tree_height. destruct R as [|R]; [replace n with 1%nat by (cbn in H; lia); done|].
  symmetry. apply Nat.log2_up_unique; [lia|]. cbn [Nat.pred]. cbn [Nat.pow] in H |- *. lia.
Qed.

Lemma MerkleComputation_spec pos x pbranch branchpos :
  (0 < n)%nat -> Z.of_nat n <= 2 ^ 31 -> (pos < n)%nat ->
  (pbranch = true -> branchpos = Z.of_nat pos /\ l !! pos = Some x) ->
  exists mutated branch,
    MerkleComputation hash2 l branchpos pbranch = Ok (merkle_root hash2 l, mutated, branch)
    /\ mutated_ok n mutated
    /\ (pbranch = true -> ComputeMerkleRootFromBranch hash2 x branch (Z.of_nat pos) = merkle_root hash2 l).
Proof.
  intros Hn Hmax Hpos Hb. unfold MerkleComputation.
  destruct (process_leaves_spec l pos x pbranch branchpos 0 (replicate 32 uint256_zero) (-1) false [])
    as (inner & ml & mu & br & Hp & Hin & Hmu & Hm); try done.
  { lia. }
  { split; [done|]. intros k q r Hk Hr Ho. destruct q; [done|]. pose proof (pow2_pos k). lia. }
  { split; [done|]. intros (k & i & Hle & _). pose proof (pow2_pos k). nia. }
  { left. splits; try done. lia. }
  change (Z.of_nat 0) with 0 in Hp.
  assert (Hl : match l with [] => Ok (uint256_zero, false, []) | _ :: _ =>
    let* (count, inner, matchlevel, mutated, branch) :=
      process_leaves hash2 pbranch branchpos l 0 (replicate 32 uint256_zero) (-1) false [] in
    level ← first_level 32 count 0;
    h ← inner_at inner level;
    let* (h, branch) := sweep hash2 32 pbranch count inner matchlevel level h (matchlevel =? Z.of_nat level) branch in
    Ok (h, mutated, branch) end =
    (level ← first_level 32 (Z.of_nat n) 0;
    h ← inner_at inner level;
    let* (h, branch) := sweep hash2 32 pbranch (Z.of_nat n) inner ml level h (ml =? Z.of_nat level) br in
    Ok (h, mu, branch))).
  { rewrite Hp. by destruct l; [cbn in Hn; lia|]. }
  rewrite Hl. clear Hl Hp.
  destruct (first_level_spec 32 n n 0) as (L & q & -> & HnL & Ho & Hq0 & HL & Hq); try lia.
  { by rewrite Nat.pow_0_r, Nat.mul_1_r. }
  { apply (pow2_bound n 0); [done|]. by rewrite Nat.pow_0_r, Nat.mul_1_r. }
  cbn [mbind result_bind]. pose proof (pow2_pos L) as HP.
  assert (Hinner : inner !! L = Some (nd L (q - 1))) by (apply (proj2 Hin L q 0%nat); [lia|lia|done]).
  unfold inner_at. rewrite Hinner. cbn [mbind result_bind].
  replace (Z.of_nat n) with (Z.of_nat (q * 2 ^ L)) by (f_equal; lia).
  destruct (sweep_spec 32 pos x pbranch inner ml L q (nd L (q - 1)) (ml =? Z.of_nat L) br)
    as (R & br' & -> & HR & Hbr); try done; try lia.
  - unfold sweep_at. splits; try done; try lia. nia.
  - intros Hp. destruct (Hm Hp) as [(? & _)|(k & q' & r & _ & Hk & Hr & Ho' & -> & Hbk)]; [lia|].
    assert (HLk : (L <= k)%nat) by (apply (set_bit_above q q' k L r); [lia|done|done]).
    destruct (Z.eqb_spec (Z.of_nat k) (Z.of_nat L)) as [E|E]; cbn.
    + assert (k = L) as -> by lia. assert (q' = q) as -> by nia. done.
    + split; [lia|right]. exists k, q', r. by splits.
  - exists mu, br'. rewrite root_of_node by done. splits; try done.
    intros Hp. destruct (Hbr Hp) as (_ & _ & ->). by apply root_of_node.
Qed.
End Proofs.

(** ** Padded leaves and repeated subtrees *)

Section Binding.
Context (hash2 : uint256 -> uint256 -> uint256).

(** The leaves of the full tree of height [h], with the duplicated ones. *)
Fixpoint pad (h : nat) (l : list uint256) : list uint256 :=
  match h with
  | O => take 1 l
  | S h => if decide (length l <= 2 ^ h)%nat then pad h l ++ pad h l
           else pad h (take (2 ^ h) l) ++ pad h (drop (2 ^ h) l)
  end.

Lemma pad_length h : forall l, (0 < length l)%nat -> length (pad h l) = (2 ^ h)%nat.
Proof.
  induction h as [|h IH]; intros l Hl; cbn [pad].
  - rewrite length_take. change (2 ^ 0)%nat with 1%nat. lia.
  - pose proof (pow2_pos h). destruct (decide _); rewrite length_app;
      rewrite !IH by (rewrite ?length_take, ?length_drop; lia); cbn [Nat.pow]; lia.
Qed.

Lemma pad_full h : forall l, length l = (2 ^ h)%nat -> pad h l = l.
Proof.
  induction h as [|h IH]; intros l Hl; cbn [pad]; cbn [Nat.pow] in Hl.
  - by rewrite take_ge by lia.
  - pose proof (pow2_pos h). rewrite decide_False by lia. rewrite !IH by (rewrite ?length_take, ?length_drop; lia). apply take_drop.
Qed.

Lemma pad_prefix h : forall l, (0 < length l <= 2 ^ h)%nat -> take (length l) (pad h l) = l.
Proof.
  induction h as [|h IH]; intros l Hl; cbn [pad]; cbn [Nat.pow] in Hl.
  - rewrite (take_ge l 1) by lia. by apply take_ge.
  - pose proof (pow2_pos h). destruct (decide _).
    + rewrite take_app_le by (rewrite pad_length; lia). apply IH. lia.
    + rewrite (pad_full h (take _ _)) by (rewrite length_take; lia).
      replace (length l) with (length (take (2 ^ h) l) + length (drop (2 ^ h) l))%nat
        by (rewrite length_take, length_drop; lia).
      rewrite take_app_add, IH by (rewrite length_drop; lia). apply take_drop.
Qed.

Definition has_twin (l : list uint256) : Prop := exists k i, twin hash2 l (length l) k i.

Lemma node_take l h k i : ((i + 1) * 2 ^ k <= 2 ^ h)%nat -> node hash2 (take (2 ^ h) l) k i = node hash2 l k i.
Proof.
  intros H. unfold node. f_equal. rewrite skipn_firstn_comm, take_take. f_equal. lia.
Qed.

Lemma node_drop l h k i :
  (k <= h)%nat -> node hash2 (drop (2 ^ h) l) k i = node hash2 l k (i + 2 ^ (h - k)).
Proof.
  intros H. unfold node. rewrite drop_drop. do 3 f_equal.
  rewrite Nat.mul_add_distr_r, <- Nat.pow_add_r. replace (h - k + k)%nat with h by lia. lia.
Qed.

Lemma has_twin_take l h : has_twin (take (2 ^ h) l) -> (2 ^ h <= length l)%nat -> has_twin l.
Proof.
  intros (k & i & Hle & He) Hl. rewrite length_take in Hle. exists k, i. split; [lia|].
  rewrite !node_take in He by lia. done.
Qed.

Lemma has_twin_drop l h :
  has_twin (drop (2 ^ h) l) -> (2 ^ h < length l <= 2 ^ S h)%nat -> has_twin l.
Proof.
  intros (k & i & Hle & He) Hl. rewrite length_drop in Hle. cbn [Nat.pow] in Hl.
  assert (Hk : (S k <= h)%nat).
  { apply (Nat.pow_le_mono_r_iff 2); [lia|]. cbn [Nat.pow]. nia. }
  rewrite !node_drop in He by lia.
  assert (Hs : (2 ^ (h - k) = 2 * 2 ^ (h - S k))%nat) by (rewrite <- Nat.pow_succ_r'; f_equal; lia).
  assert (Hh : (2 ^ h = 2 ^ (h - k) * 2 ^ k)%nat) by (rewrite <- Nat.pow_add_r; f_equal; lia).
  exists k, (i + 2 ^ (h - S k))%nat. split; [nia|].
  replace (2 * (i + 2 ^ (h - S k)))%nat with (2 * i + 2 ^ (h - k))%nat by lia.
  replace (2 * i + 2 ^ (h - k) + 1)%nat with (2 * i + 1 + 2 ^ (h - k))%nat by lia. done.
Qed.

Lemma app_halves (a b c d : list uint256) : length a = length c -> a ++ b = c ++ d -> a = c /\ b = d.
Proof. apply app_inj_1. Qed.

(** A longer list with the same padded leaves repeats a full subtree. *)
Lemma pad_twin h : forall l1 l2,
  (0 < length l1 < length l2)%nat -> (length l2 <= 2 ^ h)%nat -> pad h l1 = pad h l2 -> has_twin l2.
Proof.
  induction h as [|h IH]; intros l1 l2 Hl Hle He; [cbn in Hle; lia|]. cbn [pad] in He. cbn [Nat.pow] in Hle.
  pose proof (pow2_pos h) as HP.
  destruct (decide (length l1 <= 2 ^ h)%nat), (decide (length l2 <= 2 ^ h)%nat); try lia;
    apply app_halves in He; try (rewrite !pad_length; rewrite ?length_take, ?length_drop; lia); destruct He as [Ha Hb].
  - by apply (IH l1 l2); [lia|lia|].
  - rewrite Ha in Hb. destruct (decide (length l2 = 2 * 2 ^ h)%nat) as [E|E].
    + rewrite !pad_full in Hb by (rewrite ?length_take, ?length_drop; lia).
      exists h, 0%nat. split; [lia|]. unfold node. rewrite Nat.mul_0_r, Nat.mul_0_l, drop_0, Nat.add_0_l, Nat.mul_1_l.
      by rewrite (take_ge (drop _ _)), Hb by (rewrite length_drop; lia).
    + apply (has_twin_take l2 h); [|lia].
      apply (IH (drop (2 ^ h) l2)); rewrite ?length_take, ?length_drop; [lia|lia|done].
  - apply (has_twin_drop l2 h); [|cbn [Nat.pow]; lia].
    apply (IH (drop (2 ^ h) l1)); rewrite ?length_drop; [lia|lia|done].
Qed.
End Binding.

(** ** Properties *)

(** An injective combination of two hashes, for concrete instances. *)
Definition ex_hash2 (a b : uint256) : uint256 := Z.of_nat (length a) :: a ++ b.
Definition ex_leaves : list uint256 := [[1]; [2]; [3]; [4]; [5]; [6]].

(** C19: for any non-empty list of up to 2^31 leaves the constant-space algorithm
    [ComputeMerkleRoot] terminates without leaving its array of 32 partial results, returns
    the root of the recursively defined tree, and sets [mutated] exactly when two sibling
    subtrees that are full of leaves have the same hash. *)
Theorem ComputeMerkleRoot_correct (hash2 : uint256 -> uint256 -> uint256) (leaves : list uint256) :
  leaves <> [] -> Z.of_nat (length leaves) <= 2 ^ 31 ->
  exists mutated, ComputeMerkleRoot hash2 leaves = Ok (merkle_root hash2 leaves, mutated)
    /\ (mutated = true <-> exists k i, twin hash2 leaves (length leaves) k i).
Proof.
  intros Hl Hmax. assert (Hn : (0 < length leaves)%nat) by (destruct leaves; [done|cbn; lia]).
  destruct (MerkleComputation_spec hash2 leaves 0 [] false (u32 (-1)) Hn Hmax Hn) as (mu & br & H & Hmu & _); [done|].
  exists mu. unfold ComputeMerkleRoot. by rewrite H.
Qed.

Lemma ComputeMerkleRoot_correct_witness :
  exists mutated, ComputeMerkleRoot ex_hash2 ex_leaves = Ok (merkle_root ex_hash2 ex_leaves, mutated)
    /\ (mutated = true <-> exists k i, twin ex_hash2 ex_leaves (length ex_leaves) k i).
Proof. apply (ComputeMerkleRoot_correct ex_hash2 ex_leaves); [discriminate|vm_compute; discriminate]. Defined.

(** Folding the branch that [ComputeMerkleBranch] produces for a position over the
    leaf at that position gives back the Merkle root. *)
Theorem ComputeMerkleBranch_roundtrip (hash2 : uint256 -> uint256 -> uint256) (leaves : list uint256)
  (pos : nat) (leaf : uint256) :
  leaves !! pos = Some leaf -> Z.of_nat (length leaves) <= 2 ^ 31 ->
  exists branch, ComputeMerkleBranch hash2 leaves (Z.of_nat pos) = Ok branch
    /\ ComputeMerkleRootFromBranch hash2 leaf branch (Z.of_nat pos) = merkle_root hash2 leaves.
Proof.
  intros Hleaf Hmax. pose proof (lookup_lt_Some _ _ _ Hleaf) as Hpos.
  destruct (MerkleComputation_spec hash2 leaves pos leaf true (Z.of_nat pos) ltac:(lia) Hmax Hpos)
    as (mu & br & H & _ & Hb); [done|].
  exists br. unfold ComputeMerkleBranch. rewrite H. split; [done|by apply Hb].
Qed.

Lemma ComputeMerkleBranch_roundtrip_witness :
  exists branch, ComputeMerkleBranch ex_hash2 ex_leaves 4 = Ok branch
    /\ ComputeMerkleRootFromBranch ex_hash2 [5] branch 4 = merkle_root ex_hash2 ex_leaves.
Proof. apply (ComputeMerkleBranch_roundtrip ex_hash2 ex_leaves 4 [5]); [reflexivity|vm_compute; discriminate]. Defined.
