(* ===== verification/MerkleBlock.v ===== *)
(** * Partial Merkle trees: [src/merkleblock.h], [src/merkleblock.cpp]

    The encoding of a subset of a block's transaction ids as a pruned tree
    ([TraverseAndBuild]) and its authenticated decoding ([TraverseAndExtract],
    [ExtractMatches]).  Node positions are 32-bit unsigned integers as in the code. *)

From S2P Require Import Prelude Params Merkle.


Record CPartialMerkleTree := mkPartialMerkleTree {
  nTransactions : Z;
  vBits : list bool;
  vHash : list uint256;
  fBad : bool;
}.

Section PartialMerkleTree.
Context (hash2 : uint256 -> uint256 -> uint256).

Definition CalcTreeWidth (nTransactions : Z) (height : nat) : Z :=
  Z.shiftr (u32 (nTransactions + Z.shiftl 1 (Z.of_nat height) - 1)) (Z.of_nat height).

Definition vec_at {A} (v : list A) (i : Z) : result fault A :=
  match v !! Z.to_nat i with Some x => Ok x | None => Err OutOfBounds end.

Fixpoint CalcHash (nTransactions : Z) (height : nat) (pos : Z) (vTxid : list uint256) : result fault uint256 :=
  match vTxid with
  | [] => Err AssertFailure
  | _ =>
    match height with
    | O => vec_at vTxid pos
    | S h =>
      hl ← CalcHash nTransactions h (u32 (pos * 2)) vTxid;
      hr ← (if u32 (pos * 2 + 1) <? CalcTreeWidth nTransactions h
               then CalcHash nTransactions h (u32 (pos * 2 + 1)) vTxid else Ok hl);
      Ok (hash2 hl hr)
    end
  end.

(** "determine whether this node is the parent of at least one matched txid" *)
Fixpoint parent_loop (n : nat) (p : Z) (vMatch : list bool) (fParentOfMatch : bool) : result fault bool :=
  match n with
  | O => Ok fParentOfMatch
  | S n => m ← vec_at vMatch p; parent_loop n (p + 1) vMatch (fParentOfMatch || m)
  end.

Definition parent_of_match (nTransactions : Z) (height : nat) (pos : Z) (vMatch : list bool) : result fault bool :=
  let first := u32 (Z.shiftl pos (Z.of_nat height)) in
  let last := Z.min (u32 (Z.shiftl (pos + 1) (Z.of_nat height))) nTransactions in
  parent_loop (Z.to_nat (last - first)) first vMatch false.

(** State: [vBits], [vHash]. *)
Fixpoint TraverseAndBuild (nTransactions : Z) (height : nat) (pos : Z) (vTxid : list uint256) (vMatch : list bool)
  (vBits : list bool) (vHash : list uint256) : result fault (list bool * list uint256) :=
  fParentOfMatch ← parent_of_match nTransactions height pos vMatch;
  let vBits := vBits ++ [fParentOfMatch] in
  match height with
  | S h =>
    if fParentOfMatch then
      let* (vBits, vHash) := TraverseAndBuild nTransactions h (u32 (pos * 2)) vTxid vMatch vBits vHash in
      if u32 (pos * 2 + 1) <? CalcTreeWidth nTransactions h
      then TraverseAndBuild nTransactions h (u32 (pos * 2 + 1)) vTxid vMatch vBits vHash
      else Ok (vBits, vHash)
    else
      x ← CalcHash nTransactions height pos vTxid; Ok (vBits, vHash ++ [x])
  | O => x ← CalcHash nTransactions height pos vTxid; Ok (vBits, vHash ++ [x])
  end.

(** [while (CalcTreeWidth(nHeight) > 1) nHeight++;] *)
Fixpoint height_loop (fuel : nat) (nTransactions : Z) (nHeight : nat) : result fault nat :=
  if CalcTreeWidth nTransactions nHeight >? 1 then
    match fuel with O => Err OutOfFuel | S fuel => height_loop fuel nTransactions (S nHeight) end
  else Ok nHeight.

(** The constructor from the ids of a block and the selected ones. *)
Definition build_tree (vTxid : list uint256) (vMatch : list bool) : result fault CPartialMerkleTree :=
  let n := u32 (Z.of_nat (length vTxid)) in
  nHeight ← height_loop 31 n O;
  let* (bits, hashes) := TraverseAndBuild n nHeight 0 vTxid vMatch [] [] in
  Ok {| nTransactions := n; vBits := bits; vHash := hashes; fBad := false |}.

Definition empty_tree : CPartialMerkleTree :=
  {| nTransactions := 0; vBits := []; vHash := []; fBad := true |}.

(** State threaded through [TraverseAndExtract]. *)
Record extract_state := mkExtract {
  nBitsUsed : nat;
  nHashUsed : nat;
  ex_vMatch : list uint256;
  ex_vnIndex : list Z;
  ex_bad : bool;
}.

Fixpoint TraverseAndExtract (t : CPartialMerkleTree) (height : nat) (pos : Z) (s : extract_state)
  : uint256 * extract_state :=
  match vBits t !! nBitsUsed s with
  | None => (uint256_zero, mkExtract (nBitsUsed s) (nHashUsed s) (ex_vMatch s) (ex_vnIndex s) true)
  | Some fParentOfMatch =>
    let s := mkExtract (S (nBitsUsed s)) (nHashUsed s) (ex_vMatch s) (ex_vnIndex s) (ex_bad s) in
    let stored :=
      match vHash t !! nHashUsed s with
      | None => (uint256_zero, mkExtract (nBitsUsed s) (nHashUsed s) (ex_vMatch s) (ex_vnIndex s) true)
      | Some hash =>
        if (height =? 0)%nat && fParentOfMatch
        then (hash, mkExtract (nBitsUsed s) (S (nHashUsed s)) (ex_vMatch s ++ [hash]) (ex_vnIndex s ++ [pos]) (ex_bad s))
        else (hash, mkExtract (nBitsUsed s) (S (nHashUsed s)) (ex_vMatch s) (ex_vnIndex s) (ex_bad s))
      end in
    match height with
    | O => stored
    | S h =>
      if negb fParentOfMatch then stored
      else
        let '(hl, s) := TraverseAndExtract t h (u32 (pos * 2)) s in
        if u32 (pos * 2 + 1) <? CalcTreeWidth (nTransactions t) h then
          let '(hr, s) := TraverseAndExtract t h (u32 (pos * 2 + 1)) s in
          let bad := if bool_decide (hr = hl) then true else ex_bad s in
          (hash2 hl hr, mkExtract (nBitsUsed s) (nHashUsed s) (ex_vMatch s) (ex_vnIndex s) bad)
        else (hash2 hl hl, s)
    end
  end.

(** [ExtractMatches]: the root (or null), [vMatch], [vnIndex] (appended to) and [fBad]. *)
Definition ExtractMatches (t : CPartialMerkleTree) (vnIndex : list Z)
  : result fault (uint256 * list uint256 * list Z * bool) :=
  let fail := Ok (uint256_zero, [], vnIndex, fBad t) in
  if nTransactions t =? 0 then fail
  else if nTransactions t >? GetMaxBlockWeight / MIN_TRANSACTION_WEIGHT then fail
  else if Z.of_nat (length (vHash t)) >? nTransactions t then fail
  else if (length (vBits t) <? length (vHash t))%nat then fail
  else
    nHeight ← height_loop 31 (nTransactions t) O;
    let '(root, s) := TraverseAndExtract t nHeight 0 (mkExtract O O [] vnIndex (fBad t)) in
    let root :=
      if ex_bad s then uint256_zero
      else if negb ((nBitsUsed s + 7) / 8 =? (length (vBits t) + 7) / 8)%nat then uint256_zero
      else if negb (nHashUsed s =? length (vHash t))%nat then uint256_zero
      else root in
    Ok (root, ex_vMatch s, ex_vnIndex s, ex_bad s).
End PartialMerkleTree.

(** The flag bits in the serialization: packed per 8 in a byte, least significant bit first. *)
Definition serialize_bits (vBits : list bool) : bytes :=
  foldl (fun vBytes p => alter (fun x => Z.lor x (Z.shiftl (Z.b2z (nth p vBits false)) (Z.of_nat (p mod 8)))) (p / 8)%nat vBytes)
    (replicate ((length vBits + 7) / 8)%nat 0) (seq 0 (length vBits)).
Definition deserialize_bits (vBytes : bytes) : list bool :=
  map (fun p => negb (Z.land (nth (p / 8) vBytes 0) (Z.shiftl 1 (Z.of_nat (p mod 8))) =? 0))
    (seq 0 (length vBytes * 8)).

(** ** Lemmas *)

Lemma width_lt N h pos :
  0 <= N < 2 ^ 31 -> (h <= 31)%nat -> 0 <= pos ->
  (pos <? CalcTreeWidth N h) = (pos * 2 ^ Z.of_nat h <? N).
Proof.
  intros HN Hh Hp. unfold CalcTreeWidth. rewrite Z.shiftl_1_l, Z.shiftr_div_pow2 by lia.
  assert (HP : 1 <= 2 ^ Z.of_nat h <= 2 ^ 31).
  { split; [|apply Z.pow_le_mono_r; lia]. change 1 with (2 ^ 0). apply Z.pow_le_mono_r; lia. }
  rewrite u32_id by (ranges; lia). apply eq_true_iff_eq. rewrite !Z.ltb_lt. split; intros H.
  - assert (Hle : pos + 1 <= (N + 2 ^ Z.of_nat h - 1) / 2 ^ Z.of_nat h) by lia.
    apply (Z.mul_le_mono_nonneg_r _ _ (2 ^ Z.of_nat h)) in Hle; [|lia].
    pose proof (Z.mul_div_le (N + 2 ^ Z.of_nat h - 1) (2 ^ Z.of_nat h) ltac:(lia)). lia.
  - apply Z.lt_le_trans with (pos + 1); [lia|]. apply Z.div_le_lower_bound; lia.
Qed.

Lemma width_gt_1 N h :
  0 <= N < 2 ^ 31 -> (h <= 31)%nat -> (CalcTreeWidth N h >? 1) = (2 ^ Z.of_nat h <? N).
Proof. intros HN Hh. by rewrite Z.gtb_ltb, width_lt, Z.mul_1_l by lia. Qed.

Lemma Zpow_nat (k : nat) : Z.of_nat (2 ^ k) = 2 ^ Z.of_nat k.
Proof. rewrite Nat2Z.inj_pow. done. Qed.

Lemma height_loop_spec fuel : forall n h,
  (1 <= n)%nat -> Z.of_nat n < 2 ^ 31 -> (31 - h <= fuel)%nat -> (h <= 31)%nat -> (2 ^ h < 2 * n)%nat ->
  exists R, height_loop fuel (Z.of_nat n) h = Ok R /\ (n <= 2 ^ R < 2 * n)%nat /\ (R <= 31)%nat.
Proof.
  induction fuel as [|fuel IH]; intros n h Hn Hmax Hf Hh H2; cbn [height_loop];
    rewrite width_gt_1, <- Zpow_nat by lia; destruct (Z.ltb_spec (Z.of_nat (2 ^ h)) (Z.of_nat n)) as [Hlt|Hge];
    try (exists h; splits; done || lia).
  - exfalso. assert (h = 31)%nat as -> by lia. rewrite Zpow_nat in Hlt. lia.
  - apply IH; try done; try lia.
    + assert (h <> 31)%nat by (intros ->; rewrite Zpow_nat in Hlt; lia). lia.
    + cbn [Nat.pow]. lia.
Qed.

Lemma filter_seq_nil (m : list bool) a k :
  (length m <= a \/ k = 0)%nat -> filter (fun p => m !! p = Some true) (seq a k) = [].
Proof.
  revert a. induction k as [|k IH]; intros a Ha; [done|]. cbn [seq]. rewrite filter_cons, IH by lia.
  rewrite decide_False; [done|]. intros H. apply lookup_lt_Some in H. lia.
Qed.

Section Proofs.
Context (hash2 : uint256 -> uint256 -> uint256) (l : list uint256).
Local Abbreviation n := (length l).
Context (Hn1 : (1 <= n)%nat) (Hmax : Z.of_nat n < 2 ^ 31).
Local Abbreviation nd := (node hash2 l).

Lemma pos_small h i : (i * 2 ^ h < n)%nat -> 0 <= Z.of_nat i < 2 ^ 31.
Proof. intros H. pose proof (pow2_pos h). nia. Qed.

(** The positions of the children. *)
Lemma child_left h i : (i * 2 ^ S h < n)%nat -> u32 (Z.of_nat i * 2) = Z.of_nat (2 * i) /\ (2 * i * 2 ^ h < n)%nat.
Proof.
  intros H. pose proof (pos_small (S h) i H). split; [rewrite u32_id; [lia|ranges; lia]|].
  cbn [Nat.pow] in H. lia.
Qed.

Lemma child_right h i :
  (h <= 31)%nat -> (i * 2 ^ S h < n)%nat ->
  u32 (Z.of_nat i * 2 + 1) = Z.of_nat (2 * i + 1)
  /\ (Z.of_nat (2 * i + 1) <? CalcTreeWidth (Z.of_nat n) h) = ((2 * i + 1) * 2 ^ h <? n)%nat.
Proof.
  intros Hh H. pose proof (pos_small (S h) i H). split; [rewrite u32_id; [lia|ranges; lia]|].
  rewrite width_lt by lia. rewrite <- Zpow_nat, <- Nat2Z.inj_mul. apply eq_true_iff_eq.
  rewrite Z.ltb_lt, Nat.ltb_lt. lia.
Qed.

Lemma node_up h i :
  (i * 2 ^ S h < n)%nat ->
  nd (S h) i = hash2 (nd h (2 * i)) (if ((2 * i + 1) * 2 ^ h <? n)%nat then nd h (2 * i + 1) else nd h (2 * i)).
Proof.
  intros H. cbn [Nat.pow] in H. destruct (Nat.ltb_spec ((2 * i + 1) * 2 ^ h) n).
  - by apply node_pair.
  - apply node_single. lia.
Qed.

Lemma CalcHash_spec h : forall i, (h <= 31)%nat -> (i * 2 ^ h < n)%nat ->
  CalcHash hash2 (Z.of_nat n) h (Z.of_nat i) l = Ok (nd h i).
Proof.
  induction h as [|h IH]; intros i Hh Hi.
  - assert (Hx : is_Some (l !! i)) by (apply lookup_lt_is_Some_2; cbn in Hi; lia). destruct Hx as [x Hx].
    rewrite (node_leaf hash2 l i x Hx). destruct l as [|y l']; [done|]. cbn [CalcHash]. unfold vec_at.
    by rewrite Nat2Z.id, Hx.
  - destruct (child_left h i Hi) as [El Hl]. destruct (child_right h i ltac:(lia) Hi) as [Er Hr].
    replace (CalcHash hash2 (Z.of_nat n) (S h) (Z.of_nat i) l) with
      (hl ← CalcHash hash2 (Z.of_nat n) h (u32 (Z.of_nat i * 2)) l;
       hr ← (if u32 (Z.of_nat i * 2 + 1) <? CalcTreeWidth (Z.of_nat n) h
             then CalcHash hash2 (Z.of_nat n) h (u32 (Z.of_nat i * 2 + 1)) l else Ok hl);
       Ok (hash2 hl hr)) by (destruct l; [cbn in Hn1; lia|done]).
    rewrite El, IH by (done || lia). cbn [mbind result_bind]. rewrite Er, Hr, node_up by done.
    destruct (Nat.ltb_spec ((2 * i + 1) * 2 ^ h) n); [|done]. by rewrite IH by (done || lia).
Qed.

(** *** Building *)
Context (m : list bool) (Hm : length m = n).

(** Matched leaves below the node [i] of height [h]. *)
Definition matched_at (h i : nat) : list nat := filter (fun p => m !! p = Some true) (seq (i * 2 ^ h) (2 ^ h)).

Lemma matched_split h i : matched_at (S h) i = matched_at h (2 * i) ++ matched_at h (2 * i + 1).
Proof.
  unfold matched_at. replace (2 ^ S h)%nat with (2 ^ h + 2 ^ h)%nat by (cbn [Nat.pow]; lia).
  rewrite seq_app, filter_app. f_equal; f_equal; f_equal; lia.
Qed.

Lemma matched_beyond h i : (n <= i * 2 ^ h)%nat -> matched_at h i = [].
Proof.
  intros H. apply filter_seq_nil. lia.
Qed.

Definition any (h i : nat) : bool := negb (bool_decide (matched_at h i = [])).

Lemma parent_loop_spec k : forall p acc,
  (p + k <= n)%nat ->
  parent_loop k (Z.of_nat p) m acc = Ok (acc || negb (bool_decide (filter (fun p => m !! p = Some true) (seq p k) = []))).
Proof.
  induction k as [|k IH]; intros p acc Hp; cbn [parent_loop seq]; [by rewrite orb_false_r|].
  unfold vec_at. rewrite Nat2Z.id. destruct (lookup_lt_is_Some_2 m p ltac:(lia)) as [x Hx]. rewrite Hx.
  cbn [mbind result_bind]. replace (Z.of_nat p + 1) with (Z.of_nat (S p)) by lia. rewrite IH by lia. f_equal.
  rewrite filter_cons. destruct (decide _) as [E|E]; rewrite Hx in E; destruct x; try done.
  - rewrite (bool_decide_false (_ :: _ = [])) by done. by rewrite !orb_true_r.
  - by rewrite orb_false_r.
Qed.

Lemma parent_of_match_spec h i :
  (h <= 31)%nat -> (i * 2 ^ h < n)%nat ->
  parent_of_match (Z.of_nat n) h (Z.of_nat i) m = Ok (any h i).
Proof.
  intros Hh Hi. unfold parent_of_match. rewrite !Z.shiftl_mul_pow2, <- Zpow_nat by lia.
  assert (HP : Z.of_nat (2 ^ h) <= 2 ^ 31) by (rewrite Zpow_nat; apply Z.pow_le_mono_r; lia).
  rewrite <- Nat2Z.inj_mul, (u32_id (Z.of_nat _)), (u32_id ((_ + 1) * _)) by (ranges; lia).
  set (k := Z.to_nat _). assert (Hk : k = Nat.min (2 ^ h) (n - i * 2 ^ h)) by (subst k; lia). clearbody k.
  rewrite parent_loop_spec by lia. unfold any, matched_at. cbn [orb]. do 2 f_equal.
  replace (seq (i * 2 ^ h) (2 ^ h)) with (seq (i * 2 ^ h) (k + (2 ^ h - k))) by (f_equal; lia).
  rewrite seq_app, filter_app. assert (Hnil : filter (fun p => m !! p = Some true) (seq (i * 2 ^ h + k) (2 ^ h - k)) = []).
  { apply filter_seq_nil. lia. }
  by rewrite Hnil, app_nil_r.
Qed.

(** What [TraverseAndBuild] appends. *)
Fixpoint built (h i : nat) : list bool * list uint256 :=
  match h with
  | O => ([any 0 i], [nd 0 i])
  | S h' =>
    if any h i then
      let '(b1, h1) := built h' (2 * i) in
      let '(b2, h2) := if ((2 * i + 1) * 2 ^ h' <? n)%nat then built h' (2 * i + 1) else ([], []) in
      (true :: b1 ++ b2, h1 ++ h2)
    else ([false], [nd h i])
  end.

Lemma TraverseAndBuild_spec h : forall i bits hashes,
  (h <= 31)%nat -> (i * 2 ^ h < n)%nat ->
  TraverseAndBuild hash2 (Z.of_nat n) h (Z.of_nat i) l m bits hashes = Ok (bits ++ (built h i).1, hashes ++ (built h i).2).
Proof.
  induction h as [|h IH]; intros i bits hashes Hh Hi; cbn [TraverseAndBuild built];
    rewrite parent_of_match_spec by done; cbn [mbind result_bind].
  - by rewrite CalcHash_spec.
  - destruct (any (S h) i) eqn:Ea.
    + destruct (child_left h i Hi) as [-> Hl]. destruct (child_right h i ltac:(lia) Hi) as [-> ->].
      rewrite IH by (done || lia). destruct (built h (2 * i)) as [b1 h1]. cbn [fst snd].
      destruct (Nat.ltb_spec ((2 * i + 1) * 2 ^ h) n).
      * rewrite IH by (done || lia). destruct (built h (2 * i + 1)) as [b2 h2]. cbn [fst snd].
        by rewrite <- !app_assoc.
      * cbn [fst snd]. by rewrite !app_nil_r, <- !app_assoc.
    + by rewrite CalcHash_spec.
Qed.

(** A parent that is asked to descend has different children. *)
Definition distinct_siblings : Prop :=
  forall k i, ((2 * i + 1) * 2 ^ k < n)%nat -> nd k (2 * i + 1) <> nd k (2 * i).

Definition txids_at (ps : list nat) : list uint256 := map (fun p => nth p l uint256_zero) ps.

Lemma matched_leaf i : (i < n)%nat -> matched_at 0 i = if any 0 i then [i] else [].
Proof.
  intros Hi. unfold any, matched_at. cbn [Nat.pow]. rewrite Nat.mul_1_r. cbn [seq]. rewrite filter_cons, filter_nil.
  destruct (decide _); done.
Qed.

(** Decoding what was encoded. *)
Lemma extract_built t h : forall i s brest hrest,
  distinct_siblings -> (h <= 31)%nat -> (i * 2 ^ h < n)%nat -> nTransactions t = Z.of_nat n ->
  drop (nBitsUsed s) (vBits t) = (built h i).1 ++ brest -> drop (nHashUsed s) (vHash t) = (built h i).2 ++ hrest ->
  TraverseAndExtract hash2 t h (Z.of_nat i) s =
    (nd h i, {| nBitsUsed := nBitsUsed s + length (built h i).1; nHashUsed := nHashUsed s + length (built h i).2;
                ex_vMatch := ex_vMatch s ++ txids_at (matched_at h i);
                ex_vnIndex := ex_vnIndex s ++ map Z.of_nat (matched_at h i); ex_bad := ex_bad s |}).
Proof.
  induction h as [|h IH]; intros i s brest hrest Hd Hh Hi Ht Hb Hx; destruct s as [nb nh vm vi bad];
    cbn [nBitsUsed nHashUsed ex_vMatch ex_vnIndex ex_bad] in *; cbn [TraverseAndExtract built] in *;
    cbn [nBitsUsed nHashUsed ex_vMatch ex_vnIndex ex_bad] in *.
  - cbn [fst snd app length] in *.
    assert (Hbit : vBits t !! nb = Some (any 0 i)) by (rewrite <- (Nat.add_0_r nb), <- lookup_drop, Hb; done).
    assert (Hhash : vHash t !! nh = Some (nd 0 i)) by (rewrite <- (Nat.add_0_r nh), <- lookup_drop, Hx; done).
    rewrite Hbit, Hhash. cbn in Hi. rewrite matched_leaf by lia. cbn [Nat.eqb andb].
    destruct (any 0 i); cbn [txids_at map]; rewrite ?app_nil_r, !Nat.add_1_r; [|done].
    destruct (lookup_lt_is_Some_2 l i ltac:(lia)) as [x Hlx]. rewrite (nth_lookup_Some _ _ _ _ Hlx).
    by rewrite (node_leaf hash2 l i x Hlx).
  - destruct (any (S h) i) eqn:Ea.
    + destruct (built h (2 * i)) as [b1 h1] eqn:E1.
      destruct (child_left h i Hi) as [El Hl]. destruct (child_right h i ltac:(lia) Hi) as [Er Hr].
      rewrite Ht, Er, Hr, El.
      assert (Hbit : vBits t !! nb = Some true).
      { rewrite <- (Nat.add_0_r nb), <- lookup_drop, Hb. by destruct (Nat.ltb _ _); [destruct (built h (2 * i + 1))|]. }
      assert (Hnb : forall rest, drop nb (vBits t) = true :: rest -> drop (S nb) (vBits t) = rest).
      { intros rest Hr'. rewrite <- Nat.add_1_r, <- drop_drop, Hr'. done. }
      rewrite Hbit. cbn [negb].
      destruct (Nat.ltb_spec ((2 * i + 1) * 2 ^ h) n) as [Hlt|Hge].
      * destruct (built h (2 * i + 1)) as [b2 h2] eqn:E2. cbn [fst snd app length] in *.
        apply Hnb in Hb. rewrite <- app_assoc in Hb, Hx.
        rewrite (IH (2 * i)%nat _ (b2 ++ brest) (h2 ++ hrest)); cbn [nBitsUsed nHashUsed]; rewrite ?E1; try done; try lia.
        cbn [fst snd ex_vMatch ex_vnIndex ex_bad].
        rewrite (IH (2 * i + 1)%nat _ brest hrest); cbn [nBitsUsed nHashUsed]; rewrite ?E2; try done; try lia.
        -- cbn [fst snd ex_vMatch ex_vnIndex ex_bad]. rewrite bool_decide_false by (apply Hd; lia).
           rewrite node_pair by done. unfold txids_at. rewrite matched_split, !map_app, !app_assoc, !length_app. do 2 f_equal; lia.
        -- cbn [fst]. by rewrite <- drop_drop, Hb, drop_app_length.
        -- cbn [snd]. by rewrite <- drop_drop, Hx, drop_app_length.
      * cbn [fst snd app length] in *. rewrite app_nil_r in *. apply Hnb in Hb.
        rewrite (IH (2 * i)%nat _ brest hrest); cbn [nBitsUsed nHashUsed]; rewrite ?E1; try done; try lia.
        cbn [fst snd ex_vMatch ex_vnIndex ex_bad]. rewrite node_single by (cbn [Nat.pow] in Hi; lia).
        rewrite matched_split, (matched_beyond h (2 * i + 1)), (app_nil_r (matched_at h (2 * i))) by lia. rewrite ?app_nil_r. do 2 f_equal; lia.
    + cbn [fst snd app length] in *.
      assert (Hbit : vBits t !! nb = Some false) by (rewrite <- (Nat.add_0_r nb), <- lookup_drop, Hb; done).
      assert (Hhash : vHash t !! nh = Some (nd (S h) i)) by (rewrite <- (Nat.add_0_r nh), <- lookup_drop, Hx; done).
      rewrite Hbit. cbn [negb]. rewrite Hhash. cbn [Nat.eqb andb].
      assert (Hnil : matched_at (S h) i = []) by (unfold any in Ea; by apply negb_false_iff, bool_decide_eq_true in Ea).
      rewrite Hnil. cbn [txids_at map]. by rewrite !app_nil_r, !Nat.add_1_r.
Qed.

Lemma built_lengths h : forall i, (i * 2 ^ h < n)%nat ->
  (length (built h i).2 <= Nat.min (2 ^ h) (n - i * 2 ^ h))%nat /\ (length (built h i).2 <= length (built h i).1)%nat.
Proof.
  induction h as [|h IH]; intros i Hi; cbn [built]; [cbn [fst snd length Nat.pow] in *; lia|].
  destruct (any (S h) i); [|cbn [fst snd length]; pose proof (pow2_pos (S h)); lia].
  destruct (child_left h i Hi) as [_ Hl]. destruct (IH _ Hl) as [H1 H2].
  destruct (built h (2 * i)) as [b1 h1]. cbn [fst snd] in *. cbn [Nat.pow].
  destruct (Nat.ltb_spec ((2 * i + 1) * 2 ^ h) n) as [Hlt|Hge].
  - destruct (IH _ Hlt) as [H3 H4]. destruct (built h (2 * i + 1)) as [b2 h2]. cbn [fst snd length] in *.
    rewrite !length_app. lia.
  - cbn [fst snd length]. rewrite !length_app. cbn. lia.
Qed.

Lemma matched_all R : (n <= 2 ^ R)%nat -> matched_at R 0 = filter (fun p => m !! p = Some true) (seq 0 n).
Proof.
  intros HR. unfold matched_at. rewrite Nat.mul_0_l.
  replace (2 ^ R)%nat with (n + (2 ^ R - n))%nat by lia.
  rewrite seq_app, filter_app, (filter_seq_nil m (0 + n)) by lia. by rewrite app_nil_r.
Qed.

Lemma partial_tree_roundtrip :
  Z.of_nat n <= 33333 -> distinct_siblings ->
  exists t, build_tree hash2 l m = Ok t
    /\ let matched := filter (fun p => m !! p = Some true) (seq 0 n) in
       ExtractMatches hash2 t [] = Ok (merkle_root hash2 l, txids_at matched, map Z.of_nat matched, false).
Proof.
  intros Hlim Hd. unfold build_tree. rewrite u32_id by (ranges; lia).
  destruct (height_loop_spec 31 n 0) as (R & Hloop & HR & HR31); try lia; [cbn; lia|].
  rewrite Hloop. cbn [mbind result_bind]. change 0 with (Z.of_nat 0).
  rewrite TraverseAndBuild_spec by lia. cbn [app]. eexists; split; [done|]. cbv zeta.
  destruct (built_lengths R 0 ltac:(lia)) as [Hlen1 Hlen2].
  unfold ExtractMatches. cbn [nTransactions vBits vHash fBad].
  assert (Hc : GetMaxBlockWeight / MIN_TRANSACTION_WEIGHT = 33333) by done. rewrite Hc.
  destruct (Z.eqb_spec (Z.of_nat n) 0) as [|_]; [lia|].
  destruct (Z.of_nat n >? 33333) eqn:E1; b2p; [lia|].
  destruct (Z.of_nat (length (built R 0).2) >? Z.of_nat n) eqn:E2; b2p; [lia|].
  destruct (length (built R 0).1 <? length (built R 0).2)%nat eqn:E3; b2p; [lia|].
  rewrite Hloop. cbn [mbind result_bind].
  rewrite (extract_built _ R 0 _ [] []); try done; try lia; try (cbn; by rewrite app_nil_r).
  cbn [ex_bad nBitsUsed nHashUsed ex_vMatch ex_vnIndex app]. rewrite !Nat.add_0_l, !Nat.eqb_refl. cbn [negb].
  rewrite matched_all, root_of_node by lia. done.
Qed.
End Proofs.

(** ** Soundness of decoding *)
Section Sound.
Context (hash2 : uint256 -> uint256 -> uint256) (l : list uint256).
Local Abbreviation n := (length l).
Context (Hn1 : (1 <= n)%nat) (Hmax : Z.of_nat n < 2 ^ 31).
Context (t : CPartialMerkleTree) (Ht : nTransactions t = Z.of_nat n).

(** The pairs of hashes that the decoder combines below a node. *)
Fixpoint extract_pairs (height : nat) (pos : Z) (s : extract_state) : list (uint256 * uint256) :=
  match height, vBits t !! nBitsUsed s with
  | S h, Some true =>
    let s := mkExtract (S (nBitsUsed s)) (nHashUsed s) (ex_vMatch s) (ex_vnIndex s) (ex_bad s) in
    let '(hl, s1) := TraverseAndExtract hash2 t h (u32 (pos * 2)) s in
    if u32 (pos * 2 + 1) <? CalcTreeWidth (nTransactions t) h then
      ((hl, (TraverseAndExtract hash2 t h (u32 (pos * 2 + 1)) s1).1) :: extract_pairs h (u32 (pos * 2)) s) ++ extract_pairs h (u32 (pos * 2 + 1)) s1
    else (hl, hl) :: extract_pairs h (u32 (pos * 2)) s
  | _, _ => []
  end.

(** The pairs that are combined for the tree of [l] below a node. *)
Fixpoint tree_pairs (h i : nat) : list (uint256 * uint256) :=
  match h with
  | O => []
  | S h =>
    if ((2 * i + 1) * 2 ^ h <? n)%nat
    then ((node hash2 l h (2 * i), node hash2 l h (2 * i + 1)) :: tree_pairs h (2 * i)) ++ tree_pairs h (2 * i + 1)
    else (node hash2 l h (2 * i), node hash2 l h (2 * i)) :: tree_pairs h (2 * i)
  end.

(** A pair of one list and a different one of the other have the same hash. *)
Definition pairs_collide (xs ys : list (uint256 * uint256)) : Prop :=
  exists x y, x ∈ xs /\ y ∈ ys /\ x <> y /\ hash2 x.1 x.2 = hash2 y.1 y.2.

Lemma pairs_collide_mono xs xs' ys ys' : xs ⊆ xs' -> ys ⊆ ys' -> pairs_collide xs ys -> pairs_collide xs' ys'.
Proof. intros Hx Hy (x & y & H1 & H2 & H3). exists x, y. split; [by apply Hx|]. split; [by apply Hy|done]. Qed.

Lemma pair_binding xs ys a b c d : (a, b) ∈ xs -> (c, d) ∈ ys -> hash2 c d = hash2 a b -> (c = a /\ d = b) \/ pairs_collide xs ys.
Proof.
  intros Hx Hy E. destruct (decide ((a, b) = (c, d))) as [Ep|Hn]; [left; by injection Ep|right]. by exists (a, b), (c, d).
Qed.

(** The pairs extracted between two states belong to [l]. *)
Definition extracted_ok (s s' : extract_state) : Prop :=
  exists new : list (uint256 * nat),
    ex_vMatch s' = ex_vMatch s ++ map fst new
    /\ ex_vnIndex s' = ex_vnIndex s ++ map (fun x => Z.of_nat x.2) new
    /\ Forall (fun x => l !! x.2 = Some x.1) new.

Lemma extracted_refl s s' : ex_vMatch s' = ex_vMatch s -> ex_vnIndex s' = ex_vnIndex s -> extracted_ok s s'.
Proof. intros H1 H2. exists []. cbn. by rewrite !app_nil_r. Qed.

Lemma extracted_trans s1 s2 s3 : extracted_ok s1 s2 -> extracted_ok s2 s3 -> extracted_ok s1 s3.
Proof.
  intros (a & A1 & A2 & A3) (b & B1 & B2 & B3). exists (a ++ b). rewrite B1, B2, A1, A2, !map_app, !app_assoc.
  splits; try done. by apply Forall_app.
Qed.

Lemma extract_bad_mono h : forall i s x s',
  TraverseAndExtract hash2 t h i s = (x, s') -> ex_bad s' = false -> ex_bad s = false.
Proof.
  induction h as [|h IH]; intros i s x s' H Hb; cbn [TraverseAndExtract] in H;
    (destruct (vBits t !! nBitsUsed s) as [f|]; [|by injection H as <- <-]); cbn [nHashUsed] in H.
  - destruct (vHash t !! nHashUsed s); [|by injection H as <- <-]. destruct (_ && f); by injection H as <- <-.
  - destruct f; cbn [negb] in H.
    + destruct (TraverseAndExtract _ t h _ _) as [y s1] eqn:E1.
      assert (Hs1 : ex_bad s1 = false -> ex_bad s = false) by (intros ?; by apply IH in E1).
      destruct (_ <? _).
      * destruct (TraverseAndExtract _ t h _ s1) as [z s2] eqn:E2. injection H as <- <-. cbn in Hb.
        destruct (bool_decide _); [done|]. apply Hs1. by apply IH in E2.
      * injection H as <- <-. by apply Hs1.
    + destruct (vHash t !! nHashUsed s); [|by injection H as <- <-]. by injection H as <- <-.
Qed.

Lemma extract_sound h : forall i s s',
  (h <= 31)%nat -> (i * 2 ^ h < n)%nat ->
  TraverseAndExtract hash2 t h (Z.of_nat i) s = (node hash2 l h i, s') -> ex_bad s' = false ->
  extracted_ok s s' \/ pairs_collide (tree_pairs h i) (extract_pairs h (Z.of_nat i) s).
Proof.
  induction h as [|h IH]; intros i s s' Hh Hi H Hb; cbn [TraverseAndExtract tree_pairs extract_pairs] in *;
    (destruct (vBits t !! nBitsUsed s) as [f|]; [|by injection H as _ <-]); cbn [nHashUsed nBitsUsed] in H.
  - destruct (vHash t !! nHashUsed s) as [x|]; [|by injection H as _ <-]. left. cbn [Nat.eqb andb] in H.
    destruct f; [|injection H as _ <-; by apply extracted_refl]. injection H as Hx <-. subst x.
    cbn in Hi. destruct (lookup_lt_is_Some_2 l i ltac:(lia)) as [y Hy].
    rewrite (node_leaf hash2 l i y Hy). exists [(y, i)]. cbn. splits; try done. by repeat constructor.
  - destruct f; cbn [negb] in H.
    + destruct (child_left l Hn1 Hmax h i Hi) as [El Hl]. destruct (child_right l Hn1 Hmax h i ltac:(lia) Hi) as [Er Hr].
      cbv zeta. rewrite Ht, El, Er, Hr in H |- *. rewrite (node_up hash2 l Hn1 h i Hi) in H.
      destruct (TraverseAndExtract _ t h _ _) as [y s1] eqn:E1.
      destruct (Nat.ltb_spec ((2 * i + 1) * 2 ^ h) n) as [Hlt|Hge].
      * destruct (TraverseAndExtract _ t h _ s1) as [z s2] eqn:E2. injection H as Hx <-. cbn [ex_bad fst] in *.
        destruct (bool_decide _); [done|].
        match goal with |- _ \/ pairs_collide ?xs ?ys => destruct (pair_binding xs ys _ _ _ _ ltac:(by left) ltac:(by left) Hx) as [[-> ->]|]; [|by right] end.
        pose proof (extract_bad_mono _ _ _ _ _ E2 Hb) as Hb1.
        apply IH in E1; try done; try lia. apply IH in E2; try done; try lia.
        destruct E1 as [E1|E1]; [|right; eapply pairs_collide_mono; [..|exact E1]; intros x Hx'; right; apply elem_of_app; by left].
        destruct E2 as [E2|E2]; [|right; eapply pairs_collide_mono; [..|exact E2]; intros x Hx'; right; apply elem_of_app; by right]. left.
        eapply extracted_trans; [exact E1|]. destruct E2 as (w & W). exists w. exact W.
      * injection H as Hx <-.
        match goal with |- _ \/ pairs_collide ?xs ?ys => destruct (pair_binding xs ys _ _ _ _ ltac:(by left) ltac:(by left) Hx) as [[-> _]|]; [|by right] end.
        apply IH in E1; try done; try lia.
        destruct E1 as [E1|E1]; [by left|right; eapply pairs_collide_mono; [..|exact E1]; intros x Hx'; by right].
    + destruct (vHash t !! nHashUsed s) as [x|]; [|by injection H as _ <-]. injection H as _ <-.
      left. by apply extracted_refl.
Qed.

(** The pairs that [ExtractMatches] combines, and those of the tree of [l]. *)
Definition decoded_pairs : list (uint256 * uint256) :=
  match height_loop 31 (nTransactions t) O with Ok h => extract_pairs h 0 (mkExtract O O [] [] (fBad t)) | Err _ => [] end.
Definition block_pairs : list (uint256 * uint256) :=
  match height_loop 31 (Z.of_nat n) O with Ok h => tree_pairs h 0 | Err _ => [] end.

Lemma ExtractMatches_sound vm vi bad :
  merkle_root hash2 l <> uint256_zero ->
  ExtractMatches hash2 t [] = Ok (merkle_root hash2 l, vm, vi, bad) ->
  (exists new : list (uint256 * nat), vm = map fst new /\ vi = map (fun x => Z.of_nat x.2) new
     /\ Forall (fun x => l !! x.2 = Some x.1) new) \/ pairs_collide block_pairs decoded_pairs.
Proof.
  intros Hnz H. unfold ExtractMatches in H. unfold block_pairs, decoded_pairs.
  destruct (_ =? _); [congruence|]. destruct (_ >? _); [congruence|]. destruct (_ >? _); [congruence|].
  destruct (_ <? _)%nat; [congruence|]. rewrite Ht in H |- *.
  destruct (height_loop_spec 31 n 0) as (R & Hloop & HR & HR31); try lia; [cbn; lia|].
  rewrite Hloop in H |- *. cbn [mbind result_bind] in H.
  destruct (TraverseAndExtract _ _ _ _ _) as [x s] eqn:E. injection H as Hx <- <- <-.
  destruct (ex_bad s) eqn:Eb; [congruence|]. destruct (negb _); [congruence|]. destruct (negb _); [congruence|].
  subst x. rewrite <- (root_of_node hash2 l R) in E by done. change 0 with (Z.of_nat 0) in E.
  apply extract_sound in E; try done; try lia.
Qed.
End Sound.

(** ** The packed flag bits *)

Lemma serialize_bits_spec (bs : list bool) (k : nat) :
  (k <= length bs)%nat ->
  let v := foldl (fun vBytes p => alter (fun x => Z.lor x (Z.shiftl (Z.b2z (nth p bs false)) (Z.of_nat (p mod 8)))) (p / 8)%nat vBytes)
             (replicate ((length bs + 7) / 8)%nat 0) (seq 0 k) in
  length v = ((length bs + 7) / 8)%nat /\
  forall p, (p / 8 < length v)%nat -> Z.testbit (nth (p / 8) v 0) (Z.of_nat (p mod 8)) = (p <? k)%nat && nth p bs false.
Proof.
  induction k as [|k IH]; intros Hk v.
  - subst v. cbn [seq foldl]. rewrite length_replicate. split; [done|]. intros p _.
    rewrite nth_lookup. destruct (replicate _ _ !! _) eqn:E; [|apply Z.testbit_0_l].
    apply lookup_replicate in E. destruct E as [-> _]. apply Z.testbit_0_l.
  - destruct (IH ltac:(lia)) as [Hlen Hbits]. subst v. rewrite seq_S, foldl_app. cbn [foldl Nat.add].
    set (w := foldl _ _ _) in *. clearbody w. rewrite length_alter. split; [done|]. intros p Hp.
    specialize (Hbits p Hp). rewrite nth_lookup in *.
    destruct (lookup_lt_is_Some_2 w (p / 8) Hp) as [x Hx]. rewrite Hx in Hbits. cbn [default from_option id] in Hbits.
    pose proof (Nat.mod_upper_bound p 8 ltac:(lia)). pose proof (Nat.mod_upper_bound k 8 ltac:(lia)).
    pose proof (Nat.div_mod_eq p 8). pose proof (Nat.div_mod_eq k 8).
    destruct (decide (p / 8 = k / 8)%nat) as [E|E].
    + rewrite <- E, list_lookup_alter_eq, Hx. cbn [fmap option_fmap option_map default id from_option].
      rewrite Z.lor_spec, Hbits, Z.shiftl_spec by lia. destruct (decide (p = k)) as [->|Hne].
      * rewrite Z.sub_diag. destruct (Nat.ltb_spec k k), (Nat.ltb_spec k (S k)); try lia.
        by destruct (nth k bs false).
      * assert (Hz : Z.testbit (Z.b2z (nth k bs false)) (Z.of_nat (p mod 8) - Z.of_nat (k mod 8)) = false).
        { destruct (Z.lt_ge_cases (Z.of_nat (p mod 8) - Z.of_nat (k mod 8)) 0); [by apply Z.testbit_neg_r|].
          destruct (nth k bs false); [|apply Z.testbit_0_l].
          apply (Z.pow2_bits_false 0). lia. }
        rewrite Hz, orb_false_r. destruct (Nat.ltb_spec p k), (Nat.ltb_spec p (S k)); try lia; done.
    + rewrite list_lookup_alter_ne, Hx by done. cbn [default from_option id]. rewrite Hbits.
      destruct (Nat.ltb_spec p k), (Nat.ltb_spec p (S k)); try lia; try done.
Qed.

Lemma bits_roundtrip (bs : list bool) :
  deserialize_bits (serialize_bits bs) = bs ++ replicate (8 * ((length bs + 7) / 8) - length bs) false.
Proof.
  destruct (serialize_bits_spec bs (length bs) ltac:(lia)) as [Hlen Hbits]. fold (serialize_bits bs) in *.
  set (q := ((length bs + 7) / 8)%nat) in *.
  assert (Hq : (length bs <= 8 * q)%nat).
  { subst q. pose proof (Nat.div_mod_eq (length bs + 7) 8). pose proof (Nat.mod_upper_bound (length bs + 7) 8). lia. }
  apply list_eq. intros p. unfold deserialize_bits.
  destruct (Nat.lt_ge_cases p (8 * q)) as [Hp|Hp].
  - rewrite list_lookup_fmap, lookup_seq_lt by lia. cbn [fmap option_fmap option_map Nat.add].
    rewrite land_bit_zero, negb_involutive by lia. rewrite Hbits by (rewrite Hlen; apply Nat.Div0.div_lt_upper_bound; lia).
    destruct (Nat.ltb_spec p (length bs)) as [Hlt|Hge]; cbn [andb].
    + rewrite lookup_app_l by done. destruct (lookup_lt_is_Some_2 bs p Hlt) as [b Hb].
      by rewrite Hb, (nth_lookup_Some _ _ _ _ Hb).
    + rewrite lookup_app_r by done. symmetry. apply lookup_replicate_2. lia.
  - rewrite !lookup_ge_None_2; [done|..].
    + rewrite length_app, length_replicate. lia.
    + rewrite length_map, length_seq. lia.
Qed.

(** ** Properties *)

Definition ex_match : list bool := [false; true; false; false; true; false].

Lemma ex_distinct : distinct_siblings ex_hash2 ex_leaves.
Proof.
  intros k i H. cbn [length ex_leaves] in H.
  destruct k as [|[|[|k]]]; cbn [Nat.pow] in H.
  - destruct i as [|[|[|i]]]; [by vm_compute..|lia].
  - destruct i as [|[|i]]; [by vm_compute| lia | lia].
  - destruct i as [|i]; [by vm_compute|lia].
  - pose proof (pow2_pos k). nia.
Qed.

(** For a block of at most 33333 transactions in which no two sibling nodes have the
    same hash, decoding the partial Merkle tree built for any selection of its
    transactions returns the block's Merkle root and exactly the selected transaction ids
    with their positions, in order. *)
Theorem partial_merkle_tree_roundtrip (hash2 : uint256 -> uint256 -> uint256) (txids : list uint256) (sel : list bool) :
  (1 <= length txids)%nat -> Z.of_nat (length txids) <= 33333 -> length sel = length txids ->
  distinct_siblings hash2 txids ->
  exists t, build_tree hash2 txids sel = Ok t
    /\ let matched := filter (fun p => sel !! p = Some true) (seq 0 (length txids)) in
       ExtractMatches hash2 t [] =
         Ok (merkle_root hash2 txids, map (fun p => nth p txids uint256_zero) matched, map Z.of_nat matched, false).
Proof. intros H1 H2 H3 H4. apply partial_tree_roundtrip; try done. lia. Qed.

Lemma partial_merkle_tree_roundtrip_witness :
  exists t, build_tree ex_hash2 ex_leaves ex_match = Ok t
    /\ ExtractMatches ex_hash2 t [] = Ok (merkle_root ex_hash2 ex_leaves, [[2]; [5]], [1; 4], false).
Proof.
  apply (partial_merkle_tree_roundtrip ex_hash2 ex_leaves ex_match);
    [cbn; lia|vm_compute; discriminate|reflexivity|exact ex_distinct].
Defined.

(** C20: authenticity of a partial Merkle tree from an untrusted peer: whatever bits and
    hashes it carries, if its number of transactions is that of a block and
    [ExtractMatches] returns the Merkle root of the block, then every returned transaction
    id is the id of the block's transaction at the returned position; or a pair of hashes
    combined for the tree of the block and a different pair combined by [ExtractMatches]
    have the same hash. *)
Theorem ExtractMatches_authenticated (hash2 : uint256 -> uint256 -> uint256) (txids : list uint256)
  (t : CPartialMerkleTree) (vMatch : list uint256) (vnIndex : list Z) (bad : bool) :
  (1 <= length txids)%nat -> Z.of_nat (length txids) < 2 ^ 31 -> nTransactions t = Z.of_nat (length txids) ->
  merkle_root hash2 txids <> uint256_zero ->
  ExtractMatches hash2 t [] = Ok (merkle_root hash2 txids, vMatch, vnIndex, bad) ->
  (exists new : list (uint256 * nat), vMatch = map fst new /\ vnIndex = map (fun x => Z.of_nat x.2) new
     /\ Forall (fun x => txids !! x.2 = Some x.1) new) \/ pairs_collide hash2 (block_pairs hash2 txids) (decoded_pairs hash2 t).
Proof. intros H1 H2 H3 H4 H5. by apply (ExtractMatches_sound hash2 txids H1 H2 t H3 vMatch vnIndex bad). Qed.

Definition ex_tree : CPartialMerkleTree :=
  {| nTransactions := 6; vBits := [true; true; true; false; true; false; true; true; true; false];
     vHash := [[1]; [2]; ex_hash2 [3] [4]; [5]; [6]]; fBad := false |}.

Lemma ExtractMatches_authenticated_witness :
  (exists new : list (uint256 * nat), [[2]; [5]] = map fst new /\ [1; 4] = map (fun x => Z.of_nat x.2) new
     /\ Forall (fun x => ex_leaves !! x.2 = Some x.1) new) \/ pairs_collide ex_hash2 (block_pairs ex_hash2 ex_leaves) (decoded_pairs ex_hash2 ex_tree).
Proof.
  apply (ExtractMatches_authenticated ex_hash2 ex_leaves ex_tree [[2]; [5]] [1; 4] false);
    [cbn; lia|vm_compute; reflexivity|reflexivity|vm_compute; discriminate|vm_compute; reflexivity].
Defined.
