(* ===== verification/Pow.v ===== *)
(** * Difficulty and proof of work: [src/pow.cpp]

    DarkGravityWave retargeting, the retargeting inherited from Bitcoin, and the
    check of a block hash against its target. *)

From S2P Require Import Prelude Endian ArithUint256 Chain Params.

(** A failed [assert] of [GetCompact]. *)
Definition get_compact (a : base_uint) : result fault Z :=
  match GetCompact a false with Some c => Ok c | None => Err AssertFailure end.

Definition or_trap {A} (o : option A) : result fault A :=
  match o with Some x => Ok x | None => Err ArithmeticError end.

Definition bn_div (a b : base_uint) : result fault base_uint :=
  match div a b with Ok q => Ok q | Err _ => Err ArithmeticError end.

Section Pow.
(** The parameters of the network and the global [nKAWPOWActivationTime]. *)
Context (params : Params) (nKAWPOWActivationTime : Z) (nDGWActivationBlock : Z).
Context (mem : heap).

(** "Return the last non-special-min-difficulty-rules-block": the loop both
    retargeting functions share.  Heights decrease along [pprev]. *)
Fixpoint min_difficulty_walk (fuel : nat) (pindex : ptr) (nProofOfWorkLimit : Z) : result fault Z :=
  b ← deref mem pindex;
  match pprev b with
  | None => Ok (nBits b)
  | Some q =>
    i ← or_trap (DifficultyAdjustmentInterval params);
    r ← or_trap (c_rem (nHeight b) i);
    if negb (r =? 0) && (nBits b =? nProofOfWorkLimit)
    then match fuel with
         | O => Err OutOfFuel
         | S fuel => min_difficulty_walk fuel q nProofOfWorkLimit
         end
    else Ok (nBits b)
  end.

Definition nPastBlocks : Z := 180.

(** The averaging loop of [DarkGravityWave]: [n] blocks remain, the next one is
    number [nCountBlocks].  State: [pindex], [bnPastTargetAvg],
    [nKAWPOWBlocksFound]. *)
Fixpoint dgw_loop (n : nat) (nCountBlocks : Z) (pindex : ptr) (bnPastTargetAvg : base_uint)
  (nKAWPOWBlocksFound : Z) : result fault (ptr * base_uint * Z) :=
  match n with
  | O => Ok (pindex, bnPastTargetAvg, nKAWPOWBlocksFound)
  | S n =>
    b ← deref mem pindex;
    let bnTarget := compact_value (nBits b) in
    avg ← (if nCountBlocks =? 1 then Ok bnTarget
           else bn_div (add (mul32 bnPastTargetAvg nCountBlocks) bnTarget)
                       (of_uint64 (nCountBlocks + 1)));
    let found := if nTime b >=? nKAWPOWActivationTime
                 then nKAWPOWBlocksFound + 1 else nKAWPOWBlocksFound in
    next ← (if negb (nCountBlocks =? nPastBlocks)
            then match pprev b with Some q => Ok q | None => Err AssertFailure end
            else Ok pindex);
    dgw_loop n (nCountBlocks + 1) next avg found
  end.

Definition clamp_timespan (nActualTimespan lo hi : Z) : Z :=
  let t := if nActualTimespan <? lo then lo else nActualTimespan in
  if t >? hi then hi else t.

(** The retarget step: multiply (by the [uint32_t] overload), divide, cap. *)
Definition retarget (bnNew : base_uint) (nActualTimespan nTargetTimespan : Z) (bnPowLimit : base_uint)
  : result fault Z :=
  bnNew ← bn_div (mul32 bnNew (u32 nActualTimespan)) (of_uint64 (u64 nTargetTimespan));
  get_compact (if CompareTo bnNew bnPowLimit >? 0 then bnPowLimit else bnNew).

Definition DarkGravityWave (pindexLast : ptr) (pblock : CBlockHeader) : result fault Z :=
  let bnPowLimit := UintToArith256 (powLimit params) in
  nProofOfWorkLimit ← get_compact bnPowLimit;
  last ← deref mem pindexLast;
  if nHeight last <? nPastBlocks then get_compact bnPowLimit
  else if fPowAllowMinDifficultyBlocks params && fPowNoRetargeting params then
    if hdr_nTime pblock >? GetBlockTime last + nPowTargetSpacing params * 2 then Ok nProofOfWorkLimit
    else min_difficulty_walk (Z.to_nat (nHeight last)) pindexLast nProofOfWorkLimit
  else
    '(pindex, bnPastTargetAvg, nKAWPOWBlocksFound)
      ← dgw_loop (Z.to_nat nPastBlocks) 1 pindexLast base_uint_zero 0;
    if (hdr_nTime pblock >=? nKAWPOWActivationTime) && negb (nKAWPOWBlocksFound =? nPastBlocks)
    then get_compact (UintToArith256 (kawpowLimit params))
    else
      first ← deref mem pindex;
      let nTargetTimespan := nPastBlocks * nPowTargetSpacing params in
      let nActualTimespan :=
        clamp_timespan (GetBlockTime last - GetBlockTime first) (Z.quot nTargetTimespan 3) (nTargetTimespan * 3) in
      retarget bnPastTargetAvg nActualTimespan nTargetTimespan bnPowLimit.

Definition CalculateNextWorkRequired (pindexLast : ptr) (nFirstBlockTime : Z) : result fault Z :=
  last ← deref mem pindexLast;
  if fPowNoRetargeting params then Ok (nBits last)
  else
    let nActualTimespan :=
      clamp_timespan (GetBlockTime last - nFirstBlockTime)
        (Z.quot (nPowTargetTimespan params) 4) (nPowTargetTimespan params * 4) in
    retarget (compact_value (nBits last)) nActualTimespan (nPowTargetTimespan params)
      (UintToArith256 (powLimit params)).

Definition GetNextWorkRequiredBTC (pindexLast : ptr) (pblock : CBlockHeader) : result fault Z :=
  nProofOfWorkLimit ← get_compact (UintToArith256 (powLimit params));
  last ← deref mem pindexLast;
  interval ← or_trap (DifficultyAdjustmentInterval params);
  r ← or_trap (c_rem (nHeight last + 1) interval);
  if negb (r =? 0) then
    if fPowAllowMinDifficultyBlocks params then
      if hdr_nTime pblock >? GetBlockTime last + nPowTargetSpacing params * 2 then Ok nProofOfWorkLimit
      else min_difficulty_walk (Z.to_nat (nHeight last)) pindexLast nProofOfWorkLimit
    else Ok (nBits last)
  else
    let nHeightFirst := i32 (nHeight last - (interval - 1)) in
    if negb (nHeightFirst >=? 0) then Err AssertFailure
    else
      q ← GetAncestor mem pindexLast nHeightFirst;
      match q with
      | None => Err AssertFailure
      | Some q => first ← deref mem q; CalculateNextWorkRequired pindexLast (GetBlockTime first)
      end.

(** [IsDGWActive] of [src/validation.cpp]. *)
Definition IsDGWActive (nBlockNumber : Z) : bool := nBlockNumber >=? nDGWActivationBlock.

Definition GetNextWorkRequired (pindexLast : ptr) (pblock : CBlockHeader) : result fault Z :=
  last ← deref mem pindexLast;
  if IsDGWActive (u32 (nHeight last + 1)) then DarkGravityWave pindexLast pblock
  else GetNextWorkRequiredBTC pindexLast pblock.

Definition CheckProofOfWork (hash : bytes) (nBits : Z) : bool :=
  let '(bnTarget, fNegative, fOverflow) := SetCompact nBits in
  if fNegative || EqualTo bnTarget 0 || fOverflow
     || (CompareTo bnTarget (UintToArith256 (powLimit params)) >? 0) then false
  else if CompareTo (UintToArith256 hash) bnTarget >? 0 then false
  else true.
End Pow.

(** ** Lemmas *)

(** A target word a block may carry: no sign, no overflow, at most [limit]. *)
Definition valid_bits (limit c : Z) : Prop :=
  is_u32 c /\ (SetCompact c).1.2 = false /\ (SetCompact c).2 = false /\ eval (compact_value c) <= limit.

Lemma compact_value_wf c : is_u32 c -> wf (compact_value c).
Proof.
  intros Hc. pose proof (SetCompact_spec c Hc) as H. unfold compact_value.
  destruct (SetCompact c) as [[v n] o]. apply H.
Qed.

Lemma get_compact_valid a limit :
  wf a -> eval a <= limit -> exists c, get_compact a = Ok c /\ valid_bits limit c.
Proof.
  intros Ha Hl. destruct (GetCompact_decode a Ha) as (c & Hc & Hu & H).
  exists c. unfold get_compact, valid_bits, compact_value. rewrite Hc.
  destruct (SetCompact c) as [[v n] o]. destruct H as (? & -> & -> & ? & _). splits; [done|done|done|done|cbn; lia].
Qed.

Lemma bn_div_spec a b :
  wf a -> wf b -> eval b <> 0 -> exists q, bn_div a b = Ok q /\ wf q /\ eval q = eval a / eval b.
Proof.
  intros Ha Hb Hn. unfold bn_div. pose proof (div_spec a b Ha Hb) as H.
  destruct (div a b) as [q|[]]; [|done]. destruct H as (_ & ? & ?). by exists q.
Qed.

Lemma clamp_timespan_spec x lo hi : lo <= hi -> clamp_timespan x lo hi = Z.min hi (Z.max lo x).
Proof.
  intros H. unfold clamp_timespan. destruct (Z.ltb_spec x lo); rewrite Z.gtb_ltb;
    destruct (Z.ltb_spec hi lo), (Z.ltb_spec hi x); lia.
Qed.

Lemma retarget_spec bnNew actual target limit :
  wf bnNew -> wf limit -> is_u64 target -> target <> 0 ->
  exists c, retarget bnNew actual target limit = Ok c /\ valid_bits (eval limit) c
    /\ exists v, wf v /\ get_compact v = Ok c
         /\ eval v = Z.min (eval limit) ((eval bnNew * u32 actual) mod 2 ^ 256 / target).
Proof.
  intros Hn Hl Ht Hz. unfold retarget. rewrite (u64_id target) by done.
  destruct (of_uint64_spec target Ht) as [Hwt Het].
  destruct (mul32_spec bnNew (u32 actual) Hn (u32_range _)) as [Hwm Hem].
  destruct (bn_div_spec _ _ Hwm Hwt) as (q & Hq & Hwq & Heq); [lia|]. rewrite Hq. cbn [mbind result_bind].
  rewrite Hem, Het in Heq. rewrite CompareTo_spec by done.
  set (v := if Z.sgn (eval q - eval limit) >? 0 then limit else q).
  assert (Hv : wf v /\ eval v = Z.min (eval limit) (eval q)).
  { subst v. destruct (Z.sgn (eval q - eval limit) >? 0) eqn:E; b2p; split; try done; lia. }
  destruct Hv as [Hwv Hev]. destruct (get_compact_valid v (eval limit) Hwv) as (c & Hc & Hval); [lia|].
  exists c. splits; [done|done|]. exists v. splits; [done|done|]. by rewrite Hev, Heq.
Qed.

(** The running average of the loop, over the targets it has read. *)
Definition dgw_avg_step (n avg t : Z) : Z := if n =? 1 then t else (avg * n + t) / (n + 1).
Fixpoint dgw_average (n avg : Z) (ts : list Z) : Z :=
  match ts with [] => avg | t :: ts => dgw_average (n + 1) (dgw_avg_step n avg t) ts end.

(** Targets of the [n] blocks from [p] back, newest first. *)
Fixpoint targets_back (mem : heap) (n : nat) (p : ptr) : list Z :=
  match n with
  | O => []
  | S n => match mem !! p with
           | None => []
           | Some b => eval (compact_value (nBits b)) ::
                       match pprev b with Some q => targets_back mem n q | None => [] end
           end
  end.

(** How many of the [n] blocks from [p] back are at or after the KAWPOW activation. *)
Fixpoint kawpow_back (mem : heap) (kawpowTime : Z) (n : nat) (p : ptr) : Z :=
  match n with
  | O => 0
  | S n => match mem !! p with
           | None => 0
           | Some b => (if nTime b >=? kawpowTime then 1 else 0) +
                       match pprev b with Some q => kawpow_back mem kawpowTime n q | None => 0 end
           end
  end.

Definition bits_ok (mem : heap) (limit : Z) : Prop := forall p b, mem !! p = Some b -> valid_bits limit (nBits b).

Lemma dgw_avg_bound n avg t limit :
  1 <= n -> 0 <= avg <= limit -> 0 <= t <= limit -> 0 <= dgw_avg_step n avg t <= limit.
Proof.
  intros Hn Ha Ht. unfold dgw_avg_step. destruct (Z.eqb_spec n 1); [lia|].
  split; [apply Z.div_pos; nia|]. apply Z.div_le_upper_bound; nia.
Qed.

Lemma dgw_average_bound ts : forall n avg limit,
  1 <= n -> 0 <= avg <= limit -> Forall (fun t => 0 <= t <= limit) ts -> 0 <= dgw_average n avg ts <= limit.
Proof.
  induction ts as [|t ts IH]; intros n avg limit Hn Ha Hts; [done|].
  inversion Hts; subst. cbn [dgw_average]. apply IH; [lia|by apply dgw_avg_bound|done].
Qed.

Lemma targets_back_bound mem limit :
  bits_ok mem limit -> forall n p, Forall (fun t => 0 <= t <= limit) (targets_back mem n p).
Proof.
  intros Hb n. induction n as [|n IH]; intros p; [constructor|]. cbn [targets_back].
  destruct (mem !! p) as [b|] eqn:Hp; [|constructor]. constructor; [|destruct (pprev b); [apply IH|constructor]].
  destruct (Hb p b Hp) as (Hu & _ & _ & Hle).
  pose proof (eval_wf_range _ (compact_value_wf _ Hu)). lia.
Qed.

Section PowProofs.
Context (params : Params) (kawpowTime : Z) (mem : heap) (limit : Z).
Context (Hindex : index_ok mem) (Hbits : bits_ok mem limit).
Context (Hlimit : 0 <= limit).

Lemma entry_target p b :
  mem !! p = Some b -> wf (compact_value (nBits b)) /\ 0 <= eval (compact_value (nBits b)) <= limit.
Proof.
  intros Hb. destruct (Hbits p b Hb) as (Hu & _ & _ & Hle).
  pose proof (compact_value_wf _ Hu) as Hw. pose proof (eval_wf_range _ Hw). split; [done|lia].
Qed.

Lemma dgw_avg_update n avg t :
  limit * 181 < 2 ^ 256 -> 1 <= n <= 180 -> wf avg -> wf t -> 0 <= eval avg <= limit -> 0 <= eval t <= limit ->
  exists q, (if n =? 1 then Ok t else bn_div (add (mul32 avg n) t) (of_uint64 (n + 1))) = Ok q
    /\ wf q /\ eval q = dgw_avg_step n (eval avg) (eval t).
Proof.
  intros Hl Hn Hwa Hwt Ha Ht. unfold dgw_avg_step. destruct (Z.eqb_spec n 1) as [->|Hne]; [by exists t|].
  destruct (mul32_spec avg n Hwa) as [Hwm Hem]; [ranges; lia|].
  destruct (add_spec _ t Hwm Hwt) as [Hws Hes].
  destruct (of_uint64_spec (n + 1)) as [Hw1 He1]; [ranges; lia|].
  destruct (bn_div_spec _ _ Hws Hw1) as (q & Hq & Hwq & Heq); [lia|].
  exists q. splits; [done|done|]. rewrite Heq, He1, Hes, Hem.
  rewrite (Z.mod_small (eval avg * n)) by nia. rewrite Z.mod_small by nia. done.
Qed.

(** Wrap-around free running of the averaging loop. *)
Lemma dgw_loop_spec n : forall count p b avg found,
  limit * 181 < 2 ^ 256 ->
  mem !! p = Some b -> 1 <= count -> count + Z.of_nat n = 181 ->
  Z.of_nat n <= nHeight b + 1 -> wf avg -> 0 <= eval avg <= limit ->
  exists q bq avg' found', dgw_loop kawpowTime mem n count p avg found = Ok (q, avg', found')
    /\ mem !! q = Some bq /\ wf avg' /\ prevs mem (n - 1) p = Some q
    /\ eval avg' = dgw_average count (eval avg) (targets_back mem n p)
    /\ found' = found + kawpow_back mem kawpowTime n p.
Proof.
  induction n as [|n IH]; intros count p b avg found Hl Hp Hc Hsum Hh Hwa Ha.
  { exists p, b, avg, found. splits; try done. cbn. lia. }
  cbn [dgw_loop targets_back kawpow_back]. unfold deref. rewrite Hp. cbn [mbind result_bind].
  destruct (entry_target p b Hp) as [Hwt Ht].
  destruct (dgw_avg_update count avg (compact_value (nBits b)) Hl ltac:(lia) Hwa Hwt Ha Ht) as (a' & Ha' & Hwa' & Hea').
  rewrite Ha'. cbn [mbind result_bind]. destruct (proj1 Hindex _ _ Hp) as [H0 Hprev].
  set (f := if nTime b >=? kawpowTime then found + 1 else found).
  pose proof (dgw_avg_bound count _ _ limit Hc Ha Ht) as Hb.
  destruct n as [|n].
  - assert (count = 180) as -> by lia. change (180 =? nPastBlocks) with true. cbn [negb mbind result_bind].
    cbn [dgw_loop]. exists p, b, a', f. splits; [done|done|done|done| |].
    + destruct (pprev b); cbn; by rewrite Hea'.
    + subst f. destruct (pprev b); cbn; destruct (_ >=? _); lia.
  - destruct (Z.eqb_spec count nPastBlocks) as [E|_]; [unfold nPastBlocks in E; lia|]. cbn [negb].
    destruct (pprev b) as [q|] eqn:Eq; [|lia]. destruct Hprev as (bq & Hq & Hhq). cbn [mbind result_bind].
    destruct (IH (count + 1) q bq a' f Hl Hq ltac:(lia) ltac:(lia) ltac:(lia) Hwa' ltac:(rewrite Hea'; lia))
      as (r & br & av & fo & -> & Hr & Hwv & Hpr & Hev & Hfo).
    exists r, br, av, fo. splits; [done|done|done| | |].
    + replace (S (S n) - 1)%nat with (S (S n - 1)) by lia. cbn [prevs]. rewrite Hp. cbn. by rewrite Eq.
    + rewrite Hev, Hea'. done.
    + rewrite Hfo. subst f. destruct (_ >=? _); lia.
Qed.

(** The walk of the minimum-difficulty rule returns the bits of some block. *)
Lemma min_difficulty_walk_spec i fuel : forall p b c,
  DifficultyAdjustmentInterval params = Some i -> i <> 0 ->
  mem !! p = Some b -> nHeight b <= Z.of_nat fuel ->
  exists q bq, min_difficulty_walk params mem fuel p c = Ok (nBits bq) /\ mem !! q = Some bq
    /\ is_ancestor mem q p.
Proof.
  intros p b c Hi Hi0. revert p b. induction fuel as [|fuel IH]; intros p b Hp Hh;
    cbn [min_difficulty_walk]; unfold deref; rewrite Hp; cbn [mbind result_bind];
    destruct (proj1 Hindex _ _ Hp) as [H0 Hprev];
    (destruct (pprev b) as [q|] eqn:Eq; [|exists p, b; splits; [done|done|apply is_ancestor_refl]]);
    destruct Hprev as (bq & Hq & Hhq); destruct (proj1 Hindex _ _ Hq) as [Hq0 _]; [lia|].
  rewrite Hi. cbn [or_trap mbind result_bind]. unfold c_rem.
  destruct (Z.eqb_spec i 0); [done|]. cbn [or_trap mbind result_bind].
  destruct (negb _ && _).
  - destruct (IH q bq Hq ltac:(lia)) as (x & bx & -> & Hx & Hanc). exists x, bx. splits; [done|done|].
    eapply is_ancestor_trans; [done|]. by eapply is_ancestor_parent.
  - exists p, b. splits; [done|done|apply is_ancestor_refl].
Qed.
End PowProofs.

(** What the network parameters have to satisfy. *)
Record pow_params_ok (params : Params) : Prop := {
  pp_limit : is_bytes (powLimit params);
  pp_kawpow : is_bytes (kawpowLimit params);
  pp_kawpow_le : eval (UintToArith256 (kawpowLimit params)) <= eval (UintToArith256 (powLimit params));
  pp_spacing : 0 < nPowTargetSpacing params;
  pp_timespan : nPowTargetSpacing params <= nPowTargetTimespan params < 2 ^ 31;
  pp_wrap : fPowAllowMinDifficultyBlocks params && fPowNoRetargeting params = true
            \/ eval (UintToArith256 (powLimit params)) * 181 < 2 ^ 256;
}.

Abbreviation pow_limit params := (eval (UintToArith256 (powLimit params))).

Lemma interval_ok params :
  pow_params_ok params ->
  exists i, DifficultyAdjustmentInterval params = Some i /\ 1 <= i < 2 ^ 31.
Proof.
  intros H. pose proof (pp_spacing _ H); pose proof (pp_timespan _ H). unfold DifficultyAdjustmentInterval, c_div.
  destruct (Z.eqb_spec (nPowTargetSpacing params) 0); [lia|]. eexists; split; [done|].
  rewrite Z.quot_div_nonneg by lia. split.
  - apply Z.div_le_lower_bound; lia.
  - apply Z.div_lt_upper_bound; nia.
Qed.

Lemma DarkGravityWave_valid params kt mem p b hdr :
  pow_params_ok params -> index_ok mem -> bits_ok mem (pow_limit params) -> mem !! p = Some b ->
  exists c, DarkGravityWave params kt mem p hdr = Ok c /\ valid_bits (pow_limit params) c.
Proof.
  intros Hpp Hi Hb Hp. pose proof (UintToArith256_wf _ (pp_limit _ Hpp)) as Hwl.
  pose proof (UintToArith256_wf _ (pp_kawpow _ Hpp)) as Hwk. pose proof (eval_wf_range _ Hwl) as Hlr.
  destruct (get_compact_valid _ (pow_limit params) Hwl) as (cl & Hcl & Hvl); [lia|].
  unfold DarkGravityWave. rewrite Hcl. cbn [mbind result_bind]. rewrite (deref_ok _ _ _ Hp). cbn [mbind result_bind].
  destruct (proj1 Hi _ _ Hp) as [H0 _].
  destruct (Z.ltb_spec (nHeight b) nPastBlocks) as [|Hge]; [by exists cl|]. unfold nPastBlocks in Hge.
  destruct (fPowAllowMinDifficultyBlocks params && fPowNoRetargeting params) eqn:Emin.
  - destruct (hdr_nTime hdr >? _); [by exists cl|].
    destruct (interval_ok _ Hpp) as (i & Hint & Hir).
    destruct (min_difficulty_walk_spec params mem Hi i (Z.to_nat (nHeight b)) p b cl Hint) as (q & bq & -> & Hq & _);
      [lia|done|lia|]. exists (nBits bq). split; [done|]. by apply (Hb q).
  - destruct (pp_wrap _ Hpp) as [|Hwrap]; [congruence|].
    destruct (dgw_loop_spec kt mem (pow_limit params) Hi Hb ltac:(lia) (Z.to_nat nPastBlocks) 1 p b base_uint_zero 0)
      as (q & bq & av & fo & -> & Hq & Hwa & _); try (unfold nPastBlocks; lia); try done.
    { apply base_uint_zero_wf. }
    { rewrite base_uint_zero_eval. lia. }
    cbn [mbind result_bind]. destruct (_ && negb _).
    + destruct (get_compact_valid _ (pow_limit params) Hwk (pp_kawpow_le _ Hpp)) as (c & ? & ?). by exists c.
    + rewrite (deref_ok _ _ _ Hq). cbn [mbind result_bind]. pose proof (pp_spacing _ Hpp); pose proof (pp_timespan _ Hpp).
      destruct (retarget_spec av (clamp_timespan (GetBlockTime b - GetBlockTime bq)
        (Z.quot (nPastBlocks * nPowTargetSpacing params) 3) (nPastBlocks * nPowTargetSpacing params * 3))
        (nPastBlocks * nPowTargetSpacing params) _ Hwa Hwl) as (c & Hc & Hv & _).
      * unfold nPastBlocks. ranges. lia.
      * unfold nPastBlocks. lia.
      * by exists c.
Qed.

Lemma GetNextWorkRequiredBTC_valid params mem p b hdr :
  pow_params_ok params -> index_ok mem -> bits_ok mem (pow_limit params) -> mem !! p = Some b ->
  nHeight b < 2 ^ 31 - 1 ->
  exists c, GetNextWorkRequiredBTC params mem p hdr = Ok c /\ valid_bits (pow_limit params) c.
Proof.
  intros Hpp Hi Hb Hp Hh. pose proof (UintToArith256_wf _ (pp_limit _ Hpp)) as Hwl.
  pose proof (eval_wf_range _ Hwl) as Hlr.
  destruct (get_compact_valid _ (pow_limit params) Hwl) as (cl & Hcl & Hvl); [lia|].
  destruct (interval_ok _ Hpp) as (i & Hint & Hir). destruct (proj1 Hi _ _ Hp) as [H0 _].
  unfold GetNextWorkRequiredBTC. rewrite Hcl. cbn [mbind result_bind].
  rewrite (deref_ok _ _ _ Hp). cbn [mbind result_bind]. rewrite Hint. cbn [or_trap mbind result_bind].
  unfold c_rem. destruct (Z.eqb_spec i 0); [lia|]. cbn [or_trap mbind result_bind].
  rewrite Z.rem_mod_nonneg by lia.
  destruct (Z.eqb_spec ((nHeight b + 1) mod i) 0) as [Hz|Hnz]; cbn [negb].
  - assert (Hfirst : 0 <= nHeight b - (i - 1)).
    { apply Z.mod_divide in Hz; [|lia]. destruct Hz as [k Hk]. assert (1 <= k) by nia. nia. }
    rewrite i32_id by (ranges; lia).
    destruct (nHeight b - (i - 1) >=? 0) eqn:E; b2p; [|lia]. cbn [negb].
    rewrite (GetAncestor_spec mem p b) by done. cbn [mbind result_bind].
    destruct (ancestor_at_total mem p b (nHeight b - (i - 1)) (proj1 Hi) Hp ltac:(lia)) as (q & bq & -> & Hq & _).
    rewrite (deref_ok _ _ _ Hq). cbn [mbind result_bind].
    unfold CalculateNextWorkRequired. rewrite (deref_ok _ _ _ Hp). cbn [mbind result_bind].
    destruct (fPowNoRetargeting params); [exists (nBits b); split; [done|by apply (Hb p)]|].
    destruct (Hb p b Hp) as (Hu & _). pose proof (pp_spacing _ Hpp); pose proof (pp_timespan _ Hpp).
    destruct (retarget_spec (compact_value (nBits b))
      (clamp_timespan (GetBlockTime b - GetBlockTime bq) (Z.quot (nPowTargetTimespan params) 4)
         (nPowTargetTimespan params * 4)) (nPowTargetTimespan params) _ (compact_value_wf _ Hu) Hwl)
      as (c & Hc & Hv & _); [ranges; lia|lia|]. by exists c.
  - destruct (fPowAllowMinDifficultyBlocks params); [|exists (nBits b); split; [done|by apply (Hb p)]].
    destruct (hdr_nTime hdr >? _); [by exists cl|].
    destruct (min_difficulty_walk_spec params mem Hi i (Z.to_nat (nHeight b)) p b cl Hint) as (q & bq & -> & Hq & _);
      [lia|done|lia|]. exists (nBits bq). split; [done|]. by apply (Hb q).
Qed.

Lemma GetNextWorkRequired_valid params kt dgw mem p b hdr :
  pow_params_ok params -> index_ok mem -> bits_ok mem (pow_limit params) -> mem !! p = Some b ->
  nHeight b < 2 ^ 31 - 1 ->
  exists c, GetNextWorkRequired params kt dgw mem p hdr = Ok c /\ valid_bits (pow_limit params) c.
Proof.
  intros Hpp Hi Hb Hp Hh. unfold GetNextWorkRequired. rewrite (deref_ok _ _ _ Hp). cbn [mbind result_bind].
  destruct (IsDGWActive _ _); [by eapply DarkGravityWave_valid|by eapply GetNextWorkRequiredBTC_valid].
Qed.

Lemma line_heap_bits bits n limit : valid_bits limit bits -> bits_ok (line_heap bits n) limit.
Proof. intros Hv p b Hb. apply line_heap_inv in Hb. by destruct Hb as (i & _ & ->). Qed.

Lemma main_params_ok : pow_params_ok main_params.
Proof.
  split; try (cbn; lia).
  - apply le_split_bytes.
  - apply le_split_bytes.
  - by vm_compute.
  - right. by vm_compute.
Qed.

Definition ex_bits : Z := 0x1d00ffff.
Definition ex_header (t : Z) : CBlockHeader :=
  {| hdr_nVersion := 0; hdr_hashPrevBlock := null_uint256; hdr_hashMerkleRoot := null_uint256;
     hdr_nTime := t; hdr_nBits := 0; hdr_nNonce := 0; hdr_nHeight := 0; hdr_nNonce64 := 0;
     hdr_mix_hash := null_uint256 |}.
Lemma ex_bits_valid : valid_bits (pow_limit main_params) ex_bits.
Proof. by vm_compute. Qed.

(** ** Properties *)

(** C18: [CheckProofOfWork] accepts a hash exactly when the compact target decodes
    without sign or overflow to a number between 1 and the network's limit and the
    hash, read as a 256-bit number, does not exceed it. *)
Theorem CheckProofOfWork_iff (params : Params) (hash : bytes) (bits : Z) :
  is_u32 bits -> is_bytes hash -> length hash = 32%nat -> is_bytes (powLimit params) ->
  CheckProofOfWork params hash bits = true
  <-> compact_negative bits = false
      /\ 0 < compact_number bits <= pow_limit params
      /\ compact_number bits < 2 ^ 256
      /\ le_combine hash <= compact_number bits.
Proof.
  intros Hb Hh Hlen Hl. unfold CheckProofOfWork. pose proof (SetCompact_spec bits Hb) as Hs.
  destruct (SetCompact bits) as [[t n] o]. destruct Hs as (Hwt & Het & -> & Ho).
  pose proof (compact_number_nonneg bits Hb) as Hnn.
  rewrite (EqualTo_spec t 0) by (done || ranges; lia).
  rewrite !CompareTo_spec by (done || by apply UintToArith256_wf).
  rewrite (UintToArith256_eval hash) by done. split.
  - intros H. destruct (_ || _) eqn:E1; [done|]. destruct (_ >? 0) eqn:E2 in H; [done|]. b2p.
    assert (compact_number bits < 2 ^ 256) by (apply Z.nle_gt; intros Hge; apply Ho in Hge; congruence).
    rewrite Z.mod_small in Het by lia. splits; try done; lia.
  - intros (-> & Hr & Hlt & Hle). rewrite Z.mod_small in Het by lia. rewrite Het.
    destruct o; [lia|]. repeat split_if; lia || done.
Qed.

Lemma CheckProofOfWork_iff_witness :
  CheckProofOfWork main_params (uint256_of_Z 12345) ex_bits = true
  <-> compact_negative ex_bits = false
      /\ 0 < compact_number ex_bits <= pow_limit main_params
      /\ compact_number ex_bits < 2 ^ 256
      /\ le_combine (uint256_of_Z 12345) <= compact_number ex_bits.
Proof.
  apply (CheckProofOfWork_iff main_params (uint256_of_Z 12345) ex_bits);
    [vm_compute; split; [discriminate|reflexivity]|apply le_split_bytes|reflexivity|apply le_split_bytes].
Defined.

(** C11: on a well-formed block index whose blocks carry valid targets, the required
    work of the next block is always computed (no null pointer, failed assertion or
    division by zero, on either side of the DarkGravityWave activation), and it is again a valid
    target: without sign, without overflow, and at most the network's limit. *)
Theorem GetNextWorkRequired_total_valid (params : Params) (kt dgw : Z) (mem : heap) (p : ptr) (b : CBlockIndex)
  (hdr : CBlockHeader) :
  pow_params_ok params -> index_ok mem -> bits_ok mem (pow_limit params) -> mem !! p = Some b ->
  nHeight b < 2 ^ 31 - 1 ->
  exists c, GetNextWorkRequired params kt dgw mem p hdr = Ok c /\ valid_bits (pow_limit params) c.
Proof. apply GetNextWorkRequired_valid. Qed.

Lemma GetNextWorkRequired_total_valid_witness :
  exists c, GetNextWorkRequired main_params 500 100 (line_heap ex_bits 200) 190%positive (ex_header 20000) = Ok c
    /\ valid_bits (pow_limit main_params) c.
Proof.
  apply (GetNextWorkRequired_total_valid main_params 500 100 (line_heap ex_bits 200) 190%positive (line_entry ex_bits 189));
    [exact main_params_ok|apply line_heap_ok|apply line_heap_bits; exact ex_bits_valid|vm_compute; reflexivity|
     vm_compute; reflexivity].
Defined.

(** C10: past the first 180 blocks, outside the KAWPOW transition, [DarkGravityWave] is
    exact: its 256-bit accumulator never wraps, and the result is the compact form of
    the averaged target scaled by the clamped timespan of the last 180 blocks and
    capped by the network's limit.  During the transition it is the KAWPOW limit. *)
Theorem DarkGravityWave_exact (params : Params) (kt : Z) (mem : heap) (p : ptr) (b : CBlockIndex)
  (hdr : CBlockHeader) :
  pow_params_ok params -> index_ok mem -> bits_ok mem (pow_limit params) -> mem !! p = Some b ->
  180 <= nHeight b -> fPowNoRetargeting params = false -> nPowTargetSpacing params < 2 ^ 22 ->
  pow_limit params * (180 * nPowTargetSpacing params * 3) < 2 ^ 256 ->
  if (hdr_nTime hdr >=? kt) && negb (kawpow_back mem kt 180 p =? 180)
  then DarkGravityWave params kt mem p hdr = get_compact (UintToArith256 (kawpowLimit params))
  else exists q first v,
      prevs mem 179 p = Some q /\ mem !! q = Some first /\ wf v
      /\ DarkGravityWave params kt mem p hdr = get_compact v
      /\ let target := 180 * nPowTargetSpacing params in
         eval v = Z.min (pow_limit params)
                    (dgw_average 1 0 (targets_back mem 180 p)
                     * Z.min (target * 3) (Z.max (target / 3) (nTime b - nTime first)) / target).
Proof.
  intros Hpp Hi Hb Hp Hh Hnr Hsp Hov. pose proof (UintToArith256_wf _ (pp_limit _ Hpp)) as Hwl.
  pose proof (eval_wf_range _ Hwl) as Hlr. pose proof (pp_spacing _ Hpp) as Hs0.
  destruct (get_compact_valid _ (pow_limit params) Hwl) as (cl & Hcl & _); [lia|].
  unfold DarkGravityWave. rewrite Hcl. cbn [mbind result_bind].
  rewrite (deref_ok _ _ _ Hp). cbn [mbind result_bind]. rewrite Hnr, andb_false_r.
  destruct (Z.ltb_spec (nHeight b) nPastBlocks) as [Hlt|_]; [unfold nPastBlocks in Hlt; lia|].
  destruct (dgw_loop_spec kt mem (pow_limit params) Hi Hb ltac:(lia) (Z.to_nat nPastBlocks) 1 p b base_uint_zero 0)
    as (q & bq & av & fo & -> & Hq & Hwa & Hpv & Hev & Hfo); try (unfold nPastBlocks; lia); try done.
  { apply base_uint_zero_wf. }
  { rewrite base_uint_zero_eval. lia. }
  change (Z.to_nat nPastBlocks) with 180%nat in Hev, Hfo, Hpv. rewrite base_uint_zero_eval in Hev.
  cbn [mbind result_bind]. rewrite Hfo, Z.add_0_l. unfold nPastBlocks. destruct (_ && negb _); [done|].
  rewrite (deref_ok _ _ _ Hq). cbn [mbind result_bind].
  set (sp := 180 * nPowTargetSpacing params).
  set (t := clamp_timespan _ _ _).
  assert (H3 : 0 <= sp / 3 <= sp * 3) by (split; [apply Z.div_pos|apply Z.div_le_upper_bound]; lia).
  assert (Ht : t = Z.min (sp * 3) (Z.max (sp / 3) (nTime b - nTime bq))).
  { subst t. unfold GetBlockTime. rewrite Z.quot_div_nonneg by lia. apply clamp_timespan_spec. lia. }
  assert (Htr : 0 <= t <= sp * 3).
  { rewrite Ht. lia. }
  destruct (retarget_spec av t sp _ Hwa Hwl) as (c & Hc & _ & v & Hwv & Hgc & Hvv); [ranges; lia|lia|].
  exists q, bq, v. splits; [done|done|done|by rewrite Hc, Hgc|]. cbv zeta. rewrite <- Ht, <- Hev.
  rewrite Hvv, (u32_id t) by (ranges; lia). rewrite Z.mod_small; [done|].
  pose proof (dgw_average_bound (targets_back mem 180 p) 1 0 (pow_limit params)
    ltac:(lia) ltac:(lia) (targets_back_bound mem _ Hb 180 p)) as Hab. rewrite <- Hev in Hab. nia.
Qed.

Lemma DarkGravityWave_exact_witness :
  exists q first v,
      prevs (line_heap ex_bits 200) 179 190%positive = Some q /\ line_heap ex_bits 200 !! q = Some first /\ wf v
      /\ DarkGravityWave main_params 500 (line_heap ex_bits 200) 190%positive (ex_header 20000) = get_compact v
      /\ let target := 180 * nPowTargetSpacing main_params in
         eval v = Z.min (pow_limit main_params)
                    (dgw_average 1 0 (targets_back (line_heap ex_bits 200) 180 190%positive)
                     * Z.min (target * 3) (Z.max (target / 3) (nTime (line_entry ex_bits 189) - nTime first)) / target).
Proof.
  apply (DarkGravityWave_exact main_params 500 (line_heap ex_bits 200) 190%positive (line_entry ex_bits 189) (ex_header 20000));
    [exact main_params_ok|apply line_heap_ok|apply line_heap_bits; exact ex_bits_valid|vm_compute; reflexivity|
     vm_compute; discriminate|reflexivity|vm_compute; reflexivity|vm_compute; reflexivity].
Defined.
