(* ===== verification/VersionBits.v ===== *)
(** * Version-bits deployments: [src/versionbits.h], [src/versionbits.cpp]

    The BIP9 state machine with its per-block cache.  The virtual methods of
    [AbstractThresholdConditionChecker] are the class [ConditionChecker];
    [VersionBitsConditionChecker] is its instance for a deployment.
    [std::map<const CBlockIndex*, ThresholdState>] is a finite map keyed by optional
    pointers ([nullptr] is the parent of genesis). *)

From S2P Require Import Prelude Endian ArithUint256 Chain MedianTime Params.

Inductive ThresholdState :=
| THRESHOLD_DEFINED
| THRESHOLD_STARTED
| THRESHOLD_LOCKED_IN
| THRESHOLD_ACTIVE
| THRESHOLD_FAILED.

#[global] Instance ThresholdState_eq_dec : EqDecision ThresholdState.
Proof. solve_decision. Defined.

Abbreviation ThresholdConditionCache := (gmap (option ptr) ThresholdState).

Record BIP9Stats := mkStats {
  stats_period : Z;
  stats_threshold : Z;
  stats_elapsed : Z;
  stats_count : Z;
  stats_possible : bool;
}.

(** The virtual methods, for fixed consensus parameters. *)
Class ConditionChecker := {
  Condition : CBlockIndex -> bool;
  BeginTime : Z;
  EndTime : Z;
  Period : Z;
  Threshold : Z;
}.

Section Checker.
Context {checker : ConditionChecker} (mem : heap).

(** The first loop of [GetStateFor]: walk back by periods until the state is known.
    The head of [vToCompute] is the back of the vector. *)
Fixpoint state_walk (fuel : nat) (pindexPrev : option ptr) (cache : ThresholdConditionCache)
  (vToCompute : list ptr) : result fault (option ptr * ThresholdConditionCache * list ptr) :=
  match cache !! pindexPrev with
  | Some _ => Ok (pindexPrev, cache, vToCompute)
  | None =>
    match pindexPrev with
    | None => Ok (None, <[None := THRESHOLD_DEFINED]> cache, vToCompute)
    | Some p =>
      t ← GetMedianTimePast mem p;
      if t <? BeginTime then Ok (pindexPrev, <[pindexPrev := THRESHOLD_DEFINED]> cache, vToCompute)
      else
        b ← deref mem p;
        q ← GetAncestor mem p (nHeight b - Period);
        match fuel with
        | O => Err OutOfFuel
        | S fuel => state_walk fuel q cache (p :: vToCompute)
        end
    end
  end.

(** "We need to count": how many of the [n] blocks from [pindexCount] back signal. *)
Fixpoint count_signals (n : nat) (pindexCount : option ptr) (count : Z) : result fault Z :=
  match n with
  | O => Ok count
  | S n =>
    b ← deref_opt mem pindexCount;
    count_signals n (pprev b) (if Condition b then count + 1 else count)
  end.

(** One transition, at the last block [pindexPrev] of a period. *)
Definition state_next (state : ThresholdState) (pindexPrev : ptr) : result fault ThresholdState :=
  match state with
  | THRESHOLD_DEFINED =>
    t ← GetMedianTimePast mem pindexPrev;
    Ok (if t >=? EndTime then THRESHOLD_FAILED
        else if t >=? BeginTime then THRESHOLD_STARTED else THRESHOLD_DEFINED)
  | THRESHOLD_STARTED =>
    t ← GetMedianTimePast mem pindexPrev;
    if t >=? EndTime then Ok THRESHOLD_FAILED
    else
      count ← count_signals (Z.to_nat Period) (Some pindexPrev) 0;
      Ok (if count >=? Threshold then THRESHOLD_LOCKED_IN else THRESHOLD_STARTED)
  | THRESHOLD_LOCKED_IN => Ok THRESHOLD_ACTIVE
  | THRESHOLD_FAILED | THRESHOLD_ACTIVE => Ok state
  end.

(** The second loop: walk forward and fill the cache. *)
Fixpoint state_forward (state : ThresholdState) (cache : ThresholdConditionCache) (vToCompute : list ptr)
  : result fault (ThresholdState * ThresholdConditionCache) :=
  match vToCompute with
  | [] => Ok (state, cache)
  | p :: rest =>
    stateNext ← state_next state p;
    state_forward stateNext (<[Some p := stateNext]> cache) rest
  end.

(** "A block's state is always the same as that of the first of its period": the
    last block of the previous period. *)
Definition period_parent (pindexPrev : ptr) : result fault (option ptr) :=
  b ← deref mem pindexPrev;
  match c_rem (nHeight b + 1) Period with
  | None => Err ArithmeticError
  | Some r => GetAncestor mem pindexPrev (nHeight b - r)
  end.

Definition GetStateFor (pindexPrev : option ptr) (cache : ThresholdConditionCache)
  : result fault (ThresholdState * ThresholdConditionCache) :=
  start ← (match pindexPrev with Some p => period_parent p | None => Ok None end);
  fuel ← (match start with Some p => b ← deref mem p; Ok (Z.to_nat (nHeight b + 1)) | None => Ok O end);
  '(known, cache, vToCompute) ← state_walk fuel start cache [];
  match cache !! known with
  | None => Err AssertFailure
  | Some state => state_forward state cache vToCompute
  end.

(** The counting loop of [GetStateStatisticsFor]. *)
Fixpoint stats_loop (fuel : nat) (endHeight : Z) (currentIndex : option ptr) (count : Z) : result fault Z :=
  b ← deref_opt mem currentIndex;
  if endHeight =? nHeight b then Ok count
  else match fuel with
       | O => Err OutOfFuel
       | S fuel => stats_loop fuel endHeight (pprev b) (if Condition b then count + 1 else count)
       end.

Definition GetStateStatisticsFor (pindex : option ptr) : result fault BIP9Stats :=
  match pindex with
  | None => Ok {| stats_period := Period; stats_threshold := Threshold; stats_elapsed := 0;
                  stats_count := 0; stats_possible := false |}
  | Some p =>
    b ← deref mem p;
    q ← period_parent p;
    e ← deref_opt mem q;
    let elapsed := nHeight b - nHeight e in
    count ← stats_loop (Z.to_nat elapsed) (nHeight e) pindex 0;
    Ok {| stats_period := Period; stats_threshold := Threshold; stats_elapsed := elapsed;
          stats_count := count; stats_possible := Period - Threshold >=? elapsed - count |}
  end.

(** The loop of [GetStateSinceHeightFor] over earlier periods. *)
Fixpoint since_loop (fuel : nat) (initialState : ThresholdState) (pindexPrev : ptr)
  (previousPeriodParent : option ptr) (cache : ThresholdConditionCache)
  : result fault (Z * ThresholdConditionCache) :=
  b ← deref mem pindexPrev;
  match previousPeriodParent with
  | None => Ok (nHeight b + 1, cache)
  | Some q =>
    '(state, cache) ← GetStateFor (Some q) cache;
    if decide (state = initialState) then
      bq ← deref mem q;
      q' ← GetAncestor mem q (nHeight bq - Period);
      match fuel with
      | O => Err OutOfFuel
      | S fuel => since_loop fuel initialState q q' cache
      end
    else Ok (nHeight b + 1, cache)
  end.

Definition GetStateSinceHeightFor (pindexPrev : option ptr) (cache : ThresholdConditionCache)
  : result fault (Z * ThresholdConditionCache) :=
  '(initialState, cache) ← GetStateFor pindexPrev cache;
  if decide (initialState = THRESHOLD_DEFINED) then Ok (0, cache)
  else
    match pindexPrev with
    | None => Err NullDereference
    | Some p =>
      start ← period_parent p;
      match start with
      | None => Err NullDereference
      | Some s =>
        b ← deref mem s;
        q ← GetAncestor mem s (nHeight b - Period);
        since_loop (Z.to_nat (nHeight b + 1)) initialState s q cache
      end
    end.
End Checker.

(** ** [VersionBitsConditionChecker] *)

Inductive DeploymentPos :=
| DEPLOYMENT_TESTDUMMY
| DEPLOYMENT_ASSETS
| DEPLOYMENT_MSG_REST_ASSETS
| DEPLOYMENT_TRANSFER_SCRIPT_SIZE
| DEPLOYMENT_ENFORCE_VALUE
| DEPLOYMENT_COINBASE_ASSETS.

#[global] Instance DeploymentPos_eq_dec : EqDecision DeploymentPos.
Proof. solve_decision. Defined.

(** The enumerators in order, and the number of each. *)
Definition all_deployments : list DeploymentPos :=
  [DEPLOYMENT_TESTDUMMY; DEPLOYMENT_ASSETS; DEPLOYMENT_MSG_REST_ASSETS; DEPLOYMENT_TRANSFER_SCRIPT_SIZE;
   DEPLOYMENT_ENFORCE_VALUE; DEPLOYMENT_COINBASE_ASSETS].
Definition deployment_index (pos : DeploymentPos) : nat :=
  match pos with
  | DEPLOYMENT_TESTDUMMY => 0 | DEPLOYMENT_ASSETS => 1 | DEPLOYMENT_MSG_REST_ASSETS => 2
  | DEPLOYMENT_TRANSFER_SCRIPT_SIZE => 3 | DEPLOYMENT_ENFORCE_VALUE => 4 | DEPLOYMENT_COINBASE_ASSETS => 5
  end.

(** [params.vDeployments[id]] of an array of [MAX_VERSION_BITS_DEPLOYMENTS] entries. *)
Definition deployment (params : Params) (id : DeploymentPos) : BIP9Deployment :=
  nth (deployment_index id) (vDeployments params) (mkDeployment 0 0 0 0 0).

Definition Mask (params : Params) (id : DeploymentPos) : Z := u32 (Z.shiftl 1 (dep_bit (deployment params id))).

Definition VersionBitsConditionChecker (params : Params) (id : DeploymentPos) : ConditionChecker :=
  let d := deployment params id in
  {| BeginTime := nStartTime d;
     EndTime := nTimeout d;
     Period := i32 (if nOverrideMinerConfirmationWindow d >? 0 then nOverrideMinerConfirmationWindow d
                    else nMinerConfirmationWindow params);
     Threshold := i32 (if nOverrideRuleChangeActivationThreshold d >? 0
                       then nOverrideRuleChangeActivationThreshold d
                       else nRuleChangeActivationThreshold params);
     Condition b := negb (Z.land (u32 (nVersion b)) (Mask params id) =? 0) |}.

(** [VersionBitsCache]: one cache per deployment. *)
Definition VersionBitsCache : Type := DeploymentPos -> ThresholdConditionCache.
Definition set_cache (c : VersionBitsCache) (pos : DeploymentPos) (v : ThresholdConditionCache) : VersionBitsCache :=
  fun p => if decide (p = pos) then v else c p.
Definition VersionBitsCache_Clear (c : VersionBitsCache) : VersionBitsCache :=
  foldl (fun c pos => set_cache c pos ∅) c all_deployments.

Definition VersionBitsState (mem : heap) (params : Params) (pindexPrev : option ptr) (pos : DeploymentPos)
  (cache : VersionBitsCache) : result fault (ThresholdState * VersionBitsCache) :=
  '(s, c) ← GetStateFor (checker := VersionBitsConditionChecker params pos) mem pindexPrev (cache pos);
  Ok (s, set_cache cache pos c).

Definition VersionBitsStatistics (mem : heap) (params : Params) (pindexPrev : option ptr) (pos : DeploymentPos)
  : result fault BIP9Stats :=
  GetStateStatisticsFor (checker := VersionBitsConditionChecker params pos) mem pindexPrev.

Definition VersionBitsStateSinceHeight (mem : heap) (params : Params) (pindexPrev : option ptr)
  (pos : DeploymentPos) (cache : VersionBitsCache) : result fault (Z * VersionBitsCache) :=
  '(h, c) ← GetStateSinceHeightFor (checker := VersionBitsConditionChecker params pos) mem pindexPrev (cache pos);
  Ok (h, set_cache cache pos c).

Definition VersionBitsMask (params : Params) (pos : DeploymentPos) : Z := Mask params pos.

Definition VERSIONBITS_TOP_BITS : Z := 0x20000000.
Definition VERSIONBITS_TOP_BITS_ASSETS : Z := 0x30000000.

(** [ComputeBlockVersion] of [src/validation.cpp]; [AreAssetsDeployed], which reads
    the active tip, is the argument [assetsDeployed]. *)
Fixpoint version_loop (mem : heap) (params : Params) (pindexPrev : option ptr) (ds : list DeploymentPos)
  (nVersion : Z) (cache : VersionBitsCache) : result fault (Z * VersionBitsCache) :=
  match ds with
  | [] => Ok (nVersion, cache)
  | pos :: ds =>
    '(state, cache) ← VersionBitsState mem params pindexPrev pos cache;
    let nVersion := if bool_decide (state = THRESHOLD_LOCKED_IN) || bool_decide (state = THRESHOLD_STARTED)
                    then i32 (Z.lor (u32 nVersion) (VersionBitsMask params pos)) else nVersion in
    version_loop mem params pindexPrev ds nVersion cache
  end.

Definition ComputeBlockVersion (mem : heap) (params : Params) (assetsDeployed : bool) (pindexPrev : option ptr)
  (cache : VersionBitsCache) : result fault (Z * VersionBitsCache) :=
  version_loop mem params pindexPrev all_deployments
    (if assetsDeployed then VERSIONBITS_TOP_BITS_ASSETS else VERSIONBITS_TOP_BITS) cache.

(** ** Specification: the BIP9 state machine without a cache *)

(** What a checker promises to the state machine. *)
Class CheckerOk (checker : ConditionChecker) := {
  period_range : 1 <= Period < 2 ^ 31;
  times_ordered : BeginTime <= EndTime;
}.

Section Spec.
Context {checker : ConditionChecker} (mem : heap).

(** Signalling blocks among the [n] blocks from [p] back. *)
Fixpoint signals_back (n : nat) (p : option ptr) : Z :=
  match n, p with
  | S n, Some p => match mem !! p with
                   | Some b => (if Condition b then 1 else 0) + signals_back n (pprev b)
                   | None => 0
                   end
  | _, _ => 0
  end.

Definition bip9_next (s : ThresholdState) (p : ptr) : ThresholdState :=
  match s with
  | THRESHOLD_DEFINED =>
    if EndTime <=? mtp mem p then THRESHOLD_FAILED
    else if BeginTime <=? mtp mem p then THRESHOLD_STARTED else THRESHOLD_DEFINED
  | THRESHOLD_STARTED =>
    if EndTime <=? mtp mem p then THRESHOLD_FAILED
    else if Threshold <=? signals_back (Z.to_nat Period) (Some p) then THRESHOLD_LOCKED_IN else THRESHOLD_STARTED
  | THRESHOLD_LOCKED_IN => THRESHOLD_ACTIVE
  | s => s
  end.

(** The state for the block after [p], [p] being the last block of the [n]-th period:
    one transition per period since genesis. *)
Fixpoint bip9_state (n : nat) (p : option ptr) : ThresholdState :=
  match n, p with
  | S n, Some p => match mem !! p with
                   | Some b => bip9_next (bip9_state n (ancestor_at mem p (nHeight b - Period))) p
                   | None => THRESHOLD_DEFINED
                   end
  | _, _ => THRESHOLD_DEFINED
  end.

Definition height_of (p : option ptr) : Z :=
  match p with Some p => match mem !! p with Some b => nHeight b | None => -1 end | None => -1 end.
Definition state_of (p : option ptr) : ThresholdState := bip9_state (Z.to_nat ((height_of p + 1) / Period)) p.

(** "all keys in the map will either be nullptr or a block with (height + 1) % Period() == 0" *)
Definition aligned (p : option ptr) : Prop :=
  match p with Some p => exists b, mem !! p = Some b /\ (nHeight b + 1) mod Period = 0 | None => True end.
Definition cache_ok (c : ThresholdConditionCache) : Prop :=
  forall p s, c !! p = Some s -> aligned p /\ s = state_of p.

(** The last block of the period before the one [p]'s child is in. *)
Definition period_end (p : ptr) : option ptr :=
  ancestor_at mem p (height_of (Some p) - (height_of (Some p) + 1) mod Period).
End Spec.

(** ** Lemmas *)
Section Proofs.
Context {checker : ConditionChecker} {Hck : CheckerOk checker} (mem : heap).
Context (Hindex : index_ok mem) (Htimes : block_times_ok mem).

Lemma period_pos : 1 <= Period.
Proof. apply period_range. Qed.

Lemma height_of_some p b : mem !! p = Some b -> height_of mem (Some p) = nHeight b.
Proof. intros H. unfold height_of. by rewrite H. Qed.

Lemma count_signals_spec n : forall p b c,
  mem !! p = Some b -> Z.of_nat n <= nHeight b + 1 ->
  count_signals mem n (Some p) c = Ok (c + signals_back mem n (Some p)).
Proof.
  induction n as [|n IH]; intros p b c Hp Hn; cbn [count_signals signals_back]; [f_equal; lia|].
  cbn [deref_opt]. unfold deref. rewrite Hp. cbn [mbind result_bind].
  destruct (proj1 Hindex _ _ Hp) as [H0 Hprev]. destruct (pprev b) as [q|].
  - destruct Hprev as (bq & Hq & Hh). rewrite (IH q bq) by (done || lia).
    f_equal. destruct (Condition b); lia.
  - assert (n = 0%nat) as -> by lia. cbn. f_equal. destruct (Condition b); lia.
Qed.

Lemma aligned_height p b : mem !! p = Some b -> aligned mem (Some p) -> Period <= nHeight b + 1 /\ (nHeight b + 1) mod Period = 0.
Proof.
  pose proof period_pos as Hp1.
  intros Hp (b' & Hb' & Hm). rewrite Hp in Hb'. inversion Hb'; subst b'. split; [|done].
  destruct (proj1 Hindex _ _ Hp) as [H0 _]. apply Z.mod_divide in Hm; [|lia]. destruct Hm as [k Hk].
  assert (1 <= k) by nia. nia.
Qed.

Lemma state_next_spec s p b :
  mem !! p = Some b -> aligned mem (Some p) -> state_next mem s p = Ok (bip9_next mem s p).
Proof.
  pose proof period_pos as Hp1.
  intros Hp Ha. destruct (aligned_height p b Hp Ha) as [Hh _].
  unfold state_next, bip9_next. rewrite (GetMedianTimePast_spec mem p b) by (done || apply Hindex).
  destruct s; cbn [mbind result_bind]; rewrite ?Z.geb_leb; try done.
  destruct (EndTime <=? _); [done|].
  rewrite (count_signals_spec _ p b) by (done || lia). cbn [mbind result_bind].
  by rewrite Z.add_0_l, Z.geb_leb.
Qed.

(** The previous period of an aligned block, and the transition from it. *)
Lemma prev_period p b :
  mem !! p = Some b -> aligned mem (Some p) ->
  let q := ancestor_at mem p (nHeight b - Period) in
  aligned mem q /\ state_of mem (Some p) = bip9_next mem (state_of mem q) p
  /\ height_of mem q = nHeight b - Period.
Proof.
  pose proof period_pos as Hp1.
  intros Hp Ha q. destruct (aligned_height p b Hp Ha) as [Hh Hm].
  assert (Hq : aligned mem q /\ height_of mem q = nHeight b - Period).
  { subst q. destruct (Z.le_gt_cases 0 (nHeight b - Period)) as [Hge|Hlt].
    - assert (Hle : 0 <= nHeight b - Period <= nHeight b) by lia.
      destruct (ancestor_at_total mem p b (nHeight b - Period) (proj1 Hindex) Hp Hle)
        as (r & br & Hr & Hbr & Hhr & _). rewrite Hr, (height_of_some r br Hbr). split; [|lia].
      exists br. split; [done|]. rewrite Hhr. replace (nHeight b - Period + 1) with (nHeight b + 1 + (-1) * Period) by lia.
      by rewrite Z.mod_add by lia.
    - unfold ancestor_at. rewrite Hp. destruct (Z.leb_spec 0 (nHeight b - Period)); [lia|]. cbn. split; [done|].
      assert (Hdm : nHeight b + 1 = Period * ((nHeight b + 1) / Period) + (nHeight b + 1) mod Period) by (apply Z.div_mod; lia).
      assert ((nHeight b + 1) / Period = 1); [|lia].
      apply Z.le_antisymm; [|apply Z.div_le_lower_bound; lia].
      apply Z.lt_succ_r. apply Z.div_lt_upper_bound; [lia|]. lia. }
  destruct Hq as [Hal Hhq]. splits; [done| |done].
  unfold state_of at 1. rewrite (height_of_some p b Hp).
  replace (Z.to_nat ((nHeight b + 1) / Period)) with (S (Z.to_nat ((height_of mem q + 1) / Period))).
  - cbn [bip9_state]. by rewrite Hp.
  - rewrite Hhq. replace (nHeight b - Period + 1) with (nHeight b + 1 + (-1) * Period) by lia.
    rewrite Z.div_add by lia. assert (1 <= (nHeight b + 1) / Period) by (apply Z.div_le_lower_bound; lia). lia.
Qed.

(** Induction over the periods of a branch. *)
Lemma period_ind (Q : option ptr -> Prop) :
  Q None ->
  (forall p b, mem !! p = Some b -> aligned mem (Some p) ->
     Q (ancestor_at mem p (nHeight b - Period)) -> Q (Some p)) ->
  forall p, aligned mem p -> Q p.
Proof.
  pose proof period_pos as Hp1.
  intros H0 HS p. remember (Z.to_nat (height_of mem p + 1)) as n eqn:Hn. revert p Hn.
  induction n as [n IH] using lt_wf_ind. intros [p|] Hn Ha; [|done].
  pose proof Ha as (b & Hp & _). destruct (aligned_height p b Hp Ha) as [Hh _].
  apply (HS p b Hp Ha). destruct (prev_period p b Hp Ha) as (Hal & _ & Hhq).
  apply (IH (Z.to_nat (height_of mem (ancestor_at mem p (nHeight b - Period)) + 1))); [|done|done].
  rewrite Hn, Hhq, (height_of_some p b Hp). lia.
Qed.

(** "we know every earlier block will be before the start time" *)
Lemma state_before_start p :
  aligned mem p -> (forall q, p = Some q -> mtp mem q < BeginTime) -> state_of mem p = THRESHOLD_DEFINED.
Proof.
  revert p. apply (period_ind (fun p => _ -> state_of mem p = THRESHOLD_DEFINED)); [done|].
  intros p b Hp Ha IH Ht.
  destruct (prev_period p b Hp Ha) as (_ & -> & _). rewrite IH.
  - unfold bip9_next. pose proof times_ordered. specialize (Ht p eq_refl).
    destruct (Z.leb_spec EndTime (mtp mem p)); [lia|]. destruct (Z.leb_spec BeginTime (mtp mem p)); [lia|done].
  - intros q Hq. apply ancestor_at_is_ancestor in Hq.
    pose proof (mtp_monotone mem p b q (proj1 Hindex) Htimes Hp Hq). specialize (Ht p eq_refl). lia.
Qed.

Lemma cache_ok_insert c p :
  cache_ok mem c -> aligned mem p -> cache_ok mem (<[p := state_of mem p]> c).
Proof.
  intros Hc Ha q s Hq. apply lookup_insert_Some in Hq. destruct Hq as [[<- <-]|[_ Hq]]; [done|by apply Hc].
Qed.

(** Walking back and then forward computes the state of the starting block. *)
Lemma state_walk_spec fuel : forall p c stack,
  cache_ok mem c -> aligned mem p -> height_of mem p + 1 <= Z.of_nat fuel ->
  exists p' c' stack' s c'', state_walk mem fuel p c stack = Ok (p', c', stack')
    /\ c' !! p' = Some s /\ cache_ok mem c''
    /\ state_forward mem s c' stack' = state_forward mem (state_of mem p) c'' stack.
Proof.
  pose proof period_pos as Hp1.
  induction fuel as [|fuel IH]; intros p c stack Hc Ha Hf;
    (destruct (c !! p) as [s|] eqn:Ec;
     [exists p, c, stack, s, c; destruct p; cbn [state_walk]; rewrite Ec;
      destruct (Hc _ _ Ec) as [_ ->]; splits; try done; by rewrite Ec|]);
    cbn [state_walk]; rewrite Ec;
    (destruct p as [p|];
     [|exists None, (<[None := THRESHOLD_DEFINED]> c), stack, THRESHOLD_DEFINED, (<[None := THRESHOLD_DEFINED]> c);
       splits; [done|by rewrite lookup_insert_eq|by apply (cache_ok_insert c None)|done]]);
    pose proof Ha as (b & Hp & _); destruct (aligned_height p b Hp Ha) as [Hh _];
    rewrite (height_of_some p b Hp) in Hf; [lia|].
  rewrite (GetMedianTimePast_spec mem p b) by (done || apply Hindex). cbn [mbind result_bind].
  destruct (Z.ltb_spec (mtp mem p) BeginTime) as [Hlt|Hge].
  - assert (Hs : state_of mem (Some p) = THRESHOLD_DEFINED).
    { apply state_before_start; [done|]. by intros q [= <-]. }
    exists (Some p), (<[Some p := THRESHOLD_DEFINED]> c), stack, THRESHOLD_DEFINED, (<[Some p := THRESHOLD_DEFINED]> c).
    rewrite Hs. splits; [done|by rewrite lookup_insert_eq| |done]. rewrite <- Hs. by apply cache_ok_insert.
  - unfold deref. rewrite Hp. cbn [mbind result_bind]. rewrite (GetAncestor_spec mem p b) by done. cbn [mbind result_bind].
    destruct (prev_period p b Hp Ha) as (Hal & Hst & Hhq).
    destruct (IH _ c (p :: stack) Hc Hal) as (p' & c' & stack' & s & c'' & -> & Hs & Hc'' & Hf'); [lia|].
    exists p', c', stack', s, (<[Some p := state_of mem (Some p)]> c''). splits; [done|done|by apply cache_ok_insert|].
    rewrite Hf'. cbn [state_forward]. rewrite (state_next_spec _ p b) by done. cbn [mbind result_bind].
    by rewrite <- Hst.
Qed.

Lemma period_parent_spec p b :
  mem !! p = Some b -> nHeight b < 2 ^ 31 - 1 ->
  period_parent mem p = Ok (period_end mem p) /\ aligned mem (period_end mem p)
  /\ height_of mem (period_end mem p) = nHeight b - (nHeight b + 1) mod Period.
Proof.
  pose proof period_pos as Hp1.
  intros Hp Hh. unfold period_parent, period_end, deref. rewrite Hp, (height_of_some p b Hp). cbn [mbind result_bind].
  destruct (proj1 Hindex _ _ Hp) as [H0 _]. unfold c_rem. destruct (Z.eqb_spec Period 0); [lia|].
  rewrite Z.rem_mod_nonneg by lia. rewrite (GetAncestor_spec mem p b) by done. splits; [done| |].
  - assert (Hmb : 0 <= (nHeight b + 1) mod Period < Period) by (apply Z.mod_pos_bound; lia).
    destruct (Z.le_gt_cases 0 (nHeight b - (nHeight b + 1) mod Period)).
    + assert (Hle : 0 <= nHeight b - (nHeight b + 1) mod Period <= nHeight b) by lia.
      destruct (ancestor_at_total mem p b _ (proj1 Hindex) Hp Hle)
        as (r & br & Hr & Hbr & Hhr & _). rewrite Hr. exists br. split; [done|]. rewrite Hhr.
      replace (nHeight b - (nHeight b + 1) mod Period + 1) with (nHeight b + 1 - (nHeight b + 1) mod Period) by lia.
      rewrite Zminus_mod, Zmod_mod, Z.sub_diag. done.
    + unfold ancestor_at. rewrite Hp. destruct (Z.leb_spec 0 (nHeight b - (nHeight b + 1) mod Period)); [lia|done].
  - assert (Hmb : 0 <= (nHeight b + 1) mod Period < Period) by (apply Z.mod_pos_bound; lia).
    assert (Hml : (nHeight b + 1) mod Period <= nHeight b + 1) by (apply Z.mod_le; lia).
    destruct (Z.le_gt_cases 0 (nHeight b - (nHeight b + 1) mod Period)).
    + assert (Hle : 0 <= nHeight b - (nHeight b + 1) mod Period <= nHeight b) by lia.
      destruct (ancestor_at_total mem p b _ (proj1 Hindex) Hp Hle)
        as (r & br & Hr & Hbr & Hhr & _). by rewrite Hr, (height_of_some r br Hbr).
    + unfold ancestor_at. rewrite Hp. destruct (Z.leb_spec 0 (nHeight b - (nHeight b + 1) mod Period)); [lia|].
      cbn. lia.
Qed.

(** The state for the child of [p]. *)
Definition state_at (p : option ptr) : ThresholdState :=
  match p with Some p => state_of mem (period_end mem p) | None => THRESHOLD_DEFINED end.
Definition entry_ok (p : option ptr) : Prop :=
  match p with Some p => exists b, mem !! p = Some b /\ nHeight b < 2 ^ 31 - 1 | None => True end.

Lemma GetStateFor_spec p c :
  entry_ok p -> cache_ok mem c ->
  exists c', GetStateFor mem p c = Ok (state_at p, c') /\ cache_ok mem c'.
Proof.
  intros Hp Hc. unfold GetStateFor.
  assert (Hstart : exists e, match p with Some p => period_parent mem p | None => Ok None end = Ok e
                   /\ aligned mem e /\ state_at p = state_of mem e).
  { destruct p as [p|]; [|by exists None]. destruct Hp as (b & Hb & Hh).
    destruct (period_parent_spec p b Hb Hh) as (Hpp & Hal & _). by exists (period_end mem p). }
  destruct Hstart as (e & -> & Hal & ->). cbn [mbind result_bind].
  assert (Hfuel : exists f, match e with Some p => b ← deref mem p; Ok (Z.to_nat (nHeight b + 1)) | None => Ok O end = Ok f
                  /\ height_of mem e + 1 <= Z.of_nat f).
  { destruct e as [e|]; [|by exists O]. destruct Hal as (b & Hb & _). unfold deref. rewrite Hb. eexists; split; [done|].
    rewrite (height_of_some e b Hb). lia. }
  destruct Hfuel as (f & -> & Hf). cbn [mbind result_bind].
  destruct (state_walk_spec f e c [] Hc Hal Hf) as (p' & c' & st & s & c'' & -> & Hs & Hc'' & Hfw).
  cbn [mbind result_bind]. rewrite Hs, Hfw. by exists c''.
Qed.

(** *** Which states a branch can be in *)

(** The period ending at [q] ran inside the voting window and reached the threshold. *)
Definition locked_in_at (q : ptr) : Prop :=
  BeginTime <= mtp mem q < EndTime /\ Threshold <= signals_back mem (Z.to_nat Period) (Some q).

Lemma state_history p :
  aligned mem p ->
  match state_of mem p, p with
  | THRESHOLD_DEFINED, _ => True
  | THRESHOLD_STARTED, Some p => BeginTime <= mtp mem p
  | THRESHOLD_LOCKED_IN, Some p => locked_in_at p
  | THRESHOLD_ACTIVE, Some p =>
    exists q bp bq, mem !! p = Some bp /\ mem !! q = Some bq /\ is_ancestor mem q p
      /\ nHeight bq <= nHeight bp - Period /\ locked_in_at q
  | THRESHOLD_FAILED, Some p => EndTime <= mtp mem p
  | _, None => False
  end.
Proof.
  revert p. apply period_ind; [done|]. intros p b Hp Ha IH.
  destruct (prev_period p b Hp Ha) as (Hal & -> & Hhq).
  set (q := ancestor_at mem p (nHeight b - Period)) in *.
  assert (Hmono : forall q', q = Some q' -> mtp mem q' <= mtp mem p).
  { intros q' Hq. apply (mtp_monotone mem p b); [apply Hindex|done|done|]. by eapply ancestor_at_is_ancestor. }
  destruct (state_of mem q); cbn [bip9_next].
  - destruct (Z.leb_spec EndTime (mtp mem p)); [done|]. destruct (Z.leb_spec BeginTime (mtp mem p)); done.
  - destruct q as [q|]; [|done]. specialize (Hmono q eq_refl).
    destruct (Z.leb_spec EndTime (mtp mem p)); [done|].
    destruct (Z.leb_spec Threshold (signals_back mem (Z.to_nat Period) (Some p))); [|lia].
    split; [lia|done].
  - destruct q as [r|] eqn:Er; [|done]. destruct Hal as (br & Hbr & _).
    exists r, b, br. splits; [done|done|by eapply ancestor_at_is_ancestor| |done].
    rewrite (height_of_some r br Hbr) in Hhq. lia.
  - destruct q as [r|] eqn:Er; [|done]. destruct IH as (x & br & bx & Hr & Hx & Hanc & Hle & Hl).
    exists x, b, bx. rewrite (height_of_some r br Hr) in Hhq. pose proof period_pos.
    splits; [done|done| |lia|done]. eapply is_ancestor_trans; [done|]. by eapply ancestor_at_is_ancestor.
  - destruct q as [r|]; [|done]. specialize (Hmono r eq_refl). lia.
Qed.

(** A block at or below the previous period of [p]. *)
Lemma ancestor_in_prev_period p b q bq :
  mem !! p = Some b -> mem !! q = Some bq -> aligned mem (Some p) -> aligned mem (Some q) ->
  is_ancestor mem q p -> q <> p ->
  exists r, ancestor_at mem p (nHeight b - Period) = Some r /\ is_ancestor mem q r
            /\ nHeight bq <= nHeight b - Period.
Proof.
  intros Hp Hq Hap Haq Hanc Hne. pose proof period_pos.
  destruct (aligned_height p b Hp Hap) as [Hh Hm]. destruct (aligned_height q bq Hq Haq) as [Hhq Hmq].
  pose proof (proj2 (ancestor_at_iff mem p b q bq (proj1 Hindex) Hp Hq) Hanc) as Hat.
  assert (Hlt : nHeight bq < nHeight b).
  { assert (Hle : nHeight bq <= nHeight b).
    { unfold ancestor_at in Hat. rewrite Hp in Hat. destruct (Z.leb_spec 0 (nHeight bq)); [|done].
      destruct (Z.leb_spec (nHeight bq) (nHeight b)); done. }
    destruct (Z.eq_dec (nHeight bq) (nHeight b)) as [E|]; [|lia].
    rewrite E, (ancestor_at_self mem p b) in Hat by (done || apply Hindex). congruence. }
  apply Z.mod_divide in Hm; [|lia]. apply Z.mod_divide in Hmq; [|lia]. destruct Hm as [k Hk], Hmq as [j Hj].
  assert (Hjk : j + 1 <= k) by nia. assert (Hle : nHeight bq <= nHeight b - Period) by nia.
  assert (Hr : 0 <= nHeight b - Period <= nHeight b) by lia.
  destruct (ancestor_at_total mem p b _ (proj1 Hindex) Hp Hr) as (r & br & Har & Hbr & Hhr & _).
  exists r. splits; [done| |done]. rewrite <- Hhr in Har.
  rewrite (ancestor_at_trans mem p b r br) in Hat by (done || apply Hindex || lia).
  by apply ancestor_at_is_ancestor in Hat.
Qed.

Lemma state_terminal p q bq s :
  s = THRESHOLD_ACTIVE \/ s = THRESHOLD_FAILED ->
  mem !! q = Some bq -> aligned mem (Some q) -> state_of mem (Some q) = s ->
  aligned mem p -> (exists p', p = Some p' /\ is_ancestor mem q p') -> state_of mem p = s.
Proof.
  intros Hs Hq Haq Hst. revert p. apply (period_ind (fun p => _ -> state_of mem p = s)).
  { intros (p' & Hp' & _). done. }
  intros p b Hp Hap IH (p' & [= <-] & Hanc). destruct (decide (q = p)) as [->|Hne]; [done|].
  destruct (ancestor_in_prev_period p b q bq) as (r & Hr & Hqr & _); try done.
  destruct (prev_period p b Hp Hap) as (_ & -> & _). rewrite Hr in *.
  rewrite IH by eauto. by destruct Hs as [-> | ->].
Qed.

Lemma period_end_aligned p b : mem !! p = Some b -> aligned mem (Some p) -> period_end mem p = Some p.
Proof.
  intros Hp Ha. destruct (aligned_height p b Hp Ha) as [_ Hm]. unfold period_end.
  rewrite (height_of_some p b Hp), Hm, Z.sub_0_r. apply ancestor_at_self; [apply Hindex|done].
Qed.

(** The periods of a block and of its descendants. *)
Lemma period_end_ancestor p b d bd e :
  mem !! p = Some b -> mem !! d = Some bd -> nHeight b < 2 ^ 31 - 1 -> nHeight bd < 2 ^ 31 - 1 ->
  is_ancestor mem p d -> period_end mem p = Some e ->
  exists f, period_end mem d = Some f /\ is_ancestor mem e f.
Proof.
  intros Hp Hd Hhp Hhd Hanc He. pose proof period_pos as Hp1.
  destruct (period_parent_spec p b Hp Hhp) as (_ & Hale & Hhe). rewrite He in *.
  destruct Hale as (be & Hbe & _). rewrite (height_of_some e be Hbe) in Hhe.
  destruct (period_parent_spec d bd Hd Hhd) as (_ & Half & Hhf).
  destruct Hanc as [n Hn]. destruct (prevs_height mem n d p bd (proj1 Hindex) Hd Hn) as (b' & Hb' & Hhb & _).
  rewrite Hp in Hb'. injection Hb' as <-.
  assert (Hle : nHeight be <= nHeight bd - (nHeight bd + 1) mod Period).
  { assert (Hm : (nHeight b + 1) / Period <= (nHeight bd + 1) / Period) by (apply Z.div_le_mono; lia).
    assert (E1 : nHeight b + 1 = Period * ((nHeight b + 1) / Period) + (nHeight b + 1) mod Period) by (apply Z.div_mod; lia).
    assert (E2 : nHeight bd + 1 = Period * ((nHeight bd + 1) / Period) + (nHeight bd + 1) mod Period) by (apply Z.div_mod; lia).
    nia. }
  destruct (proj1 Hindex _ _ Hbe) as [Hbe0 _].
  destruct (period_end mem d) as [f|] eqn:Ef; [|cbn in Hhf; lia]. exists f. split; [done|].
  destruct Half as (bf & Hbf & _). rewrite (height_of_some f bf Hbf) in Hhf.
  assert (Hed : is_ancestor mem e d).
  { eapply is_ancestor_trans; [by eapply ancestor_at_is_ancestor|]. by exists n. }
  apply (ancestor_at_iff mem d bd e be) in Hed; [|apply Hindex|done|done].
  unfold period_end in Ef. rewrite (height_of_some d bd Hd), <- Hhf in Ef.
  rewrite (ancestor_at_trans mem d bd f bf) in Hed by (done || apply Hindex || lia).
  by apply ancestor_at_is_ancestor in Hed.
Qed.

Lemma active_descends p b d bd :
  mem !! p = Some b -> mem !! d = Some bd -> nHeight b < 2 ^ 31 - 1 -> nHeight bd < 2 ^ 31 - 1 ->
  is_ancestor mem p d -> state_of mem (period_end mem p) = THRESHOLD_ACTIVE ->
  state_of mem (period_end mem d) = THRESHOLD_ACTIVE.
Proof.
  intros Hp Hd Hhp Hhd Hanc Hst. destruct (period_end mem p) as [e|] eqn:Ee; [|done].
  destruct (period_end_ancestor p b d bd e) as (f & Hf & Hef); try done.
  destruct (period_parent_spec p b Hp Hhp) as (_ & Hale & _). rewrite Ee in Hale. pose proof Hale as (be & Hbe & _).
  destruct (period_parent_spec d bd Hd Hhd) as (_ & Half & _). rewrite Hf in *.
  apply (state_terminal (Some f) e be); auto. by exists f.
Qed.

(** *** [GetStateSinceHeightFor] *)

Lemma since_loop_spec fuel : forall p b c,
  mem !! p = Some b -> aligned mem (Some p) -> nHeight b < 2 ^ 31 - 1 -> cache_ok mem c ->
  nHeight b + 1 <= Z.of_nat fuel -> state_of mem (Some p) <> THRESHOLD_DEFINED ->
  exists h c' q bq,
    since_loop mem fuel (state_of mem (Some p)) p (ancestor_at mem p (nHeight b - Period)) c = Ok (h, c')
    /\ cache_ok mem c' /\ mem !! q = Some bq /\ h = nHeight bq + 1
    /\ is_ancestor mem q p /\ aligned mem (Some q) /\ nHeight bq <= nHeight b
    /\ (forall r br, mem !! r = Some br -> aligned mem (Some r) -> is_ancestor mem r p -> nHeight bq <= nHeight br ->
          state_of mem (Some r) = state_of mem (Some p))
    /\ state_of mem (ancestor_at mem q (nHeight bq - Period)) <> state_of mem (Some p).
Proof.
  pose proof period_pos as Hp1.
  induction fuel as [|fuel IH]; intros p b c Hp Ha Hb Hc Hf Hd;
    [destruct (aligned_height p b Hp Ha); lia|].
  assert (Hhere : forall r br, mem !! r = Some br -> aligned mem (Some r) -> is_ancestor mem r p -> nHeight b <= nHeight br ->
            state_of mem (Some r) = state_of mem (Some p)).
  { intros r br Hr Har Hanc Hle. destruct (decide (r = p)) as [->|Hne]; [done|].
    destruct (ancestor_in_prev_period p b r br) as (? & _ & _ & ?); done || lia. }
  cbn [since_loop]. rewrite (deref_ok _ _ _ Hp). cbn [mbind result_bind].
  destruct (prev_period p b Hp Ha) as (Hal & Hst & Hhq).
  destruct (ancestor_at mem p (nHeight b - Period)) as [q|] eqn:Eq.
  2:{ exists (nHeight b + 1), c, p, b. rewrite Eq. splits; try done; [apply is_ancestor_refl]. }
  pose proof Hal as (bq & Hbq & Hmq). rewrite (height_of_some q bq Hbq) in Hhq.
  assert (Heq : state_at (Some q) = state_of mem (Some q)).
  { cbn [state_at]. by rewrite (period_end_aligned q bq). }
  destruct (GetStateFor_spec (Some q) c) as (c' & -> & Hc'); [exists bq; split; [done|lia]|done|].
  cbn [mbind result_bind]. rewrite Heq. destruct (decide (state_of mem (Some q) = state_of mem (Some p))) as [E|E].
  2:{ exists (nHeight b + 1), c', p, b. rewrite Eq. splits; try done; [apply is_ancestor_refl]. }
  unfold deref. rewrite Hbq. cbn [mbind result_bind]. rewrite (GetAncestor_spec mem q bq) by done. cbn [mbind result_bind].
  rewrite <- E. destruct (IH q bq c' Hbq Hal) as (h & c'' & x & bx & Hl & Hcx & Hx & Hhx & Hax & Halx & Hlx & Hall & Hn);
    [lia|done|lia|congruence|].
  exists h, c'', x, bx. splits; try done.
  - eapply is_ancestor_trans; [done|]. by eapply ancestor_at_is_ancestor.
  - lia.
  - intros r br Hr Har Hanc Hle. destruct (decide (r = p)) as [->|Hne]; [done|].
    destruct (ancestor_in_prev_period p b r br) as (q' & Hq' & Hrq & _); try done.
    rewrite Eq in Hq'. inversion Hq'; subst q'. by apply (Hall r br).
Qed.

(** *** [GetStateStatisticsFor] *)

Lemma stats_loop_spec fuel : forall p b endh c,
  mem !! p = Some b -> 0 <= endh <= nHeight b -> nHeight b - endh = Z.of_nat fuel ->
  stats_loop mem fuel endh (Some p) c = Ok (c + signals_back mem fuel (Some p)).
Proof.
  induction fuel as [|fuel IH]; intros p b endh c Hp He Hf; cbn [stats_loop signals_back deref_opt];
    unfold deref; rewrite Hp; cbn [mbind result_bind].
  - destruct (Z.eqb_spec endh (nHeight b)); [f_equal; lia|lia].
  - destruct (Z.eqb_spec endh (nHeight b)); [lia|]. destruct (proj1 Hindex _ _ Hp) as [H0 Hprev].
    destruct (pprev b) as [q|]; [|lia]. destruct Hprev as (bq & Hq & Hh).
    rewrite (IH q bq) by (done || lia). f_equal. destruct (Condition b); lia.
Qed.

Lemma GetStateStatisticsFor_spec p b :
  mem !! p = Some b -> nHeight b < 2 ^ 31 - 1 ->
  let r := (nHeight b + 1) mod Period in
  GetStateStatisticsFor mem (Some p) =
    if nHeight b + 1 <? Period then Err NullDereference
    else let count := signals_back mem (Z.to_nat r) (Some p) in
      Ok {| stats_period := Period; stats_threshold := Threshold; stats_elapsed := r; stats_count := count;
            stats_possible := Period - Threshold >=? r - count |}.
Proof.
  intros Hp Hh r. pose proof period_pos as Hp1. unfold GetStateStatisticsFor. rewrite (deref_ok _ _ _ Hp). cbn [mbind result_bind].
  destruct (period_parent_spec p b Hp Hh) as (-> & Hal & Hhe). cbn [mbind result_bind]. destruct (proj1 Hindex _ _ Hp) as [H0 _].
  fold r in Hhe. destruct (Z.ltb_spec (nHeight b + 1) Period) as [Hlt|Hge].
  - assert (r = nHeight b + 1) by (apply Z.mod_small; lia).
    destruct (period_end mem p) as [e|]; [|done]. destruct Hal as (be & He & _).
    rewrite (height_of_some e be He) in Hhe. destruct (proj1 Hindex _ _ He). lia.
  - assert (Hr : 0 <= r < Period) by (apply Z.mod_pos_bound; lia).
    destruct (period_end mem p) as [e|]; [|cbn in Hhe; lia]. destruct Hal as (be & He & _).
    rewrite (height_of_some e be He) in Hhe. cbn [deref_opt]. unfold deref. rewrite He. cbn [mbind result_bind].
    destruct (proj1 Hindex _ _ He) as [He0 _].
    rewrite (stats_loop_spec (Z.to_nat (nHeight b - nHeight be)) p b) by (done || lia). cbn [mbind result_bind].
    replace (nHeight b - nHeight be) with r by lia. by rewrite Z.add_0_l.
Qed.
End Proofs.

(** ** [ComputeBlockVersion] *)

Definition signalled (s : ThresholdState) : bool :=
  bool_decide (s = THRESHOLD_LOCKED_IN) || bool_decide (s = THRESHOLD_STARTED).

Definition caches_ok (mem : heap) (params : Params) (c : VersionBitsCache) : Prop :=
  forall pos, cache_ok (checker := VersionBitsConditionChecker params pos) mem (c pos).

Definition vb_state (mem : heap) (params : Params) (pos : DeploymentPos) (p : option ptr) : ThresholdState :=
  state_at (checker := VersionBitsConditionChecker params pos) mem p.

Definition vb_params_ok (params : Params) : Prop :=
  forall pos, CheckerOk (VersionBitsConditionChecker params pos) /\ 0 <= dep_bit (deployment params pos) < 29.

Lemma VersionBitsState_spec mem params p pos c :
  index_ok mem -> block_times_ok mem -> vb_params_ok params -> entry_ok mem p -> caches_ok mem params c ->
  exists c', VersionBitsState mem params p pos c = Ok (vb_state mem params pos p, c') /\ caches_ok mem params c'.
Proof.
  intros Hi Ht Hv Hp Hc. destruct (Hv pos) as [Hck _]. unfold VersionBitsState.
  destruct (GetStateFor_spec (checker := VersionBitsConditionChecker params pos) mem Hi Ht p (c pos) Hp (Hc pos))
    as (c' & -> & Hc'). cbn [mbind result_bind]. eexists; split; [done|]. intros q. unfold set_cache.
  by destruct (decide (q = pos)) as [->|]; [|apply Hc].
Qed.

Lemma or_mask_testbit v params pos i :
  vb_params_ok params -> 0 <= v < 2 ^ 30 -> 0 <= i ->
  let v' := i32 (Z.lor (u32 v) (VersionBitsMask params pos)) in
  0 <= v' < 2 ^ 30 /\ Z.testbit v' i = Z.testbit v i || (i =? dep_bit (deployment params pos)).
Proof.
  intros Hv Hr Hi. destruct (Hv pos) as [_ Hb]. unfold VersionBitsMask, Mask.
  rewrite (u32_id v) by (ranges; lia). rewrite Z.shiftl_mul_pow2, Z.mul_1_l by lia.
  set (d := dep_bit (deployment params pos)) in *.
  assert (Hd : 0 < 2 ^ d <= 2 ^ 28) by (split; [apply Z.pow_pos_nonneg; lia|apply Z.pow_le_mono_r; lia]).
  rewrite (u32_id (2 ^ d)) by (ranges; lia).
  assert (Hl : 0 <= Z.lor v (2 ^ d) < 2 ^ 30) by (apply lor_range; lia).
  rewrite i32_id by (ranges; lia). split; [done|].
  rewrite Z.lor_spec, Z.pow2_bits_eqb by lia. by rewrite Z.eqb_sym.
Qed.

Lemma version_loop_spec mem params p ds : forall v c,
  index_ok mem -> block_times_ok mem -> vb_params_ok params -> entry_ok mem p -> caches_ok mem params c ->
  0 <= v < 2 ^ 30 ->
  exists v' c', version_loop mem params p ds v c = Ok (v', c') /\ caches_ok mem params c' /\ 0 <= v' < 2 ^ 30
    /\ forall i, 0 <= i ->
        Z.testbit v' i = Z.testbit v i
          || existsb (fun pos => (i =? dep_bit (deployment params pos)) && signalled (vb_state mem params pos p)) ds.
Proof.
  induction ds as [|pos ds IH]; intros v c Hi Ht Hv Hp Hc Hr; cbn [version_loop existsb].
  { exists v, c. splits; try done; try lia. intros i _. by rewrite orb_false_r. }
  destruct (VersionBitsState_spec mem params p pos c Hi Ht Hv Hp Hc) as (c1 & -> & Hc1). cbn [mbind result_bind].
  change (bool_decide _ || bool_decide _) with (signalled (vb_state mem params pos p)).
  set (v1 := if signalled _ then _ else v).
  assert (Hv1 : 0 <= v1 < 2 ^ 30 /\ forall i, 0 <= i -> Z.testbit v1 i =
      Z.testbit v i || (i =? dep_bit (deployment params pos)) && signalled (vb_state mem params pos p)).
  { subst v1. destruct (signalled _).
    - split; [by apply (or_mask_testbit v params pos 0)|]. intros i Hi0. rewrite andb_true_r.
      by apply (or_mask_testbit v params pos i).
    - split; [done|]. intros i _. by rewrite andb_false_r, orb_false_r. }
  destruct Hv1 as [Hr1 Hb1].
  destruct (IH v1 c1 Hi Ht Hv Hp Hc1 Hr1) as (v' & c' & Hl & Hc' & Hr' & Hb').
  exists v', c'. splits; try done; try lia. intros i Hi0. rewrite Hb', Hb1, orb_assoc by done. done.
Qed.

(** ** Properties *)

(** A short-period deployment signalled with bit 28. *)
Definition ex_vb_params : Params :=
  {| nSubsidyHalvingInterval := 2100000;
     nBIP34Enabled := true; nBIP65Enabled := true; nBIP66Enabled := true;
     nRuleChangeActivationThreshold := 3; nMinerConfirmationWindow := 4;
     vDeployments := map (fun bit => mkDeployment bit 1300 100000 4 3) [28; 6; 7; 8; 9; 10];
     powLimit := null_uint256; kawpowLimit := null_uint256;
     fPowAllowMinDifficultyBlocks := false; fPowNoRetargeting := false;
     nPowTargetSpacing := 60; nPowTargetTimespan := 60;
     nMinimumChainWork := null_uint256; nSegwitEnabled := true; nCSVEnabled := true |}.
Definition ex_checker : ConditionChecker := VersionBitsConditionChecker ex_vb_params DEPLOYMENT_TESTDUMMY.
#[global] Instance ex_checker_ok : CheckerOk ex_checker.
Proof. split; by vm_compute. Defined.
Definition ex_line : heap := line_heap 0x207fffff 24.

Lemma ex_line_times : block_times_ok ex_line.
Proof.
  intros p b q Hp Hq. apply line_heap_inv in Hp. destruct Hp as (i & Hi & ->).
  do 24 (destruct i as [|i]; [cbn in Hq; try done; injection Hq as <-; by vm_compute|]). lia.
Qed.

Lemma ex_line_entry i : (i < 24)%nat -> entry_ok ex_line (Some (Pos.of_succ_nat i)).
Proof. intros Hi. exists (line_entry 0x207fffff i). split; [by apply line_heap_lookup|cbn; lia]. Qed.

Lemma empty_cache_ok mem checker : cache_ok (checker := checker) mem ∅.
Proof. intros p s H. by rewrite lookup_empty in H. Qed.

Lemma ex_vb_params_ok : vb_params_ok ex_vb_params.
Proof. intros pos. destruct pos; (split; [split; by vm_compute|cbn; lia]). Qed.

(** C15: for any block and any valid cache, [GetStateFor] terminates without a fault,
    returns the state of the cache-free BIP9 machine that makes one transition
    per period from genesis on, and leaves a valid cache; its shortcut at blocks before
    the start time is sound because median times do not decrease. *)
Theorem GetStateFor_refines_bip9 (checker : ConditionChecker) (Hck : CheckerOk checker) (mem : heap)
  (p : option ptr) (c : ThresholdConditionCache) :
  index_ok mem -> block_times_ok mem -> entry_ok mem p -> cache_ok mem c ->
  exists c', GetStateFor mem p c = Ok (state_at mem p, c') /\ cache_ok mem c'.
Proof. intros. by apply GetStateFor_spec. Qed.

Lemma GetStateFor_refines_bip9_witness :
  exists c', GetStateFor (checker := ex_checker) ex_line (Some 20%positive) ∅ = Ok (state_at (checker := ex_checker) ex_line (Some 20%positive), c')
    /\ cache_ok (checker := ex_checker) ex_line c'.
Proof.
  apply (GetStateFor_refines_bip9 ex_checker ex_checker_ok ex_line (Some 20%positive) ∅);
    [apply line_heap_ok|exact ex_line_times|apply (ex_line_entry 19); lia|apply empty_cache_ok].
Defined.

(** A deployment reported active was locked in by an earlier period of the same
    branch that ended inside the voting window with at least [Threshold] of its blocks
    signalling, and it stays active for every descendant of that block. *)
Theorem activation_sound_permanent (checker : ConditionChecker) (Hck : CheckerOk checker) (mem : heap)
  (p : ptr) (b : CBlockIndex) (c c' : ThresholdConditionCache) :
  index_ok mem -> block_times_ok mem -> mem !! p = Some b -> nHeight b < 2 ^ 31 - 1 -> cache_ok mem c ->
  GetStateFor mem (Some p) c = Ok (THRESHOLD_ACTIVE, c') ->
  (exists q bq, mem !! q = Some bq /\ is_ancestor mem q p /\ nHeight bq <= nHeight b - Period
     /\ BeginTime <= mtp mem q < EndTime
     /\ Threshold <= signals_back mem (Z.to_nat Period) (Some q))
  /\ forall d bd cd, mem !! d = Some bd -> nHeight bd < 2 ^ 31 - 1 -> is_ancestor mem p d -> cache_ok mem cd ->
       exists cd', GetStateFor mem (Some d) cd = Ok (THRESHOLD_ACTIVE, cd').
Proof.
  intros Hi Ht Hp Hh Hc Hact.
  destruct (GetStateFor_spec mem Hi Ht (Some p) c (ex_intro _ b (conj Hp Hh)) Hc) as (c1 & Hs & _).
  rewrite Hs in Hact. injection Hact as Hst _. cbn [state_at] in Hst.
  destruct (period_parent_spec mem Hi p b Hp Hh) as (_ & Hal & Hhe). split.
  - pose proof (state_history mem Hi Ht _ Hal) as Hist. rewrite Hst in Hist.
    destruct (period_end mem p) as [e|] eqn:Ee; [|done]. destruct Hist as (q & be & bq & He & Hq & Hanc & Hle & Hl).
    exists q, bq. rewrite (height_of_some mem e be He) in Hhe. pose proof period_pos.
    assert (0 <= (nHeight b + 1) mod Period) by (apply Z.mod_pos_bound; lia).
    splits; [done| |lia|apply Hl..]. eapply is_ancestor_trans; [done|]. by eapply ancestor_at_is_ancestor.
  - intros d bd cd Hd Hhd Hanc Hcd.
    destruct (GetStateFor_spec mem Hi Ht (Some d) cd (ex_intro _ bd (conj Hd Hhd)) Hcd) as (c2 & Hs2 & _).
    exists c2. rewrite Hs2. cbn [state_at]. do 2 f_equal.
    by apply (active_descends mem Hi p b d bd).
Qed.

Lemma activation_sound_permanent_witness :
  (exists q bq, ex_line !! q = Some bq /\ is_ancestor ex_line q 21%positive /\ nHeight bq <= 20 - 4
     /\ 1300 <= mtp ex_line q < 100000
     /\ 3 <= signals_back (checker := ex_checker) ex_line 4 (Some q))
  /\ forall d bd cd, ex_line !! d = Some bd -> nHeight bd < 2 ^ 31 - 1 -> is_ancestor ex_line 21%positive d ->
       cache_ok (checker := ex_checker) ex_line cd ->
       exists cd', GetStateFor (checker := ex_checker) ex_line (Some d) cd = Ok (THRESHOLD_ACTIVE, cd').
Proof.
  refine (activation_sound_permanent ex_checker ex_checker_ok ex_line 21%positive (line_entry 0x207fffff 20) ∅ _ _ _ _ _ _ _);
    [apply line_heap_ok|exact ex_line_times|vm_compute; reflexivity|vm_compute; reflexivity|apply empty_cache_ok|].
  vm_compute. reflexivity.
Defined.

(** [GetStateSinceHeightFor] returns 0 for a deployment that is still defined, and
    otherwise the height of the first block of the maximal run of periods with the
    current state: every period from there on has that state and the period before
    has not. *)
Theorem GetStateSinceHeightFor_correct (checker : ConditionChecker) (Hck : CheckerOk checker) (mem : heap)
  (p : ptr) (b : CBlockIndex) (c : ThresholdConditionCache) :
  index_ok mem -> block_times_ok mem -> mem !! p = Some b -> nHeight b < 2 ^ 31 - 1 -> cache_ok mem c ->
  exists h c', GetStateSinceHeightFor mem (Some p) c = Ok (h, c') /\ cache_ok mem c'
    /\ (state_at mem (Some p) = THRESHOLD_DEFINED -> h = 0)
    /\ (state_at mem (Some p) <> THRESHOLD_DEFINED ->
         exists q bq, mem !! q = Some bq /\ h = nHeight bq + 1 /\ is_ancestor mem q p /\ aligned mem (Some q)
           /\ (forall r br, mem !! r = Some br -> aligned mem (Some r) -> is_ancestor mem r p -> nHeight bq <= nHeight br ->
                 state_of mem (Some r) = state_at mem (Some p))
           /\ state_of mem (ancestor_at mem q (nHeight bq - Period)) <> state_at mem (Some p)).
Proof.
  intros Hi Ht Hp Hh Hc. unfold GetStateSinceHeightFor.
  destruct (GetStateFor_spec mem Hi Ht (Some p) c (ex_intro _ b (conj Hp Hh)) Hc) as (c1 & -> & Hc1).
  cbn [mbind result_bind]. destruct (decide (state_at mem (Some p) = THRESHOLD_DEFINED)) as [E|E]; [by exists 0, c1|].
  destruct (period_parent_spec mem Hi p b Hp Hh) as (-> & Hal & Hhe). cbn [mbind result_bind state_at] in *.
  destruct (period_end mem p) as [s|] eqn:Es; [|done]. pose proof Hal as (bs & Hbs & _).
  rewrite (height_of_some mem s bs Hbs) in Hhe. pose proof period_pos as Hp1.
  assert (0 <= (nHeight b + 1) mod Period) by (apply Z.mod_pos_bound; lia).
  rewrite (deref_ok _ _ _ Hbs). cbn [mbind result_bind]. rewrite (GetAncestor_spec mem s bs) by done. cbn [mbind result_bind].
  destruct (since_loop_spec mem Hi Ht (Z.to_nat (nHeight bs + 1)) s bs c1) as (h & c' & q & bq & -> & Hc' & Hq & Hhq & Hqs & Haq & _ & Hall & Hn);
    try done; try lia.
  pose proof (ancestor_at_is_ancestor _ _ _ _ Es) as Hsp.
  exists h, c'. splits; [done|done|done|]. intros _. exists q, bq. splits; try done.
  - by eapply is_ancestor_trans.
  - intros r br Hr Har Hanc Hle. apply (Hall r br); try done. 
    destruct Hanc as [n Hnr]. pose proof (prevs_height mem n p r b (proj1 Hi) Hp Hnr) as (b' & Hb' & Hle' & _).
    assert (nHeight br < 2 ^ 31 - 1) by (rewrite Hr in Hb'; injection Hb' as <-; lia).
    destruct (period_end_ancestor mem Hi r br p b r) as (f & Hf & Hrf); try done; [by exists n|by apply (period_end_aligned mem Hi r br)|].
    congruence.
Qed.

Lemma GetStateSinceHeightFor_correct_witness :
  exists h c', GetStateSinceHeightFor (checker := ex_checker) ex_line (Some 21%positive) ∅ = Ok (h, c')
    /\ cache_ok (checker := ex_checker) ex_line c'
    /\ (state_at (checker := ex_checker) ex_line (Some 21%positive) = THRESHOLD_DEFINED -> h = 0)
    /\ (state_at (checker := ex_checker) ex_line (Some 21%positive) <> THRESHOLD_DEFINED ->
         exists q bq, ex_line !! q = Some bq /\ h = nHeight bq + 1 /\ is_ancestor ex_line q 21%positive
           /\ aligned (checker := ex_checker) ex_line (Some q)
           /\ (forall r br, ex_line !! r = Some br -> aligned (checker := ex_checker) ex_line (Some r) ->
                 is_ancestor ex_line r 21%positive -> nHeight bq <= nHeight br ->
                 state_of (checker := ex_checker) ex_line (Some r) = state_at (checker := ex_checker) ex_line (Some 21%positive))
           /\ state_of (checker := ex_checker) ex_line (ancestor_at ex_line q (nHeight bq - 4))
                <> state_at (checker := ex_checker) ex_line (Some 21%positive)).
Proof.
  apply (GetStateSinceHeightFor_correct ex_checker ex_checker_ok ex_line 21%positive (line_entry 0x207fffff 20) ∅);
    [apply line_heap_ok|exact ex_line_times|vm_compute; reflexivity|vm_compute; reflexivity|apply empty_cache_ok].
Defined.

(** [GetStateStatisticsFor] counts exactly the signalling blocks since the end of
    the last full period, and dereferences a null pointer exactly when the block is in
    the very first period. *)
Theorem GetStateStatisticsFor_correct (checker : ConditionChecker) (Hck : CheckerOk checker) (mem : heap)
  (p : ptr) (b : CBlockIndex) :
  index_ok mem -> mem !! p = Some b -> nHeight b < 2 ^ 31 - 1 ->
  let r := (nHeight b + 1) mod Period in
  GetStateStatisticsFor mem (Some p) =
    if nHeight b + 1 <? Period then Err NullDereference
    else let count := signals_back mem (Z.to_nat r) (Some p) in
      Ok {| stats_period := Period; stats_threshold := Threshold; stats_elapsed := r; stats_count := count;
            stats_possible := Period - Threshold >=? r - count |}.
Proof. intros Hi. by apply GetStateStatisticsFor_spec. Qed.

Lemma GetStateStatisticsFor_correct_witness :
  GetStateStatisticsFor (checker := ex_checker) ex_line (Some 2%positive) = Err NullDereference.
Proof.
  apply (GetStateStatisticsFor_correct ex_checker ex_checker_ok ex_line 2%positive (line_entry 0x207fffff 1));
    [apply line_heap_ok|vm_compute; reflexivity|vm_compute; reflexivity].
Defined.

(** The version computed for a new block has the top bits and, in addition,
    exactly the bits of the deployments whose BIP9 state is started or locked in; all
    per-deployment caches stay valid. *)
Theorem ComputeBlockVersion_bits (mem : heap) (params : Params) (assetsDeployed : bool) (p : option ptr)
  (c : VersionBitsCache) :
  index_ok mem -> block_times_ok mem -> vb_params_ok params -> entry_ok mem p -> caches_ok mem params c ->
  exists v c', ComputeBlockVersion mem params assetsDeployed p c = Ok (v, c') /\ caches_ok mem params c'
    /\ 0 <= v < 2 ^ 30
    /\ forall i, 0 <= i ->
        Z.testbit v i = (i =? 29) || (i =? 28) && assetsDeployed
          || existsb (fun pos => (i =? dep_bit (deployment params pos)) && signalled (vb_state mem params pos p))
               all_deployments.
Proof.
  intros Hi Ht Hv Hp Hc. unfold ComputeBlockVersion.
  destruct (version_loop_spec mem params p all_deployments
    (if assetsDeployed then VERSIONBITS_TOP_BITS_ASSETS else VERSIONBITS_TOP_BITS) c Hi Ht Hv Hp Hc)
    as (v & c' & Hl & Hc' & Hr & Hb); [by destruct assetsDeployed|].
  exists v, c'. splits; try done; try lia. intros i Hi0. rewrite Hb by done. f_equal.
  destruct assetsDeployed.
  - change VERSIONBITS_TOP_BITS_ASSETS with (Z.lor (2 ^ 29) (2 ^ 28)).
    rewrite Z.lor_spec, !Z.pow2_bits_eqb, andb_true_r by lia. by rewrite (Z.eqb_sym 29), (Z.eqb_sym 28).
  - change VERSIONBITS_TOP_BITS with (2 ^ 29). rewrite Z.pow2_bits_eqb, andb_false_r, orb_false_r by lia. apply Z.eqb_sym.
Qed.

Lemma ComputeBlockVersion_bits_witness :
  exists v c', ComputeBlockVersion ex_line ex_vb_params true (Some 10%positive) (fun _ => ∅) = Ok (v, c')
    /\ caches_ok ex_line ex_vb_params c' /\ 0 <= v < 2 ^ 30
    /\ forall i, 0 <= i ->
        Z.testbit v i = (i =? 29) || (i =? 28) && true
          || existsb (fun pos => (i =? dep_bit (deployment ex_vb_params pos))
                                 && signalled (vb_state ex_line ex_vb_params pos (Some 10%positive)))
               all_deployments.
Proof.
  apply (ComputeBlockVersion_bits ex_line ex_vb_params true (Some 10%positive) (fun _ => ∅));
    [apply line_heap_ok|exact ex_line_times|exact ex_vb_params_ok|apply (ex_line_entry 9); lia|].
  intros pos. apply empty_cache_ok.
Defined.
