(* ===== verification/Serialize.v ===== *)
(** * Serialization: [src/serialize.h], [src/streams.h]

    The wire format of the node.  A stream being written is the byte string
    written so far; a stream being read is the byte string that is left
    ([CDataStream] from [nReadPos] on).  Reading returns the value and the rest
    of the stream, or the failure the code throws.

    A [codec] packs the [Serialize]/[Unserialize] pair of a C++ type (with its
    [sizeof], which bounds the batches of the vector reader).  The class
    [CodecOk] states that what is written can be read back, the class
    [CodecCanonical] that nothing else can be read: every accepted byte string is
    the one encoding of the value it yields. *)

From S2P Require Import Prelude Endian.

(** ** Streams *)

Inductive ser_error :=
| EndOfData               (** [CDataStream::read(): end of data] *)
| NonCanonicalSize        (** [non-canonical ReadCompactSize()] *)
| SizeTooLarge            (** [ReadCompactSize(): size too large] *)
| VarIntTooLarge          (** [ReadVarInt(): size too large] *)
| StringLimitExceeded     (** [String length limit exceeded] *)
| UnknownOptionalData     (** [Unknown transaction optional data] *)
| OverwideBatch.          (** a vector batch of zero elements: the reader would not return *)

Abbreviation reader A := (bytes -> result ser_error (A * bytes)).

(** [CDataStream::read]; sizes are below [2^32], so that the 32-bit read position
    does not wrap. *)
Definition stream_read (nSize : Z) (s : bytes) : result ser_error (bytes * bytes) :=
  if nSize =? 0 then Ok ([], s)
  else if Z.of_nat (length s) <? nSize then Err EndOfData
  else Ok (take (Z.to_nat nSize) s, drop (Z.to_nat nSize) s).

Definition ser_writedata8 (obj : Z) : bytes := le_split 1 (u8 obj).
Definition ser_writedata16 (obj : Z) : bytes := le_split 2 (obj mod 2 ^ 16).
Definition ser_writedata32 (obj : Z) : bytes := le_split 4 (u32 obj).
Definition ser_writedata64 (obj : Z) : bytes := le_split 8 (u64 obj).

Definition ser_readdata8 (s : bytes) : result ser_error (Z * bytes) :=
  let* (obj, s) := stream_read 1 s in Ok (le_combine obj, s).
Definition ser_readdata16 (s : bytes) : result ser_error (Z * bytes) :=
  let* (obj, s) := stream_read 2 s in Ok (le_combine obj, s).
Definition ser_readdata32 (s : bytes) : result ser_error (Z * bytes) :=
  let* (obj, s) := stream_read 4 s in Ok (le_combine obj, s).
Definition ser_readdata64 (s : bytes) : result ser_error (Z * bytes) :=
  let* (obj, s) := stream_read 8 s in Ok (le_combine obj, s).

(** ** Compact sizes *)

Definition MAX_SIZE : Z := 0x02000000.
Definition USHRT_MAX : Z := 0xffff.
Definition UINT_MAX : Z := 0xffffffff.

Definition GetSizeOfCompactSize (nSize : Z) : Z :=
  if nSize <? 253 then 1
  else if nSize <=? USHRT_MAX then 1 + 2
  else if nSize <=? UINT_MAX then 1 + 4
  else 1 + 8.

Definition WriteCompactSize (nSize : Z) : bytes :=
  if nSize <? 253 then ser_writedata8 nSize
  else if nSize <=? USHRT_MAX then ser_writedata8 253 ++ ser_writedata16 nSize
  else if nSize <=? UINT_MAX then ser_writedata8 254 ++ ser_writedata32 nSize
  else ser_writedata8 255 ++ ser_writedata64 nSize.

Definition ReadCompactSize (s : bytes) : result ser_error (Z * bytes) :=
  let* (chSize, s) := ser_readdata8 s in
  let* (nSizeRet, s) :=
    if chSize <? 253 then Ok (chSize, s)
    else if chSize =? 253 then
      let* (nSizeRet, s) := ser_readdata16 s in
      if nSizeRet <? 253 then Err NonCanonicalSize else Ok (nSizeRet, s)
    else if chSize =? 254 then
      let* (nSizeRet, s) := ser_readdata32 s in
      if nSizeRet <? 0x10000 then Err NonCanonicalSize else Ok (nSizeRet, s)
    else
      let* (nSizeRet, s) := ser_readdata64 s in
      if nSizeRet <? 0x100000000 then Err NonCanonicalSize else Ok (nSizeRet, s) in
  if nSizeRet >? MAX_SIZE then Err SizeTooLarge else Ok (nSizeRet, s).

(** ** Variable-length integers

    [w] is the number of value bits of the integer type [I], so that
    [std::numeric_limits<I>::max()] is [2^w - 1]. *)

(** The [tmp] array the writer fills, least significant group first; [fuel] is the
    number of cells of the array. *)
Fixpoint WriteVarInt_loop (fuel : nat) (n : Z) (len : Z) : bytes :=
  match fuel with
  | O => []
  | S fuel =>
    Z.lor (Z.land n 0x7F) (if len =? 0 then 0x00 else 0x80) ::
    (if n <=? 0x7F then [] else WriteVarInt_loop fuel (Z.shiftr n 7 - 1) (len + 1))
  end.
Definition WriteVarInt (w : Z) (n : Z) : bytes :=
  reverse (WriteVarInt_loop (Z.to_nat ((w + 6) / 7)) n 0).

Fixpoint GetSizeOfVarInt_loop (fuel : nat) (n nRet : Z) : Z :=
  match fuel with
  | O => nRet
  | S fuel =>
    let nRet := nRet + 1 in
    if n <=? 0x7F then nRet else GetSizeOfVarInt_loop fuel (Z.shiftr n 7 - 1) nRet
  end.
Definition GetSizeOfVarInt (w : Z) (n : Z) : Z :=
  GetSizeOfVarInt_loop (Z.to_nat ((w + 6) / 7)) n 0.

(** Every turn of the loop consumes a byte of the stream. *)
Fixpoint ReadVarInt_loop (w : Z) (n : Z) (s : bytes) : result ser_error (Z * bytes) :=
  match s with
  | [] => Err EndOfData
  | chData :: s =>
    if n >? Z.shiftr (2 ^ w - 1) 7 then Err VarIntTooLarge else
    let n := Z.lor (Z.shiftl n 7 mod 2 ^ w) (Z.land chData 0x7F) in
    if Z.land chData 0x80 =? 0 then Ok (n, s)
    else if n =? 2 ^ w - 1 then Err VarIntTooLarge
    else ReadVarInt_loop w (n + 1) s
  end.
Definition ReadVarInt (w : Z) (s : bytes) : result ser_error (Z * bytes) := ReadVarInt_loop w 0 s.

(** ** Codecs *)

Record codec (A : Type) := mkCodec {
  write : A -> bytes;
  read : reader A;
  cpp_sizeof : Z;
}.
Arguments mkCodec {A}. Arguments write {A}. Arguments read {A}. Arguments cpp_sizeof {A}.

Class CodecOk {A} (c : codec A) (ok : A -> Prop) : Prop := {
  read_write : forall a rest, ok a -> read c (write c a ++ rest) = Ok (a, rest);
  write_bytes : forall a, ok a -> is_bytes (write c a);
  sizeof_batch : 0 < cpp_sizeof c <= 5000000;
}.
#[global] Hint Mode CodecOk ! ! - : typeclass_instances.

Class CodecCanonical {A} (c : codec A) (ok : A -> Prop) : Prop :=
  read_canonical : forall s a rest, is_bytes s -> read c s = Ok (a, rest) -> ok a /\ s = write c a ++ rest.
#[global] Hint Mode CodecCanonical ! ! - : typeclass_instances.

(** *** Integers, flat data, booleans *)

Definition ser_uint8 : codec Z := mkCodec ser_writedata8 ser_readdata8 1.
Definition ser_uint32 : codec Z := mkCodec ser_writedata32 ser_readdata32 4.
Definition ser_uint64 : codec Z := mkCodec ser_writedata64 ser_readdata64 8.
Definition ser_int32 : codec Z :=
  mkCodec ser_writedata32 (fun s => let* (a, s) := ser_readdata32 s in Ok (i32 a, s)) 4.
Definition ser_int64 : codec Z :=
  mkCodec ser_writedata64 (fun s => let* (a, s) := ser_readdata64 s in Ok (i64 a, s)) 8.
Definition ser_bool : codec bool :=
  mkCodec (fun a : bool => ser_writedata8 (if a then 1 else 0))
          (fun s => let* (f, s) := ser_readdata8 s in Ok (negb (f =? 0), s)) 1.

(** [base_blob<BITS>::Serialize], [CFlatData]: [n] bytes without a length. *)
Definition ser_flat (n : nat) : codec bytes :=
  mkCodec (fun b => b) (stream_read (Z.of_nat n)) (Z.of_nat n).
Definition ser_uint256 : codec bytes := ser_flat 32.

(** [VARINT(obj)] and [COMPACTSIZE(obj)]. *)
Definition ser_varint (w : Z) : codec Z := mkCodec (WriteVarInt w) (ReadVarInt w) 8.
Definition ser_compactsize : codec Z := mkCodec WriteCompactSize ReadCompactSize 8.

(** *** Byte vectors ([Serialize_impl] for [unsigned char], [std::string]) *)

(** [while (i < nSize) { ...; v.resize(i + blk); is.read(&v[i], blk); i += blk; }] *)
Fixpoint read_blob_loop (fuel : nat) (nSize i : Z) (v s : bytes) : result ser_error (bytes * bytes) :=
  if i <? nSize then
    match fuel with
    | O => Err OverwideBatch
    | S fuel =>
      let blk := Z.min (nSize - i) (1 + 4999999 / 1) in
      let* (b, s) := stream_read blk s in
      read_blob_loop fuel nSize (i + blk) (v ++ b) s
    end
  else Ok (v, s).

Definition Serialize_blob (v : bytes) : bytes := WriteCompactSize (Z.of_nat (length v)) ++ v.

(** A size of at most [MAX_SIZE] takes at most seven batches. *)
Definition Unserialize_blob (s : bytes) : result ser_error (bytes * bytes) :=
  let* (nSize, s) := ReadCompactSize s in
  read_blob_loop 7 (u32 nSize) 0 [] s.

(** [sizeof(prevector<28, unsigned char>)] is 32, that of [std::vector] 24. *)
Definition ser_script : codec bytes := mkCodec Serialize_blob Unserialize_blob 32.
Definition ser_blob : codec bytes := mkCodec Serialize_blob Unserialize_blob 24.

(** [std::string]: one read of the whole size. *)
Definition Unserialize_string (s : bytes) : result ser_error (bytes * bytes) :=
  let* (nSize, s) := ReadCompactSize s in stream_read (u32 nSize) s.
Definition ser_string : codec bytes := mkCodec Serialize_blob Unserialize_string 32.

(** [LIMITED_STRING(obj, Limit)]. *)
Definition Unserialize_limited (Limit : Z) (s : bytes) : result ser_error (bytes * bytes) :=
  let* (size, s) := ReadCompactSize s in
  if size >? Limit then Err StringLimitExceeded else stream_read size s.
Definition ser_limited (Limit : Z) : codec bytes := mkCodec Serialize_blob (Unserialize_limited Limit) 32.

(** *** Vectors of objects *)

Definition Serialize_vector {A} (c : codec A) (v : list A) : bytes :=
  WriteCompactSize (Z.of_nat (length v)) ++ concat (write c <$> v).

(** [for (; i < nMid; i++) Unserialize(is, v[i]);] for the [n] elements left. *)
Fixpoint read_elements {A} (c : codec A) (n : nat) (v : list A) (s : bytes)
  : result ser_error (list A * bytes) :=
  match n with
  | O => Ok (v, s)
  | S n => let* (a, s) := read c s in read_elements c n (v ++ [a]) s
  end.

(** [while (nMid < nSize) { nMid += 5000000 / sizeof(T); ... }] *)
Fixpoint read_vector_loop {A} (c : codec A) (fuel : nat) (nSize nMid : Z) (v : list A) (s : bytes)
  : result ser_error (list A * bytes) :=
  if nMid <? nSize then
    match fuel with
    | O => Err OverwideBatch
    | S fuel =>
      let nMid := u32 (nMid + 5000000 / cpp_sizeof c) in
      let nMid := if nMid >? nSize then nSize else nMid in
      let* (v, s) := read_elements c (Z.to_nat nMid - length v) v s in
      read_vector_loop c fuel nSize nMid v s
    end
  else Ok (v, s).

Definition Unserialize_vector {A} (c : codec A) (s : bytes) : result ser_error (list A * bytes) :=
  let* (nSize, s) := ReadCompactSize s in
  read_vector_loop c (Z.to_nat nSize) (u32 nSize) 0 [] s.

Definition ser_vector {A} (c : codec A) : codec (list A) :=
  mkCodec (Serialize_vector c) (Unserialize_vector c) 24.

(** *** Pairs: [std::pair], and two [READWRITE]s in a row *)
Definition ser_pair {A B} (c1 : codec A) (c2 : codec B) : codec (A * B) :=
  mkCodec (fun p => write c1 (fst p) ++ write c2 (snd p))
          (fun s => let* (a, s) := read c1 s in let* (b, s) := read c2 s in Ok ((a, b), s))
          (cpp_sizeof c1 + cpp_sizeof c2).

(** ** Streams: lemmas *)

Lemma stream_read_app (b rest : bytes) : stream_read (Z.of_nat (length b)) (b ++ rest) = Ok (b, rest).
Proof.
  unfold stream_read. destruct (Z.eqb_spec (Z.of_nat (length b)) 0) as [E|E].
  - destruct b; [done|]. simpl in E. lia.
  - rewrite length_app. destruct (Z.ltb_spec (Z.of_nat (length b + length rest)) (Z.of_nat (length b))); [lia|].
    by rewrite Nat2Z.id, take_app_length, drop_app_length.
Qed.

Lemma stream_read_app' n (b rest : bytes) : n = Z.of_nat (length b) -> stream_read n (b ++ rest) = Ok (b, rest).
Proof. intros ->. apply stream_read_app. Qed.

Lemma stream_read_inv n s b rest :
  0 <= n -> stream_read n s = Ok (b, rest) -> s = b ++ rest /\ Z.of_nat (length b) = n.
Proof.
  unfold stream_read. intros Hn. destruct (Z.eqb_spec n 0) as [->|E]; [by intros [= <- <-]|].
  destruct (Z.ltb_spec (Z.of_nat (length s)) n); [done|]. intros [= <- <-].
  rewrite take_drop, length_take. split; [done|lia].
Qed.

Lemma stream_read_short n s : 0 <= n -> Z.of_nat (length s) < n -> stream_read n s = Err EndOfData.
Proof.
  intros Hn Hs. unfold stream_read. destruct (Z.eqb_spec n 0); [lia|].
  by destruct (Z.ltb_spec (Z.of_nat (length s)) n); [|lia].
Qed.

(** Fixed-width integers: [k] bytes, little endian. *)
Definition read_le (k : nat) (s : bytes) : result ser_error (Z * bytes) :=
  let* (obj, s) := stream_read (Z.of_nat k) s in Ok (le_combine obj, s).

Lemma read_le_write k x rest :
  0 <= x < 2 ^ (8 * Z.of_nat k) -> read_le k (le_split k x ++ rest) = Ok (x, rest).
Proof.
  intros Hx. unfold read_le.
  rewrite (stream_read_app' _ (le_split k x)) by (by rewrite le_split_length).
  by rewrite le_combine_split, Z.mod_small.
Qed.

Lemma read_le_inv k s x rest :
  is_bytes s -> read_le k s = Ok (x, rest) ->
  0 <= x < 2 ^ (8 * Z.of_nat k) /\ s = le_split k x ++ rest /\ is_bytes rest.
Proof.
  unfold read_le. intros Hs H. destruct (stream_read _ s) as [[b r]|] eqn:E; [|done].
  injection H as <- <-. apply stream_read_inv in E as [-> Hl]; [|lia].
  apply Nat2Z.inj in Hl. apply Forall_app in Hs as [Hb Hr]. subst k.
  split; [by apply le_combine_range|]. by rewrite le_split_combine.
Qed.

Lemma writedata8_le x : is_u8 x -> ser_writedata8 x = le_split 1 x.
Proof. intros. unfold ser_writedata8. by rewrite u8_id. Qed.
Lemma writedata32_le x : is_u32 x -> ser_writedata32 x = le_split 4 x.
Proof. intros. unfold ser_writedata32. by rewrite u32_id. Qed.
Lemma writedata64_le x : is_u64 x -> ser_writedata64 x = le_split 8 x.
Proof. intros. unfold ser_writedata64. by rewrite u64_id. Qed.
Lemma writedata16_le x : 0 <= x < 2 ^ 16 -> ser_writedata16 x = le_split 2 x.
Proof. intros. unfold ser_writedata16. by rewrite Z.mod_small. Qed.

Lemma writedata8_bytes x : is_bytes (ser_writedata8 x). Proof. apply le_split_bytes. Qed.
Lemma writedata32_bytes x : is_bytes (ser_writedata32 x). Proof. apply le_split_bytes. Qed.
Lemma writedata64_bytes x : is_bytes (ser_writedata64 x). Proof. apply le_split_bytes. Qed.
#[export] Hint Resolve writedata8_bytes writedata32_bytes writedata64_bytes : hnb.

Lemma le_split_one x : is_u8 x -> le_split 1 x = [x].
Proof. intros. cbn [le_split]. by rewrite Z.mod_small. Qed.

Lemma readdata8_cons x s : ser_readdata8 (x :: s) = Ok (x, s).
Proof.
  unfold ser_readdata8, stream_read. cbn [Z.eqb length].
  destruct (Z.ltb_spec (Z.of_nat (S (length s))) 1); [lia|]. simpl.
  by replace (x + _) with x by lia; rewrite drop_0.
Qed.

(** ** Compact sizes: lemmas *)

Lemma WriteCompactSize_bytes n : is_bytes (WriteCompactSize n).
Proof.
  unfold WriteCompactSize, ser_writedata8, ser_writedata16, ser_writedata32, ser_writedata64.
  repeat split_if; auto with hnb.
Qed.

Lemma WriteCompactSize_length n : Z.of_nat (length (WriteCompactSize n)) = GetSizeOfCompactSize n.
Proof.
  unfold WriteCompactSize, GetSizeOfCompactSize, ser_writedata8, ser_writedata16, ser_writedata32, ser_writedata64.
  repeat split_if; by rewrite ?length_app, ?le_split_length.
Qed.

(** What the reader makes of an encoding, whatever the size. *)
Lemma ReadCompactSize_write n rest :
  is_u64 n ->
  ReadCompactSize (WriteCompactSize n ++ rest) = if n >? MAX_SIZE then Err SizeTooLarge else Ok (n, rest).
Proof.
  intros Hn. ranges. unfold ReadCompactSize, WriteCompactSize, USHRT_MAX, UINT_MAX.
  destruct (Z.ltb_spec n 253); [|destruct (Z.leb_spec n 65535); [|destruct (Z.leb_spec n 4294967295)]].
  - rewrite writedata8_le, le_split_one by (ranges; lia). cbn [app]. rewrite readdata8_cons.
    by destruct (Z.ltb_spec n 253); [|lia].
  - rewrite writedata16_le, <- app_assoc by lia. cbn [app ser_writedata8]. 
    change (ser_writedata8 253) with [253]. cbn [app]. rewrite readdata8_cons.
    change ser_readdata16 with (read_le 2). cbn [Z.ltb Z.eqb Z.compare Pos.compare Pos.compare_cont Pos.eqb].
    rewrite read_le_write by lia. by destruct (Z.ltb_spec n 253); [lia|].
  - rewrite writedata32_le, <- app_assoc by (ranges; lia).
    change (ser_writedata8 254) with [254]. cbn [app]. rewrite readdata8_cons.
    change ser_readdata32 with (read_le 4). cbn [Z.ltb Z.eqb Z.compare Pos.compare Pos.compare_cont Pos.eqb].
    rewrite read_le_write by lia. by destruct (Z.ltb_spec n 65536); [lia|].
  - rewrite writedata64_le, <- app_assoc by (ranges; lia).
    change (ser_writedata8 255) with [255]. cbn [app]. rewrite readdata8_cons.
    change ser_readdata64 with (read_le 8). cbn [Z.ltb Z.eqb Z.compare Pos.compare Pos.compare_cont Pos.eqb].
    rewrite read_le_write by lia. by destruct (Z.ltb_spec n 4294967296); [lia|].
Qed.

Lemma ReadCompactSize_inv s n rest :
  is_bytes s -> ReadCompactSize s = Ok (n, rest) ->
  0 <= n <= MAX_SIZE /\ s = WriteCompactSize n ++ rest.
Proof.
  intros Hs H. unfold ReadCompactSize in H. destruct s as [|c s]; [done|].
  rewrite readdata8_cons in H. inversion Hs as [|? ? Hc Hs']; subst. ranges.
  match type of H with (match ?m with _ => _ end) = _ => destruct m as [[x r]|] eqn:Em; [|done] end.
  rewrite Z.gtb_ltb in H. destruct (Z.ltb_spec MAX_SIZE x); [done|]. injection H as -> ->.
  unfold WriteCompactSize, USHRT_MAX, UINT_MAX.
  destruct (Z.ltb_spec c 253).
  { injection Em as -> ->. destruct (Z.ltb_spec n 253); [|lia].
    rewrite writedata8_le, le_split_one by (ranges; lia). split; [lia|done]. }
  destruct (Z.eqb_spec c 253) as [->|]; [|destruct (Z.eqb_spec c 254) as [->|]].
  - change ser_readdata16 with (read_le 2) in Em. destruct (read_le 2 s) as [[y t]|] eqn:Er; [|done].
    apply read_le_inv in Er as (Hy & -> & _); [|done]. 
    destruct (Z.ltb_spec y 253); [done|]. injection Em as -> ->.
    destruct (Z.ltb_spec n 253); [lia|]. destruct (Z.leb_spec n 65535); [|lia].
    rewrite writedata16_le by lia. split; [lia|done].
  - change ser_readdata32 with (read_le 4) in Em. destruct (read_le 4 s) as [[y t]|] eqn:Er; [|done].
    apply read_le_inv in Er as (Hy & -> & _); [|done].
    destruct (Z.ltb_spec y 65536); [done|]. injection Em as -> ->.
    destruct (Z.ltb_spec n 253); [lia|]. destruct (Z.leb_spec n 65535); [lia|].
    destruct (Z.leb_spec n 4294967295); [|lia].
    rewrite writedata32_le by (ranges; lia). split; [lia|done].
  - assert (c = 255) as -> by lia.
    change ser_readdata64 with (read_le 8) in Em. destruct (read_le 8 s) as [[y t]|] eqn:Er; [|done].
    apply read_le_inv in Er as (Hy & -> & _); [|done].
    destruct (Z.ltb_spec y 4294967296); [done|]. injection Em as -> ->. unfold MAX_SIZE in *. lia.
Qed.

(** ** Variable-length integers: lemmas *)

Lemma WriteVarInt_loop_cons f n len :
  WriteVarInt_loop (S f) n len =
  Z.lor (Z.land n 127) (if len =? 0 then 0 else 128) ::
  (if n <=? 127 then [] else WriteVarInt_loop f (Z.shiftr n 7 - 1) (len + 1)).
Proof. done. Qed.

Lemma WriteVarInt_loop_enough f g n len len' :
  0 <= n < 2 ^ (7 * Z.of_nat f) - 1 -> (f <= g)%nat -> 0 < len -> 0 < len' ->
  WriteVarInt_loop g n len = WriteVarInt_loop f n len'.
Proof.
  revert g n len len'. induction f as [|f IH]; intros g n len len' Hn Hg Hl Hl'; [simpl in Hn; lia|].
  destruct g as [|g]; [lia|]. cbn [WriteVarInt_loop].
  destruct (Z.eqb_spec len 0); [lia|]. destruct (Z.eqb_spec len' 0); [lia|]. f_equal.
  destruct (Z.leb_spec n 127); [done|]. apply IH; [|lia..].
  rewrite Z.shiftr_div_pow2 by lia.
  replace (7 * Z.of_nat (S f)) with (7 + 7 * Z.of_nat f) in Hn by lia.
  rewrite Z.pow_add_r in Hn by lia. change (2 ^ 7) with 128 in *.
  pose proof (Z.div_lt_upper_bound n 128 (2 ^ (7 * Z.of_nat f)) ltac:(lia) ltac:(lia)).
  pose proof (Z.div_le_lower_bound n 128 1 ltac:(lia) ltac:(lia)). lia.
Qed.

(** Group by group, most significant first; the encoding of [n] with the
    continuation bit on every byte. *)
Definition varint_hi (w n : Z) : bytes := reverse (WriteVarInt_loop (Z.to_nat ((w + 6) / 7)) n 1).

Section varint.
Context (w : Z) (Hw : 7 <= w).

Lemma varint_step n len :
  0 <= n < 2 ^ w -> 0 <= len ->
  reverse (WriteVarInt_loop (Z.to_nat ((w + 6) / 7)) n len) =
  (if n <=? 127 then [] else varint_hi w (Z.shiftr n 7 - 1)) ++
  [Z.lor (Z.land n 127) (if len =? 0 then 0 else 128)].
Proof using Hw.
  intros Hn Hl. unfold varint_hi.
  pose proof (Z.div_mod (w + 6) 7 ltac:(lia)). pose proof (Z.mod_pos_bound (w + 6) 7 ltac:(lia)).
  destruct (Z.to_nat ((w + 6) / 7)) as [|f] eqn:Ef; [lia|]. 
  rewrite (WriteVarInt_loop_cons f n len), reverse_cons. f_equal.
  destruct (Z.leb_spec n 127); [done|]. f_equal. symmetry.
  apply WriteVarInt_loop_enough; [|lia..].
  assert (Hp : 2 ^ w <= 2 ^ (7 + 7 * Z.of_nat f)) by (apply Z.pow_le_mono_r; lia).
  rewrite Z.pow_add_r in Hp by lia. rewrite Z.shiftr_div_pow2 by lia. change (2 ^ 7) with 128 in *.
  pose proof (Z.div_lt_upper_bound n 128 (2 ^ (7 * Z.of_nat f)) ltac:(lia) ltac:(lia)).
  pose proof (Z.div_le_lower_bound n 128 1 ltac:(lia) ltac:(lia)). lia.
Qed.

Lemma varint_hi_step n :
  0 <= n < 2 ^ w ->
  varint_hi w n = (if n <=? 127 then [] else varint_hi w (Z.shiftr n 7 - 1)) ++ [n mod 128 + 128].
Proof using Hw.
  intros Hn. unfold varint_hi at 1. rewrite varint_step by lia. f_equal. f_equal.
  change 127 with (2 ^ 7 - 1). rewrite land_ones_mod by lia. cbn [Z.eqb].
  change 128 with (1 * 2 ^ 7) at 1. rewrite lor_add_disjoint; [done|lia|apply Z.mod_pos_bound; lia].
Qed.

Lemma WriteVarInt_step n :
  0 <= n < 2 ^ w ->
  WriteVarInt w n = (if n <=? 127 then [] else varint_hi w (Z.shiftr n 7 - 1)) ++ [n mod 128].
Proof using Hw.
  intros Hn. unfold WriteVarInt. rewrite varint_step by lia. f_equal. f_equal.
  change 127 with (2 ^ 7 - 1). rewrite land_ones_mod by lia. cbn [Z.eqb]. apply Z.lor_0_r.
Qed.

(** One turn of the reader: nothing wraps below the guards. *)
Lemma ReadVarInt_loop_byte acc c rest :
  is_u8 c -> 0 <= acc ->
  ReadVarInt_loop w acc (c :: rest) =
  if 2 ^ (w - 7) <=? acc then Err VarIntTooLarge
  else if c <? 128 then Ok (128 * acc + c mod 128, rest)
  else if 128 * acc + c mod 128 =? 2 ^ w - 1 then Err VarIntTooLarge
  else ReadVarInt_loop w (128 * acc + c mod 128 + 1) rest.
Proof using Hw.
  intros Hc Ha. ranges. cbn [ReadVarInt_loop].
  assert (Hp : 2 ^ w = 128 * 2 ^ (w - 7)).
  { change 128 with (2 ^ 7). rewrite <- Z.pow_add_r by lia. f_equal. lia. }
  assert (0 < 2 ^ (w - 7)) by (apply Z.pow_pos_nonneg; lia).
  replace (Z.shiftr (2 ^ w - 1) 7) with (2 ^ (w - 7) - 1).
  2:{ rewrite Z.shiftr_div_pow2 by lia. change (2 ^ 7) with 128. rewrite Hp.
      replace (128 * 2 ^ (w - 7) - 1) with (127 + (2 ^ (w - 7) - 1) * 128) by lia.
      by rewrite Z.div_add by lia. }
  rewrite Z.gtb_ltb.
  destruct (Z.ltb_spec (2 ^ (w - 7) - 1) acc); destruct (Z.leb_spec (2 ^ (w - 7)) acc); try lia; [done|].
  rewrite Z.shiftl_mul_pow2, (Z.mod_small (acc * 2 ^ 7)) by lia.
  change 0x7F with (2 ^ 7 - 1). rewrite land_ones_mod by lia.
  pose proof (Z.mod_pos_bound c (2 ^ 7) ltac:(lia)).
  rewrite Zlor_comm_add by lia. change (2 ^ 7) with 128 in *.
  replace (c mod 128 + acc * 128) with (128 * acc + c mod 128) by lia.
  replace (Z.land c 128 =? 0) with (c <? 128); [done|].
  change 128 with (Z.shiftl 1 7) at 2. rewrite land_bit_zero by lia.
  apply eq_true_iff_eq. rewrite Z.ltb_lt, negb_true_iff, Z.testbit_false by lia.
  change (2 ^ 7) with 128. pose proof (Z.div_lt_upper_bound c 128 2 ltac:(lia) ltac:(lia)).
  pose proof (Z.div_mod c 128 ltac:(lia)). pose proof (Z.div_pos c 128 ltac:(lia) ltac:(lia)).
  assert (c / 128 = 0 \/ c / 128 = 1) as [E|E] by lia; rewrite E in *; [change (0 mod 2) with 0|change (1 mod 2) with 1]; lia.
Qed.

Lemma varint_state n : 0 <= n < 2 ^ w -> 0 <= Z.shiftr n 7 < 2 ^ (w - 7) /\ n = 128 * Z.shiftr n 7 + n mod 128.
Proof using Hw.
  intros Hn. rewrite Z.shiftr_div_pow2 by lia. change (2 ^ 7) with 128.
  assert (Hp : 2 ^ w = 128 * 2 ^ (w - 7)).
  { change 128 with (2 ^ 7). rewrite <- Z.pow_add_r by lia. f_equal. lia. }
  split; [|apply Z.div_mod; lia]. split; [apply Z.div_pos; lia|]. apply Z.div_lt_upper_bound; lia.
Qed.

Lemma ReadVarInt_hi n rest :
  0 <= n < 2 ^ w - 1 -> ReadVarInt_loop w 0 (varint_hi w n ++ rest) = ReadVarInt_loop w (n + 1) rest.
Proof using Hw.
  intros [H0 Hn]. revert n H0 rest Hn. apply (Zlt_0_ind (fun n => forall rest, n < 2 ^ w - 1 ->
    ReadVarInt_loop w 0 (varint_hi w n ++ rest) = ReadVarInt_loop w (n + 1) rest)).
  intros n IH H0 rest Hn.
  destruct (varint_state n ltac:(lia)) as [Hs Hd].
  pose proof (Z.mod_pos_bound n 128 ltac:(lia)).
  rewrite varint_hi_step, <- app_assoc by lia. cbn [app].
  assert (Hgo : ReadVarInt_loop w (Z.shiftr n 7) (n mod 128 + 128 :: rest) = ReadVarInt_loop w (n + 1) rest).
  { rewrite ReadVarInt_loop_byte by (ranges; lia).
    destruct (Z.leb_spec (2 ^ (w - 7)) (Z.shiftr n 7)); [lia|].
    destruct (Z.ltb_spec (n mod 128 + 128) 128); [lia|].
    replace ((n mod 128 + 128) mod 128) with (n mod 128)
      by (rewrite <- (Z.mul_1_l 128) at 3; rewrite Z.mod_add, Z.mod_mod; lia).
    rewrite <- Hd. by destruct (Z.eqb_spec n (2 ^ w - 1)); [lia|]. }
  destruct (Z.leb_spec n 127).
  - assert (E : Z.shiftr n 7 = 0) by (rewrite Z.shiftr_div_pow2 by lia; apply Z.div_small; lia).
    by rewrite E in Hgo.
  - rewrite IH; [|lia..]. by rewrite Z.sub_add.
Qed.

Lemma ReadVarInt_last n rest :
  0 <= n < 2 ^ w -> ReadVarInt_loop w (Z.shiftr n 7) (n mod 128 :: rest) = Ok (n, rest).
Proof using Hw.
  intros Hn. destruct (varint_state n Hn) as [Hs Hd]. pose proof (Z.mod_pos_bound n 128 ltac:(lia)).
  rewrite ReadVarInt_loop_byte by (ranges; lia).
  destruct (Z.leb_spec (2 ^ (w - 7)) (Z.shiftr n 7)); [lia|].
  destruct (Z.ltb_spec (n mod 128) 128); [|lia]. by rewrite Z.mod_mod, <- Hd by lia.
Qed.

Lemma shiftr7_small n : 0 <= n <= 127 -> Z.shiftr n 7 = 0.
Proof using. intros. rewrite Z.shiftr_div_pow2 by lia. apply Z.div_small. lia. Qed.
Lemma shiftr7_pos n : 127 < n -> 0 < Z.shiftr n 7.
Proof using.
  intros. rewrite Z.shiftr_div_pow2 by lia. pose proof (Z.div_le_lower_bound n 128 1 ltac:(lia) ltac:(lia)).
  change (2 ^ 7) with 128. lia.
Qed.

Lemma ReadVarInt_write n rest : 0 <= n < 2 ^ w -> ReadVarInt w (WriteVarInt w n ++ rest) = Ok (n, rest).
Proof using Hw.
  intros Hn. destruct (varint_state n Hn) as [Hs Hd].
  unfold ReadVarInt. rewrite WriteVarInt_step, <- app_assoc by lia. cbn [app].
  pose proof (ReadVarInt_last n rest Hn) as Hl.
  destruct (Z.leb_spec n 127); [by rewrite shiftr7_small in Hl by lia|].
  pose proof (shiftr7_pos n ltac:(lia)).
  rewrite ReadVarInt_hi; [by rewrite Z.sub_add|]. 
  assert (2 ^ (w - 7) <= 2 ^ w) by (apply Z.pow_le_mono_r; lia). lia.
Qed.

(** The bytes consumed before the reader is in state [acc]. *)
Lemma ReadVarInt_loop_inv s acc n rest :
  is_bytes s -> 0 <= acc < 2 ^ w -> ReadVarInt_loop w acc s = Ok (n, rest) ->
  0 <= n < 2 ^ w /\
  (if acc =? 0 then [] else varint_hi w (acc - 1)) ++ s = WriteVarInt w n ++ rest.
Proof using Hw.
  intros Hs. revert acc. induction Hs as [|c s Hc Hs IH]; intros acc Ha H; [done|].
  rewrite ReadVarInt_loop_byte in H by (done || lia). ranges.
  pose proof (Z.mod_pos_bound c 128 ltac:(lia)).
  assert (Hp : 2 ^ w = 128 * 2 ^ (w - 7)).
  { change 128 with (2 ^ 7). rewrite <- Z.pow_add_r by lia. f_equal. lia. }
  destruct (Z.leb_spec (2 ^ (w - 7)) acc); [done|].
  set (m := 128 * acc + c mod 128) in *.
  assert (Hm : 0 <= m < 2 ^ w) by (subst m; lia).
  assert (Hsh : Z.shiftr m 7 = acc).
  { subst m. rewrite Z.shiftr_div_pow2 by lia. change (2 ^ 7) with 128.
    rewrite (Z.mul_comm 128), Z.div_add_l, (Z.div_small (c mod 128)) by lia. lia. }
  assert (Hmod : m mod 128 = c mod 128).
  { subst m. rewrite (Z.mul_comm 128), Z.add_comm, Z.mod_add, Z.mod_mod by lia. done. }
  assert (Hpre : (if acc =? 0 then [] else varint_hi w (acc - 1)) =
                 (if m <=? 127 then [] else varint_hi w (Z.shiftr m 7 - 1))).
  { rewrite Hsh. destruct (Z.eqb_spec acc 0); destruct (Z.leb_spec m 127); try done; subst m; lia. }
  destruct (Z.ltb_spec c 128).
  - injection H as -> ->. split; [done|]. rewrite WriteVarInt_step, Hpre, Hmod, <- app_assoc by done.
    by rewrite (Z.mod_small c) by lia.
  - destruct (Z.eqb_spec m (2 ^ w - 1)); [done|].
    apply IH in H as [Hn E]; [|lia]. split; [done|].
    rewrite <- E. destruct (Z.eqb_spec (m + 1) 0); [lia|]. rewrite Z.add_simpl_r, (varint_hi_step m) by lia.
    rewrite Hpre, Hmod, <- app_assoc. cbn [app]. do 2 f_equal.
    rewrite (Z.mod_eq c 128) by lia.
    pose proof (Z.div_lt_upper_bound c 128 2 ltac:(lia) ltac:(lia)).
    pose proof (Z.div_le_lower_bound c 128 1 ltac:(lia) ltac:(lia)). lia.
Qed.

Lemma ReadVarInt_inv s n rest :
  is_bytes s -> ReadVarInt w s = Ok (n, rest) -> 0 <= n < 2 ^ w /\ s = WriteVarInt w n ++ rest.
Proof using Hw.
  intros Hs H. apply ReadVarInt_loop_inv in H; [done|done|].
  split; [lia|apply Z.pow_pos_nonneg; lia].
Qed.

Lemma WriteVarInt_bytes n : is_bytes (WriteVarInt w n).
Proof using.
  unfold WriteVarInt. rewrite Forall_reverse. generalize 0 at 1.
  generalize (Z.to_nat ((w + 6) / 7)). intros f. revert n.
  induction f as [|f IH]; intros n len; cbn [WriteVarInt_loop]; constructor.
  - change 0x7F with (2 ^ 7 - 1). rewrite land_ones_mod by lia.
    pose proof (Z.mod_pos_bound n (2 ^ 7) ltac:(lia)).
    unfold is_u8. apply lor_range; [lia|lia|]. split_if; lia.
  - split_if; [constructor|apply IH].
Qed.

Lemma GetSizeOfVarInt_spec n : GetSizeOfVarInt w n = Z.of_nat (length (WriteVarInt w n)).
Proof using.
  unfold GetSizeOfVarInt, WriteVarInt. rewrite length_reverse.
  enough (H : forall f n r len, GetSizeOfVarInt_loop f n r = r + Z.of_nat (length (WriteVarInt_loop f n len)))
    by by rewrite (H _ _ _ 0).
  induction f as [|f IH]; intros n' r len; cbn [GetSizeOfVarInt_loop WriteVarInt_loop length]; [lia|].
  destruct (n' <=? 127); [simpl; lia|]. rewrite (IH _ _ (len + 1)). lia.
Qed.
End varint.

(** ** Codec instances *)

Section integers.
Local Ltac go k := 
  change ser_readdata8 with (read_le 1); change ser_readdata32 with (read_le 4);
  change ser_readdata64 with (read_le 8);
  rewrite ?writedata8_le, ?writedata32_le, ?writedata64_le by done;
  rewrite (read_le_write k) by (ranges; lia).

#[export] Instance ser_uint8_ok : CodecOk ser_uint8 is_u8.
Proof. split; cbn [read write ser_uint8 cpp_sizeof]; [|auto with hnb|lia]. intros a rest Ha. by go 1%nat. Qed.
#[export] Instance ser_uint32_ok : CodecOk ser_uint32 is_u32.
Proof. split; cbn [read write ser_uint32 cpp_sizeof]; [|auto with hnb|lia]. intros a rest Ha. by go 4%nat. Qed.
#[export] Instance ser_uint64_ok : CodecOk ser_uint64 is_u64.
Proof. split; cbn [read write ser_uint64 cpp_sizeof]; [|auto with hnb|lia]. intros a rest Ha. by go 8%nat. Qed.

Lemma swrap_mod W x : 0 < W -> - 2 ^ (W - 1) <= x < 2 ^ (W - 1) -> swrap W (x mod 2 ^ W) = x.
Proof.
  intros HW Hx. rewrite <- (swrap_id W x) at 2 by done. unfold swrap. by rewrite Zplus_mod_idemp_l.
Qed.

Lemma u32_i32 x : u32 (i32 x) = u32 x.
Proof.
  unfold u32, i32, swrap. change (2 ^ (32 - 1)) with (2 ^ 31).
  rewrite Zminus_mod_idemp_l. f_equal. lia.
Qed.
Lemma u64_i64 x : u64 (i64 x) = u64 x.
Proof.
  unfold u64, i64, swrap. change (2 ^ (64 - 1)) with (2 ^ 63).
  rewrite Zminus_mod_idemp_l. f_equal. lia.
Qed.
Lemma i32_range x : is_i32 (i32 x).
Proof. unfold is_i32, i32, swrap. pose proof (Z.mod_pos_bound (x + 2 ^ (32 - 1)) (2 ^ 32) ltac:(lia)). lia. Qed.
Lemma i64_range x : is_i64 (i64 x).
Proof. unfold is_i64, i64, swrap. pose proof (Z.mod_pos_bound (x + 2 ^ (64 - 1)) (2 ^ 64) ltac:(lia)). lia. Qed.

#[export] Instance ser_int32_ok : CodecOk ser_int32 is_i32.
Proof.
  split; cbn [read write ser_int32 cpp_sizeof]; [|auto with hnb|lia].
  intros a rest Ha. change ser_readdata32 with (read_le 4). unfold ser_writedata32.
  rewrite (read_le_write 4) by apply u32_range. unfold i32, u32. by rewrite swrap_mod by (ranges; lia).
Qed.
#[export] Instance ser_int64_ok : CodecOk ser_int64 is_i64.
Proof.
  split; cbn [read write ser_int64 cpp_sizeof]; [|auto with hnb|lia].
  intros a rest Ha. change ser_readdata64 with (read_le 8). unfold ser_writedata64.
  rewrite (read_le_write 8) by apply u64_range. unfold i64, u64. by rewrite swrap_mod by (ranges; lia).
Qed.
#[export] Instance ser_bool_ok : CodecOk ser_bool (fun _ => True).
Proof.
  split; cbn [read write ser_bool cpp_sizeof]; [|auto with hnb|lia].
  intros [] rest _; [change (ser_writedata8 1) with [1]|change (ser_writedata8 0) with [0]];
    cbn [app]; by rewrite readdata8_cons.
Qed.

#[export] Instance ser_uint8_canonical : CodecCanonical ser_uint8 is_u8.
Proof.
  intros s a rest Hs H. apply (read_le_inv 1) in H as (Ha & -> & _); [|done].
  split; [done|]. cbn [write ser_uint8 ser_uint32 ser_uint64]. by rewrite writedata8_le.
Qed.
#[export] Instance ser_uint32_canonical : CodecCanonical ser_uint32 is_u32.
Proof.
  intros s a rest Hs H. apply (read_le_inv 4) in H as (Ha & -> & _); [|done].
  split; [done|]. cbn [write ser_uint8 ser_uint32 ser_uint64]. by rewrite writedata32_le.
Qed.
#[export] Instance ser_uint64_canonical : CodecCanonical ser_uint64 is_u64.
Proof.
  intros s a rest Hs H. apply (read_le_inv 8) in H as (Ha & -> & _); [|done].
  split; [done|]. cbn [write ser_uint8 ser_uint32 ser_uint64]. by rewrite writedata64_le.
Qed.
#[export] Instance ser_int32_canonical : CodecCanonical ser_int32 is_i32.
Proof.
  intros s a rest Hs H. cbn [read ser_int32] in H. change ser_readdata32 with (read_le 4) in H.
  destruct (read_le 4 s) as [[x r]|] eqn:E; [|done]. injection H as <- <-.
  apply read_le_inv in E as (Hx & -> & _); [|done]. split; [apply i32_range|].
  cbn [write ser_int32]. unfold ser_writedata32. by rewrite u32_i32, u32_id.
Qed.
#[export] Instance ser_int64_canonical : CodecCanonical ser_int64 is_i64.
Proof.
  intros s a rest Hs H. cbn [read ser_int64] in H. change ser_readdata64 with (read_le 8) in H.
  destruct (read_le 8 s) as [[x r]|] eqn:E; [|done]. injection H as <- <-.
  apply read_le_inv in E as (Hx & -> & _); [|done]. split; [apply i64_range|].
  cbn [write ser_int64]. unfold ser_writedata64. by rewrite u64_i64, u64_id.
Qed.
End integers.

(** A flat object of [n] bytes. *)
Definition flat_ok (n : nat) (b : bytes) : Prop := length b = n /\ is_bytes b.

#[export] Instance ser_flat_canonical n : CodecCanonical (ser_flat n) (flat_ok n).
Proof.
  intros s a rest Hs H. apply stream_read_inv in H as [-> Hl]; [|lia]. apply Forall_app in Hs as [Ha _].
  split; [|done]. split; [by apply Nat2Z.inj|done].
Qed.
#[export] Instance ser_uint256_ok : CodecOk ser_uint256 (flat_ok 32).
Proof.
  split; simpl; [|by intros a []|lia]. intros a rest [Hl _]. by apply stream_read_app'; rewrite Hl.
Qed.
#[export] Instance ser_uint256_canonical : CodecCanonical ser_uint256 (flat_ok 32).
Proof. apply ser_flat_canonical. Qed.

(** The integer types the node gives [VARINT]: [int], [uint32_t], [uint64_t]. *)
Class VarIntWidth (w : Z) : Prop := varint_width : 7 <= w.
#[export] Instance varint_width_int : VarIntWidth 31. Proof. unfold VarIntWidth. lia. Qed.
#[export] Instance varint_width_u32 : VarIntWidth 32. Proof. unfold VarIntWidth. lia. Qed.
#[export] Instance varint_width_u64 : VarIntWidth 64. Proof. unfold VarIntWidth. lia. Qed.

#[export] Instance ser_varint_ok w : VarIntWidth w -> CodecOk (ser_varint w) (fun n => 0 <= n < 2 ^ w).
Proof.
  intros Hw. split; simpl; [|intros; apply WriteVarInt_bytes|lia]. intros. by apply ReadVarInt_write.
Qed.
#[export] Instance ser_varint_canonical w :
  VarIntWidth w -> CodecCanonical (ser_varint w) (fun n => 0 <= n < 2 ^ w).
Proof. intros Hw s a rest. by apply ReadVarInt_inv. Qed.

#[export] Instance ser_compactsize_ok : CodecOk ser_compactsize (fun n => 0 <= n <= MAX_SIZE).
Proof.
  split; simpl; [|intros; apply WriteCompactSize_bytes|lia]. intros a rest Ha.
  rewrite ReadCompactSize_write by (unfold MAX_SIZE in *; ranges; lia).
  rewrite Z.gtb_ltb. by destruct (Z.ltb_spec MAX_SIZE a); [lia|].
Qed.
#[export] Instance ser_compactsize_canonical : CodecCanonical ser_compactsize (fun n => 0 <= n <= MAX_SIZE).
Proof. intros s a rest. apply ReadCompactSize_inv. Qed.

(** *** Byte vectors *)

Definition blob_ok (v : bytes) : Prop := Z.of_nat (length v) <= MAX_SIZE /\ is_bytes v.

(** The batched read is one read. *)
Lemma read_blob_loop_spec fuel nSize i v s :
  0 <= i <= nSize -> nSize - i <= 5000000 * Z.of_nat fuel ->
  read_blob_loop fuel nSize i v s =
  let* (b, s) := stream_read (nSize - i) s in Ok (v ++ b, s).
Proof.
  revert i v s. induction fuel as [|fuel IH]; intros i v s Hi Hf; cbn [read_blob_loop];
    (destruct (Z.ltb_spec i nSize); [|replace (nSize - i) with 0 by lia; simpl; by rewrite app_nil_r]); [lia|].
  change (1 + 4999999 / 1) with 5000000. 
  set (blk := Z.min (nSize - i) 5000000).
  destruct (decide (Z.of_nat (length s) < nSize - i)) as [Hs|Hs].
  - rewrite (stream_read_short (nSize - i)) by lia.
    destruct (decide (Z.of_nat (length s) < blk)); [by rewrite stream_read_short by lia|].
    destruct (stream_read blk s) as [[b r]|] eqn:E.
    2:{ unfold stream_read in E. destruct (Z.eqb_spec blk 0); [done|].
        by destruct (Z.ltb_spec (Z.of_nat (length s)) blk); [lia|]. }
    apply stream_read_inv in E as [-> Hl]; [|lia]. rewrite length_app in Hs.
    rewrite IH by lia. by rewrite stream_read_short by lia.
  - rewrite <- (take_drop (Z.to_nat blk) s) at 1.
    rewrite stream_read_app' by (rewrite length_take; lia).
    rewrite IH by lia. rewrite <- (take_drop (Z.to_nat (nSize - i)) s) at 2.
    rewrite (stream_read_app' (nSize - i)) by (rewrite length_take; lia).
    rewrite <- (take_drop (Z.to_nat (nSize - (i + blk))) (drop _ s)).
    rewrite stream_read_app' by (rewrite length_take, length_drop; lia).
    replace (Z.to_nat (nSize - i)) with (Z.to_nat blk + Z.to_nat (nSize - (i + blk)))%nat by lia.
    by rewrite drop_drop, <- app_assoc, take_take_drop.
Qed.

Lemma Unserialize_blob_one_read s :
  is_bytes s -> Unserialize_blob s = Unserialize_string s.
Proof.
  intros Hs. unfold Unserialize_blob, Unserialize_string.
  destruct (ReadCompactSize s) as [[n r]|] eqn:E; [|done].
  apply ReadCompactSize_inv in E as [Hn _]; [|done]. unfold MAX_SIZE in *.
  rewrite u32_id by (ranges; lia). rewrite read_blob_loop_spec, Z.sub_0_r by lia.
  by destruct (stream_read n r) as [[]|].
Qed.

Lemma read_size_write n rest :
  0 <= n <= MAX_SIZE -> ReadCompactSize (WriteCompactSize n ++ rest) = Ok (n, rest).
Proof. intros Hn. by apply (read_write (c := ser_compactsize) (ok := fun n => 0 <= n <= MAX_SIZE)). Qed.

Lemma Unserialize_blob_write v rest : blob_ok v -> Unserialize_blob (Serialize_blob v ++ rest) = Ok (v, rest).
Proof.
  intros [Hl Hv]. unfold Unserialize_blob, Serialize_blob. rewrite <- app_assoc.
  rewrite read_size_write by lia. unfold MAX_SIZE in *.
  rewrite u32_id by (ranges; lia). rewrite read_blob_loop_spec, Z.sub_0_r by lia.
  by rewrite stream_read_app.
Qed.

Lemma Unserialize_string_inv s v rest :
  is_bytes s -> Unserialize_string s = Ok (v, rest) -> blob_ok v /\ s = Serialize_blob v ++ rest.
Proof.
  intros Hs H. unfold Unserialize_string in H.
  destruct (ReadCompactSize s) as [[n r]|] eqn:E; [|done].
  apply ReadCompactSize_inv in E as [Hn ->]; [|done].
  rewrite u32_id in H by (unfold MAX_SIZE in *; ranges; lia).
  apply stream_read_inv in H as [-> Hl]; [|lia]. rewrite !Forall_app in Hs.
  unfold blob_ok, Serialize_blob. rewrite Hl, <- app_assoc. split; [|done]. split; [lia|apply Hs].
Qed.

Lemma Serialize_blob_bytes v : blob_ok v -> is_bytes (Serialize_blob v).
Proof. intros [_ Hv]. apply is_bytes_app; [apply WriteCompactSize_bytes|done]. Qed.

#[export] Instance ser_blob_ok : CodecOk ser_blob blob_ok.
Proof. split; [apply Unserialize_blob_write|apply Serialize_blob_bytes|simpl; lia]. Qed.
#[export] Instance ser_script_ok : CodecOk ser_script blob_ok.
Proof. split; [apply Unserialize_blob_write|apply Serialize_blob_bytes|simpl; lia]. Qed.
#[export] Instance ser_blob_canonical : CodecCanonical ser_blob blob_ok.
Proof. intros s a rest Hs. cbn [read ser_blob]. rewrite Unserialize_blob_one_read by done. by apply Unserialize_string_inv. Qed.
#[export] Instance ser_script_canonical : CodecCanonical ser_script blob_ok.
Proof. apply ser_blob_canonical. Qed.

#[export] Instance ser_string_ok : CodecOk ser_string blob_ok.
Proof.
  split; [|apply Serialize_blob_bytes|simpl; lia]. intros v rest [Hl Hv].
  cbn [read write ser_string]. unfold Unserialize_string, Serialize_blob. rewrite <- app_assoc, read_size_write by lia.
  rewrite u32_id by (unfold MAX_SIZE in *; ranges; lia). apply stream_read_app.
Qed.
#[export] Instance ser_string_canonical : CodecCanonical ser_string blob_ok.
Proof. intros s a rest Hs. by apply Unserialize_string_inv. Qed.

(** *** Vectors of objects *)

Definition vector_ok {A} (ok : A -> Prop) (v : list A) : Prop :=
  Z.of_nat (length v) <= MAX_SIZE /\ Forall ok v.

Section vectors.
Context {A : Type} (c : codec A).

Lemma read_elements_app n m v s :
  read_elements c (n + m) v s = let* (v, s) := read_elements c n v s in read_elements c m v s.
Proof.
  revert v s. induction n as [|n IH]; intros v s; [done|]. cbn [Nat.add read_elements].
  destruct (read c s) as [[a r]|]; [apply IH|done].
Qed.

Lemma read_elements_length n v s v' rest :
  read_elements c n v s = Ok (v', rest) -> length v' = (length v + n)%nat.
Proof.
  revert v s. induction n as [|n IH]; intros v s; cbn [read_elements]; [intros [= <- <-]; lia|].
  destruct (read c s) as [[a r]|]; [|done]. intros ->%IH. rewrite length_app. simpl. lia.
Qed.

(** The batches of the reader are invisible: it reads [nSize] elements. *)
Lemma read_vector_loop_spec fuel nSize nMid v s :
  0 < cpp_sizeof c <= 5000000 ->
  0 <= nMid <= nSize -> nSize <= MAX_SIZE -> Z.of_nat (length v) = nMid -> nSize - nMid <= Z.of_nat fuel ->
  read_vector_loop c fuel nSize nMid v s = read_elements c (Z.to_nat (nSize - nMid)) v s.
Proof.
  intros Hsz. revert nMid v s. induction fuel as [|fuel IH]; intros nMid v s Hm HM Hl Hf;
    cbn [read_vector_loop]; (destruct (Z.ltb_spec nMid nSize); [|by replace (nSize - nMid) with 0 by lia]); [lia|].
  pose proof (Z.div_le_lower_bound 5000000 (cpp_sizeof c) 1 ltac:(lia) ltac:(lia)).
  pose proof (Z.div_le_upper_bound 5000000 (cpp_sizeof c) 5000000 ltac:(lia) ltac:(nia)).
  set (batch := 5000000 / cpp_sizeof c) in *. unfold MAX_SIZE in *.
  rewrite u32_id by (ranges; lia). rewrite Z.gtb_ltb.
  set (next := if nSize <? nMid + batch then nSize else nMid + batch).
  assert (Hn : nMid < next <= nSize) by (subst next; destruct (Z.ltb_spec nSize (nMid + batch)); lia).
  replace (Z.to_nat (nSize - nMid)) with
    ((Z.to_nat next - length v) + Z.to_nat (nSize - next))%nat by lia.
  rewrite read_elements_app.
  destruct (read_elements c (Z.to_nat next - length v) v s) as [[v' s']|] eqn:E; [|done].
  apply read_elements_length in E. apply IH; lia.
Qed.

Lemma Unserialize_vector_spec s :
  0 < cpp_sizeof c <= 5000000 -> is_bytes s ->
  Unserialize_vector c s = let* (n, s) := ReadCompactSize s in read_elements c (Z.to_nat n) [] s.
Proof.
  intros Hsz Hs. unfold Unserialize_vector.
  destruct (ReadCompactSize s) as [[n r]|] eqn:E; [|done].
  apply ReadCompactSize_inv in E as [Hn _]; [|done].
  rewrite u32_id by (unfold MAX_SIZE in *; ranges; lia).
  by rewrite read_vector_loop_spec, Z.sub_0_r by (simpl; lia).
Qed.

Context (ok : A -> Prop).

Lemma read_elements_write `{!CodecOk c ok} w v rest :
  Forall ok w -> read_elements c (length w) v (concat (write c <$> w) ++ rest) = Ok (v ++ w, rest).
Proof.
  intros Hw. revert v. induction Hw as [|a w Ha Hw IH]; intros v; [by rewrite app_nil_r|].
  cbn [length read_elements fmap list_fmap concat]. rewrite <- app_assoc, (read_write a) by done.
  by rewrite IH, <- app_assoc.
Qed.

Lemma read_elements_inv `{!CodecCanonical c ok} n v s v' rest :
  is_bytes s -> read_elements c n v s = Ok (v', rest) ->
  exists w, v' = v ++ w /\ length w = n /\ Forall ok w /\ s = concat (write c <$> w) ++ rest.
Proof.
  revert v s. induction n as [|n IH]; intros v s Hs; cbn [read_elements].
  { intros [= <- <-]. exists []. by rewrite app_nil_r. }
  destruct (read c s) as [[a r]|] eqn:E; [|done]. intros H.
  apply read_canonical in E as [Ha ->]; [|done]. apply Forall_app in Hs as [_ Hr].
  apply IH in H as (w & -> & <- & Hw & ->); [|done]. exists (a :: w).
  rewrite <- app_assoc. cbn [fmap list_fmap concat]. rewrite <- app_assoc. auto.
Qed.

#[export] Instance ser_vector_ok `{!CodecOk c ok} : CodecOk (ser_vector c) (vector_ok ok).
Proof.
  pose proof (sizeof_batch (c := c)) as Hsz. split; cbn [read write ser_vector cpp_sizeof]; [| |lia].
  - intros v rest [Hl Hv]. unfold Unserialize_vector, Serialize_vector.
    rewrite <- app_assoc, read_size_write by lia.
    rewrite u32_id by (unfold MAX_SIZE in *; ranges; lia).
    rewrite read_vector_loop_spec, Z.sub_0_r, Nat2Z.id by (simpl; lia).
    by rewrite read_elements_write.
  - intros v [Hl Hv]. apply is_bytes_app; [apply WriteCompactSize_bytes|].
    apply Forall_concat, Forall_fmap. eapply Forall_impl; [done|]. intros a Ha. by apply write_bytes.
Qed.

#[export] Instance ser_vector_canonical `{!CodecOk c ok, !CodecCanonical c ok} :
  CodecCanonical (ser_vector c) (vector_ok ok).
Proof.
  intros s v rest Hs H. cbn [read ser_vector] in H.
  rewrite Unserialize_vector_spec in H by (done || apply sizeof_batch).
  destruct (ReadCompactSize s) as [[n r]|] eqn:E; [|done].
  apply ReadCompactSize_inv in E as [Hn ->]; [|done]. apply Forall_app in Hs as [_ Hr].
  apply read_elements_inv in H as (w & -> & Hl & Hw & ->); [|done]. cbn [app].
  split; [split; [lia|done]|]. cbn [write ser_vector]. unfold Serialize_vector.
  rewrite <- app_assoc. repeat f_equal. lia.
Qed.
End vectors.

(** *** Pairs *)

#[export] Instance ser_pair_ok {A B} (c1 : codec A) (c2 : codec B) ok1 ok2 :
  CodecOk c1 ok1 -> CodecOk c2 ok2 -> TCEq (cpp_sizeof c1 + cpp_sizeof c2 <=? 5000000) true ->
  CodecOk (ser_pair c1 c2) (fun p => ok1 p.1 /\ ok2 p.2).
Proof.
  intros H1 H2 Hb. apply TCEq_eq, Z.leb_le in Hb.
  pose proof (sizeof_batch (c := c1)). pose proof (sizeof_batch (c := c2)).
  split; cbn [read write ser_pair cpp_sizeof]; [| |lia].
  - intros [a b] rest [Ha Hb']. cbn [fst snd]. by rewrite <- app_assoc, !read_write.
  - intros [a b] [Ha Hb']. apply is_bytes_app; by eapply write_bytes.
Qed.

#[export] Instance ser_pair_canonical {A B} (c1 : codec A) (c2 : codec B) ok1 ok2 :
  CodecCanonical c1 ok1 -> CodecCanonical c2 ok2 ->
  CodecCanonical (ser_pair c1 c2) (fun p => ok1 p.1 /\ ok2 p.2).
Proof.
  intros H1 H2 s [a b] rest Hs H. cbn [read ser_pair] in H.
  destruct (read c1 s) as [[x r]|] eqn:E1; [|done].
  destruct (read c2 r) as [[y t]|] eqn:E2; [|done]. injection H as <- <- <-.
  apply H1 in E1 as [Ha ->]; [|done]. apply Forall_app in Hs as [_ Hr].
  apply H2 in E2 as [Hb ->]; [|done]. cbn [write ser_pair fst snd]. by rewrite <- app_assoc.
Qed.

(** ** The properties *)

(** Compact sizes.  Reading back the encoding of any 64-bit size yields the
    size, or the [size too large] failure above [MAX_SIZE]; every byte string the
    reader accepts is the one encoding of the size it yields (no non-canonical
    encoding is accepted); and the size computer counts exactly the bytes written. *)
Theorem CompactSize_correct :
  (forall n rest, is_u64 n ->
    ReadCompactSize (WriteCompactSize n ++ rest) =
    if n >? MAX_SIZE then Err SizeTooLarge else Ok (n, rest)) /\
  (forall s n rest, is_bytes s -> ReadCompactSize s = Ok (n, rest) ->
    0 <= n <= MAX_SIZE /\ s = WriteCompactSize n ++ rest) /\
  (forall n, Z.of_nat (length (WriteCompactSize n)) = GetSizeOfCompactSize n).
Proof.
  split; [exact ReadCompactSize_write|]. split; [exact ReadCompactSize_inv|exact WriteCompactSize_length].
Qed.

(** Variable-length integers of an integer type with [w >= 7] value bits:
    every value is read back from its encoding, every accepted byte string is the
    one encoding of the value it yields, the writer stays inside its [tmp] array,
    and the size computer counts exactly the bytes written. *)
Theorem VarInt_correct w :
  7 <= w ->
  (forall n rest, 0 <= n < 2 ^ w -> ReadVarInt w (WriteVarInt w n ++ rest) = Ok (n, rest)) /\
  (forall s n rest, is_bytes s -> ReadVarInt w s = Ok (n, rest) ->
    0 <= n < 2 ^ w /\ s = WriteVarInt w n ++ rest) /\
  (forall n, 0 <= n < 2 ^ w -> GetSizeOfVarInt w n = Z.of_nat (length (WriteVarInt w n)) /\
    1 <= GetSizeOfVarInt w n <= (w + 6) / 7).
Proof.
  intros Hw. split; [by intros; apply ReadVarInt_write|]. split; [by intros; apply ReadVarInt_inv|].
  intros n Hn. split; [apply GetSizeOfVarInt_spec|]. rewrite GetSizeOfVarInt_spec. split.
  - rewrite WriteVarInt_step, length_app by done. simpl. lia.
  - unfold WriteVarInt. rewrite length_reverse. pose proof (Z.div_pos (w + 6) 7 ltac:(lia) ltac:(lia)).
    enough (H' : forall f n len, (length (WriteVarInt_loop f n len) <= f)%nat)
      by (specialize (H' (Z.to_nat ((w + 6) / 7)) n 0); lia).
    induction f as [|f IH]; intros n' len; cbn [WriteVarInt_loop length]; [lia|].
    destruct (n' <=? 127); [simpl; lia|]. specialize (IH (Z.shiftr n' 7 - 1) (len + 1)). lia.
Qed.

Lemma VarInt_correct_witness :
  WriteVarInt 32 65535 = [0x82; 0xFE; 0x7F] /\ ReadVarInt 32 [0x82; 0xFE; 0x7F; 7] = Ok (65535, [7]) /\
  GetSizeOfVarInt 32 65535 = 3.
Proof.
  assert (H32 : 7 <= 32) by lia. assert (Hr : 0 <= 65535 < 2 ^ 32) by lia.
  destruct (VarInt_correct 32 H32) as (H1 & _ & H3). split; [vm_compute; reflexivity|].
  split; [exact (H1 65535 [7] Hr)|]. rewrite (proj1 (H3 65535 Hr)). vm_compute. reflexivity.
Defined.
