(* ===== verification/Script.v ===== *)
(** * Scripts: [src/script/script.h], [src/script/script.cpp]

    Opcodes, script numbers, the push builders, the instruction reader [GetOp] and
    the functions that scan a script.  A script is its byte string; an iterator into
    it is the suffix that is left, so that [end() - pc] is the length of the suffix.

    An opcode read from a script is its byte; the enumeration [opcodetype] names the
    bytes that have a meaning, and coerces to them. *)

From S2P Require Import Prelude Endian.

(** ** Limits *)

Definition MAX_SCRIPT_ELEMENT_SIZE : Z := 520.
Definition MAX_OPS_PER_SCRIPT : Z := 201.
Definition MAX_PUBKEYS_PER_MULTISIG : Z := 20.
Definition MAX_SCRIPT_SIZE : Z := 10000.
Definition MAX_STACK_SIZE : Z := 1000.
Definition LOCKTIME_THRESHOLD : Z := 500000000.

(** ** Opcodes *)

Inductive opcodetype :=
  | OP_0 | OP_PUSHDATA1 | OP_PUSHDATA2 | OP_PUSHDATA4 | OP_1NEGATE | OP_RESERVED | OP_1 | OP_2
  | OP_3 | OP_4 | OP_5 | OP_6 | OP_7 | OP_8 | OP_9 | OP_10 | OP_11 | OP_12 | OP_13 | OP_14
  | OP_15 | OP_16 | OP_NOP | OP_VER | OP_IF | OP_NOTIF | OP_VERIF | OP_VERNOTIF | OP_ELSE
  | OP_ENDIF | OP_VERIFY | OP_RETURN | OP_TOALTSTACK | OP_FROMALTSTACK | OP_2DROP | OP_2DUP
  | OP_3DUP | OP_2OVER | OP_2ROT | OP_2SWAP | OP_IFDUP | OP_DEPTH | OP_DROP | OP_DUP | OP_NIP
  | OP_OVER | OP_PICK | OP_ROLL | OP_ROT | OP_SWAP | OP_TUCK | OP_CAT | OP_SUBSTR | OP_LEFT
  | OP_RIGHT | OP_SIZE | OP_INVERT | OP_AND | OP_OR | OP_XOR | OP_EQUAL | OP_EQUALVERIFY
  | OP_RESERVED1 | OP_RESERVED2 | OP_1ADD | OP_1SUB | OP_2MUL | OP_2DIV | OP_NEGATE | OP_ABS
  | OP_NOT | OP_0NOTEQUAL | OP_ADD | OP_SUB | OP_MUL | OP_DIV | OP_MOD | OP_LSHIFT | OP_RSHIFT
  | OP_BOOLAND | OP_BOOLOR | OP_NUMEQUAL | OP_NUMEQUALVERIFY | OP_NUMNOTEQUAL | OP_LESSTHAN
  | OP_GREATERTHAN | OP_LESSTHANOREQUAL | OP_GREATERTHANOREQUAL | OP_MIN | OP_MAX | OP_WITHIN
  | OP_RIPEMD160 | OP_SHA1 | OP_SHA256 | OP_HASH160 | OP_HASH256 | OP_CODESEPARATOR
  | OP_CHECKSIG | OP_CHECKSIGVERIFY | OP_CHECKMULTISIG | OP_CHECKMULTISIGVERIFY | OP_NOP1
  | OP_CHECKLOCKTIMEVERIFY | OP_CHECKSEQUENCEVERIFY | OP_NOP4 | OP_NOP5 | OP_NOP6 | OP_NOP7
  | OP_NOP8 | OP_NOP9 | OP_NOP10 | OP_HNB_ASSET | OP_SMALLINTEGER | OP_PUBKEYS | OP_PUBKEYHASH
  | OP_PUBKEY | OP_INVALIDOPCODE.

Definition opcode_value (op : opcodetype) : Z :=
  match op with
  | OP_0 => 0x00 | OP_PUSHDATA1 => 0x4c | OP_PUSHDATA2 => 0x4d | OP_PUSHDATA4 => 0x4e
  | OP_1NEGATE => 0x4f | OP_RESERVED => 0x50 | OP_1 => 0x51 | OP_2 => 0x52 | OP_3 => 0x53
  | OP_4 => 0x54 | OP_5 => 0x55 | OP_6 => 0x56 | OP_7 => 0x57 | OP_8 => 0x58 | OP_9 => 0x59
  | OP_10 => 0x5a | OP_11 => 0x5b | OP_12 => 0x5c | OP_13 => 0x5d | OP_14 => 0x5e
  | OP_15 => 0x5f | OP_16 => 0x60 | OP_NOP => 0x61 | OP_VER => 0x62 | OP_IF => 0x63
  | OP_NOTIF => 0x64 | OP_VERIF => 0x65 | OP_VERNOTIF => 0x66 | OP_ELSE => 0x67
  | OP_ENDIF => 0x68 | OP_VERIFY => 0x69 | OP_RETURN => 0x6a | OP_TOALTSTACK => 0x6b
  | OP_FROMALTSTACK => 0x6c | OP_2DROP => 0x6d | OP_2DUP => 0x6e | OP_3DUP => 0x6f
  | OP_2OVER => 0x70 | OP_2ROT => 0x71 | OP_2SWAP => 0x72 | OP_IFDUP => 0x73 | OP_DEPTH => 0x74
  | OP_DROP => 0x75 | OP_DUP => 0x76 | OP_NIP => 0x77 | OP_OVER => 0x78 | OP_PICK => 0x79
  | OP_ROLL => 0x7a | OP_ROT => 0x7b | OP_SWAP => 0x7c | OP_TUCK => 0x7d | OP_CAT => 0x7e
  | OP_SUBSTR => 0x7f | OP_LEFT => 0x80 | OP_RIGHT => 0x81 | OP_SIZE => 0x82
  | OP_INVERT => 0x83 | OP_AND => 0x84 | OP_OR => 0x85 | OP_XOR => 0x86 | OP_EQUAL => 0x87
  | OP_EQUALVERIFY => 0x88 | OP_RESERVED1 => 0x89 | OP_RESERVED2 => 0x8a | OP_1ADD => 0x8b
  | OP_1SUB => 0x8c | OP_2MUL => 0x8d | OP_2DIV => 0x8e | OP_NEGATE => 0x8f | OP_ABS => 0x90
  | OP_NOT => 0x91 | OP_0NOTEQUAL => 0x92 | OP_ADD => 0x93 | OP_SUB => 0x94 | OP_MUL => 0x95
  | OP_DIV => 0x96 | OP_MOD => 0x97 | OP_LSHIFT => 0x98 | OP_RSHIFT => 0x99
  | OP_BOOLAND => 0x9a | OP_BOOLOR => 0x9b | OP_NUMEQUAL => 0x9c | OP_NUMEQUALVERIFY => 0x9d
  | OP_NUMNOTEQUAL => 0x9e | OP_LESSTHAN => 0x9f | OP_GREATERTHAN => 0xa0
  | OP_LESSTHANOREQUAL => 0xa1 | OP_GREATERTHANOREQUAL => 0xa2 | OP_MIN => 0xa3
  | OP_MAX => 0xa4 | OP_WITHIN => 0xa5 | OP_RIPEMD160 => 0xa6 | OP_SHA1 => 0xa7
  | OP_SHA256 => 0xa8 | OP_HASH160 => 0xa9 | OP_HASH256 => 0xaa | OP_CODESEPARATOR => 0xab
  | OP_CHECKSIG => 0xac | OP_CHECKSIGVERIFY => 0xad | OP_CHECKMULTISIG => 0xae
  | OP_CHECKMULTISIGVERIFY => 0xaf | OP_NOP1 => 0xb0 | OP_CHECKLOCKTIMEVERIFY => 0xb1
  | OP_CHECKSEQUENCEVERIFY => 0xb2 | OP_NOP4 => 0xb3 | OP_NOP5 => 0xb4 | OP_NOP6 => 0xb5
  | OP_NOP7 => 0xb6 | OP_NOP8 => 0xb7 | OP_NOP9 => 0xb8 | OP_NOP10 => 0xb9
  | OP_HNB_ASSET => 0xc0 | OP_SMALLINTEGER => 0xfa | OP_PUBKEYS => 0xfb | OP_PUBKEYHASH => 0xfd
  | OP_PUBKEY => 0xfe | OP_INVALIDOPCODE => 0xff
  end.

Definition all_opcodes : list opcodetype :=
  [OP_0; OP_PUSHDATA1; OP_PUSHDATA2; OP_PUSHDATA4; OP_1NEGATE; OP_RESERVED; OP_1; OP_2; OP_3
  ; OP_4; OP_5; OP_6; OP_7; OP_8; OP_9; OP_10; OP_11; OP_12; OP_13; OP_14; OP_15; OP_16; OP_NOP
  ; OP_VER; OP_IF; OP_NOTIF; OP_VERIF; OP_VERNOTIF; OP_ELSE; OP_ENDIF; OP_VERIFY; OP_RETURN
  ; OP_TOALTSTACK; OP_FROMALTSTACK; OP_2DROP; OP_2DUP; OP_3DUP; OP_2OVER; OP_2ROT; OP_2SWAP
  ; OP_IFDUP; OP_DEPTH; OP_DROP; OP_DUP; OP_NIP; OP_OVER; OP_PICK; OP_ROLL; OP_ROT; OP_SWAP
  ; OP_TUCK; OP_CAT; OP_SUBSTR; OP_LEFT; OP_RIGHT; OP_SIZE; OP_INVERT; OP_AND; OP_OR; OP_XOR
  ; OP_EQUAL; OP_EQUALVERIFY; OP_RESERVED1; OP_RESERVED2; OP_1ADD; OP_1SUB; OP_2MUL; OP_2DIV
  ; OP_NEGATE; OP_ABS; OP_NOT; OP_0NOTEQUAL; OP_ADD; OP_SUB; OP_MUL; OP_DIV; OP_MOD; OP_LSHIFT
  ; OP_RSHIFT; OP_BOOLAND; OP_BOOLOR; OP_NUMEQUAL; OP_NUMEQUALVERIFY; OP_NUMNOTEQUAL
  ; OP_LESSTHAN; OP_GREATERTHAN; OP_LESSTHANOREQUAL; OP_GREATERTHANOREQUAL; OP_MIN; OP_MAX
  ; OP_WITHIN; OP_RIPEMD160; OP_SHA1; OP_SHA256; OP_HASH160; OP_HASH256; OP_CODESEPARATOR
  ; OP_CHECKSIG; OP_CHECKSIGVERIFY; OP_CHECKMULTISIG; OP_CHECKMULTISIGVERIFY; OP_NOP1
  ; OP_CHECKLOCKTIMEVERIFY; OP_CHECKSEQUENCEVERIFY; OP_NOP4; OP_NOP5; OP_NOP6; OP_NOP7; OP_NOP8
  ; OP_NOP9; OP_NOP10; OP_HNB_ASSET; OP_SMALLINTEGER; OP_PUBKEYS; OP_PUBKEYHASH; OP_PUBKEY
  ; OP_INVALIDOPCODE].

Coercion opcode_value : opcodetype >-> Z.

(** The name of an opcode byte, as the [switch] statements see it. *)
Definition opcode_of (b : Z) : option opcodetype :=
  List.find (fun op => opcode_value op =? b) all_opcodes.

Lemma opcode_of_value (op : opcodetype) : opcode_of op = Some op.
Proof. by destruct op. Qed.

#[global] Instance opcodetype_eq_dec : EqDecision opcodetype.
Proof.
  refine (fun x y => cast_if (decide (opcode_value x = opcode_value y)));
    [|congruence].
  pose proof (opcode_of_value x). pose proof (opcode_of_value y). congruence.
Defined.

Definition MAX_OPCODE : Z := OP_NOP10.

(** ** Script numbers *)

(** [while (absvalue) { result.push_back(absvalue & 0xff); absvalue >>= 8; }] on a
    64-bit value: at most eight turns. *)
Fixpoint serialize_loop (fuel : nat) (absvalue : Z) : bytes :=
  match fuel with
  | O => []
  | S fuel =>
    if absvalue =? 0 then [] else Z.land absvalue 0xff :: serialize_loop fuel (Z.shiftr absvalue 8)
  end.

(** [CScriptNum::serialize]. *)
Definition scriptnum_serialize (value : Z) : bytes :=
  if value =? 0 then [] else
  let neg := value <? 0 in
  let absvalue := u64 (if neg then - value else value) in
  let result := serialize_loop 8 absvalue in
  match last result with
  | None => result
  | Some back =>
    if negb (Z.land back 0x80 =? 0) then result ++ [if neg then 0x80 else 0]
    else if neg then take (length result - 1) result ++ [Z.lor back 0x80]
    else result
  end.

(** [for (size_t i = 0; i != vch.size(); ++i) result |= vch[i] << 8*i;]; callers
    decode at most five bytes, so that nothing is shifted out of 64 bits. *)
Fixpoint set_vch_loop (vch : bytes) (i result : Z) : Z :=
  match vch with
  | [] => result
  | b :: vch => set_vch_loop vch (i + 1) (Z.lor result (Z.shiftl b (8 * i)))
  end.
Definition set_vch (vch : bytes) : Z :=
  match last vch with
  | None => 0
  | Some back =>
    let result := set_vch_loop vch 0 0 in
    if negb (Z.land back 0x80 =? 0)
    then - (Z.land result (Z.lnot (Z.shiftl 0x80 (8 * (Z.of_nat (length vch) - 1)))))
    else result
  end.

Definition nDefaultMaxNumSize : Z := 4.

(** The test of the constructor for the shortest encoding. *)
Definition scriptnum_minimal (vch : bytes) : bool :=
  match last vch with
  | None => true
  | Some back =>
    if Z.land back 0x7f =? 0 then
      negb ((Z.of_nat (length vch) <=? 1) ||
            (Z.land (vch !!! (length vch - 2)%nat) 0x80 =? 0))
    else true
  end.

(** The decoding constructor of [CScriptNum]; [None] is a [scriptnum_error]. *)
Definition CScriptNum (vch : bytes) (fRequireMinimal : bool) (nMaxNumSize : Z) : option Z :=
  if Z.of_nat (length vch) >? nMaxNumSize then None
  else if fRequireMinimal && negb (scriptnum_minimal vch) then None
  else Some (set_vch vch).

Definition getint (m_value : Z) : Z :=
  if m_value >? 2 ^ 31 - 1 then 2 ^ 31 - 1
  else if m_value <? - 2 ^ 31 then - 2 ^ 31
  else m_value.

(** ** Building scripts *)

(** [CScript::operator<<(const std::vector<unsigned char>& b)]: what is appended. *)
Definition push_data (b : bytes) : bytes :=
  let size := Z.of_nat (length b) in
  (if size <? OP_PUSHDATA1 then [size]
   else if size <=? 0xff then [opcode_value OP_PUSHDATA1; size]
   else if size <=? 0xffff then opcode_value OP_PUSHDATA2 :: WriteLE16 size
   else opcode_value OP_PUSHDATA4 :: WriteLE32 size) ++ b.

Definition push_int64 (n : Z) : bytes :=
  if (n =? -1) || ((n >=? 1) && (n <=? 16)) then [n + (OP_1 - 1)]
  else if n =? 0 then [opcode_value OP_0]
  else push_data (scriptnum_serialize n).

(** [DecodeOP_N] and [EncodeOP_N]; [None] is a failed assertion. *)
Definition DecodeOP_N (opcode : Z) : option Z :=
  if opcode =? OP_0 then Some 0
  else if (opcode >=? OP_1) && (opcode <=? OP_16) then Some (opcode - (OP_1 - 1))
  else None.
Definition EncodeOP_N (n : Z) : option Z :=
  if (n >=? 0) && (n <=? 16) then Some (if n =? 0 then OP_0 : Z else OP_1 + n - 1) else None.

(** ** Reading instructions *)

Record getop_result := mkGetOp {
  go_ok : bool;          (** the return value *)
  opcodeRet : Z;
  vchRet : bytes;
  go_pc : bytes;         (** the iterator after the call, also when it fails *)
}.

(** The size of the immediate operand and the iterator behind it, or the iterator
    where the size runs out of the script. *)
Definition GetOp_size (opcode : Z) (pc : bytes) : result bytes (Z * bytes) :=
  if opcode <? OP_PUSHDATA1 then Ok (opcode, pc)
  else if opcode =? OP_PUSHDATA1 then
    match pc with [] => Err pc | n :: pc' => Ok (n, pc') end
  else if opcode =? OP_PUSHDATA2 then
    if Z.of_nat (length pc) <? 2 then Err pc else Ok (ReadLE16 pc, drop 2 pc)
  else
    if Z.of_nat (length pc) <? 4 then Err pc else Ok (ReadLE32 pc, drop 4 pc).

Definition GetOp2 (pc : bytes) : getop_result :=
  match pc with
  | [] => mkGetOp false OP_INVALIDOPCODE [] []
  | opcode :: pc =>
    if opcode <=? OP_PUSHDATA4 then
      match GetOp_size opcode pc with
      | Err pc => mkGetOp false OP_INVALIDOPCODE [] pc
      | Ok (nSize, pc) =>
        if Z.of_nat (length pc) <? nSize then mkGetOp false OP_INVALIDOPCODE [] pc
        else mkGetOp true opcode (take (Z.to_nat nSize) pc) (drop (Z.to_nat nSize) pc)
      end
    else if opcode =? OP_HNB_ASSET then mkGetOp true opcode pc []
    else mkGetOp true opcode [] pc
  end.

(** [GetOp]: the same, whether or not the operand is asked for. *)
Definition GetOp : bytes -> getop_result := GetOp2.

(** ** Scanning scripts

    Every turn of a scanning loop consumes at least the opcode byte: the length of
    the script bounds the number of turns. *)

(** [while (size_t(end() - pc) >= b.size() && std::equal(b.begin(), b.end(), pc))]
    [{ pc = pc + b.size(); ++nFound; }] *)
Fixpoint skip_matches (fuel : nat) (b pc : bytes) (nFound : Z) : bytes * Z :=
  match fuel with
  | O => (pc, nFound)
  | S fuel =>
    if (length b <=? length pc)%nat && bool_decide (take (length b) pc = b)
    then skip_matches fuel b (drop (length b) pc) (nFound + 1)
    else (pc, nFound)
  end.

(** The [do ... while (GetOp(pc, opcode))] loop: returns [result], [pc2] and [nFound]. *)
Fixpoint FindAndDelete_loop (fuel : nat) (b pc pc2 res : bytes) (nFound : Z) : bytes * bytes * Z :=
  let res := res ++ take (length pc2 - length pc) pc2 in
  let '(pc, nFound) := skip_matches (length pc) b pc nFound in
  let pc2 := pc in
  match fuel with
  | O => (res, pc2, nFound)
  | S fuel =>
    let r := GetOp pc in
    if go_ok r then FindAndDelete_loop fuel b (go_pc r) pc2 res nFound else (res, pc2, nFound)
  end.

(** The script after the call and the number of deletions. *)
Definition FindAndDelete (script b : bytes) : bytes * Z :=
  match b with
  | [] => (script, 0)
  | _ =>
    let '(res, pc2, nFound) := FindAndDelete_loop (length script) b script script [] 0 in
    if nFound >? 0 then (res ++ pc2, nFound) else (script, nFound)
  end.

Fixpoint Find_loop (fuel : nat) (op : Z) (pc : bytes) (nFound : Z) : Z :=
  match fuel with
  | O => nFound
  | S fuel =>
    match pc with
    | [] => nFound
    | _ =>
      let r := GetOp pc in
      if go_ok r then Find_loop fuel op (go_pc r) (if opcodeRet r =? op then nFound + 1 else nFound)
      else nFound
    end
  end.
Definition Find (script : bytes) (op : Z) : Z := Find_loop (length script) op script 0.

(** [GetSigOpCount(bool fAccurate)]. *)
Definition sigops_of (fAccurate : bool) (opcode lastOpcode : Z) : Z :=
  if (opcode =? OP_CHECKSIG) || (opcode =? OP_CHECKSIGVERIFY) then 1
  else if (opcode =? OP_CHECKMULTISIG) || (opcode =? OP_CHECKMULTISIGVERIFY) then
    if fAccurate && (lastOpcode >=? OP_1) && (lastOpcode <=? OP_16)
    then default 0 (DecodeOP_N lastOpcode)
    else MAX_PUBKEYS_PER_MULTISIG
  else 0.

Fixpoint GetSigOpCount_loop (fuel : nat) (fAccurate : bool) (pc : bytes) (lastOpcode n : Z) : Z :=
  match fuel with
  | O => n
  | S fuel =>
    match pc with
    | [] => n
    | _ =>
      let r := GetOp pc in
      if go_ok r then
        GetSigOpCount_loop fuel fAccurate (go_pc r) (opcodeRet r)
          (u32 (n + sigops_of fAccurate (opcodeRet r) lastOpcode))
      else n
    end
  end.
Definition GetSigOpCount (script : bytes) (fAccurate : bool) : Z :=
  GetSigOpCount_loop (length script) fAccurate script OP_INVALIDOPCODE 0.

(** ** Recognising scripts *)

(** [(this)[i]], for an index the size test before it allows. *)
Definition at_ (script : bytes) (i : nat) : Z := nth i script 0.

Definition IsPayToPublicKeyHash (s : bytes) : bool :=
  (length s =? 25)%nat && (at_ s 0 =? OP_DUP) && (at_ s 1 =? OP_HASH160) && (at_ s 2 =? 0x14) &&
  (at_ s 23 =? OP_EQUALVERIFY) && (at_ s 24 =? OP_CHECKSIG).

Definition IsPayToScriptHash (s : bytes) : bool :=
  (length s =? 23)%nat && (at_ s 0 =? OP_HASH160) && (at_ s 1 =? 0x14) && (at_ s 22 =? OP_EQUAL).

Definition IsPayToWitnessScriptHash (s : bytes) : bool :=
  (length s =? 34)%nat && (at_ s 0 =? OP_0) && (at_ s 1 =? 0x20).

Definition IsPayToPublicKey (s : bytes) : bool :=
  if (length s =? 35)%nat then ((at_ s 1 =? 0x02) || (at_ s 1 =? 0x03)) && (at_ s 34 =? OP_CHECKSIG)
  else if (length s =? 67)%nat then (at_ s 1 =? 0x04) && (at_ s 66 =? OP_CHECKSIG)
  else false.

(** Version and program of a witness program. *)
Definition IsWitnessProgram (s : bytes) : option (Z * bytes) :=
  if (length s <? 4)%nat || (42 <? length s)%nat then None
  else if negb (at_ s 0 =? OP_0) && ((at_ s 0 <? OP_1) || (at_ s 0 >? OP_16)) then None
  else if at_ s 1 + 2 =? Z.of_nat (length s)
  then version ← DecodeOP_N (at_ s 0); Some (version, drop 2 s)
  else None.

(** [IsPushOnly]. *)
Fixpoint IsPushOnly_loop (fuel : nat) (pc : bytes) : bool :=
  match fuel with
  | O => match pc with [] => true | _ => false end
  | S fuel =>
    match pc with
    | [] => true
    | _ =>
      let r := GetOp pc in
      if negb (go_ok r) then false else if opcodeRet r >? OP_16 then false
      else IsPushOnly_loop fuel (go_pc r)
    end
  end.
Definition IsPushOnly (script : bytes) : bool := IsPushOnly_loop (length script) script.

Fixpoint HasValidOps_loop (fuel : nat) (it : bytes) : bool :=
  match fuel with
  | O => match it with [] => true | _ => false end
  | S fuel =>
    match it with
    | [] => true
    | _ =>
      let r := GetOp it in
      if negb (go_ok r) || (opcodeRet r >? MAX_OPCODE) ||
         (Z.of_nat (length (vchRet r)) >? MAX_SCRIPT_ELEMENT_SIZE) then false
      else HasValidOps_loop fuel (go_pc r)
    end
  end.
Definition HasValidOps (script : bytes) : bool := HasValidOps_loop (length script) script.

(** The last item a push-only script pushes: the operand of its last instruction;
    [None] when an instruction is not a push. *)
Fixpoint last_push_loop (fuel : nat) (pc vData : bytes) : option bytes :=
  match fuel with
  | O => Some vData
  | S fuel =>
    match pc with
    | [] => Some vData
    | _ =>
      let r := GetOp pc in
      if negb (go_ok r) then None else if opcodeRet r >? OP_16 then None
      else last_push_loop fuel (go_pc r) (vchRet r)
    end
  end.

(** [GetSigOpCount(const CScript& scriptSig)]. *)
Definition GetSigOpCount_P2SH (script scriptSig : bytes) : Z :=
  if negb (IsPayToScriptHash script) then GetSigOpCount script true
  else match last_push_loop (length scriptSig) scriptSig [] with
       | None => 0
       | Some vData => GetSigOpCount vData true
       end.

(** ** Asset scripts *)

Definition HNB_R : Z := 114.
Definition HNB_V : Z := 118.
Definition HNB_N : Z := 110.
Definition HNB_Q : Z := 113.
Definition HNB_T : Z := 116.
Definition HNB_O : Z := 111.

Inductive txnouttype :=
| TX_NONSTANDARD | TX_PUBKEY | TX_PUBKEYHASH | TX_SCRIPTHASH | TX_MULTISIG | TX_NULL_DATA
| TX_WITNESS_V0_SCRIPTHASH | TX_WITNESS_V0_KEYHASH | TX_NEW_ASSET | TX_REISSUE_ASSET
| TX_TRANSFER_ASSET | TX_RESTRICTED_ASSET_DATA.

#[global] Instance txnouttype_eq_dec : EqDecision txnouttype.
Proof. solve_decision. Defined.

(** The position of the letter behind [rvn], when the marker is there. *)
Definition asset_marker (s : bytes) : option nat :=
  if at_ s 27 =? HNB_R then
    if (at_ s 28 =? HNB_V) && (at_ s 29 =? HNB_N) then Some 30%nat else None
  else if (at_ s 28 =? HNB_R) && (at_ s 29 =? HNB_V) && (at_ s 30 =? HNB_N) then Some 31%nat
  else None.

(** Type, owner flag and index of the asset data; the flag is what the callers
    initialise it to ([false]) where the code does not set it. *)
Definition IsAssetScript (s : bytes) : option (txnouttype * bool * nat) :=
  if (31 <? length s)%nat then
    if at_ s 25 =? OP_HNB_ASSET then
      match asset_marker s with
      | None => None
      | Some index =>
        let nStartingIndex := S index in
        if at_ s index =? HNB_T then Some (TX_TRANSFER_ASSET, false, nStartingIndex)
        else if (at_ s index =? HNB_Q) && (39 <? length s)%nat then Some (TX_NEW_ASSET, false, nStartingIndex)
        else if at_ s index =? HNB_O then Some (TX_NEW_ASSET, true, nStartingIndex)
        else if at_ s index =? HNB_R then Some (TX_REISSUE_ASSET, false, nStartingIndex)
        else None
      end
    else None
  else None.

Definition IsNewAsset (s : bytes) : bool :=
  match IsAssetScript s with
  | Some (nType, fIsOwner, _) => negb fIsOwner && bool_decide (nType = TX_NEW_ASSET)
  | None => false
  end.
Definition IsOwnerAsset (s : bytes) : bool :=
  match IsAssetScript s with
  | Some (nType, fIsOwner, _) => fIsOwner && bool_decide (nType = TX_NEW_ASSET)
  | None => false
  end.
Definition IsReissueAsset (s : bytes) : bool :=
  match IsAssetScript s with
  | Some (nType, _, _) => bool_decide (nType = TX_REISSUE_ASSET)
  | None => false
  end.
Definition IsTransferAsset (s : bytes) : bool :=
  match IsAssetScript s with
  | Some (nType, _, _) => bool_decide (nType = TX_TRANSFER_ASSET)
  | None => false
  end.

Definition IsNullAssetTxDataScript (s : bytes) : bool :=
  (23 <? length s)%nat && (at_ s 0 =? OP_HNB_ASSET) && (at_ s 1 =? 0x14).
Definition IsNullGlobalRestrictionAssetTxDataScript (s : bytes) : bool :=
  (6 <? length s)%nat && (at_ s 0 =? OP_HNB_ASSET) && (at_ s 1 =? OP_RESERVED) && (at_ s 2 =? OP_RESERVED).
Definition IsNullAssetVerifierTxDataScript (s : bytes) : bool :=
  (3 <? length s)%nat && (at_ s 0 =? OP_HNB_ASSET) && (at_ s 1 =? OP_RESERVED) &&
  negb (at_ s 2 =? OP_RESERVED).
Definition IsNullAsset (s : bytes) : bool :=
  IsNullAssetTxDataScript s || IsNullGlobalRestrictionAssetTxDataScript s ||
  IsNullAssetVerifierTxDataScript s.

(** ** Instructions: lemmas *)

Lemma GetOp_size_suffix opcode pc n pc' :
  GetOp_size opcode pc = Ok (n, pc') -> exists a, pc = a ++ pc'.
Proof.
  unfold GetOp_size. repeat split_if; try done.
  - intros [= <- <-]. by exists [].
  - destruct pc as [|x pc]; [done|]. intros [= <- <-]. by exists [x].
  - intros [= <- <-]. exists (take 2 pc). by rewrite take_drop.
  - intros [= <- <-]. exists (take 4 pc). by rewrite take_drop.
Qed.

(** An instruction is a prefix of the script, and the operand a part of it. *)
Lemma GetOp_split pc :
  go_ok (GetOp pc) = true ->
  exists a, pc = opcodeRet (GetOp pc) :: a ++ go_pc (GetOp pc) /\
    (length (vchRet (GetOp pc)) <= length pc)%nat.
Proof.
  unfold GetOp, GetOp2. destruct pc as [|opcode pc]; [done|].
  destruct (opcode <=? OP_PUSHDATA4).
  - destruct (GetOp_size opcode pc) as [[n pc']|] eqn:E; [|done].
    destruct (Z.ltb_spec (Z.of_nat (length pc')) n); [done|]. intros _. cbn [opcodeRet go_pc vchRet].
    apply GetOp_size_suffix in E as [a ->]. exists (a ++ take (Z.to_nat n) pc').
    rewrite <- app_assoc, take_drop. split; [done|].
    simpl. rewrite length_take, length_app. lia.
  - destruct (opcode =? OP_HNB_ASSET); intros _; cbn [opcodeRet go_pc vchRet].
    + exists pc. rewrite app_nil_r. split; [done|]. simpl. lia.
    + exists []. split; [done|]. simpl. lia.
Qed.

Lemma GetOp_progress pc : go_ok (GetOp pc) = true -> (length (go_pc (GetOp pc)) < length pc)%nat.
Proof.
  intros (a & H & _)%GetOp_split. apply (f_equal length) in H.
  rewrite H. simpl. rewrite length_app. lia.
Qed.

Lemma GetOp_bytes pc :
  is_bytes pc -> is_bytes (vchRet (GetOp pc)) /\ is_bytes (go_pc (GetOp pc)).
Proof.
  intros Hpc. unfold GetOp, GetOp2. destruct Hpc as [|opcode pc Ho Hpc]; [by split|].
  destruct (opcode <=? OP_PUSHDATA4).
  - destruct (GetOp_size opcode pc) as [[n pc']|pc'] eqn:E.
    + apply GetOp_size_suffix in E as [a ->]. apply Forall_app in Hpc as [_ Hpc].
      split_if; cbn [vchRet go_pc]; auto with hnb.
    + cbn [vchRet go_pc]. split; [constructor|]. revert E. unfold GetOp_size.
      repeat split_if; try done; [destruct pc; [|done]|..]; by intros [= <-].
  - split_if; cbn [vchRet go_pc]; auto.
Qed.

(** Reading an opcode that has no operand. *)
Lemma GetOp_opcode op rest :
  op > OP_PUSHDATA4 -> op <> OP_HNB_ASSET -> GetOp (op :: rest) = mkGetOp true op [] rest.
Proof.
  intros H1 H2. unfold GetOp, GetOp2. destruct (Z.leb_spec op OP_PUSHDATA4); [lia|].
  by destruct (Z.eqb_spec op OP_HNB_ASSET).
Qed.

(** The opcode [push_data] uses. *)
Definition push_opcode (b : bytes) : Z :=
  let size := Z.of_nat (length b) in
  if size <? OP_PUSHDATA1 then size else if size <=? 0xff then OP_PUSHDATA1
  else if size <=? 0xffff then OP_PUSHDATA2 else OP_PUSHDATA4.

Lemma push_opcode_range b : 0 <= push_opcode b <= OP_PUSHDATA4.
Proof. unfold push_opcode. cbn [opcode_value]. repeat split_if; cbn [opcode_value] in *; lia. Qed.

Lemma ReadLE16_Write x rest : 0 <= x < 2 ^ 16 -> ReadLE16 (WriteLE16 x ++ rest) = x.
Proof.
  intros. unfold ReadLE16, WriteLE16.
  rewrite (take_app_length' (le_split 2 x)) by (symmetry; apply le_split_length).
  rewrite le_combine_split. by apply Z.mod_small.
Qed.

(** Reading back what the builder wrote. *)
Lemma GetOp_push_data b rest :
  Z.of_nat (length b) < 2 ^ 32 ->
  GetOp (push_data b ++ rest) = mkGetOp true (push_opcode b) b rest.
Proof.
  intros Hb. unfold push_data, push_opcode. set (size := Z.of_nat (length b)) in *.
  assert (Hend : forall o, mkGetOp true o (take (Z.to_nat size) (b ++ rest)) (drop (Z.to_nat size) (b ++ rest)) =
                 mkGetOp true o b rest).
  { intros o. subst size. by rewrite Nat2Z.id, take_app_length, drop_app_length. }
  assert (Hlen : (Z.of_nat (length (b ++ rest)) <? size) = false)
    by (apply Z.ltb_ge; subst size; rewrite length_app; lia).
  assert (0 <= size) by lia. change (opcode_value OP_PUSHDATA1) with 76.
  change (opcode_value OP_PUSHDATA2) with 77. change (opcode_value OP_PUSHDATA4) with 78.
  destruct (Z.ltb_spec size 76); [|destruct (Z.leb_spec size 255); [|destruct (Z.leb_spec size 65535)]].
  - rewrite <- app_assoc. cbn [app]. unfold GetOp, GetOp2, GetOp_size.
    change (opcode_value OP_PUSHDATA1) with 76. change (opcode_value OP_PUSHDATA4) with 78.
    destruct (Z.leb_spec size 78); [|lia]. destruct (Z.ltb_spec size 76); [|lia]. by rewrite Hlen, Hend.
  - rewrite <- app_assoc. cbn [app]. unfold GetOp, GetOp2, GetOp_size. simpl (_ <=? _). simpl (_ <? 76).
    cbn [opcode_value Z.eqb Z.ltb Z.leb Z.compare Pos.compare Pos.compare_cont Pos.eqb].
    by rewrite Hlen, Hend.
  - rewrite <- app_assoc. cbn [app]. unfold GetOp, GetOp2, GetOp_size.
    cbn [opcode_value Z.eqb Z.ltb Z.leb Z.compare Pos.compare Pos.compare_cont Pos.eqb].
    rewrite length_app. unfold WriteLE16. rewrite le_split_length.
    destruct (Z.ltb_spec (Z.of_nat (2 + length (b ++ rest))) 2); [lia|].
    change (le_split 2 size) with (WriteLE16 size). rewrite ReadLE16_Write by lia.
    rewrite drop_app_length' by (unfold WriteLE16; by rewrite le_split_length). by rewrite Hlen, Hend.
  - rewrite <- app_assoc. cbn [app]. unfold GetOp, GetOp2, GetOp_size.
    cbn [opcode_value Z.eqb Z.ltb Z.leb Z.compare Pos.compare Pos.compare_cont Pos.eqb].
    rewrite length_app. unfold WriteLE32. rewrite le_split_length.
    destruct (Z.ltb_spec (Z.of_nat (4 + length (b ++ rest))) 4); [lia|].
    change (le_split 4 size) with (WriteLE32 size). rewrite ReadLE32_Write by (ranges; lia).
    rewrite drop_app_length' by (unfold WriteLE32; by rewrite le_split_length). by rewrite Hlen, Hend.
Qed.

Lemma push_data_bytes b : is_bytes b -> is_bytes (push_data b).
Proof.
  intros Hb. unfold push_data. apply is_bytes_app; [|done]. repeat split_if.
  - repeat constructor; cbn [opcode_value] in *; lia.
  - repeat constructor; cbn; lia.
  - constructor; [split; done|apply le_split_bytes].
  - constructor; [split; done|apply le_split_bytes].
Qed.

Lemma push_data_nonempty b : push_data b <> [].
Proof. unfold push_data. by repeat split_if. Qed.

(** ** Script numbers: lemmas *)

Lemma is_bytes_snoc_inv a x : is_bytes (a ++ [x]) -> is_bytes a /\ is_u8 x.
Proof. intros [Ha Hx]%Forall_app. by inversion Hx. Qed.

Lemma land_0x80 b : is_u8 b -> (Z.land b 0x80 =? 0) = (b <? 128).
Proof.
  intros Hb. ranges. change 0x80 with (Z.shiftl 1 7) at 1. rewrite land_bit_zero by lia.
  apply eq_true_iff_eq. rewrite Z.ltb_lt, negb_true_iff, Z.testbit_false by lia. change (2 ^ 7) with 128.
  pose proof (Z.div_mod b 128 ltac:(lia)). pose proof (Z.mod_pos_bound b 128 ltac:(lia)).
  pose proof (Z.div_lt_upper_bound b 128 2 ltac:(lia) ltac:(lia)).
  pose proof (Z.div_pos b 128 ltac:(lia) ltac:(lia)).
  assert (b / 128 = 0 \/ b / 128 = 1) as [E|E] by lia; rewrite E in *;
    [change (0 mod 2) with 0|change (1 mod 2) with 1]; lia.
Qed.

Lemma land_0x7f b : Z.land b 0x7f = b mod 128.
Proof. change 0x7f with (2 ^ 7 - 1). by rewrite land_ones_mod. Qed.

Lemma lor_0x80 b : 0 <= b < 128 -> Z.lor b 0x80 = b + 128.
Proof. intros. change 0x80 with (1 * 2 ^ 7). by rewrite lor_add_disjoint by lia. Qed.

Lemma set_vch_loop_spec vch i res :
  is_bytes vch -> 0 <= i -> 0 <= res < 2 ^ (8 * i) ->
  set_vch_loop vch i res = res + 2 ^ (8 * i) * le_combine vch.
Proof.
  intros Hv. revert i res. induction Hv as [|b vch Hb Hv IH]; intros i res Hi Hr; cbn [set_vch_loop le_combine]; [lia|].
  ranges. rewrite Z.shiftl_mul_pow2, lor_add_disjoint by lia.
  assert (E : 2 ^ (8 * (i + 1)) = 2 ^ (8 * i) * 256).
  { replace (8 * (i + 1)) with (8 * i + 8) by lia. by rewrite Z.pow_add_r by lia. }
  rewrite IH by nia. nia.
Qed.

Lemma le_combine_snoc a b : le_combine (a ++ [b]) = le_combine a + 2 ^ (8 * Z.of_nat (length a)) * b.
Proof. rewrite le_combine_app. simpl. lia. Qed.

Lemma set_vch_snoc a b :
  is_bytes a -> is_u8 b ->
  set_vch (a ++ [b]) =
  if b <? 128 then le_combine (a ++ [b]) else - (le_combine (a ++ [b - 128])).
Proof.
  intros Ha Hb. unfold set_vch. rewrite last_snoc, land_0x80 by done.
  rewrite set_vch_loop_spec by (by apply is_bytes_snoc || lia). rewrite Z.mul_1_l, Z.add_0_l.
  destruct (Z.ltb_spec b 128); cbn [negb]; [done|]. f_equal.
  rewrite !le_combine_snoc, length_app. cbn [length].
  replace (8 * (Z.of_nat (length a + 1) - 1)) with (8 * Z.of_nat (length a)) by lia.
  pose proof (le_combine_range a Ha) as Hr. ranges. set (k := 8 * Z.of_nat (length a)) in *.
  assert (0 <= k) by lia.
  replace (Z.shiftl 128 k) with (2 ^ (k + 7))
    by (rewrite Z.shiftl_mul_pow2, Z.pow_add_r by lia; change (2 ^ 7) with 128; lia).
  rewrite <- Z.ldiff_land. apply Z.bits_inj'. intros i Hi.
  rewrite Z.ldiff_spec, Z.pow2_bits_eqb by lia.
  replace (le_combine a + 2 ^ k * b) with (le_combine a + 2 ^ k * (b - 128) + 1 * 2 ^ (k + 7))
    by (rewrite Z.pow_add_r by lia; change (2 ^ 7) with 128; lia).
  assert (Hlow : 0 <= le_combine a + 2 ^ k * (b - 128) < 2 ^ (k + 7))
    by (rewrite Z.pow_add_r by lia; change (2 ^ 7) with 128; nia).
  rewrite <- lor_add_disjoint by lia. rewrite Z.lor_spec, Z.mul_1_l, Z.pow2_bits_eqb by lia.
  destruct (Z.eqb_spec (k + 7) i) as [<-|]; [|by rewrite orb_false_r, andb_true_r].
  rewrite andb_false_r. symmetry.
  rewrite <- (Z.mod_small _ (2 ^ (k + 7)) Hlow). apply Z.mod_pow2_bits_high. lia.
Qed.

(** The bytes of a positive value: its value back, with a top byte that is not zero. *)
Lemma serialize_loop_spec fuel a :
  0 < a < 2 ^ (8 * Z.of_nat fuel) ->
  exists l b, serialize_loop fuel a = l ++ [b] /\ is_bytes l /\ is_u8 b /\ b <> 0 /\
    le_combine (l ++ [b]) = a /\ (length l < fuel)%nat.
Proof.
  revert a. induction fuel as [|fuel IH]; intros a Ha; [simpl in Ha; lia|].
  cbn [serialize_loop]. destruct (Z.eqb_spec a 0); [lia|].
  change 0xff with (2 ^ 8 - 1). rewrite land_ones_mod, Z.shiftr_div_pow2 by lia. change (2 ^ 8) with 256.
  rewrite pow256_S in Ha. pose proof (Z.mod_pos_bound a 256 ltac:(lia)).
  pose proof (Z.div_mod a 256 ltac:(lia)).
  destruct (decide (a / 256 = 0)) as [E|E].
  - rewrite E. exists [], (a mod 256). rewrite E in *. cbn [app length le_combine].
    assert (serialize_loop fuel 0 = []) as -> by (by destruct fuel).
    splits; try done; try lia; try constructor; ranges; lia.
  - pose proof (Z.div_pos a 256 ltac:(lia) ltac:(lia)).
    destruct (IH (a / 256)) as (l & b & -> & Hl & Hb & Hn & Hc & Hlen).
    { split; [lia|]. apply Z.div_lt_upper_bound; lia. }
    exists (a mod 256 :: l), b. cbn [app le_combine length]. rewrite Hc.
    splits; try done; try lia. constructor; [ranges; lia|done].
Qed.

(** Conversely, the value of a byte string with a top byte that is not zero. *)
Lemma serialize_loop_combine fuel l b :
  is_bytes l -> is_u8 b -> b <> 0 -> (length l < fuel)%nat ->
  serialize_loop fuel (le_combine (l ++ [b])) = l ++ [b] /\ 0 < le_combine (l ++ [b]).
Proof.
  intros Hl Hb Hn. revert l Hl. induction fuel as [|fuel IH]; intros l Hl Hf; [lia|].
  destruct Hl as [|x l Hx Hl].
  - cbn [app le_combine]. rewrite Z.mul_0_r, Z.add_0_r. ranges. split; [|lia]. cbn [serialize_loop].
    destruct (Z.eqb_spec b 0); [lia|]. change 0xff with (2 ^ 8 - 1). rewrite land_ones_mod by lia.
    rewrite Z.mod_small, Z.shiftr_div_pow2, Z.div_small by lia. by destruct fuel.
  - cbn [length] in Hf. destruct (IH l Hl ltac:(lia)) as [IH1 IH2]. cbn [app le_combine]. ranges.
    split; [|lia]. cbn [serialize_loop]. destruct (Z.eqb_spec (x + 256 * le_combine (l ++ [b])) 0); [lia|].
    change 0xff with (2 ^ 8 - 1). rewrite land_ones_mod, Z.shiftr_div_pow2 by lia. change (2 ^ 8) with 256.
    rewrite (Z.mul_comm 256), Z.mod_add, Z.div_add by lia.
    rewrite (Z.mod_small x), (Z.div_small x), Z.add_0_l by lia. by rewrite IH1.
Qed.

Lemma scriptnum_minimal_snoc a b :
  is_bytes a -> is_u8 b ->
  scriptnum_minimal (a ++ [b]) = negb (b mod 128 =? 0) ||
    match last a with Some p => negb (p <? 128) | None => false end.
Proof.
  intros Ha Hb. unfold scriptnum_minimal. rewrite last_snoc, land_0x7f, length_app. cbn [length].
  destruct (Z.eqb_spec (b mod 128) 0); [|done]. cbn [negb orb].
  destruct a as [|p a _] using rev_ind; [done|].
  apply is_bytes_snoc_inv in Ha as [_ Hp].
  rewrite last_snoc, length_app. cbn [length].
  destruct (Z.leb_spec (Z.of_nat (length a + 1 + 1)) 1); [lia|]. cbn [orb].
  rewrite <- app_assoc. cbn [app].
  rewrite lookup_total_app_r by lia.
  replace (length a + 1 + 1 - 2 - length a)%nat with 0%nat by lia.
  change ([p; b] !!! 0%nat) with p. by rewrite land_0x80.
Qed.

Lemma mod128_cases b : is_u8 b -> b mod 128 = if b <? 128 then b else b - 128.
Proof.
  intros Hb. ranges. destruct (Z.ltb_spec b 128); [apply Z.mod_small; lia|].
  symmetry. apply mod_unique_range; [lia|]. exists 1. lia.
Qed.

(** The encoding of a number that is not zero: the bytes of its absolute value, and
    how the sign goes into them. *)
Lemma scriptnum_serialize_spec v :
  v <> 0 -> - 2 ^ 63 < v < 2 ^ 63 ->
  exists l b, is_bytes l /\ is_u8 b /\ b <> 0 /\ le_combine (l ++ [b]) = Z.abs v /\ (length l < 8)%nat /\
    scriptnum_serialize v =
    if b <? 128 then l ++ [if v <? 0 then b + 128 else b]
    else l ++ [b] ++ [if v <? 0 then 0x80 else 0].
Proof.
  intros Hn Hv. unfold scriptnum_serialize. destruct (Z.eqb_spec v 0); [done|].
  replace (u64 (if v <? 0 then - v else v)) with (Z.abs v).
  2:{ rewrite u64_id; destruct (Z.ltb_spec v 0); ranges; lia. }
  destruct (serialize_loop_spec 8 (Z.abs v)) as (l & b & -> & Hl & Hb & Hb0 & Hc & Hlen); [lia|].
  exists l, b. splits; try done. rewrite last_snoc, land_0x80 by done.
  ranges. destruct (Z.ltb_spec b 128); cbn [negb].
  - destruct (v <? 0); [|done]. rewrite length_app, lor_0x80 by lia. cbn [length].
    by rewrite Nat.add_sub, take_app_length.
  - by rewrite <- app_assoc.
Qed.

Lemma scriptnum_roundtrip v :
  - 2 ^ 63 < v < 2 ^ 63 ->
  is_bytes (scriptnum_serialize v) /\ set_vch (scriptnum_serialize v) = v /\
  scriptnum_minimal (scriptnum_serialize v) = true.
Proof.
  intros Hv. destruct (decide (v = 0)) as [->|Hn]; [splits; try done; constructor|].
  destruct (scriptnum_serialize_spec v Hn Hv) as (l & b & Hl & Hb & Hb0 & Hc & _ & ->).
  assert (Hb' := Hb). ranges.
  destruct (Z.ltb_spec b 128).
  - assert (Hx : is_u8 (if v <? 0 then b + 128 else b)) by (split_if; ranges; lia).
    split; [by apply is_bytes_snoc|].
    rewrite set_vch_snoc, scriptnum_minimal_snoc, mod128_cases by done.
    destruct (Z.ltb_spec v 0).
    + destruct (Z.ltb_spec (b + 128) 128); [lia|]. rewrite Z.add_simpl_r, Hc.
      split; [lia|]. by destruct (Z.eqb_spec b 0).
    + destruct (Z.ltb_spec b 128); [|lia]. rewrite Hc. split; [lia|]. by destruct (Z.eqb_spec b 0).
  - rewrite app_assoc. assert (Hlb : is_bytes (l ++ [b])) by (by apply is_bytes_snoc).
    assert (Hx : is_u8 (if v <? 0 then 128 else 0)) by (split_if; ranges; lia).
    split; [by apply is_bytes_snoc|].
    rewrite set_vch_snoc, scriptnum_minimal_snoc, last_snoc by done.
    destruct (Z.ltb_spec b 128); [lia|]. rewrite orb_true_r. split; [|done].
    destruct (Z.ltb_spec v 0); cbn [Z.ltb Z.compare Pos.compare Pos.compare_cont];
      rewrite le_combine_snoc, Hc; lia.
Qed.

(** A shortest encoding is the encoding of its value. *)
Lemma scriptnum_canonical vch :
  is_bytes vch -> (length vch <= 8)%nat -> scriptnum_minimal vch = true ->
  scriptnum_serialize (set_vch vch) = vch.
Proof.
  intros Hv Hlen Hmin. destruct vch as [|b a _] using rev_ind; [done|].
  apply is_bytes_snoc_inv in Hv as [Ha Hb].
  rewrite length_app in Hlen. cbn [length] in Hlen.
  rewrite scriptnum_minimal_snoc in Hmin by done. rewrite set_vch_snoc by done.
  (* the bytes of the absolute value, and their last one *)
  assert (Hgo : forall l c, is_bytes l -> is_u8 c -> c <> 0 -> (length l < 8)%nat ->
            forall neg, scriptnum_serialize (if neg : bool then - le_combine (l ++ [c]) else le_combine (l ++ [c])) =
              if c <? 128 then l ++ [if neg then c + 128 else c] else l ++ [c] ++ [if neg then 128 else 0]).
  { intros l c Hl Hc Hc0 Hll neg.
    destruct (serialize_loop_combine 8 l c Hl Hc Hc0 Hll) as [Hs Hp].
    assert (Hr : le_combine (l ++ [c]) < 2 ^ 64).
    { eapply Z.lt_le_trans; [apply le_combine_range; by apply is_bytes_snoc|].
      apply Z.pow_le_mono_r; [lia|]. rewrite length_app. simpl. lia. }
    set (m := le_combine (l ++ [c])) in *. unfold scriptnum_serialize.
    destruct (Z.eqb_spec (if neg then - m else m) 0); [destruct neg; lia|].
    replace ((if neg then - m else m) <? 0) with neg
      by (destruct neg; symmetry; [apply Z.ltb_lt|apply Z.ltb_ge]; lia).
    replace (u64 (if neg then - (if neg then - m else m) else (if neg then - m else m))) with m.
    2:{ rewrite u64_id; destruct neg; ranges; lia. }
    rewrite Hs, last_snoc, land_0x80 by done. ranges. destruct (Z.ltb_spec c 128); cbn [negb].
    - destruct neg; [|done]. rewrite length_app, lor_0x80 by lia. cbn [length].
      by rewrite Nat.add_sub, take_app_length.
    - by rewrite <- app_assoc. }
  rewrite mod128_cases in Hmin by done. assert (Hb' := Hb). ranges.
  destruct (Z.eqb_spec (if b <? 128 then b else b - 128) 0) as [E|E]; cbn [negb orb] in Hmin.
  - destruct a as [|p a _] using rev_ind; [done|]. rewrite last_snoc in Hmin. b2p.
    apply is_bytes_snoc_inv in Ha as [Ha Hp].
    rewrite length_app in Hlen. cbn [length] in Hlen.
    assert (Hp' := Hp). ranges. pose proof (Hgo a p Ha Hp' ltac:(lia) ltac:(lia)) as Hg.
    destruct (Z.ltb_spec p 128); [lia|].
    destruct (Z.ltb_spec b 128).
    + subst b. rewrite le_combine_snoc, Z.mul_0_r, Z.add_0_r, (Hg false). by rewrite <- app_assoc.
    + replace b with 128 by lia. rewrite Z.sub_diag, le_combine_snoc, Z.mul_0_r, Z.add_0_r, (Hg true).
      by rewrite <- app_assoc.
  - destruct (Z.ltb_spec b 128).
    + rewrite (Hgo a b Ha Hb' E ltac:(lia) false). by destruct (Z.ltb_spec b 128); [|lia].
    + rewrite (Hgo a (b - 128) Ha ltac:(ranges; lia) E ltac:(lia) true).
      destruct (Z.ltb_spec (b - 128) 128); [|lia]. by rewrite Z.sub_add.
Qed.

(** Sizes: [k] bytes hold exactly the numbers below [2^(8k-1)] in absolute value. *)
Lemma scriptnum_serialize_length v k :
  1 <= k <= 8 -> Z.abs v < 2 ^ (8 * k - 1) -> Z.of_nat (length (scriptnum_serialize v)) <= k.
Proof.
  intros Hk Hv. destruct (decide (v = 0)) as [->|Hn]; [simpl; lia|].
  assert (2 ^ (8 * k - 1) <= 2 ^ 63) by (apply Z.pow_le_mono_r; lia).
  destruct (scriptnum_serialize_spec v Hn ltac:(lia)) as (l & b & Hl & Hb & Hb0 & Hc & _ & ->).
  pose proof (le_combine_range l Hl). rewrite le_combine_snoc in Hc. ranges.
  destruct (Z.ltb_spec b 128); rewrite !length_app; cbn [length].
  - destruct (decide (k <= Z.of_nat (length l))); [|lia].
    assert (2 ^ (8 * k - 1) <= 2 ^ (8 * Z.of_nat (length l))) by (apply Z.pow_le_mono_r; lia). nia.
  - destruct (decide (k <= Z.of_nat (length l) + 1)); [|lia].
    assert (Hp : 2 ^ (8 * k - 1) <= 2 ^ (8 * Z.of_nat (length l) + 7)) by (apply Z.pow_le_mono_r; lia).
    rewrite Z.pow_add_r in Hp by lia. change (2 ^ 7) with 128 in Hp. nia.
Qed.

Lemma set_vch_range vch k :
  is_bytes vch -> 0 < k -> Z.of_nat (length vch) <= k -> Z.abs (set_vch vch) < 2 ^ (8 * k - 1).
Proof.
  intros Hv Hk Hl. destruct vch as [|b a _] using rev_ind.
  { change (Z.abs (set_vch [])) with 0. apply Z.pow_pos_nonneg; lia. }
  apply is_bytes_snoc_inv in Hv as [Ha Hb]. rewrite length_app in Hl. cbn [length] in Hl.
  rewrite set_vch_snoc by done. pose proof (le_combine_range a Ha) as Hr.
  assert (Hp : 2 ^ (8 * Z.of_nat (length a) + 7) <= 2 ^ (8 * k - 1)) by (apply Z.pow_le_mono_r; lia).
  rewrite Z.pow_add_r in Hp by lia. change (2 ^ 7) with 128 in Hp. ranges.
  destruct (Z.ltb_spec b 128); rewrite le_combine_snoc; nia.
Qed.

Lemma CScriptNum_range vch m k v :
  is_bytes vch -> 0 < k -> CScriptNum vch m k = Some v -> Z.abs v < 2 ^ (8 * k - 1).
Proof.
  intros Hv Hk. unfold CScriptNum. rewrite Z.gtb_ltb.
  destruct (Z.ltb_spec k (Z.of_nat (length vch))); [done|]. destruct (_ && _); [done|].
  intros [= <-]. by apply set_vch_range.
Qed.

(** Script numbers of at most [k <= 8] bytes.  The encoding of every number below
    [2^(8k-1)] in absolute value decodes, under the minimality rule, to that number;
    and the strict decoder accepts nothing else: what it accepts is the encoding of
    the number it yields, and the number is in that range. *)
Theorem CScriptNum_correct k :
  1 <= k <= 8 ->
  (forall v, Z.abs v < 2 ^ (8 * k - 1) -> CScriptNum (scriptnum_serialize v) true k = Some v) /\
  (forall vch v, is_bytes vch -> CScriptNum vch true k = Some v ->
    Z.abs v < 2 ^ (8 * k - 1) /\ vch = scriptnum_serialize v).
Proof.
  intros Hk. split.
  - intros v Hv. pose proof (scriptnum_serialize_length v k Hk Hv).
    assert (2 ^ (8 * k - 1) <= 2 ^ 63) by (apply Z.pow_le_mono_r; lia).
    destruct (scriptnum_roundtrip v ltac:(lia)) as (_ & Hs & Hm). unfold CScriptNum.
    rewrite Z.gtb_ltb. destruct (Z.ltb_spec k (Z.of_nat (length (scriptnum_serialize v)))); [lia|].
    by rewrite Hm, Hs.
  - intros vch v Hv H. split; [by apply (CScriptNum_range vch true); [|lia|]|]. revert H. unfold CScriptNum.
    rewrite Z.gtb_ltb. destruct (Z.ltb_spec k (Z.of_nat (length vch))); [done|].
    destruct (scriptnum_minimal vch) eqn:Hm; [|done]. intros [= <-].
    symmetry. apply scriptnum_canonical; [done|lia|done].
Qed.

Lemma CScriptNum_correct_witness :
  CScriptNum [0xff; 0x80] true 4 = Some (-255) /\ scriptnum_serialize (-255) = [0xff; 0x80].
Proof.
  assert (H4 : 1 <= 4 <= 8) by lia. destruct (CScriptNum_correct 4 H4) as [H1 _].
  assert (Hb : Z.abs (-255) < 2 ^ (8 * 4 - 1)) by (vm_compute; reflexivity).
  split; [exact (H1 (-255) Hb)|vm_compute; reflexivity].
Defined.
