(* ===== verification/Transaction.v ===== *)
(** * Transactions and blocks: [src/amount.h], [src/primitives/transaction.h],
    [src/primitives/transaction.cpp], [src/primitives/block.h],
    [src/consensus/validation.h]

    The data the network agrees on, its serialization, the transaction ids derived
    from it, and the weight formula.  The version bits of a stream that matter are
    the flag [fAllowWitness], the negation of [SERIALIZE_TRANSACTION_NO_WITNESS]. *)

From S2P Require Import Prelude Endian Serialize HashFns Script Params.

(** ** Amounts *)

Definition COIN : Z := 100000000.
Definition CENT : Z := 1000000.
Definition MAX_MONEY : Z := 21000000000 * COIN.
Definition MoneyRange (nValue : Z) : bool := (nValue >=? 0) && (nValue <=? MAX_MONEY).

(** ** Data *)

Record COutPoint := mkOutPoint { op_hash : bytes; op_n : Z }.

Record CTxIn := mkTxIn {
  prevout : COutPoint;
  scriptSig : bytes;
  nSequence : Z;
  scriptWitness : list bytes;
}.

Record CTxOut := mkTxOut { nValue : Z; scriptPubKey : bytes }.

(** [CTransaction] and [CMutableTransaction] (the cached hash is [GetHash]). *)
Record CTransaction := mkTx {
  vin : list CTxIn;
  vout : list CTxOut;
  nVersion : Z;
  nLockTime : Z;
}.

#[global] Instance COutPoint_eq_dec : EqDecision COutPoint.
Proof. solve_decision. Defined.

Definition SEQUENCE_FINAL : Z := 0xffffffff.
Definition SEQUENCE_LOCKTIME_DISABLE_FLAG : Z := Z.shiftl 1 31.
Definition SEQUENCE_LOCKTIME_TYPE_FLAG : Z := Z.shiftl 1 22.
Definition SEQUENCE_LOCKTIME_MASK : Z := 0x0000ffff.
Definition SEQUENCE_LOCKTIME_GRANULARITY : Z := 9.

Definition uint256_IsNull (h : bytes) : bool := forallb (Z.eqb 0) h.

Definition outpoint_SetNull : COutPoint := mkOutPoint null_uint256 (u32 (-1)).
Definition outpoint_IsNull (o : COutPoint) : bool := uint256_IsNull (op_hash o) && (op_n o =? u32 (-1)).

Definition txout_SetNull : CTxOut := mkTxOut (-1) [].
Definition txout_IsNull (o : CTxOut) : bool := nValue o =? -1.

Definition tx_IsNull (tx : CTransaction) : bool :=
  match vin tx, vout tx with [], [] => true | _, _ => false end.

Definition IsCoinBase (tx : CTransaction) : bool :=
  match vin tx with [i] => outpoint_IsNull (prevout i) | _ => false end.

Definition witness_IsNull (w : list bytes) : bool := match w with [] => true | _ => false end.

Definition HasWitness (tx : CTransaction) : bool :=
  existsb (fun i => negb (witness_IsNull (scriptWitness i))) (vin tx).

(** ** Serialization of the parts *)

Definition ser_outpoint : codec COutPoint :=
  mkCodec (fun o => write ser_uint256 (op_hash o) ++ write ser_uint32 (op_n o))
          (fun s => let* (h, s) := read ser_uint256 s in
                    let* (n, s) := read ser_uint32 s in
                    Ok (mkOutPoint h n, s)) 36.

Definition ser_txin : codec CTxIn :=
  mkCodec (fun i => write ser_outpoint (prevout i) ++ write ser_script (scriptSig i) ++
                    write ser_uint32 (nSequence i))
          (fun s => let* (o, s) := read ser_outpoint s in
                    let* (g, s) := read ser_script s in
                    let* (q, s) := read ser_uint32 s in
                    Ok (mkTxIn o g q [], s)) 96.

Definition ser_txout : codec CTxOut :=
  mkCodec (fun o => write ser_int64 (nValue o) ++ write ser_script (scriptPubKey o))
          (fun s => let* (v, s) := read ser_int64 s in
                    let* (p, s) := read ser_script s in
                    Ok (mkTxOut v p, s)) 40.

Definition ser_vin : codec (list CTxIn) := ser_vector ser_txin.
Definition ser_vout : codec (list CTxOut) := ser_vector ser_txout.
Definition ser_witness : codec (list bytes) := ser_vector ser_blob.

(** ** Serialization of transactions *)

(** [for (i = 0; i < tx.vin.size(); i++) s >> tx.vin[i].scriptWitness.stack;] *)
Fixpoint read_witnesses (l : list CTxIn) (s : bytes) : result ser_error (list CTxIn * bytes) :=
  match l with
  | [] => Ok ([], s)
  | i :: l =>
    let* (w, s) := read ser_witness s in
    let* (l, s) := read_witnesses l s in
    Ok (mkTxIn (prevout i) (scriptSig i) (nSequence i) w :: l, s)
  end.

Definition UnserializeTransaction (fAllowWitness : bool) (s : bytes) : result ser_error (CTransaction * bytes) :=
  let* (version, s) := read ser_int32 s in
  let* (vin0, s) := read ser_vin s in
  (* a dummy or an empty vin, or the inputs; then the outputs *)
  let* (flags, vin1, vout1, s) :=
    if (length vin0 =? 0)%nat && fAllowWitness then
      let* (flags, s) := read ser_uint8 s in
      if negb (flags =? 0) then
        let* (i, s) := read ser_vin s in
        let* (o, s) := read ser_vout s in
        Ok (flags, i, o, s)
      else Ok (flags, vin0, [], s)
    else
      let* (o, s) := read ser_vout s in
      Ok (0, vin0, o, s) in
  let* (flags, vin2, s) :=
    if negb (Z.land flags 1 =? 0) && fAllowWitness then
      let* (i, s) := read_witnesses vin1 s in
      Ok (Z.lxor flags 1, i, s)
    else Ok (flags, vin1, s) in
  if negb (flags =? 0) then Err UnknownOptionalData else
  let* (lock, s) := read ser_uint32 s in
  Ok (mkTx vin2 vout1 version lock, s).

Definition SerializeTransaction (fAllowWitness : bool) (tx : CTransaction) : bytes :=
  let flags := if fAllowWitness then (if HasWitness tx then 1 else 0) else 0 in
  write ser_int32 (nVersion tx) ++
  (if negb (flags =? 0) then write ser_vin [] ++ write ser_uint8 flags else []) ++
  write ser_vin (vin tx) ++
  write ser_vout (vout tx) ++
  (if negb (Z.land flags 1 =? 0) then concat (write ser_witness ∘ scriptWitness <$> vin tx) else []) ++
  write ser_uint32 (nLockTime tx).

(** A [CTransactionRef] is a shared pointer of 16 bytes. *)
Definition ser_tx (fAllowWitness : bool) : codec CTransaction :=
  mkCodec (SerializeTransaction fAllowWitness) (UnserializeTransaction fAllowWitness) 16.

(** ** Identifiers, sizes, weight *)

(** [SerializeHash] of the transaction: the double SHA-256 of the encoding. *)
Definition GetHash (tx : CTransaction) : bytes := Hash (SerializeTransaction false tx).
Definition GetWitnessHash (tx : CTransaction) : bytes :=
  if negb (HasWitness tx) then GetHash tx else Hash (SerializeTransaction true tx).

Definition GetTotalSize (tx : CTransaction) : Z := Z.of_nat (length (SerializeTransaction true tx)).

Definition GetTransactionWeight (tx : CTransaction) : Z :=
  Z.of_nat (length (SerializeTransaction false tx)) * (WITNESS_SCALE_FACTOR - 1) +
  Z.of_nat (length (SerializeTransaction true tx)).

(** [GetValueOut]; an error is the [value out of range] exception. *)
Fixpoint GetValueOut_loop (fAreEnforcedValues : bool) (outs : list CTxOut) (nValueOut : Z) : option Z :=
  match outs with
  | [] => Some nValueOut
  | o :: outs =>
    if negb fAreEnforcedValues && bool_decide (is_Some (IsAssetScript (scriptPubKey o)))
    then GetValueOut_loop fAreEnforcedValues outs nValueOut
    else
      let nValueOut := i64 (nValueOut + nValue o) in
      if negb (MoneyRange (nValue o)) || negb (MoneyRange nValueOut) then None
      else GetValueOut_loop fAreEnforcedValues outs nValueOut
  end.
Definition GetValueOut (fAreEnforcedValues : bool) (tx : CTransaction) : option Z :=
  GetValueOut_loop fAreEnforcedValues (vout tx) 0.

(** ** Block headers and blocks *)

Section blocks.
(** The activation time the chain parameters set. *)
Context (nKAWPOWActivationTime : Z).

Definition write_header (h : CBlockHeader) : bytes :=
  write ser_int32 (hdr_nVersion h) ++ write ser_uint256 (hdr_hashPrevBlock h) ++
  write ser_uint256 (hdr_hashMerkleRoot h) ++ write ser_uint32 (hdr_nTime h) ++
  write ser_uint32 (hdr_nBits h) ++
  (if hdr_nTime h <? nKAWPOWActivationTime then write ser_uint32 (hdr_nNonce h)
   else write ser_uint32 (hdr_nHeight h) ++ write ser_uint64 (hdr_nNonce64 h) ++
        write ser_uint256 (hdr_mix_hash h)).

(** Into a header that was [SetNull]: the fields of the other format stay zero. *)
Definition read_header (s : bytes) : result ser_error (CBlockHeader * bytes) :=
  let* (version, s) := read ser_int32 s in
  let* (prev, s) := read ser_uint256 s in
  let* (root, s) := read ser_uint256 s in
  let* (time, s) := read ser_uint32 s in
  let* (bits, s) := read ser_uint32 s in
  if time <? nKAWPOWActivationTime then
    let* (nonce, s) := read ser_uint32 s in
    Ok (mkHeader version prev root time bits nonce 0 0 null_uint256, s)
  else
    let* (height, s) := read ser_uint32 s in
    let* (nonce64, s) := read ser_uint64 s in
    let* (mix, s) := read ser_uint256 s in
    Ok (mkHeader version prev root time bits 0 height nonce64 mix, s).

Definition ser_header : codec CBlockHeader := mkCodec write_header read_header 144.

(** [CBlock]: a header and the transactions ([fChecked] is memory only). *)
Definition ser_block (fAllowWitness : bool) : codec (CBlockHeader * list CTransaction) :=
  ser_pair ser_header (ser_vector (ser_tx fAllowWitness)).

Definition GetBlockWeight (block : CBlockHeader * list CTransaction) : Z :=
  Z.of_nat (length (write (ser_block false) block)) * (WITNESS_SCALE_FACTOR - 1) +
  Z.of_nat (length (write (ser_block true) block)).
End blocks.

(** [CKAWPOWInput]: the header without nonce and mix hash, and its hash. *)
Definition write_kawpow_input (h : CBlockHeader) : bytes :=
  write ser_int32 (hdr_nVersion h) ++ write ser_uint256 (hdr_hashPrevBlock h) ++
  write ser_uint256 (hdr_hashMerkleRoot h) ++ write ser_uint32 (hdr_nTime h) ++
  write ser_uint32 (hdr_nBits h) ++ write ser_uint32 (hdr_nHeight h).
Definition GetKAWPOWHeaderHash (h : CBlockHeader) : bytes := Hash (write_kawpow_input h).

(** ** Well-formed values: every field in the range of its C++ type *)

Definition outpoint_ok (o : COutPoint) : Prop := flat_ok 32 (op_hash o) /\ is_u32 (op_n o).
Definition txin_ok (i : CTxIn) : Prop :=
  outpoint_ok (prevout i) /\ blob_ok (scriptSig i) /\ is_u32 (nSequence i) /\ scriptWitness i = [].
Definition txout_ok (o : CTxOut) : Prop := is_i64 (nValue o) /\ blob_ok (scriptPubKey o).

Definition strip_txin (i : CTxIn) : CTxIn := mkTxIn (prevout i) (scriptSig i) (nSequence i) [].
Definition strip_witness (tx : CTransaction) : CTransaction :=
  mkTx (strip_txin <$> vin tx) (vout tx) (nVersion tx) (nLockTime tx).

Definition tx_ok (tx : CTransaction) : Prop :=
  vector_ok (txin_ok ∘ strip_txin) (vin tx) /\
  Forall (vector_ok blob_ok ∘ scriptWitness) (vin tx) /\
  vector_ok txout_ok (vout tx) /\ is_i32 (nVersion tx) /\ is_u32 (nLockTime tx).

(** The extended format uses an empty input vector as its marker: in the format
    with witnesses only transactions with an input (or with nothing) can be read. *)
Definition tx_readable (fAllowWitness : bool) (tx : CTransaction) : Prop :=
  fAllowWitness = true -> vin tx = [] -> vout tx = [].

Definition header_ok (t : Z) (h : CBlockHeader) : Prop :=
  is_i32 (hdr_nVersion h) /\ flat_ok 32 (hdr_hashPrevBlock h) /\ flat_ok 32 (hdr_hashMerkleRoot h) /\
  is_u32 (hdr_nTime h) /\ is_u32 (hdr_nBits h) /\
  if hdr_nTime h <? t
  then is_u32 (hdr_nNonce h) /\ hdr_nHeight h = 0 /\ hdr_nNonce64 h = 0 /\ hdr_mix_hash h = null_uint256
  else hdr_nNonce h = 0 /\ is_u32 (hdr_nHeight h) /\ is_u64 (hdr_nNonce64 h) /\ flat_ok 32 (hdr_mix_hash h).

(** ** Codec laws of the parts *)

(** Read back a sequence of fields that was written. *)
Ltac read_back := rewrite <- ?app_assoc; repeat (rewrite read_write by done; cbn [app]).

(** A sequence of written fields is a byte string. *)
Ltac written_bytes := first [by eapply write_bytes|apply is_bytes_app; written_bytes].

(** From an accepted sequence of fields: each field is well formed and the bytes are
    its encoding. *)
Ltac read_field H :=
  match type of H with
  | context [match read ?c ?s with _ => _ end] =>
    let E := fresh "E" in let Hok := fresh "Hok" in let x := fresh "x" in let r := fresh "r" in
    destruct (read c s) as [[x r]|] eqn:E; [|done];
    apply read_canonical in E as [Hok ->]; [|done];
    match goal with Hb : is_bytes (_ ++ r) |- _ => apply Forall_app in Hb as [_ Hb] end
  end.

#[export] Instance ser_outpoint_ok : CodecOk ser_outpoint outpoint_ok.
Proof.
  split; cbn [read write ser_outpoint cpp_sizeof]; [| |lia].
  - intros [h n] rest [Hh Hn]; cbn [op_hash op_n] in *. by read_back.
  - intros [h n] [Hh Hn]; cbn [op_hash op_n] in *. apply is_bytes_app; by eapply write_bytes.
Qed.
#[export] Instance ser_outpoint_canonical : CodecCanonical ser_outpoint outpoint_ok.
Proof.
  intros s a rest Hs H. cbn [read ser_outpoint] in H. read_field H. read_field H.
  injection H as <- <-. split; [by split|]. cbn [write ser_outpoint op_hash op_n]. by rewrite <- app_assoc.
Qed.

#[export] Instance ser_txin_ok : CodecOk ser_txin txin_ok.
Proof.
  split; cbn [read write ser_txin cpp_sizeof]; [| |lia].
  - intros [o g q w] rest (Ho & Hg & Hq & Hw); cbn [prevout scriptSig nSequence scriptWitness] in *. subst w.
    by read_back.
  - intros [o g q w] (Ho & Hg & Hq & Hw); cbn [prevout scriptSig nSequence] in *.
    written_bytes.
Qed.
#[export] Instance ser_txin_canonical : CodecCanonical ser_txin txin_ok.
Proof.
  intros s a rest Hs H. cbn [read ser_txin] in H. do 3 read_field H.
  injection H as <- <-. split; [by splits|]. cbn [write ser_txin prevout scriptSig nSequence].
  by rewrite <- !app_assoc.
Qed.

#[export] Instance ser_txout_ok : CodecOk ser_txout txout_ok.
Proof.
  split; cbn [read write ser_txout cpp_sizeof]; [| |lia].
  - intros [v p] rest [Hv Hp]; cbn [nValue scriptPubKey] in *. by read_back.
  - intros [v p] [Hv Hp]; cbn [nValue scriptPubKey] in *. apply is_bytes_app; by eapply write_bytes.
Qed.
#[export] Instance ser_txout_canonical : CodecCanonical ser_txout txout_ok.
Proof.
  intros s a rest Hs H. cbn [read ser_txout] in H. do 2 read_field H.
  injection H as <- <-. split; [by split|]. cbn [write ser_txout nValue scriptPubKey]. by rewrite <- app_assoc.
Qed.

#[export] Instance ser_vin_ok : CodecOk ser_vin (vector_ok txin_ok).
Proof. apply _. Qed.
#[export] Instance ser_vin_canonical : CodecCanonical ser_vin (vector_ok txin_ok).
Proof. apply _. Qed.
#[export] Instance ser_vout_ok : CodecOk ser_vout (vector_ok txout_ok).
Proof. apply _. Qed.
#[export] Instance ser_vout_canonical : CodecCanonical ser_vout (vector_ok txout_ok).
Proof. apply _. Qed.
#[export] Instance ser_witness_ok : CodecOk ser_witness (vector_ok blob_ok).
Proof. apply _. Qed.
#[export] Instance ser_witness_canonical : CodecCanonical ser_witness (vector_ok blob_ok).
Proof. apply _. Qed.

(** ** Transactions: lemmas *)

Lemma strip_txin_ok i : txin_ok i -> strip_txin i = i.
Proof. destruct i as [o g q w]. by intros (_ & _ & _ & [= ->]). Qed.

(** The input encoding does not look at the witness. *)
Lemma write_vin_strip l : write ser_vin (strip_txin <$> l) = write ser_vin l.
Proof.
  cbn [write ser_vin ser_vector]. unfold Serialize_vector. rewrite length_fmap. do 2 f_equal.
  rewrite <- list_fmap_compose. by apply list_fmap_ext.
Qed.

Lemma vin_strip_ok l : vector_ok (txin_ok ∘ strip_txin) l -> vector_ok txin_ok (strip_txin <$> l).
Proof. intros [Hl Hv]. split; [by rewrite length_fmap|]. by apply Forall_fmap. Qed.

Lemma read_witnesses_write l rest :
  Forall (vector_ok blob_ok ∘ scriptWitness) l ->
  read_witnesses (strip_txin <$> l) (concat (write ser_witness ∘ scriptWitness <$> l) ++ rest) = Ok (l, rest).
Proof.
  induction 1 as [|[o g q w] l Hw Hl IH]; [done|].
  cbn [fmap list_fmap concat strip_txin compose scriptWitness prevout scriptSig nSequence read_witnesses].
  rewrite <- app_assoc, read_write by done. by rewrite IH.
Qed.

Lemma HasWitness_false tx : HasWitness tx = false -> strip_txin <$> vin tx = vin tx.
Proof.
  unfold HasWitness. induction (vin tx) as [|[o g q w] l IH]; [done|].
  cbn [existsb scriptWitness fmap list_fmap]. intros [Hw Hl]%orb_false_iff. rewrite IH by done.
  unfold strip_txin at 1. cbn [prevout scriptSig nSequence]. by destruct w.
Qed.

Lemma vector_ok_nil {A} (ok : A -> Prop) : vector_ok ok [].
Proof. split; [unfold MAX_SIZE; simpl; lia|constructor]. Qed.

Lemma read_tx_normal allow l o v lock rest :
  is_i32 v -> vector_ok txin_ok l -> vector_ok txout_ok o -> is_u32 lock ->
  (length l =? 0)%nat && allow = false ->
  UnserializeTransaction allow
    (write ser_int32 v ++ write ser_vin l ++ write ser_vout o ++ write ser_uint32 lock ++ rest) =
  Ok (mkTx l o v lock, rest).
Proof.
  intros Hv Hl Ho Hlock Ha. unfold UnserializeTransaction.
  rewrite (read_write v), (read_write l), Ha, (read_write o) by done.
  change (negb (Z.land 0 1 =? 0)) with false. change (negb (0 =? 0)) with false. cbn [andb].
  change (negb (0 =? 0)) with false. cbn iota. by rewrite read_write.
Qed.

(** The two formats. *)
Lemma SerializeTransaction_base tx :
  SerializeTransaction false tx =
  write ser_int32 (nVersion tx) ++ write ser_vin (vin tx) ++ write ser_vout (vout tx) ++
  write ser_uint32 (nLockTime tx).
Proof. done. Qed.
Lemma SerializeTransaction_witness tx :
  SerializeTransaction true tx =
  if HasWitness tx then
    write ser_int32 (nVersion tx) ++ write ser_vin [] ++ write ser_uint8 1 ++ write ser_vin (vin tx) ++
    write ser_vout (vout tx) ++ concat (write ser_witness ∘ scriptWitness <$> vin tx) ++
    write ser_uint32 (nLockTime tx)
  else SerializeTransaction false tx.
Proof. unfold SerializeTransaction. by destruct (HasWitness tx). Qed.

Lemma read_tx_write_stripped tx rest :
  tx_ok tx -> UnserializeTransaction false (SerializeTransaction false tx ++ rest) = Ok (strip_witness tx, rest).
Proof.
  intros (Hi & Hw & Ho & Hv & Hl). rewrite SerializeTransaction_base, <- write_vin_strip, <- !app_assoc.
  apply read_tx_normal; try done; [by apply vin_strip_ok|apply andb_false_r].
Qed.

Lemma read_tx_write tx rest :
  tx_ok tx -> tx_readable true tx ->
  UnserializeTransaction true (SerializeTransaction true tx ++ rest) = Ok (tx, rest).
Proof.
  intros (Hi & Hw & Ho & Hv & Hl) Hr. rewrite SerializeTransaction_witness. apply vin_strip_ok in Hi.
  destruct (HasWitness tx) eqn:Hh.
  - rewrite <- (write_vin_strip (vin tx)), <- !app_assoc. unfold UnserializeTransaction.
    rewrite (read_write (nVersion tx)) by done.
    rewrite (read_write (c := ser_vin) []) by apply vector_ok_nil. cbn [length Nat.eqb andb].
    rewrite (read_write (c := ser_uint8) 1) by (ranges; lia).
    change (negb (1 =? 0)) with true. cbn iota.
    rewrite (read_write (strip_txin <$> vin tx)), (read_write (vout tx)) by done.
    change (negb (Z.land 1 1 =? 0)) with true. cbn [andb]. rewrite read_witnesses_write by done.
    change (negb (Z.lxor 1 1 =? 0)) with false. cbn iota. rewrite read_write by done. by destruct tx.
  - rewrite (HasWitness_false tx Hh) in Hi. rewrite SerializeTransaction_base, <- !app_assoc.
    destruct (vin tx) as [|i l] eqn:El.
    + unfold tx_readable in Hr. rewrite El in Hr. rewrite (Hr eq_refl eq_refl). unfold UnserializeTransaction.
      rewrite (read_write (nVersion tx)) by done.
      rewrite (read_write (c := ser_vin) []) by apply vector_ok_nil. cbn [length Nat.eqb andb].
      change (write ser_vout []) with (write ser_uint8 0).
      rewrite (read_write (c := ser_uint8) 0) by (ranges; lia).
      change (negb (0 =? 0)) with false. cbn iota. change (negb (Z.land 0 1 =? 0)) with false. cbn [andb].
      change (negb (0 =? 0)) with false. cbn iota. rewrite read_write by done. destruct tx as [a b c d]. cbn in *. by rewrite El, (Hr eq_refl eq_refl).
    + rewrite read_tx_normal by done. rewrite <- El. by destruct tx.
Qed.

(** What the reader without witnesses accepts. *)
Lemma read_tx_stripped_inv s tx rest :
  is_bytes s -> UnserializeTransaction false s = Ok (tx, rest) ->
  tx_ok tx /\ strip_witness tx = tx /\ s = SerializeTransaction false tx ++ rest.
Proof.
  intros Hs H. unfold UnserializeTransaction in H.
  read_field H. read_field H. rewrite andb_false_r in H. cbn iota in H.
  destruct (read ser_vout r0) as [[o r1]|] eqn:E; [|done].
  apply read_canonical in E as [Ho ->]; [|done]. apply Forall_app in Hs as [_ Hs].
  change (negb (Z.land 0 1 =? 0)) with false in H. cbn [andb] in H.
  change (negb (0 =? 0)) with false in H. cbn iota in H. read_field H. injection H as <- <-.
  rename x0 into l. destruct Hok0 as [Hl Hf].
  assert (Hst : strip_txin <$> l = l).
  { clear -Hf. induction Hf as [|i l Hi Hf IH]; [done|]. cbn. by rewrite strip_txin_ok, IH. }
  split; [|split].
  - unfold tx_ok. cbn [vin vout nVersion nLockTime]. splits; try done.
    + split; [done|]. eapply Forall_impl; [done|]. intros i Hi. cbn. by rewrite strip_txin_ok.
    + eapply Forall_impl; [done|]. intros i (_ & _ & _ & Hw). cbn. rewrite Hw. apply vector_ok_nil.
  - unfold strip_witness. cbn [vin vout nVersion nLockTime]. by rewrite Hst.
  - rewrite SerializeTransaction_base. cbn [vin vout nVersion nLockTime]. by rewrite <- !app_assoc.
Qed.

Lemma SerializeTransaction_strip tx : SerializeTransaction false (strip_witness tx) = SerializeTransaction false tx.
Proof.
  rewrite !SerializeTransaction_base. cbn [vin vout nVersion nLockTime strip_witness]. by rewrite write_vin_strip.
Qed.

Lemma SerializeTransaction_bytes allow tx : tx_ok tx -> is_bytes (SerializeTransaction allow tx).
Proof.
  intros (Hi & Hw & Ho & Hv & Hl). apply vin_strip_ok in Hi.
  assert (Hb : is_bytes (SerializeTransaction false tx)).
  { rewrite SerializeTransaction_base, <- (write_vin_strip (vin tx)). written_bytes. }
  destruct allow; [|done]. rewrite SerializeTransaction_witness. destruct (HasWitness tx); [|done].
  assert (He : is_bytes (write ser_vin [])) by (eapply write_bytes, vector_ok_nil).
  assert (H1 : is_bytes (write ser_uint8 1)) by apply writedata8_bytes.
  assert (is_bytes (concat (write ser_witness ∘ scriptWitness <$> vin tx))).
  { apply Forall_concat, Forall_fmap. eapply Forall_impl; [done|]. intros i Hi'. by apply (write_bytes (c := ser_witness)). }
  rewrite <- (write_vin_strip (vin tx)).
  repeat (apply is_bytes_app; [first [done|by eapply write_bytes]|]). by eapply write_bytes.
Qed.

#[export] Instance ser_tx_ok allow :
  CodecOk (ser_tx allow) (fun tx => tx_ok tx /\ tx_readable allow tx /\ (allow = false -> strip_witness tx = tx)).
Proof.
  split; cbn [read write ser_tx cpp_sizeof]; [| |lia].
  - intros tx rest (Hok & Hr & Hs). destruct allow; [by apply read_tx_write|].
    by rewrite read_tx_write_stripped, Hs.
  - intros tx (Hok & _). by apply SerializeTransaction_bytes.
Qed.

(** ** Blocks: lemmas *)

#[export] Instance ser_header_ok t : CodecOk (ser_header t) (header_ok t).
Proof.
  split; cbn [read write ser_header cpp_sizeof]; [| |lia].
  - intros h rest (H1 & H2 & H3 & H4 & H5 & H6). unfold read_header, write_header.
    rewrite <- !app_assoc. do 5 (rewrite read_write by done).
    destruct (hdr_nTime h <? t).
    + destruct H6 as (Hn & Hz & Hz' & Hm). rewrite read_write by done. destruct h; cbn in *; congruence.
    + destruct H6 as (Hz & Hh & Hn & Hm). rewrite <- !app_assoc. do 3 (rewrite read_write by done).
      destruct h; cbn in *; congruence.
  - intros h (H1 & H2 & H3 & H4 & H5 & H6). unfold write_header.
    do 5 (apply is_bytes_app; [by eapply write_bytes|]).
    destruct (hdr_nTime h <? t); [destruct H6; by eapply write_bytes|].
    destruct H6 as (Hz & Hh & Hn & Hm). written_bytes.
Qed.

#[export] Instance ser_header_canonical t : CodecCanonical (ser_header t) (header_ok t).
Proof.
  intros s a rest Hs H. cbn [read ser_header] in H. unfold read_header in H. do 5 read_field H.
  assert (null_ok : flat_ok 32 null_uint256) by (split; [done|]; apply Forall_replicate; ranges; lia).
  destruct (x2 <? t) eqn:Et.
  - read_field H. injection H as <- <-. split; [unfold header_ok; cbn; by rewrite Et|].
    cbn [write ser_header]. unfold write_header. cbn. rewrite Et. by rewrite <- !app_assoc.
  - do 3 read_field H. injection H as <- <-. split; [unfold header_ok; cbn; by rewrite Et|].
    cbn [write ser_header]. unfold write_header. cbn. rewrite Et. by rewrite <- !app_assoc.
Qed.

#[export] Instance ser_block_ok t allow :
  CodecOk (ser_block t allow) (fun b => header_ok t b.1 /\
    vector_ok (fun tx => tx_ok tx /\ tx_readable allow tx /\ (allow = false -> strip_witness tx = tx)) b.2).
Proof. apply ser_pair_ok; apply _. Qed.

(** The identifiers as hashes of one encoding each. *)
Lemma GetHash_spec tx : GetHash tx = Hash (SerializeTransaction false tx).
Proof. reflexivity. Qed.
Lemma GetWitnessHash_spec tx : GetWitnessHash tx = Hash (SerializeTransaction true tx).
Proof.
  unfold GetWitnessHash, GetHash. rewrite SerializeTransaction_witness. by destruct (HasWitness tx).
Qed.

(** A string of [xs] and a different one of [ys] have the same double SHA-256. *)
Definition collides (xs ys : list bytes) : Prop := exists x y, x ∈ xs /\ y ∈ ys /\ x <> y /\ Hash x = Hash y.

Lemma collides_mono xs xs' ys ys' : xs ⊆ xs' -> ys ⊆ ys' -> collides xs ys -> collides xs' ys'.
Proof. intros Hx Hy (x & y & H1 & H2 & H3). exists x, y. split; [by apply Hx|]. split; [by apply Hy|done]. Qed.

Lemma Hash_binding xs ys x y : x ∈ xs -> y ∈ ys -> Hash x = Hash y -> x = y \/ collides xs ys.
Proof. intros Hx Hy E. destruct (decide (x = y)); [by left|right]. by exists x, y. Qed.

(** A list in which the other one is a part. *)
Ltac sub_list := let x := fresh in let H := fresh in intros x H; rewrite ?elem_of_cons, ?elem_of_app; tauto.

Lemma SerializeTransaction_inj allow t1 t2 :
  tx_ok t1 -> tx_ok t2 -> tx_readable allow t1 -> tx_readable allow t2 ->
  SerializeTransaction allow t1 = SerializeTransaction allow t2 ->
  if allow then t1 = t2 else strip_witness t1 = strip_witness t2.
Proof.
  intros H1 H2 R1 R2 E. destruct allow.
  - pose proof (read_tx_write t1 [] H1 R1) as A1. pose proof (read_tx_write t2 [] H2 R2) as A2.
    rewrite E in A1. congruence.
  - pose proof (read_tx_write_stripped t1 [] H1) as A1. pose proof (read_tx_write_stripped t2 [] H2) as A2.
    rewrite E in A1. congruence.
Qed.

(** ** The properties *)

(** C22: Transactions survive the wire.  The format with witnesses gives back every
    well-formed transaction that has an input (or neither inputs nor outputs); the
    format without witnesses gives back the transaction without its witnesses,
    whatever follows in the stream; and that format is canonical: what its reader
    accepts is the encoding of the transaction it yields, field for field. *)
Theorem transaction_roundtrip tx rest :
  tx_ok tx ->
  (tx_readable true tx -> UnserializeTransaction true (SerializeTransaction true tx ++ rest) = Ok (tx, rest)) /\
  UnserializeTransaction false (SerializeTransaction false tx ++ rest) = Ok (strip_witness tx, rest) /\
  (forall s t r, is_bytes s -> UnserializeTransaction false s = Ok (t, r) ->
    tx_ok t /\ strip_witness t = t /\ s = SerializeTransaction false t ++ r).
Proof.
  intros Hok. split; [by apply read_tx_write|]. split; [by apply read_tx_write_stripped|].
  exact read_tx_stripped_inv.
Qed.

(** Transaction ids.  The id does not depend on the witnesses; two well-formed
    transactions with the same id agree on everything but the witnesses, and two
    with the same witness id are equal, unless the two serializations that are hashed
    collide. *)
Theorem transaction_ids_binding t1 t2 :
  tx_ok t1 -> tx_ok t2 ->
  GetHash (strip_witness t1) = GetHash t1 /\
  (GetHash t1 = GetHash t2 -> strip_witness t1 = strip_witness t2 \/ collides [SerializeTransaction false t1] [SerializeTransaction false t2]) /\
  (tx_readable true t1 -> tx_readable true t2 ->
   GetWitnessHash t1 = GetWitnessHash t2 -> t1 = t2 \/ collides [SerializeTransaction true t1] [SerializeTransaction true t2]).
Proof.
  intros H1 H2. rewrite !GetHash_spec, SerializeTransaction_strip. split; [reflexivity|]. split.
  - intros [E|]%(Hash_binding [SerializeTransaction false t1] [SerializeTransaction false t2]); [left|by right|by left|by left].
    exact (SerializeTransaction_inj false t1 t2 H1 H2 ltac:(done) ltac:(done) E).
  - intros R1 R2. rewrite !GetWitnessHash_spec. intros [E|]%(Hash_binding [SerializeTransaction true t1] [SerializeTransaction true t2]); [left|by right|by left|by left].
    exact (SerializeTransaction_inj true t1 t2 H1 H2 R1 R2 E).
Qed.

(** Blocks survive the wire in both formats, and a block header is read from
    exactly one byte string: 80 bytes before the KAWPOW activation time and 120
    from then on, the fields of the other format being zero. *)
Theorem block_roundtrip t allow h vtx rest :
  header_ok t h ->
  vector_ok (fun tx => tx_ok tx /\ tx_readable allow tx /\ (allow = false -> strip_witness tx = tx)) vtx ->
  read (ser_block t allow) (write (ser_block t allow) (h, vtx) ++ rest) = Ok ((h, vtx), rest) /\
  (forall s h' r, is_bytes s -> read (ser_header t) s = Ok (h', r) ->
    header_ok t h' /\ s = write (ser_header t) h' ++ r) /\
  length (write (ser_header t) h) = if hdr_nTime h <? t then 80%nat else 120%nat.
Proof.
  intros Hh Hv. split; [by apply read_write|]. split; [intros s h' r; apply read_canonical|].
  destruct Hh as (_ & [H1 _] & [H2 _] & _ & _ & H3). cbn [write ser_header]. unfold write_header.
  rewrite !length_app. cbn [write ser_uint256 ser_flat ser_int32 ser_uint32]. rewrite H1, H2.
  unfold ser_writedata32. rewrite !le_split_length.
  destruct (hdr_nTime h <? t); [by rewrite le_split_length|]. destruct H3 as (_ & _ & _ & [H3 _]).
  rewrite !length_app. cbn [write ser_uint64]. unfold ser_writedata64. by rewrite !le_split_length, H3.
Qed.

(** The weight of a transaction is four times its size without witnesses plus
    the bytes of the witness data (marker, flag and the stacks), as BIP 141 defines it;
    [GetTotalSize] is the size with the witness data. *)
Theorem GetTransactionWeight_bip141 tx :
  let base := Z.of_nat (length (SerializeTransaction false tx)) in
  let wit := if HasWitness tx
             then 2 + Z.of_nat (length (concat (write ser_witness ∘ scriptWitness <$> vin tx))) else 0 in
  GetTransactionWeight tx = WITNESS_SCALE_FACTOR * base + wit /\ GetTotalSize tx = base + wit.
Proof.
  cbn zeta. unfold GetTransactionWeight, GetTotalSize, WITNESS_SCALE_FACTOR.
  rewrite SerializeTransaction_witness. destruct (HasWitness tx); [|lia].
  rewrite SerializeTransaction_base, !length_app.
  change (length (write ser_vin [])) with 1%nat. change (length (write ser_uint8 1)) with 1%nat. lia.
Qed.

(** ** Examples *)

Definition ex_hash : bytes := replicate 32 7.
Definition ex_txin : CTxIn := mkTxIn (mkOutPoint ex_hash 1) [0x51] SEQUENCE_FINAL [[1; 2; 3]; []].
Definition ex_tx : CTransaction := mkTx [ex_txin] [mkTxOut 50 [opcode_value OP_RETURN]] 2 0.

Lemma ex_tx_ok : tx_ok ex_tx.
Proof.
  assert (Hh : flat_ok 32 ex_hash) by (split; [done|apply Forall_replicate; ranges; lia]).
  assert (Hb : forall b, bool_decide (length b <= 10)%nat && forallb (fun x => (0 <=? x) && (x <? 256)) b = true -> blob_ok b).
  { intros b [Hl Hf]%andb_true_iff. apply bool_decide_eq_true in Hl. split; [unfold MAX_SIZE; lia|].
    apply Forall_forall. intros x Hx. rewrite forallb_forall in Hf.
    apply list_elem_of_In, Hf in Hx. b2p. ranges. lia. }
  unfold tx_ok, ex_tx, vector_ok, MAX_SIZE. cbn [vin vout nVersion nLockTime length].
  splits; try lia; try (ranges; lia).
  - constructor; [|constructor]. cbn. unfold txin_ok, outpoint_ok, SEQUENCE_FINAL. cbn. splits; try done; by apply Hb.
  - constructor; [|constructor]. cbn. split; [unfold MAX_SIZE; simpl; lia|].
    constructor; [by apply Hb|]. constructor; [by apply Hb|constructor].
  - constructor; [|constructor]. split; cbn; [ranges; lia|by apply Hb].
Qed.

Lemma transaction_roundtrip_witness :
  UnserializeTransaction true (SerializeTransaction true ex_tx ++ [9]) = Ok (ex_tx, [9]) /\
  UnserializeTransaction false (SerializeTransaction false ex_tx ++ [9]) = Ok (strip_witness ex_tx, [9]).
Proof.
  destruct (transaction_roundtrip ex_tx [9] ex_tx_ok) as (H1 & H2 & _).
  split; [apply H1; unfold tx_readable; discriminate|exact H2].
Defined.

Lemma transaction_ids_binding_witness : GetHash (strip_witness ex_tx) = GetHash ex_tx.
Proof. exact (proj1 (transaction_ids_binding ex_tx ex_tx ex_tx_ok ex_tx_ok)). Defined.

Definition ex_header : CBlockHeader :=
  mkHeader 0x20000000 ex_hash ex_hash 1500000000 0x1e00ffff 0 5 77 ex_hash.

Lemma block_roundtrip_witness :
  read (ser_block 1400000000 true) (write (ser_block 1400000000 true) (ex_header, [ex_tx]) ++ [1]) =
    Ok ((ex_header, [ex_tx]), [1]) /\
  length (write (ser_header 1400000000) ex_header) = 120%nat.
Proof.
  assert (Hh : flat_ok 32 ex_hash) by (split; [done|apply Forall_replicate; ranges; lia]).
  assert (Hok : header_ok 1400000000 ex_header).
  { unfold header_ok. cbn. splits; try done; ranges; lia. }
  assert (Hv : vector_ok (fun tx => tx_ok tx /\ tx_readable true tx /\ (true = false -> strip_witness tx = tx)) [ex_tx]).
  { split; [unfold MAX_SIZE; simpl; lia|]. constructor; [|constructor]. split; [exact ex_tx_ok|].
    split; [unfold tx_readable; discriminate|discriminate]. }
  destruct (block_roundtrip 1400000000 true ex_header [ex_tx] [1] Hok Hv) as (H1 & _ & H3).
  split; [exact H1|exact H3].
Defined.
