(* ===== verification/Keccak.v ===== *)
(** * Keccak: [src/crypto/ethash/lib/keccak]

    The permutations [ethash_keccakf800] and [ethash_keccakf1600] with their unrolled
    rounds, and the hash functions [keccak256] and [keccak512] over the second.  The
    theorems compare them with Keccak as it is specified: the five step mappings on the
    five by five lanes, rotation offsets and round constants computed by their rules,
    the sponge over the padded message.  An array of 25 words is a list. *)

From S2P Require Import Prelude Endian.

(** ** Words *)

Definition rol (w x s : Z) : Z := Z.lor (Z.shiftl x s mod 2 ^ w) (Z.shiftr x (w - s)).

(** [~x & y]. *)
Definition andnot (w x y : Z) : Z := Z.land (Z.lnot x mod 2 ^ w) y.

Local Infix "⊕" := Z.lxor (at level 50, left associativity).

(** ** The permutations *)

(** The local variables of a round. *)
Record lanes := mkLanes {
  ba : Z; be : Z; bi : Z; bo : Z; bu : Z;
  ga : Z; ge : Z; gi : Z; go : Z; gu : Z;
  ka : Z; ke : Z; ki : Z; ko : Z; ku : Z;
  ma : Z; me : Z; mi : Z; mo : Z; mu : Z;
  sa : Z; se : Z; si : Z; so : Z; su : Z;
}.

Definition load (state : list Z) : lanes :=
  let s i := nth i state 0 in
  mkLanes (s 0%nat) (s 1%nat) (s 2%nat) (s 3%nat) (s 4%nat) (s 5%nat) (s 6%nat) (s 7%nat) (s 8%nat) (s 9%nat) (s 10%nat) (s 11%nat) (s 12%nat) (s 13%nat) (s 14%nat) (s 15%nat) (s 16%nat) (s 17%nat) (s 18%nat) (s 19%nat) (s 20%nat) (s 21%nat) (s 22%nat) (s 23%nat) (s 24%nat).
Definition store (s : lanes) : list Z :=
  [ba s; be s; bi s; bo s; bu s; ga s; ge s; gi s; go s; gu s; ka s; ke s; ki s; ko s; ku s; ma s; me s; mi s; mo s; mu s; sa s; se s; si s; so s; su s].

(** One round of [ethash_keccakf800]; the body of its loop is two of them. *)
Definition round_800 (s : lanes) (rc : Z) : lanes :=
  let 'mkLanes Aba Abe Abi Abo Abu Aga Age Agi Ago Agu Aka Ake Aki Ako Aku Ama Ame Ami Amo Amu Asa Ase Asi Aso Asu := s in
  let Ba := Aba ⊕ Aga ⊕ Aka ⊕ Ama ⊕ Asa in let Be := Abe ⊕ Age ⊕ Ake ⊕ Ame ⊕ Ase in
  let Bi := Abi ⊕ Agi ⊕ Aki ⊕ Ami ⊕ Asi in let Bo := Abo ⊕ Ago ⊕ Ako ⊕ Amo ⊕ Aso in
  let Bu := Abu ⊕ Agu ⊕ Aku ⊕ Amu ⊕ Asu in
  let Da := Bu ⊕ rol 32 Be 1 in let De := Ba ⊕ rol 32 Bi 1 in let Di := Be ⊕ rol 32 Bo 1 in let Do := Bi ⊕ rol 32 Bu 1 in
  let Du := Bo ⊕ rol 32 Ba 1 in
  let Ba := Aba ⊕ Da in let Be := rol 32 (Age ⊕ De) 12 in let Bi := rol 32 (Aki ⊕ Di) 11 in
  let Bo := rol 32 (Amo ⊕ Do) 21 in let Bu := rol 32 (Asu ⊕ Du) 14 in
  let Eba := Ba ⊕ (andnot 32 Be Bi) ⊕ rc in let Ebe := Be ⊕ (andnot 32 Bi Bo) in let Ebi := Bi ⊕ (andnot 32 Bo Bu) in
  let Ebo := Bo ⊕ (andnot 32 Bu Ba) in let Ebu := Bu ⊕ (andnot 32 Ba Be) in
  let Ba := rol 32 (Abo ⊕ Do) 28 in let Be := rol 32 (Agu ⊕ Du) 20 in let Bi := rol 32 (Aka ⊕ Da) 3 in
  let Bo := rol 32 (Ame ⊕ De) 13 in let Bu := rol 32 (Asi ⊕ Di) 29 in
  let Ega := Ba ⊕ (andnot 32 Be Bi) in let Ege := Be ⊕ (andnot 32 Bi Bo) in let Egi := Bi ⊕ (andnot 32 Bo Bu) in
  let Ego := Bo ⊕ (andnot 32 Bu Ba) in let Egu := Bu ⊕ (andnot 32 Ba Be) in
  let Ba := rol 32 (Abe ⊕ De) 1 in let Be := rol 32 (Agi ⊕ Di) 6 in let Bi := rol 32 (Ako ⊕ Do) 25 in
  let Bo := rol 32 (Amu ⊕ Du) 8 in let Bu := rol 32 (Asa ⊕ Da) 18 in
  let Eka := Ba ⊕ (andnot 32 Be Bi) in let Eke := Be ⊕ (andnot 32 Bi Bo) in let Eki := Bi ⊕ (andnot 32 Bo Bu) in
  let Eko := Bo ⊕ (andnot 32 Bu Ba) in let Eku := Bu ⊕ (andnot 32 Ba Be) in
  let Ba := rol 32 (Abu ⊕ Du) 27 in let Be := rol 32 (Aga ⊕ Da) 4 in let Bi := rol 32 (Ake ⊕ De) 10 in
  let Bo := rol 32 (Ami ⊕ Di) 15 in let Bu := rol 32 (Aso ⊕ Do) 24 in
  let Ema := Ba ⊕ (andnot 32 Be Bi) in let Eme := Be ⊕ (andnot 32 Bi Bo) in let Emi := Bi ⊕ (andnot 32 Bo Bu) in
  let Emo := Bo ⊕ (andnot 32 Bu Ba) in let Emu := Bu ⊕ (andnot 32 Ba Be) in
  let Ba := rol 32 (Abi ⊕ Di) 30 in let Be := rol 32 (Ago ⊕ Do) 23 in let Bi := rol 32 (Aku ⊕ Du) 7 in
  let Bo := rol 32 (Ama ⊕ Da) 9 in let Bu := rol 32 (Ase ⊕ De) 2 in
  let Esa := Ba ⊕ (andnot 32 Be Bi) in let Ese := Be ⊕ (andnot 32 Bi Bo) in let Esi := Bi ⊕ (andnot 32 Bo Bu) in
  let Eso := Bo ⊕ (andnot 32 Bu Ba) in let Esu := Bu ⊕ (andnot 32 Ba Be) in
  mkLanes Eba Ebe Ebi Ebo Ebu Ega Ege Egi Ego Egu Eka Eke Eki Eko Eku Ema Eme Emi Emo Emu Esa Ese Esi Eso Esu.

(** One round of [ethash_keccakf1600]. *)
Definition round_1600 (s : lanes) (rc : Z) : lanes :=
  let 'mkLanes Aba Abe Abi Abo Abu Aga Age Agi Ago Agu Aka Ake Aki Ako Aku Ama Ame Ami Amo Amu Asa Ase Asi Aso Asu := s in
  let Ba := Aba ⊕ Aga ⊕ Aka ⊕ Ama ⊕ Asa in let Be := Abe ⊕ Age ⊕ Ake ⊕ Ame ⊕ Ase in
  let Bi := Abi ⊕ Agi ⊕ Aki ⊕ Ami ⊕ Asi in let Bo := Abo ⊕ Ago ⊕ Ako ⊕ Amo ⊕ Aso in
  let Bu := Abu ⊕ Agu ⊕ Aku ⊕ Amu ⊕ Asu in
  let Da := Bu ⊕ rol 64 Be 1 in let De := Ba ⊕ rol 64 Bi 1 in let Di := Be ⊕ rol 64 Bo 1 in let Do := Bi ⊕ rol 64 Bu 1 in
  let Du := Bo ⊕ rol 64 Ba 1 in
  let Ba := Aba ⊕ Da in let Be := rol 64 (Age ⊕ De) 44 in let Bi := rol 64 (Aki ⊕ Di) 43 in
  let Bo := rol 64 (Amo ⊕ Do) 21 in let Bu := rol 64 (Asu ⊕ Du) 14 in
  let Eba := Ba ⊕ (andnot 64 Be Bi) ⊕ rc in let Ebe := Be ⊕ (andnot 64 Bi Bo) in let Ebi := Bi ⊕ (andnot 64 Bo Bu) in
  let Ebo := Bo ⊕ (andnot 64 Bu Ba) in let Ebu := Bu ⊕ (andnot 64 Ba Be) in
  let Ba := rol 64 (Abo ⊕ Do) 28 in let Be := rol 64 (Agu ⊕ Du) 20 in let Bi := rol 64 (Aka ⊕ Da) 3 in
  let Bo := rol 64 (Ame ⊕ De) 45 in let Bu := rol 64 (Asi ⊕ Di) 61 in
  let Ega := Ba ⊕ (andnot 64 Be Bi) in let Ege := Be ⊕ (andnot 64 Bi Bo) in let Egi := Bi ⊕ (andnot 64 Bo Bu) in
  let Ego := Bo ⊕ (andnot 64 Bu Ba) in let Egu := Bu ⊕ (andnot 64 Ba Be) in
  let Ba := rol 64 (Abe ⊕ De) 1 in let Be := rol 64 (Agi ⊕ Di) 6 in let Bi := rol 64 (Ako ⊕ Do) 25 in
  let Bo := rol 64 (Amu ⊕ Du) 8 in let Bu := rol 64 (Asa ⊕ Da) 18 in
  let Eka := Ba ⊕ (andnot 64 Be Bi) in let Eke := Be ⊕ (andnot 64 Bi Bo) in let Eki := Bi ⊕ (andnot 64 Bo Bu) in
  let Eko := Bo ⊕ (andnot 64 Bu Ba) in let Eku := Bu ⊕ (andnot 64 Ba Be) in
  let Ba := rol 64 (Abu ⊕ Du) 27 in let Be := rol 64 (Aga ⊕ Da) 36 in let Bi := rol 64 (Ake ⊕ De) 10 in
  let Bo := rol 64 (Ami ⊕ Di) 15 in let Bu := rol 64 (Aso ⊕ Do) 56 in
  let Ema := Ba ⊕ (andnot 64 Be Bi) in let Eme := Be ⊕ (andnot 64 Bi Bo) in let Emi := Bi ⊕ (andnot 64 Bo Bu) in
  let Emo := Bo ⊕ (andnot 64 Bu Ba) in let Emu := Bu ⊕ (andnot 64 Ba Be) in
  let Ba := rol 64 (Abi ⊕ Di) 62 in let Be := rol 64 (Ago ⊕ Do) 55 in let Bi := rol 64 (Aku ⊕ Du) 39 in
  let Bo := rol 64 (Ama ⊕ Da) 41 in let Bu := rol 64 (Ase ⊕ De) 2 in
  let Esa := Ba ⊕ (andnot 64 Be Bi) in let Ese := Be ⊕ (andnot 64 Bi Bo) in let Esi := Bi ⊕ (andnot 64 Bo Bu) in
  let Eso := Bo ⊕ (andnot 64 Bu Ba) in let Esu := Bu ⊕ (andnot 64 Ba Be) in
  mkLanes Eba Ebe Ebi Ebo Ebu Ega Ege Egi Ego Egu Eka Eke Eki Eko Eku Ema Eme Emi Emo Emu Esa Ese Esi Eso Esu.

(** The loop: two rounds at a time. *)
Fixpoint permute (round : lanes -> Z -> lanes) (round_constants : list Z) (s : lanes) : lanes :=
  match round_constants with
  | rc0 :: rc1 :: rest => permute round rest (round (round s rc0) rc1)
  | _ => s
  end.

Definition round_constants_800 : list Z :=
  [0x00000001; 0x00008082; 0x0000808A; 0x80008000; 0x0000808B; 0x80000001; 0x80008081; 0x00008009;
   0x0000008A; 0x00000088; 0x80008009; 0x8000000A; 0x8000808B; 0x0000008B; 0x00008089; 0x00008003;
   0x00008002; 0x00000080; 0x0000800A; 0x8000000A; 0x80008081; 0x00008080].
Definition round_constants_1600 : list Z :=
  [0x0000000000000001; 0x0000000000008082; 0x800000000000808a; 0x8000000080008000; 0x000000000000808b; 0x0000000080000001;
   0x8000000080008081; 0x8000000000008009; 0x000000000000008a; 0x0000000000000088; 0x0000000080008009; 0x000000008000000a;
   0x000000008000808b; 0x800000000000008b; 0x8000000000008089; 0x8000000000008003; 0x8000000000008002; 0x8000000000000080;
   0x000000000000800a; 0x800000008000000a; 0x8000000080008081; 0x8000000000008080; 0x0000000080000001; 0x8000000080008008].

Definition ethash_keccakf800 (state : list Z) : list Z := store (permute round_800 round_constants_800 (load state)).
Definition ethash_keccakf1600 (state : list Z) : list Z := store (permute round_1600 round_constants_1600 (load state)).

(** ** The hash functions *)

Definition load_le (data : bytes) : Z := ReadLE64 data.

(** [state[i] ^= v] *)
Definition xor_at (i : nat) (v : Z) (state : list Z) : list Z := alter (fun s => s ⊕ v) i state.

(** The words of a whole block, from the word at [i]. *)
Fixpoint absorb_block (n i : nat) (data : bytes) (state : list Z) : list Z :=
  match n with
  | O => state
  | S n => absorb_block n (S i) (drop 8 data) (xor_at i (load_le data) state)
  end.

(** [while (size >= block_size)]; every iteration consumes a block. *)
Fixpoint absorb_blocks (fuel block_size : nat) (data : bytes) (state : list Z) : list Z * bytes :=
  match fuel with
  | O => (state, data)
  | S fuel =>
    if (block_size <=? length data)%nat
    then absorb_blocks fuel block_size (drop block_size data) (ethash_keccakf1600 (absorb_block (block_size / 8) 0 data state))
    else (state, data)
  end.

(** [while (size >= word_size)], with [state_iter] as an index. *)
Fixpoint absorb_words (fuel i : nat) (data : bytes) (state : list Z) : list Z * nat * bytes :=
  match fuel with
  | O => (state, i, data)
  | S fuel =>
    if (8 <=? length data)%nat then absorb_words fuel (S i) (drop 8 data) (xor_at i (load_le data) state)
    else (state, i, data)
  end.

(** The words of the result. *)
Definition keccak (bits : nat) (data : bytes) : list Z :=
  let hash_size := (bits / 8)%nat in
  let block_size := ((1600 - bits * 2) / 8)%nat in
  let '(state, data) := absorb_blocks (length data) block_size data (replicate 25 0) in
  let '(state, state_iter, data) := absorb_words (length data) 0 data state in
  let last_word := le_combine (data ++ [0x01]) in
  let state := xor_at state_iter last_word state in
  let state := xor_at (block_size / 8 - 1) 0x8000000000000000 state in
  take (hash_size / 8) (ethash_keccakf1600 state).

(** The bytes of the [union]s. *)
Definition keccak256 (data : bytes) : bytes := concat (WriteLE64 <$> keccak 256 data).
Definition keccak512 (data : bytes) : bytes := concat (WriteLE64 <$> keccak 512 data).

(** ** Specification *)

Section Reference.
(** The width of a lane and the number of rounds. *)
Context (w : Z).

(** Rotation, as multiplication by a power of two modulo [2 ^ w - 1]. *)
Definition rot (x s : Z) : Z := x * 2 ^ s mod 2 ^ w + x / 2 ^ (w - s).

(** Coordinates modulo five; the lane at [(x, y)] is at [x + 5 * y]. *)
Definition lane (a : list Z) (x y : nat) : Z := nth (x mod 5 + 5 * (y mod 5)) a 0.
Definition tabulate (f : nat -> nat -> Z) : list Z := flat_map (fun y => (fun x => f x y) <$> seq 0 5) (seq 0 5).

Definition theta (a : list Z) : list Z :=
  let c x := foldl Z.lxor (lane a x 0) (lane a x <$> [1; 2; 3; 4]%nat) in
  let d x := c (x + 4)%nat ⊕ rot (c (x + 1)%nat) 1 in
  tabulate (fun x y => lane a x y ⊕ d x).

(** The offsets: [(t + 1) (t + 2) / 2] along the orbit of [(1, 0)]. *)
Fixpoint offset_walk (n t x y : nat) (px py : nat) : Z :=
  match n with
  | O => 0
  | S n =>
    if ((px =? x) && (py =? y))%nat then Z.of_nat ((t + 1) * (t + 2) / 2) mod w
    else offset_walk n (S t) x y py ((2 * px + 3 * py) mod 5)
  end.
Definition offset (x y : nat) : Z := offset_walk 24 0 x y 1 0.
Definition rho (a : list Z) : list Z := tabulate (fun x y => rot (lane a x y) (offset x y)).

(** The lane at [(x, y)] moves to [(y, 2 x + 3 y)], that is, [(x, y)] comes from [(x + 3 y, x)]. *)
Definition pi (a : list Z) : list Z := tabulate (fun x y => lane a (x + 3 * y) x).

Definition chi (a : list Z) : list Z :=
  tabulate (fun x y => lane a x y ⊕ Z.ldiff (lane a (x + 2) y) (lane a (x + 1) y)).

(** Bit [2 ^ j - 1] of the constant of round [ir] is bit [j + 7 ir] of the stream of the
    linear feedback shift register with polynomial [x^8 + x^6 + x^5 + x^4 + 1]. *)
Definition lfsr (r : Z) : Z := let r := 2 * r in if Z.testbit r 8 then r ⊕ 0x171 else r.
Definition lfsr_bit (t : nat) : Z := Z.land (Nat.iter (t mod 255) lfsr 1) 1.
Definition round_constant (ir : nat) : Z :=
  foldl (fun acc j => acc + lfsr_bit (j + 7 * ir) * 2 ^ (2 ^ Z.of_nat j - 1)) 0 (seq 0 (S (Z.to_nat (Z.log2 w)))).
Definition iota (rc : Z) (a : list Z) : list Z := tabulate (fun x y => if ((x =? 0) && (y =? 0))%nat then lane a x y ⊕ rc else lane a x y).

Definition keccak_round (a : list Z) (ir : nat) : list Z := iota (round_constant ir) (chi (pi (rho (theta a)))).

(** Keccak-f with [12 + 2 log2 w] rounds. *)
Definition keccak_f (a : list Z) : list Z := foldl keccak_round a (seq 0 (12 + 2 * Z.to_nat (Z.log2 w))).
End Reference.

(** The sponge: the message, a one bit, zeroes and a final one bit, up to a multiple of
    the rate [8 * q] bytes; absorbed block by block from the zero state. *)
Section Sponge.
Context (q : nat).

Definition pad (m : bytes) : bytes :=
  let k := (8 * q - length m mod (8 * q))%nat in
  let p := m ++ 0x01 :: replicate (k - 1) 0 in
  alter (Z.lor 0x80) (length p - 1)%nat p.

Fixpoint blocks (n : nat) (p : bytes) : list bytes :=
  match n with O => [] | S n => take (8 * q) p :: blocks n (drop (8 * q) p) end.
Definition block_words (b : bytes) : list Z := (fun i => le_combine (take 8 (drop (8 * i) b))) <$> seq 0 q.
Definition absorb (state : list Z) (b : bytes) : list Z :=
  keccak_f 64 (zip_with Z.lxor state (block_words b ++ replicate (25 - q) 0)).
Definition sponge (n : nat) (m : bytes) : list Z :=
  take n (foldl absorb (replicate 25 0) (blocks (length (pad m) / (8 * q))%nat (pad m))).
End Sponge.

(** ** Words in range *)

Definition in_word (w x : Z) : Prop := 0 <= x < 2 ^ w.

Section Words.
Context (w : Z) (Hw : 0 <= w).
Local Abbreviation word := (in_word w).

Lemma in_word_bits x : word x <-> 0 <= x /\ forall i, w <= i -> Z.testbit x i = false.
Proof.
  unfold in_word. split.
  - intros [H0 H]. split; [done|]. intros i Hi. rewrite <- (Z.mod_small x (2 ^ w)) by lia. apply Z.mod_pow2_bits_high. lia.
  - intros [H0 H]. split; [done|]. destruct (Z.eq_dec x 0) as [->|Hx]; [lia|].
    apply Z.log2_lt_pow2; [lia|]. destruct (Z.lt_ge_cases (Z.log2 x) w) as [|Hge]; [done|].
    specialize (H _ Hge). rewrite Z.bit_log2 in H by lia. done.
Qed.

Lemma xor_word x y : word x -> word y -> word (x ⊕ y).
Proof.
  rewrite !in_word_bits. intros [Hx Bx] [Hy By]. split; [by apply Z.lxor_nonneg|].
  intros i Hi. by rewrite Z.lxor_spec, Bx, By.
Qed.
Lemma ldiff_word x y : word x -> word (Z.ldiff x y).
Proof.
  rewrite !in_word_bits. intros [Hx Bx]. split; [apply Z.ldiff_nonneg; by left|].
  intros i Hi. by rewrite Z.ldiff_spec, Bx.
Qed.

Lemma rot_word x s : word x -> 0 <= s <= w -> word (rot w x s).
Proof.
  unfold in_word, rot. intros Hx Hs.
  assert (2 ^ w = 2 ^ (w - s) * 2 ^ s) as E by (rewrite <- Z.pow_add_r by lia; f_equal; lia).
  assert (0 < 2 ^ s /\ 0 < 2 ^ (w - s)) as [P1 P2] by (split; apply Z.pow_pos_nonneg; lia).
  rewrite E, Z.mul_mod_distr_r by lia.
  assert (x / 2 ^ (w - s) < 2 ^ s) by (apply Z.div_lt_upper_bound; lia).
  pose proof (Z.div_pos x (2 ^ (w - s)) ltac:(lia) P2). pose proof (Z.mod_pos_bound x (2 ^ (w - s)) P2). nia.
Qed.

(** The two halves of a rotation do not overlap. *)
Lemma rol_rot x s : word x -> 0 <= s <= w -> rol w x s = rot w x s.
Proof.
  unfold in_word, rol, rot. intros Hx Hs. rewrite Z.shiftl_mul_pow2, Z.shiftr_div_pow2 by lia.
  assert (Z.land (x * 2 ^ s mod 2 ^ w) (x / 2 ^ (w - s)) = 0) as D.
  { apply Z.bits_inj'. intros i Hi. rewrite Z.land_spec, Z.bits_0.
    destruct (Z.lt_ge_cases i s).
    - rewrite Z.mod_pow2_bits_low, Z.mul_pow2_bits_low by lia. done.
    - rewrite Z.div_pow2_bits by lia. apply andb_false_intro2.
      rewrite <- (Z.mod_small x (2 ^ w)) by lia. apply Z.mod_pow2_bits_high. lia. }
  by rewrite <- Z.lxor_lor, <- Z.add_nocarry_lxor.
Qed.

Lemma andnot_ldiff x y : word y -> andnot w x y = Z.ldiff y x.
Proof.
  rewrite in_word_bits. unfold andnot. intros [_ By]. apply Z.bits_inj'. intros i Hi. rewrite Z.land_spec, Z.ldiff_spec.
  destruct (Z.lt_ge_cases i w).
  - rewrite Z.mod_pow2_bits_low, Z.lnot_spec by lia. by rewrite andb_comm.
  - by rewrite By, andb_false_r.
Qed.
End Words.

(** ** The rounds *)

Section Round.
Context (w : Z) (Hw : 8 <= w).
Local Abbreviation words := (Forall (in_word w)).

Lemma zero_word : in_word w 0.
Proof. unfold in_word. pose proof (Z.pow_pos_nonneg 2 w). lia. Qed.

Lemma lane_word a x y : words a -> in_word w (lane a x y).
Proof.
  intros Ha. unfold lane. destruct (nth_in_or_default (x mod 5 + 5 * (y mod 5)) a 0) as [Hin| ->]; [|apply zero_word].
  rewrite Forall_forall in Ha. apply Ha. by apply list_elem_of_In.
Qed.

Lemma tabulate_ext f g : (forall x y, (x < 5)%nat -> (y < 5)%nat -> f x y = g x y) -> tabulate f = tabulate g.
Proof. intros H. unfold tabulate. cbn. rewrite !H by lia. done. Qed.
Lemma tabulate_words f : (forall x y, in_word w (f x y)) -> words (tabulate f).
Proof. intros H. unfold tabulate. cbn. repeat constructor; apply H. Qed.

Lemma offset_walk_range n : forall t x y px py, 0 <= offset_walk w n t x y px py <= w.
Proof.
  induction n as [|n IH]; intros t x y px py; cbn [offset_walk]; [lia|]. destruct (_ && _); [|apply IH].
  pose proof (Z.mod_pos_bound (Z.of_nat ((t + 1) * (t + 2) / 2)) w). lia.
Qed.

(** The column parities. *)
Lemma parity_word a x : words a -> in_word w (foldl Z.lxor (lane a x 0) (lane a x <$> [1; 2; 3; 4]%nat)).
Proof. intros Ha. cbn. repeat apply xor_word; try lia; by apply lane_word. Qed.

(** The steps with the operations of the code. *)
Definition theta_c (a : list Z) : list Z :=
  let c x := foldl Z.lxor (lane a x 0) (lane a x <$> [1; 2; 3; 4]%nat) in
  let d x := c (x + 4)%nat ⊕ rol w (c (x + 1)%nat) 1 in
  tabulate (fun x y => lane a x y ⊕ d x).
Definition rho_c (a : list Z) : list Z :=
  tabulate (fun x y => if offset w x y =? 0 then lane a x y else rol w (lane a x y) (offset w x y)).
Definition chi_c (a : list Z) : list Z :=
  tabulate (fun x y => lane a x y ⊕ andnot w (lane a (x + 1) y) (lane a (x + 2) y)).

Lemma theta_code a : words a -> theta w a = theta_c a.
Proof. intros Ha. apply tabulate_ext. intros. cbn zeta. rewrite rol_rot; [done|lia| |lia]. by apply parity_word. Qed.
Lemma rho_code a : words a -> rho w a = rho_c a.
Proof.
  intros Ha. apply tabulate_ext. intros. pose proof (lane_word a x y Ha) as Hl.
  destruct (Z.eqb_spec (offset w x y) 0) as [-> |].
  - unfold rot. unfold in_word in Hl. rewrite Z.sub_0_r, Z.mul_1_r, Z.mod_small, Z.div_small by lia. lia.
  - rewrite rol_rot; [done|lia|done|]. apply offset_walk_range.
Qed.
Lemma chi_code a : words a -> chi a = chi_c a.
Proof. intros Ha. apply tabulate_ext. intros. rewrite andnot_ldiff; [done|lia|]. by apply lane_word. Qed.

Lemma theta_words a : words a -> words (theta w a).
Proof.
  intros Ha. apply tabulate_words. intros. cbn zeta.
  apply xor_word; [lia|by apply lane_word|]. apply xor_word; [lia|by apply parity_word|].
  apply rot_word; [lia|by apply parity_word|lia].
Qed.
Lemma rho_words a : words a -> words (rho w a).
Proof. intros Ha. apply tabulate_words. intros. apply rot_word; [lia|by apply lane_word|apply offset_walk_range]. Qed.
Lemma pi_words a : words a -> words (pi a).
Proof. intros Ha. apply tabulate_words. intros. by apply lane_word. Qed.
Lemma chi_words a : words a -> words (chi a).
Proof.
  intros Ha. apply tabulate_words. intros. apply xor_word; [lia|by apply lane_word|]. apply ldiff_word; [lia|by apply lane_word].
Qed.
Lemma iota_words rc a : in_word w rc -> words a -> words (iota rc a).
Proof.
  intros Hrc Ha. apply tabulate_words. intros. destruct (_ && _); [apply xor_word; [lia| |done]|]; by apply lane_word.
Qed.

Lemma round_code a ir : words a ->
  keccak_round w a ir = iota (round_constant w ir) (chi_c (pi (rho_c (theta_c a)))).
Proof.
  intros Ha. unfold keccak_round. rewrite <- theta_code, <- rho_code, <- chi_code; auto using theta_words, rho_words, pi_words.
Qed.
Lemma round_words a ir : in_word w (round_constant w ir) -> words a -> words (keccak_round w a ir).
Proof. intros Hrc Ha. apply iota_words; [done|]. auto using chi_words, pi_words, rho_words, theta_words. Qed.
End Round.

(** The unrolled rounds are the rounds of the specification. *)
Lemma list_25 {A} (l : list A) : length l = 25%nat ->
  exists a0 a1 a2 a3 a4 a5 a6 a7 a8 a9 a10 a11 a12 a13 a14 a15 a16 a17 a18 a19 a20 a21 a22 a23 a24,
    l = [a0; a1; a2; a3; a4; a5; a6; a7; a8; a9; a10; a11; a12; a13; a14; a15; a16; a17; a18; a19; a20; a21; a22; a23; a24].
Proof. intros H. do 25 (destruct l as [|? l]; [discriminate H|]). destruct l; [|discriminate H]. repeat eexists. Qed.

Lemma load_store s : load (store s) = s.
Proof. by destruct s. Qed.

Ltac round_by_computation s :=
  destruct s; cbv -[Z.lxor rol andnot round_constant]; reflexivity.

Lemma round_800_spec s ir : Forall (in_word 32) (store s) ->
  store (round_800 s (round_constant 32 ir)) = keccak_round 32 (store s) ir.
Proof. intros Hs. rewrite round_code by done. clear Hs. round_by_computation s. Qed.
Lemma round_1600_spec s ir : Forall (in_word 64) (store s) ->
  store (round_1600 s (round_constant 64 ir)) = keccak_round 64 (store s) ir.
Proof. intros Hs. rewrite round_code by done. clear Hs. round_by_computation s. Qed.

Section Permutation.
Context (w : Z) (Hw : 8 <= w) (round : lanes -> Z -> lanes).
Context (Hround : forall s ir, Forall (in_word w) (store s) ->
  store (round s (round_constant w ir)) = keccak_round w (store s) ir).

Lemma permute_spec n : forall k s, Forall (fun ir => in_word w (round_constant w ir)) (seq k (2 * n)) ->
  Forall (in_word w) (store s) ->
  store (permute round (round_constant w <$> seq k (2 * n)) s) = foldl (keccak_round w) (store s) (seq k (2 * n)).
Proof.
  induction n as [|n IH]; intros k s Hk Hs; [done|].
  replace (2 * S n)%nat with (S (S (2 * n))) in * by lia. cbn [seq fmap list_fmap permute foldl] in *.
  apply Forall_cons in Hk as [K0 Hk]. apply Forall_cons in Hk as [K1 Hk].
  assert (Forall (in_word w) (store (round s (round_constant w k)))) as H1 by (rewrite Hround by done; by apply round_words).
  rewrite IH; [by rewrite !Hround by (try done; rewrite <- Hround; done)|done|rewrite Hround by done; by apply round_words].
Qed.
End Permutation.

Lemma keccak_f_words w a : 8 <= w ->
  Forall (fun ir => in_word w (round_constant w ir)) (seq 0 (12 + 2 * Z.to_nat (Z.log2 w))) ->
  Forall (in_word w) a -> length a = 25%nat -> Forall (in_word w) (keccak_f w a) /\ length (keccak_f w a) = 25%nat.
Proof.
  unfold keccak_f. generalize (seq 0 (12 + 2 * Z.to_nat (Z.log2 w))). intros l Hw Hl. revert a.
  induction Hl as [|ir l Hir Hl IH]; intros a Ha Hn; [done|]. cbn [foldl]. apply IH; [by apply round_words|done].
Qed.

Lemma constants_32 : Forall (fun ir => in_word 32 (round_constant 32 ir)) (seq 0 22).
Proof. repeat constructor; vm_compute; done. Qed.
Lemma constants_64 : Forall (fun ir => in_word 64 (round_constant 64 ir)) (seq 0 24).
Proof. repeat constructor; vm_compute; done. Qed.

Lemma store_load state : length state = 25%nat -> store (load state) = state.
Proof. intros H. do 25 (destruct state as [|? state]; [discriminate H|]). destruct state; [done|discriminate H]. Qed.

Lemma keccakf800_spec state : length state = 25%nat -> Forall is_u32 state -> ethash_keccakf800 state = keccak_f 32 state.
Proof.
  intros Hn Hs. unfold ethash_keccakf800, keccak_f.
  replace round_constants_800 with (round_constant 32 <$> seq 0 (2 * 11)) by (vm_compute; reflexivity).
  rewrite (permute_spec 32); [by rewrite store_load|lia|apply round_800_spec|apply constants_32|by rewrite store_load].
Qed.
Lemma keccakf1600_spec state : length state = 25%nat -> Forall is_u64 state -> ethash_keccakf1600 state = keccak_f 64 state.
Proof.
  intros Hn Hs. unfold ethash_keccakf1600, keccak_f.
  replace round_constants_1600 with (round_constant 64 <$> seq 0 (2 * 12)) by (vm_compute; reflexivity).
  rewrite (permute_spec 64); [by rewrite store_load|lia|apply round_1600_spec|apply constants_64|by rewrite store_load].
Qed.
Lemma keccak_f_64 a : Forall is_u64 a -> length a = 25%nat -> Forall is_u64 (keccak_f 64 a) /\ length (keccak_f 64 a) = 25%nat.
Proof. apply (keccak_f_words 64); [lia|apply constants_64]. Qed.
Lemma keccak_f_32 a : Forall is_u32 a -> length a = 25%nat -> Forall is_u32 (keccak_f 32 a) /\ length (keccak_f 32 a) = 25%nat.
Proof. apply (keccak_f_words 32); [lia|apply constants_32]. Qed.

(** ** The sponge *)

Lemma xor_at_lookup i v st j : xor_at i v st !! j = (fun s => if decide (i = j) then s ⊕ v else s) <$> st !! j.
Proof.
  unfold xor_at. destruct (decide (i = j)) as [<-|Hne].
  - by rewrite list_lookup_alter_eq.
  - rewrite list_lookup_alter_ne by done. by destruct (st !! j).
Qed.
Lemma absorb_block_lookup n : forall i data st j,
  absorb_block n i data st !! j
  = (fun s => if decide (i <= j < i + n)%nat then s ⊕ load_le (drop (8 * (j - i)) data) else s) <$> st !! j.
Proof.
  induction n as [|n IH]; intros i data st j; cbn [absorb_block].
  { destruct (st !! j); [cbn|done]. rewrite decide_False by lia. done. }
  rewrite IH, xor_at_lookup. destruct (st !! j) as [s|]; [|done]. cbn [fmap option_fmap option_map]. f_equal.
  destruct (decide (i = j)) as [<-|Hne].
  - rewrite decide_False, decide_True by lia. by rewrite Nat.sub_diag, Nat.mul_0_r, drop_0.
  - destruct (decide (S i <= j < S i + n)%nat).
    + rewrite decide_True by lia. rewrite drop_drop. repeat f_equal. lia.
    + by rewrite decide_False by lia.
Qed.
Lemma absorb_block_length n : forall i data st, length (absorb_block n i data st) = length st.
Proof. induction n as [|n IH]; intros; cbn [absorb_block]; [done|]. by rewrite IH; unfold xor_at; rewrite length_alter. Qed.

Lemma div_step n r : (0 < r <= n)%nat -> (n / r = S ((n - r) / r))%nat.
Proof. intros H. replace n with (n - r + 1 * r)%nat at 1 by lia. rewrite Nat.div_add by lia. lia. Qed.

Lemma absorb_words_spec fuel : forall i data st, (length data <= fuel)%nat ->
  absorb_words fuel i data st
  = (absorb_block (length data / 8) i data st, (i + length data / 8)%nat, drop (8 * (length data / 8)) data).
Proof.
  induction fuel as [|fuel IH]; intros i data st Hf; cbn [absorb_words].
  { assert (length data = 0%nat) as E by lia. apply nil_length_inv in E as ->. cbn. by rewrite Nat.add_0_r. }
  destruct (Nat.leb_spec 8 (length data)) as [Hle|Hlt].
  - rewrite IH by (rewrite length_drop; lia). rewrite length_drop.
    rewrite (div_step (length data) 8) by lia.
    rewrite drop_drop. cbn [absorb_block]. f_equal; f_equal; lia.
  - rewrite Nat.div_small by lia. by rewrite Nat.mul_0_r, drop_0, Nat.add_0_r.
Qed.

Section SpongeProofs.
Context (q : nat) (Hq : (0 < q < 25)%nat).

Lemma block_words_lookup b j : (j < q)%nat -> block_words q b !! j = Some (le_combine (take 8 (drop (8 * j) b))).
Proof. intros H. unfold block_words. rewrite list_lookup_fmap, lookup_seq_lt by done. done. Qed.
Lemma block_words_length b : length (block_words q b) = q.
Proof. unfold block_words. by rewrite length_fmap, length_seq. Qed.

Lemma xor_lookup (st ws : list Z) j : length st = 25%nat -> length ws = q ->
  zip_with Z.lxor st (ws ++ replicate (25 - q) 0) !! j
  = (fun s => if decide (j < q)%nat then s ⊕ default 0 (ws !! j) else s) <$> st !! j.
Proof.
  intros Hs Hws. rewrite lookup_zip_with. destruct (st !! j) as [s|] eqn:E; [|done]. cbn.
  pose proof (lookup_lt_Some _ _ _ E). destruct (decide (j < q)%nat).
  - rewrite lookup_app_l by lia. destruct (lookup_lt_is_Some_2 ws j ltac:(lia)) as [x ->]. done.
  - rewrite lookup_app_r by lia. rewrite lookup_replicate_2 by lia. cbn. by rewrite Z.lxor_0_r.
Qed.
Lemma xor_words_ok (st ws : list Z) : length st = 25%nat -> length ws = q -> Forall is_u64 st -> Forall is_u64 ws ->
  length (zip_with Z.lxor st (ws ++ replicate (25 - q) 0)) = 25%nat
  /\ Forall is_u64 (zip_with Z.lxor st (ws ++ replicate (25 - q) 0)).
Proof.
  intros Hs Hws Fs Fw. split; [rewrite length_zip_with, length_app, length_replicate; lia|].
  apply Forall_lookup_2. intros j x. rewrite xor_lookup by done. destruct (st !! j) as [s|] eqn:E; [|done]. cbn. intros [= <-].
  pose proof (Forall_lookup_1 _ _ _ _ Fs E) as H. destruct (decide _); [|done].
  apply (xor_word 64); [lia|done|]. destruct (lookup_lt_is_Some_2 ws j ltac:(lia)) as [y Ey]. rewrite Ey. cbn.
  exact (Forall_lookup_1 _ _ _ _ Fw Ey).
Qed.
Lemma block_words_u64 b : is_bytes b -> Forall is_u64 (block_words q b).
Proof.
  intros Hb. unfold block_words. apply Forall_fmap, Forall_forall. intros i _. cbn.
  assert (is_bytes (take 8 (drop (8 * i) b))) as H by (by apply Forall_take, Forall_drop).
  apply le_combine_range in H. rewrite length_take in H. destruct H as [H0 H1]. split; [done|]. eapply Z.lt_le_trans; [done|].
  apply Z.pow_le_mono_r; lia.
Qed.

(** The loop over the words of a block. *)
Lemma absorb_block_spec data st : length st = 25%nat ->
  absorb_block q 0 data st = zip_with Z.lxor st (block_words q data ++ replicate (25 - q) 0).
Proof.
  intros Hs. apply list_eq. intros j. rewrite absorb_block_lookup, xor_lookup by (done || apply block_words_length).
  destruct (st !! j); [cbn|done]. f_equal. destruct (decide (j < q)%nat).
  - rewrite decide_True by lia. by rewrite block_words_lookup, Nat.sub_0_r.
  - by rewrite decide_False by lia.
Qed.

Lemma block_words_take b : block_words q (take (8 * q) b) = block_words q b.
Proof.
  unfold block_words. apply list_fmap_ext. intros i x Hx. apply lookup_seq in Hx as [-> Hi].
  f_equal. rewrite skipn_firstn_comm, take_take. f_equal. lia.
Qed.

Lemma absorb_ok st b : length st = 25%nat -> Forall is_u64 st -> is_bytes b ->
  Forall is_u64 (absorb q st b) /\ length (absorb q st b) = 25%nat.
Proof.
  intros Hs Fs Hb. unfold absorb. destruct (xor_words_ok st (block_words q b) Hs (block_words_length b) Fs (block_words_u64 b Hb)).
  by apply keccak_f_64.
Qed.

Lemma absorb_blocks_spec fuel : forall data st, (length data <= fuel)%nat -> length st = 25%nat -> Forall is_u64 st -> is_bytes data ->
  absorb_blocks fuel (8 * q) data st
  = (foldl (absorb q) st (blocks q (length data / (8 * q)) data), drop (8 * q * (length data / (8 * q))) data).
Proof.
  induction fuel as [|fuel IH]; intros data st Hf Hs Fs Hb; cbn [absorb_blocks].
  { assert (length data = 0%nat) as E by lia. apply nil_length_inv in E as ->. cbn [length]. rewrite Nat.Div0.div_0_l. by rewrite drop_nil. }
  destruct (Nat.leb_spec (8 * q) (length data)) as [Hle|Hlt].
  - rewrite (Nat.mul_comm 8 q), Nat.div_mul, (Nat.mul_comm q 8), absorb_block_spec by (done || lia).
    destruct (xor_words_ok st (block_words q data) Hs (block_words_length data) Fs (block_words_u64 data Hb)) as [L F].
    rewrite keccakf1600_spec by done. destruct (keccak_f_64 _ F L) as [F' L'].
    rewrite IH; [|rewrite length_drop; lia|done|done|by apply Forall_drop]. rewrite length_drop.
    rewrite (div_step (length data) (8 * q)) by lia.
    cbn [blocks foldl]. rewrite drop_drop. unfold absorb at 3. rewrite block_words_take. f_equal. f_equal. lia.
  - rewrite Nat.div_small by lia. by rewrite Nat.mul_0_r, drop_0.
Qed.

(** *** The last block *)

Lemma le_combine_zeros b k : le_combine (b ++ replicate k 0) = le_combine b.
Proof.
  rewrite le_combine_app. replace (le_combine (replicate k 0)) with 0; [lia|]. induction k; cbn; lia.
Qed.

(** The message of less than a block with its first padding bit. *)
Definition padded1 (t : bytes) : bytes := t ++ 0x01 :: replicate (8 * q - length t - 1) 0.

Lemma padded1_length t : (length t < 8 * q)%nat -> length (padded1 t) = (8 * q)%nat.
Proof. intros H. unfold padded1. rewrite length_app. cbn [length]. rewrite length_replicate. lia. Qed.
Lemma padded1_last t : (length t < 8 * q)%nat -> exists x, padded1 t !! (8 * q - 1)%nat = Some x /\ 0 <= x < 128.
Proof.
  intros H. unfold padded1. rewrite lookup_app_r by lia. destruct (8 * q - 1 - length t)%nat as [|k] eqn:E.
  - exists 1. split; [done|lia].
  - exists 0. split; [|lia]. cbn. rewrite lookup_replicate. split; [done|lia].
Qed.

Lemma padded1_word t j : (length t < 8 * q)%nat -> (j < q)%nat ->
  le_combine (take 8 (drop (8 * j) (padded1 t)))
  = if decide (j < length t / 8)%nat then load_le (drop (8 * j) t)
    else if decide (j = length t / 8)%nat then le_combine (drop (8 * (length t / 8)) t ++ [0x01]) else 0.
Proof.
  intros H Hj. pose proof (Nat.div_mod_eq (length t) 8). pose proof (Nat.mod_upper_bound (length t) 8).
  set (m := (length t / 8)%nat) in *. unfold padded1, load_le, ReadLE64. destruct (decide (j < m)%nat).
  { rewrite drop_app_le, take_app_le by (rewrite ?length_drop; lia). done. }
  destruct (decide (j = m)) as [->|].
  - rewrite drop_app_le by lia. rewrite cons_middle, app_assoc, take_app_ge by (rewrite length_app, length_drop; cbn [length]; lia).
    rewrite take_replicate. apply le_combine_zeros.
  - rewrite drop_app_ge by lia. destruct (8 * j - length t)%nat as [|k] eqn:E; [lia|]. cbn [drop].
    rewrite drop_replicate, take_replicate. apply (le_combine_zeros []).
Qed.

Lemma lor_top b : is_bytes b -> length b = 8%nat -> (forall x, b !! 7%nat = Some x -> x < 128) ->
  le_combine (alter (Z.lor 0x80) 7%nat b) = le_combine b ⊕ 0x8000000000000000.
Proof.
  intros Hb Hl Hx. assert (exists b' x, b = b' ++ [x] /\ length b' = 7%nat) as (b' & x & -> & Hl').
  { destruct b as [|x b _] using rev_ind; [discriminate Hl|]. exists b, x. split; [done|]. rewrite length_app in Hl. cbn in Hl. lia. }
  rewrite lookup_app_r in Hx by lia. rewrite Hl' in Hx. specialize (Hx x eq_refl).
  apply Forall_app in Hb as [Hb' Hb]. apply Forall_inv in Hb. unfold is_u8 in Hb.
  replace 7%nat with (length b' + 0)%nat by lia. rewrite alter_app_r. cbn [alter list_alter].
  pose proof (le_combine_range b' Hb') as R. rewrite !le_combine_app, Hl' in *. cbn [le_combine]. cbn in R.
  assert (Z.land 128 x = 0) as D.
  { apply Z.bits_inj'. intros i Hi. rewrite Z.land_spec, Z.bits_0. change 128 with (2 ^ 7). rewrite Z.pow2_bits_eqb by lia.
    destruct (Z.eqb_spec 7 i) as [<-|]; [|done]. rewrite andb_true_l, <- (Z.mod_small x (2 ^ 7)) by lia. apply Z.mod_pow2_bits_high. lia. }
  rewrite <- Z.lxor_lor, <- Z.add_nocarry_lxor by done.
  rewrite <- Z.add_nocarry_lxor; [change (8 * Z.of_nat 7) with 56; lia|].
  set (y := le_combine b' + _). assert (0 <= y < 2 ^ 63) as Y by (subst y; change (8 * Z.of_nat 7) with 56; lia).
  apply Z.bits_inj'. intros i Hi. rewrite Z.land_spec, Z.bits_0. change 0x8000000000000000 with (2 ^ 63). rewrite Z.pow2_bits_eqb by lia.
  destruct (Z.eqb_spec 63 i) as [<-|]; [|by rewrite andb_false_r]. rewrite <- (Z.mod_small y (2 ^ 63)) by lia. rewrite Z.mod_pow2_bits_high by lia. done.
Qed.

Lemma pad_short t : (length t < 8 * q)%nat -> pad q t = alter (Z.lor 0x80) (8 * q - 1)%nat (padded1 t).
Proof.
  intros H. unfold pad. rewrite Nat.mod_small by done. fold (padded1 t). by rewrite padded1_length.
Qed.

Lemma padded1_bytes t : is_bytes t -> is_bytes (padded1 t).
Proof.
  intros H. apply Forall_app. split; [done|]. constructor; [unfold is_u8; lia|]. apply Forall_replicate. unfold is_u8. lia.
Qed.

Lemma pad_word t j : is_bytes t -> (length t < 8 * q)%nat -> (j < q)%nat ->
  le_combine (take 8 (drop (8 * j) (pad q t)))
  = if decide (j = q - 1)%nat then le_combine (take 8 (drop (8 * j) (padded1 t))) ⊕ 0x8000000000000000
    else le_combine (take 8 (drop (8 * j) (padded1 t))).
Proof.
  intros Hb H Hj. rewrite pad_short by done. pose proof (padded1_length t H) as L. destruct (padded1_last t H) as (x & Ex & Rx).
  rewrite <- (take_drop (8 * (q - 1)) (padded1 t)) at 1.
  assert (length (take (8 * (q - 1)) (padded1 t)) = (8 * (q - 1))%nat) as LA by (rewrite length_take; lia).
  replace (8 * q - 1)%nat with (length (take (8 * (q - 1)) (padded1 t)) + 7)%nat by lia. rewrite alter_app_r.
  destruct (decide (j = q - 1)%nat) as [->|].
  - rewrite drop_app_ge, LA, Nat.sub_diag, drop_0 by lia. rewrite take_ge by (rewrite length_alter, length_drop; lia).
    rewrite (take_ge (drop _ (padded1 t))) by (rewrite length_drop; lia). apply lor_top.
    + by apply Forall_drop, padded1_bytes.
    + rewrite length_drop. lia.
    + intros y. rewrite lookup_drop. replace (8 * (q - 1) + 7)%nat with (8 * q - 1)%nat by lia. rewrite Ex. intros [= <-]. lia.
  - rewrite drop_app_le, take_app_le by (rewrite ?length_drop; lia). rewrite skipn_firstn_comm, take_take. do 2 f_equal. lia.
Qed.

Lemma last_block_spec t st : is_bytes t -> (length t < 8 * q)%nat -> length st = 25%nat ->
  xor_at (q - 1) 0x8000000000000000
    (xor_at (length t / 8) (le_combine (drop (8 * (length t / 8)) t ++ [0x01])) (absorb_block (length t / 8) 0 t st))
  = zip_with Z.lxor st (block_words q (pad q t) ++ replicate (25 - q) 0).
Proof.
  intros Hb H Hs. assert (length t / 8 < q)%nat by (apply Nat.Div0.div_lt_upper_bound; lia).
  apply list_eq. intros j. rewrite !xor_at_lookup, absorb_block_lookup, xor_lookup by (done || apply block_words_length).
  destruct (st !! j) as [s|]; [|done]. cbn [fmap option_fmap option_map]. f_equal. rewrite Nat.sub_0_r. destruct (decide (j < q)%nat) as [Hj|].
  2: { destruct (decide (q - 1 = j)%nat); [lia|]. destruct (decide (length t / 8 = j)%nat); [lia|]. by rewrite decide_False by lia. }
  rewrite block_words_lookup by done. cbn [default]. rewrite pad_word, padded1_word by done.
  destruct (decide (q - 1 = j)%nat) as [<-|]; [rewrite (decide_True (P := (q - 1 = q - 1)%nat)) by done|rewrite (decide_False (P := (j = q - 1)%nat)) by lia].
  - destruct (decide (q - 1 < length t / 8)%nat); [lia|]. rewrite (decide_False (P := (0 <= q - 1 < 0 + length t / 8)%nat)) by lia.
    destruct (decide (length t / 8 = q - 1)%nat) as [E|].
    + rewrite (decide_True (P := (q - 1 = length t / 8)%nat)) by lia. apply Z.lxor_assoc.
    + rewrite (decide_False (P := (q - 1 = length t / 8)%nat)) by lia. done.
  - destruct (decide (j < length t / 8)%nat).
    + rewrite decide_False, decide_True by lia. done.
    + rewrite (decide_False (P := (0 <= j < 0 + length t / 8)%nat)) by lia. destruct (decide (length t / 8 = j)%nat) as [E|].
      * rewrite (decide_True (P := (j = length t / 8)%nat)) by lia. done.
      * rewrite (decide_False (P := (j = length t / 8)%nat)) by lia. by rewrite Z.lxor_0_r.
Qed.

Lemma blocks_app n : forall p t, length p = (8 * q * n)%nat -> length t = (8 * q)%nat ->
  blocks q (S n) (p ++ t) = blocks q n p ++ [t].
Proof.
  induction n as [|n IH]; intros p t Hp Ht; cbn [blocks].
  - rewrite Nat.mul_0_r in Hp. apply nil_length_inv in Hp as ->. cbn [app]. by rewrite take_ge by lia.
  - rewrite take_app_le, drop_app_le by lia. cbn [app]. f_equal. apply IH; [rewrite length_drop; lia|done].
Qed.
Lemma blocks_take n : forall p, blocks q n (take (8 * q * n) p) = blocks q n p.
Proof.
  induction n as [|n IH]; intros p; cbn [blocks]; [done|]. rewrite take_take, skipn_firstn_comm.
  f_equal; [f_equal; lia|]. rewrite <- (IH (drop (8 * q) p)). do 2 f_equal. lia.
Qed.

Lemma pad_split m : let n := (length m / (8 * q))%nat in
  pad q m = take (8 * q * n) m ++ pad q (drop (8 * q * n) m)
  /\ (length (drop (8 * q * n) m) < 8 * q)%nat /\ length (take (8 * q * n) m) = (8 * q * n)%nat.
Proof.
  cbn zeta. pose proof (Nat.div_mod_eq (length m) (8 * q)). pose proof (Nat.mod_upper_bound (length m) (8 * q) ltac:(lia)).
  set (n := (length m / (8 * q))%nat) in *. assert (length (drop (8 * q * n) m) = (length m mod (8 * q))%nat) as L by (rewrite length_drop; lia).
  split_and!; [|lia|rewrite length_take; lia]. unfold pad. rewrite L, Nat.Div0.mod_mod.
  set (X := 0x01 :: _). set (t := drop (8 * q * n) m) in *. set (a := take (8 * q * n) m).
  rewrite <- (take_drop (8 * q * n) m) at 1 2. fold a t. rewrite <- app_assoc.
  replace (length (a ++ t ++ X) - 1)%nat with (length a + (length (t ++ X) - 1))%nat; [apply alter_app_r|].
  assert (0 < length X)%nat by (subst X; cbn [length]; lia). rewrite !length_app. lia.
Qed.

Lemma pad_length_short t : (length t < 8 * q)%nat -> length (pad q t) = (8 * q)%nat.
Proof. intros H. rewrite pad_short, length_alter by done. by apply padded1_length. Qed.

Lemma blocks_bytes n : forall p, is_bytes p -> Forall is_bytes (blocks q n p).
Proof.
  induction n as [|n IH]; intros p Hp; cbn [blocks]; constructor; [by apply Forall_take|]. by apply IH, Forall_drop.
Qed.
Lemma absorb_all_ok bs : forall st, Forall is_bytes bs -> Forall is_u64 st -> length st = 25%nat ->
  Forall is_u64 (foldl (absorb q) st bs) /\ length (foldl (absorb q) st bs) = 25%nat.
Proof.
  induction bs as [|b bs IH]; intros st Hb Fs Hs; cbn [foldl]; [done|]. apply Forall_cons in Hb as [Hb Hbs].
  destruct (absorb_ok st b Hs Fs Hb). by apply IH.
Qed.

(** The state the hash function squeezes. *)
Lemma keccak_state m : is_bytes m ->
  (let '(state, data) := absorb_blocks (length m) (8 * q) m (replicate 25 0) in
   let '(state, state_iter, data) := absorb_words (length data) 0 data state in
   ethash_keccakf1600 (xor_at (8 * q / 8 - 1) 0x8000000000000000 (xor_at state_iter (le_combine (data ++ [0x01])) state)))
  = foldl (absorb q) (replicate 25 0) (blocks q (length (pad q m) / (8 * q)) (pad q m)).
Proof.
  intros Hm. assert (Forall is_u64 (replicate 25 0)) as F0 by (apply Forall_replicate; unfold is_u64; lia).
  rewrite absorb_blocks_spec by (done || lia). destruct (pad_split m) as (E & Ht & Ha).
  set (n := (length m / (8 * q))%nat) in *. set (t := drop _ m) in *. set (a := take _ m) in *.
  assert (is_bytes t) as Bt by (by apply Forall_drop). assert (is_bytes a) as Ba by (by apply Forall_take).
  rewrite absorb_words_spec by lia. rewrite (Nat.mul_comm 8 q), Nat.div_mul, (Nat.mul_comm q 8), Nat.add_0_l by lia.
  rewrite E, length_app, Ha, (pad_length_short t Ht).
  replace ((8 * q * n + 8 * q) / (8 * q))%nat with (S n)
    by (replace (8 * q * n + 8 * q)%nat with (S n * (8 * q))%nat by lia; by rewrite Nat.div_mul by lia).
  rewrite blocks_app by (done || by apply pad_length_short). subst a. rewrite blocks_take, foldl_app. cbn [foldl]. fold n.
  destruct (absorb_all_ok (blocks q n m) (replicate 25 0)) as [F L]; [by apply blocks_bytes|done|done|].
  rewrite last_block_spec by done. unfold absorb at 2.
  assert (is_bytes (pad q t)) as Bp.
  { rewrite pad_short by done. apply Forall_alter; [by apply padded1_bytes|]. intros x _ Hx. apply (lor_range 128 x 8); [lia|lia|done]. }
  destruct (xor_words_ok _ (block_words q (pad q t)) L (block_words_length _) F (block_words_u64 _ Bp)).
  by rewrite keccakf1600_spec.
Qed.
End SpongeProofs.

Lemma keccak_sponge bits q m : (bits + 4 * (8 * q) = 800)%nat -> (0 < q < 25)%nat -> is_bytes m -> keccak bits m = sponge q (bits / 8 / 8) m.
Proof.
  intros Hbits Hq Hm. unfold keccak, sponge. replace ((1600 - bits * 2) / 8)%nat with (8 * q)%nat.
  - pose proof (keccak_state q Hq m Hm) as E. destruct (absorb_blocks _ _ _ _) as [st data].
    destruct (absorb_words _ _ _ _) as [[st' i] data']. cbn zeta. by rewrite E.
  - replace (1600 - bits * 2)%nat with (8 * q * 8)%nat by lia. by rewrite Nat.div_mul.
Qed.

Lemma example_state_ok : length (Z.of_nat <$> seq 1 25) = 25%nat /\ Forall is_u32 (Z.of_nat <$> seq 1 25) /\ Forall is_u64 (Z.of_nat <$> seq 1 25).
Proof. split_and!; [done| |]; repeat constructor; done. Qed.

(** The published digest of the empty message. *)
Example keccak256_empty : keccak256 []
  = [0xc5; 0xd2; 0x46; 0x01; 0x86; 0xf7; 0x23; 0x3c; 0x92; 0x7e; 0x7d; 0xb2; 0xdc; 0xc7; 0x03; 0xc0;
     0xe5; 0x00; 0xb6; 0x53; 0xca; 0x82; 0x27; 0x3b; 0x7b; 0xfa; 0xd8; 0x04; 0x5d; 0x85; 0xa4; 0x70].
Proof. vm_compute. reflexivity. Qed.

(** C16: The hand-unrolled permutations and the hash functions over them are Keccak: on 25 words
    [ethash_keccakf800] and [ethash_keccakf1600] compute the 22 and 24 rounds of theta,
    rho, pi, chi and iota with the specified offsets and constants, and [keccak256] and
    [keccak512] are the sponge with padding 10*1 at their rates, for a message of any
    length. *)
Theorem keccak_correct (s t : list Z) (m : bytes) :
  length s = 25%nat -> Forall is_u32 s -> length t = 25%nat -> Forall is_u64 t -> is_bytes m ->
  ethash_keccakf800 s = keccak_f 32 s /\ ethash_keccakf1600 t = keccak_f 64 t
  /\ keccak256 m = concat (WriteLE64 <$> sponge 17 4 m) /\ keccak512 m = concat (WriteLE64 <$> sponge 9 8 m).
Proof.
  intros Hs Fs Ht Ft Hm. split_and!; [by apply keccakf800_spec|by apply keccakf1600_spec| |];
    unfold keccak256, keccak512; do 2 f_equal; apply keccak_sponge; (done || lia).
Qed.

Lemma keccak_correct_witness :
  length (Z.of_nat <$> seq 1 25) = 25%nat /\ keccak256 [0x61] = concat (WriteLE64 <$> sponge 17 4 [0x61]).
Proof.
  destruct example_state_ok as (H1 & H2 & H3). split; [exact H1|].
  apply (keccak_correct (Z.of_nat <$> seq 1 25) (Z.of_nat <$> seq 1 25) [0x61]); [exact H1|exact H2|exact H1|exact H3|].
  repeat constructor; unfold is_u8; lia.
Defined.
