(* ===== verification/Ethash.v ===== *)
(** * Ethash: [src/crypto/ethash/lib/ethash]

    The sizes and seeds of an epoch ([primes.c], [ethash.cpp]), its light cache and the
    items of the dataset that are computed from it, and the hash function over the
    dataset.  The hashes are [union]s: byte strings with a view as 32-bit and as 64-bit
    words, on a little-endian machine.  An access outside an array is [OutOfBounds], a
    division by zero or a signed overflow [ArithmeticError].

    The theorems: the search for a prime finds the largest one; for every epoch whose
    sizes fit an [int] the context is built without a fault; the items computed
    interleaved are the items computed one by one; [ethash_verify] accepts what
    [ethash_hash] computes and nothing else. *)

From Stdlib Require Import Znumtheory.
From S2P Require Import Prelude Endian Keccak.

(** ** Words of a hash *)

Fixpoint word32s (h : bytes) : list Z :=
  match h with
  | a :: b :: c :: d :: h => le_combine [a; b; c; d] :: word32s h
  | _ => []
  end.
Fixpoint word64s (h : bytes) : list Z :=
  match h with
  | a :: b :: c :: d :: a' :: b' :: c' :: d' :: h => le_combine [a; b; c; d; a'; b'; c'; d'] :: word64s h
  | _ => []
  end.
Definition of_word32s (ws : list Z) : bytes := concat (WriteLE32 <$> ws).
Definition of_word64s (ws : list Z) : bytes := concat (WriteLE64 <$> ws).

(** [p[i]] of an array. *)
Definition at_index {A} (l : list A) (i : Z) : result fault A :=
  if i <? 0 then Err OutOfBounds else match l !! Z.to_nat i with Some x => Ok x | None => Err OutOfBounds end.
(** [p[i] = x] *)
Definition set_index {A} (l : list A) (i : Z) (x : A) : result fault (list A) :=
  _ ← at_index l i; Ok (<[Z.to_nat i := x]> l).

(** [a % b] and [int] arithmetic. *)
Definition rem (a b : Z) : result fault Z := if b =? 0 then Err ArithmeticError else Ok (Z.rem a b).
Definition to_int (x : Z) : result fault Z := if (- 2 ^ 31 <=? x) && (x <? 2 ^ 31) then Ok x else Err ArithmeticError.

(** [for (x : l) st = body st x] *)
Fixpoint for_each {A S} (l : list A) (body : S -> A -> result fault S) (st : S) : result fault S :=
  match l with
  | [] => Ok st
  | x :: l => st ← body st x; for_each l body st
  end.

(** ** Arithmetic: [bit_manipulation.h] *)

Definition fnv_prime : Z := 0x01000193.
Definition fnv_offset_basis : Z := 0x811c9dc5.
Definition fnv1 (u v : Z) : Z := Z.lxor (u32 (u * fnv_prime)) v.
Definition fnv1a (u v : Z) : Z := u32 (Z.lxor u v * fnv_prime).

Definition fnv1_512 (u v : bytes) : bytes := of_word32s (zip_with fnv1 (word32s u) (word32s v)).
Definition bitwise_xor (x y : bytes) : bytes := of_word64s (zip_with Z.lxor (word64s x) (word64s y)).

(** ** Primes: [primes.c] *)

Fixpoint is_odd_prime_loop (fuel : nat) (number d : Z) : result fault bool :=
  if d * d <=? number then
    match fuel with
    | O => Err OutOfFuel
    | S fuel => if Z.rem number d =? 0 then Ok false else is_odd_prime_loop fuel number (d + 2)
    end
  else Ok true.
Definition is_odd_prime (number : Z) : result fault bool := is_odd_prime_loop (S (Z.to_nat (Z.sqrt number))) number 3.

Fixpoint find_largest_prime_loop (fuel : nat) (n : Z) : result fault Z :=
  p ← is_odd_prime n;
  if p : bool then Ok n
  else match fuel with O => Err OutOfFuel | S fuel => find_largest_prime_loop fuel (n - 2) end.

Definition ethash_find_largest_prime (upper_bound : Z) : result fault Z :=
  if upper_bound <? 2 then Ok 0
  else if upper_bound =? 2 then Ok 2
  else
    let n := if Z.rem upper_bound 2 =? 0 then upper_bound - 1 else upper_bound in
    find_largest_prime_loop (Z.to_nat n) n.

(** ** The size and the seed of an epoch *)

Definition epoch_length : Z := 7500.
Definition light_cache_init_size : Z := Z.shiftl 1 24.
Definition light_cache_growth : Z := Z.shiftl 1 17.
Definition light_cache_rounds : nat := 3.
Definition full_dataset_init_size : Z := Z.shiftl 1 30.
Definition full_dataset_growth : Z := Z.shiftl 1 23.
Definition full_dataset_item_parents : nat := 512.

Definition get_epoch_number (block_number : Z) : Z :=
  if block_number =? 0 then 0 else Z.quot block_number epoch_length.

Definition ethash_calculate_epoch_seed (epoch_number : Z) : bytes :=
  Nat.iter (Z.to_nat epoch_number) keccak256 (replicate 32 0).

Definition ethash_calculate_light_cache_num_items (epoch_number : Z) : result fault Z :=
  growth ← to_int (epoch_number * (light_cache_growth / 64));
  num_items_upper_bound ← to_int (light_cache_init_size / 64 + growth);
  ethash_find_largest_prime num_items_upper_bound.

Definition ethash_calculate_full_dataset_num_items (epoch_number : Z) : result fault Z :=
  growth ← to_int (epoch_number * (full_dataset_growth / 128));
  num_items_upper_bound ← to_int (full_dataset_init_size / 128 + growth);
  ethash_find_largest_prime num_items_upper_bound.

(** [find_epoch_number] with its cache of the last search, an epoch number and a seed. *)
Definition num_tries : nat := Z.to_nat 30000.
Definition seed_word (s : bytes) : Z := ReadLE32 s.
Fixpoint find_epoch_loop (n : nat) (seed_part i : Z) (s : bytes) (cache : Z * bytes) : Z * (Z * bytes) :=
  match n with
  | O => (-1, cache)
  | S n => if seed_word s =? seed_part then (i, (i, s)) else find_epoch_loop n seed_part (i + 1) (keccak256 s) cache
  end.
Definition find_epoch_number (seed : bytes) (cache : Z * bytes) : Z * (Z * bytes) :=
  let seed_part := seed_word seed in
  let '(e, s) := cache in
  if seed_word s =? seed_part then (e, cache)
  else
    let s := keccak256 s in
    if seed_word s =? seed_part then (e + 1, (e + 1, s))
    else find_epoch_loop num_tries seed_part 0 (replicate 32 0) cache.

(** ** The light cache *)

(** The first pass: every item is the hash of the one before. *)
Fixpoint fill_cache (n : nat) (item : bytes) : list bytes :=
  match n with O => [] | S n => item :: fill_cache n (keccak512 item) end.

Definition light_cache_step (num_items : Z) (cache : list bytes) (i : Z) : result fault (list bytes) :=
  let index_limit := u32 num_items in
  item ← at_index cache i;
  v ← rem (ReadLE32 item) index_limit;
  before ← to_int (num_items + (i - 1));
  w ← rem (u32 before) index_limit;
  cv ← at_index cache v;
  cw ← at_index cache w;
  set_index cache i (keccak512 (bitwise_xor cv cw)).

(** Without items the first write is outside the cache already. *)
Definition build_light_cache (num_items : Z) (seed : bytes) : result fault (list bytes) :=
  if num_items <=? 0 then Err OutOfBounds
  else
    let cache := fill_cache (Z.to_nat num_items) (keccak512 seed) in
    for_each (seq 0 light_cache_rounds)
      (fun cache _ => for_each (Z.of_nat <$> seq 0 (Z.to_nat num_items)) (light_cache_step num_items) cache) cache.

(** [ethash_epoch_context]. *)
Record epoch_context := mkContext {
  epoch_number : Z;
  light_cache_num_items : Z;
  light_cache : list bytes;
  l1_cache : list Z;
  full_dataset_num_items : Z;
}.

(** ** Items of the dataset *)

Section Items.
Context (context : epoch_context).

(** [item_state]: its seed and mix; the constructor, [update] and [final]. *)
Definition item_init (index : Z) : result fault (Z * bytes) :=
  let seed := u32 index in
  i ← rem index (light_cache_num_items context);
  mix ← at_index (light_cache context) i;
  let mix := match word32s mix with w :: ws => of_word32s (Z.lxor w seed :: ws) | [] => mix end in
  Ok (seed, keccak512 mix).

Definition item_update (item : Z * bytes) (round : Z) : result fault (Z * bytes) :=
  let '(seed, mix) := item in
  w ← at_index (word32s mix) (Z.rem round 16);
  let t := fnv1 (Z.lxor seed round) w in
  parent_index ← rem t (light_cache_num_items context);
  parent ← at_index (light_cache context) parent_index;
  Ok (seed, fnv1_512 mix parent).

Definition item_final (item : Z * bytes) : bytes := keccak512 item.2.

Definition rounds : list Z := Z.of_nat <$> seq 0 full_dataset_item_parents.

Definition calculate_dataset_item_512 (index : Z) : result fault bytes :=
  item0 ← item_init index;
  item0 ← for_each rounds item_update item0;
  Ok (item_final item0).

Definition calculate_dataset_item_1024 (index : Z) : result fault bytes :=
  item0 ← item_init (index * 2);
  item1 ← item_init (index * 2 + 1);
  let* (item0, item1) := for_each rounds (fun '(item0, item1) j =>
    item0 ← item_update item0 j; item1 ← item_update item1 j; Ok (item0, item1)) (item0, item1) in
  Ok (item_final item0 ++ item_final item1).

Definition calculate_dataset_item_2048 (index : Z) : result fault bytes :=
  item0 ← item_init (index * 4);
  item1 ← item_init (index * 4 + 1);
  item2 ← item_init (index * 4 + 2);
  item3 ← item_init (index * 4 + 3);
  let* (item0, item1, item2, item3) := for_each rounds (fun '(item0, item1, item2, item3) j =>
    item0 ← item_update item0 j; item1 ← item_update item1 j;
    item2 ← item_update item2 j; item3 ← item_update item3 j; Ok (item0, item1, item2, item3)) (item0, item1, item2, item3) in
  Ok (item_final item0 ++ item_final item1 ++ item_final item2 ++ item_final item3).
End Items.

(** [generic::create_epoch_context] when the memory is available; the L1 cache holds the
    first items. *)
Definition l1_cache_size : Z := 16 * 1024.
Definition create_epoch_context (epoch_number : Z) : result fault epoch_context :=
  light_cache_num_items ← ethash_calculate_light_cache_num_items epoch_number;
  full_dataset_num_items ← ethash_calculate_full_dataset_num_items epoch_number;
  light_cache ← build_light_cache light_cache_num_items (ethash_calculate_epoch_seed epoch_number);
  let context := mkContext epoch_number light_cache_num_items light_cache [] full_dataset_num_items in
  l1_cache ← for_each (Z.of_nat <$> seq 0 (Z.to_nat (l1_cache_size / 256)))
    (fun l1 i => item ← calculate_dataset_item_2048 context i; Ok (l1 ++ word32s item)) [];
  Ok (mkContext epoch_number light_cache_num_items light_cache l1_cache full_dataset_num_items).

(** ** The hash function over the dataset *)

(** [is_less_or_equal] compares the words in big-endian order. *)
Fixpoint less_or_equal_words (a b : list Z) : bool :=
  match a, b with
  | x :: a, y :: b => if x >? y then false else if x <? y then true else less_or_equal_words a b
  | _, _ => true
  end.
Fixpoint be_word64s (h : bytes) : list Z :=
  match h with
  | a :: b :: c :: d :: a' :: b' :: c' :: d' :: h => le_combine [d'; c'; b'; a'; d; c; b; a] :: be_word64s h
  | _ => []
  end.
Definition is_less_or_equal (a b : bytes) : bool := less_or_equal_words (be_word64s a) (be_word64s b).

Definition hash_seed (header_hash : bytes) (nonce : Z) : bytes := keccak512 (header_hash ++ WriteLE64 nonce).
Definition hash_final (seed mix_hash : bytes) : bytes := keccak256 (seed ++ mix_hash).

Definition num_dataset_accesses : nat := 64.

(** Four words to one. *)
Fixpoint reduce_mix (mix : list Z) : list Z :=
  match mix with
  | a :: b :: c :: d :: mix => fnv1 (fnv1 (fnv1 a b) c) d :: reduce_mix mix
  | _ => []
  end.

Section Kernel.
(** [lookup]: an item of 1024 bits and what the lookup leaves behind. *)
Context {D : Type} (context : epoch_context) (lookup : D -> Z -> result fault (bytes * D)).

Definition kernel_step (seed_init : Z) (st : list Z * D) (i : Z) : result fault (list Z * D) :=
  let '(mix, d) := st in
  w ← at_index mix (Z.rem i 32);
  p ← rem (fnv1 (Z.lxor i seed_init) w) (u32 (full_dataset_num_items context));
  let* (newdata, d) := lookup d p in
  Ok (zip_with fnv1 mix (word32s newdata), d).

Definition hash_kernel (seed : bytes) (d : D) : result fault (bytes * D) :=
  let mix := word32s seed ++ word32s seed in
  let* (mix, d) := for_each (Z.of_nat <$> seq 0 num_dataset_accesses) (kernel_step (ReadLE32 seed)) (mix, d) in
  Ok (of_word32s (reduce_mix mix), d).
End Kernel.

(** The lookup of the light client computes the item. *)
Definition light_lookup_1024 (context : epoch_context) (d : unit) (index : Z) : result fault (bytes * unit) :=
  item ← calculate_dataset_item_1024 context index; Ok (item, tt).

(** The lookup in the full dataset: an item whose first word is zero is generated. *)
Definition lazy_lookup (generate : Z -> result fault bytes) (full_dataset : list bytes) (index : Z)
  : result fault (bytes * list bytes) :=
  item ← at_index full_dataset index;
  if ReadLE64 item =? 0 then
    item ← generate index;
    full_dataset ← set_index full_dataset index item;
    Ok (item, full_dataset)
  else Ok (item, full_dataset).

Definition ethash_hash (context : epoch_context) (header_hash : bytes) (nonce : Z) : result fault (bytes * bytes) :=
  let seed := hash_seed header_hash nonce in
  let* (mix_hash, _) := hash_kernel context (light_lookup_1024 context) seed tt in
  Ok (hash_final seed mix_hash, mix_hash).

Definition hash_full (context : epoch_context) (full_dataset : list bytes) (header_hash : bytes) (nonce : Z)
  : result fault (bytes * bytes * list bytes) :=
  let seed := hash_seed header_hash nonce in
  let* (mix_hash, full_dataset) := hash_kernel context (lazy_lookup (calculate_dataset_item_1024 context)) seed full_dataset in
  Ok (hash_final seed mix_hash, mix_hash, full_dataset).

Definition ethash_verify_final_hash (header_hash mix_hash : bytes) (nonce : Z) (boundary : bytes) : bool :=
  is_less_or_equal (hash_final (hash_seed header_hash nonce) mix_hash) boundary.

Definition ethash_verify (context : epoch_context) (header_hash mix_hash : bytes) (nonce : Z) (boundary : bytes) : result fault bool :=
  let seed := hash_seed header_hash nonce in
  if negb (is_less_or_equal (hash_final seed mix_hash) boundary) then Ok false
  else
    let* (expected_mix_hash, _) := hash_kernel context (light_lookup_1024 context) seed tt in
    Ok (bool_decide (expected_mix_hash = mix_hash)).

(** [search_light]: the loop over the nonces, none when the end wraps around. *)
Fixpoint search_loop (hash : Z -> result fault (bytes * bytes)) (boundary : bytes) (n : nat) (nonce : Z)
  : result fault (option (bytes * bytes * Z)) :=
  match n with
  | O => Ok None
  | S n =>
    r ← hash nonce;
    if is_less_or_equal r.1 boundary then Ok (Some (r, nonce)) else search_loop hash boundary n (nonce + 1)
  end.
Definition search_light (context : epoch_context) (header_hash boundary : bytes) (start_nonce iterations : Z)
  : result fault (option (bytes * bytes * Z)) :=
  let end_nonce := u64 (start_nonce + iterations) in
  search_loop (ethash_hash context header_hash) boundary (Z.to_nat (end_nonce - start_nonce)) start_nonce.

(** ** Computations that return *)

(** [m] returns a value that satisfies [P]. *)
Definition returns {A} (P : A -> Prop) (m : result fault A) : Prop := match m with Ok a => P a | Err _ => False end.

Lemma returns_Ok {A} (P : A -> Prop) m : returns P m <-> exists a, m = Ok a /\ P a.
Proof. destruct m as [a|]; cbn; [|naive_solver]. split; [by exists a|]. by intros (? & [= <-] & ?). Qed.
Lemma returns_bind {A B} (P : A -> Prop) (Q : B -> Prop) (m : result fault A) (f : A -> result fault B) :
  returns P m -> (forall a, P a -> returns Q (f a)) -> returns Q (mbind f m).
Proof. destruct m; cbn; [|done]. auto. Qed.
Lemma returns_weaken {A} (P Q : A -> Prop) m : (forall a, P a -> Q a) -> returns P m -> returns Q m.
Proof. destruct m; cbn; auto. Qed.

(** A loop that keeps an invariant. *)
Lemma returns_for {A S} (I : S -> Prop) (l : list A) (body : S -> A -> result fault S) st :
  I st -> (forall x st, x ∈ l -> I st -> returns I (body st x)) -> returns I (for_each l body st).
Proof.
  revert st. induction l as [|x l IH]; intros st Hi Hb; cbn [for_each]; [done|].
  eapply returns_bind; [apply Hb; [left|done]|]. intros st' Hi'. apply IH; [done|]. intros. apply Hb; [by right|done].
Qed.

Lemma returns_at {A} (P : A -> Prop) (l : list A) i :
  0 <= i < Z.of_nat (length l) -> Forall P l -> returns P (at_index l i).
Proof.
  intros Hi HP. unfold at_index. destruct (Z.ltb_spec i 0); [lia|].
  destruct (lookup_lt_is_Some_2 l (Z.to_nat i)) as [x Hx]; [lia|]. rewrite Hx. exact (Forall_lookup_1 _ _ _ _ HP Hx).
Qed.
Lemma returns_set {A} (P : A -> Prop) (l : list A) i x :
  0 <= i < Z.of_nat (length l) -> Forall P l -> P x ->
  returns (fun l' => length l' = length l /\ Forall P l') (set_index l i x).
Proof.
  intros Hi HP Hx. unfold set_index. eapply returns_bind; [apply (returns_at P); done|]. intros _ _. cbn.
  split; [apply length_insert|by apply Forall_insert].
Qed.
Lemma returns_rem a b : 0 <= a -> 0 < b -> returns (fun r => 0 <= r < b /\ r = a mod b) (rem a b).
Proof.
  intros Ha Hb. unfold rem. destruct (Z.eqb_spec b 0); [lia|]. cbn. rewrite Z.rem_mod_nonneg by lia.
  split; [apply Z.mod_pos_bound; lia|done].
Qed.
Lemma to_int_Ok x : - 2 ^ 31 <= x < 2 ^ 31 -> to_int x = Ok x.
Proof. intros H. unfold to_int. destruct (Z.leb_spec (- 2 ^ 31) x), (Z.ltb_spec x (2 ^ 31)); try lia. done. Qed.

(** ** Words *)

Lemma of_word32s_length ws : length (of_word32s ws) = (4 * length ws)%nat.
Proof. unfold of_word32s. induction ws; [done|]. cbn. rewrite IHws. lia. Qed.
Lemma of_word64s_length ws : length (of_word64s ws) = (8 * length ws)%nat.
Proof. unfold of_word64s. induction ws; [done|]. cbn. rewrite IHws. lia. Qed.
Lemma of_word32s_bytes ws : is_bytes (of_word32s ws).
Proof. unfold of_word32s. induction ws; [constructor|]. cbn [fmap list_fmap concat]. apply Forall_app. split; [apply le_split_bytes|done]. Qed.
Lemma of_word64s_bytes ws : is_bytes (of_word64s ws).
Proof. unfold of_word64s. induction ws; [constructor|]. cbn [fmap list_fmap concat]. apply Forall_app. split; [apply le_split_bytes|done]. Qed.

Lemma word32s_length n : forall h, length h = (4 * n)%nat -> length (word32s h) = n.
Proof.
  induction n as [|n IH]; intros h H; [by destruct h|]. do 4 (destruct h as [|? h]; [cbn in H; lia|]). cbn. f_equal. apply IH. cbn in H. lia.
Qed.
Lemma word64s_length n : forall h, length h = (8 * n)%nat -> length (word64s h) = n.
Proof.
  induction n as [|n IH]; intros h H; [by destruct h|]. do 8 (destruct h as [|? h]; [cbn in H; lia|]). cbn. f_equal. apply IH. cbn in H. lia.
Qed.
Lemma word32s_u32 n : forall h, length h = (4 * n)%nat -> is_bytes h -> Forall is_u32 (word32s h).
Proof.
  induction n as [|n IH]; intros h H Hb; [by destruct h|]. do 4 (destruct h as [|? h]; [cbn in H; lia|]). cbn [word32s].
  constructor.
  - apply (le_combine_range [z; z0; z1; z2]). change (is_bytes (take 4 (z :: z0 :: z1 :: z2 :: h))). by apply Forall_take.
  - apply IH; [cbn in H; lia|]. by apply (Forall_drop _ 4 _ Hb).
Qed.
Lemma word32s_of ws : Forall is_u32 ws -> word32s (of_word32s ws) = ws.
Proof.
  unfold of_word32s. induction 1 as [|w ws Hw Hws IH]; [done|]. cbn [fmap list_fmap concat WriteLE32 le_split app word32s].
  rewrite IH. f_equal. change (le_combine (le_split 4 w) = w). rewrite le_combine_split. apply u32_id. done.
Qed.

Lemma store_length s : length (store s) = 25%nat.
Proof. done. Qed.
Lemma keccak_length bits m : (bits / 8 / 8 <= 25)%nat -> length (keccak bits m) = (bits / 8 / 8)%nat.
Proof.
  intros H. unfold keccak. destruct (absorb_blocks _ _ _ _) as [st data]. destruct (absorb_words _ _ _ _) as [[st' i] data'].
  rewrite length_take. unfold ethash_keccakf1600. rewrite store_length. lia.
Qed.

(** What the hash functions return. *)
Definition is_hash (n : nat) (h : bytes) : Prop := length h = n /\ is_bytes h.

Lemma keccak512_hash m : is_hash 64 (keccak512 m).
Proof.
  change (is_hash 64 (of_word64s (keccak 512 m))). split; [|apply of_word64s_bytes].
  rewrite of_word64s_length, keccak_length; [done|]. apply Nat.leb_le. done.
Qed.
Lemma keccak256_hash m : is_hash 32 (keccak256 m).
Proof.
  change (is_hash 32 (of_word64s (keccak 256 m))). split; [|apply of_word64s_bytes].
  rewrite of_word64s_length, keccak_length; [done|]. apply Nat.leb_le. done.
Qed.
Lemma bitwise_xor_hash x y : is_hash 64 x -> is_hash 64 y -> is_hash 64 (bitwise_xor x y).
Proof.
  intros [Hx _] [Hy _]. split; [|apply of_word64s_bytes]. unfold bitwise_xor.
  rewrite of_word64s_length, length_zip_with, !(word64s_length 8) by done. done.
Qed.
Lemma fnv1_512_hash x y : is_hash 64 x -> is_hash 64 y -> is_hash 64 (fnv1_512 x y).
Proof.
  intros [Hx _] [Hy _]. split; [|apply of_word32s_bytes]. unfold fnv1_512.
  rewrite of_word32s_length, length_zip_with, !(word32s_length 16) by done. done.
Qed.
Lemma ReadLE32_u32 h : is_bytes h -> is_u32 (ReadLE32 h).
Proof.
  intros H. unfold ReadLE32. assert (is_bytes (take 4 h)) as H' by (by apply Forall_take). apply le_combine_range in H'.
  destruct H' as [H0 H1]. split; [done|]. eapply Z.lt_le_trans; [done|]. apply Z.pow_le_mono_r; [lia|]. rewrite length_take. lia.
Qed.
Lemma lxor_u32 x y : is_u32 x -> is_u32 y -> is_u32 (Z.lxor x y).
Proof. apply (xor_word 32). lia. Qed.
Lemma fnv1_u32 u v : is_u32 v -> is_u32 (fnv1 u v).
Proof. intros. apply lxor_u32; [apply u32_range|done]. Qed.
Lemma fnv1a_u32 u v : is_u32 (fnv1a u v).
Proof. apply u32_range. Qed.
#[export] Hint Resolve keccak512_hash keccak256_hash bitwise_xor_hash fnv1_512_hash lxor_u32 fnv1_u32 fnv1a_u32 u32_range : hnb.

(** ** Primes *)

Lemma no_small_divisor_prime n d : 1 < n -> n < d * d -> 1 < d -> (forall k, 1 < k < d -> ~ (k | n)) -> prime n.
Proof.
  intros Hn Hd H1 Hk. apply prime_alt. split; [done|]. intros k Hk1 [m Hm].
  assert (1 < m) by nia. destruct (Z.lt_ge_cases k d).
  - apply (Hk k); [lia|]. by exists m.
  - apply (Hk m); [nia|]. exists k. lia.
Qed.

Lemma is_odd_prime_loop_spec fuel : forall n d,
  3 <= n -> Z.odd n = true -> Z.odd d = true -> 3 <= d -> (forall k, 1 < k < d -> ~ (k | n)) -> Z.sqrt n < d + 2 * Z.of_nat fuel ->
  exists b, is_odd_prime_loop fuel n d = Ok b /\ (b = true <-> prime n).
Proof.
  induction fuel as [|fuel IH]; intros n d Hn On Od Hd Hk Hf; cbn [is_odd_prime_loop]; destruct (Z.leb_spec (d * d) n) as [Hle|Hgt].
  - pose proof (Z.sqrt_le_square n d ltac:(lia) ltac:(lia)). lia.
  - eexists. split; [done|]. split; [intros _|done]. apply no_small_divisor_prime with d; done || lia.
  - destruct (Z.eqb_spec (Z.rem n d) 0) as [E|E].
    + eexists. split; [done|]. split; [done|]. intros Hp. exfalso.
      apply Z.rem_divide in E; [|lia]. apply prime_alt in Hp as [_ Hp]. apply (Hp d); [nia|done].
    + apply IH; try done; try lia.
      * by rewrite Z.odd_add, Od.
      * intros k Hk' Hdiv. destruct (Z.lt_ge_cases k d); [by apply (Hk k); [lia|]|].
        destruct (Z.eq_dec k d) as [->|]; [by apply E, Z.rem_divide; [lia|]|].
        assert (k = d + 1) as -> by lia. assert ((2 | n)) as [m ->].
        { transitivity (d + 1); [|done]. apply Z.odd_spec in Od as [m ->]. exists (m + 1). lia. }
        by rewrite Z.odd_mul, andb_false_r in On.
  - eexists. split; [done|]. split; [intros _|done]. apply no_small_divisor_prime with d; done || lia.
Qed.

Lemma is_odd_prime_spec n : 3 <= n -> Z.odd n = true -> exists b, is_odd_prime n = Ok b /\ (b = true <-> prime n).
Proof.
  intros Hn On. apply is_odd_prime_loop_spec; try done.
  - intros k Hk Hdiv. assert (k = 2) as -> by lia. destruct Hdiv as [m ->]. by rewrite Z.odd_mul, andb_false_r in On.
  - pose proof (Z.sqrt_nonneg n). lia.
Qed.

Lemma even_not_prime n : 2 < n -> Z.odd n = false -> ~ prime n.
Proof.
  intros Hn On Hp. apply prime_alt in Hp as [_ Hp]. apply (Hp 2); [lia|].
  rewrite <- Z.negb_even in On. b2p. by apply Z.even_spec in On as [m ->]; exists m; lia.
Qed.

Lemma prime_two : prime 2.
Proof. apply prime_alt. split; [lia|]. lia. Qed.
Lemma prime_three : prime 3.
Proof. apply prime_alt. split; [lia|]. intros k Hk [m Hm]. assert (k = 2) by lia. lia. Qed.

(** The search goes down through the odd numbers, to 3 at the latest. *)
Lemma find_largest_prime_loop_spec fuel : forall n, 3 <= n -> Z.odd n = true -> n <= 3 + 2 * Z.of_nat fuel ->
  exists p, find_largest_prime_loop fuel n = Ok p /\ prime p /\ 3 <= p <= n /\ forall q, prime q -> q <= n -> q <= p.
Proof.
  induction fuel as [|fuel IH]; intros n Hn On Hf; cbn [find_largest_prime_loop];
    destruct (is_odd_prime_spec n Hn On) as ([|] & -> & Hp); cbn [mbind result_bind].
  1, 3: exists n; split_and!; [done|by apply Hp|lia|lia|auto].
  - assert (n = 3) as -> by lia. destruct Hp as [_ Hp]. specialize (Hp prime_three). done.
  - assert (n <> 3) by (intros ->; destruct Hp as [_ Hp]; by specialize (Hp prime_three)).
    assert (Z.odd (n - 2) = true) as On2 by (by rewrite Z.odd_sub, On).
    assert (n <> 4) by (intros ->; done).
    destruct (IH (n - 2)) as (p & -> & Pp & Rp & Hq); [lia|done|lia|]. exists p. split_and!; [done|done|lia|lia|].
    intros q Pq Rq. destruct (Z.eq_dec q n) as [->|]; [by apply Hp in Pq|].
    destruct (Z.eq_dec q (n - 1)) as [->|]; [|apply Hq; [done|lia]].
    exfalso. apply (even_not_prime (n - 1)); [lia| |done]. by rewrite Z.odd_sub, On.
Qed.

Lemma find_largest_prime_spec n : 2 <= n ->
  exists p, ethash_find_largest_prime n = Ok p /\ prime p /\ 2 <= p <= n /\ (3 <= n -> 3 <= p) /\ forall q, prime q -> q <= n -> q <= p.
Proof.
  intros Hn. unfold ethash_find_largest_prime. destruct (Z.ltb_spec n 2); [lia|]. destruct (Z.eqb_spec n 2) as [->|].
  { exists 2. split_and!; [done|apply prime_two|lia..|auto]. }
  assert (Z.odd n = negb (Z.rem n 2 =? 0)) as On.
  { rewrite Z.rem_mod_nonneg, Zmod_odd by lia. by destruct (Z.odd n). }
  destruct (Z.eqb_spec (Z.rem n 2) 0); cbn in On.
  - assert (n <> 3) by (intros ->; done).
    destruct (find_largest_prime_loop_spec (Z.to_nat (n - 1)) (n - 1)) as (p & -> & Pp & Rp & Hq); [lia|by rewrite Z.odd_sub, On|lia|].
    exists p. split_and!; try done; try lia. intros q Pq Rq. destruct (Z.eq_dec q n) as [->|]; [|apply Hq; [done|lia]].
    exfalso. by apply (even_not_prime n); [lia| |].
  - destruct (find_largest_prime_loop_spec (Z.to_nat n) n) as (p & -> & Pp & Rp & Hq); [lia|done|lia|].
    exists p. split_and!; try done; lia.
Qed.

(** ** The light cache and the items *)

Definition cache_ok (num_items : Z) (cache : list bytes) : Prop :=
  Z.of_nat (length cache) = num_items /\ Forall (is_hash 64) cache.

Lemma fill_cache_ok n : forall item, is_hash 64 item -> length (fill_cache n item) = n /\ Forall (is_hash 64) (fill_cache n item).
Proof.
  induction n as [|n IH]; intros item Hi; cbn [fill_cache]; [by split|].
  destruct (IH (keccak512 item) (keccak512_hash _)). split; [cbn; lia|by constructor].
Qed.

Lemma light_cache_step_ok n cache i : 0 < n < 2 ^ 30 -> cache_ok n cache -> 0 <= i < n ->
  returns (cache_ok n) (light_cache_step n cache i).
Proof.
  intros Hn [Hl Hc] Hi. unfold light_cache_step. rewrite (u32_id n) by (ranges; lia).
  eapply returns_bind; [apply (returns_at (is_hash 64)); [lia|done]|]. intros item [_ Hb].
  eapply returns_bind; [apply returns_rem; [apply (ReadLE32_u32 item Hb)|lia]|]. intros v [Hv _].
  rewrite to_int_Ok by lia. cbn [mbind result_bind].
  eapply returns_bind; [apply returns_rem; [apply u32_range|lia]|]. intros w [Hw _].
  eapply returns_bind; [apply (returns_at (is_hash 64)); [lia|done]|]. intros cv Hcv.
  eapply returns_bind; [apply (returns_at (is_hash 64)); [lia|done]|]. intros cw Hcw.
  eapply returns_weaken; [|apply (returns_set (is_hash 64)); [lia|done|auto with hnb]].
  intros l' [Hl' Hf]. split; [lia|done].
Qed.

Lemma build_light_cache_ok n seed : 0 < n < 2 ^ 30 -> returns (cache_ok n) (build_light_cache n seed).
Proof.
  intros Hn. unfold build_light_cache. destruct (Z.leb_spec n 0); [lia|].
  destruct (fill_cache_ok (Z.to_nat n) (keccak512 seed) (keccak512_hash _)).
  apply returns_for; [split; [lia|done]|]. intros _ cache _ Hc.
  apply returns_for; [done|]. intros i cache' Hi Hc'. apply list_elem_of_fmap in Hi as (k & -> & Hk%elem_of_seq).
  apply light_cache_step_ok; [lia|done|lia].
Qed.

(** A context whose light cache is built. *)
Definition context_ok (c : epoch_context) : Prop :=
  0 < light_cache_num_items c /\ cache_ok (light_cache_num_items c) (light_cache c).

Section Context.
Context (c : epoch_context) (Hc : context_ok c).

Lemma item_init_ok index : 0 <= index -> returns (fun item => is_u32 item.1 /\ is_hash 64 item.2) (item_init c index).
Proof.
  destruct Hc as (Hn & Hl & Hf). intros Hi. unfold item_init.
  eapply returns_bind; [apply returns_rem; [done|lia]|]. intros i [Hi' _].
  eapply returns_bind; [apply (returns_at (is_hash 64)); [lia|done]|]. intros mix _. cbn. auto with hnb.
Qed.

Lemma item_update_ok item round : is_u32 item.1 /\ is_hash 64 item.2 -> 0 <= round < 512 ->
  returns (fun item => is_u32 item.1 /\ is_hash 64 item.2) (item_update c item round).
Proof.
  destruct Hc as (Hn & Hl & Hf). destruct item as [seed mix]. cbn [fst snd]. intros [Hs Hm] Hr. unfold item_update.
  destruct Hm as [Hm1 Hm2]. eapply returns_bind.
  { apply (returns_at is_u32); [|by apply (word32s_u32 16)]. rewrite (word32s_length 16) by done.
    rewrite Z.rem_mod_nonneg by lia. apply Z.mod_pos_bound. lia. }
  intros w Hw. eapply returns_bind; [apply returns_rem; [apply fnv1_u32; done|lia]|]. intros p [Hp _].
  eapply returns_bind; [apply (returns_at (is_hash 64)); [lia|done]|]. intros parent Hpar. cbn [returns fst snd].
  split; [done|]. apply fnv1_512_hash; done.
Qed.

Lemma rounds_range j : j ∈ rounds -> 0 <= j < 512.
Proof. intros (k & -> & Hk%elem_of_seq)%list_elem_of_fmap. unfold full_dataset_item_parents in Hk. lia. Qed.

Lemma item_512_ok index : 0 <= index -> returns (is_hash 64) (calculate_dataset_item_512 c index).
Proof.
  intros Hi. unfold calculate_dataset_item_512. eapply returns_bind; [by apply item_init_ok|]. intros item Hitem.
  eapply returns_bind.
  - apply (returns_for (fun item => is_u32 item.1 /\ is_hash 64 item.2)); [done|]. intros j it Hj Hit.
    apply item_update_ok; [done|by apply rounds_range].
  - intros it _. apply keccak512_hash.
Qed.
End Context.

(** Loops that run side by side. *)
Lemma for_each_pair {A S T} (l : list A) (f : S -> A -> result fault S) (g : T -> A -> result fault T) :
  forall s t s' t', for_each l f s = Ok s' -> for_each l g t = Ok t' ->
  for_each l (fun '(s, t) j => s ← f s j; t ← g t j; Ok (s, t)) (s, t) = Ok (s', t').
Proof.
  induction l as [|x l IH]; intros s t s' t' Hs Ht; cbn [for_each] in *; [by injection Hs as ->; injection Ht as ->|].
  ok_step Hs. ok_step Ht. rewrite E, E0. cbn [mbind result_bind]. by apply IH.
Qed.

Lemma item_512_parts c index h : calculate_dataset_item_512 c index = Ok h ->
  exists it it', item_init c index = Ok it /\ for_each rounds (item_update c) it = Ok it' /\ h = item_final it'.
Proof. unfold calculate_dataset_item_512. intros H. do 2 ok_step H. injection H as <-. eauto. Qed.

Lemma item_1024_split c i h0 h1 :
  calculate_dataset_item_512 c (i * 2) = Ok h0 -> calculate_dataset_item_512 c (i * 2 + 1) = Ok h1 ->
  calculate_dataset_item_1024 c i = Ok (h0 ++ h1).
Proof.
  intros (a & a' & Ea & Fa & ->)%item_512_parts (b & b' & Eb & Fb & ->)%item_512_parts.
  unfold calculate_dataset_item_1024. rewrite Ea, Eb. cbn [mbind result_bind]. by rewrite (for_each_pair _ _ _ _ _ _ _ Fa Fb).
Qed.

Lemma for_each_ext {A S} (l : list A) (f g : S -> A -> result fault S) : (forall s x, f s x = g s x) -> forall s, for_each l f s = for_each l g s.
Proof. intros H. induction l as [|x l IH]; intros s; cbn [for_each]; [done|]. rewrite H. destruct (g s x); [cbn|done]. apply IH. Qed.

Lemma item_2048_split c i h0 h1 h2 h3 :
  calculate_dataset_item_512 c (i * 4) = Ok h0 -> calculate_dataset_item_512 c (i * 4 + 1) = Ok h1 ->
  calculate_dataset_item_512 c (i * 4 + 2) = Ok h2 -> calculate_dataset_item_512 c (i * 4 + 3) = Ok h3 ->
  calculate_dataset_item_2048 c i = Ok (h0 ++ h1 ++ h2 ++ h3).
Proof.
  intros (a & a' & E0 & F0 & ->)%item_512_parts (b & b' & E1 & F1 & ->)%item_512_parts.
  intros (d & d' & E2 & F2 & ->)%item_512_parts (e & e' & E3 & F3 & ->)%item_512_parts.
  unfold calculate_dataset_item_2048. rewrite E0, E1, E2, E3. cbn [mbind result_bind].
  pose proof (for_each_pair _ _ _ _ _ _ _ (for_each_pair _ _ _ _ _ _ _ (for_each_pair _ _ _ _ _ _ _ F0 F1) F2) F3) as F.
  erewrite for_each_ext; [rewrite F; done|]. intros [[[s0 s1] s2] s3] x.
  destruct (item_update c s0 x), (item_update c s1 x); try done; cbn; by destruct (item_update c s2 x).
Qed.

Lemma items_ok c i : context_ok c -> 0 <= i ->
  returns (is_hash 128) (calculate_dataset_item_1024 c i) /\ returns (is_hash 256) (calculate_dataset_item_2048 c i).
Proof.
  intros Hc Hi. assert (forall k, 0 <= k -> exists h, calculate_dataset_item_512 c k = Ok h /\ is_hash 64 h) as H.
  { intros k Hk. apply returns_Ok. by apply item_512_ok. }
  split.
  - destruct (H (i * 2)) as (h0 & E0 & L0 & B0), (H (i * 2 + 1)) as (h1 & E1 & L1 & B1); try lia.
    rewrite (item_1024_split _ _ _ _ E0 E1). split; [rewrite length_app; lia|by apply Forall_app].
  - destruct (H (i * 4)) as (h0 & E0 & L0 & B0), (H (i * 4 + 1)) as (h1 & E1 & L1 & B1),
      (H (i * 4 + 2)) as (h2 & E2 & L2 & B2), (H (i * 4 + 3)) as (h3 & E3 & L3 & B3); try lia.
    rewrite (item_2048_split _ _ _ _ _ _ E0 E1 E2 E3). split; [rewrite !length_app; lia|by rewrite !Forall_app].
Qed.

(** ** The context of an epoch *)

Definition last_epoch : Z := 32639.

Lemma num_items_ok e : 0 <= e <= last_epoch ->
  returns (fun n => 3 <= n < 2 ^ 30) (ethash_calculate_light_cache_num_items e)
  /\ returns (fun n => 3 <= n < 2 ^ 31) (ethash_calculate_full_dataset_num_items e).
Proof.
  unfold last_epoch. intros He. unfold ethash_calculate_light_cache_num_items, ethash_calculate_full_dataset_num_items.
  change (light_cache_growth / 64) with 2048. change (light_cache_init_size / 64) with 262144.
  change (full_dataset_growth / 128) with 65536. change (full_dataset_init_size / 128) with 8388608.
  split; rewrite to_int_Ok by lia; cbn [mbind result_bind]; rewrite to_int_Ok by lia; cbn [mbind result_bind].
  - destruct (find_largest_prime_spec (262144 + e * 2048)) as (p & -> & _ & Hp & H3 & _); [lia|]. cbn. specialize (H3 ltac:(lia)). lia.
  - destruct (find_largest_prime_spec (8388608 + e * 65536)) as (p & -> & _ & Hp & H3 & _); [lia|]. cbn. specialize (H3 ltac:(lia)). lia.
Qed.

(** A context as [create_epoch_context] leaves it. *)
Definition full_context (c : epoch_context) : Prop :=
  context_ok c /\ length (l1_cache c) = 4096%nat /\ Forall is_u32 (l1_cache c) /\ 3 <= full_dataset_num_items c < 2 ^ 31.

Lemma create_epoch_context_ok e : 0 <= e <= last_epoch ->
  returns (fun c => full_context c /\ epoch_number c = e) (create_epoch_context e).
Proof.
  intros He. destruct (num_items_ok e He) as [HL HF]. unfold create_epoch_context.
  eapply returns_bind; [exact HL|]. intros n Hn. eapply returns_bind; [exact HF|]. intros f Hf. cbv beta in Hn, Hf.
  eapply returns_bind; [apply build_light_cache_ok; lia|]. intros cache Hcache.
  set (c := mkContext e n cache [] f). assert (context_ok c) as Hc by (split; [cbn; lia|done]). clearbody c.
  assert (forall k s l1, Forall is_u32 l1 ->
    returns (fun l => length l = (length l1 + 64 * k)%nat /\ Forall is_u32 l)
      (for_each (Z.of_nat <$> seq s k) (fun l1 i => item ← calculate_dataset_item_2048 c i; Ok (l1 ++ word32s item)) l1)) as Hloop.
  { induction k as [|k IH]; intros s l1 Hl1; cbn [seq fmap list_fmap for_each]; [cbn; split; [lia|done]|].
    destruct (items_ok c (Z.of_nat s) Hc ltac:(lia)) as [_ Hitem]. apply returns_Ok in Hitem as (item & -> & Li & Bi).
    cbn [mbind result_bind]. assert (Forall is_u32 (l1 ++ word32s item)) as H1 by (apply Forall_app; split; [done|by apply (word32s_u32 64)]).
    eapply returns_weaken; [|apply (IH (S s) _ H1)]. intros l [Hl HF']. split; [|done].
    rewrite Hl, length_app, (word32s_length 64) by done. lia. }
  eapply returns_bind; [apply (Hloop 64%nat 0%nat []); constructor|]. intros l1 [Hl1 Hu].
  split; [|done]. split; [split; [cbn; lia|exact Hcache]|]. split; [exact Hl1|]. split; [exact Hu|]. cbn. lia.
Qed.

(** ** Comparison with the boundary *)

Definition be_value (h : bytes) : Z := le_combine (reverse h).

Lemma be_word64s_spec n : forall a b, length a = (8 * n)%nat -> length b = (8 * n)%nat -> is_bytes a -> is_bytes b ->
  less_or_equal_words (be_word64s a) (be_word64s b) = (be_value a <=? be_value b).
Proof.
  induction n as [|n IH]; intros a b Ha Hb Ba Bb; [by destruct a, b|].
  assert (exists a1 a2, a = a1 ++ a2 /\ length a1 = 8%nat /\ length a2 = (8 * n)%nat) as (a1 & a2 & -> & La1 & La2).
  { exists (take 8 a), (drop 8 a). rewrite take_drop, length_take, length_drop. split_and!; [done|lia|lia]. }
  assert (exists b1 b2, b = b1 ++ b2 /\ length b1 = 8%nat /\ length b2 = (8 * n)%nat) as (b1 & b2 & -> & Lb1 & Lb2).
  { exists (take 8 b), (drop 8 b). rewrite take_drop, length_take, length_drop. split_and!; [done|lia|lia]. }
  apply Forall_app in Ba as [Ba1 Ba2], Bb as [Bb1 Bb2].
  assert (forall h t, length h = 8%nat -> be_word64s (h ++ t) = be_value h :: be_word64s t) as Hw.
  { intros h t Hh. do 8 (destruct h as [|? h]; [discriminate Hh|]). by destruct h; [|discriminate Hh]. }
  rewrite !Hw by done. cbn [less_or_equal_words]. rewrite IH by done. unfold be_value in *. rewrite !reverse_app, !le_combine_app, !length_reverse, La2, Lb2.
  assert (is_bytes (reverse a2) /\ is_bytes (reverse b2)) as [Ra Rb] by (split; by apply Forall_reverse).
  apply le_combine_range in Ra, Rb. rewrite length_reverse in Ra, Rb. rewrite La2 in Ra. rewrite Lb2 in Rb.
  set (x := le_combine (reverse a1)). set (y := le_combine (reverse b1)). set (M := 2 ^ (8 * Z.of_nat (8 * n))) in *.
  rewrite Z.gtb_ltb. destruct (Z.ltb_spec y x); [symmetry; apply Z.leb_gt; nia|].
  destruct (Z.ltb_spec x y); [symmetry; apply Z.leb_le; nia|]. assert (x = y) as -> by lia.
  destruct (Z.leb_spec (le_combine (reverse a2)) (le_combine (reverse b2))); symmetry; [apply Z.leb_le|apply Z.leb_gt]; lia.
Qed.

Lemma is_less_or_equal_spec a b : is_hash 32 a -> is_hash 32 b -> is_less_or_equal a b = (be_value a <=? be_value b).
Proof. intros [La Ba] [Lb Bb]. by apply (be_word64s_spec 4). Qed.

(** ** The dataset that is filled on demand *)

(** Every item is not generated yet, or the one the generator computes. *)
Definition dataset_ok (generate : Z -> result fault bytes) (ds : list bytes) : Prop :=
  forall i item, ds !! i = Some item -> ReadLE64 item = 0 \/ generate (Z.of_nat i) = Ok item.

Lemma lazy_lookup_spec generate ds index item : dataset_ok generate ds ->
  0 <= index < Z.of_nat (length ds) -> generate index = Ok item ->
  exists ds', lazy_lookup generate ds index = Ok (item, ds') /\ dataset_ok generate ds' /\ length ds' = length ds.
Proof.
  intros Hds Hi Hg. unfold lazy_lookup, set_index, at_index. destruct (Z.ltb_spec index 0); [lia|].
  destruct (lookup_lt_is_Some_2 ds (Z.to_nat index)) as [x Hx]; [lia|]. rewrite Hx. cbn [mbind result_bind].
  assert (Z.of_nat (Z.to_nat index) = index) as Ei by lia.
  destruct (Z.eqb_spec (ReadLE64 x) 0) as [_|Hne].
  - rewrite Hg. cbn. eexists. split; [done|]. rewrite length_insert. split; [|done].
    intros i y. destruct (decide (i = Z.to_nat index)) as [->|Hne].
    + rewrite list_lookup_insert_eq by lia. intros [= <-]. right. by rewrite Ei.
    + rewrite list_lookup_insert_ne by done. apply Hds.
  - eexists. split; [|by split]. destruct (Hds _ _ Hx) as [|Hgx]; [done|]. rewrite Ei, Hg in Hgx. by injection Hgx as ->.
Qed.

(** ** The hash function *)

Lemma for_each_app {A S} (l1 l2 : list A) (f : S -> A -> result fault S) s :
  for_each (l1 ++ l2) f s = s ← for_each l1 f s; for_each l2 f s.
Proof.
  revert s. induction l1 as [|x l1 IH]; intros s; cbn [for_each app]; [done|]. destruct (f s x); [cbn|done]. apply IH.
Qed.

Lemma zip_with_fnv1_u32 (a b : list Z) : Forall is_u32 b -> Forall is_u32 (zip_with fnv1 a b).
Proof. intros Hb. revert a. induction Hb as [|y b Hy Hb IH]; intros [|x a]; cbn; constructor; auto with hnb. Qed.

(** A loop over two kinds of state in step. *)
Lemma for_each_sim {A S T} (R : S -> T -> Prop) (l : list A) (f : S -> A -> result fault S) (g : T -> A -> result fault T) :
  forall s t, R s t ->
  (forall x s t, x ∈ l -> R s t -> exists s' t', f s x = Ok s' /\ g t x = Ok t' /\ R s' t') ->
  exists s' t', for_each l f s = Ok s' /\ for_each l g t = Ok t' /\ R s' t'.
Proof.
  induction l as [|x l IH]; intros s t HR Hstep; cbn [for_each]; [eauto|].
  destruct (Hstep x s t) as (s1 & t1 & -> & -> & HR1); [left|done|]. cbn [mbind result_bind].
  apply IH; [done|]. intros. apply Hstep; [by right|done].
Qed.

Section Hash.
Context (c : epoch_context) (Hc : full_context c).
Local Abbreviation dataset_rel := (fun (s : list Z * unit) (t : list Z * list bytes) =>
  s.1 = t.1 /\ length t.1 = 32%nat /\ Forall is_u32 t.1 /\ dataset_ok (calculate_dataset_item_1024 c) t.2
  /\ Z.of_nat (length t.2) = full_dataset_num_items c).

Lemma kernel_step_ok seed i s t : 0 <= i -> dataset_rel s t ->
  exists s' t', kernel_step c (light_lookup_1024 c) seed s i = Ok s'
    /\ kernel_step c (lazy_lookup (calculate_dataset_item_1024 c)) seed t i = Ok t' /\ dataset_rel s' t'.
Proof.
  destruct s as [mix []], t as [mix' ds]. cbn [fst snd]. intros Hi (-> & L & U & Hds & Hn).
  destruct Hc as (Hok & _ & _ & Hf). unfold kernel_step. rewrite (u32_id (full_dataset_num_items c)) by (ranges; lia).
  assert (returns is_u32 (at_index mix' (Z.rem i 32))) as Hw.
  { apply (returns_at is_u32); [|done]. rewrite L, Z.rem_mod_nonneg by lia. apply Z.mod_pos_bound. lia. }
  apply returns_Ok in Hw as (w & -> & Hw). cbn [mbind result_bind].
  pose proof (returns_rem (fnv1 (Z.lxor i seed) w) (full_dataset_num_items c) ltac:(apply fnv1_u32; done) ltac:(lia)) as Hr.
  apply returns_Ok in Hr as (p & -> & Hp & _). cbn [mbind result_bind].
  destruct (items_ok c p Hok ltac:(lia)) as [Hitem _]. apply returns_Ok in Hitem as (item & Eit & Li & Bi).
  destruct (lazy_lookup_spec _ ds p item Hds ltac:(lia) Eit) as (ds' & -> & Hds' & Lds').
  unfold light_lookup_1024. rewrite Eit. cbn [mbind result_bind]. do 2 eexists. split; [done|]. split; [done|]. cbn [fst snd].
  split_and!; [done| | |done|lia].
  - rewrite length_zip_with, (word32s_length 32) by done. lia.
  - apply zip_with_fnv1_u32. by apply (word32s_u32 32).
Qed.

Lemma reduce_mix_length n : forall mix, length mix = (4 * n)%nat -> length (reduce_mix mix) = n.
Proof.
  induction n as [|n IH]; intros mix H; [by destruct mix|]. do 4 (destruct mix as [|? mix]; [cbn in H; lia|]). cbn. f_equal. apply IH. cbn in H. lia.
Qed.

(** With the full dataset, whatever part of it is generated, the kernel computes what the
    light client computes. *)
Lemma hash_kernel_ok seed ds : is_hash 64 seed -> dataset_ok (calculate_dataset_item_1024 c) ds ->
  Z.of_nat (length ds) = full_dataset_num_items c ->
  exists mix ds', hash_kernel c (light_lookup_1024 c) seed tt = Ok (mix, tt) /\ is_hash 32 mix
    /\ hash_kernel c (lazy_lookup (calculate_dataset_item_1024 c)) seed ds = Ok (mix, ds')
    /\ dataset_ok (calculate_dataset_item_1024 c) ds' /\ length ds' = length ds.
Proof.
  intros [Ls Bs] Hds Hn. unfold hash_kernel.
  destruct (for_each_sim dataset_rel (Z.of_nat <$> seq 0 num_dataset_accesses)
    (kernel_step c (light_lookup_1024 c) (ReadLE32 seed))
    (kernel_step c (lazy_lookup (calculate_dataset_item_1024 c)) (ReadLE32 seed))
    (word32s seed ++ word32s seed, tt) (word32s seed ++ word32s seed, ds)) as ([mix []] & [mix' ds'] & -> & -> & HR).
  - cbn [fst snd]. split_and!; [done| | |done|done].
    + rewrite length_app, (word32s_length 16) by done. done.
    + apply Forall_app. split; by apply (word32s_u32 16).
  - intros i s t Hi HR. apply kernel_step_ok; [|done]. apply list_elem_of_fmap in Hi as (k & -> & _). lia.
  - cbn [fst snd] in HR. destruct HR as (-> & L & U & Hds' & Hn'). exists (of_word32s (reduce_mix mix')), ds'. split; [done|].
    split; [split; [rewrite of_word32s_length, (reduce_mix_length 8) by done; done|apply of_word32s_bytes]|].
    split; [done|]. split; [done|lia].
Qed.

(** A dataset of which nothing is generated. *)
Lemma empty_dataset_ok generate n : dataset_ok generate (replicate n (replicate 128 0)).
Proof. intros i item [-> _]%lookup_replicate. by left. Qed.

Lemma ethash_hash_ok header nonce :
  exists final mix, ethash_hash c header nonce = Ok (final, mix) /\ is_hash 32 final /\ is_hash 32 mix
    /\ final = hash_final (hash_seed header nonce) mix.
Proof.
  destruct (hash_kernel_ok (hash_seed header nonce) (replicate (Z.to_nat (full_dataset_num_items c)) (replicate 128 0)))
    as (mix & _ & E & Hm & _); [apply keccak512_hash|apply empty_dataset_ok| |].
  { rewrite length_replicate. destruct Hc as (_ & _ & _ & Hf). lia. }
  exists (hash_final (hash_seed header nonce) mix), mix. unfold ethash_hash. rewrite E. split_and!; [done| |done|done]. apply keccak256_hash.
Qed.

Lemma hash_full_light ds header nonce final mix : dataset_ok (calculate_dataset_item_1024 c) ds ->
  Z.of_nat (length ds) = full_dataset_num_items c -> ethash_hash c header nonce = Ok (final, mix) ->
  exists ds', hash_full c ds header nonce = Ok (final, mix, ds') /\ dataset_ok (calculate_dataset_item_1024 c) ds' /\ length ds' = length ds.
Proof.
  intros Hds Hn E. destruct (hash_kernel_ok (hash_seed header nonce) ds (keccak512_hash _) Hds Hn) as (m & ds' & E1 & _ & E2 & Hds' & Hl).
  unfold ethash_hash in E. rewrite E1 in E. injection E as <- <-. exists ds'. unfold hash_full. by rewrite E2.
Qed.

Lemma ethash_verify_spec header mix nonce boundary :
  ethash_verify c header mix nonce boundary
  = Ok (match ethash_hash c header nonce with
        | Ok (final, mix') => bool_decide (mix' = mix) && is_less_or_equal final boundary
        | Err _ => false
        end).
Proof.
  destruct (ethash_hash_ok header nonce) as (final & m & E & _ & _ & Ef). rewrite E. unfold ethash_hash in E. unfold ethash_verify.
  destruct (hash_kernel _ _ _ _) as [[m' []]|]; [|discriminate E]. injection E as E1 ->.
  destruct (is_less_or_equal (hash_final (hash_seed header nonce) mix) boundary) eqn:Eb; cbn.
  - f_equal. destruct (bool_decide_reflect (m = mix)) as [->|]; [|done]. by rewrite Ef, Eb.
  - f_equal. destruct (bool_decide_reflect (m = mix)) as [->|]; [|done]. by rewrite Ef, Eb.
Qed.
End Hash.

(** ** The search for a nonce *)

Lemma search_loop_spec hash boundary n : forall nonce, (forall k, exists r, hash k = Ok r) ->
  exists res, search_loop hash boundary n nonce = Ok res /\
  match res with
  | Some (r, k) => nonce <= k < nonce + Z.of_nat n /\ hash k = Ok r /\ is_less_or_equal r.1 boundary = true
      /\ forall j r', nonce <= j < k -> hash j = Ok r' -> is_less_or_equal r'.1 boundary = false
  | None => forall j r', nonce <= j < nonce + Z.of_nat n -> hash j = Ok r' -> is_less_or_equal r'.1 boundary = false
  end.
Proof.
  induction n as [|n IH]; intros nonce Hh; cbn [search_loop]; [exists None; split; [done|]; intros; lia|].
  destruct (Hh nonce) as [r Er]. rewrite Er. cbn [mbind result_bind]. destruct (is_less_or_equal r.1 boundary) eqn:Eb.
  - exists (Some (r, nonce)). split; [done|]. split_and!; [lia|lia|done|done|intros; lia].
  - destruct (IH (nonce + 1) Hh) as (res & -> & Hres). exists res. split; [done|]. destruct res as [[r' k]|].
    + destruct Hres as (Hk & Ek & Hb & Hj). split_and!; [lia|lia|done|done|]. intros j rj Hj' Ej.
      destruct (Z.eq_dec j nonce) as [->|]; [|apply (Hj j); [lia|done]]. rewrite Er in Ej. by injection Ej as <-.
    + intros j rj Hj' Ej. destruct (Z.eq_dec j nonce) as [->|]; [|apply (Hres j); [lia|done]]. rewrite Er in Ej. by injection Ej as <-.
Qed.

(** ** The epoch of a seed *)

Definition epoch_cache_ok (cache : Z * bytes) : Prop := 0 <= cache.1 /\ cache.2 = ethash_calculate_epoch_seed cache.1.

Lemma epoch_seed_succ e : 0 <= e -> ethash_calculate_epoch_seed (e + 1) = keccak256 (ethash_calculate_epoch_seed e).
Proof. intros He. unfold ethash_calculate_epoch_seed. replace (Z.to_nat (e + 1)) with (S (Z.to_nat e)) by lia. done. Qed.

Lemma find_epoch_loop_spec n : forall part i s cache, 0 <= i -> s = ethash_calculate_epoch_seed i -> epoch_cache_ok cache ->
  let '(e, cache') := find_epoch_loop n part i s cache in
  epoch_cache_ok cache' /\
  (if e =? -1 then forall j, i <= j < i + Z.of_nat n -> seed_word (ethash_calculate_epoch_seed j) <> part
   else i <= e /\ seed_word (ethash_calculate_epoch_seed e) = part).
Proof.
  induction n as [|n IH]; intros part i s cache Hi Hs Hc; cbn [find_epoch_loop].
  - split; [done|]. cbn. lia.
  - destruct (Z.eqb_spec (seed_word s) part) as [E|E].
    + split; [split; done|]. destruct (Z.eqb_spec i (-1)); [lia|]. split; [lia|]. by rewrite <- Hs.
    + specialize (IH part (i + 1) (keccak256 s) cache ltac:(lia)). specialize (IH ltac:(by rewrite Hs, epoch_seed_succ) Hc).
      destruct (find_epoch_loop _ _ _ _ _) as [e cache']. destruct IH as [Hc' IH]. split; [done|].
      destruct (e =? -1); [|destruct IH; split; [lia|done]]. intros j Hj. destruct (Z.eq_dec j i) as [->|]; [by rewrite <- Hs|]. apply IH. lia.
Qed.

Lemma find_epoch_number_spec seed cache : epoch_cache_ok cache ->
  let '(e, cache') := find_epoch_number seed cache in
  epoch_cache_ok cache' /\
  (if e =? -1 then forall j, 0 <= j < 30000 -> seed_word (ethash_calculate_epoch_seed j) <> seed_word seed
   else 0 <= e /\ seed_word (ethash_calculate_epoch_seed e) = seed_word seed).
Proof.
  intros Hc. unfold find_epoch_number. destruct cache as [e s]. pose proof Hc as [He Hs]. cbn [fst snd] in He, Hs.
  destruct (Z.eqb_spec (seed_word s) (seed_word seed)) as [E|E].
  { split; [done|]. destruct (Z.eqb_spec e (-1)); [lia|]. split; [done|]. by rewrite <- Hs. }
  destruct (Z.eqb_spec (seed_word (keccak256 s)) (seed_word seed)) as [E1|E1].
  { assert (keccak256 s = ethash_calculate_epoch_seed (e + 1)) as Es by (by rewrite epoch_seed_succ, Hs).
    split; [split; [cbn; lia|done]|]. destruct (Z.eqb_spec (e + 1) (-1)); [lia|]. split; [lia|]. by rewrite <- Es. }
  pose proof (find_epoch_loop_spec num_tries (seed_word seed) 0 (replicate 32 0) (e, s) ltac:(lia) eq_refl Hc) as H.
  destruct (find_epoch_loop _ _ _ _ _) as [r cache']. exact H.
Qed.

(** ** The main theorem *)

Definition largest_prime (bound p : Z) : Prop := prime p /\ p <= bound /\ forall q, prime q -> q <= bound -> q <= p.

(** The sizes that are written in the contract of the epochs. *)
Lemma num_items_spec e : 0 <= e <= last_epoch ->
  exists n f, ethash_calculate_light_cache_num_items e = Ok n /\ ethash_calculate_full_dataset_num_items e = Ok f
    /\ largest_prime (262144 + e * 2048) n /\ largest_prime (8388608 + e * 65536) f.
Proof.
  unfold last_epoch. intros He. unfold ethash_calculate_light_cache_num_items, ethash_calculate_full_dataset_num_items.
  change (light_cache_growth / 64) with 2048. change (light_cache_init_size / 64) with 262144.
  change (full_dataset_growth / 128) with 65536. change (full_dataset_init_size / 128) with 8388608.
  rewrite (to_int_Ok (e * 2048)), (to_int_Ok (e * 65536)) by lia. cbn [mbind result_bind].
  rewrite (to_int_Ok (262144 + e * 2048)), (to_int_Ok (8388608 + e * 65536)) by lia. cbn [mbind result_bind].
  destruct (find_largest_prime_spec (262144 + e * 2048)) as (p & -> & Pp & Rp & _ & Hp); [lia|].
  destruct (find_largest_prime_spec (8388608 + e * 65536)) as (q & -> & Pq & Rq & _ & Hq); [lia|].
  exists p, q. split; [done|]. split; [done|]. split; (split; [done|]; split; [lia|done]).
Qed.

Lemma create_sizes e c n f : create_epoch_context e = Ok c -> ethash_calculate_light_cache_num_items e = Ok n ->
  ethash_calculate_full_dataset_num_items e = Ok f -> light_cache_num_items c = n /\ full_dataset_num_items c = f.
Proof.
  unfold create_epoch_context. intros H En Ef. rewrite En, Ef in H. do 2 ok_step H. by injection H as <-.
Qed.

(** C37: For every epoch whose dataset size fits an [int] the context is built without a fault:
    the light cache and the dataset have as many items as the largest primes below their
    linear bounds, and the item of 2048 bits that is computed from four interleaved states
    is the concatenation of the four items of 512 bits computed one by one. *)
Theorem epoch_context_correct e i : 0 <= e <= last_epoch -> 0 <= i ->
  exists c h0 h1 h2 h3, create_epoch_context e = Ok c
    /\ largest_prime (262144 + e * 2048) (light_cache_num_items c) /\ largest_prime (8388608 + e * 65536) (full_dataset_num_items c)
    /\ calculate_dataset_item_512 c (i * 4) = Ok h0 /\ calculate_dataset_item_512 c (i * 4 + 1) = Ok h1
    /\ calculate_dataset_item_512 c (i * 4 + 2) = Ok h2 /\ calculate_dataset_item_512 c (i * 4 + 3) = Ok h3
    /\ calculate_dataset_item_2048 c i = Ok (h0 ++ h1 ++ h2 ++ h3).
Proof.
  intros He Hi. pose proof (create_epoch_context_ok e He) as Hc. apply returns_Ok in Hc as (c & Ec & (Hc & _) & _).
  destruct (num_items_spec e He) as (n & f & En & Ef & Pn & Pf). destruct (create_sizes e c n f Ec En Ef) as [<- <-].
  assert (forall k, 0 <= k -> exists h, calculate_dataset_item_512 c k = Ok h) as H.
  { intros k Hk. pose proof (item_512_ok c Hc k Hk) as R. apply returns_Ok in R as (h & E & _). by exists h. }
  destruct (H (i * 4)) as [h0 E0], (H (i * 4 + 1)) as [h1 E1], (H (i * 4 + 2)) as [h2 E2], (H (i * 4 + 3)) as [h3 E3]; try lia.
  exists c, h0, h1, h2, h3. split; [exact Ec|]. split; [exact Pn|]. split; [exact Pf|].
  split; [exact E0|]. split; [exact E1|]. split; [exact E2|]. split; [exact E3|]. exact (item_2048_split c i h0 h1 h2 h3 E0 E1 E2 E3).
Qed.

Lemma epoch_context_correct_witness : exists c h0 h1 h2 h3, create_epoch_context 3 = Ok c
  /\ calculate_dataset_item_2048 c 17 = Ok (h0 ++ h1 ++ h2 ++ h3).
Proof.
  destruct (epoch_context_correct 3 17) as (c & h0 & h1 & h2 & h3 & Ec & _ & _ & _ & _ & _ & _ & E).
  - split; vm_compute; discriminate.
  - vm_compute. discriminate.
  - exists c, h0, h1, h2, h3. exact (conj Ec E).
Defined.
