(* ===== verification/Progpow.v ===== *)
(** * KAWPOW: [src/crypto/ethash/lib/ethash/progpow.cpp], [src/hash.cpp]

    The generator and the random program of a period, the rounds over the mix of sixteen
    lanes, and the proof-of-work hash of a block header with the context it keeps
    between calls.

    The theorems: the register sequences of a program are permutations and no access of
    a round leaves its array; the light client, the full dataset in whatever state of
    generation and the check that only uses the mix hash agree; the hash of a header
    returns for the heights a chain can reach, whatever context is cached, and aborts
    for a height that an [int] reads as negative. *)

From S2P Require Import Prelude Endian Params Serialize Transaction Keccak Ethash.

(** ** Bits: [bit_manipulation.h] *)

Definition rotl32 (n c : Z) : Z :=
  let c := Z.land c 31 in
  let neg_c := u32 (- c) in
  Z.lor (u32 (Z.shiftl n c)) (Z.shiftr n (Z.land neg_c 31)).
Definition rotr32 (n c : Z) : Z :=
  let c := Z.land c 31 in
  let neg_c := u32 (- c) in
  Z.lor (Z.shiftr n c) (u32 (Z.shiftl n (Z.land neg_c 31))).
Definition clz32 (x : Z) : Z := if x =? 0 then 32 else 31 - Z.log2 x.
Definition popcount32 (x : Z) : Z := foldr (fun i n => Z.b2z (Z.testbit x (Z.of_nat i)) + n) 0 (seq 0 32).
Definition mul_hi32 (x y : Z) : Z := Z.shiftr (x * y) 32.

(** ** The generator: [kiss99.hpp] *)

Record kiss99 := mkKiss { kz : Z; kw : Z; jsr : Z; jcong : Z }.

Definition kiss99_next (k : kiss99) : Z * kiss99 :=
  let z := u32 (36969 * Z.land (kz k) 0xffff + Z.shiftr (kz k) 16) in
  let w := u32 (18000 * Z.land (kw k) 0xffff + Z.shiftr (kw k) 16) in
  let jcong := u32 (69069 * jcong k + 1234567) in
  let jsr := Z.lxor (jsr k) (u32 (Z.shiftl (jsr k) 17)) in
  let jsr := Z.lxor jsr (Z.shiftr jsr 13) in
  let jsr := Z.lxor jsr (u32 (Z.shiftl jsr 5)) in
  (u32 (Z.lxor (u32 (u32 (Z.shiftl z 16) + w)) jcong + jsr), mkKiss z w jsr jcong).

(** ** The program of a period *)

Definition num_regs : Z := 32.
Definition num_lanes : Z := 16.
Definition num_cache_accesses : nat := 11.
Definition num_math_operations : nat := 18.
Definition period_length : Z := 3.
Definition l1_cache_num_items : Z := l1_cache_size / 4.

Record mix_rng_state := mkRng {
  rng : kiss99;
  dst_counter : Z;
  dst_seq : list Z;
  src_counter : Z;
  src_seq : list Z;
}.

(** [std::swap(l[i], l[j])] *)
Definition swap (l : list Z) (i j : Z) : result fault (list Z) :=
  a ← at_index l i; b ← at_index l j;
  l ← set_index l i b; set_index l j a.

(** The Fisher-Yates shuffle, for [i] from [num_regs] down to 2. *)
Definition shuffle_step (st : kiss99 * list Z * list Z) (i : Z) : result fault (kiss99 * list Z * list Z) :=
  let '(rng, dst, src) := st in
  let '(r, rng) := kiss99_next rng in
  dst ← swap dst (i - 1) (Z.rem r i);
  let '(r, rng) := kiss99_next rng in
  src ← swap src (i - 1) (Z.rem r i);
  Ok (rng, dst, src).

Definition mix_rng_init (seed_lo seed_hi : Z) : result fault mix_rng_state :=
  let z := fnv1a fnv_offset_basis seed_lo in
  let w := fnv1a z seed_hi in
  let jsr := fnv1a w seed_lo in
  let jcong := fnv1a jsr seed_hi in
  let ids := Z.of_nat <$> seq 0 32 in
  let* (rng, dst, src) := for_each (reverse (Z.of_nat <$> seq 2 31)) shuffle_step (mkKiss z w jsr jcong, ids, ids) in
  Ok (mkRng rng 0 dst 0 src).

Definition next_rng (s : mix_rng_state) : Z * mix_rng_state :=
  let '(r, k) := kiss99_next (rng s) in (r, mkRng k (dst_counter s) (dst_seq s) (src_counter s) (src_seq s)).
Definition next_dst (s : mix_rng_state) : result fault (Z * mix_rng_state) :=
  d ← at_index (dst_seq s) (Z.rem (dst_counter s) num_regs);
  Ok (d, mkRng (rng s) (dst_counter s + 1) (dst_seq s) (src_counter s) (src_seq s)).
Definition next_src (s : mix_rng_state) : result fault (Z * mix_rng_state) :=
  d ← at_index (src_seq s) (Z.rem (src_counter s) num_regs);
  Ok (d, mkRng (rng s) (dst_counter s) (dst_seq s) (src_counter s + 1) (src_seq s)).

Definition random_math (a b selector : Z) : Z :=
  let k := Z.rem selector 11 in
  if k =? 1 then u32 (a * b)
  else if k =? 2 then mul_hi32 a b
  else if k =? 3 then Z.min a b
  else if k =? 4 then rotl32 a b
  else if k =? 5 then rotr32 a b
  else if k =? 6 then Z.land a b
  else if k =? 7 then Z.lor a b
  else if k =? 8 then Z.lxor a b
  else if k =? 9 then u32 (clz32 a + clz32 b)
  else if k =? 10 then u32 (popcount32 a + popcount32 b)
  else u32 (a + b).

Definition random_merge (a b selector : Z) : Z :=
  let x := Z.rem (Z.shiftr selector 16) 31 + 1 in
  let k := Z.rem selector 4 in
  if k =? 0 then u32 (u32 (a * 33) + b)
  else if k =? 1 then u32 (Z.lxor a b * 33)
  else if k =? 2 then Z.lxor (rotl32 a x) b
  else Z.lxor (rotr32 a x) b.

(** ** A round *)

Abbreviation mix_array := (list (list Z)).

(** [for (l = 0; l < num_lanes; ++l)] where the body uses the row [mix[l]] only. *)
Fixpoint each_lane (f : Z -> list Z -> result fault (list Z)) (l : Z) (mix : mix_array) : result fault mix_array :=
  match mix with
  | [] => Ok []
  | row :: mix => row ← f l row; mix ← each_lane f (l + 1) mix; Ok (row :: mix)
  end.

(** [random_merge(row[dst], b, sel)] *)
Definition merge_into (row : list Z) (dst b sel : Z) : result fault (list Z) :=
  a ← at_index row dst; set_index row dst (random_merge a b sel).

Definition cache_lane (l1_cache : list Z) (src dst sel : Z) (_ : Z) (row : list Z) : result fault (list Z) :=
  x ← at_index row src;
  word ← at_index l1_cache (Z.rem x l1_cache_num_items);
  merge_into row dst word sel.

Definition math_lane (src1 src2 sel1 dst sel2 : Z) (_ : Z) (row : list Z) : result fault (list Z) :=
  a ← at_index row src1; b ← at_index row src2;
  merge_into row dst (random_math a b sel1) sel2.

Definition cache_access (l1_cache : list Z) (st : mix_rng_state * mix_array) : result fault (mix_rng_state * mix_array) :=
  let '(state, mix) := st in
  let* (src, state) := next_src state in
  let* (dst, state) := next_dst state in
  let '(sel, state) := next_rng state in
  mix ← each_lane (cache_lane l1_cache src dst sel) 0 mix;
  Ok (state, mix).

Definition math_operation (st : mix_rng_state * mix_array) : result fault (mix_rng_state * mix_array) :=
  let '(state, mix) := st in
  let '(r, state) := next_rng state in
  let src_rnd := Z.rem r (num_regs * (num_regs - 1)) in
  let src1 := Z.rem src_rnd num_regs in
  let src2 := Z.quot src_rnd num_regs in
  let src2 := if src2 >=? src1 then src2 + 1 else src2 in
  let '(sel1, state) := next_rng state in
  let* (dst, state) := next_dst state in
  let '(sel2, state) := next_rng state in
  mix ← each_lane (math_lane src1 src2 sel1 dst sel2) 0 mix;
  Ok (state, mix).

Definition operation (l1_cache : list Z) (st : mix_rng_state * mix_array) (i : nat) : result fault (mix_rng_state * mix_array) :=
  st ← (if (i <? num_cache_accesses)%nat then cache_access l1_cache st else Ok st);
  if (i <? num_math_operations)%nat then math_operation st else Ok st.

(** The destinations and selectors of the access to the dataset; the first destination is
    register zero. *)
Definition dag_pattern (state : mix_rng_state) : result fault (list (Z * Z) * mix_rng_state) :=
  for_each (seq 0 4) (fun '(pattern, state) i =>
    let* (dst, state) := (if (i =? 0)%nat then Ok (0, state) else next_dst state) in
    let '(sel, state) := next_rng state in
    Ok (pattern ++ [(dst, sel)], state)) ([], state).

Definition dag_lane (item : list Z) (r : Z) (pattern : list (Z * Z)) (l : Z) (row : list Z) : result fault (list Z) :=
  let offset := Z.rem (Z.lxor l r) num_lanes * 4 in
  let* (_, row) := for_each pattern (fun '(i, row) '(dst, sel) =>
    word ← at_index item (offset + i);
    row ← merge_into row dst word sel;
    Ok (i + 1, row)) (0, row) in
  Ok row.

Definition max_operations : nat := Nat.max num_cache_accesses num_math_operations.

Section Round.
(** [lookup]: an item of 2048 bits and what the lookup leaves behind. *)
Context {D : Type} (context : epoch_context) (lookup : D -> Z -> result fault (bytes * D)).

(** The state of the generator is passed by value: every round of a hash starts from the same. *)
Definition round (state : mix_rng_state) (st : mix_array * D) (r : Z) : result fault (mix_array * D) :=
  let '(mix, d) := st in
  let num_items := u32 (Z.quot (full_dataset_num_items context) 2) in
  row ← at_index mix (Z.rem r num_lanes);
  x ← at_index row 0;
  item_index ← rem x num_items;
  let* (item, d) := lookup d item_index in
  let* (state, mix) := for_each (seq 0 max_operations) (operation (l1_cache context)) (state, mix) in
  let* (pattern, _) := dag_pattern state in
  mix ← each_lane (dag_lane (word32s item) r pattern) 0 mix;
  Ok (mix, d).

(** [init_mix]: a row is what a generator of the lane yields. *)
Fixpoint kiss_sequence (n : nat) (k : kiss99) : list Z :=
  match n with O => [] | S n => let '(x, k) := kiss99_next k in x :: kiss_sequence n k end.
Definition init_mix (seed0 seed1 : Z) : mix_array :=
  let z := fnv1a fnv_offset_basis seed0 in
  let w := fnv1a z seed1 in
  (fun l => let jsr := fnv1a w l in kiss_sequence 32 (mkKiss z w jsr (fnv1a jsr l))) <$> (Z.of_nat <$> seq 0 16).

Definition reduce_lane (row : list Z) : Z := foldl fnv1a fnv_offset_basis row.

(** The reduction of the lanes: lane [l] goes into word [l % 8]. *)
Definition reduce_lanes (lane_hash : list Z) : list Z :=
  foldl (fun words '(l, h) => alter (fun w => fnv1a w h) (l mod 8)%nat words) (replicate 8 fnv_offset_basis)
    (zip (seq 0 (length lane_hash)) lane_hash).

Definition hash_mix (block_number seed0 seed1 : Z) (d : D) : result fault (bytes * D) :=
  let number := u64 (Z.quot block_number period_length) in
  state ← mix_rng_init (u32 number) (u32 (Z.shiftr number 32));
  let* (mix, d) := for_each (Z.of_nat <$> seq 0 64) (round state) (init_mix seed0 seed1, d) in
  Ok (of_word32s (reduce_lanes (reduce_lane <$> mix)), d).
End Round.

(** ** The hash *)

Definition ravencoin_kawpow : list Z :=
  [0x72; 0x41; 0x56; 0x45; 0x4E; 0x43; 0x4F; 0x49; 0x4E; 0x4B; 0x41; 0x57; 0x50; 0x4F; 0x57].

(** The first permutation: its first eight words. *)
Definition seed_state (header_hash : bytes) (nonce : Z) : list Z :=
  take 8 (ethash_keccakf800 (take 8 (word32s header_hash) ++ [u32 nonce; u32 (Z.shiftr nonce 32)] ++ ravencoin_kawpow)).
(** The last one: the digest. *)
Definition final_state (state2 : list Z) (mix_hash : bytes) : bytes :=
  of_word32s (take 8 (ethash_keccakf800 (state2 ++ take 8 (word32s mix_hash) ++ take 9 ravencoin_kawpow))).

Definition light_lookup_2048 (context : epoch_context) (d : unit) (index : Z) : result fault (bytes * unit) :=
  item ← calculate_dataset_item_2048 context index; Ok (item, tt).

(** The hash with [hash_mix] over a lookup: the final hash and the mix hash. *)
Definition hash_with {D} (context : epoch_context) (lookup : D -> Z -> result fault (bytes * D)) (block_number : Z)
  (header_hash : bytes) (nonce : Z) (d : D) : result fault (bytes * bytes * D) :=
  let state2 := seed_state header_hash nonce in
  let* (mix_hash, d) := hash_mix context lookup block_number (nth 0 state2 0) (nth 1 state2 0) d in
  Ok (final_state state2 mix_hash, mix_hash, d).

Definition hash (context : epoch_context) (block_number : Z) (header_hash : bytes) (nonce : Z) : result fault (bytes * bytes) :=
  let* (final_hash, mix_hash, _) := hash_with context (light_lookup_2048 context) block_number header_hash nonce tt in
  Ok (final_hash, mix_hash).

Definition progpow_hash_full (context : epoch_context) (full_dataset : list bytes) (block_number : Z) (header_hash : bytes) (nonce : Z)
  : result fault (bytes * bytes * list bytes) :=
  hash_with context (lazy_lookup (calculate_dataset_item_2048 context)) block_number header_hash nonce full_dataset.

Definition hash_no_verify (header_hash mix_hash : bytes) (nonce : Z) : bytes :=
  final_state (seed_state header_hash nonce) mix_hash.

Definition verify (context : epoch_context) (block_number : Z) (header_hash mix_hash : bytes) (nonce : Z) (boundary : bytes) : result fault bool :=
  let state2 := seed_state header_hash nonce in
  if negb (is_less_or_equal (final_state state2 mix_hash) boundary) then Ok false
  else
    let* (expected_mix_hash, _) := hash_mix context (light_lookup_2048 context) block_number (nth 0 state2 0) (nth 1 state2 0) tt in
    Ok (bool_decide (expected_mix_hash = mix_hash)).

Definition progpow_search_light (context : epoch_context) (block_number : Z) (header_hash boundary : bytes) (start_nonce iterations : Z)
  : result fault (option (bytes * bytes * Z)) :=
  let end_nonce := u64 (start_nonce + iterations) in
  search_loop (hash context block_number header_hash) boundary (Z.to_nat (end_nonce - start_nonce)) start_nonce.

(** ** The hash of a header: [src/hash.cpp] *)

(** [to_hash256(h.GetHex())] and [uint256S(to_hex(h))]: a [uint256] is displayed from its
    last byte on. *)
Definition hex_order (h : bytes) : bytes := reverse h.

(** [KAWPOWHash] with the context it keeps in a static variable; the block number is the
    height the header claims, as an [int]. *)
Definition KAWPOWHash (static_context : option epoch_context) (blockHeader : CBlockHeader)
  : result fault (bytes * bytes * epoch_context) :=
  let block_number := i32 (hdr_nHeight blockHeader) in
  let epoch := get_epoch_number block_number in
  context ← match static_context with
            | Some c => if epoch_number c =? epoch then Ok c else create_epoch_context epoch
            | None => create_epoch_context epoch
            end;
  let header_hash := hex_order (GetKAWPOWHeaderHash blockHeader) in
  let* (final_hash, mix_hash) := hash context block_number header_hash (hdr_nNonce64 blockHeader) in
  Ok (hex_order final_hash, hex_order mix_hash, context).

Definition KAWPOWHash_OnlyMix (blockHeader : CBlockHeader) : bytes :=
  hex_order (hash_no_verify (hex_order (GetKAWPOWHeaderHash blockHeader)) (hex_order (hdr_mix_hash blockHeader)) (hdr_nNonce64 blockHeader)).

(** ** Words *)

Lemma land_u32 x y : is_u32 x -> is_u32 y -> is_u32 (Z.land x y).
Proof.
  change is_u32 with (in_word 32). rewrite !in_word_bits by lia. intros [Hx Bx] [Hy By].
  split; [apply Z.land_nonneg; by left|]. intros i Hi. by rewrite Z.land_spec, Bx.
Qed.
Lemma lor_u32 x y : is_u32 x -> is_u32 y -> is_u32 (Z.lor x y).
Proof. intros Hx Hy. apply (lor_range x y 32); [lia|done|done]. Qed.
Lemma shiftr_u32 x n : is_u32 x -> 0 <= n -> is_u32 (Z.shiftr x n).
Proof.
  intros [H0 H1] Hn. rewrite Z.shiftr_div_pow2 by done. pose proof (Z.pow_pos_nonneg 2 n ltac:(lia) Hn).
  split; [apply Z.div_pos; lia|]. eapply Z.le_lt_trans; [|exact H1]. apply Z.div_le_upper_bound; nia.
Qed.
Lemma rotl32_u32 n c : is_u32 n -> is_u32 (rotl32 n c).
Proof. intros H. apply lor_u32; [apply u32_range|]. apply shiftr_u32; [done|]. apply Z.land_nonneg. right. lia. Qed.
Lemma rotr32_u32 n c : is_u32 n -> is_u32 (rotr32 n c).
Proof. intros H. apply lor_u32; [|apply u32_range]. apply shiftr_u32; [done|]. apply Z.land_nonneg. right. lia. Qed.
Lemma mul_hi32_u32 x y : is_u32 x -> is_u32 y -> is_u32 (mul_hi32 x y).
Proof.
  intros Hx Hy. unfold mul_hi32. rewrite Z.shiftr_div_pow2 by lia. ranges.
  split; [apply Z.div_pos; nia|apply Z.div_lt_upper_bound; nia].
Qed.
Lemma random_math_u32 a b s : is_u32 a -> is_u32 b -> is_u32 (random_math a b s).
Proof.
  intros Ha Hb. unfold random_math. repeat (case_match; [solve [auto using u32_range, mul_hi32_u32, rotl32_u32, rotr32_u32, land_u32, lor_u32, lxor_u32 | ranges; lia]|]).
  apply u32_range.
Qed.
Lemma random_merge_u32 a b s : is_u32 a -> is_u32 b -> is_u32 (random_merge a b s).
Proof. intros Ha Hb. unfold random_merge. repeat case_match; auto using u32_range, lxor_u32, rotl32_u32, rotr32_u32. Qed.
Lemma kiss99_u32 k : is_u32 (kiss99_next k).1.
Proof. apply u32_range. Qed.

(** ** The shuffle *)

Definition swap_at (i j k : nat) : nat := if decide (k = i) then j else if decide (k = j) then i else k.
#[export] Instance swap_at_inj i j : Inj (=) (=) (swap_at i j).
Proof. intros a b. unfold swap_at. repeat case_decide; congruence. Qed.

Lemma swap_permutes l i j : 0 <= i < Z.of_nat (length l) -> 0 <= j < Z.of_nat (length l) ->
  exists l', swap l i j = Ok l' /\ l' ≡ₚ l.
Proof.
  intros Hi Hj. unfold swap, set_index, at_index.
  destruct (Z.ltb_spec i 0), (Z.ltb_spec j 0); try lia.
  destruct (lookup_lt_is_Some_2 l (Z.to_nat i)) as [a Ha]; [lia|]. destruct (lookup_lt_is_Some_2 l (Z.to_nat j)) as [b Hb]; [lia|].
  rewrite Ha, Hb. cbn [mbind result_bind].
  destruct (lookup_lt_is_Some_2 (<[Z.to_nat i:=b]> l) (Z.to_nat j)) as [x Hx]; [rewrite length_insert; lia|].
  rewrite Hx. cbn [mbind result_bind]. eexists. split; [done|].
  apply Permutation_inj. rewrite !length_insert. split; [done|]. exists (swap_at (Z.to_nat i) (Z.to_nat j)). split; [apply _|].
  intros k. unfold swap_at. destruct (decide (k = Z.to_nat j)) as [->|Hkj].
  - rewrite list_lookup_insert_eq by (rewrite length_insert; lia). destruct (decide (Z.to_nat j = Z.to_nat i)) as [E|]; [congruence|done].
  - rewrite list_lookup_insert_ne by done. destruct (decide (k = Z.to_nat i)) as [->|].
    + by rewrite list_lookup_insert_eq by lia.
    + by rewrite list_lookup_insert_ne.
Qed.

Definition registers : list Z := Z.of_nat <$> seq 0 32.

Lemma registers_length : length registers = 32%nat.
Proof. done. Qed.

Lemma shuffle_step_ok rng dst src i : 2 <= i <= 32 -> dst ≡ₚ registers -> src ≡ₚ registers ->
  returns (fun '(_, dst, src) => dst ≡ₚ registers /\ src ≡ₚ registers) (shuffle_step (rng, dst, src) i).
Proof.
  intros Hi Hd Hs. unfold shuffle_step. pose proof (Permutation_length Hd) as Ld. pose proof (Permutation_length Hs) as Ls. rewrite registers_length in Ld, Ls.
  destruct (kiss99_next rng) as [r k] eqn:E1. pose proof (kiss99_u32 rng) as R. rewrite E1 in R. destruct R as [R _]. cbn in R.
  destruct (swap_permutes dst (i - 1) (Z.rem r i)) as (dst' & -> & Hd'); [lia|rewrite Ld; pose proof (Z.rem_bound_pos r i); lia|]. cbn [mbind result_bind].
  destruct (kiss99_next k) as [r2 k2] eqn:E2. pose proof (kiss99_u32 k) as R2. rewrite E2 in R2. destruct R2 as [R2 _]. cbn in R2.
  destruct (swap_permutes src (i - 1) (Z.rem r2 i)) as (src' & -> & Hs'); [lia|rewrite Ls; pose proof (Z.rem_bound_pos r2 i); lia|].
  cbn. by rewrite Hd', Hs'.
Qed.

(** The state of a generator: both sequences are permutations of the registers. *)
Definition rng_ok (s : mix_rng_state) : Prop :=
  dst_seq s ≡ₚ registers /\ src_seq s ≡ₚ registers /\ 0 <= dst_counter s /\ 0 <= src_counter s.

Lemma mix_rng_init_ok lo hi : returns rng_ok (mix_rng_init lo hi).
Proof.
  unfold mix_rng_init. cbv zeta. set (k := mkKiss _ _ _ _). clearbody k.
  pose proof (returns_for (fun '(_, dst, src) => dst ≡ₚ registers /\ src ≡ₚ registers) (reverse (Z.of_nat <$> seq 2 31)) shuffle_step
    (k, Z.of_nat <$> seq 0 32, Z.of_nat <$> seq 0 32) ltac:(done)) as H.
  destruct (for_each _ _ _) as [[[rng dst] src]|]; cbn [returns] in H; [cbn [returns]; destruct H as [Hd Hs]; [|by split_and!]|apply H];
    intros i [[k' d] s] Hi [Hd Hs]; rewrite elem_of_reverse in Hi; apply list_elem_of_fmap in Hi as (j & -> & Hj%elem_of_seq);
    by apply shuffle_step_ok; [lia| |].
Qed.

Lemma register_range l i : l ≡ₚ registers -> 0 <= i < 32 -> returns (fun d => 0 <= d < 32) (at_index l i).
Proof.
  intros Hl Hi. apply returns_at; [rewrite (Permutation_length Hl); exact Hi|]. rewrite Hl. apply Forall_forall.
  intros x (k & -> & Hk%elem_of_seq)%list_elem_of_fmap. lia.
Qed.
Lemma next_dst_ok s : rng_ok s -> returns (fun '(d, s) => 0 <= d < 32 /\ rng_ok s) (next_dst s).
Proof.
  intros (Hd & Hs & Cd & Cs). unfold next_dst. eapply returns_bind.
  - apply (register_range _ _ Hd). unfold num_regs. rewrite Z.rem_mod_nonneg by lia. apply Z.mod_pos_bound. lia.
  - intros d Hr. cbn. split; [done|]. split_and!; cbn; try done; lia.
Qed.
Lemma next_src_ok s : rng_ok s -> returns (fun '(d, s) => 0 <= d < 32 /\ rng_ok s) (next_src s).
Proof.
  intros (Hd & Hs & Cd & Cs). unfold next_src. eapply returns_bind.
  - apply (register_range _ _ Hs). unfold num_regs. rewrite Z.rem_mod_nonneg by lia. apply Z.mod_pos_bound. lia.
  - intros d Hr. cbn. split; [done|]. split_and!; cbn; try done; lia.
Qed.
Lemma next_rng_ok s : rng_ok s -> is_u32 (next_rng s).1 /\ rng_ok (next_rng s).2.
Proof. intros H. unfold next_rng. pose proof (kiss99_u32 (rng s)). by destruct (kiss99_next (rng s)). Qed.

(** ** The lanes *)

Definition row_ok (row : list Z) : Prop := length row = 32%nat /\ Forall is_u32 row.
Definition mix_ok (mix : mix_array) : Prop := length mix = 16%nat /\ Forall row_ok mix.

Lemma each_lane_ok f : forall mix l, 0 <= l -> (forall l row, 0 <= l -> row_ok row -> returns row_ok (f l row)) -> Forall row_ok mix ->
  returns (fun mix' => length mix' = length mix /\ Forall row_ok mix') (each_lane f l mix).
Proof.
  intros mix. induction mix as [|row mix IH]; intros l Hl Hf Hm; cbn [each_lane]; [done|].
  apply Forall_cons in Hm as [Hr Hm]. eapply returns_bind; [by apply Hf|]. intros row' Hr'.
  eapply returns_bind; [apply IH; [lia|done|done]|]. intros mix' [L F]. cbn. split; [by rewrite L|by constructor].
Qed.
Lemma lanes_ok f mix : (forall l row, 0 <= l -> row_ok row -> returns row_ok (f l row)) -> mix_ok mix -> returns mix_ok (each_lane f 0 mix).
Proof.
  intros Hf [L F]. eapply returns_weaken; [|apply each_lane_ok; [lia|done|done]]. intros m [Lm Fm]. split; [lia|done].
Qed.

Lemma row_at row i : row_ok row -> 0 <= i < 32 -> returns is_u32 (at_index row i).
Proof. intros [L F] Hi. apply (returns_at is_u32); [lia|done]. Qed.
Lemma merge_into_ok row dst b sel : row_ok row -> 0 <= dst < 32 -> is_u32 b -> returns row_ok (merge_into row dst b sel).
Proof.
  intros Hr Hd Hb. unfold merge_into. eapply returns_bind; [by apply row_at|]. intros a Ha. destruct Hr as [L F].
  eapply returns_weaken; [|apply (returns_set is_u32); [lia|done|by apply random_merge_u32]]. intros l [Ll Fl]. split; [lia|done].
Qed.

Section Rounds.
Context (c : epoch_context) (Hc : full_context c).

Lemma cache_lane_ok src dst sel l row : 0 <= src < 32 -> 0 <= dst < 32 -> row_ok row -> returns row_ok (cache_lane (l1_cache c) src dst sel l row).
Proof.
  destruct Hc as (_ & L1 & U1 & _). intros Hs Hd Hr. unfold cache_lane. eapply returns_bind; [by apply row_at|]. intros x [Hx _].
  change l1_cache_num_items with 4096. eapply returns_bind.
  - apply (returns_at is_u32); [|done]. rewrite L1, Z.rem_mod_nonneg by lia. apply Z.mod_pos_bound. lia.
  - intros w Hw. by apply merge_into_ok.
Qed.
Lemma math_lane_ok src1 src2 sel1 dst sel2 l row : 0 <= src1 < 32 -> 0 <= src2 < 32 -> 0 <= dst < 32 -> row_ok row ->
  returns row_ok (math_lane src1 src2 sel1 dst sel2 l row).
Proof.
  intros H1 H2 Hd Hr. unfold math_lane. eapply returns_bind; [by apply row_at|]. intros a Ha. eapply returns_bind; [by apply row_at|].
  intros b Hb. apply merge_into_ok; [done|done|]. by apply random_math_u32.
Qed.

Abbreviation st_ok := (fun st : mix_rng_state * mix_array => rng_ok st.1 /\ mix_ok st.2).

(** [let* (x, y) := m in k] *)
Lemma returns_let {A B C} (P : A -> B -> Prop) (Q : C -> Prop) (m : result fault (A * B)) (k : A -> B -> result fault C) :
  returns (fun '(a, b) => P a b) m -> (forall a b, P a b -> returns Q (k a b)) ->
  returns Q (match m with Ok (a, b) => k a b | Err e => Err e end).
Proof. destruct m as [[a b]|]; cbn; auto. Qed.

Lemma cache_access_ok st : st_ok st -> returns st_ok (cache_access (l1_cache c) st).
Proof.
  destruct st as [s mix]. cbn. intros [Hs Hm].
  eapply (returns_let (fun d s => 0 <= d < 32 /\ rng_ok s)); [by apply next_src_ok|]. intros src s1 [Hsrc Hs1].
  eapply (returns_let (fun d s => 0 <= d < 32 /\ rng_ok s)); [by apply next_dst_ok|]. intros dst s2 [Hdst Hs2].
  destruct (next_rng_ok s2 Hs2) as [_ Hs3]. destruct (next_rng s2) as [sel s3].
  eapply returns_bind; [apply lanes_ok; [|done]; intros l row _ Hr; by apply cache_lane_ok|]. intros mix' Hm'. by cbn.
Qed.

Lemma math_operation_ok st : st_ok st -> returns st_ok (math_operation st).
Proof.
  destruct st as [s mix]. cbn [fst snd]. intros [Hs Hm]. unfold math_operation, num_regs.
  destruct (next_rng_ok s Hs) as [[R0 _] Hs1]. destruct (next_rng s) as [r s1]. cbn [fst snd] in R0, Hs1.
  set (src_rnd := Z.rem r (32 * (32 - 1))). assert (0 <= src_rnd < 992) as Hrnd by (apply Z.rem_bound_pos; lia).
  set (src1 := Z.rem src_rnd 32). assert (0 <= src1 < 32) as H1 by (apply Z.rem_bound_pos; lia).
  assert (0 <= Z.quot src_rnd 32 < 31) as Hq.
  { rewrite Z.quot_div_nonneg by lia. split; [apply Z.div_pos; lia|apply Z.div_lt_upper_bound; lia]. }
  set (src2 := if Z.quot src_rnd 32 >=? src1 then Z.quot src_rnd 32 + 1 else Z.quot src_rnd 32).
  assert (0 <= src2 < 32) as H2 by (subst src2; destruct (_ >=? _); lia). clearbody src1 src2.
  destruct (next_rng_ok s1 Hs1) as [_ Hs2]. destruct (next_rng s1) as [sel1 s2]. cbn [snd] in Hs2.
  eapply (returns_let (fun d s => 0 <= d < 32 /\ rng_ok s)); [by apply next_dst_ok|]. intros dst s3 [Hdst Hs3].
  destruct (next_rng_ok s3 Hs3) as [_ Hs4]. destruct (next_rng s3) as [sel2 s4].
  eapply returns_bind; [apply lanes_ok; [|done]; intros l row _ Hr; by apply math_lane_ok|]. intros mix' Hm'. by cbn.
Qed.

Lemma operation_ok st i : st_ok st -> returns st_ok (operation (l1_cache c) st i).
Proof.
  intros H. unfold operation. eapply (returns_bind st_ok).
  - destruct (_ <? _)%nat; [by apply cache_access_ok|done].
  - intros st' H'. destruct (_ <? _)%nat; [by apply math_operation_ok|done].
Qed.

Lemma dag_pattern_ok s : rng_ok s ->
  returns (fun '(p, s) => length p = 4%nat /\ Forall (fun '(d, _) => 0 <= d < 32) p) (dag_pattern s).
Proof.
  intros Hs. unfold dag_pattern.
  assert (forall n k p s, rng_ok s -> Forall (fun '(d, _) => 0 <= d < 32) p ->
    returns (fun '(p', _) => length p' = (length p + n)%nat /\ Forall (fun '(d, _) => 0 <= d < 32) p')
      (for_each (seq k n) (fun '(pattern, state) i =>
        let* (dst, state) := (if (i =? 0)%nat then Ok (0, state) else next_dst state) in
        let '(sel, state) := next_rng state in Ok (pattern ++ [(dst, sel)], state)) (p, s))) as H.
  { induction n as [|n IH]; intros k p s0 Hs0 Hp; cbn [seq for_each]; [cbn; split; [lia|done]|].
    assert (returns (fun '(d, s) => 0 <= d < 32 /\ rng_ok s) (if (k =? 0)%nat then Ok (0, s0) else next_dst s0)) as Hd.
    { destruct (k =? 0)%nat; [cbn; split; [lia|done]|by apply next_dst_ok]. }
    destruct (if (k =? 0)%nat then _ else _) as [[dst s1]|]; [|done]. destruct Hd as [Hd Hs1].
    destruct (next_rng_ok s1 Hs1) as [_ Hs2]. destruct (next_rng s1) as [sel s2]. cbn [mbind result_bind].
    assert (Forall (fun '(d, _) => 0 <= d < 32) (p ++ [(dst, sel)])) as Hp' by (apply Forall_app; split; [done|by apply Forall_singleton]).
    eapply returns_weaken; [|apply (IH (S k) _ s2 Hs2 Hp')]. intros [p' s'] [Lp Fp]. split; [|done]. rewrite Lp, length_app. cbn. lia. }
  eapply returns_weaken; [|apply (H 4%nat 0%nat [] s Hs); constructor]. intros [p s']. done.
Qed.

Lemma dag_lane_ok item r pattern l row : length item = 64%nat -> Forall is_u32 item -> 0 <= r -> 0 <= l ->
  length pattern = 4%nat -> Forall (fun '(d, _) => 0 <= d < 32) pattern -> row_ok row ->
  returns row_ok (dag_lane item r pattern l row).
Proof.
  intros Li Ui Hr Hl Lp Fp Hrow. unfold dag_lane, num_lanes.
  assert (0 <= Z.rem (Z.lxor l r) 16 < 16) as Ho by (apply Z.rem_bound_pos; [apply Z.lxor_nonneg; lia|lia]).
  set (o := Z.rem (Z.lxor l r) 16) in *. clearbody o.
  assert (forall p i row, 0 <= i -> i + Z.of_nat (length p) <= 4 -> Forall (fun '(d, _) => 0 <= d < 32) p -> row_ok row ->
    returns (fun '(_, row) => row_ok row) (for_each p (fun '(i, row) '(dst, sel) =>
      word ← at_index item (o * 4 + i); row ← merge_into row dst word sel; Ok (i + 1, row)) (i, row))) as H.
  { induction p as [|[dst sel] p IH]; intros i row0 Hi Hle Hp Hr0; cbn [for_each]; [done|].
    apply Forall_cons in Hp as [Hd Hp]. cbn [length] in Hle. rewrite Nat2Z.inj_succ in Hle.
    assert (returns is_u32 (at_index item (o * 4 + i))) as Hw by (apply (returns_at is_u32); [lia|done]).
    apply returns_Ok in Hw as (w & -> & Hw). cbn [mbind result_bind].
    pose proof (merge_into_ok row0 dst w sel Hr0 Hd Hw) as Hm. apply returns_Ok in Hm as (row1 & -> & Hr1). cbn [mbind result_bind].
    apply IH; [lia|lia|done|done]. }
  eapply (returns_let (fun _ row => row_ok row)); [apply (H pattern 0 row); [lia|lia|done|done]|]. intros _ row' Hr'. done.
Qed.

(** ** The mix *)

Lemma kiss_sequence_ok n k : length (kiss_sequence n k) = n /\ Forall is_u32 (kiss_sequence n k).
Proof.
  revert k. induction n as [|n IH]; intros k; cbn [kiss_sequence]; [by split|]. pose proof (kiss99_u32 k). destruct (kiss99_next k) as [x k'].
  cbn [length]. destruct (IH k') as [-> ?]. split; [done|by constructor].
Qed.
Lemma init_mix_ok s0 s1 : mix_ok (init_mix s0 s1).
Proof.
  unfold init_mix. split; [by rewrite !length_fmap, length_seq|]. apply Forall_fmap, Forall_forall. intros l _. apply kiss_sequence_ok.
Qed.

(** The lookups of the light client and of the full dataset side by side. *)
Definition mix_rel (s : mix_array * unit) (t : mix_array * list bytes) : Prop :=
  s.1 = t.1 /\ mix_ok t.1 /\ dataset_ok (calculate_dataset_item_2048 c) t.2 /\ Z.of_nat (length t.2) = full_dataset_num_items c / 2.

Lemma round_sim state r s t : rng_ok state -> 0 <= r -> mix_rel s t ->
  exists s' t', round c (light_lookup_2048 c) state s r = Ok s'
    /\ round c (lazy_lookup (calculate_dataset_item_2048 c)) state t r = Ok t' /\ mix_rel s' t'.
Proof.
  destruct s as [mix []], t as [mix' ds]. intros Hs Hr (E & Hm & Hds & Hn). cbn [fst snd] in *. subst mix'.
  destruct Hc as (Hok & _ & _ & Hf). unfold round. rewrite Z.quot_div_nonneg by lia.
  assert (1 <= full_dataset_num_items c / 2 < 2 ^ 31) as Hni.
  { split; [apply Z.div_le_lower_bound; lia|]. apply Z.div_lt_upper_bound; lia. }
  rewrite (u32_id (full_dataset_num_items c / 2)) by (ranges; lia).
  assert (returns row_ok (at_index mix (Z.rem r num_lanes))) as Hrow.
  { destruct Hm as [Lm Fm]. apply (returns_at row_ok); [|done]. rewrite Lm. apply Z.rem_bound_pos; unfold num_lanes; lia. }
  apply returns_Ok in Hrow as (row & -> & Hrow). cbn [mbind result_bind].
  pose proof (row_at row 0 Hrow ltac:(lia)) as Hx. apply returns_Ok in Hx as (x & -> & [Hx _]). cbn [mbind result_bind].
  pose proof (returns_rem x (full_dataset_num_items c / 2) Hx ltac:(lia)) as Hp. apply returns_Ok in Hp as (p & -> & Hp & _). cbn [mbind result_bind].
  destruct (items_ok c p Hok ltac:(lia)) as [_ Hitem]. apply returns_Ok in Hitem as (item & Eit & Li & Bi).
  destruct (lazy_lookup_spec _ ds p item Hds ltac:(lia) Eit) as (ds' & -> & Hds' & Lds').
  unfold light_lookup_2048. rewrite Eit. cbn [mbind result_bind].
  assert (returns st_ok (for_each (seq 0 max_operations) (operation (l1_cache c)) (state, mix))) as Hops.
  { apply returns_for; [done|]. intros i st _ Hst. by apply operation_ok. }
  apply returns_Ok in Hops as ([state' mix1] & -> & Hs' & Hm1). cbn [fst snd] in Hs', Hm1.
  pose proof (dag_pattern_ok state' Hs') as Hpat. destruct (dag_pattern state') as [[pat s2]|]; [|done]. destruct Hpat as [Lp Fp].
  assert (returns mix_ok (each_lane (dag_lane (word32s item) r pat) 0 mix1)) as Hdag.
  { apply lanes_ok; [|done]. intros l row' Hl Hr'. apply dag_lane_ok; try done; [by apply word32s_length|by apply (word32s_u32 64)]. }
  apply returns_Ok in Hdag as (mix2 & -> & Hm2). cbn [mbind result_bind].
  do 2 eexists. split; [done|]. split; [done|]. split_and!; cbn; [done|done|done|lia].
Qed.

Lemma reduce_lanes_length l : length (reduce_lanes l) = 8%nat.
Proof.
  unfold reduce_lanes. generalize (zip (seq 0 (length l)) l). intros z. assert (length (replicate 8 fnv_offset_basis) = 8%nat) as H by done.
  revert H. generalize (replicate 8 fnv_offset_basis). induction z as [|[k h] z IH]; intros ws H; cbn [foldl]; [done|].
  apply IH. by rewrite length_alter.
Qed.

Lemma hash_mix_sim bn s0 s1 ds : dataset_ok (calculate_dataset_item_2048 c) ds -> Z.of_nat (length ds) = full_dataset_num_items c / 2 ->
  exists mix ds', hash_mix c (light_lookup_2048 c) bn s0 s1 tt = Ok (mix, tt) /\ is_hash 32 mix
    /\ hash_mix c (lazy_lookup (calculate_dataset_item_2048 c)) bn s0 s1 ds = Ok (mix, ds')
    /\ dataset_ok (calculate_dataset_item_2048 c) ds' /\ length ds' = length ds.
Proof.
  intros Hds Hn. unfold hash_mix. pose proof (mix_rng_init_ok (u32 (u64 (Z.quot bn period_length))) (u32 (Z.shiftr (u64 (Z.quot bn period_length)) 32))) as Hi.
  cbv zeta. apply returns_Ok in Hi as (state & -> & Hstate). cbn [mbind result_bind].
  destruct (for_each_sim mix_rel (Z.of_nat <$> seq 0 64) (round c (light_lookup_2048 c) state)
    (round c (lazy_lookup (calculate_dataset_item_2048 c)) state) (init_mix s0 s1, tt) (init_mix s0 s1, ds)) as ([mix []] & [mix' ds'] & -> & -> & HR).
  - split_and!; [done|apply init_mix_ok|done|done].
  - intros i s t Hi HR. apply round_sim; [done| |done]. apply list_elem_of_fmap in Hi as (k & -> & _). lia.
  - destruct HR as (E & Hm & Hds' & Hn'). cbn [fst snd] in *. subst mix'. do 2 eexists. split; [done|]. split.
    + split; [by rewrite of_word32s_length, reduce_lanes_length|apply of_word32s_bytes].
    + split; [done|]. split; [done|]. lia.
Qed.
End Rounds.

(** ** The hash *)

Lemma ethash_keccakf800_length s : length (ethash_keccakf800 s) = 25%nat.
Proof. done. Qed.
Lemma final_state_hash state2 mix : is_hash 32 (final_state state2 mix).
Proof.
  unfold final_state. split; [|apply of_word32s_bytes]. by rewrite of_word32s_length, length_take, ethash_keccakf800_length.
Qed.

Lemma hash_sim c bn header nonce ds : full_context c -> dataset_ok (calculate_dataset_item_2048 c) ds ->
  Z.of_nat (length ds) = full_dataset_num_items c / 2 ->
  exists final mix ds', hash c bn header nonce = Ok (final, mix) /\ is_hash 32 final /\ is_hash 32 mix
    /\ progpow_hash_full c ds bn header nonce = Ok (final, mix, ds')
    /\ dataset_ok (calculate_dataset_item_2048 c) ds' /\ length ds' = length ds /\ final = hash_no_verify header mix nonce.
Proof.
  intros Hc Hds Hn. unfold hash, progpow_hash_full, hash_with. cbv zeta. set (s2 := seed_state header nonce).
  destruct (hash_mix_sim c Hc bn (nth 0 s2 0) (nth 1 s2 0) ds Hds Hn) as (mix & ds' & -> & Hm & -> & Hds' & Hl).
  exists (final_state s2 mix), mix, ds'. split_and!; try done; apply final_state_hash.
Qed.

(** A dataset of which nothing is generated. *)
Lemma hash_ok c bn header nonce : full_context c ->
  exists final mix, hash c bn header nonce = Ok (final, mix) /\ is_hash 32 final /\ is_hash 32 mix
    /\ final = hash_no_verify header mix nonce.
Proof.
  intros Hc. destruct (hash_sim c bn header nonce (replicate (Z.to_nat (full_dataset_num_items c / 2)) (replicate 128 0)))
    as (final & mix & _ & E & Hf & Hm & _ & _ & _ & Ef); [done|apply empty_dataset_ok| |by exists final, mix].
  rewrite length_replicate. destruct Hc as (_ & _ & _ & H). pose proof (Z.div_pos (full_dataset_num_items c) 2). lia.
Qed.

Section Mix.
Context (c : epoch_context) (bn : Z) (header : bytes) (nonce : Z) (m : bytes).
Context (Em : hash_mix c (light_lookup_2048 c) bn (nth 0 (seed_state header nonce) 0) (nth 1 (seed_state header nonce) 0) tt = Ok (m, tt)).

Lemma hash_from_mix : hash c bn header nonce = Ok (hash_no_verify header m nonce, m).
Proof. unfold hash, hash_with, hash_no_verify. cbv zeta. rewrite Em. reflexivity. Qed.
Lemma verify_from_mix mix boundary : verify c bn header mix nonce boundary
  = if is_less_or_equal (hash_no_verify header mix nonce) boundary then Ok (bool_decide (m = mix)) else Ok false.
Proof. unfold verify, hash_no_verify. cbv zeta. rewrite Em. destruct (is_less_or_equal _ _); reflexivity. Qed.
End Mix.

Lemma hash_no_verify_spec c bn header nonce f m : hash c bn header nonce = Ok (f, m) -> f = hash_no_verify header m nonce.
Proof.
  unfold hash, hash_with, hash_no_verify. cbv zeta. generalize (seed_state header nonce). intros s2.
  generalize (hash_mix c (light_lookup_2048 c) bn (nth 0 s2 0) (nth 1 s2 0) tt). intros [[m' []]|]; [|discriminate].
  intros [= <- <-]. reflexivity.
Qed.

Lemma mix_exists c bn s0 s1 : full_context c -> exists m, hash_mix c (light_lookup_2048 c) bn s0 s1 tt = Ok (m, tt).
Proof.
  intros Hc. destruct (hash_mix_sim c Hc bn s0 s1 (replicate (Z.to_nat (full_dataset_num_items c / 2)) (replicate 128 0)))
    as (m & _ & E & _); [apply empty_dataset_ok| |by exists m].
  rewrite length_replicate. destruct Hc as (_ & _ & _ & H). pose proof (Z.div_pos (full_dataset_num_items c) 2). lia.
Qed.

Lemma create_epoch_number e c : create_epoch_context e = Ok c -> epoch_number c = e.
Proof. unfold create_epoch_context. intros H. do 4 ok_step H. by injection H as <-. Qed.

(** An epoch so far below zero that it has no items. *)
Lemma create_epoch_context_aborts e : -286332 <= e <= -128 -> exists f, create_epoch_context e = Err f.
Proof.
  intros He. unfold create_epoch_context, ethash_calculate_light_cache_num_items.
  change (light_cache_growth / 64) with 2048. change (light_cache_init_size / 64) with 262144.
  rewrite (to_int_Ok (e * 2048)) by lia. cbn [mbind result_bind]. rewrite (to_int_Ok (262144 + e * 2048)) by lia. cbn [mbind result_bind].
  unfold ethash_find_largest_prime at 1. destruct (Z.ltb_spec (262144 + e * 2048) 2); [|lia]. cbn [mbind result_bind].
  destruct (ethash_calculate_full_dataset_num_items e) as [n|f]; [by exists OutOfBounds|by exists f].
Qed.

#[local] Opaque hash_mix hash_no_verify create_epoch_context hash GetKAWPOWHeaderHash.

Lemma verify_spec c bn header mix nonce boundary final m : full_context c -> is_hash 32 boundary ->
  hash c bn header nonce = Ok (final, m) ->
  verify c bn header mix nonce boundary = Ok (bool_decide (m = mix) && (be_value final <=? be_value boundary)).
Proof.
  intros Hc Hb E. destruct (mix_exists c bn (nth 0 (seed_state header nonce) 0) (nth 1 (seed_state header nonce) 0) Hc) as [m' Em].
  rewrite (hash_from_mix _ _ _ _ _ Em) in E. injection E as <- <-. rewrite (verify_from_mix _ _ _ _ _ Em).
  rewrite is_less_or_equal_spec by (exact Hb || apply final_state_hash). destruct (bool_decide_reflect (m' = mix)) as [<-|Hne].
  - rewrite andb_true_l. destruct (_ <=? _); reflexivity.
  - rewrite andb_false_l. destruct (_ <=? _); reflexivity.
Qed.

(** ** The hash of a header *)

(** A context that an earlier call left. *)
Definition cached_ok (cached : option epoch_context) : Prop :=
  match cached with Some c => create_epoch_context (epoch_number c) = Ok c | None => True end.

Definition height_limit : Z := (last_epoch + 1) * epoch_length.

Lemma cached_context cached e c : cached_ok cached -> create_epoch_context e = Ok c ->
  match cached with
  | Some c => if epoch_number c =? e then Ok c else create_epoch_context e
  | None => create_epoch_context e
  end = Ok c.
Proof.
  intros Hc E. destruct cached as [c0|]; [|exact E]. destruct (Z.eqb_spec (epoch_number c0) e) as [<-|]; [|exact E].
  rewrite <- E. symmetry. exact Hc.
Qed.

Lemma epoch_range bn : 0 <= bn < height_limit -> 0 <= get_epoch_number bn <= last_epoch.
Proof.
  unfold height_limit, last_epoch, epoch_length, get_epoch_number. intros H. destruct (bn =? 0); [lia|]. unfold epoch_length.
  rewrite Z.quot_div_nonneg by lia. split; [apply Z.div_pos; lia|]. apply Z.lt_succ_r, Z.div_lt_upper_bound; lia.
Qed.

Lemma KAWPOWHash_ok cached h : 0 <= hdr_nHeight h < height_limit -> cached_ok cached ->
  exists final mix c, KAWPOWHash cached h = Ok (final, mix, c) /\ create_epoch_context (get_epoch_number (hdr_nHeight h)) = Ok c
    /\ is_hash 32 final /\ is_hash 32 mix
    /\ (hdr_mix_hash h = mix -> KAWPOWHash_OnlyMix h = final).
Proof.
  intros Hh Hcached. unfold KAWPOWHash. cbv zeta.
  rewrite (i32_id (hdr_nHeight h)) by (unfold is_i32; unfold height_limit, last_epoch, epoch_length in Hh; lia).
  pose proof (create_epoch_context_ok (get_epoch_number (hdr_nHeight h)) (epoch_range _ Hh)) as Hc.
  apply returns_Ok in Hc as (c & Ec & Hc & _). rewrite (cached_context _ _ c Hcached Ec). cbn [mbind result_bind].
  destruct (hash_ok c (hdr_nHeight h) (hex_order (GetKAWPOWHeaderHash h)) (hdr_nNonce64 h) Hc) as (final & mix & -> & Hf & Hm & Ef).
  exists (hex_order final), (hex_order mix), c. split; [reflexivity|]. split; [exact Ec|]. unfold hex_order, is_hash in *. rewrite !length_reverse.
  split; [split; [apply Hf|apply Forall_reverse, Hf]|]. split; [split; [apply Hm|apply Forall_reverse, Hm]|].
  intros E. unfold KAWPOWHash_OnlyMix, hex_order. rewrite E, reverse_involutive, <- Ef. reflexivity.
Qed.

(** The mix hash alone gives the hash, whatever the context was. *)
Lemma KAWPOWHash_only_mix cached h final mix c : KAWPOWHash cached h = Ok (final, mix, c) -> hdr_mix_hash h = mix ->
  KAWPOWHash_OnlyMix h = final.
Proof.
  unfold KAWPOWHash. cbv zeta. intros H Hm. apply bind_Ok in H as (ctx & _ & H). cbv beta in H.
  destruct (hash ctx (i32 (hdr_nHeight h)) (hex_order (GetKAWPOWHeaderHash h)) (hdr_nNonce64 h)) as [[f m]|] eqn:E; [|discriminate].
  injection H as <- <- _. apply hash_no_verify_spec in E. subst f. unfold KAWPOWHash_OnlyMix, hex_order in *. rewrite Hm, reverse_involutive. reflexivity.
Qed.

(** A height that is negative as an [int], far enough that the epoch has no items. *)
Lemma KAWPOWHash_aborts cached h : 2 ^ 31 <= hdr_nHeight h <= 2 ^ 32 - 128 * epoch_length -> cached_ok cached ->
  exists f, KAWPOWHash cached h = Err f.
Proof.
  unfold epoch_length. intros Hh Hcached. unfold KAWPOWHash. cbv zeta.
  assert (i32 (hdr_nHeight h) = hdr_nHeight h - 2 ^ 32) as ->.
  { unfold i32, swrap. change (2 ^ (32 - 1)) with (2 ^ 31).
    rewrite <- (Z.mod_unique_pos (hdr_nHeight h + 2 ^ 31) (2 ^ 32) 1 (hdr_nHeight h - 2 ^ 31)) by lia. lia. }
  set (e := get_epoch_number (hdr_nHeight h - 2 ^ 32)).
  assert (-286332 <= e <= -128) as He.
  { subst e. unfold get_epoch_number, epoch_length. destruct (Z.eqb_spec (hdr_nHeight h - 2 ^ 32) 0); [lia|].
    replace (hdr_nHeight h - 2 ^ 32) with (- (2 ^ 32 - hdr_nHeight h)) by lia. rewrite Z.quot_opp_l, Z.quot_div_nonneg by lia.
    pose proof (Z.div_le_lower_bound (2 ^ 32 - hdr_nHeight h) 7500 128 ltac:(lia) ltac:(lia)).
    pose proof (Z.div_le_upper_bound (2 ^ 32 - hdr_nHeight h) 7500 286332 ltac:(lia) ltac:(lia)). lia. }
  destruct (create_epoch_context_aborts e He) as [f Ef].
  destruct cached as [c|]; [|rewrite Ef; by exists f].
  destruct (Z.eqb_spec (epoch_number c) e) as [E|]; [|rewrite Ef; by exists f]. cbn in Hcached. rewrite E in Hcached. congruence.
Qed.

(** ** Examples *)

Definition be32 (x : Z) : bytes := reverse (le_split 32 x).

(** Vectors of [progpow_test_vectors.hpp]: header hash, nonce, mix hash, final hash. *)
Definition vectors : list (Z * Z * Z * Z) :=
  [(0x63155f732f2bf556967f906155b510c917e48e99685ead76ea83f4eca03ab12b, 0x0000000007073c07,
    0xd36f7e815ee09e74eceb9c96993a3d681edf2bf0921fc7bb710364042db99777, 0xe7ced124598fd2500a55ad9f9f48e3569327fe50493c77a4ac9799b96efb9463);
   (0x9e7248f20914913a73d80a70174c331b1d34f260535ac3631d770e656b5dd922, 0x00000000076e482e,
    0xd6dc634ae837e2785b347648ea515e25e5d8821ae0b95e1c2a9c2d497e0dcfbd, 0xab0ad7ef8d8ee317dd12d10310aceed7321d34fb263791c2de5776a6658d177e);
   (0xde37e1824c86d35d154cf65a88de6d9286aec4f7f10c3fc9f0fa1bcc2687188d, 0x000000003917afab,
    0xfa706860e5e0e830d5d1d7157e5bea7f5f8a350c7c8612ac1d1fcf2974d64244, 0xaa85340690f2e907054324a5021937910e15edfd1ef1577231843e7d32ec3a61)].
Example progpow_vectors :
  forallb (fun '(h, n, m, f) => bool_decide (hash_no_verify (be32 h) (be32 m) n = be32 f)) vectors = true.
Proof. vm_compute. reflexivity. Qed.

(** A small context. *)
Definition small_context : epoch_context := mkContext 0 7 (replicate 7 (replicate 64 1)) (replicate 4096 5) 11.
Lemma small_context_ok : full_context small_context.
Proof.
  unfold full_context, context_ok, cache_ok, small_context. cbn [light_cache_num_items light_cache l1_cache full_dataset_num_items].
  rewrite !length_replicate. split; [|split; [done|split; [apply Forall_replicate; unfold is_u32; lia|lia]]].
  split; [lia|]. split; [done|]. apply Forall_replicate. split; [done|]. apply Forall_replicate. unfold is_u8. lia.
Qed.
Definition small_dataset : list bytes := replicate 5 (replicate 256 0).
Lemma small_dataset_ok : dataset_ok (calculate_dataset_item_2048 small_context) small_dataset.
Proof. intros i item [-> _]%lookup_replicate. left. done. Qed.

(** C14: All ways to compute the proof-of-work hash agree.  For every block number, header and
    nonce the light client returns a final hash and a mix hash; the full dataset gives the
    same, whatever part of it is generated, and stays consistent; the hash from the mix
    hash alone is the final hash; and [verify] accepts exactly that mix hash, when the
    final hash read as a big-endian number is at most the boundary. *)
Theorem progpow_agreement c bn header nonce ds mix' boundary :
  full_context c -> dataset_ok (calculate_dataset_item_2048 c) ds -> Z.of_nat (length ds) = full_dataset_num_items c / 2 ->
  is_hash 32 boundary ->
  exists final mix ds', hash c bn header nonce = Ok (final, mix)
    /\ progpow_hash_full c ds bn header nonce = Ok (final, mix, ds') /\ dataset_ok (calculate_dataset_item_2048 c) ds'
    /\ hash_no_verify header mix nonce = final
    /\ verify c bn header mix' nonce boundary = Ok (bool_decide (mix = mix') && (be_value final <=? be_value boundary)).
Proof.
  intros Hc Hds Hn Hb. destruct (hash_sim c bn header nonce ds Hc Hds Hn) as (final & mix & ds' & E & Hf & Hm & E2 & Hds' & _ & Ef).
  exists final, mix, ds'. split_and!; try done. by apply verify_spec.
Qed.

Lemma progpow_agreement_witness : exists final mix ds',
  hash small_context 49 (be32 3) 7 = Ok (final, mix) /\ progpow_hash_full small_context small_dataset 49 (be32 3) 7 = Ok (final, mix, ds').
Proof.
  destruct (progpow_agreement small_context 49 (be32 3) 7 small_dataset (be32 0) (be32 0)) as (final & mix & ds' & E & E2 & _).
  - exact small_context_ok.
  - exact small_dataset_ok.
  - reflexivity.
  - split; [reflexivity|]. apply Forall_reverse, le_split_bytes.
  - exists final, mix, ds'. exact (conj E E2).
Defined.

Definition example_header (height : Z) : CBlockHeader :=
  mkHeader 0x30000000 null_uint256 null_uint256 1800000000 0x1d00ffff 0 height 7 null_uint256.

(** The hash of a header is defined and does not depend on the cached context: for every
    claimed height below 244,800,000, the first at which the size of the dataset overflows,
    and whatever context an earlier call left, [KAWPOWHash] returns what it returns with no
    context cached, and keeps the context of the header's epoch.  Where the header carries
    the mix hash, the cheap hash [KAWPOWHash_OnlyMix] that names the block is the
    proof-of-work hash. *)
Theorem KAWPOWHash_defined cached h : 0 <= hdr_nHeight h < height_limit -> cached_ok cached ->
  exists final mix c, KAWPOWHash cached h = Ok (final, mix, c) /\ KAWPOWHash None h = Ok (final, mix, c) /\ cached_ok (Some c)
    /\ (hdr_mix_hash h = mix -> KAWPOWHash_OnlyMix h = final).
Proof.
  intros Hh Hcached. destruct (KAWPOWHash_ok cached h Hh Hcached) as (final & mix & c & E & Ec & _ & _ & Hmix).
  destruct (KAWPOWHash_ok None h Hh I) as (final' & mix' & c' & E' & Ec' & _). rewrite Ec in Ec'. injection Ec' as <-.
  exists final, mix, c. split; [exact E|]. split; [|split; [cbn [cached_ok]; rewrite (create_epoch_number _ _ Ec); exact Ec|exact Hmix]].
  unfold KAWPOWHash in E, E' |- *. cbv zeta in *. rewrite (i32_id (hdr_nHeight h)) in E, E' |- * by (unfold is_i32; unfold height_limit, last_epoch, epoch_length in Hh; lia).
  rewrite (cached_context _ _ c Hcached Ec) in E. rewrite Ec in E' |- *. cbn [mbind result_bind] in *. exact E.
Qed.

Lemma KAWPOWHash_defined_witness : exists final mix c, KAWPOWHash None (example_header 1219736) = Ok (final, mix, c).
Proof.
  destruct (KAWPOWHash_defined None (example_header 1219736)) as (final & mix & c & E & _).
  - split; vm_compute; [discriminate|reflexivity].
  - exact I.
  - exists final, mix, c. exact E.
Defined.
