(* ===== verification/Compressor.v ===== *)
(** * Compressed outputs: [src/compressor.h], [src/compressor.cpp], [src/coins.h]
    (the class [Coin]), [src/undo.h]

    The on-disk format of unspent outputs and of undo records: amounts and scripts
    are compressed.  Public keys are decompressed by the elliptic-curve library;
    what the node relies on is the class [PubKeyOk]. *)

From S2P Require Import Prelude Endian Params Serialize Script Transaction.

(** ** Amounts *)

(** [while (((n % 10) == 0) && e < 9) { n /= 10; e++; }] *)
Fixpoint strip_zeros (fuel : nat) (n e : Z) : Z * Z :=
  match fuel with
  | O => (n, e)
  | S fuel => if (n mod 10 =? 0) && (e <? 9) then strip_zeros fuel (n / 10) (e + 1) else (n, e)
  end.

Definition CompressAmount (n : Z) : Z :=
  if n =? 0 then 0 else
  let '(n, e) := strip_zeros 9 n 0 in
  if e <? 9 then
    let d := n mod 10 in
    let n := n / 10 in
    u64 (1 + (n * 9 + d - 1) * 10 + e)
  else u64 (1 + (n - 1) * 10 + 9).

(** [while (e) { n *= 10; e--; }] *)
Fixpoint scale_up (e : nat) (n : Z) : Z :=
  match e with
  | O => n
  | S e => scale_up e (u64 (n * 10))
  end.

Definition DecompressAmount (x : Z) : Z :=
  if x =? 0 then 0 else
  let x := x - 1 in
  let e := x mod 10 in
  let x := x / 10 in
  let n := if e <? 9 then u64 (x / 9 * 10 + (x mod 9 + 1)) else u64 (x + 1) in
  scale_up (Z.to_nat e) n.

(** ** Scripts *)

(** What the node uses of the public-key code: [IsFullyValid] and [Decompress] of an
    encoded key. *)
Class PubKeyLib := {
  IsFullyValid : bytes -> bool;
  pubkey_Decompress : bytes -> option bytes;
}.

(** A fully valid uncompressed key is recovered from its first coordinate and the
    parity of its second one. *)
Class PubKeyOk (L : PubKeyLib) : Prop :=
  Decompress_valid : forall x y,
    flat_ok 32 x -> flat_ok 32 y -> IsFullyValid (4 :: x ++ y) = true ->
    pubkey_Decompress (2 + default 0 (last y) mod 2 :: x) = Some (4 :: x ++ y).

Definition nSpecialScripts : Z := 6.

Section compressor.
Context {L : PubKeyLib}.

Definition IsToKeyID (script : bytes) : option bytes :=
  if (length script =? 25)%nat && (at_ script 0 =? OP_DUP) && (at_ script 1 =? OP_HASH160) &&
     (at_ script 2 =? 20) && (at_ script 23 =? OP_EQUALVERIFY) && (at_ script 24 =? OP_CHECKSIG)
  then Some (take 20 (drop 3 script)) else None.

Definition IsToScriptID (script : bytes) : option bytes :=
  if (length script =? 23)%nat && (at_ script 0 =? OP_HASH160) && (at_ script 1 =? 20) &&
     (at_ script 22 =? OP_EQUAL)
  then Some (take 20 (drop 2 script)) else None.

Definition IsToPubKey (script : bytes) : option bytes :=
  if (length script =? 35)%nat && (at_ script 0 =? 33) && (at_ script 34 =? OP_CHECKSIG) &&
     ((at_ script 1 =? 0x02) || (at_ script 1 =? 0x03))
  then Some (take 33 (drop 1 script))
  else if (length script =? 67)%nat && (at_ script 0 =? 65) && (at_ script 66 =? OP_CHECKSIG) &&
          (at_ script 1 =? 0x04)
  then let pubkey := take 65 (drop 1 script) in
       if IsFullyValid pubkey then Some pubkey else None
  else None.

Definition Compress (script : bytes) : option bytes :=
  match IsToKeyID script with
  | Some keyID => Some (0x00 :: keyID)
  | None =>
    match IsToScriptID script with
    | Some scriptID => Some (0x01 :: scriptID)
    | None =>
      match IsToPubKey script with
      | Some pubkey =>
        let out := take 32 (drop 1 pubkey) in
        if (at_ pubkey 0 =? 0x02) || (at_ pubkey 0 =? 0x03) then Some (at_ pubkey 0 :: out)
        else if at_ pubkey 0 =? 0x04 then Some (Z.lor 0x04 (Z.land (at_ pubkey 64) 0x01) :: out)
        else None
      | None => None
      end
    end
  end.

Definition GetSpecialSize (nSize : Z) : Z :=
  if (nSize =? 0) || (nSize =? 1) then 20
  else if (nSize =? 2) || (nSize =? 3) || (nSize =? 4) || (nSize =? 5) then 32
  else 0.

(** The script, when the return value is true. *)
Definition Decompress (nSize : Z) (vin : bytes) : option bytes :=
  if nSize =? 0 then
    Some ([opcode_value OP_DUP; opcode_value OP_HASH160; 20] ++ take 20 vin ++
          [opcode_value OP_EQUALVERIFY; opcode_value OP_CHECKSIG])
  else if nSize =? 1 then
    Some ([opcode_value OP_HASH160; 20] ++ take 20 vin ++ [opcode_value OP_EQUAL])
  else if (nSize =? 2) || (nSize =? 3) then
    Some ([33; nSize] ++ take 32 vin ++ [opcode_value OP_CHECKSIG])
  else if (nSize =? 4) || (nSize =? 5) then
    pubkey ← pubkey_Decompress (nSize - 2 :: take 32 vin);
    Some ([65] ++ pubkey ++ [opcode_value OP_CHECKSIG])
  else None.

(** [CDataStream::ignore(int nSize)]. *)
Definition stream_ignore (nSize : Z) (s : bytes) : result ser_error bytes :=
  if nSize <? 0 then Err EndOfData
  else if Z.of_nat (length s) <? nSize then Err EndOfData
  else Ok (drop (Z.to_nat nSize) s).

Definition write_script (script : bytes) : bytes :=
  match Compress script with
  | Some compr => compr
  | None => WriteVarInt 32 (u32 (Z.of_nat (length script) + nSpecialScripts)) ++ script
  end.

(** Into an empty script. *)
Definition read_script (s : bytes) : result ser_error (bytes * bytes) :=
  let* (nSize, s) := ReadVarInt 32 s in
  if nSize <? nSpecialScripts then
    let* (vch, s) := stream_read (GetSpecialSize nSize) s in
    Ok (default [] (Decompress nSize vch), s)
  else
    let nSize := nSize - nSpecialScripts in
    if nSize >? MAX_SCRIPT_SIZE then
      let* s := stream_ignore (i32 nSize) s in
      Ok ([opcode_value OP_RETURN], s)
    else stream_read nSize s.

Definition ser_compressed_script : codec bytes := mkCodec write_script read_script 32.

(** *** Outputs: [CTxOutCompressor] *)

Definition write_txout (o : CTxOut) : bytes :=
  WriteVarInt 64 (CompressAmount (u64 (nValue o))) ++ write_script (scriptPubKey o).
Definition read_txout (s : bytes) : result ser_error (CTxOut * bytes) :=
  let* (nVal, s) := ReadVarInt 64 s in
  let* (script, s) := read_script s in
  Ok (mkTxOut (i64 (DecompressAmount nVal)) script, s).
Definition ser_compressed_txout : codec CTxOut := mkCodec write_txout read_txout 40.
End compressor.

(** *** Unspent outputs *)

Record Coin := mkCoin { coin_out : CTxOut; fCoinBase : bool; coin_nHeight : Z }.

Definition Coin_empty : Coin := mkCoin txout_SetNull false 0.
Definition Coin_Clear (c : Coin) : Coin := Coin_empty.
Definition IsSpent (c : Coin) : bool := txout_IsNull (coin_out c).

Section coins_on_disk.
Context {L : PubKeyLib}.

Definition coin_code (c : Coin) : Z := u32 (coin_nHeight c * 2 + if fCoinBase c then 1 else 0).

(** [assert(!IsSpent())] is the [None] case. *)
Definition Coin_Serialize (c : Coin) : option bytes :=
  if IsSpent c then None
  else Some (WriteVarInt 32 (coin_code c) ++ write_txout (coin_out c)).
Definition Coin_Unserialize (s : bytes) : result ser_error (Coin * bytes) :=
  let* (code, s) := ReadVarInt 32 s in
  let* (out, s) := read_txout s in
  Ok (mkCoin out (negb (Z.land code 1 =? 0)) (Z.shiftr code 1), s).

(** *** Undo records *)

(** [nHeight * 2] of a 31-bit field is computed in [int]. *)
Definition TxInUndo_Serialize (c : Coin) : bytes :=
  WriteVarInt 31 (i32 (coin_nHeight c * 2 + if fCoinBase c then 1 else 0)) ++
  (if coin_nHeight c >? 0 then write ser_uint8 0 else []) ++
  write_txout (coin_out c).

Definition TxInUndo_Unserialize (s : bytes) : result ser_error (Coin * bytes) :=
  let* (nCode, s) := ReadVarInt 32 s in
  let nHeight := nCode / 2 in
  let* (_, s) := if nHeight >? 0 then ReadVarInt 31 s else Ok (0, s) in
  let* (out, s) := read_txout s in
  Ok (mkCoin out (negb (Z.land nCode 1 =? 0)) nHeight, s).

Definition ser_txin_undo : codec Coin := mkCodec TxInUndo_Serialize TxInUndo_Unserialize 48.

(** [MIN_TRANSACTION_INPUT_WEIGHT]: an empty input takes 41 bytes. *)
Definition MIN_TRANSACTION_INPUT_WEIGHT : Z := WITNESS_SCALE_FACTOR * 41.

Definition CTxUndo_Serialize (vprevout : list Coin) : bytes :=
  WriteCompactSize (Z.of_nat (length vprevout)) ++ concat (TxInUndo_Serialize <$> vprevout).

(** [fAssetsIsActive] is the global of [validation.cpp]; the second failure is
    [Too many input undo records]. *)
Definition CTxUndo_Unserialize (fAssetsIsActive : bool) (s : bytes) : result ser_error (list Coin * bytes) :=
  let* (count, s) := ReadCompactSize s in
  let limit := (if fAssetsIsActive then MAX_BLOCK_WEIGHT_RIP2 else MAX_BLOCK_WEIGHT) /
               MIN_TRANSACTION_INPUT_WEIGHT in
  if count >? limit then Err SizeTooLarge
  else read_elements ser_txin_undo (Z.to_nat count) [] s.

Definition ser_txundo (fAssetsIsActive : bool) : codec (list Coin) :=
  mkCodec CTxUndo_Serialize (CTxUndo_Unserialize fAssetsIsActive) 24.

(** [CBlockUndo]. *)
Definition ser_blockundo (fAssetsIsActive : bool) : codec (list (list Coin)) :=
  ser_vector (ser_txundo fAssetsIsActive).
End coins_on_disk.

(** ** Amounts: lemmas *)

Lemma strip_zeros_scaled fuel m k e :
  (k <= fuel)%nat -> e + Z.of_nat fuel = 9 -> ((k < fuel)%nat -> m mod 10 <> 0) ->
  strip_zeros fuel (m * 10 ^ Z.of_nat k) e = (m, e + Z.of_nat k).
Proof.
  revert k e. induction fuel as [|fuel IH]; intros k e Hk He Hm; cbn [strip_zeros].
  { replace k with 0%nat by lia. f_equal; lia. }
  destruct k as [|k].
  - rewrite Z.mul_1_r. destruct (Z.eqb_spec (m mod 10) 0); [by destruct Hm; lia|]. cbn [andb]. f_equal. lia.
  - rewrite Nat2Z.inj_succ, Z.pow_succ_r by lia.
    replace (m * (10 * 10 ^ Z.of_nat k)) with (m * 10 ^ Z.of_nat k * 10) by lia.
    rewrite Z.mod_mul, Z.div_mul by lia. destruct (Z.ltb_spec e 9); [|lia]. cbn [Z.eqb andb].
    rewrite IH by (lia || (intros; apply Hm; lia)). f_equal. lia.
Qed.

(** Mantissa and exponent of a positive amount. *)
Lemma amount_decompose n :
  0 < n -> exists m k, n = m * 10 ^ Z.of_nat k /\ 0 < m /\ (k <= 9)%nat /\ ((k < 9)%nat -> m mod 10 <> 0).
Proof.
  intros Hn. enough (H : forall fuel, exists m k, n = m * 10 ^ Z.of_nat k /\ 0 < m /\ (k <= fuel)%nat /\
    ((k < fuel)%nat -> m mod 10 <> 0)) by apply (H 9%nat).
  induction fuel as [|fuel (m & k & -> & Hm & Hk & Hmod)].
  { exists n, 0%nat. splits; try lia. }
  destruct (decide (k = fuel)) as [->|]; [|exists m, k; splits; try lia; auto with lia].
  pose proof (Z.div_mod m 10 ltac:(lia)). pose proof (Z.mod_pos_bound m 10 ltac:(lia)).
  destruct (decide (m mod 10 = 0)); [|exists m, fuel; splits; try lia; auto].
  exists (m / 10), (S fuel). splits; try lia.
  rewrite Nat2Z.inj_succ, Z.pow_succ_r by lia. nia.
Qed.

Lemma scale_up_spec e n : 0 <= n -> n * 10 ^ Z.of_nat e < 2 ^ 64 -> scale_up e n = n * 10 ^ Z.of_nat e.
Proof.
  revert n. induction e as [|e IH]; intros n Hn Hb; cbn [scale_up]; [simpl; lia|].
  rewrite Nat2Z.inj_succ, Z.pow_succ_r in * by lia.
  assert (1 <= 10 ^ Z.of_nat e) by (pose proof (Z.pow_pos_nonneg 10 (Z.of_nat e)); lia).
  rewrite u64_id by (ranges; nia). rewrite IH by nia. lia.
Qed.

(** The compressed form in terms of mantissa and exponent, before it is cut to 64 bits. *)
Definition compressed (m : Z) (k : nat) : Z :=
  if (k <? 9)%nat then 1 + (m / 10 * 9 + m mod 10 - 1) * 10 + Z.of_nat k else 1 + (m - 1) * 10 + 9.

Lemma CompressAmount_spec m k :
  0 < m -> (k <= 9)%nat -> ((k < 9)%nat -> m mod 10 <> 0) ->
  CompressAmount (m * 10 ^ Z.of_nat k) = u64 (compressed m k).
Proof.
  intros Hm Hk Hmod. unfold CompressAmount, compressed.
  assert (0 < 10 ^ Z.of_nat k) by (apply Z.pow_pos_nonneg; lia).
  destruct (Z.eqb_spec (m * 10 ^ Z.of_nat k) 0); [nia|].
  rewrite strip_zeros_scaled by (lia || done). rewrite Z.add_0_l.
  destruct (Z.ltb_spec (Z.of_nat k) 9), (Nat.ltb_spec k 9); try lia; done.
Qed.

Lemma DecompressAmount_spec m k :
  0 < m -> (k <= 9)%nat -> ((k < 9)%nat -> m mod 10 <> 0) -> m * 10 ^ Z.of_nat k < 2 ^ 64 ->
  DecompressAmount (compressed m k) = m * 10 ^ Z.of_nat k.
Proof.
  intros Hm Hk Hmod Hb. unfold DecompressAmount, compressed.
  pose proof (Z.div_mod m 10 ltac:(lia)). pose proof (Z.mod_pos_bound m 10 ltac:(lia)).
  pose proof (Z.div_pos m 10 ltac:(lia) ltac:(lia)).
  assert (1 <= 10 ^ Z.of_nat k) by (pose proof (Z.pow_pos_nonneg 10 (Z.of_nat k)); lia).
  assert (Hm64 : is_u64 m) by (ranges; nia).
  destruct (Nat.ltb_spec k 9) as [Hk9|Hk9].
  - specialize (Hmod Hk9). set (y := m / 10 * 9 + m mod 10 - 1) in *.
    destruct (Z.eqb_spec (1 + y * 10 + Z.of_nat k) 0); [nia|].
    replace (1 + y * 10 + Z.of_nat k - 1) with (Z.of_nat k + y * 10) by lia.
    rewrite Z.mod_add, Z.div_add, (Z.mod_small (Z.of_nat k)), (Z.div_small (Z.of_nat k)), Z.add_0_l by lia.
    destruct (Z.ltb_spec (Z.of_nat k) 9); [|lia].
    replace y with (m mod 10 - 1 + m / 10 * 9) by (subst y; lia).
    rewrite Z.mod_add, Z.div_add, (Z.mod_small (m mod 10 - 1)), (Z.div_small (m mod 10 - 1)) by lia.
    replace ((0 + m / 10) * 10 + (m mod 10 - 1 + 1)) with m by lia.
    rewrite u64_id, Nat2Z.id by done. by apply scale_up_spec; lia.
  - replace k with 9%nat by lia. destruct (Z.eqb_spec (1 + (m - 1) * 10 + 9) 0); [lia|].
    replace (1 + (m - 1) * 10 + 9 - 1) with (9 + (m - 1) * 10) by lia.
    rewrite Z.mod_add, Z.div_add by lia. change (9 mod 10) with 9. change (9 / 10) with 0.
    change (9 <? 9) with false. cbn iota. replace (0 + (m - 1) + 1) with m by lia.
    rewrite u64_id by done. apply scale_up_spec; [lia|]. by replace 9%nat with k by lia.
Qed.

(** The largest amount whose compressed form cannot wrap. *)
Definition MAX_COMPRESSIBLE : Z := (2 ^ 64 - 1) / 9.

Lemma compressed_range m k :
  0 < m -> (k <= 9)%nat -> m * 10 ^ Z.of_nat k <= MAX_COMPRESSIBLE -> 0 < compressed m k < 2 ^ 64.
Proof.
  intros Hm Hk Hb. unfold compressed, MAX_COMPRESSIBLE in *.
  pose proof (Z.div_mod m 10 ltac:(lia)). pose proof (Z.mod_pos_bound m 10 ltac:(lia)).
  pose proof (Z.div_pos m 10 ltac:(lia) ltac:(lia)).
  assert (1 <= 10 ^ Z.of_nat k) by (pose proof (Z.pow_pos_nonneg 10 (Z.of_nat k)); lia).
  change ((2 ^ 64 - 1) / 9) with 2049638230412172401 in Hb.
  destruct (Nat.ltb_spec k 9).
  - destruct k as [|k]; [rewrite Z.mul_1_r in Hb; lia|].
    rewrite Nat2Z.inj_succ, Z.pow_succ_r in Hb by lia.
    pose proof (Z.pow_pos_nonneg 10 (Z.of_nat k) ltac:(lia) ltac:(lia)). nia.
  - replace k with 9%nat in Hb by lia. change (10 ^ Z.of_nat 9) with 1000000000 in Hb. lia.
Qed.

Lemma CompressAmount_roundtrip n :
  0 <= n <= MAX_COMPRESSIBLE -> is_u64 (CompressAmount n) /\ DecompressAmount (CompressAmount n) = n.
Proof.
  intros [H0 Hn]. destruct (decide (n = 0)) as [->|Hz]; [split; [ranges; vm_compute; done|done]|].
  destruct (amount_decompose n ltac:(lia)) as (m & k & -> & Hm & Hk & Hmod).
  pose proof (compressed_range m k Hm Hk Hn).
  rewrite CompressAmount_spec, u64_id by (done || ranges; lia).
  split; [ranges; lia|]. apply DecompressAmount_spec; try done.
  unfold MAX_COMPRESSIBLE in Hn. change ((2 ^ 64 - 1) / 9) with 2049638230412172401 in Hn. lia.
Qed.

(** C23: Amount compression.  Up to [(2^64-1)/9] the compressed form fits 64 bits and
    decompresses to the amount; distinct amounts have distinct compressed forms.
    [MAX_MONEY] is above that bound: there is a valid amount, below the money
    supply, whose compressed form wraps and decompresses to another amount. *)
Theorem amount_compression :
  (forall n, 0 <= n <= MAX_COMPRESSIBLE ->
    is_u64 (CompressAmount n) /\ DecompressAmount (CompressAmount n) = n) /\
  MoneyRange 2099999999999999999 = true /\
  DecompressAmount (CompressAmount 2099999999999999999) <> 2099999999999999999.
Proof.
  split; [exact CompressAmount_roundtrip|]. split; [vm_compute; reflexivity|vm_compute; discriminate].
Qed.

(** ** Scripts: lemmas *)

Lemma drop_at (s : bytes) i : (i < length s)%nat -> drop i s = at_ s i :: drop (S i) s.
Proof.
  unfold at_. revert s. induction i as [|i IH]; intros [|x s] Hi; cbn in Hi; try lia; [by rewrite drop_0|].
  cbn [drop nth]. by rewrite IH by lia.
Qed.

Lemma take_drop_split (s : bytes) i n : drop i s = take n (drop i s) ++ drop (i + n) s.
Proof. by rewrite <- drop_drop, take_drop. Qed.

(** The shapes the compressor recognises, as equations. *)
Lemma IsToKeyID_inv s id :
  IsToKeyID s = Some id ->
  length id = 20%nat /\
  s = [opcode_value OP_DUP; opcode_value OP_HASH160; 20] ++ id ++
      [opcode_value OP_EQUALVERIFY; opcode_value OP_CHECKSIG].
Proof.
  unfold IsToKeyID. match goal with |- (if ?b then _ else _) = _ -> _ => destruct b eqn:E; [|done] end.
  intros [= <-]. b2p. split; [rewrite length_take, length_drop; lia|].
  rewrite <- (drop_0 s) at 1. rewrite (drop_at s 0), (drop_at s 1), (drop_at s 2) by lia. cbn [app].
  rewrite (take_drop_split s 3 20) at 1. change (3 + 20)%nat with 23%nat.
  rewrite (drop_at s 23), (drop_at s 24), (drop_ge s 25) by lia. congruence.
Qed.

Lemma IsToScriptID_inv s id :
  IsToScriptID s = Some id ->
  length id = 20%nat /\ s = [opcode_value OP_HASH160; 20] ++ id ++ [opcode_value OP_EQUAL].
Proof.
  unfold IsToScriptID. match goal with |- (if ?b then _ else _) = _ -> _ => destruct b eqn:E; [|done] end.
  intros [= <-]. b2p. split; [rewrite length_take, length_drop; lia|].
  rewrite <- (drop_0 s) at 1. rewrite (drop_at s 0), (drop_at s 1) by lia. cbn [app].
  rewrite (take_drop_split s 2 20) at 1. change (2 + 20)%nat with 22%nat.
  rewrite (drop_at s 22), (drop_ge s 23) by lia. congruence.
Qed.

Lemma IsToPubKey_inv `{L : PubKeyLib} s pk :
  is_bytes s -> IsToPubKey s = Some pk ->
  (exists c x, (c = 2 \/ c = 3) /\ flat_ok 32 x /\ pk = c :: x /\ s = [33] ++ pk ++ [opcode_value OP_CHECKSIG]) \/
  (exists x y, flat_ok 32 x /\ flat_ok 32 y /\ pk = 4 :: x ++ y /\ IsFullyValid pk = true /\
    s = [65] ++ pk ++ [opcode_value OP_CHECKSIG]).
Proof.
  intros Hs. unfold IsToPubKey.
  match goal with |- (if ?b then _ else _) = _ -> _ => destruct b eqn:E end.
  - intros [= <-]. b2p. left. exists (at_ s 1), (take 32 (drop 2 s)).
    splits; [apply orb_prop in H0; destruct H0; b2p; auto| | |].
    + split; [rewrite length_take, length_drop; lia|auto with hnb].
    + rewrite (drop_at s 1) by lia. done.
    + rewrite <- (drop_0 s) at 1. rewrite (drop_at s 0) by lia. cbn [app].
      rewrite (take_drop_split s 1 33) at 1. change (1 + 33)%nat with 34%nat.
      rewrite (drop_at s 34), (drop_ge s 35) by lia. congruence.
  - match goal with |- (if ?b then _ else _) = _ -> _ => destruct b eqn:E2; [|done] end.
    destruct (IsFullyValid (take 65 (drop 1 s))) eqn:Ev; [|done]. intros [= <-]. b2p. right.
    exists (take 32 (drop 2 s)), (take 32 (drop 34 s)). splits.
    + split; [rewrite length_take, length_drop; lia|auto with hnb].
    + split; [rewrite length_take, length_drop; lia|auto with hnb].
    + rewrite (drop_at s 1) by lia. cbn [take]. f_equal; [done|].
      change (take 64 (drop 2 s) = take 32 (drop 2 s) ++ take 32 (drop (2 + 32) s)).
      by rewrite <- (drop_drop s 32 2), take_take_drop.
    + done.
    + rewrite <- (drop_0 s) at 1. rewrite (drop_at s 0) by lia. cbn [app].
      rewrite (take_drop_split s 1 65) at 1. change (1 + 65)%nat with 66%nat.
      rewrite (drop_at s 66), (drop_ge s 67) by lia. congruence.
Qed.

Lemma ReadVarInt_small w c rest : 7 <= w -> 0 <= c < 128 -> ReadVarInt w (c :: rest) = Ok (c, rest).
Proof.
  intros Hw Hc. unfold ReadVarInt. rewrite ReadVarInt_loop_byte by (lia || (ranges; lia)).
  assert (0 < 2 ^ (w - 7)) by (apply Z.pow_pos_nonneg; lia).
  destruct (Z.leb_spec (2 ^ (w - 7)) 0); [lia|].
  destruct (Z.ltb_spec c 128); [|lia]. rewrite Z.mod_small by lia. done.
Qed.

Definition compressible (s : bytes) : Prop := Z.of_nat (length s) <= MAX_SCRIPT_SIZE /\ is_bytes s.

Section scripts.
Context {L : PubKeyLib} {LOk : PubKeyOk L}.

Lemma read_special k x s rest :
  0 <= k < 6 -> Z.of_nat (length x) = GetSpecialSize k -> Decompress k x = Some s ->
  read_script (k :: x ++ rest) = Ok (s, rest).
Proof using.
  intros Hk Hl Hd. unfold read_script, nSpecialScripts. rewrite ReadVarInt_small by lia.
  destruct (Z.ltb_spec k 6); [|lia]. rewrite <- Hl, stream_read_app. by rewrite Hd.
Qed.

Lemma read_script_write s rest : compressible s -> read_script (write_script s ++ rest) = Ok (s, rest).
Proof using LOk.
  intros [Hl Hs]. unfold write_script, Compress.
  destruct (IsToKeyID s) as [id|] eqn:E1.
  { apply IsToKeyID_inv in E1 as [Hid ->]. cbn [app]. apply (read_special 0); [lia|by rewrite Hid|].
    unfold Decompress. cbn [Z.eqb]. by rewrite take_ge by lia. }
  destruct (IsToScriptID s) as [id|] eqn:E2.
  { apply IsToScriptID_inv in E2 as [Hid ->]. cbn [app]. apply (read_special 1); [lia|by rewrite Hid|].
    unfold Decompress. cbn [Z.eqb]. by rewrite take_ge by lia. }
  destruct (IsToPubKey s) as [pk|] eqn:E3.
  { apply IsToPubKey_inv in E3 as [(c & x & Hc & [Hx _] & -> & ->)|(x & y & Hx & Hy & -> & Hv & ->)]; [| |done].
    - cbn [drop]. unfold at_. cbn [nth]. rewrite drop_0.
      assert (((c =? 2) || (c =? 3)) = true) as -> by (destruct Hc; subst; done).
      rewrite (take_ge x 32) by lia. cbn [app]. apply (read_special c); [lia|rewrite Hx; by destruct Hc; subst|].
      unfold Decompress. destruct Hc; subst c; cbn [Z.eqb Pos.eqb orb app]; by rewrite take_ge by lia.
    - assert (Hy' := Hy). destruct Hx as [Hx Hxb], Hy as [Hy Hyb].
      cbn [drop]. unfold at_. cbn [nth]. rewrite drop_0, take_app_length' by lia. cbn [Z.eqb Pos.eqb orb app].
      replace (nth 63 (x ++ y) 0) with (default 0 (last y)).
      2:{ rewrite app_nth2, Hx by lia. change (63 - 32)%nat with 31%nat.
          destruct y as [|b y _] using rev_ind; [done|]. rewrite last_snoc. rewrite length_app in Hy. cbn in Hy.
          rewrite app_nth2 by lia. by replace (31 - length y)%nat with 0%nat by lia. }
      change 1 with (2 ^ 1 - 1) at 1. rewrite land_ones_mod by lia. change (2 ^ 1) with 2.
      pose proof (Decompress_valid x y (conj Hx Hxb) Hy' Hv) as Hd.
      pose proof (Z.mod_pos_bound (default 0 (last y)) 2 ltac:(lia)) as Hb.
      set (b := default 0 (last y) mod 2) in *.
      assert (Hb2 : b = 0 \/ b = 1) by lia.
      assert (Ek : Z.lor 4 b = 4 + b) by (destruct Hb2 as [-> | ->]; done). rewrite Ek.
      apply (read_special (4 + b)); [lia|rewrite Hx; destruct Hb2 as [-> | ->]; done|].
      unfold Decompress.
      assert (E : 4 + b - 2 :: take 32 x = 2 + b :: x) by (rewrite take_ge by lia; f_equal; lia).
      destruct Hb2 as [Eb|Eb]; rewrite Eb in *; cbn [Z.add Pos.add Z.eqb Pos.eqb orb];
        cbn [Z.add Pos.add] in E, Hd; rewrite E, Hd; done. }
  unfold read_script, nSpecialScripts, MAX_SCRIPT_SIZE in *.
  rewrite u32_id by (ranges; lia). rewrite <- app_assoc, ReadVarInt_write by lia.
  destruct (Z.ltb_spec (Z.of_nat (length s) + 6) 6).
  { lia. }
  rewrite Z.add_simpl_r, Z.gtb_ltb. destruct (Z.ltb_spec 10000 (Z.of_nat (length s))); [lia|].
  apply stream_read_app.
Qed.

Lemma lor4_u8 a : is_u8 (Z.lor 4 (Z.land a 1)).
Proof using.
  unfold is_u8. apply lor_range; [lia|lia|]. change (Z.land a 1) with (Z.land a (2 ^ 1 - 1)). rewrite land_ones_mod by lia.
  pose proof (Z.mod_pos_bound a (2 ^ 1) ltac:(lia)). lia.
Qed.

Lemma write_script_bytes s : compressible s -> is_bytes (write_script s).
Proof using.
  intros [Hl Hs]. unfold write_script.
  destruct (Compress s) as [c|] eqn:E; [|apply is_bytes_app; [apply WriteVarInt_bytes|done]].
  revert E. unfold Compress. destruct (IsToKeyID s) as [id|] eqn:E1.
  { intros [= <-]. apply IsToKeyID_inv in E1 as [_ ->]. rewrite !Forall_app in Hs.
    constructor; [ranges; lia|apply Hs]. }
  destruct (IsToScriptID s) as [id|] eqn:E2.
  { intros [= <-]. apply IsToScriptID_inv in E2 as [_ ->]. rewrite !Forall_app in Hs.
    constructor; [ranges; lia|apply Hs]. }
  destruct (IsToPubKey s) as [pk|] eqn:E3; [|done].
  apply IsToPubKey_inv in E3 as [(c' & x & Hc & [Hx Hb] & -> & ->)|(x & y & [_ Hx] & [Hyl Hy] & -> & Hv & ->)];
    [| |done]; unfold at_; cbn [nth drop]; rewrite drop_0.
  - destruct (_ || _); [|destruct (_ =? _)]; [intros [= <-]..|done]; constructor; auto with hnb;
      first [apply lor4_u8|destruct Hc; subst; ranges; lia].
  - cbn [Z.eqb Pos.eqb orb]. intros [= <-]. constructor; [apply lor4_u8|auto with hnb].
Qed.

Definition disk_txout_ok (o : CTxOut) : Prop :=
  0 <= nValue o <= MAX_COMPRESSIBLE /\ compressible (scriptPubKey o).

Lemma read_txout_write o rest : disk_txout_ok o -> read_txout (write_txout o ++ rest) = Ok (o, rest).
Proof using LOk.
  intros [Hv Hs]. unfold read_txout, write_txout. rewrite <- app_assoc.
  assert (Hv64 : is_u64 (nValue o) /\ is_i64 (nValue o))
    by (unfold MAX_COMPRESSIBLE in Hv; change ((2 ^ 64 - 1) / 9) with 2049638230412172401 in Hv; split; ranges; lia).
  rewrite u64_id by apply Hv64. destruct (CompressAmount_roundtrip _ Hv) as [Hc Hd].
  rewrite ReadVarInt_write by (ranges; lia). rewrite read_script_write by done.
  rewrite Hd, i64_id by apply Hv64. by destruct o.
Qed.

Lemma write_txout_bytes o : disk_txout_ok o -> is_bytes (write_txout o).
Proof using.
  intros [_ Hs]. apply is_bytes_app; [apply WriteVarInt_bytes|by apply write_script_bytes].
Qed.

(** *** Coins and undo records *)

Definition coin_ok (c : Coin) : Prop := disk_txout_ok (coin_out c) /\ 0 <= coin_nHeight c < 2 ^ 30.

Lemma coin_code_parts h (cb : bool) :
  0 <= h < 2 ^ 30 ->
  let code := h * 2 + (if cb then 1 else 0) in
  0 <= code < 2 ^ 31 /\ code / 2 = h /\ Z.shiftr code 1 = h /\ negb (Z.land code 1 =? 0) = cb.
Proof using.
  intros Hh. cbn zeta. rewrite Z.shiftr_div_pow2 by lia. change (2 ^ 1) with 2.
  change (Z.land ?a 1) with (Z.land a (2 ^ 1 - 1)). rewrite land_ones_mod by lia. change (2 ^ 1) with 2.
  rewrite Z.add_comm, Z.div_add, Z.mod_add by lia. destruct cb.
  - change (1 / 2) with 0. change (1 mod 2) with 1. splits; try lia; done.
  - change (0 / 2) with 0. change (0 mod 2) with 0. splits; try lia; done.
Qed.

Lemma coin_roundtrip c rest :
  coin_ok c -> exists b, Coin_Serialize c = Some b /\ Coin_Unserialize (b ++ rest) = Ok (c, rest).
Proof using LOk.
  intros [Ho Hh]. destruct (coin_code_parts (coin_nHeight c) (fCoinBase c) Hh) as (Hr & _ & Hs & Hl).
  unfold Coin_Serialize, IsSpent, txout_IsNull, coin_code.
  destruct Ho as [Hv Hc]. destruct (Z.eqb_spec (nValue (coin_out c)) (-1)); [lia|].
  eexists; split; [done|]. unfold Coin_Unserialize. rewrite <- app_assoc.
  rewrite u32_id by (ranges; lia). rewrite ReadVarInt_write by lia. rewrite read_txout_write by (by split).
  rewrite Hs, Hl. by destruct c.
Qed.

#[export] Instance ser_txin_undo_ok : CodecOk ser_txin_undo coin_ok.
Proof using LOk.
  split; cbn [read write ser_txin_undo cpp_sizeof]; [| |lia].
  - intros c rest [Ho Hh]. unfold TxInUndo_Serialize, TxInUndo_Unserialize.
    destruct (coin_code_parts (coin_nHeight c) (fCoinBase c) Hh) as (Hr & Hd & _ & Hl).
    rewrite i32_id by (ranges; lia). change (WriteVarInt 31) with (WriteVarInt 32).
    rewrite <- !app_assoc, ReadVarInt_write, Hd, Hl by lia.
    destruct (coin_nHeight c >? 0).
    + change (write ser_uint8 0) with [0]. cbn [app]. rewrite ReadVarInt_small by lia.
      rewrite read_txout_write by done. by destruct c.
    + cbn [app]. rewrite read_txout_write by done. by destruct c.
  - intros c [Ho Hh]. unfold TxInUndo_Serialize.
    apply is_bytes_app; [apply WriteVarInt_bytes|].
    apply is_bytes_app; [split_if; [apply writedata8_bytes|constructor]|by apply write_txout_bytes].
Qed.

Definition txundo_ok (fAssetsIsActive : bool) (v : list Coin) : Prop :=
  Z.of_nat (length v) <= (if fAssetsIsActive then MAX_BLOCK_WEIGHT_RIP2 else MAX_BLOCK_WEIGHT) /
                         MIN_TRANSACTION_INPUT_WEIGHT /\ Forall coin_ok v.

#[export] Instance ser_txundo_ok fAssetsIsActive :
  CodecOk (ser_txundo fAssetsIsActive) (txundo_ok fAssetsIsActive).
Proof using LOk.
  split; cbn [read write ser_txundo cpp_sizeof]; [| |lia].
  - intros v rest [Hl Hv]. unfold CTxUndo_Unserialize, CTxUndo_Serialize.
    set (limit := _ / _) in *. assert (Hlim : limit <= 48780) by (subst limit; destruct fAssetsIsActive; vm_compute; done).
    rewrite <- app_assoc, read_size_write by (unfold MAX_SIZE; lia).
    rewrite Z.gtb_ltb. destruct (Z.ltb_spec limit (Z.of_nat (length v))); [lia|].
    rewrite Nat2Z.id. by apply (read_elements_write ser_txin_undo coin_ok v []).
  - intros v [_ Hv]. apply is_bytes_app; [apply WriteCompactSize_bytes|].
    apply Forall_concat, Forall_fmap. eapply Forall_impl; [done|]. intros c Hc. by apply (write_bytes (c := ser_txin_undo)).
Qed.
End scripts.

(** ** The properties *)

(** The coin database and the undo files lose nothing.  An unspent output with an
    amount of at most [(2^64-1)/9], a script of at most [MAX_SCRIPT_SIZE] bytes and a
    height below [2^30] is read back from its database record; the undo record of a
    block (one list of spent coins per transaction) is read back from its file, given
    that the key library recovers valid keys. *)
Theorem coins_disk_roundtrip (L : PubKeyLib) (LOk : PubKeyOk L) fAssetsIsActive c undo rest :
  coin_ok c -> vector_ok (txundo_ok fAssetsIsActive) undo ->
  (exists b, Coin_Serialize c = Some b /\ Coin_Unserialize (b ++ rest) = Ok (c, rest)) /\
  read (ser_blockundo fAssetsIsActive) (write (ser_blockundo fAssetsIsActive) undo ++ rest) = Ok (undo, rest).
Proof. intros Hc Hu. split; [by apply coin_roundtrip|by apply read_write]. Qed.

(** A key library for the examples: every 65-byte key is on the "curve" [y = x] with
    the parity of [x] in both places. *)
Definition toy_pubkeys : PubKeyLib := {|
  IsFullyValid k := bool_decide (take 32 (drop 1 k) = drop 33 k);
  pubkey_Decompress k := Some (4 :: drop 1 k ++ drop 1 k);
|}.

Lemma toy_pubkeys_ok : PubKeyOk toy_pubkeys.
Proof.
  intros x y [Hx _] [Hy _] Hv. cbn in Hv |- *. apply bool_decide_eq_true in Hv. rewrite drop_0 in *.
  rewrite take_app_length', drop_app_length' in Hv by lia. by subst.
Qed.

Definition ex_p2pkh : bytes :=
  [opcode_value OP_DUP; opcode_value OP_HASH160; 20] ++ replicate 20 9 ++
  [opcode_value OP_EQUALVERIFY; opcode_value OP_CHECKSIG].
Definition ex_coin : Coin := mkCoin (mkTxOut (5000 * COIN) ex_p2pkh) true 1234.

Lemma ex_coin_ok : coin_ok ex_coin.
Proof.
  assert (H1 : 0 <= 5000 * COIN <= MAX_COMPRESSIBLE) by (vm_compute; split; discriminate).
  split; [|cbn; lia]. split; [exact H1|]. split; [vm_compute; discriminate|].
  apply Forall_forall. intros x Hx. apply list_elem_of_In in Hx.
  repeat (destruct Hx as [<-|Hx]; [cbn; ranges; lia|]). done.
Qed.

Lemma coins_disk_roundtrip_witness :
  (exists b, Coin_Serialize (L := toy_pubkeys) ex_coin = Some b /\
    Coin_Unserialize (L := toy_pubkeys) (b ++ [3]) = Ok (ex_coin, [3])) /\
  read (ser_blockundo (L := toy_pubkeys) true) (write (ser_blockundo (L := toy_pubkeys) true) [[ex_coin]; []] ++ [3]) =
    Ok ([[ex_coin]; []], [3]).
Proof.
  assert (Hu : vector_ok (txundo_ok true) [[ex_coin]; []]).
  { split; [vm_compute; discriminate|]. constructor; [|constructor; [|constructor]].
    - split; [vm_compute; discriminate|]. constructor; [exact ex_coin_ok|constructor].
    - split; [vm_compute; discriminate|constructor]. }
  exact (coins_disk_roundtrip toy_pubkeys toy_pubkeys_ok true ex_coin [[ex_coin]; []] [3] ex_coin_ok Hu).
Defined.
