(* ===== verification/Interpreter.v ===== *)
(** * The script interpreter: [src/script/interpreter.h], [src/script/interpreter.cpp]

    [EvalScript], the stack machine that decides who may spend an output, with the
    checks of signature and key encodings, and [VerifyScript] with pay-to-script-hash
    and witness programs.

    A stack is a list with the top first, so that [stacktop(-i)] is its element at
    position [i - 1].  The code guards every access by a size test; the model keeps
    the accesses partial ([stack.at] and [popstack] throw), so that their safety is
    a theorem and not a convention.  Reading a script is reading its suffixes, as in
    [Script.v].  The signature checker, which the code passes as a virtual class, is
    the class [BaseSignatureChecker]; the low-S test of signatures is done by the
    elliptic-curve library and is the class [LowS]. *)

From S2P Require Import Prelude Endian Hasher Sha2 Sha1Ripemd HashFns Script Transaction.

(** ** Flags, versions, errors *)

Inductive ScriptError :=
| SCRIPT_ERR_OK | SCRIPT_ERR_UNKNOWN_ERROR | SCRIPT_ERR_EVAL_FALSE | SCRIPT_ERR_OP_RETURN
| SCRIPT_ERR_SCRIPT_SIZE | SCRIPT_ERR_PUSH_SIZE | SCRIPT_ERR_OP_COUNT | SCRIPT_ERR_STACK_SIZE
| SCRIPT_ERR_SIG_COUNT | SCRIPT_ERR_PUBKEY_COUNT | SCRIPT_ERR_VERIFY | SCRIPT_ERR_EQUALVERIFY
| SCRIPT_ERR_CHECKMULTISIGVERIFY | SCRIPT_ERR_CHECKSIGVERIFY | SCRIPT_ERR_NUMEQUALVERIFY
| SCRIPT_ERR_BAD_OPCODE | SCRIPT_ERR_DISABLED_OPCODE | SCRIPT_ERR_INVALID_STACK_OPERATION
| SCRIPT_ERR_INVALID_ALTSTACK_OPERATION | SCRIPT_ERR_UNBALANCED_CONDITIONAL
| SCRIPT_ERR_NEGATIVE_LOCKTIME | SCRIPT_ERR_UNSATISFIED_LOCKTIME | SCRIPT_ERR_SIG_HASHTYPE
| SCRIPT_ERR_SIG_DER | SCRIPT_ERR_MINIMALDATA | SCRIPT_ERR_SIG_PUSHONLY | SCRIPT_ERR_SIG_HIGH_S
| SCRIPT_ERR_SIG_NULLDUMMY | SCRIPT_ERR_PUBKEYTYPE | SCRIPT_ERR_CLEANSTACK | SCRIPT_ERR_MINIMALIF
| SCRIPT_ERR_SIG_NULLFAIL | SCRIPT_ERR_DISCOURAGE_UPGRADABLE_NOPS
| SCRIPT_ERR_DISCOURAGE_UPGRADABLE_WITNESS_PROGRAM | SCRIPT_ERR_WITNESS_PROGRAM_WRONG_LENGTH
| SCRIPT_ERR_WITNESS_PROGRAM_WITNESS_EMPTY | SCRIPT_ERR_WITNESS_PROGRAM_MISMATCH
| SCRIPT_ERR_WITNESS_MALLEATED | SCRIPT_ERR_WITNESS_MALLEATED_P2SH | SCRIPT_ERR_WITNESS_UNEXPECTED
| SCRIPT_ERR_WITNESS_PUBKEYTYPE.

Definition SIGHASH_ALL : Z := 1.
Definition SIGHASH_NONE : Z := 2.
Definition SIGHASH_SINGLE : Z := 3.
Definition SIGHASH_ANYONECANPAY : Z := 0x80.

Inductive SigVersion := SIGVERSION_BASE | SIGVERSION_WITNESS_V0.

(** The verification flags, by their bit. *)
Inductive verify_flag :=
| SCRIPT_VERIFY_P2SH | SCRIPT_VERIFY_STRICTENC | SCRIPT_VERIFY_DERSIG | SCRIPT_VERIFY_LOW_S
| SCRIPT_VERIFY_NULLDUMMY | SCRIPT_VERIFY_SIGPUSHONLY | SCRIPT_VERIFY_MINIMALDATA
| SCRIPT_VERIFY_DISCOURAGE_UPGRADABLE_NOPS | SCRIPT_VERIFY_CLEANSTACK
| SCRIPT_VERIFY_CHECKLOCKTIMEVERIFY | SCRIPT_VERIFY_CHECKSEQUENCEVERIFY | SCRIPT_VERIFY_WITNESS
| SCRIPT_VERIFY_DISCOURAGE_UPGRADABLE_WITNESS_PROGRAM | SCRIPT_VERIFY_MINIMALIF
| SCRIPT_VERIFY_NULLFAIL | SCRIPT_VERIFY_WITNESS_PUBKEYTYPE.

Definition flag_value (f : verify_flag) : Z :=
  Z.shiftl 1 (match f with
  | SCRIPT_VERIFY_P2SH => 0 | SCRIPT_VERIFY_STRICTENC => 1 | SCRIPT_VERIFY_DERSIG => 2
  | SCRIPT_VERIFY_LOW_S => 3 | SCRIPT_VERIFY_NULLDUMMY => 4 | SCRIPT_VERIFY_SIGPUSHONLY => 5
  | SCRIPT_VERIFY_MINIMALDATA => 6 | SCRIPT_VERIFY_DISCOURAGE_UPGRADABLE_NOPS => 7
  | SCRIPT_VERIFY_CLEANSTACK => 8 | SCRIPT_VERIFY_CHECKLOCKTIMEVERIFY => 9
  | SCRIPT_VERIFY_CHECKSEQUENCEVERIFY => 10 | SCRIPT_VERIFY_WITNESS => 11
  | SCRIPT_VERIFY_DISCOURAGE_UPGRADABLE_WITNESS_PROGRAM => 12 | SCRIPT_VERIFY_MINIMALIF => 13
  | SCRIPT_VERIFY_NULLFAIL => 14 | SCRIPT_VERIFY_WITNESS_PUBKEYTYPE => 15
  end).

(** [flags & f] as a condition. *)
Definition has_flag (flags : Z) (f : verify_flag) : bool := negb (Z.land flags (flag_value f) =? 0).

(** ** How evaluation ends early *)

Inductive script_exn :=
| OutOfRange       (** [std::out_of_range] of [stack.at] *)
| StackEmpty       (** [popstack(): stack empty] *)
| ScriptNumError.  (** [scriptnum_error] *)

Inductive script_exit :=
| Fail (e : ScriptError)   (** [return set_error(serror, e)] *)
| Throw (x : script_exn)   (** an exception, caught at the end of [EvalScript] *)
| Abort (f : fault).       (** a failed assertion *)

Abbreviation eval A := (result script_exit A).

Definition fail {A} (e : ScriptError) : eval A := Err (Fail e).
(** [if (b) return set_error(serror, e);] *)
Definition fail_if (b : bool) (e : ScriptError) : eval unit := if b then fail e else Ok tt.
(** A call of the checker, whose own assertions may fail. *)
Definition lift {A} (m : result fault A) : eval A :=
  match m with Ok a => Ok a | Err f => Err (Abort f) end.
Definition assert_that (b : bool) : eval unit := if b then Ok tt else Err (Abort AssertFailure).

(** ** The collaborators *)

Class BaseSignatureChecker := {
  CheckSig : bytes -> bytes -> bytes -> SigVersion -> result fault bool;  (* scriptSig, vchPubKey, scriptCode *)
  CheckLockTime : Z -> result fault bool;
  CheckSequence : Z -> result fault bool;
}.

Class LowS := { CheckLowS : bytes -> bool }.

(** ** Values *)

Fixpoint CastToBool (vch : bytes) : bool :=
  match vch with
  | [] => false
  | b :: r =>
    if negb (b =? 0) then
      (* can be negative zero *)
      negb ((length r =? 0)%nat && (b =? 0x80))
    else CastToBool r
  end.

Definition vchFalse : bytes := [].
Definition vchTrue : bytes := [1].
Definition bool_vch (b : bool) : bytes := if b then vchTrue else vchFalse.

Definition IsCompressedOrUncompressedPubKey (vchPubKey : bytes) : bool :=
  if (length vchPubKey <? 33)%nat then false
  else if at_ vchPubKey 0 =? 0x04 then (length vchPubKey =? 65)%nat
  else if (at_ vchPubKey 0 =? 0x02) || (at_ vchPubKey 0 =? 0x03) then (length vchPubKey =? 33)%nat
  else false.

Definition IsCompressedPubKey (vchPubKey : bytes) : bool :=
  if negb (length vchPubKey =? 33)%nat then false
  else if negb (at_ vchPubKey 0 =? 0x02) && negb (at_ vchPubKey 0 =? 0x03) then false
  else true.

Definition IsValidSignatureEncoding (sig : bytes) : bool :=
  let size := Z.of_nat (length sig) in
  if size <? 9 then false
  else if size >? 73 then false
  else if negb (at_ sig 0 =? 0x30) then false
  else if negb (at_ sig 1 =? size - 3) then false
  else
    let lenR := at_ sig 3 in
    if 5 + lenR >=? size then false
    else
      let lenS := at_ sig (Z.to_nat (5 + lenR)) in
      if negb (lenR + lenS + 7 =? size) then false
      else if negb (at_ sig 2 =? 0x02) then false
      else if lenR =? 0 then false
      else if negb (Z.land (at_ sig 4) 0x80 =? 0) then false
      else if (lenR >? 1) && (at_ sig 4 =? 0) && (Z.land (at_ sig 5) 0x80 =? 0) then false
      else if negb (at_ sig (Z.to_nat (lenR + 4)) =? 0x02) then false
      else if lenS =? 0 then false
      else if negb (Z.land (at_ sig (Z.to_nat (lenR + 6))) 0x80 =? 0) then false
      else if (lenS >? 1) && (at_ sig (Z.to_nat (lenR + 6)) =? 0) &&
              (Z.land (at_ sig (Z.to_nat (lenR + 7))) 0x80 =? 0) then false
      else true.

Definition IsDefinedHashtypeSignature (vchSig : bytes) : bool :=
  match last vchSig with
  | None => false
  | Some back =>
    let nHashType := u8 (Z.land back (Z.lnot SIGHASH_ANYONECANPAY)) in
    negb ((nHashType <? SIGHASH_ALL) || (nHashType >? SIGHASH_SINGLE))
  end.

Definition CheckMinimalPush (data : bytes) (opcode : Z) : bool :=
  let size := Z.of_nat (length data) in
  if size =? 0 then opcode =? OP_0
  else if (size =? 1) && (at_ data 0 >=? 1) && (at_ data 0 <=? 16) then opcode =? OP_1 + (at_ data 0 - 1)
  else if (size =? 1) && (at_ data 0 =? 0x81) then opcode =? OP_1NEGATE
  else if size <=? 75 then opcode =? size
  else if size <=? 255 then opcode =? OP_PUSHDATA1
  else if size <=? 65535 then opcode =? OP_PUSHDATA2
  else true.

Section EvalScript.
Context {checker : BaseSignatureChecker} {lows : LowS}.
(** The arguments of [EvalScript] that stay fixed. *)
Context (flags : Z) (sigversion : SigVersion).

Definition IsLowDERSignature (vchSig : bytes) : eval unit :=
  if negb (IsValidSignatureEncoding vchSig) then fail SCRIPT_ERR_SIG_DER
  else if negb (CheckLowS (take (length vchSig - 1) vchSig)) then fail SCRIPT_ERR_SIG_HIGH_S
  else Ok tt.

Definition CheckSignatureEncoding (vchSig : bytes) : eval unit :=
  if (length vchSig =? 0)%nat then Ok tt
  else if negb (Z.land flags (Z.lor (Z.lor (flag_value SCRIPT_VERIFY_DERSIG) (flag_value SCRIPT_VERIFY_LOW_S))
                                    (flag_value SCRIPT_VERIFY_STRICTENC)) =? 0) &&
          negb (IsValidSignatureEncoding vchSig)
  then fail SCRIPT_ERR_SIG_DER
  else
    match (if has_flag flags SCRIPT_VERIFY_LOW_S then IsLowDERSignature vchSig else Ok tt) with
    | Err e => Err e
    | Ok _ =>
      if has_flag flags SCRIPT_VERIFY_STRICTENC && negb (IsDefinedHashtypeSignature vchSig)
      then fail SCRIPT_ERR_SIG_HASHTYPE
      else Ok tt
    end.

Definition CheckPubKeyEncoding (vchPubKey : bytes) : eval unit :=
  if has_flag flags SCRIPT_VERIFY_STRICTENC && negb (IsCompressedOrUncompressedPubKey vchPubKey)
  then fail SCRIPT_ERR_PUBKEYTYPE
  else if has_flag flags SCRIPT_VERIFY_WITNESS_PUBKEYTYPE &&
          match sigversion with SIGVERSION_WITNESS_V0 => true | SIGVERSION_BASE => false end &&
          negb (IsCompressedPubKey vchPubKey)
  then fail SCRIPT_ERR_WITNESS_PUBKEYTYPE
  else Ok tt.

(** ** Stack access *)

(** [stacktop(-i)]. *)
Definition stacktop (stk : list bytes) (i : Z) : eval bytes :=
  if i <? 1 then Err (Throw OutOfRange)
  else match stk !! Z.to_nat (i - 1) with
       | Some v => Ok v
       | None => Err (Throw OutOfRange)
       end.

Definition popstack (stk : list bytes) : eval (list bytes) :=
  match stk with
  | [] => Err (Throw StackEmpty)
  | _ :: stk => Ok stk
  end.

(** [if (stack.size() < n) return set_error(serror, SCRIPT_ERR_INVALID_STACK_OPERATION);] *)
Definition need (stk : list bytes) (n : Z) : eval unit :=
  fail_if (Z.of_nat (length stk) <? n) SCRIPT_ERR_INVALID_STACK_OPERATION.

(** [swap(stacktop(-i), stacktop(-j))]. *)
Definition swap_at (stk : list bytes) (i j : Z) : eval (list bytes) :=
  a ← stacktop stk i;
  b ← stacktop stk j;
  Ok (<[Z.to_nat (j - 1) := a]> (<[Z.to_nat (i - 1) := b]> stk)).

(** [stack.erase(stack.end() - i, stack.end() - j)]: the elements from the [i]-th to
    the [j + 1]-st from the top. *)
Definition erase_range (stk : list bytes) (i j : Z) : eval (list bytes) :=
  if (j <? 0) || (i <? j) || (Z.of_nat (length stk) <? i) then Err (Abort OutOfBounds)
  else Ok (take (Z.to_nat j) stk ++ drop (Z.to_nat i) stk).

(** [stack.erase(stack.end() - i)]. *)
Definition erase_at (stk : list bytes) (i : Z) : eval (list bytes) := erase_range stk i (i - 1).

(** [stack.insert(stack.end() - i, vch)]. *)
Definition insert_at (stk : list bytes) (i : Z) (vch : bytes) : eval (list bytes) :=
  if (i <? 0) || (Z.of_nat (length stk) <? i) then Err (Abort OutOfBounds)
  else Ok (take (Z.to_nat i) stk ++ vch :: drop (Z.to_nat i) stk).

Definition fRequireMinimal : bool := has_flag flags SCRIPT_VERIFY_MINIMALDATA.

(** [CScriptNum(vch, fRequireMinimal, nMaxNumSize)], which may throw. *)
Definition scriptnum (vch : bytes) (nMaxNumSize : Z) : eval Z :=
  match CScriptNum vch fRequireMinimal nMaxNumSize with
  | Some n => Ok n
  | None => Err (Throw ScriptNumError)
  end.

(** ** The state of the evaluation *)

Record estate := mkState {
  stack : list bytes;
  altstack : list bytes;
  vfExec : list bool;          (* the innermost branch first *)
  nOpCount : Z;
  pbegincodehash : bytes;      (* the script from the last code separator on *)
}.

Definition set_stack (st : estate) (stk : list bytes) : estate :=
  mkState stk (altstack st) (vfExec st) (nOpCount st) (pbegincodehash st).
Definition push (st : estate) (v : bytes) : estate := set_stack st (v :: stack st).

(** ** Control *)

Definition op_upgradable_nop (st : estate) : eval estate :=
  _ ← fail_if (has_flag flags SCRIPT_VERIFY_DISCOURAGE_UPGRADABLE_NOPS) SCRIPT_ERR_DISCOURAGE_UPGRADABLE_NOPS;
  Ok st.

Definition op_checklocktimeverify (st : estate) : eval estate :=
  if negb (has_flag flags SCRIPT_VERIFY_CHECKLOCKTIMEVERIFY) then op_upgradable_nop st
  else
    _ ← need (stack st) 1;
    v ← stacktop (stack st) 1;
    nLockTime ← scriptnum v 5;
    _ ← fail_if (nLockTime <? 0) SCRIPT_ERR_NEGATIVE_LOCKTIME;
    fOk ← lift (CheckLockTime nLockTime);
    _ ← fail_if (negb fOk) SCRIPT_ERR_UNSATISFIED_LOCKTIME;
    Ok st.

Definition op_checksequenceverify (st : estate) : eval estate :=
  if negb (has_flag flags SCRIPT_VERIFY_CHECKSEQUENCEVERIFY) then op_upgradable_nop st
  else
    _ ← need (stack st) 1;
    v ← stacktop (stack st) 1;
    nSequence ← scriptnum v 5;
    _ ← fail_if (nSequence <? 0) SCRIPT_ERR_NEGATIVE_LOCKTIME;
    if negb (Z.land nSequence SEQUENCE_LOCKTIME_DISABLE_FLAG =? 0) then Ok st
    else
      fOk ← lift (CheckSequence nSequence);
      _ ← fail_if (negb fOk) SCRIPT_ERR_UNSATISFIED_LOCKTIME;
      Ok st.

(** [OP_IF] and [OP_NOTIF]. *)
Definition op_if (notif fExec : bool) (st : estate) : eval estate :=
  if fExec then
    _ ← fail_if (Z.of_nat (length (stack st)) <? 1) SCRIPT_ERR_UNBALANCED_CONDITIONAL;
    vch ← stacktop (stack st) 1;
    _ ← (if match sigversion with SIGVERSION_WITNESS_V0 => true | SIGVERSION_BASE => false end &&
            has_flag flags SCRIPT_VERIFY_MINIMALIF then
           _ ← fail_if (1 <? length vch)%nat SCRIPT_ERR_MINIMALIF;
           fail_if ((length vch =? 1)%nat && negb (at_ vch 0 =? 1)) SCRIPT_ERR_MINIMALIF
         else Ok tt);
    let fValue := CastToBool vch in
    let fValue := if notif then negb fValue else fValue in
    stk ← popstack (stack st);
    Ok (mkState stk (altstack st) (fValue :: vfExec st) (nOpCount st) (pbegincodehash st))
  else Ok (mkState (stack st) (altstack st) (false :: vfExec st) (nOpCount st) (pbegincodehash st)).

Definition op_else (st : estate) : eval estate :=
  match vfExec st with
  | [] => fail SCRIPT_ERR_UNBALANCED_CONDITIONAL
  | b :: r => Ok (mkState (stack st) (altstack st) (negb b :: r) (nOpCount st) (pbegincodehash st))
  end.

Definition op_endif (st : estate) : eval estate :=
  match vfExec st with
  | [] => fail SCRIPT_ERR_UNBALANCED_CONDITIONAL
  | _ :: r => Ok (mkState (stack st) (altstack st) r (nOpCount st) (pbegincodehash st))
  end.

Definition op_verify (stk : list bytes) : eval (list bytes) :=
  _ ← need stk 1;
  v ← stacktop stk 1;
  if CastToBool v then popstack stk else fail SCRIPT_ERR_VERIFY.

(** ** Stack operations *)

Definition op_toaltstack (st : estate) : eval estate :=
  _ ← need (stack st) 1;
  v ← stacktop (stack st) 1;
  stk ← popstack (stack st);
  Ok (mkState stk (v :: altstack st) (vfExec st) (nOpCount st) (pbegincodehash st)).

Definition op_fromaltstack (st : estate) : eval estate :=
  _ ← fail_if (Z.of_nat (length (altstack st)) <? 1) SCRIPT_ERR_INVALID_ALTSTACK_OPERATION;
  v ← stacktop (altstack st) 1;
  alt ← popstack (altstack st);
  Ok (mkState (v :: stack st) alt (vfExec st) (nOpCount st) (pbegincodehash st)).

Definition op_2drop (stk : list bytes) : eval (list bytes) :=
  _ ← need stk 2; stk ← popstack stk; popstack stk.
Definition op_2dup (stk : list bytes) : eval (list bytes) :=
  _ ← need stk 2; vch1 ← stacktop stk 2; vch2 ← stacktop stk 1; Ok (vch2 :: vch1 :: stk).
Definition op_3dup (stk : list bytes) : eval (list bytes) :=
  _ ← need stk 3; vch1 ← stacktop stk 3; vch2 ← stacktop stk 2; vch3 ← stacktop stk 1;
  Ok (vch3 :: vch2 :: vch1 :: stk).
Definition op_2over (stk : list bytes) : eval (list bytes) :=
  _ ← need stk 4; vch1 ← stacktop stk 4; vch2 ← stacktop stk 3; Ok (vch2 :: vch1 :: stk).
Definition op_2rot (stk : list bytes) : eval (list bytes) :=
  _ ← need stk 6; vch1 ← stacktop stk 6; vch2 ← stacktop stk 5;
  stk ← erase_range stk 6 4;
  Ok (vch2 :: vch1 :: stk).
Definition op_2swap (stk : list bytes) : eval (list bytes) :=
  _ ← need stk 4; stk ← swap_at stk 4 2; swap_at stk 3 1.
Definition op_ifdup (stk : list bytes) : eval (list bytes) :=
  _ ← need stk 1; vch ← stacktop stk 1; Ok (if CastToBool vch then vch :: stk else stk).
Definition op_depth (stk : list bytes) : eval (list bytes) :=
  Ok (scriptnum_serialize (Z.of_nat (length stk)) :: stk).
Definition op_drop (stk : list bytes) : eval (list bytes) :=
  _ ← need stk 1; popstack stk.
Definition op_dup (stk : list bytes) : eval (list bytes) :=
  _ ← need stk 1; vch ← stacktop stk 1; Ok (vch :: stk).
Definition op_nip (stk : list bytes) : eval (list bytes) :=
  _ ← need stk 2; erase_at stk 2.
Definition op_over (stk : list bytes) : eval (list bytes) :=
  _ ← need stk 2; vch ← stacktop stk 2; Ok (vch :: stk).
Definition op_pick_roll (roll : bool) (stk : list bytes) : eval (list bytes) :=
  _ ← need stk 2;
  v ← stacktop stk 1;
  bn ← scriptnum v nDefaultMaxNumSize;
  let n := getint bn in
  stk ← popstack stk;
  _ ← fail_if ((n <? 0) || (n >=? Z.of_nat (length stk))) SCRIPT_ERR_INVALID_STACK_OPERATION;
  vch ← stacktop stk (n + 1);
  stk ← (if roll then erase_at stk (n + 1) else Ok stk);
  Ok (vch :: stk).
Definition op_rot (stk : list bytes) : eval (list bytes) :=
  _ ← need stk 3; stk ← swap_at stk 3 2; swap_at stk 2 1.
Definition op_swap (stk : list bytes) : eval (list bytes) :=
  _ ← need stk 2; swap_at stk 2 1.
Definition op_tuck (stk : list bytes) : eval (list bytes) :=
  _ ← need stk 2; vch ← stacktop stk 1; insert_at stk 2 vch.
Definition op_size (stk : list bytes) : eval (list bytes) :=
  _ ← need stk 1; v ← stacktop stk 1; Ok (scriptnum_serialize (Z.of_nat (length v)) :: stk).

Definition op_equal (verify : bool) (stk : list bytes) : eval (list bytes) :=
  _ ← need stk 2;
  vch1 ← stacktop stk 2;
  vch2 ← stacktop stk 1;
  let fEqual := bool_decide (vch1 = vch2) in
  stk ← popstack stk;
  stk ← popstack stk;
  let stk := bool_vch fEqual :: stk in
  if verify then (if fEqual then popstack stk else fail SCRIPT_ERR_EQUALVERIFY) else Ok stk.

(** ** Numbers *)

(** The compound assignments and the negation of [CScriptNum] assert that nothing
    overflows 64 bits. *)
Definition num_add_assign (m rhs : Z) : eval Z :=
  _ ← assert_that ((rhs =? 0) || ((rhs >? 0) && (m <=? 2 ^ 63 - 1 - rhs)) ||
                   ((rhs <? 0) && (m >=? - 2 ^ 63 - rhs)));
  Ok (m + rhs).
Definition num_sub_assign (m rhs : Z) : eval Z :=
  _ ← assert_that ((rhs =? 0) || ((rhs >? 0) && (m >=? - 2 ^ 63 + rhs)) ||
                   ((rhs <? 0) && (m <=? 2 ^ 63 - 1 + rhs)));
  Ok (m - rhs).
Definition num_neg (m : Z) : eval Z := _ ← assert_that (negb (m =? - 2 ^ 63)); Ok (- m).

Definition b2z (b : bool) : Z := if b then 1 else 0.

Definition unary_num (op : opcodetype) (bn : Z) : eval Z :=
  match op with
  | OP_1ADD => num_add_assign bn 1
  | OP_1SUB => num_sub_assign bn 1
  | OP_NEGATE => num_neg bn
  | OP_ABS => if bn <? 0 then num_neg bn else Ok bn
  | OP_NOT => Ok (b2z (bn =? 0))
  | OP_0NOTEQUAL => Ok (b2z (negb (bn =? 0)))
  | _ => Err (Abort AssertFailure)
  end.

Definition op_unary (op : opcodetype) (stk : list bytes) : eval (list bytes) :=
  _ ← need stk 1;
  v ← stacktop stk 1;
  bn ← scriptnum v nDefaultMaxNumSize;
  bn ← unary_num op bn;
  stk ← popstack stk;
  Ok (scriptnum_serialize bn :: stk).

Definition binary_num (op : opcodetype) (bn1 bn2 : Z) : eval Z :=
  match op with
  | OP_ADD => Ok (i64 (bn1 + bn2))
  | OP_SUB => Ok (i64 (bn1 - bn2))
  | OP_BOOLAND => Ok (b2z (negb (bn1 =? 0) && negb (bn2 =? 0)))
  | OP_BOOLOR => Ok (b2z (negb (bn1 =? 0) || negb (bn2 =? 0)))
  | OP_NUMEQUAL => Ok (b2z (bn1 =? bn2))
  | OP_NUMEQUALVERIFY => Ok (b2z (bn1 =? bn2))
  | OP_NUMNOTEQUAL => Ok (b2z (negb (bn1 =? bn2)))
  | OP_LESSTHAN => Ok (b2z (bn1 <? bn2))
  | OP_GREATERTHAN => Ok (b2z (bn1 >? bn2))
  | OP_LESSTHANOREQUAL => Ok (b2z (bn1 <=? bn2))
  | OP_GREATERTHANOREQUAL => Ok (b2z (bn1 >=? bn2))
  | OP_MIN => Ok (if bn1 <? bn2 then bn1 else bn2)
  | OP_MAX => Ok (if bn1 >? bn2 then bn1 else bn2)
  | _ => Err (Abort AssertFailure)
  end.

Definition op_binary (op : opcodetype) (stk : list bytes) : eval (list bytes) :=
  _ ← need stk 2;
  v1 ← stacktop stk 2;
  v2 ← stacktop stk 1;
  bn1 ← scriptnum v1 nDefaultMaxNumSize;
  bn2 ← scriptnum v2 nDefaultMaxNumSize;
  bn ← binary_num op bn1 bn2;
  stk ← popstack stk;
  stk ← popstack stk;
  let stk := scriptnum_serialize bn :: stk in
  match op with
  | OP_NUMEQUALVERIFY =>
    v ← stacktop stk 1;
    if CastToBool v then popstack stk else fail SCRIPT_ERR_NUMEQUALVERIFY
  | _ => Ok stk
  end.

Definition op_within (stk : list bytes) : eval (list bytes) :=
  _ ← need stk 3;
  v1 ← stacktop stk 3;
  v2 ← stacktop stk 2;
  v3 ← stacktop stk 1;
  bn1 ← scriptnum v1 nDefaultMaxNumSize;
  bn2 ← scriptnum v2 nDefaultMaxNumSize;
  bn3 ← scriptnum v3 nDefaultMaxNumSize;
  let fValue := (bn2 <=? bn1) && (bn1 <? bn3) in
  stk ← popstack stk; stk ← popstack stk; stk ← popstack stk;
  Ok (bool_vch fValue :: stk).

(** ** Cryptography *)

Definition op_hash (op : opcodetype) (stk : list bytes) : eval (list bytes) :=
  _ ← need stk 1;
  vch ← stacktop stk 1;
  let vchHash :=
    match op with
    | OP_RIPEMD160 => CRIPEMD160_Finalize (CRIPEMD160_Write CRIPEMD160_init vch)
    | OP_SHA1 => CSHA1_Finalize (CSHA1_Write CSHA1_init vch)
    | OP_SHA256 => CSHA256_Finalize (CSHA256_Write CSHA256_init vch)
    | OP_HASH160 => CHash160_Finalize (CHash160_Write CHash160_init vch)
    | OP_HASH256 => CHash256_Finalize (CHash256_Write CHash256_init vch)
    | _ => replicate 32 0
    end in
  stk ← popstack stk;
  Ok (vchHash :: stk).

(** The script code a signature commits to: in scripts without witness the
    signature itself is dropped from it. *)
Definition drop_sig (scriptCode vchSig : bytes) : bytes :=
  match sigversion with
  | SIGVERSION_BASE => fst (FindAndDelete scriptCode (push_data vchSig))
  | SIGVERSION_WITNESS_V0 => scriptCode
  end.

Definition op_checksig (verify : bool) (st : estate) : eval estate :=
  _ ← need (stack st) 2;
  vchSig ← stacktop (stack st) 2;
  vchPubKey ← stacktop (stack st) 1;
  let scriptCode := drop_sig (pbegincodehash st) vchSig in
  _ ← CheckSignatureEncoding vchSig;
  _ ← CheckPubKeyEncoding vchPubKey;
  let* fSuccess := lift (CheckSig vchSig vchPubKey scriptCode sigversion) in
  _ ← fail_if (negb fSuccess && has_flag flags SCRIPT_VERIFY_NULLFAIL && negb (length vchSig =? 0)%nat)
        SCRIPT_ERR_SIG_NULLFAIL;
  stk ← popstack (stack st);
  stk ← popstack stk;
  let stk := bool_vch fSuccess :: stk in
  stk ← (if verify then (if fSuccess then popstack stk else fail SCRIPT_ERR_CHECKSIGVERIFY) else Ok stk);
  Ok (set_stack st stk).

(** [for (int k = 0; k < nSigsCount; k++)]: drop every signature from the script code. *)
Fixpoint drop_sigs (stk : list bytes) (n : nat) (isig k : Z) (scriptCode : bytes) : eval bytes :=
  match n with
  | O => Ok scriptCode
  | S n =>
    vchSig ← stacktop stk (isig + k);
    drop_sigs stk n isig (k + 1) (drop_sig scriptCode vchSig)
  end.

(** [while (fSuccess && nSigsCount > 0)]; every turn uses up a key, and there are
    never more signatures left than keys. *)
Fixpoint multisig_loop (fuel : nat) (stk : list bytes) (scriptCode : bytes)
    (fSuccess : bool) (isig nSigsCount ikey nKeysCount : Z) : eval bool :=
  if fSuccess && (nSigsCount >? 0) then
    match fuel with
    | O => Err (Abort OutOfFuel)
    | S fuel =>
      vchSig ← stacktop stk isig;
      vchPubKey ← stacktop stk ikey;
      _ ← CheckSignatureEncoding vchSig;
      _ ← CheckPubKeyEncoding vchPubKey;
      let* fOk := lift (CheckSig vchSig vchPubKey scriptCode sigversion) in
      let isig := if fOk then isig + 1 else isig in
      let nSigsCount := if fOk then nSigsCount - 1 else nSigsCount in
      let ikey := ikey + 1 in
      let nKeysCount := nKeysCount - 1 in
      let fSuccess := negb (nSigsCount >? nKeysCount) in
      multisig_loop fuel stk scriptCode fSuccess isig nSigsCount ikey nKeysCount
    end
  else Ok fSuccess.

(** [while (i-- > 1)]: clean up the [n = i - 1] arguments. *)
Fixpoint multisig_cleanup (n : nat) (fSuccess : bool) (ikey2 : Z) (stk : list bytes) : eval (list bytes) :=
  match n with
  | O => Ok stk
  | S n =>
    _ ← (if negb fSuccess && has_flag flags SCRIPT_VERIFY_NULLFAIL && (ikey2 =? 0) then
           v ← stacktop stk 1;
           fail_if (negb (length v =? 0)%nat) SCRIPT_ERR_SIG_NULLFAIL
         else Ok tt);
    let ikey2 := if ikey2 >? 0 then ikey2 - 1 else ikey2 in
    stk ← popstack stk;
    multisig_cleanup n fSuccess ikey2 stk
  end.

Definition op_checkmultisig (verify : bool) (st : estate) : eval estate :=
  let stk := stack st in
  _ ← need stk 1;
  v ← stacktop stk 1;
  bn ← scriptnum v nDefaultMaxNumSize;
  let nKeysCount := getint bn in
  _ ← fail_if ((nKeysCount <? 0) || (nKeysCount >? MAX_PUBKEYS_PER_MULTISIG)) SCRIPT_ERR_PUBKEY_COUNT;
  let nOpCount := nOpCount st + nKeysCount in
  _ ← fail_if (nOpCount >? MAX_OPS_PER_SCRIPT) SCRIPT_ERR_OP_COUNT;
  let ikey := 2 in
  let ikey2 := nKeysCount + 2 in
  let i := 2 + nKeysCount in
  _ ← need stk i;
  v ← stacktop stk i;
  bn ← scriptnum v nDefaultMaxNumSize;
  let nSigsCount := getint bn in
  _ ← fail_if ((nSigsCount <? 0) || (nSigsCount >? nKeysCount)) SCRIPT_ERR_SIG_COUNT;
  let isig := i + 1 in
  let i := i + 1 + nSigsCount in
  _ ← need stk i;
  scriptCode ← drop_sigs stk (Z.to_nat nSigsCount) isig 0 (pbegincodehash st);
  fSuccess ← multisig_loop (S (Z.to_nat nKeysCount)) stk scriptCode true isig nSigsCount ikey nKeysCount;
  stk ← multisig_cleanup (Z.to_nat (i - 1)) fSuccess ikey2 stk;
  (* the extra argument *)
  _ ← need stk 1;
  v ← stacktop stk 1;
  _ ← fail_if (has_flag flags SCRIPT_VERIFY_NULLDUMMY && negb (length v =? 0)%nat) SCRIPT_ERR_SIG_NULLDUMMY;
  stk ← popstack stk;
  let stk := bool_vch fSuccess :: stk in
  stk ← (if verify then (if fSuccess then popstack stk else fail SCRIPT_ERR_CHECKMULTISIGVERIFY) else Ok stk);
  Ok (mkState stk (altstack st) (vfExec st) nOpCount (pbegincodehash st)).

(** ** One instruction *)

Definition is_disabled (opcode : Z) : bool :=
  match opcode_of opcode with
  | Some (OP_CAT | OP_SUBSTR | OP_LEFT | OP_RIGHT | OP_INVERT | OP_AND | OP_OR | OP_XOR | OP_2MUL |
          OP_2DIV | OP_MUL | OP_DIV | OP_MOD | OP_LSHIFT | OP_RSHIFT) => true
  | _ => false
  end.

(** An operation that only touches the stack. *)
Definition on_stack (f : list bytes -> eval (list bytes)) (st : estate) : eval estate :=
  stk ← f (stack st); Ok (set_stack st stk).

(** The [switch (opcode)]; [pc] is the script behind the instruction. *)
Definition exec_op (opcode : Z) (fExec : bool) (pc : bytes) (st : estate) : eval estate :=
  match opcode_of opcode with
  | Some (OP_1NEGATE | OP_1 | OP_2 | OP_3 | OP_4 | OP_5 | OP_6 | OP_7 | OP_8 | OP_9 | OP_10 | OP_11 |
          OP_12 | OP_13 | OP_14 | OP_15 | OP_16) =>
    Ok (push st (scriptnum_serialize (opcode - (OP_1 - 1))))
  | Some OP_NOP => Ok st
  | Some OP_CHECKLOCKTIMEVERIFY => op_checklocktimeverify st
  | Some OP_CHECKSEQUENCEVERIFY => op_checksequenceverify st
  | Some (OP_NOP1 | OP_NOP4 | OP_NOP5 | OP_NOP6 | OP_NOP7 | OP_NOP8 | OP_NOP9 | OP_NOP10) =>
    op_upgradable_nop st
  | Some OP_IF => op_if false fExec st
  | Some OP_NOTIF => op_if true fExec st
  | Some OP_ELSE => op_else st
  | Some OP_ENDIF => op_endif st
  | Some OP_VERIFY => on_stack op_verify st
  | Some OP_RETURN => fail SCRIPT_ERR_OP_RETURN
  | Some OP_TOALTSTACK => op_toaltstack st
  | Some OP_FROMALTSTACK => op_fromaltstack st
  | Some OP_2DROP => on_stack op_2drop st
  | Some OP_2DUP => on_stack op_2dup st
  | Some OP_3DUP => on_stack op_3dup st
  | Some OP_2OVER => on_stack op_2over st
  | Some OP_2ROT => on_stack op_2rot st
  | Some OP_2SWAP => on_stack op_2swap st
  | Some OP_IFDUP => on_stack op_ifdup st
  | Some OP_DEPTH => on_stack op_depth st
  | Some OP_DROP => on_stack op_drop st
  | Some OP_DUP => on_stack op_dup st
  | Some OP_NIP => on_stack op_nip st
  | Some OP_OVER => on_stack op_over st
  | Some OP_PICK => on_stack (op_pick_roll false) st
  | Some OP_ROLL => on_stack (op_pick_roll true) st
  | Some OP_ROT => on_stack op_rot st
  | Some OP_SWAP => on_stack op_swap st
  | Some OP_TUCK => on_stack op_tuck st
  | Some OP_SIZE => on_stack op_size st
  | Some OP_EQUAL => on_stack (op_equal false) st
  | Some OP_EQUALVERIFY => on_stack (op_equal true) st
  | Some ((OP_1ADD | OP_1SUB | OP_NEGATE | OP_ABS | OP_NOT | OP_0NOTEQUAL) as op) => on_stack (op_unary op) st
  | Some ((OP_ADD | OP_SUB | OP_BOOLAND | OP_BOOLOR | OP_NUMEQUAL | OP_NUMEQUALVERIFY | OP_NUMNOTEQUAL |
           OP_LESSTHAN | OP_GREATERTHAN | OP_LESSTHANOREQUAL | OP_GREATERTHANOREQUAL | OP_MIN | OP_MAX) as op) =>
    on_stack (op_binary op) st
  | Some OP_WITHIN => on_stack op_within st
  | Some ((OP_RIPEMD160 | OP_SHA1 | OP_SHA256 | OP_HASH160 | OP_HASH256) as op) => on_stack (op_hash op) st
  | Some OP_CODESEPARATOR => Ok (mkState (stack st) (altstack st) (vfExec st) (nOpCount st) pc)
  | Some OP_CHECKSIG => op_checksig false st
  | Some OP_CHECKSIGVERIFY => op_checksig true st
  | Some OP_CHECKMULTISIG => op_checkmultisig false st
  | Some OP_CHECKMULTISIGVERIFY => op_checkmultisig true st
  | Some OP_HNB_ASSET => Ok st
  | _ => fail SCRIPT_ERR_BAD_OPCODE
  end.

(** One turn of the loop, for the instruction [GetOp] has read. *)
Definition exec_instr (opcode : Z) (vchPushValue pc : bytes) (st : estate) : eval estate :=
  let fExec := forallb id (vfExec st) in
  _ ← fail_if (Z.of_nat (length vchPushValue) >? MAX_SCRIPT_ELEMENT_SIZE) SCRIPT_ERR_PUSH_SIZE;
  let nOps := if opcode >? OP_16 then nOpCount st + 1 else nOpCount st in
  _ ← fail_if ((opcode >? OP_16) && (nOps >? MAX_OPS_PER_SCRIPT)) SCRIPT_ERR_OP_COUNT;
  let st := mkState (stack st) (altstack st) (vfExec st) nOps (pbegincodehash st) in
  _ ← fail_if (is_disabled opcode) SCRIPT_ERR_DISABLED_OPCODE;
  st ← (if fExec && (0 <=? opcode) && (opcode <=? OP_PUSHDATA4) then
          _ ← fail_if (fRequireMinimal && negb (CheckMinimalPush vchPushValue opcode)) SCRIPT_ERR_MINIMALDATA;
          Ok (push st vchPushValue)
        else if fExec || ((OP_IF <=? opcode) && (opcode <=? OP_ENDIF)) then exec_op opcode fExec pc st
        else Ok st);
  _ ← fail_if (Z.of_nat (length (stack st)) + Z.of_nat (length (altstack st)) >? MAX_STACK_SIZE)
        SCRIPT_ERR_STACK_SIZE;
  Ok st.

Fixpoint EvalScript_loop (fuel : nat) (pc : bytes) (st : estate) : eval estate :=
  match pc with
  | [] => Ok st
  | _ =>
    match fuel with
    | O => Err (Abort OutOfFuel)
    | S fuel =>
      let r := GetOp pc in
      if negb (go_ok r) then fail SCRIPT_ERR_BAD_OPCODE
      else
        st ← exec_instr (opcodeRet r) (vchRet r) (go_pc r) st;
        EvalScript_loop fuel (go_pc r) st
    end
  end.

(** The exceptions of the loop become [SCRIPT_ERR_UNKNOWN_ERROR]. *)
Definition catch {A} (m : eval A) : eval A :=
  match m with
  | Err (Throw _) => fail SCRIPT_ERR_UNKNOWN_ERROR
  | m => m
  end.

(** The stack after a successful evaluation. *)
Definition EvalScript (stk : list bytes) (script : bytes) : eval (list bytes) :=
  _ ← fail_if (Z.of_nat (length script) >? MAX_SCRIPT_SIZE) SCRIPT_ERR_SCRIPT_SIZE;
  st ← catch (EvalScript_loop (length script) script (mkState stk [] [] 0 script));
  _ ← fail_if (negb (length (vfExec st) =? 0)%nat) SCRIPT_ERR_UNBALANCED_CONDITIONAL;
  Ok (stack st).
End EvalScript.

(** ** Whole inputs: [VerifyWitnessProgram], [VerifyScript] *)

Section VerifyScript.
Context {checker : BaseSignatureChecker} {lows : LowS}.

(** [scriptPubKey << OP_DUP << OP_HASH160 << program << OP_EQUALVERIFY << OP_CHECKSIG] *)
Definition p2pkh_script (program : bytes) : bytes :=
  [opcode_value OP_DUP; opcode_value OP_HASH160] ++ push_data program ++
  [opcode_value OP_EQUALVERIFY; opcode_value OP_CHECKSIG].

(** The script of a version 0 program and the stack it starts on; the witness is
    listed bottom first. *)
Definition witness_v0_script (witness : list bytes) (program : bytes) : eval (bytes * list bytes) :=
  if (length program =? 32)%nat then
    match last witness with
    | None => fail SCRIPT_ERR_WITNESS_PROGRAM_WITNESS_EMPTY
    | Some scriptPubKey =>
      let hashScriptPubKey := CSHA256_Finalize (CSHA256_Write CSHA256_init scriptPubKey) in
      if bool_decide (hashScriptPubKey = program)
      then Ok (scriptPubKey, tail (reverse witness))
      else fail SCRIPT_ERR_WITNESS_PROGRAM_MISMATCH
    end
  else if (length program =? 20)%nat then
    if negb (length witness =? 2)%nat then fail SCRIPT_ERR_WITNESS_PROGRAM_MISMATCH
    else Ok (p2pkh_script program, reverse witness)
  else fail SCRIPT_ERR_WITNESS_PROGRAM_WRONG_LENGTH.

(** [if (!CastToBool(stack.back())) return set_error(serror, SCRIPT_ERR_EVAL_FALSE);] *)
Definition require_true (stk : list bytes) : eval unit :=
  match stk with
  | [] => fail SCRIPT_ERR_EVAL_FALSE
  | v :: _ => fail_if (negb (CastToBool v)) SCRIPT_ERR_EVAL_FALSE
  end.

Definition VerifyWitnessProgram (witness : list bytes) (witversion : Z) (program : bytes) (flags : Z) : eval unit :=
  if witversion =? 0 then
    let* (scriptPubKey, stk) := witness_v0_script witness program in
    _ ← fail_if (existsb (fun v => Z.of_nat (length v) >? MAX_SCRIPT_ELEMENT_SIZE) stk) SCRIPT_ERR_PUSH_SIZE;
    stk ← EvalScript flags SIGVERSION_WITNESS_V0 stk scriptPubKey;
    _ ← fail_if (negb (length stk =? 1)%nat) SCRIPT_ERR_EVAL_FALSE;
    require_true stk
  else fail_if (has_flag flags SCRIPT_VERIFY_DISCOURAGE_UPGRADABLE_WITNESS_PROGRAM)
         SCRIPT_ERR_DISCOURAGE_UPGRADABLE_WITNESS_PROGRAM.

(** [stack.resize(1)] keeps the bottom element. *)
Definition resize1 (stk : list bytes) : list bytes := [default [] (last stk)].

(** A witness program, bare or in a redeem script: the stack afterwards and whether
    there was one. *)
Definition verify_witness (flags : Z) (witness : list bytes) (script : bytes) (malleated : bool)
    (e : ScriptError) (stk : list bytes) (hadWitness : bool) : eval (list bytes * bool) :=
  if has_flag flags SCRIPT_VERIFY_WITNESS then
    match IsWitnessProgram script with
    | Some (witnessversion, witnessprogram) =>
      _ ← fail_if malleated e;
      _ ← VerifyWitnessProgram witness witnessversion witnessprogram flags;
      Ok (resize1 stk, true)
    | None => Ok (stk, hadWitness)
    end
  else Ok (stk, hadWitness).

(** The additional validation of a spend to a script hash; [stackCopy] is the stack
    that [scriptSig] has left. *)
Definition verify_p2sh (flags : Z) (scriptSig : bytes) (witness : list bytes) (stackCopy : list bytes)
    (hadWitness : bool) : eval (list bytes * bool) :=
  _ ← fail_if (negb (IsPushOnly scriptSig)) SCRIPT_ERR_SIG_PUSHONLY;
  let stk := stackCopy in
  _ ← assert_that (negb (length stk =? 0)%nat);
  pubKey2 ← stacktop stk 1;
  stk ← popstack stk;
  stk ← EvalScript flags SIGVERSION_BASE stk pubKey2;
  _ ← require_true stk;
  verify_witness flags witness pubKey2 (negb (bool_decide (scriptSig = push_data pubKey2)))
    SCRIPT_ERR_WITNESS_MALLEATED_P2SH stk hadWitness.

Definition VerifyScript (scriptSig scriptPubKey : bytes) (witness : list bytes) (flags : Z) : eval unit :=
  _ ← fail_if (has_flag flags SCRIPT_VERIFY_SIGPUSHONLY && negb (IsPushOnly scriptSig)) SCRIPT_ERR_SIG_PUSHONLY;
  stackCopy ← EvalScript flags SIGVERSION_BASE [] scriptSig;
  stk ← EvalScript flags SIGVERSION_BASE stackCopy scriptPubKey;
  _ ← require_true stk;
  let* (stk, hadWitness) :=
    verify_witness flags witness scriptPubKey (negb (length scriptSig =? 0)%nat) SCRIPT_ERR_WITNESS_MALLEATED stk false in
  let* (stk, hadWitness) :=
    (if has_flag flags SCRIPT_VERIFY_P2SH && IsPayToScriptHash scriptPubKey then
       verify_p2sh flags scriptSig witness stackCopy hadWitness
     else Ok (stk, hadWitness)) in
  _ ← (if has_flag flags SCRIPT_VERIFY_CLEANSTACK then
         _ ← assert_that (has_flag flags SCRIPT_VERIFY_P2SH);
         _ ← assert_that (has_flag flags SCRIPT_VERIFY_WITNESS);
         fail_if (negb (length stk =? 1)%nat) SCRIPT_ERR_CLEANSTACK
       else Ok tt);
  if has_flag flags SCRIPT_VERIFY_WITNESS then
    _ ← assert_that (has_flag flags SCRIPT_VERIFY_P2SH);
    fail_if (negb hadWitness && negb (length witness =? 0)%nat) SCRIPT_ERR_WITNESS_UNEXPECTED
  else Ok tt.
End VerifyScript.

(** ** Signature operations in witnesses *)

Definition WitnessSigOps (witversion : Z) (witprogram : bytes) (witness : list bytes) : Z :=
  if witversion =? 0 then
    if (length witprogram =? 20)%nat then 1
    else if (length witprogram =? 32)%nat then
      match last witness with
      | Some subscript => GetSigOpCount subscript true
      | None => 0
      end
    else 0
  else 0.

(** [while (pc < scriptSig.end()) scriptSig.GetOp(pc, opcode, data);] *)
Fixpoint last_data_loop (fuel : nat) (pc data : bytes) : result fault bytes :=
  match pc with
  | [] => Ok data
  | _ =>
    match fuel with
    | O => Err OutOfFuel
    | S fuel => let r := GetOp pc in last_data_loop fuel (go_pc r) (vchRet r)
    end
  end.

Definition CountWitnessSigOps (scriptSig scriptPubKey : bytes) (witness : list bytes) (flags : Z) : result fault Z :=
  if negb (has_flag flags SCRIPT_VERIFY_WITNESS) then Ok 0
  else if negb (has_flag flags SCRIPT_VERIFY_P2SH) then Err AssertFailure
  else
    match IsWitnessProgram scriptPubKey with
    | Some (witnessversion, witnessprogram) => Ok (WitnessSigOps witnessversion witnessprogram witness)
    | None =>
      if IsPayToScriptHash scriptPubKey && IsPushOnly scriptSig then
        subscript ← last_data_loop (length scriptSig) scriptSig [];
        match IsWitnessProgram subscript with
        | Some (witnessversion, witnessprogram) => Ok (WitnessSigOps witnessversion witnessprogram witness)
        | None => Ok 0
        end
      else Ok 0
    end.
