(* ===== verification/EvalSafety.v ===== *)
(** * The script interpreter never goes wrong

    Every stack access of [EvalScript] is guarded: no evaluation indexes the stack
    outside its bounds, pops an empty stack, fails an assertion or runs forever, on any
    script and any stack.  The only exception that can be thrown is the one of script
    numbers.  Along the way the consensus limits hold in every state: at most 1000
    elements on the two stacks, none longer than 520 bytes, at most 201 counted
    operations. *)

From S2P Require Import Prelude Endian Hasher Sha2 Sha1Ripemd HashFns Script Transaction Interpreter.

(** ** Definitions *)

(** The outcomes that a script is allowed to have. *)
Definition safe {A} (P : A -> Prop) (m : eval A) : Prop :=
  match m with
  | Ok a => P a
  | Err (Fail _) | Err (Throw ScriptNumError) => True
  | Err _ => False
  end.

(** The same where exceptions have been caught. *)
Definition caught {A} (P : A -> Prop) (m : eval A) : Prop :=
  match m with
  | Ok a => P a
  | Err (Fail _) => True
  | Err _ => False
  end.

Definition element_ok (v : bytes) : Prop := is_bytes v /\ Z.of_nat (length v) <= MAX_SCRIPT_ELEMENT_SIZE.
Definition stack_ok (stk : list bytes) : Prop := Forall element_ok stk.

Record state_ok (st : estate) : Prop := {
  st_stack : stack_ok (stack st);
  st_altstack : stack_ok (altstack st);
  st_ops : 0 <= nOpCount st <= MAX_OPS_PER_SCRIPT;
}.

(** The signature checker answers every question. *)
Class CheckerTotal (c : BaseSignatureChecker) := {
  CheckSig_total sig pubkey code v : is_ok (CheckSig sig pubkey code v) = true;
  CheckLockTime_total n : is_ok (CheckLockTime n) = true;
  CheckSequence_total n : is_ok (CheckSequence n) = true;
}.

(** The flag sets the node uses: [CLEANSTACK] needs [P2SH] and [WITNESS], and [WITNESS]
    needs [P2SH]. *)
Definition flags_consistent (flags : Z) : Prop :=
  (has_flag flags SCRIPT_VERIFY_CLEANSTACK = true -> has_flag flags SCRIPT_VERIFY_WITNESS = true) /\
  (has_flag flags SCRIPT_VERIFY_WITNESS = true -> has_flag flags SCRIPT_VERIFY_P2SH = true).

(** ** The primitives *)

Lemma safe_bind {A B} (P : A -> Prop) (Q : B -> Prop) (m : eval A) (f : A -> eval B) :
  safe P m -> (forall a, P a -> safe Q (f a)) -> safe Q (m ≫= f).
Proof. destruct m as [a|[]]; cbn; auto. Qed.

Lemma safe_let {A B} (P : A -> Prop) (Q : B -> Prop) (m : eval A) (f : A -> eval B) :
  safe P m -> (forall a, P a -> safe Q (f a)) -> safe Q (let* a := m in f a).
Proof. exact (safe_bind P Q m f). Qed.

Lemma safe_mono {A} (P Q : A -> Prop) (m : eval A) : safe P m -> (forall a, P a -> Q a) -> safe Q m.
Proof. destruct m as [a|[]]; cbn; auto. Qed.

Lemma safe_fail_if b e : safe (fun _ => b = false) (fail_if b e).
Proof. by destruct b. Qed.

Lemma safe_need stk n : safe (fun _ => n <= Z.of_nat (length stk)) (need stk n).
Proof. unfold need, fail_if. by destruct (Z.ltb_spec (Z.of_nat (length stk)) n). Qed.

Lemma safe_stacktop stk i :
  stack_ok stk -> 1 <= i <= Z.of_nat (length stk) -> safe element_ok (stacktop stk i).
Proof.
  intros Hs Hi. unfold stacktop. destruct (Z.ltb_spec i 1); [lia|].
  destruct (lookup_lt_is_Some_2 stk (Z.to_nat (i - 1)) ltac:(lia)) as [v Hv]. rewrite Hv. cbn.
  by apply (Forall_lookup_1 _ _ _ _ Hs Hv).
Qed.

Lemma safe_popstack stk :
  stack_ok stk -> 1 <= Z.of_nat (length stk) ->
  safe (fun s => stack_ok s /\ Z.of_nat (length s) = Z.of_nat (length stk) - 1) (popstack stk).
Proof.
  intros Hs Hl. destruct stk; cbn in Hl |- *; [lia|]. apply Forall_cons in Hs as [_ Hs]. split; [done|lia].
Qed.

Lemma safe_erase_range stk i j :
  stack_ok stk -> 0 <= j <= i -> i <= Z.of_nat (length stk) ->
  safe (fun s => stack_ok s) (erase_range stk i j).
Proof.
  intros Hs Hj Hi. unfold erase_range.
  destruct (Z.ltb_spec j 0), (Z.ltb_spec i j), (Z.ltb_spec (Z.of_nat (length stk)) i); try lia. cbn.
  by apply Forall_app_2; [apply Forall_take|apply Forall_drop].
Qed.

Lemma safe_insert_at stk i v :
  stack_ok stk -> element_ok v -> 0 <= i <= Z.of_nat (length stk) ->
  safe (fun s => stack_ok s) (insert_at stk i v).
Proof.
  intros Hs Hv Hi. unfold insert_at.
  destruct (Z.ltb_spec i 0), (Z.ltb_spec (Z.of_nat (length stk)) i); try lia. cbn.
  apply Forall_app_2; [by apply Forall_take|]. constructor; [done|by apply Forall_drop].
Qed.

Lemma safe_swap_at stk i j :
  stack_ok stk -> 1 <= i <= Z.of_nat (length stk) -> 1 <= j <= Z.of_nat (length stk) ->
  safe (fun s => stack_ok s /\ Z.of_nat (length s) = Z.of_nat (length stk)) (swap_at stk i j).
Proof.
  intros Hs Hi Hj. unfold swap_at.
  eapply safe_bind; [by apply safe_stacktop|intros a Ha].
  eapply safe_bind; [by apply safe_stacktop|intros b Hb]. cbn. split.
  - by do 2 (apply Forall_insert; [|done]).
  - by rewrite !length_insert.
Qed.

Lemma safe_lift {A} (m : result fault A) : is_ok m = true -> safe (fun _ => True) (lift m).
Proof. by destruct m. Qed.

Lemma safe_assert b : b = true -> safe (fun _ => True) (assert_that b).
Proof. by intros ->. Qed.

Lemma element_ok_bool b : element_ok (bool_vch b).
Proof. destruct b; split; cbn; try done. repeat constructor; lia. Qed.

Lemma element_ok_num n : Z.abs n < 2 ^ 63 -> element_ok (scriptnum_serialize n).
Proof.
  intros Hn. destruct (scriptnum_roundtrip n ltac:(lia)) as (Hb & _ & _).
  split; [done|]. pose proof (scriptnum_serialize_length n 8 ltac:(lia) Hn). unfold MAX_SCRIPT_ELEMENT_SIZE. lia.
Qed.

Lemma stack_ok_cons v stk : element_ok v -> stack_ok stk -> stack_ok (v :: stk).
Proof. by constructor. Qed.

Create HintDb safe.
#[export] Hint Resolve stack_ok_cons element_ok_bool : safe.

(** ** Operations on the stack *)

Section Ops.
Context {checker : BaseSignatureChecker} {lows : LowS} {Htotal : CheckerTotal checker}.
Context (flags : Z) (sigversion : SigVersion).

Lemma safe_scriptnum v k :
  element_ok v -> 0 < k -> safe (fun n => Z.abs n < 2 ^ (8 * k - 1)) (scriptnum flags v k).
Proof.
  intros [Hv _] Hk. unfold scriptnum. destruct (CScriptNum _ _ _) eqn:E; [|done]. by apply CScriptNum_range in E.
Qed.

(** One step: the guard, access or call at the head of the operation. *)
Ltac safe_step :=
  lazymatch goal with
  | |- safe _ (@mbind _ _ _ _ _ (need _ _)) => eapply safe_bind; [apply safe_need|intros ? ?; cbn beta in *]
  | |- safe _ (@mbind _ _ _ _ _ (fail_if _ _)) => eapply safe_bind; [apply safe_fail_if|intros ? ?; cbn beta in *]
  | |- safe _ (@mbind _ _ _ _ _ (stacktop _ _)) =>
    eapply safe_bind; [apply safe_stacktop; [by auto with safe|cbn [length]; lia]|intros ? ?]
  | |- safe _ (@mbind _ _ _ _ _ (popstack _)) =>
    eapply safe_bind; [apply safe_popstack; [by auto with safe|cbn [length]; lia]|intros ? [? ?]]
  | |- safe _ (popstack _) =>
    eapply safe_mono; [apply safe_popstack; [by auto 6 with safe|cbn [length]; lia]|by intros ? [? ?]]
  | |- safe _ (@mbind _ _ _ _ _ (scriptnum _ _ _)) => eapply safe_bind; [apply safe_scriptnum; [done|done]|intros ? ?]
  | |- safe _ (@mbind _ _ _ _ _ (swap_at _ _ _)) => eapply safe_bind; [apply safe_swap_at; [done|lia|lia]|intros ? [? ?]]
  | |- safe _ (swap_at _ _ _) =>
    eapply safe_mono; [apply safe_swap_at; [done|lia|lia]|by intros ? [? ?]]
  | |- safe _ (@mbind _ _ _ _ _ (erase_range _ _ _)) => eapply safe_bind; [apply safe_erase_range; [done|lia|lia]|intros ? ?]
  | |- safe _ (insert_at _ _ _) => apply safe_insert_at; [done|done|lia]
  | |- safe _ (Ok _) => cbn [safe]
  | |- safe _ (fail _) => exact I
  | |- safe _ (if ?b then _ else _) => destruct b
  end.
Ltac safe_steps := repeat (safe_step; cbn beta).

Definition op_safe (f : list bytes -> eval (list bytes)) : Prop := forall stk, stack_ok stk -> safe stack_ok (f stk).

Ltac op_safe_solve := intros stk Hs; unfold op_verify, op_2drop, op_2dup, op_3dup, op_2over, op_2rot, op_2swap, op_ifdup,
  op_drop, op_dup, op_nip, op_over, op_rot, op_swap, op_tuck, op_equal, op_within, erase_at in *;
  safe_steps; auto 6 with safe.

Lemma op_verify_safe : op_safe op_verify. Proof. op_safe_solve. Qed.
Lemma op_2drop_safe : op_safe op_2drop. Proof. op_safe_solve. Qed.
Lemma op_2dup_safe : op_safe op_2dup. Proof. op_safe_solve. Qed.
Lemma op_3dup_safe : op_safe op_3dup. Proof. op_safe_solve. Qed.
Lemma op_2over_safe : op_safe op_2over. Proof. op_safe_solve. Qed.
Lemma op_2rot_safe : op_safe op_2rot. Proof. op_safe_solve. Qed.
Lemma op_2swap_safe : op_safe op_2swap. Proof. op_safe_solve. Qed.
Lemma op_ifdup_safe : op_safe op_ifdup. Proof. op_safe_solve. case_match; auto with safe. Qed.
Lemma op_drop_safe : op_safe op_drop. Proof. op_safe_solve. Qed.
Lemma op_dup_safe : op_safe op_dup. Proof. op_safe_solve. Qed.
Lemma op_nip_safe : op_safe op_nip. Proof. op_safe_solve. apply safe_erase_range; [done|lia|lia]. Qed.
Lemma op_over_safe : op_safe op_over. Proof. op_safe_solve. Qed.
Lemma op_rot_safe : op_safe op_rot. Proof. op_safe_solve. Qed.
Lemma op_swap_safe : op_safe op_swap. Proof. op_safe_solve. Qed.
Lemma op_tuck_safe : op_safe op_tuck. Proof. op_safe_solve. Qed.
Lemma op_equal_safe verify : op_safe (op_equal verify). Proof. op_safe_solve. Qed.
Lemma op_within_safe : op_safe (op_within flags). Proof. op_safe_solve. Qed.

Lemma op_depth_safe stk : stack_ok stk -> Z.of_nat (length stk) < 2 ^ 63 -> safe stack_ok (op_depth stk).
Proof. intros Hs Hl. cbn. apply stack_ok_cons; [apply element_ok_num; lia|done]. Qed.

Lemma op_size_safe : op_safe op_size.
Proof.
  intros stk Hs. unfold op_size. safe_steps. apply stack_ok_cons; [|done].
  match goal with H : element_ok _ |- _ => destruct H as [_ H]; unfold MAX_SCRIPT_ELEMENT_SIZE in H end.
  apply element_ok_num. lia.
Qed.

Lemma op_pick_roll_safe roll : op_safe (op_pick_roll flags roll).
Proof.
  intros stk Hs. unfold op_pick_roll. safe_steps. b2p.
  safe_steps. destruct roll; cbn [mbind result_bind]; [|by safe_steps; auto with safe].
  unfold erase_at. safe_steps. auto with safe.
Qed.

Lemma b2z_abs b : Z.abs (b2z b) < 2 ^ 63.
Proof. by destruct b. Qed.

Lemma unary_num_safe op n :
  In op [OP_1ADD; OP_1SUB; OP_NEGATE; OP_ABS; OP_NOT; OP_0NOTEQUAL] ->
  Z.abs n < 2 ^ 31 -> safe (fun m => Z.abs m < 2 ^ 63) (unary_num op n).
Proof.
  intros Hop Hn. cbn [In] in Hop.
  assert (Hneg : safe (fun m => Z.abs m < 2 ^ 63) (num_neg n)).
  { unfold num_neg. eapply safe_bind; [apply safe_assert|intros ? _; cbn [safe]; lia].
    destruct (Z.eqb_spec n (- 2 ^ 63)); [lia|done]. }
  destruct_or! Hop; try done; subst op; cbn [unary_num].
  - unfold num_add_assign. eapply safe_bind; [apply safe_assert|intros ? _; cbn [safe]; lia].
    destruct (Z.leb_spec n (2 ^ 63 - 1 - 1)); [done|lia].
  - unfold num_sub_assign. eapply safe_bind; [apply safe_assert|intros ? _; cbn [safe]; lia].
    rewrite Z.geb_leb. destruct (Z.leb_spec (- 2 ^ 63 + 1) n); [done|lia].
  - done.
  - case_match; [done|cbn [safe]; lia].
  - apply b2z_abs.
  - apply b2z_abs.
Qed.

Lemma op_unary_safe op :
  In op [OP_1ADD; OP_1SUB; OP_NEGATE; OP_ABS; OP_NOT; OP_0NOTEQUAL] -> op_safe (op_unary flags op).
Proof.
  intros Hop stk Hs. unfold op_unary. safe_steps. eapply safe_bind; [by apply unary_num_safe|intros m Hm; cbn beta in *].
  safe_steps. apply stack_ok_cons; [by apply element_ok_num|done].
Qed.

Lemma binary_num_safe op n1 n2 :
  In op [OP_ADD; OP_SUB; OP_BOOLAND; OP_BOOLOR; OP_NUMEQUAL; OP_NUMEQUALVERIFY; OP_NUMNOTEQUAL; OP_LESSTHAN;
         OP_GREATERTHAN; OP_LESSTHANOREQUAL; OP_GREATERTHANOREQUAL; OP_MIN; OP_MAX] ->
  Z.abs n1 < 2 ^ 31 -> Z.abs n2 < 2 ^ 31 -> safe (fun m => Z.abs m < 2 ^ 63) (binary_num op n1 n2).
Proof.
  intros Hop H1 H2. cbn [In] in Hop.
  destruct_or! Hop; try done; subst op; cbn [binary_num safe]; try apply b2z_abs;
    try (case_match; lia); rewrite i64_id; unfold is_i64; lia.
Qed.

Lemma op_binary_safe op :
  In op [OP_ADD; OP_SUB; OP_BOOLAND; OP_BOOLOR; OP_NUMEQUAL; OP_NUMEQUALVERIFY; OP_NUMNOTEQUAL; OP_LESSTHAN;
         OP_GREATERTHAN; OP_LESSTHANOREQUAL; OP_GREATERTHANOREQUAL; OP_MIN; OP_MAX] -> op_safe (op_binary flags op).
Proof.
  intros Hop stk Hs. unfold op_binary. safe_steps.
  eapply safe_bind; [by apply binary_num_safe|intros m Hm; cbn beta in *]. safe_steps.
  pose proof (element_ok_num m Hm) as Hok.
  assert (Hgen : forall s, stack_ok s -> safe stack_ok (Ok (scriptnum_serialize m :: s))) by (intros; by constructor).
  destruct op; try by apply Hgen. safe_steps.
Qed.

Lemma op_hash_safe op : op_safe (op_hash op).
Proof.
  intros stk Hs. unfold op_hash. safe_steps. apply stack_ok_cons; [|done].
  assert (Hd : forall d k, is_bytes d /\ length d = k -> (k <= 32)%nat -> element_ok d)
    by (intros d k [Hb Hl] Hk; split; [done|rewrite Hl; unfold MAX_SCRIPT_ELEMENT_SIZE; lia]).
  assert (Hz : element_ok (replicate 32 0)).
  { apply (Hd _ 32%nat); [split; [by apply Forall_replicate|apply length_replicate]|done]. }
  destruct op; lazymatch goal with |- element_ok (replicate _ _) => exact Hz | _ => idtac end.
  - rewrite CRIPEMD160_once. eapply Hd; [apply ripemd160_digest|lia].
  - rewrite CSHA1_once. eapply Hd; [apply sha1_digest|lia].
  - rewrite CSHA256_once. eapply Hd; [apply sha256_digest|lia].
  - rewrite CHash160_once. eapply Hd; [apply ripemd160_digest|lia].
  - rewrite CHash256_once. eapply Hd; [apply sha256_digest|lia].
Qed.

(** ** Signatures *)

Lemma CheckSignatureEncoding_safe sig : safe (fun _ => True) (CheckSignatureEncoding flags sig).
Proof. unfold CheckSignatureEncoding, IsLowDERSignature. unfold fail. repeat case_match; simplify_eq/=; done. Qed.

Lemma CheckPubKeyEncoding_safe key : safe (fun _ => True) (CheckPubKeyEncoding flags sigversion key).
Proof. unfold CheckPubKeyEncoding. by repeat case_match. Qed.

Lemma drop_sigs_safe stk n : forall isig k code,
  stack_ok stk -> 1 <= isig + k -> isig + k + Z.of_nat n <= Z.of_nat (length stk) + 1 ->
  safe (fun _ => True) (drop_sigs sigversion stk n isig k code).
Proof.
  induction n as [|n IH]; intros isig k code Hs Hk Hn; [done|]. cbn [drop_sigs]. safe_step. apply IH; [done|lia|lia].
Qed.

Lemma multisig_loop_safe stk code fuel : forall b isig nSigs ikey nKeys,
  stack_ok stk -> nKeys <= Z.of_nat fuel -> (b = true -> nSigs <= nKeys) ->
  1 <= isig -> isig + nSigs <= Z.of_nat (length stk) + 1 ->
  1 <= ikey -> ikey + nKeys <= Z.of_nat (length stk) + 1 ->
  safe (fun _ => True) (multisig_loop flags sigversion fuel stk code b isig nSigs ikey nKeys).
Proof.
  induction fuel as [|fuel IH]; intros b isig nSigs ikey nKeys Hs Hf Hb H1 H2 H3 H4; cbn [multisig_loop].
  { destruct b; [|done]. specialize (Hb eq_refl). rewrite Z.gtb_ltb. destruct (Z.ltb_spec 0 nSigs); [lia|done]. }
  rewrite Z.gtb_ltb. destruct b, (Z.ltb_spec 0 nSigs); try done. specialize (Hb eq_refl). cbn [andb].
  safe_steps.
  eapply safe_bind; [apply CheckSignatureEncoding_safe|intros ? _].
  eapply safe_bind; [apply CheckPubKeyEncoding_safe|intros ? _].
  eapply safe_let; [apply safe_lift, CheckSig_total|intros fOk _].
  apply IH; [done|lia| |destruct fOk; lia|destruct fOk; lia|lia|lia].
  rewrite Z.gtb_ltb. intros Hn. destruct (Z.ltb_spec (nKeys - 1) (if fOk then nSigs - 1 else nSigs)); [done|lia].
Qed.

Lemma multisig_cleanup_safe b n : forall ikey2 stk,
  stack_ok stk -> Z.of_nat n <= Z.of_nat (length stk) -> safe stack_ok (multisig_cleanup flags n b ikey2 stk).
Proof.
  induction n as [|n IH]; intros ikey2 stk Hs Hn; [done|]. cbn [multisig_cleanup].
  eapply (safe_bind (fun _ => True)).
  { case_match; [|done]. safe_steps. eapply safe_mono; [apply safe_fail_if|done]. }
  intros ? _. safe_steps. apply IH; [done|lia].
Qed.

(** ** Instructions *)

Lemma on_stack_safe f st : op_safe f -> state_ok st -> safe state_ok (on_stack f st).
Proof.
  intros Hf [H1 H2 H3]. unfold on_stack. eapply safe_bind; [by apply Hf|intros s Hs]. by split.
Qed.

Lemma op_checksig_safe verify st : state_ok st -> safe state_ok (op_checksig flags sigversion verify st).
Proof.
  intros [H1 H2 H3]. unfold op_checksig. safe_steps.
  eapply safe_bind; [apply CheckSignatureEncoding_safe|intros ? _].
  eapply safe_bind; [apply CheckPubKeyEncoding_safe|intros ? _].
  eapply safe_let; [apply safe_lift, CheckSig_total|intros fOk _]. safe_steps.
  eapply (safe_bind stack_ok); [|intros s Hs; by split].
  safe_steps; auto with safe.
Qed.

Lemma op_checkmultisig_safe verify st : state_ok st -> safe state_ok (op_checkmultisig flags sigversion verify st).
Proof.
  intros [H1 H2 H3]. unfold op_checkmultisig. safe_steps. unfold MAX_PUBKEYS_PER_MULTISIG in *. b2p.
  safe_steps. b2p. safe_steps.
  eapply safe_bind; [apply drop_sigs_safe; [done|lia|lia]|intros code _].
  eapply safe_bind; [apply multisig_loop_safe; [done|lia|lia|lia|lia|lia|lia]|intros fSuccess _].
  eapply safe_bind; [apply multisig_cleanup_safe; [done|lia]|intros stk' Hs']. safe_steps.
  eapply (safe_bind stack_ok); [safe_steps; auto with safe|intros s Hs]. split; [done|done|cbn; lia].
Qed.

Lemma op_upgradable_nop_safe st : state_ok st -> safe state_ok (op_upgradable_nop flags st).
Proof. intros Hst. unfold op_upgradable_nop. by safe_steps. Qed.

Lemma op_checklocktimeverify_safe st : state_ok st -> safe state_ok (op_checklocktimeverify flags st).
Proof.
  intros Hst. pose proof (st_stack st Hst). unfold op_checklocktimeverify. case_match; [by apply op_upgradable_nop_safe|].
  safe_steps. eapply safe_bind; [apply safe_lift, CheckLockTime_total|intros ? _]. by safe_steps.
Qed.

Lemma op_checksequenceverify_safe st : state_ok st -> safe state_ok (op_checksequenceverify flags st).
Proof.
  intros Hst. pose proof (st_stack st Hst). unfold op_checksequenceverify. case_match; [by apply op_upgradable_nop_safe|].
  safe_steps; [done|]. eapply safe_bind; [apply safe_lift, CheckSequence_total|intros ? _]. by safe_steps.
Qed.

Lemma op_if_safe notif fExec st : state_ok st -> safe state_ok (op_if flags sigversion notif fExec st).
Proof.
  intros [H1 H2 H3]. unfold op_if. destruct fExec; [|by split]. safe_steps. b2p. safe_steps.
  eapply (safe_bind (fun _ => True)).
  { case_match; [|done]. safe_steps. eapply safe_mono; [apply safe_fail_if|done]. }
  intros ? _. safe_steps. by split.
Qed.

Lemma op_altstack_safe st : state_ok st -> safe state_ok (op_toaltstack st) /\ safe state_ok (op_fromaltstack st).
Proof.
  intros [H1 H2 H3]. unfold op_toaltstack, op_fromaltstack. split.
  - safe_steps. split; [done|by constructor|done].
  - safe_steps. b2p. safe_steps. split; [by constructor|done|done].
Qed.

Hint Resolve op_verify_safe op_2drop_safe op_2dup_safe op_3dup_safe op_2over_safe op_2rot_safe op_2swap_safe
  op_ifdup_safe op_drop_safe op_dup_safe op_nip_safe op_over_safe op_rot_safe op_swap_safe op_tuck_safe
  op_equal_safe op_within_safe op_size_safe op_pick_roll_safe op_hash_safe op_checksig_safe op_checkmultisig_safe
  op_checklocktimeverify_safe op_checksequenceverify_safe op_upgradable_nop_safe op_if_safe on_stack_safe : safe.

Lemma exec_op_safe opcode fExec pc st :
  is_u8 opcode -> state_ok st -> Z.of_nat (length (stack st)) < 2 ^ 63 ->
  safe state_ok (exec_op flags sigversion opcode fExec pc st).
Proof.
  intros Ho Hst Hl. unfold exec_op. destruct (opcode_of opcode) as [op|]; [|done].
  pose proof Hst as [H1 H2 H3].
  assert (Hpush : state_ok (push st (scriptnum_serialize (opcode - (OP_1 - 1))))).
  { split; [|done|done]. apply stack_ok_cons; [|done]. apply element_ok_num. cbn [opcode_value]. ranges. lia. }
  destruct op; lazymatch goal with
    | |- safe _ (fail _) => exact I
    | |- safe _ (Ok (push _ _)) => exact Hpush
    | |- safe _ (Ok st) => exact Hst
    | |- safe _ (on_stack (op_unary _ _) _) => apply on_stack_safe; [apply op_unary_safe; cbn [In]; tauto|exact Hst]
    | |- safe _ (on_stack (op_binary _ _) _) => apply on_stack_safe; [apply op_binary_safe; cbn [In]; tauto|exact Hst]
    | |- _ => auto with safe
    end; unfold op_else, op_endif.
  - by case_match; [done|split].
  - by case_match; [done|split].
  - by apply op_altstack_safe.
  - by apply op_altstack_safe.
  - unfold on_stack. eapply safe_bind; [by apply op_depth_safe|intros s Hs; by split].
  - by split.
Qed.

(** ** Scripts *)

Definition stacks_size (st : estate) : Z := Z.of_nat (length (stack st)) + Z.of_nat (length (altstack st)).

Lemma exec_instr_safe opcode v pc st :
  is_u8 opcode -> is_bytes v -> state_ok st -> Z.of_nat (length (stack st)) < 2 ^ 63 ->
  safe (fun st' => state_ok st' /\ stacks_size st' <= MAX_STACK_SIZE) (exec_instr flags sigversion opcode v pc st).
Proof.
  intros Ho Hv [H1 H2 H3] Hl. unfold exec_instr. do 2 safe_step.
  set (nOps := if opcode >? OP_16 then _ else _) in *.
  assert (Hst : state_ok (mkState (stack st) (altstack st) (vfExec st) nOps (pbegincodehash st))).
  { split; [done|done|]. subst nOps. cbn [nOpCount]. destruct (opcode >? OP_16); [b2p; lia|done]. }
  safe_step. eapply (safe_bind state_ok).
  - repeat safe_step; [|by apply exec_op_safe|done]. split; [|done|exact (st_ops _ Hst)]. apply stack_ok_cons; [|done].
    split; [done|]. b2p. lia.
  - intros st' Hst'. safe_steps. split; [done|]. unfold stacks_size. b2p. lia.
Qed.

Lemma EvalScript_loop_safe fuel : forall pc st,
  (length pc <= fuel)%nat -> is_bytes pc -> state_ok st -> Z.of_nat (length (stack st)) < 2 ^ 63 ->
  safe (fun st' => state_ok st' /\ (pc = [] /\ st' = st \/ stacks_size st' <= MAX_STACK_SIZE))
    (EvalScript_loop flags sigversion fuel pc st).
Proof.
  induction fuel as [|fuel IH]; intros pc st Hf Hpc Hst Hl; destruct pc as [|b pc]; cbn [EvalScript_loop length] in *;
    [cbn [safe]; by auto|lia|cbn [safe]; by auto|].
  set (r := GetOp (b :: pc)). destruct (go_ok r) eqn:Hok; [|done]. cbn [negb].
  pose proof (GetOp_bytes _ Hpc) as [Hv Hpc']. pose proof (GetOp_progress _ Hok) as Hlen.
  destruct (GetOp_split _ Hok) as (a & Heq & _).
  assert (Ho : is_u8 (opcodeRet r)) by (rewrite Heq in Hpc; by apply Forall_cons in Hpc as [? _]).
  eapply safe_bind; [by apply exec_instr_safe|]. intros st' [Hst' Hsz].
  unfold stacks_size, MAX_STACK_SIZE in *. cbn [length] in Hlen.
  eapply safe_mono; [apply IH; [subst r; lia|done|done|lia]|]. cbn beta. intros st'' [? [[_ ->]|?]]; auto.
Qed.

Lemma EvalScript_caught stk script :
  stack_ok stk -> is_bytes script -> Z.of_nat (length stk) < 2 ^ 63 ->
  caught (fun stk' => stack_ok stk' /\ (Z.of_nat (length stk') <= MAX_STACK_SIZE \/ stk' = stk))
    (EvalScript flags sigversion stk script).
Proof.
  intros Hs Hb Hl. unfold EvalScript, fail_if. destruct (_ >? MAX_SCRIPT_SIZE); [done|]. cbn [mbind result_bind].
  assert (Hst : state_ok (mkState stk [] [] 0 script)) by (split; [done|by constructor|done]).
  pose proof (EvalScript_loop_safe (length script) script _ (le_n _) Hb Hst Hl) as Hsafe.
  destruct (EvalScript_loop _ _ _ _ _) as [st|[e|[]|f]]; cbn in Hsafe |- *; try done.
  destruct Hsafe as [[H1 _ _] Hsz]. case_match; cbn; [done|]. split; [done|].
  destruct Hsz as [[_ ->]|Hsz]; [by right|left]. unfold stacks_size in Hsz. lia.
Qed.
End Ops.

#[export] Hint Resolve EvalScript_caught : safe.

(** ** Inputs *)

Lemma caught_bind {A B} (P : A -> Prop) (Q : B -> Prop) (m : eval A) (f : A -> eval B) :
  caught P m -> (forall a, P a -> caught Q (f a)) -> caught Q (m ≫= f).
Proof. destruct m as [a|[]]; cbn; auto. Qed.

Lemma caught_let {A B C} (P : A * B -> Prop) (Q : C -> Prop) (m : eval (A * B)) (f : A -> B -> eval C) :
  caught P m -> (forall a b, P (a, b) -> caught Q (f a b)) -> caught Q (let* (a, b) := m in f a b).
Proof. destruct m as [[a b]|[]]; cbn; auto. Qed.

Lemma caught_fail_if b e : caught (fun _ => b = false) (fail_if b e).
Proof. by destruct b. Qed.

Lemma require_true_caught stk : caught (fun _ => stk <> []) (require_true stk).
Proof. destruct stk as [|v stk]; cbn; [done|]. by destruct (CastToBool v). Qed.

Lemma IsPayToScriptHash_inv s :
  IsPayToScriptHash s = true ->
  exists h, length h = 20%nat /\ s = [opcode_value OP_HASH160; 20] ++ h ++ [opcode_value OP_EQUAL].
Proof.
  unfold IsPayToScriptHash, at_. rewrite !andb_true_iff, Nat.eqb_eq, !Z.eqb_eq. intros (((Hl & H0) & H1) & H22).
  destruct s as [|a [|b s]]; try done. cbn [nth length] in *.
  destruct s as [|z h _] using rev_ind; [done|]. rewrite length_app in Hl. cbn [length] in Hl.
  assert (Hh : length h = 20%nat) by lia. exists h. split; [done|].
  rewrite app_nth2 in H22 by lia. rewrite Hh in H22. cbn in H22. by subst.
Qed.

Section Inputs.
Context {checker : BaseSignatureChecker} {lows : LowS} {Htotal : CheckerTotal checker}.

(** What the code's comment claims: with nothing on the stack, a pay-to-script-hash
    script fails. *)
Lemma p2sh_needs_stack flags scriptPubKey stk :
  IsPayToScriptHash scriptPubKey = true -> EvalScript flags SIGVERSION_BASE [] scriptPubKey = Ok stk -> False.
Proof.
  intros (h & Hh & ->)%IsPayToScriptHash_inv. unfold EvalScript, fail_if.
  destruct (_ >? MAX_SCRIPT_SIZE); [done|]. cbn [mbind result_bind].
  rewrite length_app. cbn [length plus EvalScript_loop app]. by rewrite GetOp_opcode.
Qed.

Lemma caught_mono {A} (P Q : A -> Prop) (m : eval A) : caught P m -> (forall a, P a -> Q a) -> caught Q m.
Proof. destruct m as [a|[]]; cbn; auto. Qed.

Lemma stack_ok_small stk : stack_ok stk -> Z.of_nat (length stk) <= MAX_STACK_SIZE \/ stk = [] ->
  Z.of_nat (length stk) < 2 ^ 63.
Proof. unfold MAX_STACK_SIZE. intros _ [?| ->]; cbn; lia. Qed.

Lemma witness_v0_caught witness program :
  Forall is_bytes witness -> is_bytes program ->
  caught (fun '(script, stk) => is_bytes script /\ Forall is_bytes stk /\ (length stk <= length witness)%nat)
    (witness_v0_script witness program).
Proof.
  intros Hw Hp. unfold witness_v0_script.
  assert (Hr : Forall is_bytes (reverse witness)) by by apply Forall_reverse.
  repeat case_match; cbn; try done; splits; auto.
  - apply last_Some in H0 as [l' ->]. apply Forall_app in Hw as [_ Hw]. by apply Forall_cons in Hw as [? _].
  - by apply Forall_tail.
  - pose proof (length_reverse witness). destruct (reverse witness); cbn in *; lia.
  - do 2 (constructor; [split; done|]). apply is_bytes_app; [by apply push_data_bytes|]. by repeat constructor.
  - rewrite length_reverse. lia.
Qed.

Lemma VerifyWitnessProgram_caught witness witversion program flags :
  Forall is_bytes witness -> is_bytes program -> Z.of_nat (length witness) < 2 ^ 63 ->
  caught (fun _ => True) (VerifyWitnessProgram witness witversion program flags).
Proof.
  intros Hw Hp Hl. unfold VerifyWitnessProgram.
  destruct (witversion =? 0); [|eapply caught_mono; [apply caught_fail_if|done]].
  eapply caught_let; [by apply witness_v0_caught|]. intros script stk (Hs & Hst & Hlen).
  eapply caught_bind; [apply caught_fail_if|]. intros ? Hsz. cbn beta in Hsz.
  assert (Hok : stack_ok stk).
  { apply Forall_forall. intros v Hv. split; [by apply (proj1 (Forall_forall _ _) Hst)|].
    rewrite <- not_true_iff_false, existsb_exists in Hsz. destruct (Z.leb_spec (Z.of_nat (length v)) MAX_SCRIPT_ELEMENT_SIZE);
      [done|]. destruct Hsz. exists v. split; [by apply list_elem_of_In|]. rewrite Z.gtb_ltb. by apply Z.ltb_lt. }
  eapply caught_bind; [apply EvalScript_caught; [done|done|lia]|]. intros stk' _.
  eapply caught_bind; [apply caught_fail_if|]. intros _ _. eapply caught_mono; [apply require_true_caught|done].
Qed.

Lemma IsWitnessProgram_bytes script v program : is_bytes script -> IsWitnessProgram script = Some (v, program) -> is_bytes program.
Proof.
  intros Hs. unfold IsWitnessProgram. repeat split_if; try done. intros (ver & _ & [= _ <-])%bind_Some. by apply is_bytes_drop.
Qed.

Lemma verify_witness_caught flags witness script malleated e stk had :
  Forall is_bytes witness -> is_bytes script -> Z.of_nat (length witness) < 2 ^ 63 ->
  caught (fun _ => True) (verify_witness flags witness script malleated e stk had).
Proof.
  intros Hw Hs Hl. unfold verify_witness. destruct (has_flag _ _); [|done].
  destruct (IsWitnessProgram script) as [[v program]|] eqn:E; [|done]. apply IsWitnessProgram_bytes in E; [|done].
  eapply caught_bind; [apply caught_fail_if|]. intros _ _.
  eapply caught_bind; [by apply VerifyWitnessProgram_caught|]. done.
Qed.

Lemma verify_p2sh_caught flags scriptSig witness stk had :
  Forall is_bytes witness -> Z.of_nat (length witness) < 2 ^ 63 -> stack_ok stk ->
  stk <> [] -> Z.of_nat (length stk) < 2 ^ 63 ->
  caught (fun _ => True) (verify_p2sh flags scriptSig witness stk had).
Proof.
  intros Hw Hl Hs Hne Hsl. unfold verify_p2sh. eapply caught_bind; [apply caught_fail_if|]. intros _ _.
  destruct stk as [|v stk]; [done|]. cbn [stacktop popstack assert_that length negb Nat.eqb lookup list_lookup mbind result_bind].
  apply Forall_cons in Hs as [[Hv _] Hs]. cbn [length] in Hsl.
  change (stacktop (v :: stk) 1) with (Ok v : eval bytes). cbn [mbind result_bind].
  eapply caught_bind; [apply EvalScript_caught; [done|done|lia]|]. intros stk' _.
  eapply caught_bind; [apply require_true_caught|]. intros _ _. by apply verify_witness_caught.
Qed.

Lemma VerifyScript_caught scriptSig scriptPubKey witness flags :
  is_bytes scriptSig -> is_bytes scriptPubKey -> Forall is_bytes witness ->
  Z.of_nat (length witness) < 2 ^ 63 -> flags_consistent flags ->
  caught (fun _ => True) (VerifyScript scriptSig scriptPubKey witness flags).
Proof.
  intros Hsig Hpub Hw Hl [Hf1 Hf2]. unfold VerifyScript.
  eapply caught_bind; [apply caught_fail_if|]. intros _ _.
  eapply caught_bind; [apply EvalScript_caught; [by constructor|done|cbn; lia]|]. intros stackCopy [Hs Hlen].
  apply stack_ok_small in Hlen as Hlen'; [|done].
  destruct (EvalScript flags SIGVERSION_BASE stackCopy scriptPubKey) as [stk|] eqn:E; cycle 1.
  { pose proof (EvalScript_caught flags SIGVERSION_BASE stackCopy scriptPubKey Hs Hpub Hlen') as Hc. by rewrite E in Hc. }
  cbn [mbind result_bind]. eapply caught_bind; [apply require_true_caught|]. intros _ _.
  eapply caught_let; [by apply verify_witness_caught|]. intros stk' had _.
  eapply (caught_let (fun _ => True)).
  { destruct (has_flag _ _ && IsPayToScriptHash scriptPubKey) eqn:Hp; [|done]. b2p.
    apply verify_p2sh_caught; [done|done|done| |done]. intros ->. by eapply p2sh_needs_stack. }
  intros stk'' had' _. eapply (caught_bind (fun _ => True)).
  { destruct (has_flag flags SCRIPT_VERIFY_CLEANSTACK) eqn:Hc; [|done]. rewrite (Hf1 eq_refl), (Hf2 (Hf1 eq_refl)).
    cbn [assert_that mbind result_bind]. eapply caught_mono; [apply caught_fail_if|done]. }
  intros _ _. destruct (has_flag flags SCRIPT_VERIFY_WITNESS) eqn:Hv; [|done]. rewrite (Hf2 eq_refl).
  cbn [assert_that mbind result_bind]. eapply caught_mono; [apply caught_fail_if|done].
Qed.
End Inputs.

(** ** Properties *)

(** C9: the evaluation of any script, on any stack of elements within the size limit,
    for every flag set, ends: the main loop neither runs out of instructions to read nor
    indexes a stack out of bounds, pops an empty stack or fails an assertion; the one
    exception it can throw is that of an ill-formed script number, which [EvalScript]
    turns into an error.  In the state it ends with no element is longer than 520 bytes,
    at most 201 operations were counted, and unless the script was empty the two stacks
    together hold at most 1000 elements. *)
Theorem EvalScript_safe (checker : BaseSignatureChecker) (lows : LowS) (flags : Z) (sigversion : SigVersion)
    (stk : list bytes) (script : bytes) :
  CheckerTotal checker -> stack_ok stk -> is_bytes script -> Z.of_nat (length stk) < 2 ^ 63 ->
  safe (fun st => state_ok st /\ (script = [] \/ stacks_size st <= MAX_STACK_SIZE))
    (EvalScript_loop flags sigversion (length script) script (mkState stk [] [] 0 script)) /\
  caught (fun stk' => stack_ok stk' /\ (Z.of_nat (length stk') <= MAX_STACK_SIZE \/ stk' = stk))
    (EvalScript flags sigversion stk script).
Proof.
  intros Ht Hs Hb Hl. split; [|by apply EvalScript_caught].
  assert (Hst : state_ok (mkState stk [] [] 0 script)) by (split; [done|by constructor|done]).
  eapply safe_mono; [by apply EvalScript_loop_safe|]. intros st [? [[? _]|?]]; auto.
Qed.

(** A checker that accepts everything. *)
Definition accept_all : BaseSignatureChecker :=
  {| CheckSig _ _ _ _ := Ok true; CheckLockTime _ := Ok true; CheckSequence _ := Ok true |}.
#[export] Instance accept_all_total : CheckerTotal accept_all.
Proof. by split. Qed.
Definition any_s : LowS := {| CheckLowS _ := true |}.

Lemma EvalScript_safe_witness :
  caught (fun stk' => stack_ok stk' /\ (Z.of_nat (length stk') <= MAX_STACK_SIZE \/ stk' = [[2]; [3]]))
    (EvalScript (checker := accept_all) (lows := any_s) 0 SIGVERSION_BASE [[2]; [3]] [opcode_value OP_ADD; opcode_value OP_5; opcode_value OP_EQUAL]) /\
  EvalScript (checker := accept_all) (lows := any_s) 0 SIGVERSION_BASE [[2]; [3]]
    [opcode_value OP_ADD; opcode_value OP_5; opcode_value OP_EQUAL] = Ok [[1]].
Proof.
  split; [|reflexivity].
  refine (proj2 (EvalScript_safe accept_all any_s 0 SIGVERSION_BASE [[2]; [3]] _ _ _ _ _)).
  - by repeat (apply Forall_cons_2 || apply Forall_nil_2 || split).
  - by repeat (apply Forall_cons_2 || apply Forall_nil_2 || split).
  - done.
Defined.

(** C24: The verification of an input never aborts: for every signature script, output
    script and witness, under every flag set in which [CLEANSTACK] comes with [WITNESS]
    and [WITNESS] with [P2SH], [VerifyScript] returns success or one of the script
    errors.  In particular its assertion that the stack of a pay-to-script-hash spend
    cannot be empty holds, and no exception escapes. *)
Theorem VerifyScript_safe (checker : BaseSignatureChecker) (lows : LowS)
    (scriptSig scriptPubKey : bytes) (witness : list bytes) (flags : Z) :
  CheckerTotal checker -> flags_consistent flags ->
  is_bytes scriptSig -> is_bytes scriptPubKey -> Forall is_bytes witness -> Z.of_nat (length witness) < 2 ^ 63 ->
  VerifyScript scriptSig scriptPubKey witness flags = Ok tt \/
  exists e, VerifyScript scriptSig scriptPubKey witness flags = Err (Fail e).
Proof.
  intros Ht Hf Hs Hp Hw Hl. pose proof (VerifyScript_caught scriptSig scriptPubKey witness flags Hs Hp Hw Hl Hf) as Hc.
  destruct (VerifyScript _ _ _ _) as [[]|[e| |]]; [by left|right; by exists e|done|done].
Qed.

Lemma VerifyScript_safe_witness :
  VerifyScript (checker := accept_all) (lows := any_s) [] [opcode_value OP_HASH160] [] 0x901 = Ok tt \/
  exists e, VerifyScript (checker := accept_all) (lows := any_s) [] [opcode_value OP_HASH160] [] 0x901 = Err (Fail e).
Proof.
  apply (VerifyScript_safe accept_all any_s).
  - exact accept_all_total.
  - by split.
  - constructor.
  - repeat constructor; cbn; lia.
  - constructor.
  - done.
Defined.
