(* ===== verification/ScriptFlags.v ===== *)
(** * Verification flags are soft forks

    The flag sets of [src/policy/policy.h], [src/script/standard.h] and
    [GetBlockScriptFlags] of [src/validation.cpp], and the theorem behind the "BUG!
    PLEASE REPORT THIS!" message of [AcceptToMemoryPoolWorker]: an input that verifies
    under a flag set verifies under every smaller one.  The proof is a simulation
    between two runs of the interpreter: whatever the stricter run computes, the laxer
    one computes too. *)

From S2P Require Import Prelude Endian Params Hasher Sha2 Sha1Ripemd HashFns Script Transaction Interpreter EvalSafety.

(** ** Flag sets *)

Definition flag_union (fs : list verify_flag) : Z := foldr (fun f acc => Z.lor (flag_value f) acc) 0 fs.

Definition MANDATORY_SCRIPT_VERIFY_FLAGS : Z := flag_value SCRIPT_VERIFY_P2SH.

Definition STANDARD_SCRIPT_VERIFY_FLAGS : Z :=
  Z.lor MANDATORY_SCRIPT_VERIFY_FLAGS (flag_union
    [SCRIPT_VERIFY_DERSIG; SCRIPT_VERIFY_STRICTENC; SCRIPT_VERIFY_MINIMALDATA; SCRIPT_VERIFY_NULLDUMMY;
     SCRIPT_VERIFY_DISCOURAGE_UPGRADABLE_NOPS; SCRIPT_VERIFY_CLEANSTACK; SCRIPT_VERIFY_MINIMALIF;
     SCRIPT_VERIFY_NULLFAIL; SCRIPT_VERIFY_CHECKLOCKTIMEVERIFY; SCRIPT_VERIFY_CHECKSEQUENCEVERIFY;
     SCRIPT_VERIFY_LOW_S; SCRIPT_VERIFY_WITNESS; SCRIPT_VERIFY_DISCOURAGE_UPGRADABLE_WITNESS_PROGRAM;
     SCRIPT_VERIFY_WITNESS_PUBKEYTYPE]).

Definition STANDARD_NOT_MANDATORY_VERIFY_FLAGS : Z :=
  Z.land STANDARD_SCRIPT_VERIFY_FLAGS (Z.lnot MANDATORY_SCRIPT_VERIFY_FLAGS).

Definition IsWitnessEnabled (params : Params) : bool := nSegwitEnabled params.

Definition nBIP16SwitchTime : Z := 1333238400.

(** The flags of a block with time stamp [nTime]. *)
Definition GetBlockScriptFlags (nTime : Z) (consensusparams : Params) : Z :=
  let flags := if nTime >=? nBIP16SwitchTime then flag_value SCRIPT_VERIFY_P2SH else 0 in
  let flags := if nBIP66Enabled consensusparams then Z.lor flags (flag_value SCRIPT_VERIFY_DERSIG) else flags in
  let flags := if nBIP65Enabled consensusparams then Z.lor flags (flag_value SCRIPT_VERIFY_CHECKLOCKTIMEVERIFY)
               else flags in
  let flags := if nCSVEnabled consensusparams then Z.lor flags (flag_value SCRIPT_VERIFY_CHECKSEQUENCEVERIFY)
               else flags in
  if IsWitnessEnabled consensusparams
  then Z.lor (Z.lor flags (flag_value SCRIPT_VERIFY_WITNESS)) (flag_value SCRIPT_VERIFY_NULLDUMMY)
  else flags.

(** [small] asks for nothing that [big] does not ask for.  The one flag that refuses a
    script for what it may come to mean, [DISCOURAGE_UPGRADABLE_NOPS], needs care: an
    opcode that [big] gives a meaning to must not be an upgradable one for [small]. *)
Definition softfork_of (small big : Z) : Prop :=
  (forall f, has_flag small f = true -> has_flag big f = true) /\
  (has_flag small SCRIPT_VERIFY_DISCOURAGE_UPGRADABLE_NOPS = true ->
   has_flag small SCRIPT_VERIFY_CHECKLOCKTIMEVERIFY = has_flag big SCRIPT_VERIFY_CHECKLOCKTIMEVERIFY /\
   has_flag small SCRIPT_VERIFY_CHECKSEQUENCEVERIFY = has_flag big SCRIPT_VERIFY_CHECKSEQUENCEVERIFY).

(** ** Simulation *)

(** Whatever [m] returns, [m'] returns. *)
Definition sim {A} (m m' : eval A) : Prop := forall a, m = Ok a -> m' = Ok a.

Lemma sim_refl {A} (m : eval A) : sim m m.
Proof. by intros a. Qed.

Lemma sim_bind {A B} (m m' : eval A) (f f' : A -> eval B) :
  sim m m' -> (forall a, sim (f a) (f' a)) -> sim (m ≫= f) (m' ≫= f').
Proof. intros Hm Hf b. destruct m as [a|]; [|done]. rewrite (Hm a eq_refl). apply Hf. Qed.

Lemma sim_bind_r {A B} (m : eval A) (f f' : A -> eval B) :
  (forall a, sim (f a) (f' a)) -> sim (m ≫= f) (m ≫= f').
Proof. intros Hf. by apply sim_bind; [apply sim_refl|]. Qed.

Lemma sim_fail {A} e (m : eval A) : sim (fail e) m.
Proof. done. Qed.

Lemma sim_fail_if b b' e : (b' = true -> b = true) -> sim (fail_if b e) (fail_if b' e).
Proof. intros H a. unfold fail_if. destruct b; [done|]. destruct b'; [by specialize (H eq_refl)|done]. Qed.

Lemma sim_if {A} (b : bool) (m1 m2 m1' m2' : eval A) :
  sim m1 m1' -> sim m2 m2' -> sim (if b then m1 else m2) (if b then m1' else m2').
Proof. by destruct b. Qed.

Lemma sim_catch {A} (m m' : eval A) : sim m m' -> sim (catch m) (catch m').
Proof. intros H a. destruct m as [x|[]]; cbn; try done. intros [= ->]. by rewrite (H a eq_refl). Qed.

Lemma sim_let {A B C} (m m' : eval (A * B)) (f f' : A -> B -> eval C) :
  sim m m' -> (forall a b, sim (f a b) (f' a b)) -> sim (let* (a, b) := m in f a b) (let* (a, b) := m' in f' a b).
Proof. intros Hm Hf c. destruct m as [[a b]|]; [|done]. rewrite (Hm (a, b) eq_refl). apply Hf. Qed.

(** A guard that the second run does not have. *)
Lemma sim_guard {A B} (m : eval A) (f : A -> eval B) m' : (forall a, sim (f a) m') -> sim (m ≫= f) m'.
Proof. intros Hf b. destruct m as [a|]; [apply Hf|done]. Qed.

Create HintDb sim.
#[export] Hint Resolve sim_refl sim_fail : sim.

Section Simulation.
Context {checker : BaseSignatureChecker} {lows : LowS}.
Context (small big : Z) (Hsf : softfork_of small big) (sigversion : SigVersion).

Lemma flag_mono f : has_flag small f = true -> has_flag big f = true.
Proof. apply Hsf. Qed.

(** Both runs make the same steps but for the flags they test. *)
Ltac sim_flags := rewrite ?andb_true_iff; intros; destruct_and?; split_and?; first [assumption|by apply flag_mono].

Lemma sim_scriptnum v k : sim (scriptnum big v k) (scriptnum small v k).
Proof.
  intros a. unfold scriptnum, CScriptNum, fRequireMinimal. split_if; [done|].
  destruct (has_flag small SCRIPT_VERIFY_MINIMALDATA) eqn:E; [by rewrite (flag_mono _ E)|].
  cbn [andb]. by destruct (_ && _).
Qed.

Lemma sim_signature_encoding sig : sim (CheckSignatureEncoding big sig) (CheckSignatureEncoding small sig).
Proof.
  intros a. unfold CheckSignatureEncoding. destruct (length sig =? 0)%nat; [done|].
  rewrite !Z.land_lor_distr_r.
  assert (Hor : forall fl, (Z.lor (Z.lor (Z.land fl (flag_value SCRIPT_VERIFY_DERSIG)) (Z.land fl (flag_value SCRIPT_VERIFY_LOW_S)))
      (Z.land fl (flag_value SCRIPT_VERIFY_STRICTENC)) =? 0) =
    negb (has_flag fl SCRIPT_VERIFY_DERSIG || has_flag fl SCRIPT_VERIFY_LOW_S || has_flag fl SCRIPT_VERIFY_STRICTENC)).
  { intros fl. unfold has_flag. rewrite <- !negb_andb, negb_involutive.
    apply eq_true_iff_eq. by rewrite !andb_true_iff, !Z.eqb_eq, !Z.lor_eq_0_iff. }
  rewrite !Hor, !negb_involutive.
  pose proof (flag_mono SCRIPT_VERIFY_DERSIG) as H1. pose proof (flag_mono SCRIPT_VERIFY_LOW_S) as H2.
  pose proof (flag_mono SCRIPT_VERIFY_STRICTENC) as H3.
  destruct (has_flag small SCRIPT_VERIFY_DERSIG), (has_flag small SCRIPT_VERIFY_LOW_S),
    (has_flag small SCRIPT_VERIFY_STRICTENC), (has_flag big SCRIPT_VERIFY_DERSIG), (has_flag big SCRIPT_VERIFY_LOW_S),
    (has_flag big SCRIPT_VERIFY_STRICTENC); try discriminate (H1 eq_refl); try discriminate (H2 eq_refl);
    try discriminate (H3 eq_refl); cbn [orb andb];
    try destruct (IsValidSignatureEncoding sig); cbn [negb]; try done;
    try (destruct (IsLowDERSignature sig) as [[]|]); try done; try destruct (IsDefinedHashtypeSignature sig); done.
Qed.

Lemma sim_pubkey_encoding key :
  sim (CheckPubKeyEncoding big sigversion key) (CheckPubKeyEncoding small sigversion key).
Proof.
  intros a. unfold CheckPubKeyEncoding.
  pose proof (flag_mono SCRIPT_VERIFY_STRICTENC) as H1. pose proof (flag_mono SCRIPT_VERIFY_WITNESS_PUBKEYTYPE) as H2.
  destruct (has_flag small SCRIPT_VERIFY_STRICTENC), (has_flag big SCRIPT_VERIFY_STRICTENC); try discriminate (H1 eq_refl);
    destruct (has_flag small SCRIPT_VERIFY_WITNESS_PUBKEYTYPE), (has_flag big SCRIPT_VERIFY_WITNESS_PUBKEYTYPE);
    try discriminate (H2 eq_refl); by repeat case_match.
Qed.

(** Walk down two runs that differ in their flags only. *)
Ltac sim_step :=
  lazymatch goal with
  | |- sim ?m ?m => apply sim_refl
  | |- sim (@mbind _ _ _ _ _ ?m) (@mbind _ _ _ _ _ ?m) => apply sim_bind_r; intros ?
  | |- sim (@mbind _ _ _ _ _ (scriptnum _ _ _)) _ => apply sim_bind; [apply sim_scriptnum|intros ?]
  | |- sim (@mbind _ _ _ _ _ (CheckSignatureEncoding _ _)) _ => apply sim_bind; [apply sim_signature_encoding|intros ?]
  | |- sim (@mbind _ _ _ _ _ (CheckPubKeyEncoding _ _ _)) _ => apply sim_bind; [apply sim_pubkey_encoding|intros ?]
  | |- sim (@mbind _ _ _ _ _ (fail_if _ _)) _ => apply sim_bind; [apply sim_fail_if; sim_flags|intros ?]
  | |- sim (fail_if _ _) (fail_if _ _) => apply sim_fail_if; sim_flags
  | |- sim (if ?b then _ else _) (if ?b then _ else _) => apply sim_if
  end.
Ltac sim_steps := repeat (sim_step; cbn beta zeta).

Lemma sim_upgradable_nop st : sim (op_upgradable_nop big st) (op_upgradable_nop small st).
Proof. unfold op_upgradable_nop. sim_steps. Qed.

Lemma sim_checklocktimeverify st : sim (op_checklocktimeverify big st) (op_checklocktimeverify small st).
Proof.
  unfold op_checklocktimeverify. pose proof (flag_mono SCRIPT_VERIFY_CHECKLOCKTIMEVERIFY) as Hm.
  destruct (has_flag small SCRIPT_VERIFY_CHECKLOCKTIMEVERIFY) eqn:E; [rewrite Hm by done; cbn [negb]; sim_steps|].
  cbn [negb]. destruct (has_flag big _) eqn:E'; cbn [negb]; [|apply sim_upgradable_nop].
  destruct (has_flag small SCRIPT_VERIFY_DISCOURAGE_UPGRADABLE_NOPS) eqn:D; [by destruct (proj2 Hsf D); congruence|].
  unfold op_upgradable_nop. rewrite D. cbn [fail_if mbind result_bind]. repeat (apply sim_guard; intros ?). apply sim_refl.
Qed.

Lemma sim_checksequenceverify st : sim (op_checksequenceverify big st) (op_checksequenceverify small st).
Proof.
  unfold op_checksequenceverify. pose proof (flag_mono SCRIPT_VERIFY_CHECKSEQUENCEVERIFY) as Hm.
  destruct (has_flag small SCRIPT_VERIFY_CHECKSEQUENCEVERIFY) eqn:E; [rewrite Hm by done; cbn [negb]; sim_steps|].
  cbn [negb]. destruct (has_flag big _) eqn:E'; cbn [negb]; [|apply sim_upgradable_nop].
  destruct (has_flag small SCRIPT_VERIFY_DISCOURAGE_UPGRADABLE_NOPS) eqn:D; [by destruct (proj2 Hsf D); congruence|].
  unfold op_upgradable_nop. rewrite D. cbn [fail_if mbind result_bind]. repeat (apply sim_guard; intros ?).
  case_match; [apply sim_refl|]. repeat (apply sim_guard; intros ?). apply sim_refl.
Qed.

Lemma sim_if_op notif fExec st : sim (op_if big sigversion notif fExec st) (op_if small sigversion notif fExec st).
Proof.
  unfold op_if. sim_steps. apply sim_bind; [|intros ?; sim_steps].
  pose proof (flag_mono SCRIPT_VERIFY_MINIMALIF) as Hm.
  destruct (has_flag small SCRIPT_VERIFY_MINIMALIF); [rewrite Hm by done; apply sim_refl|].
  rewrite andb_false_r. case_match; [|apply sim_refl]. intros []. by repeat case_match.
Qed.

Lemma sim_on_stack f f' st : (forall stk, sim (f stk) (f' stk)) -> sim (on_stack f st) (on_stack f' st).
Proof. intros Hf. unfold on_stack. by apply sim_bind; [|intros; apply sim_refl]. Qed.

Lemma sim_number_ops roll op stk :
  sim (op_pick_roll big roll stk) (op_pick_roll small roll stk) /\ sim (op_unary big op stk) (op_unary small op stk) /\
  sim (op_binary big op stk) (op_binary small op stk) /\ sim (op_within big stk) (op_within small stk).
Proof. unfold op_pick_roll, op_unary, op_binary, op_within. splits; sim_steps. Qed.

Lemma sim_checksig verify st : sim (op_checksig big sigversion verify st) (op_checksig small sigversion verify st).
Proof.
  unfold op_checksig. sim_steps. destruct (lift _) as [fSuccess|]; [|done]. cbn beta zeta. sim_steps.
Qed.

Lemma sim_multisig_loop stk code fuel : forall b isig nSigs ikey nKeys,
  sim (multisig_loop big sigversion fuel stk code b isig nSigs ikey nKeys)
      (multisig_loop small sigversion fuel stk code b isig nSigs ikey nKeys).
Proof.
  induction fuel as [|fuel IH]; intros b isig nSigs ikey nKeys; cbn [multisig_loop]; [apply sim_refl|].
  sim_steps. destruct (lift _) as [fOk|]; [apply IH|done].
Qed.

Lemma sim_multisig_cleanup b n : forall ikey2 stk,
  sim (multisig_cleanup big n b ikey2 stk) (multisig_cleanup small n b ikey2 stk).
Proof.
  induction n as [|n IH]; intros ikey2 stk; cbn [multisig_cleanup]; [apply sim_refl|].
  apply sim_bind; [|intros ?; apply sim_bind_r; intros ?; apply IH].
  pose proof (flag_mono SCRIPT_VERIFY_NULLFAIL) as Hm.
  destruct (has_flag small SCRIPT_VERIFY_NULLFAIL); [rewrite Hm by done; apply sim_refl|].
  rewrite andb_false_r. cbn [andb]. case_match; [|apply sim_refl]. apply sim_guard. intros v []. unfold fail_if. by case_match.
Qed.

Lemma sim_checkmultisig verify st :
  sim (op_checkmultisig big sigversion verify st) (op_checkmultisig small sigversion verify st).
Proof.
  unfold op_checkmultisig. sim_steps. apply sim_bind; [apply sim_multisig_loop|intros fSuccess].
  apply sim_bind; [apply sim_multisig_cleanup|intros ?]. sim_steps.
Qed.

Lemma sim_exec_op opcode fExec pc st :
  sim (exec_op big sigversion opcode fExec pc st) (exec_op small sigversion opcode fExec pc st).
Proof.
  unfold exec_op. destruct (opcode_of opcode) as [op|]; [|done].
  destruct op; lazymatch goal with
    | |- sim ?m ?m => apply sim_refl
    | |- sim (on_stack _ _) _ => apply sim_on_stack; intros stk; first
        [apply (sim_number_ops true OP_0)|apply (sim_number_ops false OP_0)|apply (sim_number_ops true)]
    | |- sim (op_if _ _ _ _ _) _ => apply sim_if_op
    | |- sim (op_upgradable_nop _ _) _ => apply sim_upgradable_nop
    | |- sim (op_checklocktimeverify _ _) _ => apply sim_checklocktimeverify
    | |- sim (op_checksequenceverify _ _) _ => apply sim_checksequenceverify
    | |- sim (op_checksig _ _ _ _) _ => apply sim_checksig
    | |- sim (op_checkmultisig _ _ _ _) _ => apply sim_checkmultisig
    end.
Qed.

Lemma sim_exec_instr opcode v pc st :
  sim (exec_instr big sigversion opcode v pc st) (exec_instr small sigversion opcode v pc st).
Proof.
  unfold exec_instr, fRequireMinimal. sim_steps. apply sim_bind; [|intros ?; sim_steps].
  apply sim_if; [sim_steps|]. apply sim_if; [apply sim_exec_op|apply sim_refl].
Qed.

Lemma sim_EvalScript_loop fuel : forall pc st,
  sim (EvalScript_loop big sigversion fuel pc st) (EvalScript_loop small sigversion fuel pc st).
Proof.
  induction fuel as [|fuel IH]; intros pc st; cbn [EvalScript_loop]; [apply sim_refl|].
  destruct pc; [apply sim_refl|]. apply sim_if; [apply sim_refl|]. by apply sim_bind; [apply sim_exec_instr|].
Qed.

Lemma sim_EvalScript stk script : sim (EvalScript big sigversion stk script) (EvalScript small sigversion stk script).
Proof.
  unfold EvalScript. sim_steps. by apply sim_bind; [apply sim_catch, sim_EvalScript_loop|intros; apply sim_refl].
Qed.
End Simulation.

(** ** Inputs *)

Section Inputs.
Context {checker : BaseSignatureChecker} {lows : LowS}.
Context (small big : Z) (Hsf : softfork_of small big).

Lemma sim_VerifyWitnessProgram witness v program :
  sim (VerifyWitnessProgram witness v program big) (VerifyWitnessProgram witness v program small).
Proof.
  unfold VerifyWitnessProgram. apply sim_if; [|by apply sim_fail_if, Hsf].
  destruct (witness_v0_script _ _) as [[script stk]|]; [|done]. apply sim_bind_r. intros _.
  by apply sim_bind; [apply sim_EvalScript|intros; apply sim_refl].
Qed.

(** With [WITNESS] in both sets the results agree; without it in the smaller one, the
    smaller one does less. *)
Lemma sim_verify_witness witness script malleated e stk had :
  has_flag small SCRIPT_VERIFY_WITNESS = true ->
  sim (verify_witness big witness script malleated e stk had) (verify_witness small witness script malleated e stk had).
Proof.
  intros Hw. unfold verify_witness. rewrite Hw, (proj1 Hsf _ Hw).
  destruct (IsWitnessProgram script) as [[v program]|]; [|apply sim_refl]. apply sim_bind_r. intros _.
  by apply sim_bind; [apply sim_VerifyWitnessProgram|intros; apply sim_refl].
Qed.

Lemma sim_verify_p2sh scriptSig witness stk had :
  has_flag small SCRIPT_VERIFY_WITNESS = true ->
  sim (verify_p2sh big scriptSig witness stk had) (verify_p2sh small scriptSig witness stk had).
Proof.
  intros Hw. unfold verify_p2sh. do 4 (apply sim_bind_r; intros ?).
  apply sim_bind; [by apply sim_EvalScript|intros ?]. apply sim_bind_r. intros ?. by apply sim_verify_witness.
Qed.

Lemma sim_VerifyScript_witness scriptSig scriptPubKey witness :
  flags_consistent small -> has_flag small SCRIPT_VERIFY_WITNESS = true ->
  sim (VerifyScript scriptSig scriptPubKey witness big) (VerifyScript scriptSig scriptPubKey witness small).
Proof.
  intros [_ Hc] Hw. assert (Hp : has_flag small SCRIPT_VERIFY_P2SH = true) by auto.
  unfold VerifyScript. rewrite Hw, Hp, (proj1 Hsf _ Hw), (proj1 Hsf _ Hp). cbn [andb].
  apply sim_bind; [apply sim_fail_if; rewrite !andb_true_iff; intros []; split; [by apply Hsf|done]|intros _].
  apply sim_bind; [by apply sim_EvalScript|intros stackCopy].
  apply sim_bind; [by apply sim_EvalScript|intros stk]. apply sim_bind_r. intros _.
  apply sim_let; [by apply sim_verify_witness|intros stk' had].
  apply sim_let; [by apply sim_if; [apply sim_verify_p2sh|apply sim_refl]|intros stk'' had'].
  apply sim_bind; [|intros; apply sim_refl]. pose proof (proj1 Hsf SCRIPT_VERIFY_CLEANSTACK) as Hm.
  destruct (has_flag small SCRIPT_VERIFY_CLEANSTACK); [rewrite Hm by done; apply sim_refl|].
  case_match; [|apply sim_refl]. intros []. cbn. unfold fail_if. by case_match.
Qed.

Lemma verify_p2sh_no_witness scriptSig witness stk had had' r :
  has_flag small SCRIPT_VERIFY_WITNESS = false ->
  verify_p2sh big scriptSig witness stk had = Ok r -> exists r', verify_p2sh small scriptSig witness stk had' = Ok r'.
Proof.
  intros Hw. unfold verify_p2sh. intros ([] & -> & ([] & -> & (pubKey2 & -> & (stk1 & -> &
    (stk2 & E%(sim_EvalScript small big Hsf) & ([] & Ht & _)%bind_Ok)%bind_Ok)%bind_Ok)%bind_Ok)%bind_Ok)%bind_Ok.
  cbn [mbind result_bind] in *. rewrite E. cbn [mbind result_bind]. rewrite Ht. cbn [mbind result_bind].
  unfold verify_witness. rewrite Hw. by eexists.
Qed.

Lemma VerifyScript_no_witness scriptSig scriptPubKey witness :
  flags_consistent small -> has_flag small SCRIPT_VERIFY_WITNESS = false ->
  sim (VerifyScript scriptSig scriptPubKey witness big) (VerifyScript scriptSig scriptPubKey witness small).
Proof.
  intros [Hc _] Hw. assert (Hcl : has_flag small SCRIPT_VERIFY_CLEANSTACK = false).
  { destruct (has_flag small SCRIPT_VERIFY_CLEANSTACK); [|done]. by rewrite Hc in Hw. }
  unfold VerifyScript. rewrite Hw, Hcl. unfold verify_witness at 2. rewrite Hw.
  apply sim_bind; [apply sim_fail_if; rewrite !andb_true_iff; intros []; split; [by apply Hsf|done]|intros _].
  apply sim_bind; [by apply sim_EvalScript|intros stackCopy].
  apply sim_bind; [by apply sim_EvalScript|intros stk]. apply sim_bind_r. intros _ [].
  destruct (verify_witness big _ _ _ _ _ _) as [[stk' had]|]; [|done].
  destruct (has_flag small SCRIPT_VERIFY_P2SH) eqn:Hp; [rewrite (proj1 Hsf _ Hp)|done]. cbn [andb].
  destruct (IsPayToScriptHash scriptPubKey); [|done].
  destruct (verify_p2sh big _ _ _ _) as [r|] eqn:E; [|done]. intros _.
  by destruct (verify_p2sh_no_witness _ _ _ _ false _ Hw E) as [[stk2 had2] ->].
Qed.

Lemma sim_VerifyScript scriptSig scriptPubKey witness :
  flags_consistent small ->
  sim (VerifyScript scriptSig scriptPubKey witness big) (VerifyScript scriptSig scriptPubKey witness small).
Proof.
  intros Hc. destruct (has_flag small SCRIPT_VERIFY_WITNESS) eqn:Hw;
    [by apply sim_VerifyScript_witness|by apply VerifyScript_no_witness].
Qed.
End Inputs.

(** ** The flag sets of the node *)

(** A finite check over the sixteen flags. *)
Definition all_flags : list verify_flag :=
  [SCRIPT_VERIFY_P2SH; SCRIPT_VERIFY_STRICTENC; SCRIPT_VERIFY_DERSIG; SCRIPT_VERIFY_LOW_S; SCRIPT_VERIFY_NULLDUMMY;
   SCRIPT_VERIFY_SIGPUSHONLY; SCRIPT_VERIFY_MINIMALDATA; SCRIPT_VERIFY_DISCOURAGE_UPGRADABLE_NOPS;
   SCRIPT_VERIFY_CLEANSTACK; SCRIPT_VERIFY_CHECKLOCKTIMEVERIFY; SCRIPT_VERIFY_CHECKSEQUENCEVERIFY;
   SCRIPT_VERIFY_WITNESS; SCRIPT_VERIFY_DISCOURAGE_UPGRADABLE_WITNESS_PROGRAM; SCRIPT_VERIFY_MINIMALIF;
   SCRIPT_VERIFY_NULLFAIL; SCRIPT_VERIFY_WITNESS_PUBKEYTYPE].

Definition softfork_ofb (small big : Z) : bool :=
  forallb (fun f => implb (has_flag small f) (has_flag big f)) all_flags &&
  implb (has_flag small SCRIPT_VERIFY_DISCOURAGE_UPGRADABLE_NOPS)
    (eqb (has_flag small SCRIPT_VERIFY_CHECKLOCKTIMEVERIFY) (has_flag big SCRIPT_VERIFY_CHECKLOCKTIMEVERIFY) &&
     eqb (has_flag small SCRIPT_VERIFY_CHECKSEQUENCEVERIFY) (has_flag big SCRIPT_VERIFY_CHECKSEQUENCEVERIFY)).

Lemma softfork_ofb_spec small big : softfork_ofb small big = true -> softfork_of small big.
Proof.
  unfold softfork_ofb. rewrite andb_true_iff, forallb_forall. intros [H1 H2]. split.
  - intros f Hf. specialize (H1 f ltac:(destruct f; cbn; tauto)). by rewrite Hf in H1.
  - intros Hd. rewrite Hd in H2. cbn in H2. rewrite andb_true_iff, !eqb_true_iff in H2. done.
Qed.

Lemma block_flags_ok nTime params :
  nBIP16SwitchTime <= nTime ->
  flags_consistent (GetBlockScriptFlags nTime params) /\
  softfork_of (GetBlockScriptFlags nTime params) STANDARD_SCRIPT_VERIFY_FLAGS.
Proof.
  intros Ht. unfold GetBlockScriptFlags, IsWitnessEnabled. rewrite Z.geb_leb.
  destruct (Z.leb_spec nBIP16SwitchTime nTime); [|lia].
  split; [|apply softfork_ofb_spec];
    by destruct (nBIP66Enabled params), (nBIP65Enabled params), (nCSVEnabled params), (nSegwitEnabled params).
Qed.

(** ** Properties *)

(** C25: the flags are soft forks.  For every input, an input that verifies under a set
    of flags verifies under every consistent subset of it, provided the subset does not
    discourage an opcode that only the larger set gives a meaning to; the proviso is
    needed.  In particular an input that verifies under the flags of the memory pool
    verifies under the flags of any block from the switch to pay-to-script-hash on, so
    the "BUG! PLEASE REPORT THIS!" branch of the acceptance to the memory pool cannot be
    reached by script evaluation; and those flags never fail the assertions of
    [VerifyScript]. *)
Theorem script_flags_are_soft_forks (checker : BaseSignatureChecker) (lows : LowS)
    (scriptSig scriptPubKey : bytes) (witness : list bytes) :
  (forall small big, flags_consistent small -> softfork_of small big ->
    VerifyScript scriptSig scriptPubKey witness big = Ok tt ->
    VerifyScript scriptSig scriptPubKey witness small = Ok tt) /\
  (forall nTime params, nBIP16SwitchTime <= nTime ->
    flags_consistent (GetBlockScriptFlags nTime params) /\
    (VerifyScript scriptSig scriptPubKey witness STANDARD_SCRIPT_VERIFY_FLAGS = Ok tt ->
     VerifyScript scriptSig scriptPubKey witness (GetBlockScriptFlags nTime params) = Ok tt)) /\
  (let script := [opcode_value OP_1; opcode_value OP_CHECKSEQUENCEVERIFY] in
   VerifyScript (checker := accept_all) [] script [] 0x481 = Ok tt /\
   VerifyScript (checker := accept_all) [] script [] 0x81 = Err (Fail SCRIPT_ERR_DISCOURAGE_UPGRADABLE_NOPS)).
Proof.
  split; [|split].
  - intros small big Hc Hs H. by apply (sim_VerifyScript small big).
  - intros nTime params Ht. destruct (block_flags_ok nTime params Ht) as [Hc Hs]. split; [done|].
    intros H. by apply (sim_VerifyScript _ STANDARD_SCRIPT_VERIFY_FLAGS).
  - done.
Qed.

Lemma script_flags_are_soft_forks_witness :
  VerifyScript (checker := accept_all) (lows := any_s) [] [opcode_value OP_1] [] STANDARD_SCRIPT_VERIFY_FLAGS = Ok tt /\
  VerifyScript (checker := accept_all) (lows := any_s) [] [opcode_value OP_1] [] (GetBlockScriptFlags 1600000000 main_params)
    = Ok tt.
Proof.
  split; [reflexivity|].
  apply (proj1 (script_flags_are_soft_forks accept_all any_s [] [opcode_value OP_1] []) _ STANDARD_SCRIPT_VERIFY_FLAGS).
  - by split.
  - by apply softfork_ofb_spec.
  - reflexivity.
Defined.
