(* ===== verification/Spending.v ===== *)
(** * What it takes to spend an output

    The interpreter of [Interpreter.v] run on the standard output scripts: exactly when
    a pay-to-public-key-hash output, with or without an asset attached, can be spent;
    what a successful spend of a script hash or of a witness program proves about the
    revealed script; and which signatures satisfy an m-of-n multi-signature. *)

From S2P Require Import Prelude Endian Hasher Sha2 Sha1Ripemd HashFns Script Transaction Interpreter EvalSafety.

(** ** Running a script *)

Section Run.
Context {checker : BaseSignatureChecker} {lows : LowS}.
Context (flags : Z) (sigversion : SigVersion).

Lemma EvalScript_loop_fuel fuel : forall pc st,
  (length pc <= fuel)%nat ->
  EvalScript_loop flags sigversion fuel pc st = EvalScript_loop flags sigversion (length pc) pc st.
Proof.
  induction fuel as [fuel IH] using lt_wf_ind. intros pc st Hf.
  destruct pc as [|b pc]; [by destruct fuel|]. destruct fuel as [|fuel]; cbn [length] in *; [lia|].
  cbn [EvalScript_loop]. set (r := GetOp (b :: pc)). destruct (go_ok r) eqn:Hok; [|done]. cbn [negb].
  pose proof (GetOp_progress _ Hok) as Hl. cbn [length] in Hl. fold r in Hl.
  destruct (exec_instr _ _ _ _ _ _) as [st'|]; [|done]. cbn [mbind result_bind].
  destruct (decide (length pc = fuel)) as [->|]; [done|].
  rewrite (IH fuel ltac:(lia) (go_pc r) st' ltac:(lia)). by rewrite (IH (length pc) ltac:(lia) (go_pc r) st' ltac:(lia)).
Qed.

(** The main loop, with the fuel it needs. *)
Definition run (pc : bytes) (st : estate) : eval estate := EvalScript_loop flags sigversion (length pc) pc st.

Lemma run_nil st : run [] st = Ok st.
Proof. done. Qed.

Lemma run_step pc op v pc' st :
  GetOp pc = mkGetOp true op v pc' -> run pc st = (exec_instr flags sigversion op v pc' st ≫= run pc').
Proof.
  intros E. unfold run. destruct pc as [|b pc]; [done|]. cbn [length EvalScript_loop]. rewrite E. cbn [go_ok negb opcodeRet vchRet go_pc].
  pose proof (GetOp_progress (b :: pc)) as Hl. rewrite E in Hl. specialize (Hl eq_refl). cbn [go_pc length] in Hl.
  destruct (exec_instr _ _ _ _ _ _) as [st'|]; [|done]. cbn [mbind result_bind]. apply EvalScript_loop_fuel. lia.
Qed.

Lemma run_op (op : opcodetype) pc st :
  op > OP_PUSHDATA4 -> opcode_value op <> OP_HNB_ASSET ->
  run (opcode_value op :: pc) st = (exec_instr flags sigversion op [] pc st ≫= run pc).
Proof. intros H1 H2. by apply run_step, GetOp_opcode. Qed.

(** An operation outside conditionals: the bookkeeping around [exec_op]. *)
Lemma exec_instr_op (op : opcodetype) pc stk n code :
  op > OP_16 -> is_disabled op = false -> n < MAX_OPS_PER_SCRIPT ->
  exec_instr flags sigversion op [] pc (mkState stk [] [] n code) =
  (st ← exec_op flags sigversion op true pc (mkState stk [] [] (n + 1) code);
   _ ← fail_if (Z.of_nat (length (stack st)) + Z.of_nat (length (altstack st)) >? MAX_STACK_SIZE) SCRIPT_ERR_STACK_SIZE;
   Ok st).
Proof.
  intros H1 H2 H3. unfold exec_instr. rewrite H2. cbn [length nOpCount vfExec forallb stack altstack pbegincodehash].
  change (Z.of_nat 0 >? MAX_SCRIPT_ELEMENT_SIZE) with false. rewrite !Z.gtb_ltb.
  destruct (Z.ltb_spec OP_16 op); [|lia]. destruct (Z.ltb_spec MAX_OPS_PER_SCRIPT (n + 1)); [lia|].
  cbn [fail_if andb mbind result_bind orb]. cbn [opcode_value] in *.
  destruct (Z.leb_spec (opcode_value op) 78); [lia|]. by rewrite andb_false_r.
Qed.

(** A push of two to 520 bytes, which is minimal. *)
Lemma CheckMinimalPush_push v : (2 <= length v)%nat -> CheckMinimalPush v (push_opcode v) = true.
Proof.
  intros Hv. unfold CheckMinimalPush, push_opcode. cbn [opcode_value].
  destruct (Z.eqb_spec (Z.of_nat (length v)) 0); [lia|]. destruct (Z.eqb_spec (Z.of_nat (length v)) 1); [lia|]. cbn [andb].
  destruct (Z.leb_spec (Z.of_nat (length v)) 75), (Z.ltb_spec (Z.of_nat (length v)) 76); try lia.
  by repeat split_if.
Qed.

Lemma is_disabled_push op : op <= OP_PUSHDATA4 -> is_disabled op = false.
Proof.
  intros Ho. unfold is_disabled. destruct (opcode_of op) as [o|] eqn:E; [|done].
  apply find_some in E as [_ E%Z.eqb_eq]. subst op. destruct o; try done; by cbn in Ho.
Qed.

Lemma run_push v pc stk n code :
  (2 <= length v)%nat -> Z.of_nat (length v) <= MAX_SCRIPT_ELEMENT_SIZE -> Z.of_nat (length stk) < MAX_STACK_SIZE ->
  run (push_data v ++ pc) (mkState stk [] [] n code) = run pc (mkState (v :: stk) [] [] n code).
Proof.
  unfold MAX_SCRIPT_ELEMENT_SIZE, MAX_STACK_SIZE. intros H1 H2 H3.
  rewrite (run_step _ (push_opcode v) v pc) by (apply GetOp_push_data; lia). unfold exec_instr.
  pose proof (push_opcode_range v) as Hr. cbn [opcode_value] in *.
  rewrite is_disabled_push, CheckMinimalPush_push, andb_false_r by (cbn [opcode_value]; lia || done).
  rewrite !Z.gtb_ltb. unfold MAX_SCRIPT_ELEMENT_SIZE, MAX_STACK_SIZE. cbn [opcode_value].
  destruct (Z.ltb_spec 520 (Z.of_nat (length v))); [lia|]. destruct (Z.ltb_spec 96 (push_opcode v)); [lia|].
  destruct (Z.leb_spec 0 (push_opcode v)); [|lia]. destruct (Z.leb_spec (push_opcode v) 78); [|lia].
  cbn [fail_if andb mbind result_bind forallb vfExec push set_stack stack altstack nOpCount pbegincodehash length].
  rewrite Z.gtb_ltb. destruct (Z.ltb_spec 1000 (Z.of_nat (S (length stk)) + Z.of_nat 0)); [lia|]. done.
Qed.
End Run.

(** ** Pay to public key hash *)

Section P2PKH.
Context {checker : BaseSignatureChecker} {lows : LowS}.
Context (flags : Z).

(** What may follow the script in an asset output: nothing, or the asset marker with
    its data. *)
Definition asset_suffix (suffix : bytes) : Prop :=
  suffix = [] \/ exists data, suffix = opcode_value OP_HNB_ASSET :: data /\ Z.of_nat (length data) <= MAX_SCRIPT_ELEMENT_SIZE.

Definition p2pkh_result (sigversion : SigVersion) (sig pubkey code : bytes) : eval bytes :=
  _ ← CheckSignatureEncoding flags sig;
  _ ← CheckPubKeyEncoding flags sigversion pubkey;
  let* fSuccess := lift (CheckSig sig pubkey (drop_sig sigversion code sig) sigversion) in
  _ ← fail_if (negb fSuccess && has_flag flags SCRIPT_VERIFY_NULLFAIL && negb (length sig =? 0)%nat)
        SCRIPT_ERR_SIG_NULLFAIL;
  Ok (bool_vch fSuccess).

Lemma run_asset_suffix sigversion suffix stk n code :
  asset_suffix suffix -> Z.of_nat (length stk) <= MAX_STACK_SIZE -> n < MAX_OPS_PER_SCRIPT ->
  exists n', run flags sigversion suffix (mkState stk [] [] n code) = Ok (mkState stk [] [] n' code).
Proof.
  unfold MAX_STACK_SIZE, MAX_OPS_PER_SCRIPT. intros [->|(data & -> & Hd)] Hs Hn; [by exists n|]. exists (n + 1).
  rewrite (run_step _ _ _ OP_HNB_ASSET data []) by done. unfold exec_instr.
  rewrite !Z.gtb_ltb. destruct (Z.ltb_spec MAX_SCRIPT_ELEMENT_SIZE (Z.of_nat (length data))); [lia|].
  cbn [opcode_value nOpCount]. change (96 <? 192) with true. cbn [andb].
  destruct (Z.ltb_spec MAX_OPS_PER_SCRIPT (n + 1)); [unfold MAX_OPS_PER_SCRIPT in *; lia|].
  cbn -[Z.of_nat Z.ltb Z.add run]. rewrite Z.gtb_ltb.
  destruct (Z.ltb_spec MAX_STACK_SIZE (Z.of_nat (length stk) + Z.of_nat 0)); [unfold MAX_STACK_SIZE in *; lia|]. done.
Qed.

Lemma exec_equalverify sigversion pc x h a b code :
  exec_instr flags sigversion OP_EQUALVERIFY [] pc (mkState [h; x; a; b] [] [] 2 code) =
  if bool_decide (x = h) then Ok (mkState [a; b] [] [] 3 code) else fail SCRIPT_ERR_EQUALVERIFY.
Proof.
  rewrite exec_instr_op by done. unfold exec_op. rewrite opcode_of_value. unfold on_stack, op_equal. cbn [stack].
  change (need _ _) with (Ok tt : eval unit). change (stacktop [h; x; a; b] 2) with (Ok x : eval bytes).
  change (stacktop [h; x; a; b] 1) with (Ok h : eval bytes).
  cbn [mbind result_bind popstack]. by destruct (bool_decide (x = h)).
Qed.

Lemma exec_checksig sigversion pc sig pubkey code :
  exec_instr flags sigversion OP_CHECKSIG [] pc (mkState [pubkey; sig] [] [] 3 code) =
  (v ← p2pkh_result sigversion sig pubkey code; Ok (mkState [v] [] [] 4 code)).
Proof.
  rewrite exec_instr_op by done. unfold exec_op. rewrite opcode_of_value. unfold op_checksig, p2pkh_result.
  cbn [stack pbegincodehash]. change (need _ _) with (Ok tt : eval unit).
  change (stacktop _ 2) with (Ok sig : eval bytes). change (stacktop _ 1) with (Ok pubkey : eval bytes).
  cbn [mbind result_bind]. destruct (CheckSignatureEncoding _ _); [|done]. destruct (CheckPubKeyEncoding _ _ _); [|done].
  cbn [mbind result_bind]. destruct (lift _) as [fSuccess|]; [|done]. by destruct (fail_if _ _).
Qed.

Lemma exec_hash160 sigversion pc a stk n code :
  n < MAX_OPS_PER_SCRIPT -> Z.of_nat (length stk) < MAX_STACK_SIZE ->
  exec_instr flags sigversion OP_HASH160 [] pc (mkState (a :: stk) [] [] n code) =
  Ok (mkState (Hash160 a :: stk) [] [] (n + 1) code).
Proof.
  intros Hn Hs. rewrite exec_instr_op by done. unfold exec_op. rewrite opcode_of_value. unfold on_stack, op_hash, need, fail_if.
  cbn [stack length]. destruct (Z.ltb_spec (Z.of_nat (S (length stk))) 1); [lia|].
  change (stacktop (a :: stk) 1) with (Ok a : eval bytes). cbn [mbind result_bind popstack].
  unfold Hash160. generalize (CHash160_Finalize (CHash160_Write CHash160_init a)). intros v. cbn [set_stack stack altstack length]. unfold MAX_STACK_SIZE in *.
  rewrite Z.gtb_ltb. by destruct (Z.ltb_spec 1000 (Z.of_nat (S (length stk)) + Z.of_nat 0)); [lia|].
Qed.

Lemma run_p2pkh sigversion h suffix sig pubkey code :
  length h = 20%nat -> asset_suffix suffix ->
  (st ← run flags sigversion (p2pkh_script h ++ suffix) (mkState [pubkey; sig] [] [] 0 code); Ok (stack st, vfExec st)) =
  (if bool_decide (Hash160 pubkey = h)
   then v ← p2pkh_result sigversion sig pubkey code; Ok ([v], [])
   else fail SCRIPT_ERR_EQUALVERIFY).
Proof.
  intros Hh Hsuf. unfold p2pkh_script. rewrite <- !app_assoc. cbn [app]. rewrite run_op by done.
  change (exec_instr flags sigversion OP_DUP [] _ _) with (Ok (mkState [pubkey; pubkey; sig] [] [] 1 code) : eval estate).
  cbn [mbind result_bind]. rewrite run_op by done.
  rewrite exec_hash160 by done. cbn [mbind result_bind]. rewrite run_push by (rewrite ?Hh; done || lia). rewrite run_op by done.
  rewrite exec_equalverify. destruct (bool_decide _); [|done]. cbn [mbind result_bind]. rewrite run_op by done.
  rewrite exec_checksig. destruct (p2pkh_result _ _ _ _) as [v|]; [|done]. cbn [mbind result_bind].
  by destruct (run_asset_suffix sigversion suffix [v] 4 code Hsuf) as [n' ->].
Qed.

Lemma EvalScript_run sigversion stk script :
  Z.of_nat (length script) <= MAX_SCRIPT_SIZE ->
  EvalScript flags sigversion stk script =
  (st ← catch (run flags sigversion script (mkState stk [] [] 0 script));
   _ ← fail_if (negb (length (vfExec st) =? 0)%nat) SCRIPT_ERR_UNBALANCED_CONDITIONAL;
   Ok (stack st)).
Proof.
  intros Hl. unfold EvalScript, fail_if at 1. rewrite Z.gtb_ltb.
  by destruct (Z.ltb_spec MAX_SCRIPT_SIZE (Z.of_nat (length script))); [lia|].
Qed.

Lemma IsPushOnly_push v pc fuel b :
  Z.of_nat (length v) < 2 ^ 32 -> (length (push_data v ++ pc) <= fuel)%nat ->
  (forall f, (length pc <= f)%nat -> IsPushOnly_loop f pc = b) -> IsPushOnly_loop fuel (push_data v ++ pc) = b.
Proof.
  intros Hv Hf Hpc. pose proof (GetOp_push_data v pc Hv) as Hop.
  assert (Hlen : (length pc < length (push_data v ++ pc))%nat).
  { pose proof (GetOp_progress (push_data v ++ pc)) as Hp. rewrite Hop in Hp. by apply Hp. }
  destruct fuel as [|fuel]; [lia|]. cbn [IsPushOnly_loop].
  destruct (push_data v ++ pc) eqn:E; [by cbn in Hlen; lia|]. rewrite Hop. cbn [go_ok negb opcodeRet go_pc].
  pose proof (push_opcode_range v) as Hr. cbn [opcode_value] in *. rewrite Z.gtb_ltb.
  destruct (Z.ltb_spec 96 (push_opcode v)); [lia|]. apply Hpc. lia.
Qed.

Lemma push_data_length v : (length (push_data v) <= length v + 5)%nat.
Proof.
  unfold push_data, WriteLE16, WriteLE32. rewrite length_app. repeat split_if; cbn [length]; rewrite ?le_split_length; lia.
Qed.

Context (sig pubkey : bytes).
Lemma catch_p2pkh sigversion code : catch (p2pkh_result sigversion sig pubkey code) = p2pkh_result sigversion sig pubkey code.
Proof.
  unfold p2pkh_result.
  assert (H1 : catch (CheckSignatureEncoding flags sig) = CheckSignatureEncoding flags sig).
  { unfold CheckSignatureEncoding, IsLowDERSignature, fail. repeat case_match; simplify_eq/=; done. }
  assert (H2 : catch (CheckPubKeyEncoding flags sigversion pubkey) = CheckPubKeyEncoding flags sigversion pubkey).
  { unfold CheckPubKeyEncoding. by repeat case_match. }
  destruct (CheckSignatureEncoding _ _) as [|[]]; try done. destruct (CheckPubKeyEncoding _ _ _) as [|[]]; try done.
  cbn [mbind result_bind]. destruct (CheckSig _ _ _ _) as [b|]; [|done]. cbn [lift]. unfold fail_if. by case_match.
Qed.

Lemma p2pkh_pub_eval sigversion h suffix :
  length h = 20%nat -> asset_suffix suffix ->
  EvalScript flags sigversion [pubkey; sig] (p2pkh_script h ++ suffix) =
  if bool_decide (Hash160 pubkey = h)
  then v ← p2pkh_result sigversion sig pubkey (p2pkh_script h ++ suffix); Ok [v]
  else fail SCRIPT_ERR_EQUALVERIFY.
Proof.
  intros Hh Hs.
  assert (Hl : Z.of_nat (length (p2pkh_script h ++ suffix)) <= MAX_SCRIPT_SIZE).
  { unfold p2pkh_script. pose proof (push_data_length h). rewrite !length_app. unfold MAX_SCRIPT_SIZE.
    destruct Hs as [->|(data & -> & Hd)]; cbn [length]; unfold MAX_SCRIPT_ELEMENT_SIZE in *; lia. }
  rewrite EvalScript_run by done.
  pose proof (run_p2pkh sigversion h suffix sig pubkey (p2pkh_script h ++ suffix) Hh Hs) as Hr.
  pose proof (catch_p2pkh sigversion (p2pkh_script h ++ suffix)) as Hc.
  destruct (run _ _ _ _) as [st|e] eqn:E; cbn [mbind result_bind] in Hr.
  - destruct (bool_decide _); [|done]. destruct (p2pkh_result _ _ _ _); [|done]. cbn [mbind result_bind] in Hr.
    injection Hr as Hr1 Hr2. cbn [catch mbind result_bind]. by rewrite Hr1, Hr2.
  - destruct (bool_decide _); [|by injection Hr as ->]. destruct (p2pkh_result _ _ _ _) as [|e']; [done|].
    cbn [mbind result_bind] in Hr. injection Hr as ->. cbn [mbind result_bind]. by destruct e' as [| |].
Qed.

Lemma p2pkh_not_special h suffix :
  IsWitnessProgram (p2pkh_script h ++ suffix) = None /\ IsPayToScriptHash (p2pkh_script h ++ suffix) = false.
Proof.
  unfold p2pkh_script. cbn [app]. split.
  - unfold IsWitnessProgram. by case_match.
  - unfold IsPayToScriptHash. by rewrite andb_false_r.
Qed.

(** The verdict on a spend, as a function of the key hash, the encodings and the signature. *)
Definition p2pkh_verdict (h code : bytes) : eval unit :=
  if bool_decide (Hash160 pubkey = h)
  then v ← p2pkh_result SIGVERSION_BASE sig pubkey code; require_true [v]
  else fail SCRIPT_ERR_EQUALVERIFY.

Context (Hsig : (2 <= length sig)%nat /\ Z.of_nat (length sig) <= MAX_SCRIPT_ELEMENT_SIZE).
Context (Hkey : (2 <= length pubkey)%nat /\ Z.of_nat (length pubkey) <= MAX_SCRIPT_ELEMENT_SIZE).

Lemma p2pkh_sig_eval sigversion :
  IsPushOnly (push_data sig ++ push_data pubkey) = true /\
  EvalScript flags sigversion [] (push_data sig ++ push_data pubkey) = Ok [pubkey; sig].
Proof using Hsig Hkey.
  unfold MAX_SCRIPT_ELEMENT_SIZE in *. pose proof (push_data_length sig). pose proof (push_data_length pubkey). split.
  - apply IsPushOnly_push; [lia|done|]. intros f Hf. rewrite <- (app_nil_r (push_data pubkey)).
    apply IsPushOnly_push; [lia|by rewrite app_nil_r|]. by intros [].
  - rewrite EvalScript_run by (rewrite length_app; unfold MAX_SCRIPT_SIZE; lia).
    rewrite run_push by (lia || done || (unfold MAX_SCRIPT_ELEMENT_SIZE; lia)).
    rewrite <- (app_nil_r (push_data pubkey)) at 1.
    by rewrite run_push by (lia || done || (unfold MAX_SCRIPT_ELEMENT_SIZE; lia)).
Qed.

Lemma VerifyScript_p2pkh h suffix :
  length h = 20%nat -> asset_suffix suffix -> flags_consistent flags ->
  VerifyScript (push_data sig ++ push_data pubkey) (p2pkh_script h ++ suffix) [] flags =
  p2pkh_verdict h (p2pkh_script h ++ suffix).
Proof using Hsig Hkey.
  intros Hh Hs [Hc1 Hc2]. unfold VerifyScript, p2pkh_verdict.
  destruct (p2pkh_sig_eval SIGVERSION_BASE) as [Hpo He]. rewrite Hpo, He, andb_false_r. cbn [fail_if mbind result_bind].
  rewrite p2pkh_pub_eval by done. destruct (bool_decide _); [|done].
  destruct (p2pkh_result _ _ _ _) as [v|]; [|done]. cbn [mbind result_bind].
  destruct (require_true [v]) as [[]|]; [|done]. cbn [mbind result_bind].
  destruct (p2pkh_not_special h suffix) as [Hw Hp]. unfold verify_witness. rewrite Hw, Hp, andb_false_r.
  destruct (has_flag flags SCRIPT_VERIFY_WITNESS) eqn:Hf.
  - rewrite (Hc2 eq_refl). cbn. by destruct (has_flag flags SCRIPT_VERIFY_CLEANSTACK).
  - destruct (has_flag flags SCRIPT_VERIFY_CLEANSTACK); [by discriminate (Hc1 eq_refl)|done].
Qed.
End P2PKH.

(** ** Script hashes and witness programs *)

Section Commitments.
Context {checker : BaseSignatureChecker} {lows : LowS}.
Context (flags : Z).

Lemma require_true_inv stk u : require_true stk = Ok u -> exists v rest, stk = v :: rest /\ CastToBool v = true.
Proof. destruct stk as [|v rest]; [done|]. cbn. unfold fail_if. destruct (CastToBool v) eqn:E; [by eauto|done]. Qed.

Lemma CastToBool_bool_vch b : CastToBool (bool_vch b) = b.
Proof. by destruct b. Qed.

(** What a step leaves, if it succeeds. *)
Lemma exec_hash160_inv sigversion pc a stk code st :
  exec_instr flags sigversion OP_HASH160 [] pc (mkState (a :: stk) [] [] 0 code) = Ok st ->
  st = mkState (Hash160 a :: stk) [] [] 1 code.
Proof.
  rewrite exec_instr_op by done. unfold exec_op. rewrite opcode_of_value. unfold on_stack, op_hash.
  intros (st' & (stk' & ([] & _ & H)%bind_Ok & [= <-])%bind_Ok & ([] & _ & [= <-])%bind_Ok)%bind_Ok.
  change (stacktop (stack (mkState (a :: stk) [] [] (0 + 1) code)) 1) with (Ok a : eval bytes) in H.
  cbn [mbind result_bind popstack stack] in H. unfold Hash160.
  revert H. generalize (CHash160_Finalize (CHash160_Write CHash160_init a)). by intros v [= <-].
Qed.

Lemma run_push_inv sigversion v pc stk n code st :
  Z.of_nat (length v) < 2 ^ 32 ->
  run flags sigversion (push_data v ++ pc) (mkState stk [] [] n code) = Ok st ->
  run flags sigversion pc (mkState (v :: stk) [] [] n code) = Ok st.
Proof.
  intros Hv. rewrite (run_step _ _ _ (push_opcode v) v pc) by by apply GetOp_push_data. unfold exec_instr.
  pose proof (push_opcode_range v) as Hr. cbn [opcode_value] in *. rewrite !(Z.gtb_ltb (push_opcode v)).
  destruct (Z.ltb_spec 96 (push_opcode v)); [lia|].
  destruct (Z.leb_spec 0 (push_opcode v)); [|lia]. destruct (Z.leb_spec (push_opcode v) 78); [|lia].
  cbn [forallb vfExec andb].
  intros (st' & ([] & _ & ([] & _ & ([] & _ & (st1 & ([] & _ & [= <-])%bind_Ok & ([] & _ & [= <-])%bind_Ok)
    %bind_Ok)%bind_Ok)%bind_Ok)%bind_Ok & Hr2)%bind_Ok. exact Hr2.
Qed.

Lemma exec_equal_inv sigversion pc h x stk code st :
  exec_instr flags sigversion OP_EQUAL [] pc (mkState (h :: x :: stk) [] [] 1 code) = Ok st ->
  st = mkState (bool_vch (bool_decide (x = h)) :: stk) [] [] 2 code.
Proof.
  rewrite exec_instr_op by done. unfold exec_op. rewrite opcode_of_value. unfold on_stack, op_equal.
  intros (st' & (stk' & ([] & _ & H)%bind_Ok & [= <-])%bind_Ok & ([] & _ & [= <-])%bind_Ok)%bind_Ok.
  cbn [stack] in H. change (stacktop (h :: x :: stk) 2) with (Ok x : eval bytes) in H.
  change (stacktop (h :: x :: stk) 1) with (Ok h : eval bytes) in H. by injection H as <-.
Qed.

Lemma p2sh_hash a rest scriptPubKey stk :
  IsPayToScriptHash scriptPubKey = true ->
  EvalScript flags SIGVERSION_BASE (a :: rest) scriptPubKey = Ok stk -> require_true stk = Ok tt ->
  Hash160 a = take 20 (drop 2 scriptPubKey).
Proof.
  intros (h & Hh & ->)%IsPayToScriptHash_inv He Ht.
  replace (take 20 (drop 2 ([opcode_value OP_HASH160; 20] ++ h ++ [opcode_value OP_EQUAL]))) with h
    by (symmetry; apply (take_app_length' h); by rewrite Hh).
  rewrite EvalScript_run in He by (rewrite !length_app, Hh; done).
  apply bind_Ok in He as (st & He & ([] & _ & [= <-])%bind_Ok).
  assert (Hr : run flags SIGVERSION_BASE ([opcode_value OP_HASH160; 20] ++ h ++ [opcode_value OP_EQUAL])
    (mkState (a :: rest) [] [] 0 ([opcode_value OP_HASH160; 20] ++ h ++ [opcode_value OP_EQUAL])) = Ok st)
    by (destruct (run _ _ _ _) as [|[]]; cbn in He; by simplify_eq).
  replace ([opcode_value OP_HASH160; 20] ++ h ++ [opcode_value OP_EQUAL])
    with (opcode_value OP_HASH160 :: push_data h ++ [opcode_value OP_EQUAL]) in Hr at 1
    by (unfold push_data; by rewrite Hh).
  rewrite run_op in Hr by done. clear He.
  apply bind_Ok in Hr as (st1 & ->%exec_hash160_inv & Hr). revert Hr. generalize (Hash160 a). intros x Hr.
  apply run_push_inv in Hr; [|by rewrite Hh]. rewrite run_op in Hr by done.
  apply bind_Ok in Hr as (st2 & ->%exec_equal_inv & Hr). rewrite run_nil in Hr. injection Hr as <-.
  apply require_true_inv in Ht as (v & r & [= <- _] & Hv). rewrite CastToBool_bool_vch in Hv. by apply bool_decide_eq_true in Hv.
Qed.

Lemma witness_program_inv witness program v :
  VerifyWitnessProgram witness 0 program flags = Ok v ->
  (exists script args top, length program = 32%nat /\ witness = args ++ [script] /\ sha256 script = program /\
    EvalScript flags SIGVERSION_WITNESS_V0 (reverse args) script = Ok [top] /\ CastToBool top = true) \/
  (exists sig pubkey, length program = 20%nat /\ witness = [sig; pubkey] /\ Hash160 pubkey = program /\
    CheckSig sig pubkey (p2pkh_script program) SIGVERSION_WITNESS_V0 = Ok true).
Proof.
  unfold VerifyWitnessProgram. cbn [Z.eqb]. intros H.
  destruct (witness_v0_script witness program) as [[script stk]|] eqn:E; [|done].
  apply bind_Ok in H as ([] & _ & (stk' & He & ([] & Hlen & (top & r & -> & Ht)%require_true_inv)%bind_Ok)%bind_Ok).
  assert (r = []) as -> by (destruct r; [done|by cbn in Hlen]).
  unfold witness_v0_script in E. destruct (Nat.eqb_spec (length program) 32) as [Hl|].
  - left. destruct (last witness) as [ws|] eqn:Hlast; [|done]. apply last_Some in Hlast as [args ->].
    rewrite CSHA256_once in E. destruct (bool_decide (sha256 ws = program)) eqn:Hb; [|done].
    apply bool_decide_eq_true in Hb. injection E as <- <-. exists ws, args, top. split_and!; try done.
    by rewrite reverse_snoc in He.
  - destruct (Nat.eqb_spec (length program) 20) as [Hl|]; [|done]. right.
    destruct (Nat.eqb_spec (length witness) 2) as [Hw|]; [|done]. injection E as <- <-.
    destruct witness as [|sig [|pubkey [|? ?]]]; try done. exists sig, pubkey.
    change (reverse [sig; pubkey]) with [pubkey; sig] in He. rewrite <- (app_nil_r (p2pkh_script program)) in He.
    rewrite (p2pkh_pub_eval flags sig pubkey SIGVERSION_WITNESS_V0 program [] Hl ltac:(by left)) in He.
    destruct (bool_decide _) eqn:Hb; [|done]. apply bool_decide_eq_true in Hb.
    split_and!; try done. apply bind_Ok in He as (v' & Hp & [= ->]). unfold p2pkh_result in Hp.
    apply bind_Ok in Hp as ([] & _ & ([] & _ & Hp)%bind_Ok).
    rewrite app_nil_r in Hp. cbn [drop_sig] in Hp. destruct (CheckSig _ _ _ _) as [b|]; [|done]. cbn [lift] in Hp.
    apply bind_Ok in Hp as ([] & _ & [= <-]). by rewrite CastToBool_bool_vch in Ht; subst.
Qed.
End Commitments.

(** ** Multi-signatures *)

(** The strategy of the loop: give each signature, in order, the first key that fits. *)
Fixpoint greedy (c : bytes -> bytes -> bool) (keys sigs : list bytes) : bool :=
  match keys, sigs with
  | _, [] => true
  | [], _ => false
  | key :: keys, sig :: sigs' => greedy c keys (if c sig key then sigs' else sigs)
  end.

Lemma greedy_nil c keys : greedy c keys [] = true.
Proof. by destruct keys. Qed.

Lemma greedy_length c keys : forall sigs, greedy c keys sigs = true -> (length sigs <= length keys)%nat.
Proof.
  induction keys as [|key keys IH]; intros [|sig sigs]; cbn [greedy length]; try done; [lia|].
  intros H%IH. destruct (c sig key); cbn [length] in *; lia.
Qed.

(** The greedy strategy finds an assignment that respects the order whenever there is one. *)
Lemma greedy_spec c keys : forall sigs,
  greedy c keys sigs = true <-> exists ks, ks `sublist_of` keys /\ Forall2 (fun sig key => c sig key = true) sigs ks.
Proof.
  induction keys as [|key keys IH]; intros [|sig sigs].
  1,3: split; [intros _; exists []; split; [apply sublist_nil_l|constructor]|intros; apply greedy_nil].
  - split; [done|]. intros (ks & ->%sublist_nil_r & H). inversion H.
  - cbn [greedy]. destruct (c sig key) eqn:E; rewrite IH.
    + split.
      * intros (ks & Hs & Hf). exists (key :: ks). split; [by constructor|by constructor].
      * intros (ks & Hs & Hf). inversion Hf as [|? k ? ks' Hk Hf']; subst. exists ks'. split; [|done].
        inversion Hs; subst; [done|]. etrans; [|eassumption]. by constructor.
    + split.
      * intros (ks & Hs & Hf). exists ks. split; [by constructor|done].
      * intros (ks & Hs & Hf). exists ks. split; [|done]. inversion Hs; subst; [|done].
        inversion Hf; subst. congruence.
Qed.

Section Multisig.
Context {checker : BaseSignatureChecker} {lows : LowS}.
Context (flags : Z) (sigversion : SigVersion).

Lemma stacktop_app (pre stk : list bytes) i v :
  stk !! i = Some v -> stacktop (pre ++ stk) (Z.of_nat (length pre + i) + 1) = Ok v.
Proof.
  intros Hv. unfold stacktop. destruct (Z.ltb_spec (Z.of_nat (length pre + i) + 1) 1); [lia|].
  replace (Z.to_nat _) with (length pre + i)%nat by lia. rewrite lookup_app_r by lia.
  by replace (length pre + i - length pre)%nat with i by lia; rewrite Hv.
Qed.

(** [vs] lies on the stack from position [i] on. *)
Definition at_stack (stk : list bytes) (i : Z) (vs : list bytes) : Prop :=
  forall k v, vs !! k = Some v -> stacktop stk (i + Z.of_nat k) = Ok v.

Lemma at_stack_cons stk i v vs : at_stack stk i (v :: vs) -> stacktop stk i = Ok v /\ at_stack stk (i + 1) vs.
Proof.
  intros H. split; [by rewrite <- (H 0%nat v eq_refl), Z.add_0_r|].
  intros k w Hk. rewrite <- (H (S k) w Hk). f_equal. lia.
Qed.

Lemma at_stack_app pre vs rest : at_stack (pre ++ vs ++ rest) (Z.of_nat (length pre) + 1) vs.
Proof.
  intros k v Hk. replace (_ + 1 + _) with (Z.of_nat (length pre + k) + 1) by lia.
  apply stacktop_app. rewrite lookup_app_l; [done|by apply lookup_lt_Some in Hk].
Qed.

Lemma drop_sigs_spec stk sigs : forall isig k code,
  at_stack stk (isig + k) sigs -> drop_sigs sigversion stk (length sigs) isig k code = Ok (foldl (drop_sig sigversion) code sigs).
Proof.
  induction sigs as [|sig sigs IH]; intros isig k code H; [done|]. apply at_stack_cons in H as [H0 H].
  cbn [length drop_sigs foldl]. rewrite H0. cbn [mbind result_bind]. apply IH. by rewrite Z.add_assoc.
Qed.

Context (code : bytes) (c : bytes -> bytes -> bool).

Lemma multisig_loop_spec stk fuel : forall sigs keys isig ikey,
  (length keys <= fuel)%nat -> (length sigs <= length keys)%nat ->
  at_stack stk isig sigs -> at_stack stk ikey keys ->
  Forall (fun sig => CheckSignatureEncoding flags sig = Ok tt) sigs ->
  Forall (fun key => CheckPubKeyEncoding flags sigversion key = Ok tt) keys ->
  (forall sig key, CheckSig sig key code sigversion = Ok (c sig key)) ->
  multisig_loop flags sigversion fuel stk code true isig (Z.of_nat (length sigs)) ikey (Z.of_nat (length keys)) =
  Ok (greedy c keys sigs).
Proof.
  induction fuel as [|fuel IH]; intros sigs keys isig ikey Hf Hl Hs Hk He1 He2 Hc.
  { destruct keys, sigs; cbn [length] in *; try lia. done. }
  destruct sigs as [|sig sigs]; [by rewrite greedy_nil|]. destruct keys as [|key keys]; cbn [length] in *; [lia|].
  cbn [multisig_loop greedy]. rewrite Z.gtb_ltb. destruct (Z.ltb_spec 0 (Z.of_nat (S (length sigs)))); [|lia]. cbn [andb].
  apply at_stack_cons in Hs as Hs'. apply at_stack_cons in Hk as [Hk0 Hk]. destruct Hs' as [Hs0 Hs1].
  apply Forall_cons in He1 as He1'. destruct He1' as [Es0 Es]. apply Forall_cons in He2 as [Ek0 Ek].
  rewrite Hs0, Hk0. cbn [mbind result_bind]. rewrite Es0, Ek0. cbn [mbind result_bind]. rewrite Hc. cbn [lift].
  rewrite Z.gtb_ltb. replace (Z.of_nat (S (length keys)) - 1) with (Z.of_nat (length keys)) by lia.
  replace (Z.of_nat (S (length sigs)) - 1) with (Z.of_nat (length sigs)) by lia.
  destruct (c sig key).
  - destruct (Z.ltb_spec (Z.of_nat (length keys)) (Z.of_nat (length sigs))); [lia|]. cbn [negb]. apply IH; try done; lia.
  - destruct (Z.ltb_spec (Z.of_nat (length keys)) (Z.of_nat (S (length sigs)))) as [Hlt|]; cbn [negb].
    + destruct (greedy c keys (sig :: sigs)) eqn:E; [apply greedy_length in E; cbn [length] in E; lia|]. by destruct fuel.
    + apply (IH (sig :: sigs)); cbn [length]; try done; lia.
Qed.

Lemma multisig_cleanup_pop args b ikey2 rest :
  b || negb (has_flag flags SCRIPT_VERIFY_NULLFAIL) = true ->
  multisig_cleanup flags (length args) b ikey2 (args ++ rest) = Ok rest.
Proof.
  intros Hb. revert ikey2. induction args as [|a args IH]; intros ikey2; [done|]. cbn [length multisig_cleanup app].
  replace (negb b && has_flag flags SCRIPT_VERIFY_NULLFAIL) with false
    by (by destruct b, (has_flag flags SCRIPT_VERIFY_NULLFAIL)).
  cbn [andb mbind result_bind popstack]. apply IH.
Qed.

Definition nonempty (v : bytes) : bool := negb (length v =? 0)%nat.

Lemma multisig_cleanup_nullfail args sigs rest :
  has_flag flags SCRIPT_VERIFY_NULLFAIL = true ->
  multisig_cleanup flags (length args + length sigs) false (Z.of_nat (length args)) (args ++ sigs ++ rest) =
  if existsb nonempty sigs then fail SCRIPT_ERR_SIG_NULLFAIL else Ok rest.
Proof.
  intros Hf. induction args as [|a args IH].
  - induction sigs as [|sig sigs IH]; [done|]. cbn [length plus multisig_cleanup app existsb]. rewrite Hf. cbn [negb andb].
    change (stacktop (sig :: sigs ++ rest) 1) with (Ok sig : eval bytes). unfold nonempty at 1.
    cbn [Z.eqb Z.of_nat mbind result_bind fail_if popstack]. destruct (length sig =? 0)%nat; [exact IH|done].
  - cbn [length plus multisig_cleanup app]. rewrite Hf. cbn [negb andb].
    destruct (Z.eqb_spec (Z.of_nat (S (length args))) 0); [lia|]. cbn [mbind result_bind popstack].
    rewrite Z.gtb_ltb. destruct (Z.ltb_spec 0 (Z.of_nat (S (length args)))); [|lia].
    replace (Z.of_nat (S (length args)) - 1) with (Z.of_nat (length args)) by lia. exact IH.
Qed.
End Multisig.

Section CheckMultisig.
Context {checker : BaseSignatureChecker} {lows : LowS}.
Context (flags : Z) (sigversion : SigVersion).

Lemma getint_small n : 0 <= n <= 20 -> getint n = n.
Proof. intros. unfold getint. repeat split_if; lia. Qed.

Lemma need_ok stk n : n <= Z.of_nat (length stk) -> need stk n = Ok tt.
Proof. intros. unfold need, fail_if. by destruct (Z.ltb_spec (Z.of_nat (length stk)) n); [lia|]. Qed.

(** An m-of-n multi-signature on the stack: the number of keys, the keys, the number
    of signatures, the signatures, and the extra element the operation consumes. *)
Record multisig_stack (vn vm : bytes) (keys sigs : list bytes) : Prop := {
  ms_n : scriptnum flags vn nDefaultMaxNumSize = Ok (Z.of_nat (length keys));
  ms_m : scriptnum flags vm nDefaultMaxNumSize = Ok (Z.of_nat (length sigs));
  ms_keys : Z.of_nat (length keys) <= MAX_PUBKEYS_PER_MULTISIG;
  ms_sigs : (length sigs <= length keys)%nat;
  ms_sig_enc : Forall (fun sig => CheckSignatureEncoding flags sig = Ok tt) sigs;
  ms_key_enc : Forall (fun key => CheckPubKeyEncoding flags sigversion key = Ok tt) keys;
}.

Lemma multisig_cleanup_spec vn vm keys sigs b rest :
  multisig_cleanup flags (length keys + length sigs + 2) b (Z.of_nat (length keys) + 2) (vn :: keys ++ vm :: sigs ++ rest) =
  if negb b && has_flag flags SCRIPT_VERIFY_NULLFAIL && existsb nonempty sigs then fail SCRIPT_ERR_SIG_NULLFAIL else Ok rest.
Proof.
  destruct (b || negb (has_flag flags SCRIPT_VERIFY_NULLFAIL)) eqn:E.
  - replace (negb b && _) with false by (by destruct b, (has_flag flags SCRIPT_VERIFY_NULLFAIL)). cbn [andb].
    replace (vn :: keys ++ vm :: sigs ++ rest) with ((vn :: keys ++ vm :: sigs) ++ rest) by (cbn [app]; by rewrite <- app_assoc).
    rewrite <- (multisig_cleanup_pop flags (vn :: keys ++ vm :: sigs) b (Z.of_nat (length keys) + 2) rest E).
    f_equal. cbn [length]. rewrite length_app. cbn [length]. lia.
  - destruct b; [done|]. destruct (has_flag flags SCRIPT_VERIFY_NULLFAIL) eqn:F; [|done]. cbn [negb andb].
    rewrite <- (multisig_cleanup_nullfail flags (vn :: keys ++ [vm]) sigs rest F).
    f_equal; [cbn [length]; rewrite length_app; cbn [length]; lia..|]. cbn [app]. by rewrite <- app_assoc.
Qed.

Lemma op_checkmultisig_spec vn vm keys sigs rest alt vf nOps code c :
  multisig_stack vn vm keys sigs -> nOps + Z.of_nat (length keys) <= MAX_OPS_PER_SCRIPT ->
  (forall sig key, CheckSig sig key (foldl (drop_sig sigversion) code sigs) sigversion = Ok (c sig key)) ->
  op_checkmultisig flags sigversion false (mkState (vn :: keys ++ vm :: sigs ++ [] :: rest) alt vf nOps code) =
  if negb (greedy c keys sigs) && has_flag flags SCRIPT_VERIFY_NULLFAIL && existsb nonempty sigs
  then fail SCRIPT_ERR_SIG_NULLFAIL
  else Ok (mkState (bool_vch (greedy c keys sigs) :: rest) alt vf (nOps + Z.of_nat (length keys)) code).
Proof.
  intros [Hn Hm Hk Hs He1 He2] Hops Hc. unfold MAX_PUBKEYS_PER_MULTISIG, MAX_OPS_PER_SCRIPT in *.
  set (n := length keys) in *. set (m := length sigs) in *.
  unfold op_checkmultisig. cbn [stack altstack vfExec nOpCount pbegincodehash].
  set (stk := vn :: keys ++ vm :: sigs ++ [] :: rest).
  assert (Hlen : length stk = (3 + n + m + length rest)%nat)
    by (unfold stk; cbn [length]; rewrite length_app; cbn [length]; rewrite length_app; cbn [length]; fold n m; lia).
  rewrite need_ok by lia. change (stacktop stk 1) with (Ok vn : eval bytes). cbn [mbind result_bind].
  rewrite Hn. cbn [mbind result_bind]. rewrite getint_small by lia. unfold MAX_PUBKEYS_PER_MULTISIG, MAX_OPS_PER_SCRIPT.
  rewrite !Z.gtb_ltb. destruct (Z.ltb_spec (Z.of_nat n) 0); [lia|]. destruct (Z.ltb_spec 20 (Z.of_nat n)); [lia|].
  destruct (Z.ltb_spec 201 (nOps + Z.of_nat n)); [lia|]. cbn [orb fail_if mbind result_bind].
  rewrite need_ok by lia.
  assert (Hvm : stacktop stk (2 + Z.of_nat n) = Ok vm).
  { replace (2 + Z.of_nat n) with (Z.of_nat (length (vn :: keys) + 0) + 1) by (cbn [length]; fold n; lia).
    by apply (stacktop_app (vn :: keys)). }
  rewrite Hvm. cbn [mbind result_bind]. rewrite Hm. cbn [mbind result_bind]. rewrite getint_small by lia.
  rewrite Z.gtb_ltb. destruct (Z.ltb_spec (Z.of_nat m) 0); [lia|]. destruct (Z.ltb_spec (Z.of_nat n) (Z.of_nat m)); [lia|].
  cbn [orb fail_if mbind result_bind]. rewrite need_ok by lia. cbn [mbind result_bind].
  assert (Hkeys : at_stack stk 2 keys) by apply (at_stack_app [vn] keys (vm :: sigs ++ [] :: rest)).
  assert (Hsigs : at_stack stk (2 + Z.of_nat n + 1) sigs).
  { replace (2 + Z.of_nat n + 1) with (Z.of_nat (length (vn :: keys ++ [vm])) + 1)
      by (cbn [length]; rewrite length_app; cbn [length]; fold n; lia).
    replace stk with ((vn :: keys ++ [vm]) ++ sigs ++ [] :: rest) by (unfold stk; cbn [app]; by rewrite <- app_assoc).
    apply at_stack_app. }
  pose proof (drop_sigs_spec sigversion stk sigs (2 + Z.of_nat n + 1) 0 code) as Hd. rewrite Z.add_0_r in Hd.
  fold m in Hd. rewrite !Nat2Z.id, Hd by done. cbn [mbind result_bind].
  pose proof (multisig_loop_spec flags sigversion (foldl (drop_sig sigversion) code sigs) c stk (S n) sigs keys (2 + Z.of_nat n + 1) 2) as Hl.
  fold n m in Hl. rewrite Hl by (done || lia). cbn [mbind result_bind].
  replace (Z.to_nat (2 + Z.of_nat n + 1 + Z.of_nat m - 1)) with (n + m + 2)%nat by lia. unfold stk, n, m.
  rewrite multisig_cleanup_spec. destruct (_ && _ && _); [done|]. cbn [mbind result_bind].
  rewrite need_ok by (cbn [length]; lia). change (stacktop ([] :: rest) 1) with (Ok [] : eval bytes).
  cbn [mbind result_bind length]. by rewrite andb_false_r.
Qed.
End CheckMultisig.

(** ** Properties *)

(** C26: spending a pay-to-public-key-hash output, bare or followed by the asset marker
    and its data.  A signature script that pushes a signature and a key succeeds exactly
    when the key has the hash of the output, the encodings pass the checks of the flags,
    and the signature is valid for the whole output script (asset data included); a key
    with another hash fails at the comparison.  The asset data never changes the verdict
    otherwise. *)
Theorem pay_to_pubkey_hash_spend (checker : BaseSignatureChecker) (lows : LowS) (flags : Z) (sig pubkey h suffix : bytes) :
  (2 <= length sig)%nat /\ Z.of_nat (length sig) <= MAX_SCRIPT_ELEMENT_SIZE ->
  (2 <= length pubkey)%nat /\ Z.of_nat (length pubkey) <= MAX_SCRIPT_ELEMENT_SIZE ->
  length h = 20%nat -> asset_suffix suffix -> flags_consistent flags ->
  let scriptPubKey := p2pkh_script h ++ suffix in
  let verdict := VerifyScript (push_data sig ++ push_data pubkey) scriptPubKey [] flags in
  (verdict = Ok tt <->
   Hash160 pubkey = h /\ CheckSignatureEncoding flags sig = Ok tt /\
   CheckPubKeyEncoding flags SIGVERSION_BASE pubkey = Ok tt /\
   CheckSig sig pubkey (drop_sig SIGVERSION_BASE scriptPubKey sig) SIGVERSION_BASE = Ok true) /\
  (Hash160 pubkey <> h -> verdict = Err (Fail SCRIPT_ERR_EQUALVERIFY)).
Proof.
  intros Hsig Hkey Hh Hsuf Hf scriptPubKey verdict. subst verdict scriptPubKey. rewrite VerifyScript_p2pkh by done.
  unfold p2pkh_verdict. generalize (Hash160 pubkey). intros x. case_bool_decide as Hx; [|by split; [split; [done|intros []]|]].
  split; [|done]. unfold p2pkh_result. destruct (CheckSignatureEncoding flags sig) as [[]|]; [|by split; [|intros (_ & ? & _)]].
  destruct (CheckPubKeyEncoding _ _ _) as [[]|]; [|by split; [|intros (_ & _ & ? & _)]]. cbn [mbind result_bind].
  destruct (CheckSig _ _ _ _) as [[]|]; cbn; [done| |by split; [|intros (_ & _ & _ & ?)]].
  split; [|by intros (_ & _ & _ & ?)]. unfold fail_if. by destruct (_ && _).
Qed.

Lemma pay_to_pubkey_hash_spend_witness :
  let sig := [0x30; 1] in let pubkey := [2; 3; 4] in
  VerifyScript (checker := accept_all) (lows := any_s) (push_data sig ++ push_data pubkey)
    (p2pkh_script (Hash160 pubkey) ++ [opcode_value OP_HNB_ASSET; 114; 118; 110; 116]) [] 0x11 = Ok tt.
Proof.
  intros sig pubkey.
  apply (pay_to_pubkey_hash_spend accept_all any_s 0x11 sig pubkey (Hash160 pubkey)
           [opcode_value OP_HNB_ASSET; 114; 118; 110; 116]).
  - split; unfold MAX_SCRIPT_ELEMENT_SIZE; cbn; lia.
  - split; unfold MAX_SCRIPT_ELEMENT_SIZE; cbn; lia.
  - rewrite Hash160_spec. apply ripemd160_digest.
  - right. by exists [114; 118; 110; 116].
  - by split.
  - by split_and!.
Defined.

(** What a spend reveals.  If an input verifies and its output is a script hash
    (with the P2SH rule on), the signature script only pushes data, the last thing it
    pushes hashes to the output's hash, and that redeem script succeeds on the rest of
    the stack.  If the output is a version 0 witness program (with the witness rule on),
    the signature script is empty and either the last witness element is a script with
    the 32-byte SHA-256 hash of the program, which leaves exactly one true element, or
    the witness is a signature and a key that hashes to the 20-byte program, and the
    signature is valid. *)
Theorem script_hash_commitments (checker : BaseSignatureChecker) (lows : LowS)
    (scriptSig scriptPubKey : bytes) (witness : list bytes) (flags : Z) :
  VerifyScript scriptSig scriptPubKey witness flags = Ok tt ->
  (has_flag flags SCRIPT_VERIFY_P2SH = true -> IsPayToScriptHash scriptPubKey = true ->
    IsPushOnly scriptSig = true /\
    exists redeem stk top stk', EvalScript flags SIGVERSION_BASE [] scriptSig = Ok (redeem :: stk) /\
      Hash160 redeem = take 20 (drop 2 scriptPubKey) /\
      EvalScript flags SIGVERSION_BASE stk redeem = Ok (top :: stk') /\ CastToBool top = true) /\
  (forall program, has_flag flags SCRIPT_VERIFY_WITNESS = true -> IsWitnessProgram scriptPubKey = Some (0, program) ->
    scriptSig = [] /\
    ((exists script args top, length program = 32%nat /\ witness = args ++ [script] /\ sha256 script = program /\
       EvalScript flags SIGVERSION_WITNESS_V0 (reverse args) script = Ok [top] /\ CastToBool top = true) \/
     (exists sig pubkey, length program = 20%nat /\ witness = [sig; pubkey] /\ Hash160 pubkey = program /\
       CheckSig sig pubkey (p2pkh_script program) SIGVERSION_WITNESS_V0 = Ok true))).
Proof.
  unfold VerifyScript. intros ([] & _ & (stackCopy & Esig & (stk & Epub & ([] & Ht & H)%bind_Ok)%bind_Ok)%bind_Ok)%bind_Ok.
  split.
  - intros Hf Hp. rewrite Hf, Hp in H. cbn [andb] in H. destruct (verify_witness _ _ _ _ _ _ _) as [[stk1 had]|]; [|done].
    destruct (verify_p2sh _ _ _ _ _) as [r|] eqn:E; [|done]. unfold verify_p2sh in E.
    apply bind_Ok in E as ([] & Hpo & ([] & Hne & (redeem & Htop & (stk2 & Hpop & (stk3 & He & ([] & Hr & _)%bind_Ok)
      %bind_Ok)%bind_Ok)%bind_Ok)%bind_Ok). split; [by destruct (IsPushOnly scriptSig)|].
    destruct stackCopy as [|redeem' rest]; [done|]. change (Ok redeem' = Ok redeem :> eval bytes) in Htop.
    injection Htop as ->. injection Hpop as ->.
    apply require_true_inv in Hr as (top & stk' & -> & Hv). exists redeem, stk2, top, stk'.
    split_and!; try done. by eapply p2sh_hash.
  - intros program Hf Hw. unfold verify_witness in H. rewrite Hf, Hw in H.
    destruct (_ ≫= _) as [[stk1 had]|] eqn:E in H; [|done].
    apply bind_Ok in E as ([] & Hm & (u & Hv & _)%bind_Ok). split.
    + destruct scriptSig; [done|by cbn in Hm].
    + by eapply witness_program_inv.
Qed.

Lemma script_hash_commitments_witness :
  exists redeem, Hash160 redeem = Hash160 [opcode_value OP_1].
Proof.
  assert (H : VerifyScript (checker := accept_all) (lows := any_s) [1; opcode_value OP_1]
    ([opcode_value OP_HASH160; 20] ++ Hash160 [opcode_value OP_1] ++ [opcode_value OP_EQUAL]) [] 1 = Ok tt) by by vm_compute.
  destruct (proj1 (script_hash_commitments accept_all any_s _ _ _ _ H) eq_refl ltac:(by vm_compute))
    as (_ & redeem & _ & _ & _ & _ & Hh & _). exists redeem. rewrite Hh. by vm_compute.
Defined.

(** C27: an m-of-n multi-signature succeeds exactly when the m signatures can be matched
    to keys in the order of the keys, each signature valid for its key: the single
    greedy pass over the keys misses no such matching.  Otherwise the operation fails
    if the flags demand that failing signatures be empty and one is not, and pushes
    false if not.  The signatures are checked against the script without them. *)
Theorem checkmultisig_matching (checker : BaseSignatureChecker) (lows : LowS) (flags : Z) (sigversion : SigVersion)
    (vn vm : bytes) (keys sigs rest alt : list bytes) (vf : list bool) (nOps : Z) (code : bytes) :
  CheckerTotal checker -> multisig_stack flags sigversion vn vm keys sigs ->
  nOps + Z.of_nat (length keys) <= MAX_OPS_PER_SCRIPT ->
  let scriptCode := foldl (drop_sig sigversion) code sigs in
  let result v := mkState (v :: rest) alt vf (nOps + Z.of_nat (length keys)) code in
  let op := op_checkmultisig flags sigversion false (mkState (vn :: keys ++ vm :: sigs ++ [] :: rest) alt vf nOps code) in
  (op = Ok (result vchTrue) <->
   exists ks, ks `sublist_of` keys /\
     Forall2 (fun sig key => CheckSig sig key scriptCode sigversion = Ok true) sigs ks) /\
  (op <> Ok (result vchTrue) ->
   op = if has_flag flags SCRIPT_VERIFY_NULLFAIL && existsb nonempty sigs then Err (Fail SCRIPT_ERR_SIG_NULLFAIL)
        else Ok (result vchFalse)).
Proof.
  intros Ht Hms Hops scriptCode result op.
  set (c sig key := match CheckSig sig key scriptCode sigversion with Ok b => b | Err _ => false end).
  assert (Hc : forall sig key, CheckSig sig key scriptCode sigversion = Ok (c sig key)).
  { intros sig key. unfold c. pose proof (CheckSig_total sig key scriptCode sigversion). by destruct (CheckSig _ _ _ _). }
  subst op. rewrite (op_checkmultisig_spec flags sigversion vn vm keys sigs rest alt vf nOps code c Hms Hops Hc).
  assert (Hiff : (exists ks, ks `sublist_of` keys /\ Forall2 (fun sig key => CheckSig sig key scriptCode sigversion = Ok true) sigs ks)
    <-> greedy c keys sigs = true).
  { rewrite greedy_spec. split; intros (ks & H1 & H2); exists ks; (split; [done|]);
      refine (Forall2_impl _ _ _ _ H2 _); intros sig key; rewrite Hc; congruence. }
  rewrite Hiff. destruct (greedy c keys sigs); cbn [negb andb]; [done|].
  split; [|done]. split; [|done]. by destruct (_ && _).
Qed.

Lemma checkmultisig_matching_witness :
  op_checkmultisig (checker := accept_all) (lows := any_s) 0 SIGVERSION_BASE false
    (mkState [[2]; [8]; [9]; [1]; [7]; []] [] [] 0 []) = Ok (mkState [vchTrue] [] [] 2 []).
Proof.
  apply (checkmultisig_matching accept_all any_s 0 SIGVERSION_BASE [2] [1] [[8]; [9]] [[7]] [] [] [] 0 []).
  - exact accept_all_total.
  - by split; repeat constructor.
  - done.
  - exists [[8]]. split; [|by repeat constructor]. by repeat constructor.
Defined.
