(* ===== verification/SigHash.v ===== *)
(** * What a signature signs: [SignatureHash] and [TransactionSignatureChecker]

    The part of [src/script/interpreter.cpp] that ties scripts to the transaction that
    spends them: the two signature hashes (the original one, which serializes a
    modified copy of the transaction on the fly, and the one of witness programs, with
    its cache [PrecomputedTransactionData]), public keys as [src/pubkey.h] stores them,
    and the checks of signatures, lock times and sequence numbers.  The verification of
    an ECDSA signature itself is done by the elliptic-curve library and is the class
    [Ecdsa]. *)

From S2P Require Import Prelude Endian Params Serialize Hasher HashFns Script Transaction Interpreter EvalSafety.

(** ** The original signature hash *)

(** The first loop of [SerializeScriptCode]. *)
Fixpoint count_separators (fuel : nat) (it : bytes) (nCodeSeparators : Z) : Z :=
  match fuel with
  | O => nCodeSeparators
  | S fuel =>
    let r := GetOp it in
    if go_ok r
    then count_separators fuel (go_pc r)
           (if opcodeRet r =? OP_CODESEPARATOR then nCodeSeparators + 1 else nCodeSeparators)
    else nCodeSeparators
  end.

(** [s.write((char * ) &itBegin[0], it - itBegin - k)] for iterators as suffixes. *)
Definition write_between (itBegin it : bytes) (k : nat) : bytes := take (length itBegin - length it - k) itBegin.

(** The second loop; the iterator of a failing [GetOp] is where it stopped. *)
Fixpoint write_code (fuel : nat) (itBegin it : bytes) : bytes :=
  match fuel with
  | O => []
  | S fuel =>
    let r := GetOp it in
    if go_ok r then
      if opcodeRet r =? OP_CODESEPARATOR
      then write_between itBegin (go_pc r) 1 ++ write_code fuel (go_pc r) (go_pc r)
      else write_code fuel itBegin (go_pc r)
    else match itBegin with [] => [] | _ => write_between itBegin (go_pc r) 0 end
  end.

Definition SerializeScriptCode (scriptCode : bytes) : bytes :=
  let fuel := S (length scriptCode) in
  WriteCompactSize (Z.of_nat (length scriptCode) - count_separators fuel scriptCode 0) ++
  write_code fuel scriptCode scriptCode.

(** [CTransactionSignatureSerializer]: the members and [Serialize]. *)
Record sig_serializer := mkSS {
  ss_txTo : CTransaction;
  ss_scriptCode : bytes;
  ss_nIn : nat;
  fAnyoneCanPay : bool;
  fHashSingle : bool;
  fHashNone : bool;
}.

Definition hash_single (nHashType : Z) : bool := Z.land nHashType 0x1f =? SIGHASH_SINGLE.
Definition hash_none (nHashType : Z) : bool := Z.land nHashType 0x1f =? SIGHASH_NONE.
Definition anyone_can_pay (nHashType : Z) : bool := negb (Z.land nHashType SIGHASH_ANYONECANPAY =? 0).

Definition CTransactionSignatureSerializer (txTo : CTransaction) (scriptCode : bytes) (nIn : nat) (nHashType : Z) :
  sig_serializer :=
  mkSS txTo scriptCode nIn (anyone_can_pay nHashType) (hash_single nHashType) (hash_none nHashType).

(** [v[i]]. *)
Definition index {A} (v : list A) (i : nat) : result fault A :=
  match v !! i with Some a => Ok a | None => Err OutOfBounds end.

Definition SerializeInput (s : sig_serializer) (nInput : nat) : result fault bytes :=
  let nInput := if fAnyoneCanPay s then ss_nIn s else nInput in
  txin ← index (vin (ss_txTo s)) nInput;
  Ok (write ser_outpoint (prevout txin) ++
      (if negb (nInput =? ss_nIn s)%nat then write ser_script [] else SerializeScriptCode (ss_scriptCode s)) ++
      (if negb (nInput =? ss_nIn s)%nat && (fHashSingle s || fHashNone s) then write ser_int32 0
       else write ser_uint32 (nSequence txin))).

Definition SerializeOutput (s : sig_serializer) (nOutput : nat) : result fault bytes :=
  if fHashSingle s && negb (nOutput =? ss_nIn s)%nat then Ok (write ser_txout txout_SetNull)
  else txout ← index (vout (ss_txTo s)) nOutput; Ok (write ser_txout txout).

Definition sig_serialize (s : sig_serializer) : result fault bytes :=
  let nInputs := if fAnyoneCanPay s then 1%nat else length (vin (ss_txTo s)) in
  inputs ← mapM (SerializeInput s) (seq 0 nInputs);
  let nOutputs := if fHashNone s then 0%nat else if fHashSingle s then S (ss_nIn s) else length (vout (ss_txTo s)) in
  outputs ← mapM (SerializeOutput s) (seq 0 nOutputs);
  Ok (write ser_int32 (nVersion (ss_txTo s)) ++
      WriteCompactSize (Z.of_nat nInputs) ++ concat inputs ++
      WriteCompactSize (Z.of_nat nOutputs) ++ concat outputs ++
      write ser_uint32 (nLockTime (ss_txTo s))).

(** ** The signature hash of witness programs *)

Definition GetPrevoutHash (txTo : CTransaction) : bytes :=
  HashN (map (fun txin => write ser_outpoint (prevout txin)) (vin txTo)).
Definition GetSequenceHash (txTo : CTransaction) : bytes :=
  HashN (map (fun txin => write ser_uint32 (nSequence txin)) (vin txTo)).
Definition GetOutputsHash (txTo : CTransaction) : bytes := HashN (map (write ser_txout) (vout txTo)).

Record PrecomputedTransactionData := mkPrecomputed {
  hashPrevouts : bytes;
  hashSequence : bytes;
  hashOutputs : bytes;
  ready : bool;
}.

Definition precompute (txTo : CTransaction) : PrecomputedTransactionData :=
  if HasWitness txTo then mkPrecomputed (GetPrevoutHash txTo) (GetSequenceHash txTo) (GetOutputsHash txTo) true
  else mkPrecomputed null_uint256 null_uint256 null_uint256 false.

(** [cacheready ? cache->field : compute] *)
Definition cached (cache : option PrecomputedTransactionData) (field : PrecomputedTransactionData -> bytes)
    (compute : bytes) : bytes :=
  match cache with
  | Some c => if ready c then field c else compute
  | None => compute
  end.

(** [uint256S("...0001")] *)
Definition uint256_one : bytes := 1 :: replicate 31 0.

(** The data under the hash of a witness program. *)
Definition witness_preimage (scriptCode : bytes) (txTo : CTransaction) (nIn : nat) (nHashType amount : Z)
    (cache : option PrecomputedTransactionData) : result fault (list bytes) :=
  let prevouts := if negb (anyone_can_pay nHashType) then cached cache hashPrevouts (GetPrevoutHash txTo) else null_uint256 in
  let sequence := if negb (anyone_can_pay nHashType) && negb (hash_single nHashType) && negb (hash_none nHashType)
                  then cached cache hashSequence (GetSequenceHash txTo) else null_uint256 in
  outputs ← (if negb (hash_single nHashType) && negb (hash_none nHashType)
             then Ok (cached cache hashOutputs (GetOutputsHash txTo))
             else if hash_single nHashType && (nIn <? length (vout txTo))%nat
             then txout ← index (vout txTo) nIn; Ok (HashN [write ser_txout txout])
             else Ok null_uint256);
  txin ← index (vin txTo) nIn;
  Ok [write ser_int32 (nVersion txTo); write ser_uint256 prevouts; write ser_uint256 sequence;
      write ser_outpoint (prevout txin); write ser_script scriptCode; write ser_int64 amount;
      write ser_uint32 (nSequence txin); write ser_uint256 outputs; write ser_uint32 (nLockTime txTo);
      write ser_int32 nHashType].

Definition SignatureHash (scriptCode : bytes) (txTo : CTransaction) (nIn : nat) (nHashType amount : Z)
    (sigversion : SigVersion) (cache : option PrecomputedTransactionData) : result fault bytes :=
  if negb (nIn <? length (vin txTo))%nat then Err AssertFailure
  else
    match sigversion with
    | SIGVERSION_WITNESS_V0 =>
      parts ← witness_preimage scriptCode txTo nIn nHashType amount cache;
      Ok (HashN parts)
    | SIGVERSION_BASE =>
      if hash_single nHashType && (length (vout txTo) <=? nIn)%nat then Ok uint256_one
      else
        tmp ← sig_serialize (CTransactionSignatureSerializer txTo scriptCode nIn nHashType);
        Ok (HashN [tmp; write ser_int32 nHashType])
    end.

(** ** Public keys *)

(** [CPubKey::GetLen] *)
Definition pubkey_GetLen (chHeader : Z) : nat :=
  if (chHeader =? 2) || (chHeader =? 3) then 33%nat
  else if (chHeader =? 4) || (chHeader =? 6) || (chHeader =? 7) then 65%nat
  else 0%nat.

(** The bytes [CPubKey::Set] stores; [Invalidate] stores the header [0xFF]. *)
Definition pubkey_Set (v : bytes) : bytes :=
  let len := match v with [] => 0%nat | b :: _ => pubkey_GetLen b end in
  if negb (len =? 0)%nat && (len =? length v)%nat then v else [0xFF].

Definition pubkey_size (vch : bytes) : nat := pubkey_GetLen (at_ vch 0).
Definition pubkey_IsValid (vch : bytes) : bool := (0 <? pubkey_size vch)%nat.
Definition pubkey_IsCompressed (vch : bytes) : bool := (pubkey_size vch =? 33)%nat.
Definition pubkey_GetID (vch : bytes) : bytes := Hash160 (take (pubkey_size vch) vch).

(** ** The checker *)

(** [CPubKey::Verify] of a valid key, a hash and a signature. *)
Class Ecdsa := { ecdsa_verify : bytes -> bytes -> bytes -> bool }.

Definition Verify {E : Ecdsa} (vch hash vchSig : bytes) : bool :=
  if negb (pubkey_IsValid vch) then false else ecdsa_verify vch hash vchSig.

Record TransactionSignatureChecker := mkTSC {
  txTo : CTransaction;
  nIn : nat;
  amount : Z;
  txdata : option PrecomputedTransactionData;
}.

Section Checker.
Context {E : Ecdsa} (t : TransactionSignatureChecker).

Definition VerifySignature (vchSig pubkey sighash : bytes) : bool := Verify pubkey sighash vchSig.

Definition tsc_CheckSig (vchSigIn vchPubKey scriptCode : bytes) (sigversion : SigVersion) : result fault bool :=
  let pubkey := pubkey_Set vchPubKey in
  if negb (pubkey_IsValid pubkey) then Ok false
  else
    match last vchSigIn with
    | None => Ok false
    | Some nHashType =>
      let vchSig := take (length vchSigIn - 1) vchSigIn in
      sighash ← SignatureHash scriptCode (txTo t) (nIn t) nHashType (amount t) sigversion (txdata t);
      Ok (VerifySignature vchSig pubkey sighash)
    end.

Definition tsc_CheckLockTime (nLock : Z) : result fault bool :=
  let txLock := nLockTime (txTo t) in
  if negb (((txLock <? LOCKTIME_THRESHOLD) && (nLock <? LOCKTIME_THRESHOLD)) ||
           ((txLock >=? LOCKTIME_THRESHOLD) && (nLock >=? LOCKTIME_THRESHOLD))) then Ok false
  else if nLock >? txLock then Ok false
  else
    txin ← index (vin (txTo t)) (nIn t);
    Ok (negb (SEQUENCE_FINAL =? nSequence txin)).

Definition nLockTimeMask : Z := Z.lor SEQUENCE_LOCKTIME_TYPE_FLAG SEQUENCE_LOCKTIME_MASK.

Definition tsc_CheckSequence (nSeq : Z) : result fault bool :=
  txin ← index (vin (txTo t)) (nIn t);
  let txToSequence := nSequence txin in
  if u32 (nVersion (txTo t)) <? 2 then Ok false
  else if negb (Z.land txToSequence SEQUENCE_LOCKTIME_DISABLE_FLAG =? 0) then Ok false
  else
    let txToSequenceMasked := Z.land txToSequence nLockTimeMask in
    let nSequenceMasked := Z.land nSeq nLockTimeMask in
    if negb (((txToSequenceMasked <? SEQUENCE_LOCKTIME_TYPE_FLAG) && (nSequenceMasked <? SEQUENCE_LOCKTIME_TYPE_FLAG)) ||
             ((txToSequenceMasked >=? SEQUENCE_LOCKTIME_TYPE_FLAG) && (nSequenceMasked >=? SEQUENCE_LOCKTIME_TYPE_FLAG)))
    then Ok false
    else Ok (negb (nSequenceMasked >? txToSequenceMasked)).
End Checker.

Definition transaction_checker {E : Ecdsa} (t : TransactionSignatureChecker) : BaseSignatureChecker :=
  {| CheckSig := tsc_CheckSig t; CheckLockTime := tsc_CheckLockTime t; CheckSequence := tsc_CheckSequence t |}.

#[local] Opaque HashN.

(** ** Script codes without separators *)

(** The instructions of a script that parses: opcode and raw bytes. *)
Fixpoint instructions (fuel : nat) (pc : bytes) : option (list (Z * bytes)) :=
  match pc with
  | [] => Some []
  | _ =>
    match fuel with
    | O => None
    | S fuel =>
      let r := GetOp pc in
      if go_ok r
      then l ← instructions fuel (go_pc r); Some ((opcodeRet r, take (length pc - length (go_pc r)) pc) :: l)
      else None
    end
  end.

Definition not_separator (i : Z * bytes) : bool := negb (i.1 =? OP_CODESEPARATOR).

(** The script without its code separators. *)
Definition strip_separators (script : bytes) : option bytes :=
  l ← instructions (length script) script; Some (concat (map snd (List.filter not_separator l))).

Lemma GetOp_raw pc :
  go_ok (GetOp pc) = true ->
  exists raw, pc = raw ++ go_pc (GetOp pc) /\ take (length pc - length (go_pc (GetOp pc))) pc = raw /\ raw <> [] /\
    (opcodeRet (GetOp pc) = OP_CODESEPARATOR -> length raw = 1%nat).
Proof.
  intros Hok. destruct (GetOp_split pc Hok) as (a & Heq & _). set (pc' := go_pc (GetOp pc)) in *.
  exists (opcodeRet (GetOp pc) :: a). split_and!; [exact Heq| |done|].
  - rewrite Heq at 1 2. rewrite app_comm_cons. apply take_app_length'. rewrite length_app. lia.
  - intros Ho. rewrite Ho in Heq. cbn [length]. f_equal. pose proof (GetOp_opcode OP_CODESEPARATOR (a ++ pc')) as Hg.
    rewrite <- Heq in Hg. assert (E : pc' = a ++ pc') by (unfold pc' at 1; by rewrite Hg).
    apply (f_equal length) in E. rewrite length_app in E. lia.
Qed.

Lemma write_code_spec fuel : forall itBegin it f l pre,
  (length it < fuel)%nat -> itBegin = pre ++ it -> instructions f it = Some l ->
  write_code fuel itBegin it = pre ++ concat (map snd (List.filter not_separator l)).
Proof.
  induction fuel as [|fuel IH]; intros itBegin it f l pre Hf -> Hl; [lia|]. cbn [write_code].
  destruct it as [|b it].
  { replace l with (@nil (Z * bytes)) by (destruct f; cbn in Hl; congruence). cbn. unfold write_between.
    rewrite !app_nil_r, Nat.sub_0_r, Nat.sub_0_r. rewrite take_ge by done. by destruct pre. }
  destruct f as [|f]; [done|]. cbn [instructions] in Hl. destruct (go_ok (GetOp (b :: it))) eqn:Hok; [|done].
  apply bind_Some in Hl as (l' & Hl & El). apply (inj Some) in El. subst l. destruct (GetOp_raw _ Hok) as (raw & Heq & Htake & Hne & Hsep).
  rewrite Htake. pose proof (GetOp_progress _ Hok) as Hp. cbn [List.filter not_separator fst].
  set (r := GetOp (b :: it)) in *. unfold not_separator at 1. cbn [fst].
  destruct (Z.eqb_spec (opcodeRet r) OP_CODESEPARATOR) as [Ho|]; cbn [negb map snd concat].
  - rewrite (IH (go_pc r) (go_pc r) f l' []) by (done || lia). f_equal. unfold write_between.
    specialize (Hsep Ho). rewrite Heq at 1 2. rewrite !length_app, Hsep. apply take_app_length'. lia.
  - rewrite (IH _ (go_pc r) f l' (pre ++ raw)); [by rewrite <- app_assoc|lia| |done]. rewrite <- app_assoc. by rewrite <- Heq.
Qed.

Lemma count_separators_spec fuel : forall it f l n,
  (length it < fuel)%nat -> instructions f it = Some l ->
  count_separators fuel it n = n + Z.of_nat (length it) - Z.of_nat (length (concat (map snd (List.filter not_separator l)))).
Proof.
  induction fuel as [|fuel IH]; intros it f l n Hf Hl; [lia|]. cbn [count_separators]. destruct it as [|b it].
  { replace l with (@nil (Z * bytes)) by (destruct f; cbn in Hl; congruence). cbn. lia. }
  destruct f as [|f]; [done|]. cbn [instructions] in Hl. destruct (go_ok (GetOp (b :: it))) eqn:Hok; [|done].
  apply bind_Some in Hl as (l' & Hl & El). apply (inj Some) in El. subst l. destruct (GetOp_raw _ Hok) as (raw & Heq & Htake & Hne & Hsep).
  rewrite Htake. pose proof (GetOp_progress _ Hok) as Hp.
  set (r := GetOp (b :: it)) in *. rewrite (IH (go_pc r) f l') by (done || lia).
  assert (Hlen : length (b :: it) = (length raw + length (go_pc r))%nat) by (rewrite Heq at 1; apply length_app).
  rewrite Hlen. cbn [List.filter]. unfold not_separator at 2. cbn [fst].
  destruct (Z.eqb_spec (opcodeRet r) OP_CODESEPARATOR) as [Ho|]; cbn [negb map snd concat]; [rewrite (Hsep Ho); lia|].
  rewrite length_app. lia.
Qed.

Lemma SerializeScriptCode_spec script code :
  strip_separators script = Some code -> SerializeScriptCode script = write ser_script code.
Proof.
  intros (l & Hl & [= <-])%bind_Some. unfold SerializeScriptCode. cbn [write ser_script]. unfold Serialize_blob.
  rewrite (write_code_spec _ _ _ _ l []) by (done || lia). rewrite (count_separators_spec _ _ _ l) by (done || lia).
  do 2 f_equal. lia.
Qed.

(** ** The original hash as the hash of a modified transaction *)

Section Legacy.
Context (code : bytes) (tx : CTransaction) (nIn : nat) (nHashType : Z).

(** Other inputs are blanked; with SINGLE or NONE they may be updated at will. *)
Definition legacy_input (i : nat) (txin : CTxIn) : CTxIn :=
  if decide (i = nIn) then mkTxIn (prevout txin) code (nSequence txin) []
  else mkTxIn (prevout txin) []
         (if hash_single nHashType || hash_none nHashType then 0 else nSequence txin) [].

Definition legacy_vin : list CTxIn :=
  if anyone_can_pay nHashType then legacy_input nIn <$> take 1 (drop nIn (vin tx)) else imap legacy_input (vin tx).

Definition legacy_vout : list CTxOut :=
  if hash_none nHashType then []
  else if hash_single nHashType then replicate nIn txout_SetNull ++ take 1 (drop nIn (vout tx))
  else vout tx.

(** The transaction a signature of the original kind signs. *)
Definition legacy_tx : CTransaction := mkTx legacy_vin legacy_vout (nVersion tx) (nLockTime tx).
End Legacy.

Lemma mapM_seq {A} (f : nat -> result fault A) (g : nat -> A) n : forall k,
  (forall i, (k <= i < k + n)%nat -> f i = Ok (g i)) -> mapM f (seq k n) = Ok (map g (seq k n)).
Proof.
  induction n as [|n IH]; intros k H; [done|]. cbn [seq mapM map].
  rewrite (H k) by lia. cbn [mbind result_bind]. rewrite (IH (S k)) by (intros; apply H; lia). done.
Qed.

Lemma index_lookup {A} (v : list A) i a : v !! i = Some a -> index v i = Ok a.
Proof. intros H. unfold index. by rewrite H. Qed.

Lemma write_vector {A} (c : codec A) (v : list A) :
  write (ser_vector c) v = WriteCompactSize (Z.of_nat (length v)) ++ concat (map (write c) v).
Proof. done. Qed.

Lemma take1_drop {A} (v : list A) i a : v !! i = Some a -> take 1 (drop i v) = [a].
Proof. intros H. by rewrite (drop_S v a i H). Qed.

Section LegacyProof.
Context (script code : bytes) (tx : CTransaction) (nIn : nat) (nHashType : Z).
Context (Hcode : strip_separators script = Some code).
Local Abbreviation s := (CTransactionSignatureSerializer tx script nIn nHashType).

Lemma SerializeInput_spec i txin :
  vin tx !! (if anyone_can_pay nHashType then nIn else i) = Some txin ->
  SerializeInput s i = Ok (write ser_txin (legacy_input code nIn nHashType (if anyone_can_pay nHashType then nIn else i) txin)).
Proof using Hcode.
  intros Hi. unfold SerializeInput. cbn [CTransactionSignatureSerializer fAnyoneCanPay ss_nIn ss_txTo ss_scriptCode fHashSingle fHashNone].
  set (j := if anyone_can_pay nHashType then nIn else i) in *. rewrite (index_lookup _ _ _ Hi). cbn [mbind result_bind].
  unfold legacy_input. rewrite (SerializeScriptCode_spec _ _ Hcode).
  destruct (Nat.eqb_spec j nIn) as [->|Hne]; [by rewrite decide_True by done|]. rewrite decide_False by done.
  cbn [negb andb write ser_txin prevout scriptSig nSequence]. by destruct (_ || _).
Qed.

Lemma SerializeInputs_spec :
  (nIn < length (vin tx))%nat ->
  let nInputs := if anyone_can_pay nHashType then 1%nat else length (vin tx) in
  mapM (SerializeInput s) (seq 0 nInputs) = Ok (map (write ser_txin) (legacy_vin code tx nIn nHashType)) /\
  length (legacy_vin code tx nIn nHashType) = nInputs.
Proof using Hcode.
  intros Hn. unfold legacy_vin. destruct (anyone_can_pay nHashType) eqn:Ha; cbn zeta.
  - destruct (lookup_lt_is_Some_2 (vin tx) nIn Hn) as [txin Htx]. rewrite (take1_drop _ _ _ Htx).
    split; [|done]. cbn [seq mapM]. rewrite (SerializeInput_spec 0 txin) by by rewrite Ha. by rewrite Ha.
  - split; [|apply length_imap].
    rewrite (mapM_seq _ (fun i => write ser_txin (legacy_input code nIn nHashType i
      (default (mkTxIn outpoint_SetNull [] 0 []) (vin tx !! i))))).
    + f_equal. apply list_eq. intros i. rewrite !list_lookup_fmap, list_lookup_imap.
      destruct (vin tx !! i) as [txin|] eqn:Hi; cbn [fmap option_fmap option_map].
      * apply lookup_lt_Some in Hi as Hlt. by rewrite lookup_seq_lt by done; cbn; rewrite Hi.
      * apply lookup_ge_None in Hi. by rewrite lookup_seq_ge.
    + intros i Hi. destruct (lookup_lt_is_Some_2 (vin tx) i ltac:(lia)) as [txin Htx].
      rewrite (SerializeInput_spec i txin) by by rewrite Ha. by rewrite Ha, Htx.
Qed.

Lemma SerializeOutputs_spec :
  hash_single nHashType = false \/ (nIn < length (vout tx))%nat ->
  let nOutputs := if hash_none nHashType then 0%nat else if hash_single nHashType then S nIn else length (vout tx) in
  mapM (SerializeOutput s) (seq 0 nOutputs) = Ok (map (write ser_txout) (legacy_vout tx nIn nHashType)) /\
  length (legacy_vout tx nIn nHashType) = nOutputs.
Proof.
  intros Hn. unfold legacy_vout. destruct (hash_none nHashType) eqn:Hno; [done|]. cbn zeta.
  destruct (hash_single nHashType) eqn:Hsi.
  - destruct Hn as [|Hn]; [done|]. destruct (lookup_lt_is_Some_2 (vout tx) nIn Hn) as [txout Htx].
    rewrite (take1_drop _ _ _ Htx). split; [|rewrite length_app, length_replicate; cbn; lia].
    rewrite (mapM_seq _ (fun i => write ser_txout (if decide (i = nIn) then txout else txout_SetNull))).
    + f_equal. rewrite seq_S, !map_app. cbn [map plus].
      rewrite decide_True by done. f_equal. apply list_eq. intros i. rewrite !list_lookup_fmap.
      destruct (decide (i < nIn)%nat).
      * rewrite lookup_seq_lt, lookup_replicate_2 by done. cbn. by rewrite decide_False by lia.
      * rewrite lookup_seq_ge by lia. assert (Hr : replicate nIn txout_SetNull !! i = None) by (apply lookup_ge_None; rewrite length_replicate; lia).
        by rewrite Hr.
    + intros i Hi. unfold SerializeOutput.
      cbn [CTransactionSignatureSerializer fHashSingle ss_nIn ss_txTo]. rewrite Hsi. cbn [andb].
      destruct (Nat.eqb_spec i nIn) as [->|]; cbn [negb].
      * rewrite decide_True by done. by rewrite (index_lookup _ _ _ Htx).
      * by rewrite decide_False by done.
  - split; [|done]. rewrite (mapM_seq _ (fun i => write ser_txout (default txout_SetNull (vout tx !! i)))).
    + f_equal. apply list_eq. intros i. rewrite !list_lookup_fmap.
      destruct (vout tx !! i) as [txout|] eqn:Hi; cbn [fmap option_fmap option_map].
      * apply lookup_lt_Some in Hi as Hlt. rewrite lookup_seq_lt by done. cbn. by rewrite Hi.
      * apply lookup_ge_None in Hi. by rewrite lookup_seq_ge.
    + intros i Hi. unfold SerializeOutput. cbn [CTransactionSignatureSerializer fHashSingle ss_nIn ss_txTo]. rewrite Hsi.
      destruct (lookup_lt_is_Some_2 (vout tx) i ltac:(lia)) as [txout Htx]. cbn [andb].
      by rewrite (index_lookup _ _ _ Htx), Htx.
Qed.

Lemma sig_serialize_spec :
  (nIn < length (vin tx))%nat -> hash_single nHashType = false \/ (nIn < length (vout tx))%nat ->
  sig_serialize s = Ok (SerializeTransaction false (legacy_tx code tx nIn nHashType)).
Proof using Hcode.
  intros H1 H2. unfold sig_serialize. cbn [CTransactionSignatureSerializer fAnyoneCanPay ss_nIn ss_txTo fHashSingle fHashNone].
  destruct (SerializeInputs_spec H1) as [E1 L1]. destruct (SerializeOutputs_spec H2) as [E2 L2]. cbn zeta in *.
  rewrite E1. cbn [mbind result_bind]. rewrite E2. cbn [mbind result_bind]. rewrite <- L1, <- L2.
  unfold SerializeTransaction. cbn [legacy_tx vin vout nVersion nLockTime]. change (negb (0 =? 0)) with false.
  change (negb (Z.land 0 1 =? 0)) with false. cbn iota. cbn [app]. unfold ser_vin, ser_vout.
  rewrite !write_vector. by rewrite <- !app_assoc.
Qed.
End LegacyProof.

(** ** The cache *)

Lemma cached_precompute tx field compute :
  (HasWitness tx = true -> field (precompute tx) = compute) -> cached (Some (precompute tx)) field compute = compute.
Proof. unfold precompute, cached. destruct (HasWitness tx); cbn; auto. Qed.

Lemma witness_preimage_cache code tx nIn nHashType amount :
  witness_preimage code tx nIn nHashType amount (Some (precompute tx)) =
  witness_preimage code tx nIn nHashType amount None.
Proof.
  unfold witness_preimage.
  rewrite !cached_precompute by (unfold precompute; by intros ->). cbn [cached]. reflexivity.
Qed.

(** ** Commitment *)

Lemma write_app_inj {A} (c : codec A) ok `{!CodecOk c ok} a b r r' :
  ok a -> ok b -> write c a ++ r = write c b ++ r' -> a = b /\ r = r'.
Proof.
  intros Ha Hb H. apply (f_equal (read c)) in H. rewrite !(read_write (c := c) (ok := ok)) in H by done. by injection H.
Qed.

Lemma write_nonempty {A} (c : codec A) ok `{!CodecOk c ok} a b : ok a -> ok b -> a <> b -> write c a <> [].
Proof.
  intros Ha Hb Hne E. apply Hne. pose proof (read_write (c := c) a (write c b) Ha) as H1.
  rewrite E in H1. cbn [app] in H1. pose proof (read_write (c := c) b [] Hb) as H2. rewrite app_nil_r in H2. congruence.
Qed.

Lemma concat_write_inj {A} (c : codec A) ok `{!CodecOk c ok} l : forall l',
  (forall a, ok a -> write c a <> []) -> Forall ok l -> Forall ok l' ->
  concat (map (write c) l) = concat (map (write c) l') -> l = l'.
Proof.
  induction l as [|a l IH]; intros [|b l'] Hne H1 H2 E; cbn [map concat] in E; try done.
  - apply Forall_cons in H2 as [Hb _]. symmetry in E. apply app_eq_nil in E as [E _]. by destruct (Hne b Hb).
  - apply Forall_cons in H1 as [Ha _]. apply app_eq_nil in E as [E _]. by destruct (Hne a Ha).
  - apply Forall_cons in H1 as [Ha H1]. apply Forall_cons in H2 as [Hb H2].
    apply (write_app_inj c ok) in E as [-> E]; [|done|done]. f_equal. by apply IH.
Qed.

Lemma HashN_inj xs ys ds ds' : concat ds ∈ xs -> concat ds' ∈ ys -> HashN ds = HashN ds' -> concat ds = concat ds' \/ collides xs ys.
Proof. intros Hx Hy. rewrite !HashN_spec. intros H. apply Hash_binding; [done|done|]. by rewrite !Hash_spec. Qed.

Lemma HashN_flat ds : flat_ok 32 (HashN ds).
Proof. rewrite HashN_spec. split; [apply sha256_digest|apply (sha256_digest (sha256 (concat ds)))]. Qed.

Lemma null_flat : flat_ok 32 null_uint256.
Proof. split; [done|]. apply Forall_replicate. split; done. Qed.

Lemma HashN_inj_vector {A B} (c : codec B) ok `{!CodecOk c ok} (f : A -> B) xs ys l l' :
  (forall b, ok b -> write c b <> []) -> Forall (ok ∘ f) l -> Forall (ok ∘ f) l' ->
  concat (map (fun a => write c (f a)) l) ∈ xs -> concat (map (fun a => write c (f a)) l') ∈ ys ->
  HashN (map (fun a => write c (f a)) l) = HashN (map (fun a => write c (f a)) l') -> f <$> l = f <$> l' \/ collides xs ys.
Proof.
  intros Hne H1 H2 Hx Hy [E|]%(HashN_inj xs ys); [|by right|done|done]. left. apply (concat_write_inj c ok); [done|by apply Forall_fmap..|].
  by rewrite !map_map.
Qed.

Lemma written_nonempty :
  (forall o, write ser_outpoint o <> []) /\ (forall n, write ser_uint32 n <> []) /\ (forall o, write ser_txout o <> []).
Proof.
  cbn [write ser_outpoint ser_uint32 ser_txout ser_uint256 ser_flat ser_int64 ser_script]. unfold ser_writedata32, ser_writedata64.
  split_and!.
  - intros o E%app_eq_nil. destruct E as [_ E]. apply (f_equal length) in E. by rewrite le_split_length in E.
  - intros n E. apply (f_equal length) in E. by rewrite le_split_length in E.
  - intros o E%app_eq_nil. destruct E as [E _]. apply (f_equal length) in E. by rewrite le_split_length in E.
Qed.

Definition sighash_args_ok (code : bytes) (tx : CTransaction) (nHashType amount : Z) : Prop :=
  blob_ok code /\ tx_ok tx /\ is_i32 nHashType /\ is_i64 amount.

Definition outputs_part (tx : CTransaction) (nIn : nat) (nHashType : Z) : bytes :=
  if negb (hash_single nHashType) && negb (hash_none nHashType) then GetOutputsHash tx
  else if hash_single nHashType
  then match vout tx !! nIn with Some txout => HashN [write ser_txout txout] | None => null_uint256 end
  else null_uint256.

Definition prevouts_part (tx : CTransaction) (nHashType : Z) : bytes :=
  if negb (anyone_can_pay nHashType) then GetPrevoutHash tx else null_uint256.
Definition sequence_part (tx : CTransaction) (nHashType : Z) : bytes :=
  if negb (anyone_can_pay nHashType) && negb (hash_single nHashType) && negb (hash_none nHashType)
  then GetSequenceHash tx else null_uint256.

Lemma witness_preimage_spec code tx nIn nHashType amount txin :
  vin tx !! nIn = Some txin ->
  witness_preimage code tx nIn nHashType amount None =
  Ok [write ser_int32 (nVersion tx); write ser_uint256 (prevouts_part tx nHashType);
      write ser_uint256 (sequence_part tx nHashType);
      write ser_outpoint (prevout txin); write ser_script code; write ser_int64 amount;
      write ser_uint32 (nSequence txin); write ser_uint256 (outputs_part tx nIn nHashType);
      write ser_uint32 (nLockTime tx); write ser_int32 nHashType].
Proof.
  intros Hi. unfold witness_preimage, outputs_part, prevouts_part, sequence_part. rewrite (index_lookup _ _ _ Hi). cbn [cached].
  destruct (hash_single nHashType) eqn:Hs; cbn [negb andb]; [|by destruct (hash_none nHashType)].
  destruct (Nat.ltb_spec nIn (length (vout tx))) as [Hl|Hl].
  - destruct (lookup_lt_is_Some_2 (vout tx) nIn Hl) as [txout Ho]. by rewrite (index_lookup _ _ _ Ho), Ho.
  - by rewrite (proj2 (lookup_ge_None (vout tx) nIn) Hl).
Qed.

Lemma parts_flat tx nIn nHashType :
  flat_ok 32 (prevouts_part tx nHashType) /\ flat_ok 32 (sequence_part tx nHashType) /\
  flat_ok 32 (outputs_part tx nIn nHashType).
Proof.
  unfold prevouts_part, sequence_part, outputs_part, GetPrevoutHash, GetSequenceHash, GetOutputsHash.
  pose proof null_flat. pose proof HashN_flat. split_and!; repeat case_match; auto.
Qed.

Lemma tx_ok_parts tx :
  tx_ok tx ->
  Forall (outpoint_ok ∘ prevout) (vin tx) /\ Forall (is_u32 ∘ nSequence) (vin tx) /\ Forall txout_ok (vout tx).
Proof.
  intros ((_ & Hv) & _ & (_ & Ho) & _). split_and!; [| |done]; (eapply Forall_impl; [exact Hv|]);
    intros [o g q w] (H1 & _ & H2 & _); done.
Qed.

(** Equal preimages have equal parts. *)
Lemma witness_parts_inj v1 v2 p1 p2 q1 q2 o1 o2 c1 c2 a1 a2 s1 s2 u1 u2 l1 l2 t1 t2 :
  is_i32 v1 -> is_i32 v2 -> flat_ok 32 p1 -> flat_ok 32 p2 -> flat_ok 32 q1 -> flat_ok 32 q2 ->
  outpoint_ok o1 -> outpoint_ok o2 -> blob_ok c1 -> blob_ok c2 -> is_i64 a1 -> is_i64 a2 -> is_u32 s1 -> is_u32 s2 ->
  flat_ok 32 u1 -> flat_ok 32 u2 -> is_u32 l1 -> is_u32 l2 -> is_i32 t1 -> is_i32 t2 ->
  concat [write ser_int32 v1; write ser_uint256 p1; write ser_uint256 q1; write ser_outpoint o1; write ser_script c1;
          write ser_int64 a1; write ser_uint32 s1; write ser_uint256 u1; write ser_uint32 l1; write ser_int32 t1] =
  concat [write ser_int32 v2; write ser_uint256 p2; write ser_uint256 q2; write ser_outpoint o2; write ser_script c2;
          write ser_int64 a2; write ser_uint32 s2; write ser_uint256 u2; write ser_uint32 l2; write ser_int32 t2] ->
  v1 = v2 /\ p1 = p2 /\ q1 = q2 /\ o1 = o2 /\ c1 = c2 /\ a1 = a2 /\ s1 = s2 /\ u1 = u2 /\ l1 = l2 /\ t1 = t2.
Proof.
  intros. cbn [concat] in *. repeat match goal with
    | H : write ?c _ ++ _ = write ?c _ ++ _ |- _ => eapply (write_app_inj c) in H as [-> H]; [|apply _|done|done]
    end. done.
Qed.

Lemma SignatureHash_witness code tx nIn nHashType amount h :
  SignatureHash code tx nIn nHashType amount SIGVERSION_WITNESS_V0 None = Ok h ->
  exists txin, vin tx !! nIn = Some txin /\ h = HashN
    [write ser_int32 (nVersion tx); write ser_uint256 (prevouts_part tx nHashType);
     write ser_uint256 (sequence_part tx nHashType);
     write ser_outpoint (prevout txin); write ser_script code; write ser_int64 amount;
     write ser_uint32 (nSequence txin); write ser_uint256 (outputs_part tx nIn nHashType);
     write ser_uint32 (nLockTime tx); write ser_int32 nHashType].
Proof.
  unfold SignatureHash. destruct (Nat.ltb_spec nIn (length (vin tx))) as [Hl|]; [|done]. cbn [negb].
  destruct (lookup_lt_is_Some_2 (vin tx) nIn Hl) as [txin Hi]. rewrite (witness_preimage_spec _ _ _ _ _ _ Hi).
  cbn [mbind result_bind]. intros H. exists txin. split; [done|]. congruence.
Qed.

(** What the hash of the type [nHashType] fixes of a transaction. *)
Definition same_commitment (nHashType : Z) (tx1 tx2 : CTransaction) (n1 n2 : nat) : Prop :=
  nVersion tx1 = nVersion tx2 /\ nLockTime tx1 = nLockTime tx2 /\
  (fun i => (prevout i, nSequence i)) <$> vin tx1 !! n1 = (fun i => (prevout i, nSequence i)) <$> vin tx2 !! n2 /\
  (anyone_can_pay nHashType = false -> prevout <$> vin tx1 = prevout <$> vin tx2) /\
  (anyone_can_pay nHashType = false -> hash_single nHashType = false -> hash_none nHashType = false ->
   nSequence <$> vin tx1 = nSequence <$> vin tx2) /\
  (hash_single nHashType = false -> hash_none nHashType = false -> vout tx1 = vout tx2) /\
  (hash_single nHashType = true -> (n1 < length (vout tx1))%nat -> (n2 < length (vout tx2))%nat ->
   vout tx1 !! n1 = vout tx2 !! n2).

(** The strings that are hashed for a signature: the parts of the transaction, and what is
    signed. *)
Definition prevouts_strings (tx : CTransaction) (nHashType : Z) : list bytes :=
  if negb (anyone_can_pay nHashType) then [concat (map (fun txin => write ser_outpoint (prevout txin)) (vin tx))] else [].
Definition sequence_strings (tx : CTransaction) (nHashType : Z) : list bytes :=
  if negb (anyone_can_pay nHashType) && negb (hash_single nHashType) && negb (hash_none nHashType)
  then [concat (map (fun txin => write ser_uint32 (nSequence txin)) (vin tx))] else [].
Definition outputs_strings (tx : CTransaction) (nIn : nat) (nHashType : Z) : list bytes :=
  if negb (hash_single nHashType) && negb (hash_none nHashType) then [concat (map (write ser_txout) (vout tx))]
  else if hash_single nHashType then match vout tx !! nIn with Some txout => [concat [write ser_txout txout]] | None => [] end
  else [].
Definition signed_strings (code : bytes) (tx : CTransaction) (nIn : nat) (nHashType amount : Z) : list bytes :=
  match witness_preimage code tx nIn nHashType amount None with Ok parts => [concat parts] | Err _ => [] end
  ++ prevouts_strings tx nHashType ++ sequence_strings tx nHashType ++ outputs_strings tx nIn nHashType.

Lemma prevouts_part_inj t tx1 tx2 :
  tx_ok tx1 -> tx_ok tx2 -> prevouts_part tx1 t = prevouts_part tx2 t ->
  (anyone_can_pay t = false -> prevout <$> vin tx1 = prevout <$> vin tx2) \/ collides (prevouts_strings tx1 t) (prevouts_strings tx2 t).
Proof.
  intros H1%tx_ok_parts H2%tx_ok_parts. unfold prevouts_part, prevouts_strings. destruct (anyone_can_pay t); [by left|]. cbn [negb].
  intros E. eapply (HashN_inj_vector ser_outpoint outpoint_ok prevout) in E; [|by intros; apply written_nonempty|apply H1|apply H2|by left|by left].
  destruct E; [by left|by right].
Qed.

Lemma sequence_part_inj t tx1 tx2 :
  tx_ok tx1 -> tx_ok tx2 -> sequence_part tx1 t = sequence_part tx2 t ->
  (anyone_can_pay t = false -> hash_single t = false -> hash_none t = false ->
   nSequence <$> vin tx1 = nSequence <$> vin tx2) \/ collides (sequence_strings tx1 t) (sequence_strings tx2 t).
Proof.
  intros H1%tx_ok_parts H2%tx_ok_parts. unfold sequence_part, sequence_strings.
  destruct (anyone_can_pay t), (hash_single t), (hash_none t); try by left. cbn [negb andb].
  intros E. eapply (HashN_inj_vector ser_uint32 is_u32 nSequence) in E; [|by intros; apply written_nonempty|apply H1|apply H2|by left|by left].
  destruct E; [by left|by right].
Qed.

Lemma outputs_part_inj t tx1 tx2 n1 n2 :
  tx_ok tx1 -> tx_ok tx2 -> outputs_part tx1 n1 t = outputs_part tx2 n2 t ->
  ((hash_single t = false -> hash_none t = false -> vout tx1 = vout tx2) /\
   (hash_single t = true -> (n1 < length (vout tx1))%nat -> (n2 < length (vout tx2))%nat ->
    vout tx1 !! n1 = vout tx2 !! n2)) \/ collides (outputs_strings tx1 n1 t) (outputs_strings tx2 n2 t).
Proof.
  intros H1%tx_ok_parts H2%tx_ok_parts. unfold outputs_part, outputs_strings. destruct (hash_single t); cbn [negb andb].
  - destruct (vout tx1 !! n1) as [o1|] eqn:E1, (vout tx2 !! n2) as [o2|] eqn:E2.
    + intros E. assert (Hok : txout_ok o1 /\ txout_ok o2).
      { split; [apply (Forall_lookup_1 _ _ _ _ (proj2 (proj2 H1)) E1)|apply (Forall_lookup_1 _ _ _ _ (proj2 (proj2 H2)) E2)]. }
      eapply HashN_inj in E as [E|E]; [|right; exact E|by left|by left]. cbn [concat] in E. left. split; [done|]. intros _ _ _. f_equal.
      by apply (write_app_inj ser_txout txout_ok) in E as [E _]; destruct Hok.
    + intros _. left. split; [done|]. intros _ _ Hl. apply lookup_ge_None in E2. lia.
    + intros _. left. split; [done|]. intros _ Hl. apply lookup_ge_None in E1. lia.
    + intros _. left. done.
  - destruct (hash_none t); [by left|]. cbn [negb].
    intros E. eapply (HashN_inj_vector ser_txout txout_ok id) in E; [|by intros; apply written_nonempty|apply H1|apply H2|by left|by left].
    rewrite !list_fmap_id in E. destruct E; [left|by right]. done.
Qed.

(** ** The checker answers *)

Lemma mapM_ok {A} (f : nat -> result fault A) n : forall k,
  (forall i, (k <= i < k + n)%nat -> is_ok (f i) = true) -> is_ok (mapM f (seq k n)) = true.
Proof.
  induction n as [|n IH]; intros k H; [done|]. cbn [seq mapM]. specialize (H k ltac:(lia)) as Hk.
  destruct (f k); [|done]. cbn [mbind result_bind]. specialize (IH (S k) ltac:(intros; apply H; lia)).
  by destruct (mapM f (seq (S k) n)).
Qed.

Lemma index_in_range {A} (v : list A) i : (i < length v)%nat -> is_ok (index v i) = true.
Proof. intros Hl. destruct (lookup_lt_is_Some_2 v i Hl) as [a Ha]. by rewrite (index_lookup _ _ _ Ha). Qed.

Lemma is_ok_bind {A B} (m : result fault A) (f : A -> result fault B) :
  is_ok m = true -> (forall a, is_ok (f a) = true) -> is_ok (m ≫= f) = true.
Proof. intros H1 H2. destruct m; [apply H2|done]. Qed.

Lemma sig_serialize_ok script tx nIn nHashType :
  (nIn < length (vin tx))%nat -> hash_single nHashType = false \/ (nIn < length (vout tx))%nat ->
  is_ok (sig_serialize (CTransactionSignatureSerializer tx script nIn nHashType)) = true.
Proof.
  intros H1 H2. unfold sig_serialize. cbn [CTransactionSignatureSerializer fAnyoneCanPay ss_nIn ss_txTo fHashSingle fHashNone].
  apply is_ok_bind; [|intros ?; apply is_ok_bind; [|done]]; apply mapM_ok; intros i Hi.
  - unfold SerializeInput. cbn [CTransactionSignatureSerializer fAnyoneCanPay ss_nIn ss_txTo].
    apply is_ok_bind; [|done]. apply index_in_range. destruct (anyone_can_pay nHashType); lia.
  - unfold SerializeOutput. cbn [CTransactionSignatureSerializer fHashSingle ss_nIn ss_txTo].
    destruct (hash_single nHashType) eqn:Hs; cbn [andb].
    + destruct (Nat.eqb_spec i nIn) as [->|]; [|done]. apply is_ok_bind; [|done]. apply index_in_range. by destruct H2.
    + apply is_ok_bind; [|done]. apply index_in_range. destruct (hash_none nHashType); cbn in Hi; lia.
Qed.

Lemma SignatureHash_ok code tx nIn nHashType amount sigversion cache :
  (nIn < length (vin tx))%nat -> is_ok (SignatureHash code tx nIn nHashType amount sigversion cache) = true.
Proof.
  intros Hn. unfold SignatureHash. destruct (Nat.ltb_spec nIn (length (vin tx))); [|lia]. cbn [negb]. destruct sigversion.
  - destruct (hash_single nHashType) eqn:Hs; cbn [andb].
    + destruct (Nat.leb_spec (length (vout tx)) nIn); [done|]. apply is_ok_bind; [|done].
      apply sig_serialize_ok; [done|by right].
    + apply is_ok_bind; [|done]. apply sig_serialize_ok; [done|by left].
  - apply is_ok_bind; [|done]. unfold witness_preimage. apply is_ok_bind; [|intros ?; apply is_ok_bind; [by apply index_in_range|done]].
    case_match; [done|]. destruct (hash_single nHashType); [|done]. cbn [andb].
    destruct (Nat.ltb_spec nIn (length (vout tx))); [|done]. apply is_ok_bind; [by apply index_in_range|done].
Qed.

(** The checker of a transaction has an answer for every input it has. *)
Lemma transaction_checker_total `{Ecdsa} t : (nIn t < length (vin (txTo t)))%nat -> CheckerTotal (transaction_checker t).
Proof.
  intros Hn. split; cbn [CheckSig CheckLockTime CheckSequence transaction_checker].
  - intros sig key code v. unfold tsc_CheckSig. case_match; [done|]. case_match; [|done].
    apply is_ok_bind; [by apply SignatureHash_ok|done].
  - intros n. unfold tsc_CheckLockTime. case_match; [done|]. case_match; [done|].
    apply is_ok_bind; [by apply index_in_range|done].
  - intros n. unfold tsc_CheckSequence. apply is_ok_bind; [by apply index_in_range|]. intros. by repeat case_match.
Qed.

(** ** Properties *)

(** C28: the two signature hashes compute what they are documented to.  For a script
    that parses, the original hash, computed by serializing on the fly, is the double
    SHA-256 of the modified transaction (other inputs' scripts blanked, the separators
    dropped from the signed script, inputs and outputs cut down as the hash type says)
    followed by the hash type, or one when SINGLE has no output to sign; and the hash of
    witness programs is the same with the cache of the transaction as without. *)
Theorem signature_hash_equivalence (script code : bytes) (tx : CTransaction) (nIn : nat) (nHashType amount : Z) :
  (nIn < length (vin tx))%nat ->
  (forall cache, strip_separators script = Some code ->
    SignatureHash script tx nIn nHashType amount SIGVERSION_BASE cache =
    Ok (if hash_single nHashType && (length (vout tx) <=? nIn)%nat then uint256_one
        else Hash (SerializeTransaction false (legacy_tx code tx nIn nHashType) ++ write ser_int32 nHashType))) /\
  SignatureHash script tx nIn nHashType amount SIGVERSION_WITNESS_V0 (Some (precompute tx)) =
  SignatureHash script tx nIn nHashType amount SIGVERSION_WITNESS_V0 None.
Proof.
  intros Hn. split.
  - intros cache Hc. unfold SignatureHash. destruct (Nat.ltb_spec nIn (length (vin tx))); [|lia]. cbn [negb].
    destruct (hash_single nHashType && (length (vout tx) <=? nIn)%nat) eqn:Hs; [done|].
    rewrite (sig_serialize_spec script code tx nIn nHashType Hc Hn).
    + cbn [mbind result_bind]. f_equal. rewrite HashN_spec, Hash_spec. cbn [concat]. by rewrite app_nil_r.
    + destruct (hash_single nHashType); [right|by left]. cbn [andb] in Hs. by apply Nat.leb_gt in Hs.
  - unfold SignatureHash. by rewrite witness_preimage_cache.
Qed.

Lemma signature_hash_equivalence_witness :
  SignatureHash [opcode_value OP_CODESEPARATOR; opcode_value OP_1] ex_tx 0 SIGHASH_ALL 0 SIGVERSION_BASE None =
  Ok (if hash_single SIGHASH_ALL && (length (vout ex_tx) <=? 0)%nat then uint256_one
      else Hash (SerializeTransaction false (legacy_tx [opcode_value OP_1] ex_tx 0 SIGHASH_ALL) ++ write ser_int32 SIGHASH_ALL)).
Proof.
  refine (proj1 (signature_hash_equivalence [opcode_value OP_CODESEPARATOR; opcode_value OP_1] [opcode_value OP_1]
    ex_tx 0 SIGHASH_ALL 0 _) None _).
  - cbn. lia.
  - reflexivity.
Defined.

(** C29: a signature over a witness program commits to what its hash type says.  Two
    signings with the same hash have the same hash type, script code and amount, and
    their transactions have the same version, lock time, outpoint and sequence number of
    the signed input; all outpoints unless ANYONECANPAY, all sequence numbers with ALL,
    all outputs with ALL and the output of the input with SINGLE; or a string hashed for
    the one signing and a different string hashed for the other, of those that
    [signed_strings] lists, have the same double SHA-256. *)
Theorem witness_signature_commits (code1 code2 : bytes) (tx1 tx2 : CTransaction) (n1 n2 : nat) (t1 t2 a1 a2 : Z) (h : bytes) :
  sighash_args_ok code1 tx1 t1 a1 -> sighash_args_ok code2 tx2 t2 a2 ->
  SignatureHash code1 tx1 n1 t1 a1 SIGVERSION_WITNESS_V0 None = Ok h ->
  SignatureHash code2 tx2 n2 t2 a2 SIGVERSION_WITNESS_V0 None = Ok h ->
  (t1 = t2 /\ code1 = code2 /\ a1 = a2 /\ same_commitment t1 tx1 tx2 n1 n2)
  \/ collides (signed_strings code1 tx1 n1 t1 a1) (signed_strings code2 tx2 n2 t2 a2).
Proof.
  intros (Hc1 & Ht1 & Hh1 & Ha1) (Hc2 & Ht2 & Hh2 & Ha2)
    (i1 & Hi1 & ->)%SignatureHash_witness (i2 & Hi2 & E)%SignatureHash_witness.
  unfold signed_strings. rewrite (witness_preimage_spec _ _ _ _ _ _ Hi1), (witness_preimage_spec _ _ _ _ _ _ Hi2).
  eapply HashN_inj in E as [E'|E']; [|right; exact E'|by left|by left].
  pose proof (tx_ok_parts tx1 Ht1) as (P1 & S1 & _). pose proof (tx_ok_parts tx2 Ht2) as (P2 & S2 & _).
  destruct (parts_flat tx1 n1 t1) as (F1 & F2 & F3). destruct (parts_flat tx2 n2 t2) as (G1 & G2 & G3).
  apply witness_parts_inj in E' as (Ev & Ep & Eq & Eo & Ec & Ea & Es & Eu & El & Et); try done;
    try apply Ht1; try apply Ht2; try by apply (Forall_lookup_1 _ _ _ _ P1 Hi1) || apply (Forall_lookup_1 _ _ _ _ P2 Hi2)
      || apply (Forall_lookup_1 _ _ _ _ S1 Hi1) || apply (Forall_lookup_1 _ _ _ _ S2 Hi2).
  subst t2. apply prevouts_part_inj in Ep; [|done|done]. apply sequence_part_inj in Eq; [|done|done].
  apply outputs_part_inj in Eu; [|done|done].
  destruct Ep as [Ep|C]; [|right; eapply collides_mono; [..|exact C]; sub_list].
  destruct Eq as [Eq|C]; [|right; eapply collides_mono; [..|exact C]; sub_list].
  destruct Eu as [[Eu1 Eu2]|C]; [|right; eapply collides_mono; [..|exact C]; sub_list].
  left. split_and!; try done. unfold same_commitment. rewrite Hi1, Hi2. cbn. split_and!; try done. congruence.
Qed.

Lemma witness_signature_commits_witness :
  (SIGHASH_ALL = SIGHASH_ALL /\ [opcode_value OP_1] = [opcode_value OP_1] /\ 5 = 5 /\ same_commitment SIGHASH_ALL ex_tx ex_tx 0 0) \/
  collides (signed_strings [opcode_value OP_1] ex_tx 0 SIGHASH_ALL 5) (signed_strings [opcode_value OP_1] ex_tx 0 SIGHASH_ALL 5).
Proof.
  assert (Hok : sighash_args_ok [opcode_value OP_1] ex_tx SIGHASH_ALL 5).
  { split_and!; [|exact ex_tx_ok|split; done|split; done]. split; [done|by repeat constructor]. }
  destruct (SignatureHash [opcode_value OP_1] ex_tx 0 SIGHASH_ALL 5 SIGVERSION_WITNESS_V0 None) as [h|] eqn:E.
  - exact (witness_signature_commits [opcode_value OP_1] [opcode_value OP_1] ex_tx ex_tx 0 0 SIGHASH_ALL SIGHASH_ALL 5 5 h
      Hok Hok E E).
  - assert (Ho := SignatureHash_ok [opcode_value OP_1] ex_tx 0 SIGHASH_ALL 5 SIGVERSION_WITNESS_V0 None ltac:(cbn; lia)).
    rewrite E in Ho. discriminate Ho.
Defined.
