(* ===== verification/TxVerify.v ===== *)
(** * Contextual transaction checks: [src/consensus/tx_verify.cpp]

    Absolute and relative lock times, the signature-operation cost and the value
    balance of a transaction.  The coins an input spends are read through
    [AccessCoin], an argument here; the coins cache that provides it is the
    component of [Coins.v].  [CheckTransaction] and [CheckTxAssets] are in the
    files on assets. *)

From S2P Require Import Prelude ArithUint256 Chain MedianTime Params Serialize Script Transaction Compressor.
From S2P Require Import Interpreter EvalSafety SigHash.

(** ** Verdicts *)

(** How a check ends when it does not accept: [CValidationState] is marked invalid
    with a misbehaviour score and a reason, an exception is thrown, or the program
    aborts. *)
Inductive check_exit :=
| Reject (nDoS : Z) (reason : string)
| ThrowOutOfRange
| Halt (f : fault).

Abbreviation check A := (result check_exit A).

Definition DoS {A} (level : Z) (reason : string) : check A := Err (Reject level reason).
Definition reject_if (b : bool) (level : Z) (reason : string) : check unit := if b then DoS level reason else Ok tt.
Definition halting {A} (m : result fault A) : check A :=
  match m with Ok a => Ok a | Err f => Err (Halt f) end.

(** ** Absolute lock times *)

Definition IsFinalTx (tx : CTransaction) (nBlockHeight nBlockTime : Z) : bool :=
  if nLockTime tx =? 0 then true
  else if nLockTime tx <? (if nLockTime tx <? LOCKTIME_THRESHOLD then nBlockHeight else nBlockTime) then true
  else forallb (fun txin => nSequence txin =? SEQUENCE_FINAL) (vin tx).

(** ** Relative lock times *)

Definition LOCKTIME_VERIFY_SEQUENCE : Z := Z.shiftl 1 0.
Definition LOCKTIME_MEDIAN_TIME_PAST : Z := Z.shiftl 1 1.

Definition seq_disabled (txin : CTxIn) : bool := negb (Z.land (nSequence txin) SEQUENCE_LOCKTIME_DISABLE_FLAG =? 0).
Definition seq_is_time (txin : CTxIn) : bool := negb (Z.land (nSequence txin) SEQUENCE_LOCKTIME_TYPE_FLAG =? 0).
Definition seq_value (txin : CTxIn) : Z := Z.land (nSequence txin) SEQUENCE_LOCKTIME_MASK.

(** The loop over the inputs; the heights of inputs without a relative lock time are
    overwritten with zero. *)
Fixpoint sequence_locks_loop (mem : heap) (block : ptr) (ins : list CTxIn) (prevHeights : list Z)
  (nMinHeight nMinTime : Z) : result fault (Z * Z * list Z) :=
  match ins, prevHeights with
  | txin :: ins, nCoinHeight :: prevHeights =>
    if seq_disabled txin then
      let* (mh, mt, hs) := sequence_locks_loop mem block ins prevHeights nMinHeight nMinTime in
      Ok (mh, mt, 0 :: hs)
    else if seq_is_time txin then
      anc ← GetAncestor mem block (Z.max (i32 (nCoinHeight - 1)) 0);
      p ← match anc with Some p => Ok p | None => Err NullDereference end;
      nCoinTime ← GetMedianTimePast mem p;
      let lock := i64 (nCoinTime + u32 (Z.shiftl (seq_value txin) SEQUENCE_LOCKTIME_GRANULARITY) - 1) in
      let* (mh, mt, hs) := sequence_locks_loop mem block ins prevHeights nMinHeight (Z.max nMinTime lock) in
      Ok (mh, mt, nCoinHeight :: hs)
    else
      let lock := i32 (nCoinHeight + seq_value txin - 1) in
      let* (mh, mt, hs) := sequence_locks_loop mem block ins prevHeights (Z.max nMinHeight lock) nMinTime in
      Ok (mh, mt, nCoinHeight :: hs)
  | _, _ => Ok (nMinHeight, nMinTime, prevHeights)
  end.

Definition fEnforceBIP68 (tx : CTransaction) (flags : Z) : bool :=
  (u32 (nVersion tx) >=? 2) && negb (Z.land flags LOCKTIME_VERIFY_SEQUENCE =? 0).

(** The pair of minimal height and time, and the updated [prevHeights]. *)
Definition CalculateSequenceLocks (mem : heap) (tx : CTransaction) (flags : Z) (prevHeights : list Z)
  (block : ptr) : result fault (Z * Z * list Z) :=
  if negb (length prevHeights =? length (vin tx))%nat then Err AssertFailure
  else if negb (fEnforceBIP68 tx flags) then Ok (-1, -1, prevHeights)
  else sequence_locks_loop mem block (vin tx) prevHeights (-1) (-1).

Definition EvaluateSequenceLocks (mem : heap) (block : ptr) (lockPair : Z * Z) : result fault bool :=
  b ← deref mem block;
  match pprev b with
  | None => Err AssertFailure
  | Some q =>
    nBlockTime ← GetMedianTimePast mem q;
    Ok (negb ((lockPair.1 >=? nHeight b) || (lockPair.2 >=? nBlockTime)))
  end.

Definition SequenceLocks (mem : heap) (tx : CTransaction) (flags : Z) (prevHeights : list Z) (block : ptr)
  : result fault (bool * list Z) :=
  let* (mh, mt, hs) := CalculateSequenceLocks mem tx flags prevHeights block in
  b ← EvaluateSequenceLocks mem block (mh, mt);
  Ok (b, hs).

(** ** Signature operations *)

Definition GetLegacySigOpCount (tx : CTransaction) : Z :=
  let n := foldl (fun n txin => u32 (n + GetSigOpCount (scriptSig txin) false)) 0 (vin tx) in
  foldl (fun n txout => u32 (n + GetSigOpCount (scriptPubKey txout) false)) n (vout tx).

Section Inputs.
(** [inputs.AccessCoin]: the coin of an outpoint, empty when there is none. *)
Context (AccessCoin : COutPoint -> Coin).

(** [inputs.HaveInputs(tx)]: [HaveCoin] for every input of a non-coinbase. *)
Definition HaveInputs (tx : CTransaction) : bool :=
  IsCoinBase tx || forallb (fun txin => negb (IsSpent (AccessCoin (prevout txin)))) (vin tx).

Fixpoint p2sh_sigops_loop (ins : list CTxIn) (nSigOps : Z) : result fault Z :=
  match ins with
  | [] => Ok nSigOps
  | txin :: ins =>
    let coin := AccessCoin (prevout txin) in
    if IsSpent coin then Err AssertFailure
    else
      let script := scriptPubKey (coin_out coin) in
      p2sh_sigops_loop ins
        (if IsPayToScriptHash script then u32 (nSigOps + GetSigOpCount_P2SH script (scriptSig txin)) else nSigOps)
  end.
Definition GetP2SHSigOpCount (tx : CTransaction) : result fault Z :=
  if IsCoinBase tx then Ok 0 else p2sh_sigops_loop (vin tx) 0.

Fixpoint witness_sigops_loop (flags : Z) (ins : list CTxIn) (nSigOps : Z) : result fault Z :=
  match ins with
  | [] => Ok nSigOps
  | txin :: ins =>
    let coin := AccessCoin (prevout txin) in
    if IsSpent coin then Err AssertFailure
    else
      n ← CountWitnessSigOps (scriptSig txin) (scriptPubKey (coin_out coin)) (scriptWitness txin) flags;
      witness_sigops_loop flags ins (i64 (nSigOps + n))
  end.
Definition GetTransactionSigOpCost (tx : CTransaction) (flags : Z) : result fault Z :=
  let nSigOps := u32 (GetLegacySigOpCount tx * WITNESS_SCALE_FACTOR) in
  if IsCoinBase tx then Ok nSigOps
  else
    nSigOps ← (if has_flag flags SCRIPT_VERIFY_P2SH then
                 n ← GetP2SHSigOpCount tx; Ok (i64 (nSigOps + u32 (n * WITNESS_SCALE_FACTOR)))
               else Ok nSigOps);
    witness_sigops_loop flags (vin tx) nSigOps.

(** ** Values *)

Fixpoint value_in_loop (nSpendHeight : Z) (ins : list CTxIn) (nValueIn : Z) : check Z :=
  match ins with
  | [] => Ok nValueIn
  | txin :: ins =>
    let coin := AccessCoin (prevout txin) in
    if IsSpent coin then Err (Halt AssertFailure)
    else
      _ ← reject_if (fCoinBase coin && (nSpendHeight - coin_nHeight coin <? COINBASE_MATURITY)) 0
            "bad-txns-premature-spend-of-coinbase";
      let nValueIn := i64 (nValueIn + nValue (coin_out coin)) in
      _ ← reject_if (negb (MoneyRange (nValue (coin_out coin))) || negb (MoneyRange nValueIn)) 100
            "bad-txns-inputvalues-outofrange";
      value_in_loop nSpendHeight ins nValueIn
  end.

(** The fee of an accepted transaction. *)
Definition CheckTxInputs (tx : CTransaction) (nSpendHeight : Z) (fAreEnforcedValues : bool) : check Z :=
  _ ← reject_if (negb (HaveInputs tx)) 100 "bad-txns-inputs-missingorspent";
  nValueIn ← value_in_loop nSpendHeight (vin tx) 0;
  value_out ← match GetValueOut fAreEnforcedValues tx with Some v => Ok v | None => Err ThrowOutOfRange end;
  _ ← reject_if (nValueIn <? value_out) 100 "bad-txns-in-belowout";
  let txfee_aux := nValueIn - value_out in
  _ ← reject_if (negb (MoneyRange txfee_aux)) 100 "bad-txns-fee-out-of-range";
  Ok txfee_aux.
End Inputs.

(** ** Relative lock times: BIP 68 *)

(** Every block time is a 32-bit number. *)
Definition times_u32 (mem : heap) : Prop := forall p b, mem !! p = Some b -> is_u32 (nTime b).

(** An input's relative lock is met in [block] (an entry at height [nHeight bb] with
    parent [parent]): an output created at height [h] is [seq_value] blocks old, or
    [seq_value] times 512 seconds old in median time past. *)
Definition lock_met (mem : heap) (block parent : ptr) (bb : CBlockIndex) (txin : CTxIn) (h : Z) : Prop :=
  if seq_disabled txin then True
  else if seq_is_time txin then
    exists anc, ancestor_at mem block (Z.max (h - 1) 0) = Some anc
      /\ mtp mem anc + 512 * seq_value txin <= mtp mem parent
  else h + seq_value txin <= nHeight bb.

Lemma mtp_u32 mem p b : times_u32 mem -> mem !! p = Some b -> is_u32 (mtp mem p).
Proof.
  intros Ht Hp. unfold mtp.
  assert (Hall : forall n q, Forall is_u32 (times_back mem n q)).
  { induction n as [|n IH]; intros [q|]; cbn; try constructor.
    destruct (mem !! q) as [bq|] eqn:E; [|constructor]. constructor; [by apply (Ht q)|apply IH]. }
  assert (Hne : times_back mem 11 (Some p) <> []) by (cbn; by rewrite Hp).
  apply median_lookup in Hne. apply list_elem_of_lookup_2 in Hne.
  rewrite merge_sort_Permutation in Hne. by eapply Forall_forall in Hne.
Qed.

Lemma seq_value_range txin : is_u32 (nSequence txin) -> 0 <= seq_value txin < 2 ^ 16.
Proof.
  intros H. unfold seq_value, SEQUENCE_LOCKTIME_MASK. change 0x0000ffff with (2 ^ 16 - 1).
  rewrite land_ones_mod by lia. apply Z.mod_pos_bound. lia.
Qed.

Lemma sequence_locks_loop_spec mem block parent bb ins : forall hs mh mt,
  index_ok mem -> times_u32 mem -> mem !! block = Some bb -> nHeight bb < 2 ^ 31 - 2 ^ 16 ->
  is_Some (mem !! parent) -> 0 <= nHeight bb -> 0 <= mtp mem parent ->
  Forall (fun txin => is_u32 (nSequence txin)) ins -> Forall (fun h => 0 <= h <= nHeight bb) hs ->
  length hs = length ins ->
  exists mh' mt', sequence_locks_loop mem block ins hs mh mt
      = Ok (mh', mt', zip_with (fun txin h => if seq_disabled txin then 0 else h) ins hs)
    /\ (mh' < nHeight bb /\ mt' < mtp mem parent <->
        (mh < nHeight bb /\ mt < mtp mem parent) /\ Forall2 (lock_met mem block parent bb) ins hs).
Proof.
  induction ins as [|txin ins IH]; intros hs mh mt Hi Ht Hb Hlt Hpar Hnh Hmp Hs Hh Hl.
  { destruct hs; [|done]. exists mh, mt. split; [done|]. split; [|tauto]. intros H. by split. }
  destruct hs as [|h hs]; [done|]. apply Forall_cons in Hs as [Hq Hs]. apply Forall_cons in Hh as [Hh0 Hh].
  injection Hl as Hl. cbn [sequence_locks_loop zip_with].
  pose proof (seq_value_range _ Hq) as Hv.
  assert (Hcons : forall mh mt mh0 mt0, (exists mh' mt', sequence_locks_loop mem block ins hs mh mt
        = Ok (mh', mt', zip_with (fun txin h => if seq_disabled txin then 0 else h) ins hs)
      /\ (mh' < nHeight bb /\ mt' < mtp mem parent <->
        (mh < nHeight bb /\ mt < mtp mem parent) /\ Forall2 (lock_met mem block parent bb) ins hs)) ->
      (mh < nHeight bb /\ mt < mtp mem parent <->
        (mh0 < nHeight bb /\ mt0 < mtp mem parent) /\ lock_met mem block parent bb txin h) ->
      forall x, exists mh' mt', (let* (a, b, l) := sequence_locks_loop mem block ins hs mh mt in Ok (a, b, x :: l))
        = Ok (mh', mt', x :: zip_with (fun txin h => if seq_disabled txin then 0 else h) ins hs)
      /\ (mh' < nHeight bb /\ mt' < mtp mem parent <->
        (mh0 < nHeight bb /\ mt0 < mtp mem parent) /\ Forall2 (lock_met mem block parent bb) (txin :: ins) (h :: hs))).
  { intros mh1 mt1 mh0 mt0 (mh' & mt' & -> & Heq) Hstep x. exists mh', mt'. split; [done|].
    rewrite Heq, Hstep, Forall2_cons. tauto. }
  destruct (seq_disabled txin) eqn:Ed; [|destruct (seq_is_time txin) eqn:Et].
  - eapply Hcons; [by apply IH|]. unfold lock_met. rewrite Ed. tauto.
  - rewrite i32_id by (ranges; lia).
    rewrite (GetAncestor_spec mem block bb) by done. cbn [mbind result_bind].
    destruct (ancestor_at_total mem block bb (Z.max (h - 1) 0)) as (anc & ba & Ha & Hba & _); [apply Hi|done|lia|].
    rewrite Ha. cbn [mbind result_bind]. rewrite (GetMedianTimePast_spec mem anc ba) by (apply Hi || done).
    cbn [mbind result_bind]. pose proof (mtp_u32 _ _ _ Ht Hba) as Hm. unfold is_u32 in Hm.
    unfold SEQUENCE_LOCKTIME_GRANULARITY. rewrite Z.shiftl_mul_pow2 by lia.
    rewrite u32_id by (unfold is_u32; lia). rewrite i64_id by (unfold is_i64; lia).
    eapply Hcons; [by apply IH|]. unfold lock_met. rewrite Ed, Et. split.
    + intros [H1 H2]. split; [lia|]. exists anc. split; [done|lia].
    + intros [H1 (anc' & Ha' & Hle)]. rewrite Ha in Ha'. injection Ha' as <-. lia.
  - rewrite i32_id by (ranges; lia). eapply Hcons; [by apply IH|]. unfold lock_met. rewrite Ed, Et. lia.
Qed.

(** The masked sequence number orders first by type, then by value. *)
Lemma masked_sequence x :
  0 <= x -> Z.land x nLockTimeMask
    = (if Z.land x SEQUENCE_LOCKTIME_TYPE_FLAG =? 0 then 0 else 2 ^ 22) + Z.land x SEQUENCE_LOCKTIME_MASK
  /\ 0 <= Z.land x SEQUENCE_LOCKTIME_MASK < 2 ^ 16.
Proof.
  intros Hx. unfold nLockTimeMask, SEQUENCE_LOCKTIME_TYPE_FLAG, SEQUENCE_LOCKTIME_MASK.
  change 0x0000ffff with (2 ^ 16 - 1). rewrite Z.land_lor_distr_r, land_ones_mod by lia.
  pose proof (Z.mod_pos_bound x (2 ^ 16) ltac:(lia)) as Hm. split; [|done].
  rewrite land_bit_zero by lia. destruct (Z.testbit x 22) eqn:E; cbn [negb].
  - assert (Z.land x (Z.shiftl 1 22) = 2 ^ 6 * 2 ^ 16) as ->.
    { apply Z.bits_inj'. intros i Hi. rewrite Z.land_spec. change (2 ^ 6 * 2 ^ 16) with (2 ^ 22).
      rewrite Z.shiftl_1_l, Z.pow2_bits_eqb by lia. destruct (Z.eqb_spec 22 i) as [<-|]; [by rewrite E|apply andb_false_r]. }
    rewrite Zlor_comm_add by lia. lia.
  - pose proof (land_bit_zero x 22 ltac:(lia)) as H. rewrite E in H. apply Z.eqb_eq in H.
    by rewrite H, Z.lor_0_l.
Qed.

(** ** Properties: lock times *)

Section Locks.
Context (mem : heap) (block parent : ptr) (bb : CBlockIndex).

(** The block that includes the transaction, in a well-formed index. *)
Record including_block : Prop := {
  ib_index : index_ok mem;
  ib_times : times_u32 mem;
  ib_entry : mem !! block = Some bb;
  ib_prev : pprev bb = Some parent;
  ib_height : nHeight bb < 2 ^ 31 - 2 ^ 16;
}.

(** Heights of the spent outputs: at most that of the block. *)
Definition heights_ok (tx : CTransaction) (prevHeights : list Z) : Prop :=
  length prevHeights = length (vin tx) /\ Forall (fun h => 0 <= h <= nHeight bb) prevHeights.

Lemma including_block_parent : including_block -> exists bp, mem !! parent = Some bp /\ 0 <= nHeight bb /\ is_u32 (mtp mem parent).
Proof.
  intros [[Ht _] Hu Hb Hp _]. destruct (Ht _ _ Hb) as [H0 Hprev]. rewrite Hp in Hprev.
  destruct Hprev as (bp & Hbp & _). exists bp. splits; [done|done|by eapply mtp_u32].
Qed.

Lemma SequenceLocks_spec tx flags prevHeights :
  including_block -> heights_ok tx prevHeights -> Forall (fun txin => is_u32 (nSequence txin)) (vin tx) ->
  exists b hs, SequenceLocks mem tx flags prevHeights block = Ok (b, hs)
    /\ (b = true <-> (fEnforceBIP68 tx flags = true -> Forall2 (lock_met mem block parent bb) (vin tx) prevHeights)).
Proof.
  intros Hib [Hl Hh] Hs. destruct (including_block_parent Hib) as (bp & Hbp & Hnh & Hmp).
  destruct Hib as [Hi Ht Hb Hp Hlt]. unfold is_u32 in Hmp.
  unfold SequenceLocks, CalculateSequenceLocks. rewrite Hl, Nat.eqb_refl. cbn [negb].
  assert (Hev : forall a c, EvaluateSequenceLocks mem block (a, c) = Ok (negb ((a >=? nHeight bb) || (c >=? mtp mem parent)))).
  { intros a c. unfold EvaluateSequenceLocks. rewrite (deref_ok mem block bb) by done. cbn [mbind result_bind].
    rewrite Hp. by rewrite (GetMedianTimePast_spec mem parent bp) by (apply Hi || done). }
  assert (Hb2 : forall a c, negb ((a >=? nHeight bb) || (c >=? mtp mem parent)) = true <->
    a < nHeight bb /\ c < mtp mem parent).
  { intros a c. rewrite negb_true_iff, orb_false_iff, !Z.geb_leb, !Z.leb_gt. lia. }
  destruct (fEnforceBIP68 tx flags); cbn [negb].
  - destruct (sequence_locks_loop_spec mem block parent bb (vin tx) prevHeights (-1) (-1))
      as (mh & mt & -> & Heq); try done; try lia.
    rewrite Hev. cbn [mbind result_bind]. do 2 eexists. split; [done|]. rewrite Hb2, Heq. split; [tauto|].
    intros H. split; [|by apply H]. lia.
  - rewrite Hev. cbn [mbind result_bind]. do 2 eexists. split; [done|]. rewrite Hb2. split; [done|]. lia.
Qed.
End Locks.

(** C30: relative lock times (BIP 68).  For a block in a well-formed index and outputs
    created no later than it, [SequenceLocks] always returns a verdict: it accepts
    exactly when every input without the disable flag is old enough, in blocks or in
    units of 512 seconds of median time past, or when the transaction version or
    the flags do not enforce relative lock times. *)
Theorem sequence_locks_bip68 (mem : heap) (block parent : ptr) (bb : CBlockIndex) (tx : CTransaction)
  (flags : Z) (prevHeights : list Z) :
  including_block mem block parent bb -> heights_ok bb tx prevHeights ->
  Forall (fun txin => is_u32 (nSequence txin)) (vin tx) ->
  exists b hs, SequenceLocks mem tx flags prevHeights block = Ok (b, hs)
    /\ (b = true <-> (fEnforceBIP68 tx flags = true -> Forall2 (lock_met mem block parent bb) (vin tx) prevHeights)).
Proof. apply SequenceLocks_spec. Qed.

(** What an executed lock-time opcode promises of the block that includes the
    transaction: the number on top of the stack has been reached. *)
Definition cltv_reached (n nBlockHeight nBlockTime : Z) : Prop :=
  n = 0 \/ n < (if n <? LOCKTIME_THRESHOLD then nBlockHeight else nBlockTime).

Definition csv_reached (mem : heap) (block parent : ptr) (bb : CBlockIndex) (n h : Z) : Prop :=
  if Z.land n SEQUENCE_LOCKTIME_TYPE_FLAG =? 0
  then h + Z.land n SEQUENCE_LOCKTIME_MASK <= nHeight bb
  else exists anc, ancestor_at mem block (Z.max (h - 1) 0) = Some anc
         /\ mtp mem anc + 512 * Z.land n SEQUENCE_LOCKTIME_MASK <= mtp mem parent.

Lemma CheckLockTime_sound t n nBlockHeight nBlockTime :
  0 <= n -> tsc_CheckLockTime t n = Ok true -> IsFinalTx (txTo t) nBlockHeight nBlockTime = true ->
  cltv_reached n nBlockHeight nBlockTime.
Proof.
  intros Hn Hc Hf. unfold tsc_CheckLockTime in Hc. unfold cltv_reached.
  case_match eqn:E1; [done|]. case_match eqn:E2; [done|]. b2p. apply orb_true_iff in E1.
  unfold index in Hc. destruct (vin (txTo t) !! nIn t) as [txin|] eqn:Ei; [|done]. cbn [mbind result_bind] in Hc.
  destruct (SEQUENCE_FINAL =? nSequence txin) eqn:Hq; [done|]. b2p. unfold IsFinalTx in Hf.
  destruct (Z.eqb_spec (nLockTime (txTo t)) 0) as [E0|E0]; [left; lia|].
  destruct (nLockTime (txTo t) <? (if nLockTime (txTo t) <? LOCKTIME_THRESHOLD then nBlockHeight else nBlockTime)) eqn:E3.
  - right. b2p. destruct E1 as [E1|E1]; b2p;
      destruct (Z.ltb_spec (nLockTime (txTo t)) LOCKTIME_THRESHOLD), (Z.ltb_spec n LOCKTIME_THRESHOLD); lia.
  - rewrite forallb_forall in Hf. apply list_elem_of_lookup_2, list_elem_of_In in Ei.
    specialize (Hf _ Ei). b2p. lia.
Qed.

Lemma CheckSequence_sound mem block parent bb t n prevHeights h txin :
  0 <= n -> tsc_CheckSequence t n = Ok true ->
  vin (txTo t) !! nIn t = Some txin -> is_u32 (nSequence txin) -> prevHeights !! nIn t = Some h ->
  Forall2 (lock_met mem block parent bb) (vin (txTo t)) prevHeights ->
  csv_reached mem block parent bb n h.
Proof.
  intros Hn Hc Ei Hq Hh Hall. unfold tsc_CheckSequence, index in Hc. rewrite Ei in Hc. cbn [mbind result_bind] in Hc.
  pose proof (Forall2_lookup_lr _ _ _ _ _ _ Hall Ei Hh) as Hm. unfold lock_met, seq_disabled, seq_is_time, seq_value in Hm.
  destruct (u32 _ <? 2); [done|].
  destruct (negb (Z.land (nSequence txin) SEQUENCE_LOCKTIME_DISABLE_FLAG =? 0)); [done|].
  destruct (negb (_ || _)) eqn:Et; [done|]. injection Hc as Hc. b2p. apply orb_true_iff in Et. unfold csv_reached.
  destruct (masked_sequence (nSequence txin) ltac:(unfold is_u32 in Hq; lia)) as [E1 R1].
  destruct (masked_sequence n Hn) as [E2 R2].
  rewrite E1, E2 in *. assert (SEQUENCE_LOCKTIME_TYPE_FLAG = 2 ^ 22) as HT by done.
  destruct (Z.land (nSequence txin) SEQUENCE_LOCKTIME_TYPE_FLAG =? 0), (Z.land n SEQUENCE_LOCKTIME_TYPE_FLAG =? 0);
    cbn [negb] in *; try (destruct Et; b2p; lia).
  destruct Hm as (anc & Ha & Hle). exists anc. split; [done|]. lia.
Qed.

Lemma CheckSequence_version t n : tsc_CheckSequence t n = Ok true -> (u32 (nVersion (txTo t)) >=? 2) = true.
Proof.
  unfold tsc_CheckSequence, index. destruct (vin (txTo t) !! nIn t); [|done]. cbn [mbind result_bind].
  destruct (u32 _ <? 2) eqn:E; [done|]. intros _. b2p. rewrite Z.geb_leb. by apply Z.leb_le.
Qed.

(** The number a lock-time opcode reads: the top of the stack, at most five bytes. *)
Definition lock_operand (flags : Z) (st : estate) (n : Z) : Prop :=
  exists v, head (stack st) = Some v /\ CScriptNum v (fRequireMinimal flags) 5 = Some n /\ 0 <= n.

(** The common start of both opcodes. *)
Lemma lock_operand_read flags st (k : Z -> eval estate) st' :
  (_ ← need (stack st) 1; v ← stacktop (stack st) 1; n ← scriptnum flags v 5;
   _ ← fail_if (n <? 0) SCRIPT_ERR_NEGATIVE_LOCKTIME; k n) = Ok st' ->
  exists n, lock_operand flags st n /\ k n = Ok st'.
Proof.
  unfold need, stacktop, scriptnum, fail_if. destruct (stack st) as [|v l] eqn:Es; [done|].
  replace (Z.of_nat (length (v :: l)) <? 1) with false by (symmetry; apply Z.ltb_ge; cbn; lia).
  cbn [mbind result_bind]. change (Z.to_nat (1 - 1)) with 0%nat. cbn [lookup list_lookup mbind result_bind].
  intros H. repeat (case_match; simplify_eq; cbn [mbind result_bind] in * ); try done.
  all: b2p; eexists; split; [|done]; eexists; rewrite ?Es; done.
Qed.

(** C31: the lock-time opcodes are enforced by the block that includes the transaction.
    If the transaction is final for the height and parent median time of the block
    and its sequence locks are met there, then an executed OP_CHECKLOCKTIMEVERIFY
    leaves the stack alone and its operand has been reached by the block's height or
    time, and an executed OP_CHECKSEQUENCEVERIFY means that the spent output is as
    old, in blocks or in median time, as its operand asks. *)
Theorem lock_time_opcodes_sound {E : Ecdsa} (mem : heap) (block parent : ptr) (bb : CBlockIndex)
  (t : TransactionSignatureChecker) (txin : CTxIn) (prevHeights hs : list Z) (h lockFlags flags : Z) (st st' : estate) :
  including_block mem block parent bb -> heights_ok bb (txTo t) prevHeights ->
  Forall (fun i => is_u32 (nSequence i)) (vin (txTo t)) ->
  vin (txTo t) !! nIn t = Some txin -> prevHeights !! nIn t = Some h ->
  Z.land lockFlags LOCKTIME_VERIFY_SEQUENCE <> 0 ->
  IsFinalTx (txTo t) (nHeight bb) (mtp mem parent) = true ->
  SequenceLocks mem (txTo t) lockFlags prevHeights block = Ok (true, hs) ->
  (has_flag flags SCRIPT_VERIFY_CHECKLOCKTIMEVERIFY = true ->
   @op_checklocktimeverify (transaction_checker t) flags st = Ok st' ->
   st' = st /\ exists n, lock_operand flags st n /\ cltv_reached n (nHeight bb) (mtp mem parent))
  /\ (has_flag flags SCRIPT_VERIFY_CHECKSEQUENCEVERIFY = true ->
      @op_checksequenceverify (transaction_checker t) flags st = Ok st' ->
      st' = st /\ exists n, lock_operand flags st n
        /\ (Z.land n SEQUENCE_LOCKTIME_DISABLE_FLAG = 0 -> csv_reached mem block parent bb n h)).
Proof.
  intros Hib Hh Hs Ei Hph Hlf Hfin Hsl. split; intros Hflag Hop.
  - unfold op_checklocktimeverify in Hop. rewrite Hflag in Hop. cbn [negb] in Hop.
    apply lock_operand_read in Hop as (n & Hn & Hop). cbn [CheckLockTime transaction_checker] in Hop.
    destruct (tsc_CheckLockTime t n) as [[|]|] eqn:Ec; try done. injection Hop as <-. split; [done|].
    exists n. split; [done|]. destruct Hn as (v & _ & _ & Hn). by eapply CheckLockTime_sound.
  - unfold op_checksequenceverify in Hop. rewrite Hflag in Hop. cbn [negb] in Hop.
    apply lock_operand_read in Hop as (n & Hn & Hop). cbn [CheckSequence transaction_checker] in Hop.
    assert (Hst : st' = st).
    { destruct (negb (Z.land n SEQUENCE_LOCKTIME_DISABLE_FLAG =? 0)); [by injection Hop|].
      destruct (tsc_CheckSequence t n) as [[|]|]; cbn in Hop; congruence. }
    split; [done|]. exists n. split; [done|]. intros Hd. rewrite Hd in Hop. cbn in Hop.
    destruct (tsc_CheckSequence t n) as [[|]|] eqn:Ec; try done.
    destruct (SequenceLocks_spec mem block parent bb (txTo t) lockFlags prevHeights Hib Hh Hs) as (b & hs' & E1 & Hiff).
    rewrite Hsl in E1. injection E1 as <- <-. destruct Hn as (v & _ & _ & Hn).
    eapply CheckSequence_sound; [done|done|done|by eapply Forall_lookup_1 in Hs|done|].
    apply Hiff; [done|]. unfold fEnforceBIP68. rewrite (CheckSequence_version _ _ Ec).
    destruct (Z.eqb_spec (Z.land lockFlags LOCKTIME_VERIFY_SEQUENCE) 0); done.
Qed.

(** *** Witnesses *)

Definition ex_lock_tx : CTransaction :=
  mkTx [mkTxIn (mkOutPoint (replicate 32 7) 0) [] 1 []] [mkTxOut 5 []] 2 1.
Definition ex_block : CBlockIndex := ex_entry 103 (Some 2%positive) (Some 1%positive) 2.

Lemma ex_including_block : including_block ex_heap 3%positive 2%positive ex_block.
Proof.
  split; [exact ex_heap_ok| |by vm_compute|done|by vm_compute].
  intros p b H. unfold ex_heap in H. heap_cases H; by vm_compute.
Qed.
Lemma ex_heights_ok : heights_ok ex_block ex_lock_tx [1].
Proof. split; [done|]. apply Forall_cons_2; [by vm_compute|apply Forall_nil_2]. Qed.
Lemma ex_sequences : Forall (fun i => is_u32 (nSequence i)) (vin ex_lock_tx).
Proof. apply Forall_cons_2; [by vm_compute|apply Forall_nil_2]. Qed.

Lemma sequence_locks_bip68_witness :
  exists b hs, SequenceLocks ex_heap ex_lock_tx 1 [1] 3%positive = Ok (b, hs)
    /\ (b = true <-> (fEnforceBIP68 ex_lock_tx 1 = true ->
          Forall2 (lock_met ex_heap 3%positive 2%positive ex_block) (vin ex_lock_tx) [1])).
Proof.
  apply sequence_locks_bip68; [exact ex_including_block|exact ex_heights_ok|exact ex_sequences].
Defined.

Lemma lock_time_opcodes_sound_witness :
  exists n, lock_operand (flag_value SCRIPT_VERIFY_CHECKSEQUENCEVERIFY) (mkState [[1]] [] [] 0 []) n
    /\ (Z.land n SEQUENCE_LOCKTIME_DISABLE_FLAG = 0 ->
        csv_reached ex_heap 3%positive 2%positive ex_block n 1).
Proof.
  pose (E := {| ecdsa_verify _ _ _ := true |}).
  apply (@lock_time_opcodes_sound E ex_heap 3%positive 2%positive ex_block
    (mkTSC ex_lock_tx 0 0 None) (mkTxIn (mkOutPoint (replicate 32 7) 0) [] 1 []) [1] [1] 1 1
    (flag_value SCRIPT_VERIFY_CHECKSEQUENCEVERIFY) (mkState [[1]] [] [] 0 []) (mkState [[1]] [] [] 0 []));
    first [exact ex_including_block|exact ex_heights_ok|exact ex_sequences|vm_compute; congruence].
Defined.

(** ** Values are conserved *)

Definition sum_Z (l : list Z) : Z := foldr Z.add 0 l.

Lemma MoneyRange_spec v : MoneyRange v = true <-> 0 <= v <= MAX_MONEY.
Proof. unfold MoneyRange. rewrite andb_true_iff, Z.geb_leb, !Z.leb_le. tauto. Qed.

(** Two amounts in range are added without overflow. *)
Lemma amount_add a b : 0 <= a <= MAX_MONEY -> 0 <= b <= MAX_MONEY -> i64 (a + b) = a + b.
Proof. intros Ha Hb. apply i64_id. unfold is_i64. assert (MAX_MONEY = 2100000000000000000) by done. lia. Qed.

(** Outputs whose value counts: asset outputs do only once values are enforced. *)
Definition counted (fAreEnforcedValues : bool) (o : CTxOut) : Prop :=
  fAreEnforcedValues = true \/ IsAssetScript (scriptPubKey o) = None.
#[global] Instance counted_dec e o : Decision (counted e o).
Proof. apply _. Defined.

Definition counted_values (e : bool) (outs : list CTxOut) : list Z := nValue <$> filter (counted e) outs.

Lemma sum_Z_nonneg l : Forall (fun v => 0 <= v <= MAX_MONEY) l -> 0 <= sum_Z l.
Proof. unfold sum_Z. induction 1; cbn in *; lia. Qed.

Lemma GetValueOut_loop_spec e outs : forall acc v,
  0 <= acc <= MAX_MONEY ->
  GetValueOut_loop e outs acc = Some v <->
    Forall (fun v => 0 <= v <= MAX_MONEY) (counted_values e outs)
    /\ v = acc + sum_Z (counted_values e outs) /\ v <= MAX_MONEY.
Proof.
  unfold counted_values. induction outs as [|o outs IH]; intros acc v Ha; cbn [GetValueOut_loop].
  { cbn. split; [intros [= <-]; splits; [constructor|lia|lia]|intros (_ & -> & _)]. f_equal. lia. }
  rewrite filter_cons.
  replace (negb e && bool_decide (is_Some (IsAssetScript (scriptPubKey o)))) with (negb (bool_decide (counted e o))).
  2:{ case_bool_decide as H; unfold counted in H; cbn [negb]; [destruct H as [->| ->]; [done|by rewrite andb_false_r]|].
      destruct e; [tauto|]. destruct (IsAssetScript (scriptPubKey o)); [done|tauto]. }
  destruct (decide (counted e o)) as [Hc|Hc].
  2:{ rewrite bool_decide_false by done. cbn [negb]. by apply IH. }
  rewrite bool_decide_true by done. cbn [negb fmap list_fmap sum_Z foldr].
  destruct (MoneyRange (nValue o)) eqn:E1; cbn [negb orb].
  - apply MoneyRange_spec in E1. rewrite amount_add by done.
    destruct (MoneyRange (acc + nValue o)) eqn:E2; cbn [negb].
    + apply MoneyRange_spec in E2. rewrite IH by done. rewrite Forall_cons. unfold sum_Z. intuition lia.
    + split; [done|]. intros (H & -> & Hle). apply Forall_cons in H as [_ H].
      apply sum_Z_nonneg in H. unfold sum_Z in H.
      assert (MoneyRange (acc + nValue o) = true) by (apply MoneyRange_spec; lia). congruence.
  - split; [done|]. intros (H & _). apply Forall_cons in H as [H _]. apply MoneyRange_spec in H. congruence.
Qed.

Section Values.
Context (AccessCoin : COutPoint -> Coin) (nSpendHeight : Z).

(** What the coin of an input must satisfy. *)
Definition spendable (txin : CTxIn) : Prop :=
  let c := AccessCoin (prevout txin) in
  IsSpent c = false /\ 0 <= nValue (coin_out c) <= MAX_MONEY
  /\ (fCoinBase c = true -> COINBASE_MATURITY <= nSpendHeight - coin_nHeight c).

Definition input_values (ins : list CTxIn) : list Z := (fun i => nValue (coin_out (AccessCoin (prevout i)))) <$> ins.

Lemma input_values_range ins : Forall spendable ins -> Forall (fun v => 0 <= v <= MAX_MONEY) (input_values ins).
Proof. intros H. apply Forall_fmap. eapply Forall_impl; [done|]. by intros i (_ & Hv & _). Qed.

Lemma value_in_loop_spec ins : forall acc v,
  0 <= acc <= MAX_MONEY ->
  value_in_loop AccessCoin nSpendHeight ins acc = Ok v <->
    Forall spendable ins /\ v = acc + sum_Z (input_values ins) /\ v <= MAX_MONEY.
Proof.
  induction ins as [|i ins IH]; intros acc v Ha; cbn [value_in_loop].
  { cbn. split; [intros [= <-]; splits; [constructor|lia|lia]|intros (_ & -> & _)]. f_equal. lia. }
  rewrite Forall_cons. unfold spendable at 1, reject_if.
  change (sum_Z (input_values (i :: ins))) with (nValue (coin_out (AccessCoin (prevout i))) + sum_Z (input_values ins)).
  destruct (IsSpent (AccessCoin (prevout i))) eqn:Es; [split; [done|]; by intros (((? & _) & _) & _)|].
  destruct (fCoinBase (AccessCoin (prevout i)) && _) eqn:Em; cbn [mbind result_bind].
  { split; [done|]. intros ((( _ & _ & Hm) & _) & _). b2p. specialize (Hm ltac:(done)). lia. }
  assert (Hmat : fCoinBase (AccessCoin (prevout i)) = true ->
    COINBASE_MATURITY <= nSpendHeight - coin_nHeight (AccessCoin (prevout i))).
  { intros Hc. rewrite Hc in Em. cbn in Em. b2p. lia. }
  destruct (MoneyRange (nValue (coin_out (AccessCoin (prevout i))))) eqn:E1; cbn [negb orb].
  - apply MoneyRange_spec in E1. rewrite amount_add by done.
    destruct (MoneyRange (acc + _)) eqn:E2; cbn [negb mbind result_bind].
    + apply MoneyRange_spec in E2. rewrite IH by done. intuition lia.
    + split; [done|]. intros ([_ H] & -> & Hle). apply input_values_range, sum_Z_nonneg in H.
      assert (MoneyRange (acc + nValue (coin_out (AccessCoin (prevout i)))) = true)
        by (apply MoneyRange_spec; lia). congruence.
  - split; [done|]. intros (((_ & H & _) & _) & _). apply MoneyRange_spec in H. congruence.
Qed.
End Values.

Lemma CheckTxInputs_spec (AccessCoin : COutPoint -> Coin) (tx : CTransaction) (nSpendHeight : Z)
  (fAreEnforcedValues : bool) (fee : Z) :
  let value_in := sum_Z (input_values AccessCoin (vin tx)) in
  let value_out := sum_Z (counted_values fAreEnforcedValues (vout tx)) in
  CheckTxInputs AccessCoin tx nSpendHeight fAreEnforcedValues = Ok fee <->
    Forall (spendable AccessCoin nSpendHeight) (vin tx)
    /\ Forall (fun v => 0 <= v <= MAX_MONEY) (counted_values fAreEnforcedValues (vout tx))
    /\ value_in = value_out + fee /\ 0 <= fee /\ value_in <= MAX_MONEY.
Proof.
  intros value_in value_out. unfold CheckTxInputs, reject_if.
  assert (H0 : 0 <= 0 <= MAX_MONEY) by (by vm_compute).
  assert (Hhave : Forall (spendable AccessCoin nSpendHeight) (vin tx) -> HaveInputs AccessCoin tx = true).
  { intros H. unfold HaveInputs. apply orb_true_iff. right. apply forallb_forall. intros i Hi.
    apply list_elem_of_In in Hi. eapply Forall_forall in H as (-> & _); done. }
  destruct (HaveInputs AccessCoin tx); cbn [negb mbind result_bind].
  2:{ split; [done|]. intros (H & _). by apply Hhave in H. }
  destruct (value_in_loop AccessCoin nSpendHeight (vin tx) 0) as [vi|] eqn:Ei; cbn [mbind result_bind].
  2:{ split; [done|]. intros (H1 & _ & _ & _ & H2).
      assert (value_in_loop AccessCoin nSpendHeight (vin tx) 0 = Ok value_in) by (apply value_in_loop_spec; [done|]; splits; [done|lia|lia]).
      congruence. }
  apply value_in_loop_spec in Ei as (Hs & -> & Hvi); [|done].
  change (0 + sum_Z (input_values AccessCoin (vin tx))) with value_in in *.
  destruct (GetValueOut fAreEnforcedValues tx) as [vo|] eqn:Eo; cbn [mbind result_bind]; unfold GetValueOut in Eo.
  2:{ split; [done|]. intros (_ & H1 & H2 & H3 & H4).
      assert (GetValueOut_loop fAreEnforcedValues (vout tx) 0 = Some value_out)
        by (apply GetValueOut_loop_spec; [done|]; splits; [done|lia|lia]). congruence. }
  apply GetValueOut_loop_spec in Eo as (Ho & -> & Hvo); [|done].
  change (0 + sum_Z (counted_values fAreEnforcedValues (vout tx))) with value_out in *.
  pose proof (sum_Z_nonneg _ Ho) as Hpos. fold value_out in Hpos.
  destruct (value_in <? value_out) eqn:Ec; cbn [mbind result_bind]; b2p; [split; [done|lia]|].
  replace (MoneyRange (value_in - value_out)) with true by (symmetry; apply MoneyRange_spec; lia). cbn.
  split; [intros [= <-]; splits; try done; lia|intros (_ & _ & H & _)]. f_equal. lia.
Qed.

(** [CheckTxInputs] accepts a transaction with fee [fee] exactly when every input
    spends an existing coin with a value in range, a coinbase only after
    [COINBASE_MATURITY] blocks, the sums of the spent values and of the counted
    outputs (all outputs, or those that carry no asset before values are enforced)
    are in the money range, and the inputs pay for the outputs and the fee: no
    64-bit sum wraps, and no value is created. *)
Theorem CheckTxInputs_conserves_value (AccessCoin : COutPoint -> Coin) (tx : CTransaction) (nSpendHeight : Z)
  (fAreEnforcedValues : bool) (fee : Z) :
  let value_in := sum_Z (input_values AccessCoin (vin tx)) in
  let value_out := sum_Z (counted_values fAreEnforcedValues (vout tx)) in
  CheckTxInputs AccessCoin tx nSpendHeight fAreEnforcedValues = Ok fee <->
    Forall (spendable AccessCoin nSpendHeight) (vin tx)
    /\ Forall (fun v => 0 <= v <= MAX_MONEY) (counted_values fAreEnforcedValues (vout tx))
    /\ value_in = value_out + fee /\ 0 <= fee /\ value_in <= MAX_MONEY.
Proof. apply CheckTxInputs_spec. Qed.

(** ** Signature operations are counted without overflow *)

Lemma sigops_of_range acc op last : 0 <= sigops_of acc op last <= 20.
Proof.
  unfold sigops_of, MAX_PUBKEYS_PER_MULTISIG, DecodeOP_N.
  repeat case_match; cbn [default]; b2p; try lia.
  all: try (unfold EncodeOP_N in *); cbn in *; lia.
Qed.

Lemma GetSigOpCount_loop_range acc fuel : forall pc last n,
  0 <= n -> n + 20 * Z.of_nat (length pc) < 2 ^ 32 ->
  n <= GetSigOpCount_loop fuel acc pc last n <= n + 20 * Z.of_nat (length pc).
Proof.
  induction fuel as [|fuel IH]; intros pc last n Hn Hlt; cbn [GetSigOpCount_loop]; [lia|].
  destruct pc as [|x pc]; [cbn; lia|]. cbn zeta. set (pc0 := x :: pc) in *.
  destruct (go_ok (GetOp pc0)) eqn:Eg; [|lia]. apply GetOp_progress in Eg.
  pose proof (sigops_of_range acc (opcodeRet (GetOp pc0)) last).
  rewrite u32_id by (unfold is_u32; lia).
  specialize (IH (go_pc (GetOp pc0)) (opcodeRet (GetOp pc0)) (n + sigops_of acc (opcodeRet (GetOp pc0)) last)). lia.
Qed.

Lemma GetSigOpCount_range acc s :
  20 * Z.of_nat (length s) < 2 ^ 32 -> 0 <= GetSigOpCount s acc <= 20 * Z.of_nat (length s).
Proof.
  intros H. unfold GetSigOpCount. pose proof (GetSigOpCount_loop_range acc (length s) s OP_INVALIDOPCODE 0). lia.
Qed.

Definition blen (l : bytes) : Z := Z.of_nat (length l).

Lemma foldl_u32_sum {A} (f : A -> Z) l : forall n,
  0 <= n -> Forall (fun x => 0 <= f x) l -> n + sum_Z (f <$> l) < 2 ^ 32 ->
  foldl (fun n x => u32 (n + f x)) n l = n + sum_Z (f <$> l) /\ 0 <= sum_Z (f <$> l).
Proof.
  unfold sum_Z. induction l as [|x l IH]; intros n Hn Hf Hlt; cbn in *; [lia|].
  apply Forall_cons in Hf as [Hx Hf].
  assert (0 <= foldr Z.add 0 (f <$> l)) by (clear - Hf; induction Hf; cbn in *; lia).
  rewrite u32_id by (unfold is_u32; lia). destruct (IH (n + f x)) as [-> _]; [lia|done|lia|]. lia.
Qed.

Lemma sum_Z_nonneg' {A} (f : A -> Z) l : Forall (fun x => 0 <= f x) l -> 0 <= sum_Z (f <$> l).
Proof. unfold sum_Z. induction 1; cbn in *; lia. Qed.

Lemma sum_Z_scale {A} k (f : A -> Z) l : sum_Z ((fun x => k * f x) <$> l) = k * sum_Z (f <$> l).
Proof. unfold sum_Z. induction l; cbn in *; lia. Qed.

Lemma sum_Z_bound {A} k (f g : A -> Z) l :
  Forall (fun x => 0 <= f x <= k * g x) l -> 0 <= sum_Z (f <$> l) <= k * sum_Z (g <$> l).
Proof. unfold sum_Z. induction 1; cbn in *; lia. Qed.

Lemma sum_Z_add {A} (f g : A -> Z) l : sum_Z ((fun x => f x + g x) <$> l) = sum_Z (f <$> l) + sum_Z (g <$> l).
Proof. unfold sum_Z. induction l; cbn in *; lia. Qed.

Lemma sum_Z_one {A} (l : list A) : sum_Z ((fun _ => 1) <$> l) = Z.of_nat (length l).
Proof. unfold sum_Z. induction l; cbn in *; lia. Qed.

(** A term of a bounded sum is bounded. *)
Lemma sum_Z_elems {A} (f : A -> Z) l B :
  Forall (fun x => 0 <= f x) l -> sum_Z (f <$> l) <= B -> Forall (fun x => f x <= B) l.
Proof.
  unfold sum_Z. intros Hf. induction Hf as [|y l Hy Hf IH]; intros Hb; constructor; cbn in *.
  - assert (0 <= foldr Z.add 0 (f <$> l)) by (clear - Hf; induction Hf; cbn in *; lia). lia.
  - apply IH. lia.
Qed.

Section Sigops.
Context (AccessCoin : COutPoint -> Coin) (flags : Z).

(** The bytes of the scripts a transaction carries. *)
Definition input_script_bytes (i : CTxIn) : Z := blen (scriptSig i) + blen (concat (scriptWitness i)).
Definition script_bytes (tx : CTransaction) : Z :=
  sum_Z (input_script_bytes <$> vin tx) + sum_Z ((fun o => blen (scriptPubKey o)) <$> vout tx).

Definition spent_script (i : CTxIn) : bytes := scriptPubKey (coin_out (AccessCoin (prevout i))).

(** The operations of an input hidden behind a script hash, and in its witness. *)
Definition p2sh_sigops (i : CTxIn) : Z :=
  if IsPayToScriptHash (spent_script i) then GetSigOpCount_P2SH (spent_script i) (scriptSig i) else 0.
Definition wit_sigops (i : CTxIn) : Z :=
  match CountWitnessSigOps (scriptSig i) (spent_script i) (scriptWitness i) flags with Ok n => n | Err _ => 0 end.

Lemma last_push_loop_length fuel : forall pc d v n,
  (length d <= n)%nat -> (length pc <= n)%nat -> last_push_loop fuel pc d = Some v -> (length v <= n)%nat.
Proof.
  induction fuel as [|fuel IH]; intros pc d v n Hd Hp; cbn; [by intros [= <-]|].
  destruct pc as [|x pc]; [by intros [= <-]|]. cbn zeta. destruct (go_ok _) eqn:Eg; [|done]. cbn.
  destruct (_ >? _); [done|]. destruct (GetOp_split _ Eg) as (a & _ & Hv). apply GetOp_progress in Eg.
  apply IH; cbn in *; lia.
Qed.

Lemma p2sh_sigops_range i : 20 * blen (scriptSig i) < 2 ^ 32 -> 0 <= p2sh_sigops i <= 20 * blen (scriptSig i).
Proof.
  unfold p2sh_sigops, GetSigOpCount_P2SH, blen. intros H. destruct (IsPayToScriptHash (spent_script i)); [|lia]. cbn [negb].
  destruct (last_push_loop (length (scriptSig i)) (scriptSig i) []) as [v|] eqn:E; [|lia].
  apply (last_push_loop_length _ _ _ _ (length (scriptSig i))) in E; [|cbn; lia|lia].
  pose proof (GetSigOpCount_range true v). lia.
Qed.

Lemma last_data_loop_total fuel : forall pc d,
  (length pc <= fuel)%nat -> IsPushOnly_loop fuel pc = true -> is_ok (last_data_loop fuel pc d) = true.
Proof.
  induction fuel as [|fuel IH]; intros pc d Hl; destruct pc as [|x pc]; try done.
  cbn [IsPushOnly_loop last_data_loop]. cbn zeta. destruct (go_ok _) eqn:Eg; [|done]. cbn [negb].
  destruct (_ >? _); [done|]. apply GetOp_progress in Eg. apply IH. cbn in *; lia.
Qed.

Lemma last_concat_length (w : list bytes) s : last w = Some s -> (length s <= length (concat w))%nat.
Proof. intros (l & ->)%last_Some. rewrite concat_app, length_app. cbn. rewrite app_nil_r. lia. Qed.

Lemma WitnessSigOps_range ver prog w :
  20 * blen (concat w) < 2 ^ 32 -> 0 <= WitnessSigOps ver prog w <= 1 + 20 * blen (concat w).
Proof.
  unfold WitnessSigOps, blen. intros H. repeat case_match; try lia.
  apply last_concat_length in H3. pose proof (GetSigOpCount_range true l). lia.
Qed.

Lemma wit_sigops_spec i :
  (has_flag flags SCRIPT_VERIFY_WITNESS = true -> has_flag flags SCRIPT_VERIFY_P2SH = true) ->
  20 * blen (concat (scriptWitness i)) < 2 ^ 32 ->
  CountWitnessSigOps (scriptSig i) (spent_script i) (scriptWitness i) flags = Ok (wit_sigops i)
  /\ 0 <= wit_sigops i <= 1 + 20 * blen (concat (scriptWitness i)).
Proof.
  intros Hf Hl. pose proof (fun v p => WitnessSigOps_range v p _ Hl) as Hw.
  assert (0 <= blen (concat (scriptWitness i))) by (unfold blen; lia).
  unfold wit_sigops, CountWitnessSigOps. destruct (has_flag flags SCRIPT_VERIFY_WITNESS); [|split; [done|cbn; lia]].
  rewrite Hf by done. cbn [negb]. destruct (IsWitnessProgram (spent_script i)) as [[v p]|]; [by split|].
  destruct (IsPayToScriptHash (spent_script i)); [|split; [done|cbn; lia]]. cbn [andb].
  destruct (IsPushOnly (scriptSig i)) eqn:Ep; [|split; [done|lia]].
  pose proof (last_data_loop_total (length (scriptSig i)) (scriptSig i) [] ltac:(lia) Ep) as Ht.
  destruct (last_data_loop _ _ _) as [d|]; [|done]. cbn [mbind result_bind].
  destruct (IsWitnessProgram d) as [[v p]|]; [by split|split; [done|lia]].
Qed.

(** The cost BIP 141 defines: operations in the scripts of the transaction and behind
    script hashes count four times, those in witnesses once. *)
Definition sigop_cost (tx : CTransaction) : Z :=
  4 * (sum_Z ((fun i => GetSigOpCount (scriptSig i) false) <$> vin tx)
       + sum_Z ((fun o => GetSigOpCount (scriptPubKey o) false) <$> vout tx)
       + if has_flag flags SCRIPT_VERIFY_P2SH then sum_Z (p2sh_sigops <$> vin tx) else 0)
  + sum_Z (wit_sigops <$> vin tx).

Lemma p2sh_sigops_loop_spec ins : forall n,
  Forall (fun i => IsSpent (AccessCoin (prevout i)) = false) ins -> Forall (fun i => 0 <= p2sh_sigops i) ins ->
  0 <= n -> n + sum_Z (p2sh_sigops <$> ins) < 2 ^ 32 ->
  p2sh_sigops_loop AccessCoin ins n = Ok (n + sum_Z (p2sh_sigops <$> ins)).
Proof.
  induction ins as [|i ins IH]; intros n Hs Hp Hn Hlt; cbn [p2sh_sigops_loop]; [f_equal; cbn; lia|].
  apply Forall_cons in Hs as [Hi Hs]. apply Forall_cons in Hp as [Hpi Hp]. rewrite Hi.
  change (sum_Z (p2sh_sigops <$> i :: ins)) with (p2sh_sigops i + sum_Z (p2sh_sigops <$> ins)) in *.
  assert (0 <= sum_Z (p2sh_sigops <$> ins)) by (clear - Hp; unfold sum_Z; induction Hp; cbn in *; lia).
  fold (spent_script i). rewrite Z.add_assoc. rewrite <- IH; [|done|done|lia|lia]. f_equal.
  unfold p2sh_sigops in *. destruct (IsPayToScriptHash (spent_script i)); [|lia].
  rewrite u32_id; [done|unfold is_u32; lia].
Qed.

Lemma witness_sigops_loop_spec ins : forall n,
  (has_flag flags SCRIPT_VERIFY_WITNESS = true -> has_flag flags SCRIPT_VERIFY_P2SH = true) ->
  Forall (fun i => IsSpent (AccessCoin (prevout i)) = false) ins ->
  Forall (fun i => 20 * blen (concat (scriptWitness i)) < 2 ^ 32) ins ->
  0 <= n -> n + sum_Z (wit_sigops <$> ins) < 2 ^ 63 ->
  witness_sigops_loop AccessCoin flags ins n = Ok (n + sum_Z (wit_sigops <$> ins)).
Proof.
  intros n Hf. revert n. induction ins as [|i ins IH]; intros n Hs Hp Hn Hlt; cbn [witness_sigops_loop]; [f_equal; cbn; lia|].
  apply Forall_cons in Hs as [Hi Hs]. apply Forall_cons in Hp as [Hpi Hp]. rewrite Hi.
  change (sum_Z (wit_sigops <$> i :: ins)) with (wit_sigops i + sum_Z (wit_sigops <$> ins)) in *.
  destruct (wit_sigops_spec i Hf Hpi) as [Hc Hr]. fold (spent_script i). rewrite Hc. cbn [mbind result_bind].
  assert (0 <= sum_Z (wit_sigops <$> ins)).
  { apply sum_Z_nonneg'. eapply Forall_impl; [exact Hp|]. intros j Hj. by apply wit_sigops_spec. }
  rewrite i64_id by (unfold is_i64; lia). rewrite IH; [f_equal; lia|done|done|lia|lia].
Qed.
End Sigops.

(** Every script of a transaction is short, and each kind of operation is bounded by
    the bytes it can come from. *)
Lemma sigop_bounds AccessCoin flags tx :
  (has_flag flags SCRIPT_VERIFY_WITNESS = true -> has_flag flags SCRIPT_VERIFY_P2SH = true) ->
  script_bytes tx <= 2 ^ 24 ->
  Forall (fun i => 0 <= GetSigOpCount (scriptSig i) false) (vin tx)
  /\ Forall (fun o => 0 <= GetSigOpCount (scriptPubKey o) false) (vout tx)
  /\ Forall (fun i => 0 <= p2sh_sigops AccessCoin i) (vin tx)
  /\ Forall (fun i => 20 * blen (concat (scriptWitness i)) < 2 ^ 32) (vin tx)
  /\ exists a w c, script_bytes tx = a + w + c /\ 0 <= a /\ 0 <= w /\ 0 <= c
    /\ 0 <= sum_Z ((fun i => GetSigOpCount (scriptSig i) false) <$> vin tx) <= 20 * a
    /\ 0 <= sum_Z ((fun o => GetSigOpCount (scriptPubKey o) false) <$> vout tx) <= 20 * c
    /\ 0 <= sum_Z (p2sh_sigops AccessCoin <$> vin tx) <= 20 * a
    /\ 0 <= sum_Z (wit_sigops AccessCoin flags <$> vin tx) <= Z.of_nat (length (vin tx)) + 20 * w.
Proof.
  intros Hf. unfold script_bytes, input_script_bytes. rewrite sum_Z_add.
  set (a := sum_Z ((fun i => blen (scriptSig i)) <$> vin tx)).
  set (w := sum_Z ((fun i => blen (concat (scriptWitness i))) <$> vin tx)).
  set (c := sum_Z ((fun o => blen (scriptPubKey o)) <$> vout tx)). intros HB.
  assert (Hnn : forall {A} (g : A -> bytes) l, Forall (fun x => 0 <= blen (g x)) l)
    by (intros; apply Forall_true; intros; unfold blen; lia).
  assert (Ha : 0 <= a) by (apply sum_Z_nonneg', Hnn). assert (Hw : 0 <= w) by (apply sum_Z_nonneg', Hnn).
  assert (Hc : 0 <= c) by (apply sum_Z_nonneg', Hnn).
  pose proof (sum_Z_elems _ _ (2 ^ 24) (Hnn _ scriptSig (vin tx)) ltac:(lia)) as Ea.
  pose proof (sum_Z_elems _ _ (2 ^ 24) (Hnn _ (fun i => concat (scriptWitness i)) (vin tx)) ltac:(lia)) as Ew.
  pose proof (sum_Z_elems _ _ (2 ^ 24) (Hnn _ scriptPubKey (vout tx)) ltac:(lia)) as Ec.
  assert (Fi : Forall (fun i => 0 <= GetSigOpCount (scriptSig i) false <= 20 * blen (scriptSig i)) (vin tx))
    by (eapply Forall_impl; [exact Ea|]; intros i Hi; apply GetSigOpCount_range; unfold blen in Hi; lia).
  assert (Fo : Forall (fun o => 0 <= GetSigOpCount (scriptPubKey o) false <= 20 * blen (scriptPubKey o)) (vout tx))
    by (eapply Forall_impl; [exact Ec|]; intros i Hi; apply GetSigOpCount_range; unfold blen in Hi; lia).
  assert (Fp : Forall (fun i => 0 <= p2sh_sigops AccessCoin i <= 20 * blen (scriptSig i)) (vin tx))
    by (eapply Forall_impl; [exact Ea|]; intros i Hi; apply p2sh_sigops_range; cbn in Hi; lia).
  assert (Fw : Forall (fun i => 0 <= wit_sigops AccessCoin flags i <= 1 * (1 + 20 * blen (concat (scriptWitness i)))) (vin tx)).
  { eapply Forall_impl; [exact Ew|]. intros i Hi. cbn in Hi. rewrite Z.mul_1_l. apply wit_sigops_spec; [done|lia]. }
  pose proof (sum_Z_bound _ _ _ _ Fw) as Bw. rewrite sum_Z_add, sum_Z_one, sum_Z_scale, Z.mul_1_l in Bw.
  splits.
  1: eapply Forall_impl; [exact Fi|]; cbn; lia.
  1: eapply Forall_impl; [exact Fo|]; cbn; lia.
  1: eapply Forall_impl; [exact Fp|]; cbn; lia.
  1: eapply Forall_impl; [exact Ew|]; cbn; lia.
  exists a, w, c. pose proof (sum_Z_bound _ _ _ _ Fi). pose proof (sum_Z_bound _ _ _ _ Fo).
  pose proof (sum_Z_bound _ _ _ _ Fp). by repeat (split; [done|]).
Qed.

(** Signature operations.  For a transaction whose inputs exist and whose scripts have
    at most [2^24] bytes, [GetTransactionSigOpCost] fails no assertion, its 32-bit and
    64-bit sums do not wrap, and the result is the cost of BIP 141, at most 160 times
    the script bytes plus one per input. *)
Theorem sigop_cost_exact (AccessCoin : COutPoint -> Coin) (flags : Z) (tx : CTransaction) :
  IsCoinBase tx = false -> flags_consistent flags ->
  Forall (fun i => IsSpent (AccessCoin (prevout i)) = false) (vin tx) ->
  script_bytes tx <= 2 ^ 24 -> Z.of_nat (length (vin tx)) <= 2 ^ 32 ->
  GetTransactionSigOpCost AccessCoin tx flags = Ok (sigop_cost AccessCoin flags tx)
  /\ 0 <= sigop_cost AccessCoin flags tx <= 160 * script_bytes tx + Z.of_nat (length (vin tx)).
Proof.
  intros Hcb [_ Hf] Hs HB Hn.
  destruct (sigop_bounds AccessCoin flags tx Hf HB) as (Fi & Fo & Fp & Fw & a & w & c & Hsb & Ha & Hw & Hc & Bi & Bo & Bp & Bw).
  rewrite Hsb in *.
  split; [|unfold sigop_cost; destruct (has_flag flags SCRIPT_VERIFY_P2SH); lia].
  unfold GetTransactionSigOpCost, sigop_cost, GetLegacySigOpCount, GetP2SHSigOpCount, WITNESS_SCALE_FACTOR.
  rewrite Hcb. cbn zeta. destruct (foldl_u32_sum _ _ 0 ltac:(lia) Fi) as [-> _]; [lia|].
  set (si := sum_Z ((fun i => GetSigOpCount (scriptSig i) false) <$> vin tx)) in *.
  destruct (foldl_u32_sum _ _ (0 + si) ltac:(lia) Fo) as [-> _]; [lia|].
  rewrite (u32_id (_ * 4)) by (unfold is_u32; lia).
  pose proof (fun n => witness_sigops_loop_spec AccessCoin flags (vin tx) n Hf Hs Fw) as Hloop.
  destruct (has_flag flags SCRIPT_VERIFY_P2SH).
  - rewrite p2sh_sigops_loop_spec by (done || lia). cbn [mbind result_bind].
    rewrite u32_id by (unfold is_u32; lia). rewrite i64_id by (unfold is_i64; lia).
    rewrite Hloop by lia. f_equal. lia.
  - cbn [mbind result_bind]. rewrite Hloop by lia. f_equal. lia.
Qed.
