(* ===== verification/Standard.v ===== *)
(** * Standard scripts and destinations: [src/script/standard.h], [src/script/standard.cpp]

    [Solver] classifies an output script and extracts its keys or hashes, by tests on
    the bytes and then by matching three templates; [ExtractDestination] turns that
    into a destination, and the builders produce the script of a destination. *)

From S2P Require Import Prelude Hasher Sha2 HashFns Script Interpreter SigHash.

(** ** Destinations *)

(** [boost::variant<CNoDestination, CKeyID, CScriptID>]. *)
Inductive CTxDestination := CNoDestination | CKeyID (id : bytes) | CScriptID (id : bytes).

#[global] Instance CTxDestination_eq_dec : EqDecision CTxDestination.
Proof. solve_decision. Defined.

Definition IsValidDestination (dest : CTxDestination) : bool :=
  match dest with CNoDestination => false | _ => true end.

(** ** Template matching *)

(** [mTemplates], in the order of its keys. *)
Definition mTemplates : list (txnouttype * bytes) :=
  [(TX_PUBKEY, [opcode_value OP_PUBKEY; opcode_value OP_CHECKSIG]);
   (TX_PUBKEYHASH, opcode_value <$> [OP_DUP; OP_HASH160; OP_PUBKEYHASH; OP_EQUALVERIFY; OP_CHECKSIG]);
   (TX_MULTISIG, opcode_value <$> [OP_SMALLINTEGER; OP_PUBKEYS; OP_SMALLINTEGER; OP_CHECKMULTISIG])].

Definition pubkey_sized (vch : bytes) : bool := (33 <=? length vch)%nat && (length vch <=? 65)%nat.

(** The loop of [OP_PUBKEYS]; every turn reads an instruction. *)
Fixpoint pubkeys_loop (fuel : nat) (r1 : getop_result) (vSolutions : list bytes) : getop_result * list bytes :=
  match fuel with
  | O => (r1, vSolutions)
  | S fuel =>
    if pubkey_sized (vchRet r1) then
      let r := GetOp (go_pc r1) in
      let vSolutions := vSolutions ++ [vchRet r1] in
      if go_ok r then pubkeys_loop fuel r vSolutions else (r, vSolutions)
    else (r1, vSolutions)
  end.

(** The solutions when [script1] from [pc1] matches the template from [pc2]. *)
Fixpoint match_template (fuel : nat) (pc1 pc2 : bytes) (vSolutions : list bytes) : option (list bytes) :=
  match pc1, pc2 with
  | [], [] => Some vSolutions
  | _, _ =>
    match fuel with
    | O => None
    | S fuel =>
      let r1 := GetOp pc1 in
      if negb (go_ok r1) then None else
      let r2 := GetOp pc2 in
      if negb (go_ok r2) then None else
      let '(r1, vSolutions, r2) :=
        if opcodeRet r2 =? OP_PUBKEYS then
          let '(r1, vSolutions) := pubkeys_loop (S (length pc1)) r1 vSolutions in
          (r1, vSolutions, GetOp (go_pc r2))
        else (r1, vSolutions, r2) in
      if negb (go_ok r2) then None else
      let opcode1 := opcodeRet r1 in
      let opcode2 := opcodeRet r2 in
      let vch1 := vchRet r1 in
      if opcode2 =? OP_PUBKEY then
        if negb (pubkey_sized vch1) then None
        else match_template fuel (go_pc r1) (go_pc r2) (vSolutions ++ [vch1])
      else if opcode2 =? OP_PUBKEYHASH then
        if negb (length vch1 =? 20)%nat then None
        else match_template fuel (go_pc r1) (go_pc r2) (vSolutions ++ [vch1])
      else if opcode2 =? OP_SMALLINTEGER then
        match DecodeOP_N opcode1 with
        | Some n => match_template fuel (go_pc r1) (go_pc r2) (vSolutions ++ [[n]])
        | None => None
        end
      else if negb (opcode1 =? opcode2) || negb (bool_decide (vch1 = vchRet r2)) then None
      else match_template fuel (go_pc r1) (go_pc r2) vSolutions
    end
  end.

(** The additional checks for [TX_MULTISIG]. *)
Definition multisig_counts_ok (vSolutions : list bytes) : bool :=
  let m := at_ (default [] (head vSolutions)) 0 in
  let n := at_ (default [] (last vSolutions)) 0 in
  negb ((m <? 1) || (n <? 1) || (m >? n) || negb (Z.of_nat (length vSolutions) - 2 =? n)).

Fixpoint scan_templates (script : bytes) (templates : list (txnouttype * bytes)) : option (txnouttype * list bytes) :=
  match templates with
  | [] => None
  | (typeRet, script2) :: templates =>
    match match_template (S (length script)) script script2 [] with
    | Some vSolutions =>
      if bool_decide (typeRet = TX_MULTISIG) && negb (multisig_counts_ok vSolutions) then None
      else Some (typeRet, vSolutions)
    | None => scan_templates script templates
    end
  end.

(** ** [Solver]: the type and the solutions, or [None] for the return value [false] *)

Definition Solver (s : bytes) : option (txnouttype * list bytes) :=
  if IsPayToScriptHash s then Some (TX_SCRIPTHASH, [take 20 (drop 2 s)])
  else match IsAssetScript s with
  | Some (nType, _, _) => Some (nType, [take 20 (drop 3 s)])
  | None =>
    match IsWitnessProgram s with
    | Some (witnessversion, witnessprogram) =>
      if (witnessversion =? 0) && (length witnessprogram =? 20)%nat
      then Some (TX_WITNESS_V0_KEYHASH, [witnessprogram])
      else if (witnessversion =? 0) && (length witnessprogram =? 32)%nat
      then Some (TX_WITNESS_V0_SCRIPTHASH, [witnessprogram])
      else None
    | None =>
      if (1 <=? length s)%nat && (at_ s 0 =? OP_RETURN) && IsPushOnly (drop 1 s) then Some (TX_NULL_DATA, [])
      else if (1 <=? length s)%nat && (at_ s 0 =? OP_HNB_ASSET) && IsPushOnly (drop 1 s) then
        Some (TX_RESTRICTED_ASSET_DATA,
              if (23 <=? length s)%nat && negb (at_ s 1 =? OP_RESERVED) then [take 20 (drop 2 s)] else [])
      else scan_templates s mTemplates
    end
  end.

Definition ExtractDestination (s : bytes) : option CTxDestination :=
  match Solver s with
  | Some (TX_PUBKEY, v :: _) =>
    let pubKey := pubkey_Set v in
    if negb (pubkey_IsValid pubKey) then None else Some (CKeyID (pubkey_GetID pubKey))
  | Some (TX_PUBKEYHASH, v :: _) => Some (CKeyID v)
  | Some (TX_SCRIPTHASH, v :: _) => Some (CScriptID v)
  | Some (TX_NEW_ASSET, v :: _) | Some (TX_REISSUE_ASSET, v :: _) | Some (TX_TRANSFER_ASSET, v :: _) => Some (CKeyID v)
  | Some (TX_RESTRICTED_ASSET_DATA, v :: _) => Some (CKeyID v)
  | _ => None
  end.

(** Type, destinations and number of required signatures. *)
Definition ExtractDestinations (s : bytes) : option (txnouttype * list CTxDestination * Z) :=
  match Solver s with
  | None | Some (TX_NULL_DATA, _) => None
  | Some (TX_MULTISIG, vSolutions) =>
    let keys := take (length vSolutions - 2) (drop 1 vSolutions) in
    let addressRet := (CKeyID ∘ pubkey_GetID) <$> filter (fun k => pubkey_IsValid k = true) (pubkey_Set <$> keys) in
    match addressRet with
    | [] => None
    | _ => Some (TX_MULTISIG, addressRet, at_ (default [] (head vSolutions)) 0)
    end
  | Some (typeRet, _) =>
    match ExtractDestination s with
    | Some address => Some (typeRet, [address], 1)
    | None => None
    end
  end.

(** ** Builders *)

(** [CScriptVisitor]. *)
Definition GetScriptForDestination (dest : CTxDestination) : bytes :=
  match dest with
  | CNoDestination => []
  | CKeyID keyID => p2pkh_script keyID
  | CScriptID scriptID => [opcode_value OP_HASH160] ++ push_data scriptID ++ [opcode_value OP_EQUAL]
  end.

(** [CNullAssetScriptVisitor]. *)
Definition GetScriptForNullAssetDataDestination (dest : CTxDestination) : bytes :=
  match dest with
  | CNoDestination => []
  | CKeyID id | CScriptID id => [opcode_value OP_HNB_ASSET] ++ push_data id
  end.

Definition GetScriptForRawPubKey (pubKey : bytes) : bytes :=
  push_data (take (pubkey_size pubKey) pubKey) ++ [opcode_value OP_CHECKSIG].

(** [None] is a failed assertion of [EncodeOP_N]. *)
Definition GetScriptForMultisig (nRequired : Z) (keys : list bytes) : option bytes :=
  m ← EncodeOP_N nRequired;
  n ← EncodeOP_N (Z.of_nat (length keys));
  Some ([m] ++ concat ((fun k => push_data (take (pubkey_size k) k)) <$> keys) ++ [n; opcode_value OP_CHECKMULTISIG]).

Definition GetScriptForWitness (redeemscript : bytes) : bytes :=
  match Solver redeemscript with
  | Some (TX_PUBKEY, v :: _) => [opcode_value OP_0] ++ push_data (Hash160 v)
  | Some (TX_PUBKEYHASH, v :: _) => [opcode_value OP_0] ++ push_data v
  | _ => [opcode_value OP_0] ++ push_data (CSHA256_Finalize (CSHA256_Write CSHA256_init redeemscript))
  end.

(** ** Recognising what the builders build *)

(** A destination of the network: a 20-byte key or script identifier. *)
Definition proper_destination (d : CTxDestination) : Prop :=
  match d with CNoDestination => False | CKeyID id | CScriptID id => is_bytes id /\ length id = 20%nat end.

(** The solutions of a byte string are byte strings. *)
Lemma DecodeOP_N_byte opcode n : DecodeOP_N opcode = Some n -> is_bytes [n].
Proof.
  unfold DecodeOP_N. intros H. repeat constructor; destruct (opcode =? OP_0); [injection H as <-; lia|..].
  - destruct ((opcode >=? OP_1) && (opcode <=? OP_16)) eqn:E; [|done]. injection H as <-. b2p.
    change (opcode_value OP_1) with 81 in *. change (opcode_value OP_16) with 96 in *. lia.
  - injection H as <-. lia.
  - destruct ((opcode >=? OP_1) && (opcode <=? OP_16)) eqn:E; [|done]. injection H as <-. b2p.
    change (opcode_value OP_1) with 81 in *. change (opcode_value OP_16) with 96 in *. lia.
Qed.

Lemma pubkeys_loop_bytes fuel : forall r1 v r1' v',
  is_bytes (vchRet r1) -> is_bytes (go_pc r1) -> Forall is_bytes v -> pubkeys_loop fuel r1 v = (r1', v') ->
  is_bytes (vchRet r1') /\ is_bytes (go_pc r1') /\ Forall is_bytes v'.
Proof.
  induction fuel as [|fuel IH]; intros r1 v r1' v' H1 H2 Hv; cbn [pubkeys_loop]; [by intros [= <- <-]|].
  destruct (pubkey_sized (vchRet r1)); [|by intros [= <- <-]].
  destruct (GetOp_bytes _ H2) as [H3 H4].
  assert (Hv' : Forall is_bytes (v ++ [vchRet r1])) by (apply Forall_app; split; [done|by constructor]).
  destruct (go_ok (GetOp (go_pc r1))); [by apply IH|by intros [= <- <-]].
Qed.

Lemma match_template_bytes fuel : forall pc1 pc2 v v',
  is_bytes pc1 -> Forall is_bytes v -> match_template fuel pc1 pc2 v = Some v' -> Forall is_bytes v'.
Proof.
  assert (Hsnoc : forall v x, Forall is_bytes v -> is_bytes x -> Forall is_bytes (v ++ [x])).
  { intros v x Hv Hx. apply Forall_app. split; [done|by constructor]. }
  induction fuel as [|fuel IH]; intros pc1 pc2 v v' Hpc Hv Hm.
  { destruct pc1, pc2; try done. by injection Hm as <-. }
  destruct (decide (pc1 = [] /\ pc2 = [])) as [[-> ->]|Hne]; [by injection Hm as <-|].
  assert (Hm' : exists r1 vs r2, is_bytes (vchRet r1) /\ is_bytes (go_pc r1) /\ Forall is_bytes vs /\
    (if opcodeRet r2 =? OP_PUBKEY then
       if negb (pubkey_sized (vchRet r1)) then None else match_template fuel (go_pc r1) (go_pc r2) (vs ++ [vchRet r1])
     else if opcodeRet r2 =? OP_PUBKEYHASH then
       if negb (length (vchRet r1) =? 20)%nat then None else match_template fuel (go_pc r1) (go_pc r2) (vs ++ [vchRet r1])
     else if opcodeRet r2 =? OP_SMALLINTEGER then
       match DecodeOP_N (opcodeRet r1) with
       | Some n => match_template fuel (go_pc r1) (go_pc r2) (vs ++ [[n]])
       | None => None
       end
     else if negb (opcodeRet r1 =? opcodeRet r2) || negb (bool_decide (vchRet r1 = vchRet r2)) then None
     else match_template fuel (go_pc r1) (go_pc r2) vs) = Some v').
  { destruct (GetOp_bytes pc1 Hpc) as [H1 H2].
    assert (Hm2 : match_template (S fuel) pc1 pc2 v = Some v') by exact Hm. cbn [match_template] in Hm2.
    destruct pc1 as [|x pc1], pc2 as [|y pc2]; try (exfalso; by apply Hne); cbv zeta in Hm2; revert Hm2;
      destruct (negb (go_ok (GetOp _))); try done; destruct (negb (go_ok (GetOp _))); try done;
      (destruct (opcodeRet (GetOp _) =? OP_PUBKEYS) eqn:Eq;
       [destruct (pubkeys_loop _ _ v) as [r vs] eqn:E;
        destruct (pubkeys_loop_bytes _ _ _ _ _ H1 H2 Hv E) as (H3 & H4 & H5)|]);
      destruct (negb (go_ok (GetOp _))); try done; intros Hm2; by do 3 eexists. }
  destruct Hm' as (r1 & vs & r2 & H1 & H2 & H3 & Hm'). revert Hm'.
  clear Hm. destruct (opcodeRet r2 =? OP_PUBKEY); [split_if; [done|]; apply IH; auto|].
  destruct (opcodeRet r2 =? OP_PUBKEYHASH); [split_if; [done|]; apply IH; auto|].
  destruct (opcodeRet r2 =? OP_SMALLINTEGER); [|split_if; [done|]; by apply IH].
  destruct (DecodeOP_N (opcodeRet r1)) eqn:En; [|done]. apply IH; [done|]. apply Hsnoc; [done|by eapply DecodeOP_N_byte].
Qed.

Lemma Solver_bytes s t v : is_bytes s -> Solver s = Some (t, v) -> Forall is_bytes v.
Proof.
  intros Hs. assert (Hsl : forall n m, is_bytes (take n (drop m s))) by (intros; by apply Forall_take, Forall_drop).
  unfold Solver. destruct (IsPayToScriptHash s); [intros [= <- <-]; by constructor|].
  destruct (IsAssetScript s) as [[[? ?] ?]|]; [intros [= <- <-]; by constructor|].
  destruct (IsWitnessProgram s) as [[ver prog]|] eqn:E.
  - assert (is_bytes prog).
    { revert E. unfold IsWitnessProgram. repeat split_if; try done.
      intros E. destruct (DecodeOP_N (at_ s 0)); [|done]. injection E as <- <-. by apply Forall_drop. }
    repeat split_if; try done; intros [= <- <-]; by constructor.
  - repeat split_if; [intros [= <- <-]; by constructor| |intros [= <- <-]; by constructor|].
    + intros [= <- <-]. by constructor.
    + generalize mTemplates. intros l. induction l as [|[ty s2] l IH]; cbn [scan_templates]; [done|].
      destruct (match_template _ s s2 []) eqn:Em; [|done]. split_if; [done|]. intros [= <- <-].
      by eapply match_template_bytes.
Qed.

Lemma ExtractDestination_bytes s d : is_bytes s -> ExtractDestination s = Some d ->
  match d with CNoDestination => False | CKeyID id | CScriptID id => is_bytes id end.
Proof.
  intros Hs. unfold ExtractDestination. destruct (Solver s) as [[t v]|] eqn:E; [|done].
  pose proof (Solver_bytes _ _ _ Hs E) as Hv. destruct t, v as [|x v]; try done; apply Forall_cons in Hv as [Hx _];
    try (by intros [= <-]). split_if; [done|]. intros [= <-]. unfold pubkey_GetID. rewrite Hash160_spec. apply ripemd160_digest.
Qed.

Lemma push_data_20 id : length id = 20%nat -> push_data id = 20 :: id.
Proof. intros H. unfold push_data. by rewrite H. Qed.

(** Twenty bytes, one by one. *)
Lemma list_20 (id : bytes) : length id = 20%nat ->
  exists x0 x1 x2 x3 x4 x5 x6 x7 x8 x9 y0 y1 y2 y3 y4 y5 y6 y7 y8 y9,
    id = [x0; x1; x2; x3; x4; x5; x6; x7; x8; x9; y0; y1; y2; y3; y4; y5; y6; y7; y8; y9].
Proof.
  intros H. do 20 (destruct id as [|? id]; [done|]). destruct id; [|done]. by do 20 eexists.
Qed.

Lemma Solver_pubkeyhash id : length id = 20%nat -> Solver (p2pkh_script id) = Some (TX_PUBKEYHASH, [id]).
Proof.
  intros H. unfold p2pkh_script. rewrite push_data_20 by done.
  destruct (list_20 id H) as (? & ? & ? & ? & ? & ? & ? & ? & ? & ? & ? & ? & ? & ? & ? & ? & ? & ? & ? & ? & ->).
  reflexivity.
Qed.

Lemma Solver_scripthash id : length id = 20%nat ->
  Solver (GetScriptForDestination (CScriptID id)) = Some (TX_SCRIPTHASH, [id]).
Proof.
  intros H. cbn [GetScriptForDestination]. rewrite push_data_20 by done.
  destruct (list_20 id H) as (? & ? & ? & ? & ? & ? & ? & ? & ? & ? & ? & ? & ? & ? & ? & ? & ? & ? & ? & ? & ->).
  reflexivity.
Qed.

(** A serialized public key: its length is the one its first byte announces. *)
Definition proper_pubkey (k : bytes) : Prop := pubkey_IsValid k = true /\ length k = pubkey_size k.

Lemma proper_pubkey_sized k : proper_pubkey k ->
  (length k = 33%nat \/ length k = 65%nat) /\ pubkey_sized k = true /\ take (pubkey_size k) k = k.
Proof.
  intros [Hv Hl]. unfold pubkey_IsValid in Hv. b2p. unfold pubkey_sized. rewrite <- Hl in *.
  rewrite firstn_all. unfold pubkey_size, pubkey_GetLen in Hl.
  repeat case_match; rewrite Hl in *; splits; auto; lia.
Qed.

Definition push_keys (keys : list bytes) : bytes := concat (push_data <$> keys).

(** The key loop reads the keys and stops in front of the instruction behind them. *)
Lemma pubkeys_loop_spec keys : forall fuel rest sols,
  Forall proper_pubkey keys -> (length keys < fuel)%nat ->
  go_ok (GetOp rest) = true -> pubkey_sized (vchRet (GetOp rest)) = false ->
  pubkeys_loop fuel (GetOp (push_keys keys ++ rest)) sols = (GetOp rest, sols ++ keys).
Proof.
  induction keys as [|k keys IH]; intros fuel rest sols Hk Hf Hok Hsz.
  { destruct fuel; [cbn in Hf; lia|]. cbn [push_keys concat fmap list_fmap app pubkeys_loop]. by rewrite Hsz, app_nil_r. }
  apply Forall_cons in Hk as [Hk Hks]. destruct (proper_pubkey_sized k Hk) as (Hl & Hs & _).
  destruct fuel as [|fuel]; [cbn in Hf; lia|]. cbn [length] in Hf.
  change (push_keys (k :: keys)) with (push_data k ++ push_keys keys). rewrite <- app_assoc.
  rewrite GetOp_push_data by lia. cbn [pubkeys_loop vchRet go_pc]. rewrite Hs.
  assert (Hgo : go_ok (GetOp (push_keys keys ++ rest)) = true).
  { destruct keys as [|k' keys]; [done|]. change (push_keys (k' :: keys)) with (push_data k' ++ push_keys keys).
    rewrite <- app_assoc, GetOp_push_data; [done|]. apply Forall_cons in Hks as [Hk' _].
    destruct (proper_pubkey_sized k' Hk') as (? & _). lia. }
  rewrite Hgo, IH by (done || lia). by rewrite <- app_assoc.
Qed.

Lemma EncodeOP_N_range n : 1 <= n <= 16 -> EncodeOP_N n = Some (80 + n) /\ DecodeOP_N (80 + n) = Some n.
Proof.
  intros H. unfold EncodeOP_N, DecodeOP_N. cbn [opcode_value].
  replace ((n >=? 0) && (n <=? 16)) with true by (symmetry; apply andb_true_iff; rewrite Z.geb_leb, !Z.leb_le; lia).
  destruct (Z.eqb_spec n 0); [lia|]. destruct (Z.eqb_spec (80 + n) 0); [lia|].
  replace ((80 + n >=? 81) && (80 + n <=? 96)) with true by (symmetry; apply andb_true_iff; rewrite Z.geb_leb, !Z.leb_le; lia).
  split; do 2 f_equal; lia.
Qed.

Lemma GetOp_small n rest : 1 <= n <= 16 -> GetOp ((80 + n) :: rest) = mkGetOp true (80 + n) [] rest.
Proof. intros H. apply GetOp_opcode; cbn [opcode_value]; lia. Qed.

Definition multisig_script (m : Z) (keys : list bytes) : bytes :=
  (80 + m) :: push_keys keys ++ [80 + Z.of_nat (length keys); opcode_value OP_CHECKMULTISIG].

Lemma GetScriptForMultisig_spec m keys :
  1 <= m <= 16 -> (1 <= length keys <= 16)%nat -> Forall proper_pubkey keys ->
  GetScriptForMultisig m keys = Some (multisig_script m keys).
Proof.
  intros Hm Hn Hk. unfold GetScriptForMultisig.
  destruct (EncodeOP_N_range m Hm) as [-> _]. destruct (EncodeOP_N_range (Z.of_nat (length keys)) ltac:(lia)) as [-> _].
  cbn [mbind option_bind app]. unfold multisig_script, push_keys. do 4 f_equal.
  apply list_fmap_ext. intros i k Hi. eapply Forall_lookup_1 in Hk; [|done].
  by destruct (proper_pubkey_sized k Hk) as (_ & _ & ->).
Qed.

(** One turn of the matching loop, for the instructions of the multisig template. *)
Lemma match_small fuel n pc1 pc2 sols :
  1 <= n <= 16 ->
  match_template (S fuel) ((80 + n) :: pc1) (opcode_value OP_SMALLINTEGER :: pc2) sols
  = match_template fuel pc1 pc2 (sols ++ [[n]]).
Proof.
  intros Hn. cbn [match_template]. rewrite GetOp_small by done. cbn [go_ok negb].
  rewrite (GetOp_opcode OP_SMALLINTEGER) by done. cbn [go_ok negb opcodeRet go_pc vchRet].
  change (OP_SMALLINTEGER =? OP_PUBKEYS) with false. change (OP_SMALLINTEGER =? OP_PUBKEY) with false.
  change (OP_SMALLINTEGER =? OP_PUBKEYHASH) with false. change (OP_SMALLINTEGER =? OP_SMALLINTEGER) with true.
  cbn [go_ok negb opcodeRet go_pc vchRet]. by destruct (EncodeOP_N_range n Hn) as [_ ->].
Qed.

Lemma push_keys_length keys : (length keys <= length (push_keys keys))%nat.
Proof.
  induction keys as [|k keys IH]; [done|]. change (push_keys (k :: keys)) with (push_data k ++ push_keys keys).
  rewrite length_app. pose proof (push_data_nonempty k). destruct (push_data k); [done|]. cbn. lia.
Qed.

Lemma match_keys fuel keys n pc1 pc2 sols :
  1 <= n <= 16 -> Forall proper_pubkey keys -> keys <> [] ->
  match_template (S fuel) (push_keys keys ++ (80 + n) :: pc1)
    (opcode_value OP_PUBKEYS :: opcode_value OP_SMALLINTEGER :: pc2) sols
  = match_template fuel pc1 pc2 (sols ++ keys ++ [[n]]).
Proof.
  intros Hn Hk Hne. destruct keys as [|k keys]; [done|].
  assert (Hr : GetOp ((80 + n) :: pc1) = mkGetOp true (80 + n) [] pc1) by (by apply GetOp_small).
  pose proof (pubkeys_loop_spec (k :: keys) (S (length (push_keys (k :: keys) ++ (80 + n) :: pc1))) ((80 + n) :: pc1) sols Hk) as Hl.
  rewrite Hr in Hl. cbn [go_ok vchRet] in Hl.
  specialize (Hl ltac:(rewrite length_app; pose proof (push_keys_length (k :: keys)); lia) eq_refl eq_refl).
  assert (Hg : go_ok (GetOp (push_keys (k :: keys) ++ (80 + n) :: pc1)) = true).
  { change (push_keys (k :: keys)) with (push_data k ++ push_keys keys). rewrite <- app_assoc, GetOp_push_data; [done|].
    apply Forall_cons in Hk as [Hk _]. destruct (proper_pubkey_sized k Hk) as (? & _). lia. }
  destruct (push_keys (k :: keys) ++ (80 + n) :: pc1) as [|x pc] eqn:Epc; [by destruct (push_keys (k :: keys))|].
  cbn [match_template]. rewrite Hg. cbn [negb]. rewrite (GetOp_opcode OP_PUBKEYS) by done. cbn [go_ok negb opcodeRet go_pc].
  change (OP_PUBKEYS =? OP_PUBKEYS) with true. rewrite Hl, (GetOp_opcode OP_SMALLINTEGER) by done.
  cbn [go_ok negb opcodeRet go_pc vchRet]. change (OP_SMALLINTEGER =? OP_PUBKEY) with false.
  change (OP_SMALLINTEGER =? OP_PUBKEYHASH) with false. change (OP_SMALLINTEGER =? OP_SMALLINTEGER) with true.
  destruct (EncodeOP_N_range n Hn) as [_ ->]. by rewrite <- app_assoc.
Qed.

Lemma match_multisig m keys :
  1 <= m <= 16 -> (1 <= length keys <= 16)%nat -> Forall proper_pubkey keys ->
  match_template (S (length (multisig_script m keys))) (multisig_script m keys)
    (opcode_value <$> [OP_SMALLINTEGER; OP_PUBKEYS; OP_SMALLINTEGER; OP_CHECKMULTISIG]) []
  = Some ([m] :: keys ++ [[Z.of_nat (length keys)]]).
Proof.
  intros Hm Hn Hk. unfold multisig_script. cbn [fmap list_fmap length].
  rewrite match_small by done. rewrite match_keys; [|lia|done|destruct keys; [cbn in Hn; lia|done]].
  rewrite length_app. cbn [length]. rewrite Nat.add_comm. reflexivity.
Qed.

(** The other templates do not match an opcode other than [OP_DUP]. *)
Lemma match_other fuel pc1 op1 r (op2 : opcodetype) pc2 sols :
  pc1 <> [] -> GetOp pc1 = mkGetOp true op1 [] r -> op1 <> OP_DUP -> op2 = OP_PUBKEY \/ op2 = OP_DUP ->
  match_template fuel pc1 (opcode_value op2 :: pc2) sols = None.
Proof.
  intros Hne Hg Hd Hop. destruct pc1 as [|x pc1]; [done|]. destruct fuel as [|fuel]; [done|]. cbn [match_template].
  rewrite Hg. cbn [go_ok negb]. destruct Hop as [->| ->].
  - by rewrite (GetOp_opcode OP_PUBKEY) by done.
  - rewrite (GetOp_opcode OP_DUP) by done. cbn [go_ok negb opcodeRet vchRet go_pc].
    change (OP_DUP =? OP_PUBKEYS) with false. cbn [go_ok negb opcodeRet vchRet go_pc].
    change (OP_DUP =? OP_PUBKEY) with false. change (OP_DUP =? OP_PUBKEYHASH) with false.
    change (OP_DUP =? OP_SMALLINTEGER) with false. by destruct (Z.eqb_spec op1 OP_DUP).
Qed.

Lemma Solver_multisig m keys :
  1 <= m <= Z.of_nat (length keys) -> (length keys <= 16)%nat -> Forall proper_pubkey keys ->
  IsAssetScript (multisig_script m keys) = None ->
  Solver (multisig_script m keys) = Some (TX_MULTISIG, [m] :: keys ++ [[Z.of_nat (length keys)]]).
Proof.
  intros Hm Hn Hk Ha. unfold Solver. rewrite Ha.
  destruct keys as [|k keys]; [cbn in Hm; lia|]. set (n := Z.of_nat (length (k :: keys))) in *.
  pose proof (match_multisig m (k :: keys) ltac:(lia) ltac:(cbn in *; lia) Hk) as Hmatch.
  apply Forall_cons in Hk as [Hk Hks]. destruct (proper_pubkey_sized k Hk) as (Hl & Hs & _).
  assert (Hscript : exists tl, multisig_script m (k :: keys) = (80 + m) :: Z.of_nat (length k) :: k ++ tl
    /\ (2 <= length tl)%nat).
  { exists (push_keys keys ++ [80 + n; opcode_value OP_CHECKMULTISIG]). split; [|rewrite length_app; cbn; lia].
    unfold multisig_script. change (push_keys (k :: keys)) with (push_data k ++ push_keys keys).
    replace (push_data k) with (Z.of_nat (length k) :: k); [by rewrite <- app_assoc|].
    unfold push_data. by destruct Hl as [->| ->]. }
  destruct Hscript as (tl & Es & Htl). rewrite Es in *. clear Es.
  set (s := (80 + m) :: Z.of_nat (length k) :: k ++ tl) in *.
  assert (Hat : at_ s 0 = 80 + m /\ at_ s 1 = Z.of_nat (length k)) by done. destruct Hat as [H0 H1].
  assert (Hlen : length s = (2 + length k + length tl)%nat) by (unfold s; cbn; rewrite length_app; lia).
  replace (IsPayToScriptHash s) with false.
  2:{ unfold IsPayToScriptHash. rewrite H0. cbn [opcode_value]. destruct (Z.eqb_spec (80 + m) 169); [lia|].
      by rewrite andb_false_r. }
  replace (IsWitnessProgram s) with (@None (Z * bytes)).
  2:{ unfold IsWitnessProgram. rewrite H1, Hlen. destruct (_ || _); [done|]. destruct (_ && _); [done|].
      destruct (Z.eqb_spec (Z.of_nat (length k) + 2) (Z.of_nat (2 + length k + length tl))); [lia|done]. }
  rewrite H0. cbn [opcode_value]. destruct (Z.eqb_spec (80 + m) 106); [lia|]. destruct (Z.eqb_spec (80 + m) 192); [lia|].
  rewrite !andb_false_r. cbn [andb]. unfold mTemplates. cbn [scan_templates].
  assert (Hg : GetOp s = mkGetOp true (80 + m) [] (drop 1 s)) by (apply GetOp_small; lia).
  assert (Hm118 : 80 + m <> OP_DUP) by (cbn; lia).
  cbn [fmap list_fmap] in *. rewrite !(match_other _ s (80 + m) (drop 1 s)) by (done || auto).
  rewrite Hmatch. fold n. rewrite bool_decide_true by done.
  replace (multisig_counts_ok ([m] :: (k :: keys) ++ [[n]])) with true; [done|].
  symmetry. unfold multisig_counts_ok. cbn [head default]. rewrite app_comm_cons, last_snoc. cbn [default at_ nth length].
  rewrite length_app. cbn [length]. rewrite negb_true_iff, !orb_false_iff, negb_false_iff, Z.gtb_ltb, !Z.ltb_ge, Z.eqb_eq.
  unfold n in *. cbn [length id at_ nth] in *. lia.
Qed.

Lemma pubkey_Set_proper k : proper_pubkey k -> pubkey_Set k = k.
Proof.
  intros [Hv Hl]. unfold pubkey_IsValid in Hv. b2p. unfold pubkey_Set, pubkey_size in *.
  destruct k as [|x k]; [cbn in *; lia|]. change (at_ (x :: k) 0) with x in *.
  rewrite <- Hl, Nat.eqb_refl. done.
Qed.

Lemma Solver_pubkey k : proper_pubkey k -> IsAssetScript (GetScriptForRawPubKey k) = None ->
  Solver (GetScriptForRawPubKey k) = Some (TX_PUBKEY, [k]).
Proof.
  intros Hk Ha. unfold Solver. rewrite Ha. revert Ha. unfold GetScriptForRawPubKey.
  destruct (proper_pubkey_sized k Hk) as (Hl & Hs & ->). intros _.
  assert (Hp : push_data k = Z.of_nat (length k) :: k) by (unfold push_data; by destruct Hl as [->| ->]).
  set (s := push_data k ++ [opcode_value OP_CHECKSIG]).
  assert (Hat : at_ s 0 = Z.of_nat (length k)) by (unfold s; by rewrite Hp).
  replace (IsPayToScriptHash s) with false.
  2:{ unfold IsPayToScriptHash. rewrite Hat. cbn [opcode_value].
      destruct (Z.eqb_spec (Z.of_nat (length k)) 169); [lia|]. by rewrite andb_false_r. }
  replace (IsWitnessProgram s) with (@None (Z * bytes)).
  2:{ unfold IsWitnessProgram. rewrite Hat. destruct (_ || _); [done|]. cbn [opcode_value].
      destruct (Z.eqb_spec (Z.of_nat (length k)) 0); [lia|]. destruct (Z.ltb_spec (Z.of_nat (length k)) 81); [done|lia]. }
  rewrite Hat. cbn [opcode_value]. destruct (Z.eqb_spec (Z.of_nat (length k)) 106); [lia|].
  destruct (Z.eqb_spec (Z.of_nat (length k)) 192); [lia|]. rewrite !andb_false_r. cbn [andb].
  unfold mTemplates. cbn [scan_templates].
  replace (match_template (S (length s)) s [opcode_value OP_PUBKEY; opcode_value OP_CHECKSIG] []) with (Some [k]); [done|].
  symmetry. unfold s. rewrite length_app. cbn [length]. rewrite Nat.add_comm.
  rewrite Hp. cbn [match_template app]. rewrite app_comm_cons, <- Hp.
  rewrite GetOp_push_data by lia. cbn [go_ok negb]. rewrite (GetOp_opcode OP_PUBKEY) by done.
  cbn [go_ok negb opcodeRet vchRet go_pc]. change (OP_PUBKEY =? OP_PUBKEYS) with false.
  cbn [go_ok negb opcodeRet vchRet go_pc]. change (OP_PUBKEY =? OP_PUBKEY) with true. rewrite Hs. cbn [negb app].
  by rewrite Hp.
Qed.

(** Standard scripts.  The scripts built for a key identifier, a script identifier, a
    raw public key and an [m]-of-[n] multisig are classified as such, with the
    identifier or keys as solutions, and the destination of the first two is
    extracted again.  (A raw key or multisig script must not carry the asset marker at
    the fixed position where the classifier looks for it first.) *)
Theorem standard_scripts_recognised (d : CTxDestination) (k : bytes) (m : Z) (keys : list bytes) :
  proper_destination d -> proper_pubkey k -> IsAssetScript (GetScriptForRawPubKey k) = None ->
  1 <= m <= Z.of_nat (length keys) -> (length keys <= 16)%nat -> Forall proper_pubkey keys ->
  ExtractDestination (GetScriptForDestination d) = Some d
  /\ (Solver (GetScriptForRawPubKey k) = Some (TX_PUBKEY, [k])
      /\ ExtractDestination (GetScriptForRawPubKey k) = Some (CKeyID (Hash160 k)))
  /\ exists s, GetScriptForMultisig m keys = Some s
      /\ (IsAssetScript s = None -> Solver s = Some (TX_MULTISIG, [m] :: keys ++ [[Z.of_nat (length keys)]])).
Proof.
  intros Hd Hk Ha Hm Hn Hks. splits.
  - unfold ExtractDestination. destruct d as [|id|id]; [done| |]; destruct Hd as [_ Hl].
    + cbn [GetScriptForDestination]. by rewrite Solver_pubkeyhash.
    + by rewrite Solver_scripthash.
  - by apply Solver_pubkey.
  - unfold ExtractDestination. rewrite Solver_pubkey by done. destruct (proper_pubkey_sized k Hk) as (Hl & _ & Ht).
    destruct Hk as [Hv Hsz]. rewrite pubkey_Set_proper by done. rewrite Hv. cbn [negb]. unfold pubkey_GetID. by rewrite Ht.
  - exists (multisig_script m keys). split; [apply GetScriptForMultisig_spec; (done || lia)|]. by apply Solver_multisig.
Qed.

Lemma standard_scripts_recognised_witness :
  exists s, GetScriptForMultisig 1 [2 :: replicate 32 7; 3 :: replicate 32 9] = Some s
    /\ (IsAssetScript s = None -> Solver s = Some (TX_MULTISIG, [1] :: [2 :: replicate 32 7; 3 :: replicate 32 9] ++ [[2]])).
Proof.
  apply (standard_scripts_recognised (CKeyID (replicate 20 5)) (2 :: replicate 32 7) 1 [2 :: replicate 32 7; 3 :: replicate 32 9]);
    [|by split|reflexivity|cbn; lia|cbn; lia|by repeat (apply Forall_cons_2 || apply Forall_nil_2)].
  split; [by apply Forall_replicate|reflexivity].
Defined.
