(* ===== verification/Base58.v ===== *)
(** * Base58 strings and addresses: [src/base58.cpp]

    The two radix conversions on digit arrays, the checksummed form and the
    addresses of destinations.  A string is the list of its characters; the digit
    arrays, which the code fills from their end, are kept with the last element
    first. *)

From S2P Require Import Prelude HashFns Endian Standard.

(** ** Conversion *)

Definition pszBase58 : bytes := chars "123456789ABCDEFGHJKLMNPQRSTUVWXYZabcdefghijkmnopqrstuvwxyz".

Definition isspace (c : Z) : bool := (c =? 32) || ((9 <=? c) && (c <=? 13)).

(** The characters of a C string: up to the first NUL. *)
Fixpoint c_str (s : bytes) : bytes :=
  match s with
  | c :: s => if c =? 0 then [] else c :: c_str s
  | [] => []
  end.

(** A loop that skips elements while [p] holds: the elements skipped and those that
    remain. *)
Fixpoint span (p : Z -> bool) (l : bytes) : bytes * bytes :=
  match l with
  | x :: l' => if p x then let '(a, b) := span p l' in (x :: a, b) else ([], l)
  | [] => ([], [])
  end.

(** The inner loop: [b = b * from + carry] in base [to], over [length] digits and as
    long as there is a carry. *)
Fixpoint mul_add (from to : Z) (carry : Z) (i length : nat) (b : list Z) : list Z * Z * nat :=
  match b with
  | [] => ([], carry, i)
  | d :: b' =>
    if negb (carry =? 0) || (i <? length)%nat then
      let carry := carry + from * d in
      let '(b', c, i) := mul_add from to (carry / to) (S i) length b' in
      (carry mod to :: b', c, i)
    else (b, carry, i)
  end.

(** One iteration per input digit; the assertion is that the carry is used up. *)
Fixpoint convert (from to : Z) (ds : list Z) (b : list Z) (length : nat) : result fault (list Z * nat) :=
  match ds with
  | [] => Ok (b, length)
  | d :: ds =>
    let '(b, carry, i) := mul_add from to d 0 length b in
    if negb (carry =? 0) then Err AssertFailure else convert from to ds b i
  end.

(** The digits from [begin + (size - length)] on, without leading zeros. *)
Definition significant (b : list Z) (length : nat) : list Z := (span (Z.eqb 0) (reverse (take length b))).2.

Definition EncodeBase58 (v : bytes) : result fault bytes :=
  let '(zeroes, v) := span (Z.eqb 0) v in
  let size := (length v * 138 / 100 + 1)%nat in
  let* (b58, len) := convert 256 58 v (replicate size 0) 0 in
  Ok (((fun _ => 49) <$> zeroes) ++ ((fun d => nth (Z.to_nat d) pszBase58 0) <$> significant b58 len)).

(** [strchr(pszBase58, c) - pszBase58]. *)
Fixpoint index_of (c : Z) (l : bytes) : option Z :=
  match l with
  | [] => None
  | x :: l => if x =? c then Some 0 else Z.succ <$> index_of c l
  end.

(** The loop over the characters, up to a space or the end; [None] is the return value
    [false] for a character outside the alphabet. *)
Fixpoint decode_loop (psz : bytes) (b256 : list Z) (length : nat) : result fault (option (list Z * nat * bytes)) :=
  match psz with
  | [] => Ok (Some (b256, length, []))
  | c :: psz' =>
    if isspace c then Ok (Some (b256, length, psz))
    else match index_of c pszBase58 with
         | None => Ok None
         | Some ch =>
           let '(b256, carry, i) := mul_add 58 256 ch 0 length b256 in
           if negb (carry =? 0) then Err AssertFailure else decode_loop psz' b256 i
         end
  end.

Definition DecodeBase58 (str : bytes) : result fault (option bytes) :=
  let '(_, psz) := span isspace (c_str str) in
  let '(zeroes, psz) := span (Z.eqb 49) psz in
  let size := (length psz * 733 / 1000 + 1)%nat in
  r ← decode_loop psz (replicate size 0) 0;
  match r with
  | None => Ok None
  | Some (b256, len, psz) =>
    let '(_, psz) := span isspace psz in
    match psz with
    | [] => Ok (Some (((fun _ => 0) <$> zeroes) ++ significant b256 len))
    | _ => Ok None
    end
  end.

(** ** Checksums *)

Definition EncodeBase58Check (vchIn : bytes) : result fault bytes := EncodeBase58 (vchIn ++ take 4 (Hash vchIn)).

Definition DecodeBase58Check (psz : bytes) : result fault (option bytes) :=
  r ← DecodeBase58 psz;
  match r with
  | None => Ok None
  | Some vchRet =>
    if (length vchRet <? 4)%nat then Ok None
    else
      let body := take (length vchRet - 4) vchRet in
      if bool_decide (take 4 (Hash body) = drop (length vchRet - 4) vchRet) then Ok (Some body) else Ok None
  end.

(** ** Addresses *)

(** [CBase58Data]. *)
Record CBase58Data := mkBase58Data { vchVersion : bytes; vchData : bytes }.

Definition SetString (psz : bytes) (nVersionBytes : nat) : result fault CBase58Data :=
  r ← DecodeBase58Check psz;
  match r with
  | None => Ok (mkBase58Data [] [])
  | Some vchTemp =>
    if (length vchTemp <? nVersionBytes)%nat then Ok (mkBase58Data [] [])
    else Ok (mkBase58Data (take nVersionBytes vchTemp) (drop nVersionBytes vchTemp))
  end.

Definition ToString (d : CBase58Data) : result fault bytes := EncodeBase58Check (vchVersion d ++ vchData d).

Section Addresses.
(** [Base58Prefix] of the selected chain. *)
Context (PUBKEY_ADDRESS SCRIPT_ADDRESS : bytes).

(** [CHookersAndBlowAddress]. *)
Definition address_Set (dest : CTxDestination) : CBase58Data :=
  match dest with
  | CKeyID id => mkBase58Data PUBKEY_ADDRESS id
  | CScriptID id => mkBase58Data SCRIPT_ADDRESS id
  | CNoDestination => mkBase58Data [] []
  end.

Definition address_IsValid (a : CBase58Data) : bool :=
  (length (vchData a) =? 20)%nat &&
  (bool_decide (vchVersion a = PUBKEY_ADDRESS) || bool_decide (vchVersion a = SCRIPT_ADDRESS)).

Definition address_Get (a : CBase58Data) : CTxDestination :=
  if negb (address_IsValid a) then CNoDestination
  else if bool_decide (vchVersion a = PUBKEY_ADDRESS) then CKeyID (vchData a)
  else if bool_decide (vchVersion a = SCRIPT_ADDRESS) then CScriptID (vchData a)
  else CNoDestination.

Definition EncodeDestination (dest : CTxDestination) : result fault bytes :=
  let addr := address_Set dest in
  if negb (address_IsValid addr) then Ok [] else ToString addr.

Definition DecodeDestination (str : bytes) : result fault CTxDestination :=
  addr ← SetString str 1; Ok (address_Get addr).
End Addresses.

(** ** Digit lists *)

(** The number of a digit list, last digit first and first digit first. *)
Fixpoint val_le (b : Z) (l : list Z) : Z := match l with [] => 0 | d :: l => d + b * val_le b l end.
Definition val_be (b : Z) (l : list Z) : Z := val_le b (reverse l).

Definition digits (b : Z) (l : list Z) : Prop := Forall (fun d => 0 <= d < b) l.
Definition no_leading_zero (l : list Z) : Prop := head l <> Some 0.

Lemma val_le_range b l : 0 < b -> digits b l -> 0 <= val_le b l < b ^ Z.of_nat (length l).
Proof.
  intros Hb. induction 1 as [|d l Hd Hl IH]; [cbn; lia|]. cbn [val_le length].
  rewrite Nat2Z.inj_succ, Z.pow_succ_r by lia. nia.
Qed.

Lemma val_le_app b l l' : 0 < b -> val_le b (l ++ l') = val_le b l + b ^ Z.of_nat (length l) * val_le b l'.
Proof.
  intros Hb. induction l as [|d l IH]; cbn [val_le app length]; [rewrite Z.pow_0_r; lia|].
  rewrite Nat2Z.inj_succ, Z.pow_succ_r, IH by lia. ring.
Qed.

Lemma val_le_zeros b l : Forall (fun d => d = 0) l -> val_le b l = 0.
Proof. induction 1 as [|d l -> Hl IH]; cbn; lia. Qed.

Lemma val_be_cons b d l : 0 < b -> val_be b (d :: l) = d * b ^ Z.of_nat (length l) + val_be b l.
Proof.
  intros Hb. unfold val_be. rewrite reverse_cons, val_le_app, length_reverse by done. cbn [val_le]. lia.
Qed.

Lemma digits_reverse b l : digits b l -> digits b (reverse l).
Proof. apply Forall_reverse. Qed.

Lemma val_be_range b l : 0 < b -> digits b l -> 0 <= val_be b l < b ^ Z.of_nat (length l).
Proof. intros Hb Hl. unfold val_be. rewrite <- (length_reverse l). by apply val_le_range, digits_reverse. Qed.

(** A digit list without leading zeros is determined by its number. *)
Lemma val_le_inj b l : forall l', 1 < b -> digits b l -> digits b l' ->
  last l <> Some 0 -> last l' <> Some 0 -> val_le b l = val_le b l' -> l = l'.
Proof.
  assert (Hpos : forall d l, 1 < b -> digits b (d :: l) -> last (d :: l) <> Some 0 -> 0 < val_le b (d :: l)).
  { intros d l0 Hb. revert d. induction l0 as [|e l0 IH]; intros d Hd Hl; apply Forall_cons in Hd as [H1 H2].
    - cbn in *. assert (d <> 0) by congruence. lia.
    - specialize (IH e H2 Hl). cbn [val_le] in *. nia. }
  induction l as [|d l IH]; intros [|d' l'] Hb Hd Hd' Hl Hl' He; [done| | |].
  - specialize (Hpos _ _ Hb Hd' Hl'). cbn [val_le] in *. lia.
  - specialize (Hpos _ _ Hb Hd Hl). cbn [val_le] in *. lia.
  - apply Forall_cons in Hd as [H1 H2], Hd' as [H1' H2']. cbn [val_le] in He.
    assert (d = d' /\ val_le b l = val_le b l') as [-> Hv].
    { apply (f_equal (fun x => x mod b)) in He as Hm. rewrite !(Z.mul_comm b), !Z.mod_add, !Z.mod_small in Hm by lia.
      split; [done|]. apply (Z.mul_cancel_l _ _ b); lia. }
    f_equal. apply IH; try done.
    + destruct l; [done|by cbn in Hl].
    + destruct l'; [done|by cbn in Hl'].
Qed.

Lemma val_be_inj b l l' : 1 < b -> digits b l -> digits b l' ->
  no_leading_zero l -> no_leading_zero l' -> val_be b l = val_be b l' -> l = l'.
Proof.
  intros Hb Hd Hd' Hn Hn' He. apply (inj reverse). apply (val_le_inj b); try done;
    try (by apply digits_reverse); by rewrite last_reverse.
Qed.

(** ** The conversion loops *)

Lemma mul_add_spec from to b : forall carry i len,
  0 <= from -> 1 < to -> 0 <= carry -> digits to b -> Forall (fun d => d = 0) (drop (len - i) b) ->
  let '(b', c, i') := mul_add from to carry i len b in
  length b' = length b /\ digits to b' /\ 0 <= c /\ (i <= i')%nat
  /\ val_le to b' + to ^ Z.of_nat (length b) * c = carry + from * val_le to b
  /\ Forall (fun d => d = 0) (drop (i' - i) b').
Proof.
  induction b as [|d b IH]; intros carry i len Hf Ht Hc Hd Hz; cbn [mul_add].
  { splits; try done; [cbn [length val_le]; rewrite Z.pow_0_r; lia|by rewrite drop_nil]. }
  apply Forall_cons in Hd as [Hd Hb].
  destruct (negb (carry =? 0) || (i <? len)%nat) eqn:E.
  - assert (Hz' : Forall (fun d => d = 0) (drop (len - S i) b)).
    { destruct (len - i)%nat as [|k] eqn:Ek; cbn in Hz.
      - apply Forall_cons in Hz as [_ Hz]. replace (len - S i)%nat with 0%nat by lia. done.
      - replace (len - S i)%nat with k by lia. done. }
    specialize (IH ((carry + from * d) / to) (S i) len Hf Ht ltac:(apply Z.div_pos; nia) Hb Hz').
    destruct (mul_add _ _ _ _ _ b) as [[b' c] i']. destruct IH as (Hl & Hd' & Hc' & Hi & Hv & Hz2).
    cbn [length val_le]. rewrite Nat2Z.inj_succ, Z.pow_succ_r by lia.
    pose proof (Z.div_mod (carry + from * d) to ltac:(lia)).
    splits; [lia|constructor; [apply Z.mod_pos_bound; lia|done]|done|lia|nia|].
    replace (i' - i)%nat with (S (i' - S i)) by lia. done.
  - apply orb_false_iff in E as [E1 E2]. b2p. subst carry.
    replace (len - i)%nat with 0%nat in Hz by lia. cbn [drop] in Hz.
    rewrite (val_le_zeros to (d :: b)) by done.
    splits; try done; [by constructor|lia|rewrite Nat.sub_diag; done].
Qed.

Lemma convert_spec from to ds : forall b len,
  1 < from -> 1 < to -> digits from ds -> digits to b -> Forall (fun d => d = 0) (drop len b) ->
  val_le to b * from ^ Z.of_nat (length ds) + val_be from ds < to ^ Z.of_nat (length b) ->
  exists b' len', convert from to ds b len = Ok (b', len') /\ digits to b' /\ Forall (fun d => d = 0) (drop len' b')
    /\ val_le to b' = val_le to b * from ^ Z.of_nat (length ds) + val_be from ds.
Proof.
  induction ds as [|d ds IH]; intros b len Hf Ht Hds Hb Hz Hlt; cbn [convert].
  { exists b, len. splits; try done. cbn. lia. }
  apply Forall_cons in Hds as [Hd Hds]. rewrite val_be_cons in * by lia. cbn [length] in *.
  rewrite Nat2Z.inj_succ, Z.pow_succ_r in * by lia.
  pose proof (val_be_range from ds ltac:(lia) Hds) as Hr.
  pose proof (mul_add_spec from to b d 0 len ltac:(lia) Ht ltac:(lia) Hb) as Hm.
  rewrite Nat.sub_0_r in Hm. specialize (Hm Hz). destruct (mul_add from to d 0 len b) as [[b' c] i'].
  destruct Hm as (Hl & Hb' & Hc & _ & Hv & Hz'). rewrite Nat.sub_0_r in Hz'.
  assert (Hpow : 1 <= from ^ Z.of_nat (length ds)) by (apply (Z.pow_le_mono_r from 0); lia).
  pose proof (val_le_range to b' ltac:(lia) Hb') as Hr'. pose proof (val_le_range to b ltac:(lia) Hb) as Hr0.
  assert (c = 0) as -> by nia. cbn [negb Z.eqb]. rewrite Z.mul_0_r, Z.add_0_r in Hv.
  destruct (IH b' i') as (b2 & len2 & E & H1 & H2 & H3); try done; [rewrite Hv, Hl; lia|].
  exists b2, len2. splits; try done. rewrite H3, Hv. ring.
Qed.

Lemma span_spec p l : let '(a, r) := span p l in
  l = a ++ r /\ Forall (fun x => p x = true) a /\ (forall x, head r = Some x -> p x = false).
Proof.
  induction l as [|x l IH]; cbn [span]; [done|]. destruct (p x) eqn:E.
  - destruct (span p l) as [a r]. destruct IH as (-> & Ha & Hr). splits; [done|by constructor|done].
  - splits; [done|constructor|]. by intros y [= <-].
Qed.

Lemma significant_spec to b len :
  1 < to -> digits to b -> Forall (fun d => d = 0) (drop len b) ->
  digits to (significant b len) /\ no_leading_zero (significant b len) /\ val_be to (significant b len) = val_le to b.
Proof.
  intros Ht Hb Hz. unfold significant. pose proof (span_spec (Z.eqb 0) (reverse (take len b))) as H.
  destruct (span (Z.eqb 0) (reverse (take len b))) as [z r]. destruct H as (E & Hzero & Hh). cbn [snd].
  assert (Hd : digits to (reverse (take len b))) by (apply digits_reverse, Forall_take, Hb).
  rewrite E in Hd. apply Forall_app in Hd as [_ Hd]. splits; [done| |].
  - intros H0. by apply Hh in H0.
  - transitivity (val_le to (take len b ++ drop len b)); [|by rewrite take_drop]. rewrite val_le_app, (val_le_zeros to (drop len b)) by (done || lia).
    rewrite Z.mul_0_r, Z.add_0_r. rewrite <- (reverse_involutive (take len b)), E.
    unfold val_be. rewrite reverse_app, val_le_app by lia.
    rewrite (val_le_zeros to (reverse z)); [lia|]. apply Forall_reverse. eapply Forall_impl; [exact Hzero|].
    intros x Hx. apply Z.eqb_eq in Hx. done.
Qed.

(** ** Enough space: the arrays hold every number of the input's length *)

Lemma pow_room x y p q n m :
  0 < x -> 1 < y -> (0 < q)%nat -> x ^ Z.of_nat q <= y ^ Z.of_nat p -> (p * n <= q * m)%nat ->
  x ^ Z.of_nat n <= y ^ Z.of_nat m.
Proof.
  intros Hx Hy Hq Hc Hm. apply (Z.pow_le_mono_l_iff _ _ (Z.of_nat q)); [apply Z.pow_nonneg; lia|apply Z.pow_nonneg; lia|lia|].
  rewrite <- !Z.pow_mul_r, (Z.mul_comm (Z.of_nat n)), Z.pow_mul_r by lia.
  transitivity ((y ^ Z.of_nat p) ^ Z.of_nat n); [apply Z.pow_le_mono_l; split; [apply Z.pow_nonneg; lia|done]|].
  rewrite <- Z.pow_mul_r by lia. apply Z.pow_le_mono_r; lia.
Qed.

Lemma div_room a b n : (0 < b)%nat -> (a * n <= b * (n * a / b + 1))%nat.
Proof.
  intros Hb. pose proof (Nat.div_mod (n * a) b ltac:(lia)). pose proof (Nat.mod_upper_bound (n * a) b ltac:(lia)). lia.
Qed.

Lemma base58_room n : 256 ^ Z.of_nat n <= 58 ^ Z.of_nat (n * 138 / 100 + 1).
Proof.
  apply (pow_room _ _ 138 100); [lia|lia|lia|apply Z.leb_le; vm_compute; reflexivity|apply div_room; lia].
Qed.

Lemma base256_room n : 58 ^ Z.of_nat n <= 256 ^ Z.of_nat (n * 733 / 1000 + 1).
Proof.
  apply (pow_room _ _ 733 1000); [lia|lia|apply Nat.ltb_lt; vm_compute; reflexivity| |apply div_room, Nat.ltb_lt; vm_compute; reflexivity].
  apply Z.leb_le. vm_compute. reflexivity.
Qed.

(** A conversion from an empty array, and its significant digits. *)
Lemma convert_fresh from to ds size :
  1 < from -> 1 < to -> digits from ds -> from ^ Z.of_nat (length ds) <= to ^ Z.of_nat size ->
  exists b len, convert from to ds (replicate size 0) 0 = Ok (b, len)
    /\ digits to (significant b len) /\ no_leading_zero (significant b len)
    /\ val_be to (significant b len) = val_be from ds.
Proof.
  intros Hf Ht Hds Hroom.
  assert (Hz : Forall (fun d => d = 0) (replicate size 0)) by (apply Forall_replicate; done).
  destruct (convert_spec from to ds (replicate size 0) 0 Hf Ht Hds) as (b & len & E & Hb & Hz' & Hv).
  - apply Forall_replicate. lia.
  - done.
  - rewrite (val_le_zeros to (replicate size 0)), length_replicate by done.
    pose proof (val_be_range from ds ltac:(lia) Hds). lia.
  - rewrite (val_le_zeros to (replicate size 0)) in Hv by done.
    destruct (significant_spec to b len Ht Hb Hz') as (H1 & H2 & H3).
    exists b, len. splits; try done. lia.
Qed.

(** ** The alphabet *)

Definition base58_char (d : Z) : Z := nth (Z.to_nat d) pszBase58 0.

Lemma index_of_char d : 0 <= d < 58 -> index_of (base58_char d) pszBase58 = Some d.
Proof.
  intros Hd. assert (Hn : (Z.to_nat d < 58)%nat) by lia. rewrite <- (Z2Nat.id d) by lia.
  generalize dependent (Z.to_nat d). clear. intros n Hn. do 58 (destruct n as [|n]; [by vm_compute|]). lia.
Qed.

Lemma index_of_inv c d : index_of c pszBase58 = Some d -> 0 <= d < 58 /\ base58_char d = c.
Proof.
  assert (H : forall l k c d, index_of c l = Some d ->
    0 <= d < Z.of_nat (length l) /\ nth (Z.to_nat d) l k = c).
  { induction l as [|x l IH]; intros k c' d'; cbn [index_of length nth]; [done|].
    destruct (Z.eqb_spec x c') as [->|]; [intros [= <-]; split; [lia|done]|].
    destruct (index_of c' l) as [d0|] eqn:E; cbn; [|done]. intros [= <-]. destruct (IH k _ _ E) as [Hr Hn].
    split; [lia|]. by rewrite Z2Nat.inj_succ by lia. }
  intros Hi. destruct (H _ 0 _ _ Hi) as [Hr Hn]. by split.
Qed.

Lemma base58_char_plain d : 0 <= d < 58 -> isspace (base58_char d) = false /\ (base58_char d =? 0) = false
  /\ (49 =? base58_char d) = (d =? 0).
Proof.
  intros Hd. assert (Hn : (Z.to_nat d < 58)%nat) by lia. rewrite <- (Z2Nat.id d) by lia.
  generalize dependent (Z.to_nat d). clear. intros n Hn. do 58 (destruct n as [|n]; [by vm_compute|]). lia.
Qed.

(** ** Decoding *)

Abbreviation spaces := (Forall (fun c => isspace c = true)).

(** The loop over the characters is the conversion of their digits; it stops at a
    space, at the end, or at a character outside the alphabet. *)
Lemma decode_loop_convert psz : forall b len,
  exists ds rest, psz = (base58_char <$> ds) ++ rest /\ digits 58 ds
    /\ ((forall c, head rest = Some c -> isspace c = true)
        /\ decode_loop psz b len = (let* (b', l) := convert 58 256 ds b len in Ok (Some (b', l, rest)))
        \/ (exists c r, rest = c :: r /\ index_of c pszBase58 = None /\ isspace c = false)
        /\ decode_loop psz b len = (let* (b', l) := convert 58 256 ds b len in Ok None)).
Proof.
  induction psz as [|c psz IH]; intros b len; cbn [decode_loop].
  { exists [], []. splits; [done|constructor|]. by left. }
  destruct (isspace c) eqn:Es.
  { exists [], (c :: psz). splits; [done|constructor|]. left. split; [|done]. by intros ? [= <-]. }
  destruct (index_of c pszBase58) as [d|] eqn:Ei.
  2:{ exists [], (c :: psz). splits; [done|constructor|]. right. split; [|done]. by exists c, psz. }
  destruct (index_of_inv _ _ Ei) as [Hd Hc].
  destruct (mul_add 58 256 d 0 len b) as [[b1 carry] i] eqn:Em.
  destruct (IH b1 i) as (ds & rest & -> & Hds & Hcases).
  exists (d :: ds), rest. split; [by cbn [fmap list_fmap app]; rewrite Hc|]. split; [by constructor|].
  cbn [convert]. rewrite Em. destruct (negb (carry =? 0)).
  - destruct Hcases as [[H _]|[H _]]; [left|right]; by split.
  - done.
Qed.

Lemma c_str_plain l : Forall (fun c => (c =? 0) = false) l -> c_str l = l.
Proof. induction 1 as [|c l H Hl IH]; cbn; [done|]. by rewrite H, IH. Qed.

Lemma span_app_exact p a r :
  Forall (fun x => p x = true) a -> (forall x, head r = Some x -> p x = false) -> span p (a ++ r) = (a, r).
Proof.
  intros Ha Hr. induction Ha as [|x a Hx Ha IH]; cbn [app span].
  - destruct r as [|x r]; [done|]. cbn. by rewrite (Hr x).
  - by rewrite Hx, IH.
Qed.

Lemma decode_loop_digits ds sp : forall b len,
  digits 58 ds -> spaces sp ->
  decode_loop ((base58_char <$> ds) ++ sp) b len = (let* (b', l) := convert 58 256 ds b len in Ok (Some (b', l, sp))).
Proof.
  induction ds as [|d ds IH]; intros b len Hd Hsp.
  - cbn [fmap list_fmap app convert]. destruct Hsp as [|c sp Hc Hsp]; cbn [decode_loop]; [done|]. by rewrite Hc.
  - apply Forall_cons in Hd as [Hd Hds]. cbn [fmap list_fmap app decode_loop convert].
    destruct (base58_char_plain d Hd) as (-> & _ & _). rewrite index_of_char by done.
    destruct (mul_add 58 256 d 0 len b) as [[b1 carry] i]. destruct (negb (carry =? 0)); [done|]. by apply IH.
Qed.

Lemma spaces_plain l : spaces l -> Forall (fun c => (c =? 0) = false) l.
Proof.
  intros Hl. eapply Forall_impl; [exact Hl|]. intros c Hc. cbn in Hc.
  destruct (Z.eqb_spec c 0) as [->|]; [by vm_compute in Hc|done].
Qed.

Lemma DecodeBase58_spaces l : spaces l -> DecodeBase58 l = Ok (Some []).
Proof.
  intros Hl. unfold DecodeBase58. rewrite c_str_plain by (by apply spaces_plain).
  rewrite <- (app_nil_r l), span_app_exact by done. by vm_compute.
Qed.

(** The value a digit string without leading zeros decodes to. *)
Lemma DecodeBase58_digits sp1 ones ds sp2 :
  spaces sp1 -> spaces sp2 -> Forall (fun c => c = 49) ones -> digits 58 ds -> no_leading_zero ds ->
  exists v, DecodeBase58 (sp1 ++ ones ++ (base58_char <$> ds) ++ sp2) = Ok (Some (((fun _ => 0) <$> ones) ++ v))
    /\ digits 256 v /\ no_leading_zero v /\ val_be 256 v = val_be 58 ds.
Proof.
  intros H1 H2 Ho Hd Hn.
  destruct (decide (ones = [] /\ ds = [])) as [[-> ->]|Hne].
  { exists []. rewrite DecodeBase58_spaces by (by apply Forall_app). splits; done || constructor. }
  assert (Hds : Forall (fun c => (c =? 0) = false) (base58_char <$> ds)).
  { apply Forall_fmap. eapply Forall_impl; [exact Hd|]. intros d Hd'. by apply base58_char_plain. }
  assert (Hon : Forall (fun c => (c =? 0) = false) ones) by (eapply Forall_impl; [exact Ho|]; by intros c ->).
  unfold DecodeBase58. rewrite c_str_plain by (repeat (apply Forall_app; split); auto using spaces_plain).
  rewrite span_app_exact; [|done|].
  2:{ intros x Hx. destruct Ho as [|y ones -> Ho]; cbn in Hx; [|by injection Hx as <-].
      destruct Hd as [|d ds Hd0 Hd]; [by destruct Hne|]. apply (inj Some) in Hx. subst x. by apply base58_char_plain. }
  rewrite span_app_exact.
  2:{ eapply Forall_impl; [exact Ho|]. by intros c ->. }
  2:{ intros x Hx. destruct Hd as [|d ds Hd0 Hd].
      - destruct H2 as [|c sp2 Hc H2]; [done|]. injection Hx as <-. destruct (Z.eqb_spec 49 c) as [<-|]; [by vm_compute in Hc|done].
      - apply (inj Some) in Hx. subst x. destruct (base58_char_plain d Hd0) as (_ & _ & ->).
        destruct (Z.eqb_spec d 0) as [->|]; [by destruct Hn|done]. }
  rewrite decode_loop_digits by done. rewrite length_app, length_fmap.
  destruct (convert_fresh 58 256 ds ((length ds + length sp2) * 733 / 1000 + 1)) as (b & len & -> & D & N & V); [lia|lia|done| |].
  { etrans; [|apply base256_room]. apply Z.pow_le_mono_r; lia. }
  cbn [mbind result_bind]. rewrite <- (app_nil_r sp2), span_app_exact by done.
  exists (significant b len). by splits.
Qed.

Lemma EncodeBase58_spec z v :
  Forall (fun c => c = 0) z -> is_bytes v -> no_leading_zero v ->
  exists ds, EncodeBase58 (z ++ v) = Ok (((fun _ => 49) <$> z) ++ (base58_char <$> ds))
    /\ digits 58 ds /\ no_leading_zero ds /\ val_be 58 ds = val_be 256 v.
Proof.
  intros Hz Hv Hn. unfold EncodeBase58. rewrite span_app_exact.
  2:{ eapply Forall_impl; [exact Hz|]. by intros c ->. }
  2:{ intros x Hx. unfold no_leading_zero in Hn. destruct (Z.eqb_spec 0 x); congruence. }
  destruct (convert_fresh 256 58 v (length v * 138 / 100 + 1)) as (b & len & -> & D & N & V);
    [lia|lia|exact Hv|apply base58_room|].
  exists (significant b len). by splits.
Qed.

Lemma split_zeros (v : bytes) : exists z r, v = z ++ r /\ Forall (fun c => c = 0) z /\ no_leading_zero r.
Proof.
  pose proof (span_spec (Z.eqb 0) v) as H. destruct (span (Z.eqb 0) v) as [z r]. destruct H as (-> & Hz & Hr).
  exists z, r. splits; [done| |].
  - eapply Forall_impl; [exact Hz|]. intros c Hc. by apply Z.eqb_eq in Hc.
  - intros H0. by apply Hr in H0.
Qed.

Lemma fmap_const_Forall {A B} (c c' : B) (l : list A) :
  Forall (fun x => x = c) ((fun _ => c) <$> l) /\ (fun _ => c') <$> ((fun _ : A => c) <$> l) = (fun _ => c') <$> l.
Proof. induction l as [|x l [IH1 IH2]]; cbn; [by split|]. split; [by constructor|]. f_equal. exact IH2. Qed.

Lemma fmap_zero_id z : Forall (fun c => c = 0) z -> (fun _ : Z => 0) <$> z = z.
Proof. induction 1 as [|x z -> Hz IH]; cbn; [done|]. f_equal. exact IH. Qed.

(** Encoding succeeds and is undone by decoding, whatever spaces surround the string. *)
Lemma base58_encode_decode v :
  is_bytes v -> exists s, EncodeBase58 v = Ok s
    /\ forall sp1 sp2, spaces sp1 -> spaces sp2 -> DecodeBase58 (sp1 ++ s ++ sp2) = Ok (Some v).
Proof.
  intros Hv. destruct (split_zeros v) as (z & r & -> & Hz & Hr). apply Forall_app in Hv as [_ Hv].
  destruct (EncodeBase58_spec z r Hz Hv Hr) as (ds & E & D & N & V). eexists. split; [exact E|].
  intros sp1 sp2 H1 H2. rewrite <- app_assoc.
  destruct (fmap_const_Forall 49 0 z) as [Ho Ez].
  destruct (DecodeBase58_digits sp1 ((fun _ => 49) <$> z) ds sp2 H1 H2 Ho D N) as (v' & -> & D' & N' & V').
  rewrite Ez, fmap_zero_id by done. do 3 f_equal. apply (val_be_inj 256); [lia|exact D'|exact Hv|done|done|congruence].
Qed.

(** What decoding accepts is an encoding, up to surrounding spaces. *)
Lemma base58_decode_encode str :
  exists r, DecodeBase58 str = Ok r /\ forall v, r = Some v -> is_bytes v
    /\ exists s sp1 sp2, EncodeBase58 v = Ok s /\ spaces sp1 /\ spaces sp2 /\ c_str str = sp1 ++ s ++ sp2.
Proof.
  unfold DecodeBase58.
  pose proof (span_spec isspace (c_str str)) as S1. destruct (span isspace (c_str str)) as [sp1 p1].
  destruct S1 as (-> & Hsp1 & _).
  pose proof (span_spec (Z.eqb 49) p1) as S2. destruct (span (Z.eqb 49) p1) as [ones p2].
  destruct S2 as (-> & Ho & Hh).
  set (size := (length p2 * 733 / 1000 + 1)%nat).
  destruct (decode_loop_convert p2 (replicate size 0) 0) as (ds & rest & Ep2 & Hds & Hcases).
  assert (Hroom : 58 ^ Z.of_nat (length ds) <= 256 ^ Z.of_nat size).
  { etrans; [|apply base256_room]. apply Z.pow_le_mono_r; [lia|]. rewrite Ep2, length_app, length_fmap. lia. }
  destruct (convert_fresh 58 256 ds size ltac:(lia) ltac:(lia) Hds Hroom) as (b & len & E & D & N & V).
  rewrite E in Hcases. destruct Hcases as [[Hhead ->]|[_ ->]]; cbn [mbind result_bind]; [|by exists None].
  pose proof (span_spec isspace rest) as S3. destruct (span isspace rest) as [sp2 rest2].
  destruct S3 as (-> & Hsp2 & _). destruct rest2; [|by exists None]. rewrite app_nil_r in *.
  eexists. split; [done|]. intros v [= <-].
  assert (Hn : no_leading_zero ds).
  { intros H0. destruct ds as [|d ds]; [done|]. injection H0 as ->.
    specialize (Hh (base58_char 0)). rewrite Ep2 in Hh. specialize (Hh eq_refl). by vm_compute in Hh. }
  assert (Hone : Forall (fun c => c = 49) ones).
  { eapply Forall_impl; [exact Ho|]. intros c Hc. cbn beta in Hc. by apply Z.eqb_eq in Hc. }
  destruct (fmap_const_Forall 0 49 ones) as [Hz Ez].
  split; [apply Forall_app; split; [eapply Forall_impl; [exact Hz|]; by intros x ->|exact D]|].
  destruct (EncodeBase58_spec _ _ Hz D N) as (ds' & E' & D' & N' & V').
  exists (ones ++ (base58_char <$> ds)), sp1, sp2. splits; [|done|done|by rewrite Ep2, <- !app_assoc].
  rewrite E', Ez. do 2 f_equal.
  - clear -Hone. induction Hone as [|x l -> Hl IH]; cbn; [done|]. f_equal. exact IH.
  - f_equal. apply (val_be_inj 58); [lia|done|done|done|done|congruence].
Qed.

(** ** Checksummed strings and addresses *)

Lemma Hash_digest M : is_bytes (Hash M) /\ length (Hash M) = 32%nat.
Proof. rewrite Hash_spec. apply sha256_digest. Qed.

#[local] Opaque Hash.

Lemma base58check_roundtrip v :
  is_bytes v -> exists s, EncodeBase58Check v = Ok s /\ DecodeBase58Check s = Ok (Some v)
    /\ DecodeBase58 s = Ok (Some (v ++ take 4 (Hash v))).
Proof.
  intros Hv. unfold EncodeBase58Check. destruct (Hash_digest v) as [Hb Hl].
  destruct (base58_encode_decode (v ++ take 4 (Hash v))) as (s & E & D).
  { apply Forall_app. split; [done|by apply Forall_take]. }
  exists s. split; [done|]. specialize (D [] [] ltac:(constructor) ltac:(constructor)). rewrite app_nil_r in D.
  cbn [app] in D. split; [|done]. unfold DecodeBase58Check. rewrite D. cbn [mbind result_bind].
  rewrite length_app, length_take, Hl. change (4 `min` 32)%nat with 4%nat.
  destruct (Nat.ltb_spec (length v + 4) 4); [lia|]. replace (length v + 4 - 4)%nat with (length v) by lia.
  by rewrite take_app_length, drop_app_length, bool_decide_true.
Qed.

Lemma base58check_total s : exists r, DecodeBase58Check s = Ok r
  /\ forall v, r = Some v -> exists e sp1 sp2, EncodeBase58Check v = Ok e /\ spaces sp1 /\ spaces sp2 /\ c_str s = sp1 ++ e ++ sp2.
Proof.
  unfold DecodeBase58Check. destruct (base58_decode_encode s) as (r & -> & Hr). cbn [mbind result_bind].
  destruct r as [v|]; [|by exists None]. destruct (Nat.ltb_spec (length v) 4); [by exists None|].
  case_bool_decide as Hc; [|by exists None]. eexists. split; [done|]. intros w [= <-].
  destruct (Hr v eq_refl) as (_ & e & sp1 & sp2 & E & H1 & H2 & Hs). exists e, sp1, sp2. splits; try done.
  unfold EncodeBase58Check. by rewrite Hc, take_drop.
Qed.

(** Exactly the strings with a correct checksum are accepted. *)
Lemma base58check_iff s r : DecodeBase58Check s = Ok r ->
  (forall v, r = Some v -> DecodeBase58 s = Ok (Some (v ++ take 4 (Hash v)))) /\ (r = None -> forall v, DecodeBase58 s <> Ok (Some (v ++ take 4 (Hash v)))).
Proof.
  unfold DecodeBase58Check. destruct (base58_decode_encode s) as (d & -> & _). cbn [mbind result_bind].
  assert (forall v, length (v ++ take 4 (Hash v)) = (length v + 4)%nat) as Hlen by (intros v; rewrite length_app, length_take, (proj2 (Hash_digest v)); done).
  destruct d as [w|]; [|intros [= <-]; by split]. destruct (Nat.ltb_spec (length w) 4).
  { intros [= <-]. split; [done|]. intros _ v [= ->]. rewrite Hlen in *. lia. }
  case_bool_decide as Hc; intros [= <-].
  - split; [|done]. intros v [= <-]. by rewrite Hc, take_drop.
  - split; [done|]. intros _ v [= ->]. apply Hc. rewrite Hlen, Nat.add_sub. by rewrite take_app_length, drop_app_length.
Qed.

Section AddressLaws.
Context (a b : Z) (Ha : is_u8 a) (Hb : is_u8 b) (Hab : a <> b).

Lemma address_roundtrip d :
  proper_destination d ->
  exists s, EncodeDestination [a] [b] d = Ok s /\ DecodeDestination [a] [b] s = Ok d
    /\ exists v, DecodeBase58 s = Ok (Some (v ++ take 4 (Hash v))) /\ (head v = Some a \/ head v = Some b).
Proof.
  intros Hd. unfold EncodeDestination, DecodeDestination, SetString, ToString.
  destruct d as [|id|id]; [done| |]; destruct Hd as [Hid Hl]; cbn [address_Set];
    unfold address_IsValid; cbn [vchData vchVersion]; rewrite Hl; cbn [Nat.eqb andb].
  1: assert (Hbytes : is_bytes ([a] ++ id)) by (by constructor).
  2: assert (Hbytes : is_bytes ([b] ++ id)) by (by constructor).
  1: rewrite (bool_decide_eq_true_2 ([a] = [a])) by done.
  2: rewrite (bool_decide_eq_true_2 ([b] = [b])), orb_true_r by done.
  all: cbn [negb orb].
  all: destruct (base58check_roundtrip _ Hbytes) as (s & -> & E & D); exists s; rewrite E; cbn [mbind result_bind].
  all: cbn [length app]; rewrite Hl; cbn [Nat.ltb Nat.leb firstn skipn mbind result_bind]; rewrite ?take_0, ?drop_0; unfold address_Get, address_IsValid;
    cbn [vchData vchVersion]; rewrite Hl; cbn [Nat.eqb andb].
  - rewrite !bool_decide_eq_true_2 by done. cbn. splits; [done|done|]. exists (a :: id). split; [exact D|by left].
  - rewrite (bool_decide_eq_false_2 ([b] = [a])) by congruence. rewrite bool_decide_eq_true_2 by done. cbn.
    splits; [done|done|]. exists (b :: id). split; [exact D|by right].
Qed.

Lemma address_decode s :
  exists d, DecodeDestination [a] [b] s = Ok d
    /\ (d <> CNoDestination -> exists e sp1 sp2, EncodeDestination [a] [b] d = Ok e
          /\ spaces sp1 /\ spaces sp2 /\ c_str s = sp1 ++ e ++ sp2).
Proof.
  unfold DecodeDestination, SetString. destruct (base58check_total s) as (r & -> & Hr). cbn [mbind result_bind].
  assert (Hnone : forall A, address_Get [a] [b] (mkBase58Data [] []) <> CNoDestination -> A) by done.
  destruct r as [v|]; [|cbn [mbind result_bind]; eexists; split; [done|]; apply Hnone].
  destruct v as [|x id]; [cbn [length Nat.ltb Nat.leb mbind result_bind]; eexists; split; [done|]; apply Hnone|].
  cbn [length Nat.ltb Nat.leb mbind result_bind firstn skipn]. rewrite take_0, drop_0. eexists. split; [done|].
  destruct (Hr _ eq_refl) as (e & sp1 & sp2 & E & H1 & H2 & Hs).
  unfold address_Get, EncodeDestination, ToString. cbn [vchVersion vchData].
  destruct (address_IsValid [a] [b] (mkBase58Data [x] id)) eqn:Ev; [|done]. cbn [negb].
  intros Hne. exists e, sp1, sp2. splits; try done.
  repeat case_bool_decide; try done; simplify_eq; cbn [address_Set]; by rewrite Ev.
Qed.
End AddressLaws.

(** C32: base58 and its checksum.  The digit arrays are always large enough, so that no
    assertion fails; encoding a byte string and decoding the result, with any surrounding
    spaces, gives the byte string back; and a string that is accepted is, up to
    surrounding spaces, the one encoding of what it decodes to.  With a checksum the same
    holds: the encoding is that of the bytes followed by the first four bytes of their
    double SHA-256, and whatever does not end with these is refused. *)
Theorem base58_correct :
  (forall v, is_bytes v -> exists s, EncodeBase58 v = Ok s
    /\ forall sp1 sp2, spaces sp1 -> spaces sp2 -> DecodeBase58 (sp1 ++ s ++ sp2) = Ok (Some v))
  /\ (forall str, exists r, DecodeBase58 str = Ok r /\ forall v, r = Some v -> is_bytes v
    /\ exists s sp1 sp2, EncodeBase58 v = Ok s /\ spaces sp1 /\ spaces sp2 /\ c_str str = sp1 ++ s ++ sp2)
  /\ (forall v, is_bytes v -> exists s, EncodeBase58Check v = Ok s /\ DecodeBase58Check s = Ok (Some v)
    /\ DecodeBase58 s = Ok (Some (v ++ take 4 (Hash v))))
  /\ (forall str, exists r, DecodeBase58Check str = Ok r
    /\ (forall v, r = Some v -> DecodeBase58 str = Ok (Some (v ++ take 4 (Hash v)))
      /\ exists s sp1 sp2, EncodeBase58Check v = Ok s /\ spaces sp1 /\ spaces sp2 /\ c_str str = sp1 ++ s ++ sp2)
    /\ (r = None -> forall v, DecodeBase58 str <> Ok (Some (v ++ take 4 (Hash v))))).
Proof.
  split; [exact base58_encode_decode|]. split; [exact base58_decode_encode|]. split; [exact base58check_roundtrip|].
  intros str. destruct (base58check_total str) as (r & E & Hr). exists r. split; [exact E|]. destruct (base58check_iff str r E) as [H1 H2]. split; [|exact H2].
  intros v Hv. split; [by apply H1|by apply Hr].
Qed.

(** Addresses.  With distinct version bytes, the address of every key or script
    identifier decodes to it; and a string that decodes to a destination is its
    address, up to surrounding spaces. *)
Theorem addresses_correct (a b : Z) :
  is_u8 a -> is_u8 b -> a <> b ->
  (forall d, proper_destination d -> exists s, EncodeDestination [a] [b] d = Ok s /\ DecodeDestination [a] [b] s = Ok d)
  /\ (forall s, exists d, DecodeDestination [a] [b] s = Ok d
    /\ (d <> CNoDestination -> exists e sp1 sp2, EncodeDestination [a] [b] d = Ok e
          /\ spaces sp1 /\ spaces sp2 /\ c_str s = sp1 ++ e ++ sp2)).
Proof.
  intros Ha Hb Hab. split; [|exact (address_decode a b)].
  intros d Hd. destruct (address_roundtrip a b Ha Hb Hab d Hd) as (s & E & D & _). by exists s.
Qed.
