(* ===== verification/AssetNames.v ===== *)
(** * Names of assets: [src/assets/assets.cpp], lines 40 to 437

    The regular expressions the code gives to [std::regex_match] are values of a type
    of regular expressions, with an executable matcher (sets of partial derivatives)
    that is proved to decide the language; the name functions are translated on top
    of it.  A name is the list of its characters. *)

From S2P Require Import Prelude.

(** ** Regular expressions *)

Inductive regex :=
| Empty                                            (* the empty string *)
| Class (negated : bool) (ranges : list (Z * Z))   (* [...] and [^...] *)
| Cat (r s : regex)
| Alt (r s : regex)
| Star (r : regex).

#[global] Instance regex_eq_dec : EqDecision regex.
Proof. solve_decision. Defined.

Definition in_class (negated : bool) (ranges : list (Z * Z)) (c : Z) : bool :=
  xorb negated (existsb (fun r => (r.1 <=? c) && (c <=? r.2)) ranges).

Definition Plus (r : regex) : regex := Cat r (Star r).
Fixpoint AtLeast (n : nat) (r : regex) : regex :=
  match n with O => Star r | S n => Cat r (AtLeast n r) end.
Definition Char (c : Z) : regex := Class false [(c, c)].
Fixpoint Literal (s : bytes) : regex := match s with [] => Empty | c :: s => Cat (Char c) (Literal s) end.
(** [.]: any character but a line terminator. *)
Definition Any : regex := Class true [(10, 10); (13, 13)].

(** The language of an expression. *)
Fixpoint lang (r : regex) (s : bytes) : Prop :=
  match r with
  | Empty => s = []
  | Class n rs => exists c, s = [c] /\ in_class n rs c = true
  | Cat a b => exists s1 s2, s = s1 ++ s2 /\ lang a s1 /\ lang b s2
  | Alt a b => lang a s \/ lang b s
  | Star a => exists ss, s = concat ss /\ Forall (lang a) ss
  end.

Fixpoint nullable (r : regex) : bool :=
  match r with
  | Empty => true
  | Class _ _ => false
  | Cat a b => nullable a && nullable b
  | Alt a b => nullable a || nullable b
  | Star _ => true
  end.

Definition cat (r s : regex) : regex := match r with Empty => s | _ => Cat r s end.

(** What is left of an expression after a character. *)
Fixpoint derivatives (c : Z) (r : regex) : list regex :=
  match r with
  | Empty => []
  | Class n rs => if in_class n rs c then [Empty] else []
  | Cat a b => ((fun x => cat x b) <$> derivatives c a) ++ (if nullable a then derivatives c b else [])
  | Alt a b => derivatives c a ++ derivatives c b
  | Star a => (fun x => cat x (Star a)) <$> derivatives c a
  end.

Definition regex_step (rs : list regex) (c : Z) : list regex := remove_dups (concat (derivatives c <$> rs)).

(** [std::regex_match]: the whole string matches. *)
Definition regex_match (s : bytes) (r : regex) : bool := existsb nullable (foldl regex_step [r] s).

(** *** The matcher decides the language *)

Lemma nullable_spec r : nullable r = true <-> lang r [].
Proof.
  induction r as [|n rs|a IHa b IHb|a IHa b IHb|a IHa]; cbn.
  - done.
  - split; [done|]. by intros (c & ? & _).
  - rewrite andb_true_iff, IHa, IHb. split; [intros [? ?]; by exists [], []|].
    intros (s1 & s2 & E & ? & ?). symmetry in E. apply app_eq_nil in E as [-> ->]. done.
  - by rewrite orb_true_iff, IHa, IHb.
  - split; [|done]. intros _. exists []. by split.
Qed.

Lemma lang_cat a b s : lang (cat a b) s <-> lang (Cat a b) s.
Proof.
  destruct a; cbn [cat]; try done. cbn [lang]. split; [intros H; by exists [], s|].
  intros (s1 & s2 & -> & -> & H). done.
Qed.

Lemma derivatives_spec r : forall c s, (exists x, x ∈ derivatives c r /\ lang x s) <-> lang r (c :: s).
Proof.
  induction r as [|n rs|a IHa b IHb|a IHa b IHb|a IHa]; intros c s; cbn [derivatives].
  - cbn [lang]. split; [|done]. intros (x & Hx & _). by apply elem_of_nil in Hx.
  - cbn [lang]. destruct (in_class n rs c) eqn:E; split.
    + intros (x & ->%list_elem_of_singleton & ->). by exists c.
    + intros (c' & [= -> ->] & _). exists Empty. by rewrite list_elem_of_singleton.
    + intros (x & Hx & _). by apply elem_of_nil in Hx.
    + intros (c' & [= -> ->] & H). congruence.
  - cbn [lang]. split.
    + intros (x & [(y & -> & Hy)%list_elem_of_fmap|Hx]%elem_of_app & Hl).
      * apply lang_cat in Hl as (s1 & s2 & -> & H1 & H2). exists (c :: s1), s2. splits; [done| |done]. apply IHa. by exists y.
      * destruct (nullable a) eqn:En; [|by apply elem_of_nil in Hx]. apply nullable_spec in En.
        exists [], (c :: s). splits; [done|done|]. apply IHb. by exists x.
    + intros ([|c' s1] & s2 & E & H1 & H2); cbn in E.
      * subst s2. apply IHb in H2 as (x & Hx & Hl). exists x. split; [|done]. apply elem_of_app. right.
        by rewrite (proj2 (nullable_spec a) H1).
      * injection E as <- ->. apply IHa in H1 as (x & Hx & Hl). exists (cat x b). split; [|apply lang_cat; by exists s1, s2].
        apply elem_of_app. left. by apply (list_elem_of_fmap_2 (fun x => cat x b)).
  - cbn [lang]. rewrite <- IHa, <- IHb. setoid_rewrite elem_of_app.
    split; [intros (x & [?|?] & ?)|intros [(x & ? & ?)|(x & ? & ?)]]; eauto.
  - cbn [lang]. split.
    + intros (x & (y & -> & Hy)%list_elem_of_fmap & Hl). apply lang_cat in Hl as (s1 & s2 & -> & H1 & (ss & -> & Hss)).
      exists ((c :: s1) :: ss). split; [done|]. constructor; [|done]. apply IHa. by exists y.
    + intros (ss & E & Hss). induction Hss as [|[|c' s1] ss H1 Hss IH]; cbn in E; [done|by apply IH|].
      injection E as <- ->. apply IHa in H1 as (x & Hx & Hl). exists (cat x (Star a)).
      split; [by apply (list_elem_of_fmap_2 (fun x => cat x (Star a)))|]. apply lang_cat. exists s1, (concat ss).
      splits; [done|done|]. by exists ss.
Qed.

Lemma regex_match_spec s r : regex_match s r = true <-> lang r s.
Proof.
  unfold regex_match.
  assert (H : forall s rs, existsb nullable (foldl regex_step rs s) = true <-> exists x, x ∈ rs /\ lang x s).
  { clear. induction s as [|c s IH]; intros rs; cbn [foldl].
    - rewrite existsb_exists. setoid_rewrite <- list_elem_of_In. by setoid_rewrite nullable_spec.
    - rewrite IH. unfold regex_step. setoid_rewrite elem_of_remove_dups. split.
      + intros (x & Hx & Hl). apply list_elem_of_In, in_concat in Hx as (l & Hl1%list_elem_of_In & Hx%list_elem_of_In).
        apply list_elem_of_fmap in Hl1 as (y & -> & Hy). exists y. split; [done|]. apply derivatives_spec. by exists x.
      + intros (y & Hy & (x & Hx & Hl)%derivatives_spec). exists x. split; [|done].
        apply list_elem_of_In, in_concat. exists (derivatives c y). split; [|by apply list_elem_of_In].
        apply list_elem_of_In. by apply list_elem_of_fmap_2. }
  rewrite H. setoid_rewrite list_elem_of_singleton. split; [by intros (x & -> & ?)|eauto].
Qed.

(** ** The expressions of the code *)

Definition MAX_NAME_LENGTH : nat := 31.
Definition MAX_CHANNEL_NAME_LENGTH : nat := 12.
Definition MIN_ASSET_LENGTH : nat := 3.
Definition OWNER_TAG : bytes := chars "!".

(** [A-Z0-9._] and [._]. *)
Definition upper_digit_dot : regex := Class false [(65, 90); (48, 57); (46, 46); (95, 95)].
Definition dot_underscore : regex := Class false [(46, 46); (95, 95)].

Definition ROOT_NAME_CHARACTERS : regex := AtLeast 3 upper_digit_dot.
Definition SUB_NAME_CHARACTERS : regex := Plus upper_digit_dot.
(** [-A-Za-z0-9@$%&*()[\]{}_.?:]. *)
Definition UNIQUE_TAG_CHARACTERS : regex :=
  Plus (Class false [(45, 45); (65, 90); (97, 122); (48, 57); (64, 64); (36, 36); (37, 37); (38, 38); (42, 42); (40, 40);
                     (41, 41); (91, 91); (93, 93); (123, 123); (125, 125); (95, 95); (46, 46); (63, 63); (58, 58)]).
Definition MSG_CHANNEL_TAG_CHARACTERS : regex := Plus (Class false [(65, 90); (97, 122); (48, 57); (95, 95)]).
Definition VOTE_TAG_CHARACTERS : regex := Plus upper_digit_dot.
Definition QUALIFIER_NAME_CHARACTERS : regex := Cat (Char 35) (AtLeast 3 upper_digit_dot).
Definition SUB_QUALIFIER_NAME_CHARACTERS : regex := Cat (Char 35) (Plus upper_digit_dot).
Definition RESTRICTED_NAME_CHARACTERS : regex := Cat (Char 36) (AtLeast 3 upper_digit_dot).

Definition DOUBLE_PUNCTUATION : regex := Cat (Star Any) (Cat (AtLeast 2 dot_underscore) (Star Any)).
Definition LEADING_PUNCTUATION : regex := Cat dot_underscore (Star Any).
Definition TRAILING_PUNCTUATION : regex := Cat (Star Any) dot_underscore.
(** [^[#$][._].*$]. *)
Definition QUALIFIER_LEADING_PUNCTUATION : regex := Cat (Class false [(35, 35); (36, 36)]) (Cat dot_underscore (Star Any)).

(** [[^^~#!]] and [[^~#!/]]. *)
Definition before_tag : regex := Class true [(94, 94); (126, 126); (35, 35); (33, 33)].
Definition in_tag : regex := Class true [(126, 126); (35, 35); (33, 33); (47, 47)].
Definition UNIQUE_INDICATOR : regex := Cat (Plus before_tag) (Cat (Char 35) (Plus in_tag)).
Definition MSG_CHANNEL_INDICATOR : regex := Cat (Plus before_tag) (Cat (Char 126) (Plus in_tag)).
Definition OWNER_INDICATOR : regex := Cat (Plus before_tag) (Char 33).
Definition VOTE_INDICATOR : regex := Cat (Plus before_tag) (Cat (Char 94) (Plus in_tag)).
Definition QUALIFIER_INDICATOR : regex := Cat (Char 35) (AtLeast 3 upper_digit_dot).
Definition SUB_QUALIFIER_INDICATOR : regex :=
  Cat (Char 35) (Cat (Plus upper_digit_dot) (Cat (Char 47) (Cat (Char 35) (Plus upper_digit_dot)))).
Definition RESTRICTED_INDICATOR : regex := Cat (Char 36) (AtLeast 3 upper_digit_dot).

Definition RAVEN_NAMES : regex :=
  Alt (Literal (chars "HNB")) (Alt (Literal (chars "RAVEN")) (Alt (Literal (chars "HOOKERSANDBLOWCOIN"))
    (Alt (Literal (chars "#HNB")) (Alt (Literal (chars "#RAVEN")) (Literal (chars "#HOOKERSANDBLOWCOIN")))))).

(** ** Parts of names *)

Definition IsRootNameValid (name : bytes) : bool :=
  regex_match name ROOT_NAME_CHARACTERS && negb (regex_match name DOUBLE_PUNCTUATION) &&
  negb (regex_match name LEADING_PUNCTUATION) && negb (regex_match name TRAILING_PUNCTUATION) &&
  negb (regex_match name RAVEN_NAMES).
Definition IsQualifierNameValid (name : bytes) : bool :=
  regex_match name QUALIFIER_NAME_CHARACTERS && negb (regex_match name DOUBLE_PUNCTUATION) &&
  negb (regex_match name QUALIFIER_LEADING_PUNCTUATION) && negb (regex_match name TRAILING_PUNCTUATION) &&
  negb (regex_match name RAVEN_NAMES).
Definition IsRestrictedNameValid (name : bytes) : bool :=
  regex_match name RESTRICTED_NAME_CHARACTERS && negb (regex_match name DOUBLE_PUNCTUATION) &&
  negb (regex_match name LEADING_PUNCTUATION) && negb (regex_match name TRAILING_PUNCTUATION) &&
  negb (regex_match name RAVEN_NAMES).
Definition IsSubQualifierNameValid (name : bytes) : bool :=
  regex_match name SUB_QUALIFIER_NAME_CHARACTERS && negb (regex_match name DOUBLE_PUNCTUATION) &&
  negb (regex_match name LEADING_PUNCTUATION) && negb (regex_match name TRAILING_PUNCTUATION).
Definition IsSubNameValid (name : bytes) : bool :=
  regex_match name SUB_NAME_CHARACTERS && negb (regex_match name DOUBLE_PUNCTUATION) &&
  negb (regex_match name LEADING_PUNCTUATION) && negb (regex_match name TRAILING_PUNCTUATION).
Definition IsUniqueTagValid (tag : bytes) : bool := regex_match tag UNIQUE_TAG_CHARACTERS.
Definition IsVoteTagValid (tag : bytes) : bool := regex_match tag VOTE_TAG_CHARACTERS.
Definition IsMsgChannelTagValid (tag : bytes) : bool :=
  regex_match tag MSG_CHANNEL_TAG_CHARACTERS && negb (regex_match tag DOUBLE_PUNCTUATION) &&
  negb (regex_match tag LEADING_PUNCTUATION) && negb (regex_match tag TRAILING_PUNCTUATION).

(** [boost::split] at every [c]: the first part and the others. *)
Fixpoint split (c : Z) (s : bytes) : bytes * list bytes :=
  match s with
  | [] => ([], [])
  | x :: s =>
    let '(front, others) := split c s in
    if x =? c then ([], front :: others) else (x :: front, others)
  end.

Definition back (parts : bytes * list bytes) : bytes := default parts.1 (last parts.2).

Definition IsNameValidBeforeTag (name : bytes) : bool :=
  let parts := split 47 name in
  IsRootNameValid parts.1 && forallb IsSubNameValid parts.2.

Definition IsQualifierNameValidBeforeTag (name : bytes) : bool :=
  let parts := split 47 name in
  IsQualifierNameValid parts.1 && negb (1 <? length parts.2)%nat && forallb IsSubQualifierNameValid parts.2.

Definition IsAssetNameASubasset (name : bytes) : bool :=
  let parts := split 47 name in IsRootNameValid parts.1 && negb (length parts.2 =? 0)%nat.
Definition IsAssetNameASubQualifier (name : bytes) : bool :=
  let parts := split 47 name in IsQualifierNameValid parts.1 && negb (length parts.2 =? 0)%nat.

(** ** Whole names *)

Inductive AssetType :=
| ROOT | SUB | UNIQUE | MSGCHANNEL | QUALIFIER | SUB_QUALIFIER | RESTRICTED | VOTE | REISSUE | OWNER
| NULL_ADD_QUALIFIER | INVALID.

#[global] Instance AssetType_eq_dec : EqDecision AssetType.
Proof. solve_decision. Defined.

Definition too_long : string := "Name is greater than max length of 31".

(** [IsTypeCheckNameValid]; an error is the message. *)
Definition IsTypeCheckNameValid (type : AssetType) (name : bytes) : result string unit :=
  match type with
  | UNIQUE =>
    _ ← guard_or (length name <=? MAX_NAME_LENGTH)%nat too_long;
    let parts := split 35 name in
    guard_or (IsNameValidBeforeTag parts.1 && IsUniqueTagValid (back parts))
      "Unique name contains invalid characters (Valid characters are: A-Z a-z 0-9 @ $ % & * ( ) [ ] { } _ . ? : -)"
  | MSGCHANNEL =>
    _ ← guard_or (length name <=? MAX_NAME_LENGTH)%nat too_long;
    let parts := split 126 name in
    _ ← guard_or (length (back parts) <=? MAX_CHANNEL_NAME_LENGTH)%nat "Channel name is greater than max length of 12";
    guard_or (IsNameValidBeforeTag parts.1 && IsMsgChannelTagValid (back parts))
      "Message Channel name contains invalid characters (Valid characters are: A-Z 0-9 _ .) (special characters can't be the first or last characters)"
  | OWNER =>
    _ ← guard_or (length name <=? MAX_NAME_LENGTH)%nat too_long;
    guard_or (IsNameValidBeforeTag (take (length name - 1) name))
      "Owner name contains invalid characters (Valid characters are: A-Z 0-9 _ .) (special characters can't be the first or last characters)"
  | VOTE =>
    _ ← guard_or (length name <=? MAX_NAME_LENGTH)%nat too_long;
    let parts := split 94 name in
    guard_or (IsNameValidBeforeTag parts.1 && IsVoteTagValid (back parts))
      "Vote name contains invalid characters (Valid characters are: A-Z 0-9 _ .) (special characters can't be the first or last characters)"
  | QUALIFIER | SUB_QUALIFIER =>
    _ ← guard_or (length name <=? MAX_NAME_LENGTH)%nat too_long;
    guard_or (IsQualifierNameValidBeforeTag name)
      "Qualifier name contains invalid characters (Valid characters are: A-Z 0-9 _ .) (# must be the first character, _ . special characters can't be the first or last characters)"
  | RESTRICTED =>
    _ ← guard_or (length name <=? MAX_NAME_LENGTH)%nat too_long;
    guard_or (IsRestrictedNameValid name)
      "Restricted name contains invalid characters (Valid characters are: A-Z 0-9 _ .) ($ must be the first character, _ . special characters can't be the first or last characters)"
  | _ =>
    _ ← guard_or (length name <=? MAX_NAME_LENGTH - 1)%nat "Name is greater than max length of 30";
    _ ← guard_or (IsAssetNameASubasset name || negb (length name <? MIN_ASSET_LENGTH)%nat) "Name must be contain 3 characters";
    let valid := IsNameValidBeforeTag name in
    _ ← guard_or (valid || negb (IsAssetNameASubasset name) || negb (length name <? 3)%nat)
          "Name must have at least 3 characters (Valid characters are: A-Z 0-9 _ .)";
    guard_or valid
      "Name contains invalid characters (Valid characters are: A-Z 0-9 _ .) (special characters can't be the first or last characters)"
  end.

(** What [IsAssetNameValid] leaves behind when it returns [false]: above 40 characters
    the output parameters are not written at all; otherwise the type is [INVALID] and
    the error is a message. *)
Inductive name_error := NotWritten | BadName (message : string).

Definition typed (type : AssetType) (name : bytes) : result name_error AssetType :=
  match IsTypeCheckNameValid type name with Ok _ => Ok type | Err e => Err (BadName e) end.

Definition IsAssetNameValid (name : bytes) : result name_error AssetType :=
  if (40 <? length name)%nat then Err NotWritten
  else if regex_match name UNIQUE_INDICATOR then typed UNIQUE name
  else if regex_match name MSG_CHANNEL_INDICATOR then typed MSGCHANNEL name
  else if regex_match name OWNER_INDICATOR then typed OWNER name
  else if regex_match name VOTE_INDICATOR then typed VOTE name
  else if regex_match name QUALIFIER_INDICATOR then
    t ← typed QUALIFIER name;
    Ok (if IsAssetNameASubQualifier name then SUB_QUALIFIER else t)
  else if regex_match name SUB_QUALIFIER_INDICATOR then
    t ← typed SUB_QUALIFIER name;
    Ok (if IsAssetNameASubQualifier name then t else INVALID)
  else if regex_match name RESTRICTED_INDICATOR then typed RESTRICTED name
  else typed (if IsAssetNameASubasset name then SUB else ROOT) name.

Definition name_valid (name : bytes) : bool := is_ok (IsAssetNameValid name).
Definition name_is (name : bytes) (t : AssetType) : bool :=
  match IsAssetNameValid name with Ok t' => bool_decide (t' = t) | Err _ => false end.

Definition IsAssetNameARoot (name : bytes) : bool := name_is name ROOT.
Definition IsAssetNameAnOwner (name : bytes) : bool := name_valid name && regex_match name OWNER_INDICATOR.
Definition IsAssetNameAnRestricted (name : bytes) : bool := name_valid name && regex_match name RESTRICTED_INDICATOR.
Definition IsAssetNameAQualifier (name : bytes) (fOnlyQualifiers : bool) : bool :=
  if fOnlyQualifiers then name_valid name && regex_match name QUALIFIER_INDICATOR
  else name_valid name && (regex_match name QUALIFIER_INDICATOR || regex_match name SUB_QUALIFIER_INDICATOR).
Definition IsAssetNameAnMsgChannel (name : bytes) : bool := name_valid name && regex_match name MSG_CHANNEL_INDICATOR.

(** [name.substr(0, name.find_last_of(c))], or the name when there is no [c]. *)
Fixpoint until_last (c : Z) (s : bytes) : option bytes :=
  match s with
  | [] => None
  | x :: s =>
    match until_last c s with
    | Some p => Some (x :: p)
    | None => if x =? c then Some [] else None
    end
  end.
Definition before_last (c : Z) (s : bytes) : bytes := default s (until_last c s).

Definition RestrictedNameToOwnerName (name : bytes) : bytes :=
  if negb (IsAssetNameAnRestricted name) then [] else drop 1 name ++ OWNER_TAG.

Definition GetParentName (name : bytes) : bytes :=
  match IsAssetNameValid name with
  | Err _ => []
  | Ok SUB => before_last 47 name
  | Ok UNIQUE => before_last 35 name
  | Ok MSGCHANNEL => before_last 126 name
  | Ok VOTE => before_last 94 name
  | Ok SUB_QUALIFIER => before_last 47 name
  | Ok _ => name
  end.

Definition GetUniqueAssetName (parent tag : bytes) : bytes :=
  let unique := parent ++ chars "#" ++ tag in
  match IsAssetNameValid unique with Ok UNIQUE => unique | _ => [] end.

(** ** Languages of the expressions *)

Definition upper_char (c : Z) : bool := in_class false [(65, 90); (48, 57); (46, 46); (95, 95)] c.
Definition before_char (c : Z) : bool := in_class true [(94, 94); (126, 126); (35, 35); (33, 33)] c.
Definition tag_char (c : Z) : bool := in_class true [(126, 126); (35, 35); (33, 33); (47, 47)] c.

Lemma lang_star_class n rs s : lang (Star (Class n rs)) s <-> Forall (fun c => in_class n rs c = true) s.
Proof.
  cbn [lang]. split.
  - intros (ss & -> & H). induction H as [|x ss (c & -> & Hc) Hs IH]; cbn; by constructor.
  - intros H. exists ((fun c => [c]) <$> s). split.
    + clear H. induction s as [|c s IH]; cbn; [done|]. by rewrite IH at 1.
    + apply Forall_fmap. eapply Forall_impl; [exact H|]. intros c Hc. by exists c.
Qed.

Lemma lang_at_least k n rs s :
  lang (AtLeast k (Class n rs)) s <-> (k <= length s)%nat /\ Forall (fun c => in_class n rs c = true) s.
Proof.
  revert s. induction k as [|k IH]; intros s; [rewrite <- lang_star_class; cbn [AtLeast]; split; [split; [lia|done]|tauto]|].
  cbn [AtLeast lang]. split.
  - intros (s1 & s2 & -> & (c & -> & Hc) & [H1 H2]%IH). split; [cbn; lia|]. by constructor.
  - intros [Hl H]. destruct s as [|c s]; [cbn in Hl; lia|]. apply Forall_cons in H as [Hc H].
    exists [c], s. splits; [done|by exists c|]. apply IH. split; [cbn in Hl; lia|done].
Qed.

Lemma lang_plus n rs s : lang (Plus (Class n rs)) s <-> s <> [] /\ Forall (fun c => in_class n rs c = true) s.
Proof.
  pose proof (lang_at_least 1 n rs s) as H. cbn [AtLeast] in H. unfold Plus. rewrite H.
  split; intros [? ?]; (split; [|done]); destruct s; cbn in *; (done || lia).
Qed.

Lemma lang_char c s : lang (Char c) s <-> s = [c].
Proof.
  unfold Char. cbn [lang]. split.
  - intros (x & -> & H). unfold in_class in H. cbn [existsb fst snd xorb] in H. rewrite orb_false_r in H. f_equal. destruct (_ <=? _) eqn:E1, (_ <=? _) eqn:E2 in H; try done. lia.
  - intros ->. exists c. split; [done|]. unfold in_class. cbn. rewrite !Z.leb_refl. done.
Qed.

(** A tagged name: a path, the tag's delimiter and the tag. *)
Lemma lang_tagged c s :
  lang (Cat (Plus before_tag) (Cat (Char c) (Plus in_tag))) s <->
  exists p t, s = p ++ c :: t /\ p <> [] /\ Forall (fun c => before_char c = true) p
    /\ t <> [] /\ Forall (fun c => tag_char c = true) t.
Proof.
  unfold before_tag, in_tag, before_char, tag_char. cbn [lang]. split.
  - intros (p & s2 & -> & Hp & (x & t & -> & Hx & Ht)). apply lang_plus in Hp as [? ?], Ht as [? ?].
    apply lang_char in Hx as ->. by exists p, t.
  - intros (p & t & -> & H1 & H2 & H3 & H4). exists p, (c :: t). splits; [done|by apply lang_plus|].
    exists [c], t. splits; [done|by apply lang_char|by apply lang_plus].
Qed.

Lemma lang_owner s :
  lang OWNER_INDICATOR s <-> exists p, s = p ++ [33] /\ p <> [] /\ Forall (fun c => before_char c = true) p.
Proof.
  unfold OWNER_INDICATOR, before_tag, before_char. cbn [lang]. split.
  - intros (p & s2 & -> & Hp & Hx). apply lang_plus in Hp as [? ?]. apply lang_char in Hx as ->. by exists p.
  - intros (p & -> & H1 & H2). exists p, [33]. splits; [done|by apply lang_plus|by apply lang_char].
Qed.

Lemma lang_prefixed c k s :
  lang (Cat (Char c) (AtLeast k upper_digit_dot)) s <->
  exists t, s = c :: t /\ (k <= length t)%nat /\ Forall (fun c => upper_char c = true) t.
Proof.
  unfold upper_digit_dot. cbn [lang]. split.
  - intros (x & t & -> & Hx & [? ?]%lang_at_least). apply lang_char in Hx as ->. by exists t.
  - intros (t & -> & H1 & H2). exists [c], t. splits; [done|by apply lang_char|by apply lang_at_least].
Qed.

Lemma upper_char_cases c : upper_char c = true -> 65 <= c <= 90 \/ 48 <= c <= 57 \/ c = 46 \/ c = 95.
Proof.
  unfold upper_char, in_class. cbn [existsb fst snd]. cbn [xorb]. rewrite !orb_true_iff, !andb_true_iff, !Z.leb_le. lia.
Qed.

Lemma before_char_not c : before_char c = true <-> c <> 94 /\ c <> 126 /\ c <> 35 /\ c <> 33.
Proof.
  unfold before_char, in_class. cbn [existsb fst snd]. rewrite xorb_true_l, negb_true_iff, !orb_false_iff, !andb_false_iff, !Z.leb_gt.
  lia.
Qed.
Lemma tag_char_not c : tag_char c = true <-> c <> 126 /\ c <> 35 /\ c <> 33 /\ c <> 47.
Proof.
  unfold tag_char, in_class. cbn [existsb fst snd]. rewrite xorb_true_l, negb_true_iff, !orb_false_iff, !andb_false_iff, !Z.leb_gt.
  lia.
Qed.

(** ** Splitting *)

Lemma split_app c s t :
  split c (s ++ c :: t) = let '(f, o) := split c s in (f, o ++ (split c t).1 :: (split c t).2).
Proof.
  induction s as [|x s IH]; cbn [app split].
  - rewrite Z.eqb_refl. by destruct (split c t).
  - rewrite IH. destruct (split c s) as [f o]. by destruct (x =? c).
Qed.

Lemma split_none c s : Forall (fun x => x <> c) s -> split c s = (s, []).
Proof. induction 1 as [|x s Hx Hs IH]; cbn; [done|]. rewrite IH. by destruct (Z.eqb_spec x c). Qed.

Lemma split_inv c s : (split c s).2 = [] \/ exists p t, s = p ++ c :: t /\ Forall (fun x => x <> c) t
  /\ (split c s).1 = (split c p).1 /\ (split c s).2 = (split c p).2 ++ [t].
Proof.
  induction s as [|x s IH]; [by left|]. cbn [split].
  destruct IH as [E|(p & t & -> & Ht & E1 & E2)].
  - destruct (split c s) as [f o] eqn:Es. cbn in E. subst o. destruct (Z.eqb_spec x c) as [->|]; [|by left].
    right. exists [], s. assert (Hs : Forall (fun x => x <> c) s).
    { revert f Es. induction s as [|y s IH]; intros f Es; [constructor|]. cbn in Es.
      destruct (split c s) as [f' o'] eqn:E'. destruct (Z.eqb_spec y c); [done|]. injection Es as _ ->. constructor; [done|by eapply IH]. }
    rewrite (split_none c s Hs) in Es. injection Es as <-. by splits.
  - right. destruct (split c (p ++ c :: t)) as [f o]. cbn in E1, E2. subst f o.
    exists (x :: p), t. split; [done|]. split; [done|]. cbn [split]. destruct (split c p) as [f o]. by destruct (x =? c).
Qed.

Lemma until_last_app c s t : Forall (fun x => x <> c) t -> until_last c (s ++ c :: t) = Some s.
Proof.
  intros Ht. induction s as [|x s IH]; cbn [app until_last].
  - replace (until_last c t) with (@None bytes); [by rewrite Z.eqb_refl|].
    induction Ht as [|y t Hy Ht IH]; [done|]. cbn. rewrite <- IH. by destruct (Z.eqb_spec y c).
  - by rewrite IH.
Qed.

(** ** Paths *)

(** The characters of a path. *)
Definition path_char (c : Z) : Prop := upper_char c = true \/ c = 47.

Lemma root_name_chars s : IsRootNameValid s = true -> (3 <= length s)%nat /\ Forall (fun c => upper_char c = true) s.
Proof.
  unfold IsRootNameValid. rewrite !andb_true_iff. intros ((((H & _) & _) & _) & _). apply regex_match_spec in H.
  by apply lang_at_least in H.
Qed.

Lemma sub_name_chars s : IsSubNameValid s = true -> s <> [] /\ Forall (fun c => upper_char c = true) s.
Proof.
  unfold IsSubNameValid. rewrite !andb_true_iff. intros (((H & _) & _) & _). apply regex_match_spec in H.
  by apply lang_plus in H.
Qed.

Lemma split_chars (P : Z -> Prop) c s :
  Forall P (split c s).1 -> Forall (Forall P) (split c s).2 -> Forall (fun x => P x \/ x = c) s.
Proof.
  induction s as [|x s IH]; [constructor|]. cbn [split]. destruct (split c s) as [f o]. cbn [fst snd] in IH.
  destruct (Z.eqb_spec x c) as [->|]; cbn [fst snd].
  - intros _ H. apply Forall_cons in H as [? ?]. constructor; [by right|]. by apply IH.
  - intros H ?. apply Forall_cons in H as [? ?]. constructor; [by left|]. by apply IH.
Qed.

Lemma split_length c s : (length (split c s).1 <= length s)%nat.
Proof. induction s as [|x s IH]; cbn; [lia|]. destruct (split c s). destruct (x =? c); cbn in *; lia. Qed.

Lemma path_chars n : IsNameValidBeforeTag n = true -> (3 <= length n)%nat /\ Forall path_char n.
Proof.
  unfold IsNameValidBeforeTag. rewrite andb_true_iff. intros [H1 H2].
  apply root_name_chars in H1 as [Hl H1]. split; [pose proof (split_length 47 n); lia|].
  apply split_chars; [done|]. rewrite forallb_forall in H2. apply Forall_forall. intros p Hp.
  apply sub_name_chars, H2. by apply list_elem_of_In.
Qed.

Lemma path_char_before c : path_char c -> before_char c = true /\ c <> 33 /\ c <> 35 /\ c <> 36 /\ c <> 94 /\ c <> 126.
Proof. intros [H%upper_char_cases| ->]; [|done]. rewrite before_char_not. lia. Qed.

(** ** Which branch of [IsAssetNameValid] a name takes *)

Lemma match_false s r : regex_match s r = false <-> ~ lang r s.
Proof. rewrite <- regex_match_spec. by destruct (regex_match s r). Qed.

(** A name that lacks the delimiter is not a tagged name. *)
Lemma tagged_has c s : lang (Cat (Plus before_tag) (Cat (Char c) (Plus in_tag))) s -> c ∈ s.
Proof. rewrite lang_tagged. intros (p & t & -> & _). apply elem_of_app. right. by left. Qed.
Lemma owner_has s : lang OWNER_INDICATOR s -> 33 ∈ s.
Proof. rewrite lang_owner. intros (p & -> & _). apply elem_of_app. right. by left. Qed.

Lemma path_not_in c n : Forall path_char n -> In c [33; 35; 36; 94; 126] -> c ∉ n.
Proof.
  intros H Hc Hn. rewrite Forall_forall in H. apply H, path_char_before in Hn. cbn in Hc. lia.
Qed.

(** Names that begin with a mark of their own. *)
Lemma marked_head c s rs : lang (Cat (Char c) rs) s -> exists t, s = c :: t.
Proof. cbn [lang]. intros (x & t & -> & Hx & _). apply lang_char in Hx as ->. by exists t. Qed.

Lemma path_name n :
  IsNameValidBeforeTag n = true -> (length n <= 30)%nat ->
  IsAssetNameValid n = Ok (if IsAssetNameASubasset n then SUB else ROOT).
Proof.
  intros Hv Hl. destruct (path_chars n Hv) as [Hl3 Hc]. unfold IsAssetNameValid.
  rewrite (proj2 (Nat.ltb_ge 40 (length n))) by lia.
  pose proof (fun c => path_not_in c n Hc) as Hn.
  assert (Hh : forall c t, In c [33; 35; 36; 94; 126] -> n <> c :: t).
  { intros c t Hi ->. apply (Hn c Hi). by left. }
  repeat match goal with
  | |- context[regex_match n ?r] =>
    rewrite (proj2 (match_false n r)) by
      first [ intros H%tagged_has; revert H; apply Hn; cbn; tauto
            | intros H%owner_has; revert H; apply Hn; cbn; tauto
            | intros (t & H)%marked_head; revert H; apply Hh; cbn; tauto ]
  end.
  unfold typed. assert (E : IsTypeCheckNameValid ROOT n = Ok ()).
  { unfold IsTypeCheckNameValid. rewrite (proj2 (Nat.leb_le (length n) (MAX_NAME_LENGTH - 1))) by (unfold MAX_NAME_LENGTH; lia). cbn [guard_or mbind result_bind].
    rewrite (proj2 (Nat.ltb_ge (length n) MIN_ASSET_LENGTH)) by (unfold MIN_ASSET_LENGTH; lia). rewrite orb_true_r. cbn [guard_or mbind result_bind negb].
    by rewrite Hv. }
  destruct (IsAssetNameASubasset n); [|by rewrite E]. change (IsTypeCheckNameValid SUB n) with (IsTypeCheckNameValid ROOT n). by rewrite E.
Qed.

Lemma typed_inv t n t' : typed t n = Ok t' -> t' = t /\ IsTypeCheckNameValid t n = Ok ().
Proof. unfold typed. destruct (IsTypeCheckNameValid t n) as [[]|]; [|done]. by intros [= ->]. Qed.

Lemma guard_or_ok {E} b (e : E) u : guard_or b e = Ok u -> b = true.
Proof. by destruct b. Qed.

Lemma split_has c s : c ∈ s -> (split c s).2 <> [].
Proof.
  intros (s1 & s2 & ->)%list_elem_of_split. rewrite split_app. destruct (split c s1) as [f o]. by destruct o.
Qed.

Lemma sub_qualifier_has s : lang SUB_QUALIFIER_INDICATOR s -> 47 ∈ s.
Proof.
  unfold SUB_QUALIFIER_INDICATOR. cbn [lang]. intros (a & b & -> & _ & (d & e & -> & _ & (f & g & -> & Hf & _))).
  apply lang_char in Hf as ->. rewrite !elem_of_app. right. right. left. by left.
Qed.

Lemma qualifier_check n :
  IsTypeCheckNameValid QUALIFIER n = Ok () -> (length n <= 31)%nat /\ IsQualifierNameValidBeforeTag n = true.
Proof.
  unfold IsTypeCheckNameValid, MAX_NAME_LENGTH. destruct (Nat.leb_spec (length n) 31); cbn [guard_or mbind result_bind]; [|done].
  intros H1%guard_or_ok. done.
Qed.

Lemma sub_qualifier_front n :
  47 ∈ n -> IsQualifierNameValidBeforeTag n = true -> IsAssetNameASubQualifier n = true.
Proof.
  intros H%split_has. unfold IsQualifierNameValidBeforeTag, IsAssetNameASubQualifier. rewrite !andb_true_iff.
  intros ((? & ?) & ?). split; [done|]. by destruct (split 47 n).2.
Qed.

(** What is known of a name of each type. *)
Definition checked (n : bytes) (t : AssetType) : Prop :=
  match t with
  | UNIQUE => lang UNIQUE_INDICATOR n
  | MSGCHANNEL => lang MSG_CHANNEL_INDICATOR n
  | OWNER => lang OWNER_INDICATOR n
  | VOTE => lang VOTE_INDICATOR n
  | QUALIFIER => lang QUALIFIER_INDICATOR n
  | SUB_QUALIFIER => IsAssetNameASubQualifier n = true
  | RESTRICTED => lang RESTRICTED_INDICATOR n
  | ROOT => IsAssetNameASubasset n = false
  | SUB => IsAssetNameASubasset n = true
  | _ => False
  end /\ IsTypeCheckNameValid t n = Ok ().

Lemma valid_inv n t : IsAssetNameValid n = Ok t -> checked n t.
Proof.
  unfold IsAssetNameValid, checked. destruct (40 <? _)%nat; [done|].
  repeat match goal with
  | |- (if regex_match n ?r then _ else _) = _ -> _ => destruct (regex_match n r) eqn:?
  end; rewrite ?regex_match_spec in *.
  1-4,7: intros [-> H]%typed_inv; done.
  - destruct (typed QUALIFIER n) as [t'|] eqn:E; [|done]. apply typed_inv in E as [-> H]. cbn [mbind result_bind].
    destruct (IsAssetNameASubQualifier n) eqn:Es; intros [= <-]; done.
  - destruct (typed SUB_QUALIFIER n) as [t'|] eqn:E; [|done]. apply typed_inv in E as [-> H]. cbn [mbind result_bind].
    rewrite sub_qualifier_front; [by intros [= <-]|by apply sub_qualifier_has|by apply (qualifier_check n)].
  - destruct (IsAssetNameASubasset n) eqn:Es; intros [-> H]%typed_inv; done.
Qed.

Lemma path_check n t :
  t = ROOT \/ t = SUB -> IsTypeCheckNameValid t n = Ok () -> (length n <= 30)%nat /\ IsNameValidBeforeTag n = true.
Proof.
  intros Ht. assert (IsTypeCheckNameValid t n = IsTypeCheckNameValid ROOT n) as -> by (by destruct Ht as [->| ->]).
  unfold IsTypeCheckNameValid, MAX_NAME_LENGTH. cbn [Nat.sub].
  destruct (Nat.leb_spec (length n) 30); cbn [guard_or mbind result_bind]; [|done].
  destruct (IsNameValidBeforeTag n); [done|].
  destruct (IsAssetNameASubasset n || _); cbn [guard_or mbind result_bind]; [|done]. by destruct (false || _ || _).
Qed.

(** A valid name of a path: a root or sub asset. *)
Definition is_path (n : bytes) : Prop := IsAssetNameValid n = Ok ROOT \/ IsAssetNameValid n = Ok SUB.

Lemma is_path_iff n : is_path n <-> IsNameValidBeforeTag n = true /\ (length n <= 30)%nat.
Proof.
  split.
  - intros [[_ H]%valid_inv|[_ H]%valid_inv]; apply path_check in H; tauto.
  - intros [H1 H2]. unfold is_path. rewrite path_name by done. destruct (IsAssetNameASubasset n); tauto.
Qed.

(** ** Owners and parents *)

Lemma limited_check n t :
  IsTypeCheckNameValid t n = Ok () -> (length n <= 31)%nat.
Proof.
  intros H. destruct (Nat.leb_spec (length n) 31) as [|Hl]; [done|]. exfalso. revert H.
  unfold IsTypeCheckNameValid, MAX_NAME_LENGTH. cbn [Nat.sub].
  rewrite (proj2 (Nat.leb_gt _ 31)), (proj2 (Nat.leb_gt _ 30)) by lia. by destruct t.
Qed.

Lemma owner_of_path n : IsAssetNameValid (n ++ OWNER_TAG) = Ok OWNER <-> is_path n.
Proof.
  rewrite is_path_iff. change OWNER_TAG with [33]. split.
  - intros [_ H]%valid_inv. pose proof (limited_check _ _ H) as Hl. rewrite length_app in Hl. cbn in Hl. split; [|lia].
    revert H. unfold IsTypeCheckNameValid. destruct (_ <=? _)%nat; [|done]. cbn [guard_or mbind result_bind].
    rewrite length_app. cbn [length]. rewrite Nat.add_sub, take_app_length. apply guard_or_ok.
  - intros [Hv Hl]. destruct (path_chars n Hv) as [Hl3 Hc]. unfold IsAssetNameValid, typed, IsTypeCheckNameValid.
    rewrite length_app. cbn [length]. rewrite Nat.add_sub, take_app_length, Hv.
    rewrite (proj2 (Nat.ltb_ge 40 _)), (proj2 (Nat.leb_le (length n + 1) MAX_NAME_LENGTH)) by (unfold MAX_NAME_LENGTH; lia).
    assert (Hn : forall c, c = 35 \/ c = 126 -> c ∉ n ++ [33]).
    { intros c Hi [H|H%list_elem_of_singleton]%elem_of_app; [|lia]. revert H. apply path_not_in; [done|]. cbn. lia. }
    rewrite (proj2 (match_false _ UNIQUE_INDICATOR)) by (intros H%tagged_has; revert H; apply Hn; tauto).
    rewrite (proj2 (match_false _ MSG_CHANNEL_INDICATOR)) by (intros H%tagged_has; revert H; apply Hn; tauto).
    rewrite (proj2 (regex_match_spec _ OWNER_INDICATOR)); [done|]. apply lang_owner. exists n. splits; [done|by destruct n|].
    eapply Forall_impl; [exact Hc|]. intros c H%path_char_before. tauto.
Qed.

Lemma owner_name_inv o : IsAssetNameValid o = Ok OWNER -> exists n, o = n ++ OWNER_TAG /\ is_path n.
Proof.
  intros H. pose proof H as [(n & -> & _)%lang_owner _]%valid_inv. exists n. split; [done|]. by apply owner_of_path.
Qed.

Lemma parent_of_tagged c n p t :
  c = 35 \/ c = 126 -> n = p ++ c :: t ->
  Forall (fun c => before_char c = true) p -> Forall (fun c => tag_char c = true) t ->
  split c n = (p, [t]) /\ before_last c n = p.
Proof.
  intros Hc -> Hp Ht.
  assert (Hp' : Forall (fun x => x <> c) p) by (eapply Forall_impl; [exact Hp|]; intros x H%before_char_not; lia).
  assert (Ht' : Forall (fun x => x <> c) t) by (eapply Forall_impl; [exact Ht|]; intros x H%tag_char_not; lia).
  split; [by rewrite split_app, !split_none by done|]. unfold before_last. by rewrite until_last_app.
Qed.

Lemma parent_of_unique n : IsAssetNameValid n = Ok UNIQUE -> is_path (GetParentName n).
Proof.
  intros H. pose proof H as [(p & t & En & _ & Hp & Ht0 & Ht)%lang_tagged Hc]%valid_inv.
  pose proof (limited_check _ _ Hc) as Hl. unfold GetParentName. rewrite H, is_path_iff.
  destruct (parent_of_tagged 35 n p t) as [Es ->]; [tauto..|].
  revert Hc. unfold IsTypeCheckNameValid. destruct (_ <=? _)%nat; [|done]. cbn [guard_or mbind result_bind]. rewrite Es.
  intros [? _]%guard_or_ok%andb_true_iff. split; [done|]. rewrite En, length_app in Hl. cbn in Hl. destruct t; [done|]. cbn in Hl. lia.
Qed.

Lemma parent_of_channel n : IsAssetNameValid n = Ok MSGCHANNEL -> is_path (GetParentName n).
Proof.
  intros H. pose proof H as [(p & t & En & _ & Hp & Ht0 & Ht)%lang_tagged Hc]%valid_inv.
  pose proof (limited_check _ _ Hc) as Hl. unfold GetParentName. rewrite H, is_path_iff.
  destruct (parent_of_tagged 126 n p t) as [Es ->]; [tauto..|].
  revert Hc. unfold IsTypeCheckNameValid. destruct (length n <=? _)%nat; [|done]. cbn [guard_or mbind result_bind]. rewrite Es.
  destruct (_ <=? _)%nat; [|done]. cbn [guard_or mbind result_bind].
  intros [? _]%guard_or_ok%andb_true_iff. split; [done|]. rewrite En, length_app in Hl. cbn in Hl. destruct t; [done|]. cbn in Hl. lia.
Qed.

Lemma parent_of_sub n : IsAssetNameValid n = Ok SUB -> is_path (GetParentName n).
Proof.
  intros H. pose proof H as [Hs Hc]%valid_inv. unfold GetParentName. rewrite H, is_path_iff.
  apply path_check in Hc as [Hl Hv]; [|tauto]. unfold IsAssetNameASubasset in Hs.
  destruct (split_inv 47 n) as [E|(p & t & En & Ht & E1 & E2)]; [rewrite E, andb_comm in Hs; done|].
  assert (before_last 47 n = p) as -> by (unfold before_last; by rewrite En, until_last_app).
  split; [|rewrite En, length_app in Hl; cbn in Hl; lia].
  revert Hv. unfold IsNameValidBeforeTag. rewrite E1, E2, forallb_app, !andb_true_iff. tauto.
Qed.

Lemma split_nil c s : (split c s).2 = [] -> split c s = (s, []).
Proof.
  induction s as [|x s IH]; [done|]. cbn [split]. destruct (split c s) as [f o]. destruct (x =? c); [done|].
  cbn [fst snd] in *. intros ->. by injection IH as ->.
Qed.

Lemma qualifier_name p :
  IsQualifierNameValid p = true -> (split 47 p).2 = [] -> (length p <= 31)%nat -> IsAssetNameValid p = Ok QUALIFIER.
Proof.
  intros Hq Hs Hl. apply split_nil in Hs. assert (Hi : lang QUALIFIER_INDICATOR p).
  { revert Hq. unfold IsQualifierNameValid. rewrite !andb_true_iff. intros ((((H & _) & _) & _) & _). by apply regex_match_spec in H. }
  destruct (marked_head _ _ _ Hi) as [t Et].
  assert (Hb : forall c r, ~ lang (Cat (Plus before_tag) (Cat (Char c) r)) p /\ ~ lang OWNER_INDICATOR p).
  { intros c r. unfold OWNER_INDICATOR. cbn [lang].
    split; intros (a & b & E & [Hne Ha]%lang_plus & _); destruct a as [|x a]; try done; rewrite Et in E; injection E as <- _;
      by apply Forall_cons in Ha as [? _]. }
  unfold IsAssetNameValid. rewrite (proj2 (Nat.ltb_ge 40 _)) by lia.
  rewrite (proj2 (match_false _ UNIQUE_INDICATOR)), (proj2 (match_false _ MSG_CHANNEL_INDICATOR)),
    (proj2 (match_false _ OWNER_INDICATOR)), (proj2 (match_false _ VOTE_INDICATOR)) by first [apply (Hb 0 Empty) | apply Hb].
  rewrite (proj2 (regex_match_spec _ _) Hi). unfold typed, IsTypeCheckNameValid, IsQualifierNameValidBeforeTag, IsAssetNameASubQualifier.
  rewrite Hs. cbn [fst snd forallb length]. rewrite Hq. by rewrite (proj2 (Nat.leb_le (length p) MAX_NAME_LENGTH)) by done.
Qed.

Lemma parent_of_sub_qualifier n : IsAssetNameValid n = Ok SUB_QUALIFIER -> IsAssetNameValid (GetParentName n) = Ok QUALIFIER.
Proof.
  intros H. pose proof H as [Hs Hc]%valid_inv. unfold GetParentName. rewrite H.
  apply qualifier_check in Hc as [Hl Hv]. unfold IsAssetNameASubQualifier in Hs. unfold IsQualifierNameValidBeforeTag in Hv.
  destruct (split_inv 47 n) as [E|(p & t & En & Ht & E1 & E2)]; [rewrite E, andb_comm in Hs; done|].
  assert (before_last 47 n = p) as -> by (unfold before_last; by rewrite En, until_last_app).
  rewrite E1, E2, !andb_true_iff in Hv. destruct Hv as ((Hq & Hn) & _).
  assert (E : (split 47 p).2 = []).
  { destruct (split 47 p).2 as [|x [|y l]]; [done|done|]. cbn in Hn. done. }
  apply qualifier_name; [|done|rewrite En, length_app in Hl; lia]. by rewrite (split_nil _ _ E) in Hq.
Qed.

Lemma name_min_length n t : IsAssetNameValid n = Ok t -> (3 <= length n)%nat.
Proof.
  intros [H1 H]%valid_inv. revert H. unfold IsTypeCheckNameValid.
  assert (Hf : forall c, IsNameValidBeforeTag (split c n).1 = true -> (3 <= length n)%nat).
  { intros c [? _]%path_chars. pose proof (split_length c n). lia. }
  destruct t; try done.
  all: match goal with
    | |- (guard_or (?l <=? ?x)%nat _ ≫= _) = _ -> _ => destruct (Nat.leb_spec l x); cbn [guard_or mbind result_bind]; [|done]
    end.
  - intros Hk. destruct (path_check n ROOT) as [_ H2%path_chars]; [tauto| |lia].
    unfold IsTypeCheckNameValid. by rewrite (proj2 (Nat.leb_le _ _)).
  - intros Hk. destruct (path_check n ROOT) as [_ H2%path_chars]; [tauto| |lia].
    unfold IsTypeCheckNameValid. by rewrite (proj2 (Nat.leb_le _ _)).
  - intros [? _]%guard_or_ok%andb_true_iff. by eapply Hf.
  - destruct (_ <=? _)%nat; [|done]. cbn [guard_or mbind result_bind]. intros [? _]%guard_or_ok%andb_true_iff. by eapply Hf.
  - intros _. apply lang_prefixed in H1 as (t & -> & ? & _). cbn. lia.
  - intros [(H0 & _)%andb_true_iff _]%guard_or_ok%andb_true_iff. unfold IsQualifierNameValid in H0.
    rewrite !andb_true_iff in H0. destruct H0 as ((((H0 & _) & _) & _) & _). apply regex_match_spec, lang_prefixed in H0 as (t & E & ? & _).
    pose proof (split_length 47 n) as Hl. rewrite E in Hl. cbn in Hl. lia.
  - intros _. apply lang_prefixed in H1 as (t & -> & ? & _). cbn. lia.
  - intros [? _]%guard_or_ok%andb_true_iff. by eapply Hf.
  - intros [H0 _]%guard_or_ok%path_chars. rewrite length_take in H0. lia.
Qed.

(** Asset names form the hierarchy the code relies on.  The owner token of a name is
    valid exactly when the name is a valid root or sub asset, and every owner name is
    of that form; the parent of a sub asset, unique asset or message channel is a valid
    root or sub asset and the parent of a sub qualifier a valid qualifier; and a name is
    accepted only with a type of an asset and between 3 and 31 characters. *)
Theorem asset_names_hierarchy n :
  (IsAssetNameValid (n ++ OWNER_TAG) = Ok OWNER <-> is_path n)
  /\ (IsAssetNameValid n = Ok OWNER -> exists p, n = p ++ OWNER_TAG /\ is_path p)
  /\ (forall t, In t [SUB; UNIQUE; MSGCHANNEL] -> IsAssetNameValid n = Ok t -> is_path (GetParentName n))
  /\ (IsAssetNameValid n = Ok SUB_QUALIFIER -> IsAssetNameValid (GetParentName n) = Ok QUALIFIER)
  /\ (forall t, IsAssetNameValid n = Ok t -> (t ∉ [INVALID; REISSUE; NULL_ADD_QUALIFIER]) /\ (3 <= length n <= 31)%nat).
Proof.
  split; [apply owner_of_path|]. split; [apply owner_name_inv|]. split; [|split; [apply parent_of_sub_qualifier|]].
  - intros t [<-|[<-|[<-|[]]]]; [apply parent_of_sub|apply parent_of_unique|apply parent_of_channel].
  - intros t H. pose proof H as [H1 H2]%valid_inv. split; [|split; [by eapply name_min_length|by eapply limited_check]].
    destruct t; try done; intros [?|[?|[?|?%elem_of_nil]%elem_of_cons]%elem_of_cons]%elem_of_cons; done.
Qed.

(** The exceptions to the hierarchy the expressions leave open: a restricted asset name
    with leading punctuation, or with the coin's own name, is accepted although no asset
    can own it; a sub qualifier with leading punctuation is accepted; and only the first
    and last parts of a vote name are checked, so that its parent may be invalid. *)
Theorem asset_name_gaps :
  (IsAssetNameValid (chars "$.ABC") = Ok RESTRICTED
   /\ RestrictedNameToOwnerName (chars "$.ABC") = chars ".ABC!" /\ name_valid (chars ".ABC!") = false)
  /\ (IsAssetNameValid (chars "$HNB") = Ok RESTRICTED
   /\ RestrictedNameToOwnerName (chars "$HNB") = chars "HNB!" /\ name_valid (chars "HNB!") = false)
  /\ (IsAssetNameValid (chars "#ABC/#.X") = Ok SUB_QUALIFIER /\ name_valid (chars "#.XYZ") = false)
  /\ (IsAssetNameValid (chars "ABC^a b^V") = Ok VOTE
   /\ GetParentName (chars "ABC^a b^V") = chars "ABC^a b" /\ name_valid (chars "ABC^a b") = false).
Proof. by vm_compute. Qed.
