(* ===== verification/LibBoolEE.v ===== *)
(** * Boolean expressions: [src/LibBoolEE.cpp]

    The parser and evaluator of the verifier strings of restricted assets.  A formula
    is the list of its characters and a valuation a finite map; what the code throws is
    an error.  [isalnum] and [isspace] are those of the C locale, which do not hold of a
    character above 127. *)

From S2P Require Import Prelude Base58.

Inductive bool_error :=
| UnknownOperator (ch : Z) (formula : bytes)
| ParenthesisParity (formula : bytes)
| EmptySubExpression
| NotAFormula (source : bytes)
| VariableNotFound (source : bytes)
| TooDeep.   (** the bound on the recursion is reached *)

Definition isalnum (c : Z) : bool :=
  ((48 <=? c) && (c <=? 57)) || ((65 <=? c) && (c <=? 90)) || ((97 <=? c) && (c <=? 122)).

(** [_], [#] and [.]. *)
Definition belongsToName (ch : Z) : bool := isalnum ch || (ch =? 95) || (ch =? 35) || (ch =? 46).

Definition removeWhitespaces (source : bytes) : bytes := filter (fun c => isspace c = false) source.
Definition removeCharacter (source : bytes) (ch : Z) : bytes := filter (fun c => c <> ch) source.

(** [!], [&], [(], [)] and [|]. *)
Definition NOT : Z := 33.
Definition AND : Z := 38.
Definition LPAR : Z := 40.
Definition RPAR : Z := 41.
Definition OR : Z := 124.

(** [formula.substr(start_pos, n)]. *)
Definition substr (formula : bytes) (start_pos n : nat) : bytes := take n (drop start_pos formula).

Record parse_state := mkParse {
  start_pos : option nat;        (* [None] for -1 *)
  parity_count : Z;
  subexpressions : list bytes;
}.

Definition parse_char (formula : bytes) (op : Z) (st : parse_state) (i : nat) (c : Z) : result bool_error parse_state :=
  let '(mkParse start_pos parity_count subexpressions) := st in
  if c =? RPAR then Ok (mkParse start_pos (parity_count - 1) subexpressions)
  else if c =? LPAR then Ok (mkParse (Some (default i start_pos)) (parity_count + 1) subexpressions)
  else if parity_count =? 0 then
    match start_pos with
    | None => Ok (mkParse (if belongsToName c || (c =? NOT) then Some i else None) parity_count subexpressions)
    | Some start =>
      if negb (belongsToName c || (c =? NOT)) then
        if op =? c then Ok (mkParse (Some (i + 1)%nat) parity_count (subexpressions ++ [substr formula start (i - start)]))
        else if negb (c =? AND) && negb (c =? OR) then Err (UnknownOperator c formula)
        else Ok st
      else Ok st
    end
  else Ok st.

Fixpoint parse_loop (formula : bytes) (op : Z) (st : parse_state) (i : nat) (rest : bytes) : result bool_error parse_state :=
  match rest with
  | [] => Ok st
  | c :: rest => let* st := parse_char formula op st i c in parse_loop formula op st (S i) rest
  end.

Definition singleParse (formula : bytes) (op : Z) : result bool_error (list bytes) :=
  let* st := parse_loop formula op (mkParse None 0 []) 0 formula in
  let subs := match start_pos st with
              | Some start => subexpressions st ++ [substr formula start (length formula - start)]
              | None => subexpressions st
              end in
  if negb (parity_count st =? 0) then Err (ParenthesisParity formula) else Ok subs.

(** The two loops over the subexpressions: every one is resolved, whatever the others yield. *)
Fixpoint resolve_all (resolve : bytes -> result bool_error bool) (f : bool -> bool -> bool) (acc : bool) (l : list bytes)
  : result bool_error bool :=
  match l with
  | [] => Ok acc
  | e :: l => let* b := resolve e in resolve_all resolve f (f acc b) l
  end.

(** [resolve] and [resolveRec]; the recursion is on shorter strings, so that a depth
    above the length of the source is enough. *)
Fixpoint resolve_fuel (depth : nat) (valuation : gmap bytes bool) (source : bytes) : result bool_error bool :=
  match depth with
  | O => Err TooDeep
  | S depth =>
    let resolve := resolve_fuel depth valuation in
    let source := removeWhitespaces source in
    match source with
    | [] => Err EmptySubExpression
    | first :: _ =>
      let* subs := singleParse source OR in
      let* (current_op, subs) :=
        if (length subs =? 1)%nat then let* subs := singleParse source AND in Ok (AND, subs) else Ok (OR, subs) in
      match subs with
      | [] => Err (NotAFormula source)
      | [_] =>
        if first =? NOT then let* b := resolve (drop 1 source) in Ok (negb b)
        else if first =? LPAR then resolve (substr source 1 (length source - 2))
        else if bool_decide (source = chars "1") then Ok true
        else if bool_decide (source = chars "0") then Ok false
        else match valuation !! source with
             | None => Err (VariableNotFound source)
             | Some b => Ok b
             end
      | _ => if current_op =? OR then resolve_all resolve orb false subs else resolve_all resolve andb true subs
      end
    end
  end.

Definition resolve (source : bytes) (valuation : gmap bytes bool) : result bool_error bool :=
  resolve_fuel (S (length source)) valuation source.

(** ** Formulas *)

(** The formulas of the documentation, with [n]-ary operators and the usual precedence. *)
Inductive expr := ETrue | EFalse | EVar (n : bytes) | ENot (e : expr) | EAnd (a b : expr) | EOr (a b : expr).

(** How a formula is written, in a context that binds as [|] (0), as [&] (1) or as [!] (2). *)
Fixpoint print (level : nat) (e : expr) : bytes :=
  match e with
  | ETrue => chars "1"
  | EFalse => chars "0"
  | EVar n => n
  | ENot e => NOT :: print 2 e
  | EAnd a b =>
    let s := print 1 a ++ AND :: print 1 b in
    if (level <=? 1)%nat then s else LPAR :: s ++ [RPAR]
  | EOr a b =>
    let s := print 0 a ++ OR :: print 0 b in
    if (level <=? 0)%nat then s else LPAR :: s ++ [RPAR]
  end.

(** The value of a formula; an unknown variable is an error, the leftmost one. *)
Fixpoint eval (v : gmap bytes bool) (e : expr) : result bool_error bool :=
  match e with
  | ETrue => Ok true
  | EFalse => Ok false
  | EVar n => match v !! n with Some b => Ok b | None => Err (VariableNotFound n) end
  | ENot e => let* b := eval v e in Ok (negb b)
  | EAnd a b => let* x := eval v a in let* y := eval v b in Ok (x && y)
  | EOr a b => let* x := eval v a in let* y := eval v b in Ok (x || y)
  end.

Definition var_name (n : bytes) : Prop :=
  n <> [] /\ Forall (fun c => belongsToName c = true) n /\ n <> chars "1" /\ n <> chars "0".
Fixpoint names_ok (e : expr) : Prop :=
  match e with
  | ETrue | EFalse => True
  | EVar n => var_name n
  | ENot e => names_ok e
  | EAnd a b | EOr a b => names_ok a /\ names_ok b
  end.

(** ** The scanner on written formulas *)

Lemma name_char c : belongsToName c = true -> (c =? RPAR) = false /\ (c =? LPAR) = false /\ (c =? NOT) = false /\ isspace c = false.
Proof.
  unfold belongsToName, isalnum, isspace, RPAR, LPAR, NOT. rewrite !orb_true_iff, !andb_true_iff, !Z.leb_le, !Z.eqb_eq.
  intros H. repeat split; lia.
Qed.

(** A string the scanner passes inside parentheses without a change. *)
Definition inner (s : bytes) : Prop := forall formula op k p acc i rest, 0 < p ->
  parse_loop formula op (mkParse (Some k) p acc) i (s ++ rest) = parse_loop formula op (mkParse (Some k) p acc) (i + length s) rest.

(** A string it takes as a part of one subexpression. *)
Definition piece (op : Z) (s : bytes) : Prop := forall formula st acc i rest,
  parse_loop formula op (mkParse st 0 acc) i (s ++ rest)
  = parse_loop formula op (mkParse (Some (default i st)) 0 acc) (i + length s) rest.

Lemma inner_app s t : inner s -> inner t -> inner (s ++ t).
Proof. intros Hs Ht formula op k p acc i rest Hp. rewrite <- app_assoc, Hs, Ht, length_app by done. f_equal. lia. Qed.

Lemma inner_char c : c <> RPAR -> c <> LPAR -> inner [c].
Proof.
  intros H1%Z.eqb_neq H2%Z.eqb_neq formula op k p acc i rest Hp. cbn [app parse_loop parse_char]. rewrite H1, H2.
  rewrite (proj2 (Z.eqb_neq p 0)) by lia. cbn [length]. f_equal. lia.
Qed.

Lemma inner_name n : Forall (fun c => belongsToName c = true) n -> inner n.
Proof.
  induction 1 as [|c n Hc Hn IH].
  - intros formula op k p acc i rest Hp. cbn. f_equal. lia.
  - apply (inner_app [c] n); [|done]. apply name_char in Hc as (H1 & H2 & _). by apply inner_char; apply Z.eqb_neq.
Qed.

Lemma inner_paren s : inner s -> inner (LPAR :: s ++ [RPAR]).
Proof.
  intros Hs formula op k p acc i rest Hp. cbn [app parse_loop parse_char]. rewrite Z.eqb_refl. cbn [default].
  change (LPAR =? RPAR) with false. rewrite <- app_assoc, Hs by lia. cbn [app parse_loop parse_char]. rewrite Z.eqb_refl.
  rewrite Z.add_simpl_r. f_equal. cbn [length]. rewrite length_app. cbn [length]. lia.
Qed.

Lemma inner_print l e : names_ok e -> inner (print l e).
Proof.
  revert l. induction e as [| |n|e IH|a IHa b IHb|a IHa b IHb]; intros l He; cbn [print names_ok] in *.
  - by apply inner_char.
  - by apply inner_char.
  - by apply inner_name, He.
  - apply (inner_app [NOT]); [by apply inner_char|by apply IH].
  - destruct He. assert (Hi : inner (print 1 a ++ AND :: print 1 b)).
    { apply inner_app; [by apply IHa|]. apply (inner_app [AND]); [by apply inner_char|by apply IHb]. }
    destruct (l <=? 1)%nat; [done|by apply inner_paren].
  - destruct He. assert (Hi : inner (print 0 a ++ OR :: print 0 b)).
    { apply inner_app; [by apply IHa|]. apply (inner_app [OR]); [by apply inner_char|by apply IHb]. }
    destruct (l <=? 0)%nat; [done|by apply inner_paren].
Qed.

Lemma name_step formula op k acc i c :
  belongsToName c || (c =? NOT) = true -> parse_char formula op (mkParse (Some k) 0 acc) i c = Ok (mkParse (Some k) 0 acc)
  /\ parse_char formula op (mkParse None 0 acc) i c = Ok (mkParse (Some i) 0 acc).
Proof.
  intros H. assert (Hc : (c =? RPAR) = false /\ (c =? LPAR) = false).
  { apply orb_true_iff in H as [H%name_char|H%Z.eqb_eq]; [tauto|by subst c]. }
  destruct Hc as [H1 H2]. unfold parse_char. rewrite H1, H2, H. done.
Qed.

Lemma piece_cons op c s : belongsToName c || (c =? NOT) = true -> (s = [] \/ piece op s) -> piece op (c :: s).
Proof.
  intros Hc Hs formula st acc i rest. cbn [app parse_loop].
  assert (parse_char formula op (mkParse st 0 acc) i c = Ok (mkParse (Some (default i st)) 0 acc)) as ->.
  { destruct st as [k|]; by apply name_step. }
  destruct Hs as [->|Hs]; [cbn; by rewrite Nat.add_1_r|]. rewrite Hs. cbn [default length]. f_equal. lia.
Qed.

Lemma piece_name op n : n <> [] -> Forall (fun c => belongsToName c = true) n -> piece op n.
Proof.
  intros Hne Hn. induction Hn as [|c n Hc Hn IH]; [done|]. apply piece_cons; [by rewrite Hc|].
  destruct n; [by left|right; by apply IH].
Qed.

Lemma piece_paren op s : inner s -> piece op (LPAR :: s ++ [RPAR]).
Proof.
  intros Hs formula st acc i rest. cbn [app parse_loop parse_char]. rewrite Z.eqb_refl. change (LPAR =? RPAR) with false.
  rewrite <- app_assoc, Hs by lia. cbn [app parse_loop parse_char]. rewrite Z.eqb_refl.
  f_equal. cbn [length]. rewrite length_app. cbn [length]. lia.
Qed.

Lemma piece_and s t : piece OR s -> piece OR t -> piece OR (s ++ AND :: t).
Proof.
  intros Hs Ht formula st acc i rest. rewrite <- app_assoc, Hs. cbn [app parse_loop parse_char].
  change (AND =? RPAR) with false. change (AND =? LPAR) with false. cbn [Z.eqb]. change (belongsToName AND || (AND =? NOT)) with false.
  change (OR =? AND) with false. cbn [negb andb]. rewrite Z.eqb_refl. cbn [negb andb]. rewrite Ht. cbn [default].
  f_equal. rewrite length_app. cbn [length]. lia.
Qed.

Lemma piece_print_2 op e : names_ok e -> piece op (print 2 e).
Proof.
  induction e as [| |n|e IH|a IHa b IHb|a IHa b IHb]; intros He; cbn [print names_ok] in *.
  - by apply piece_name; [|repeat constructor].
  - by apply piece_name; [|repeat constructor].
  - by apply piece_name; apply He.
  - apply piece_cons; [done|]. right. by apply IH.
  - apply piece_paren. apply (inner_print 1 (EAnd a b)). done.
  - apply piece_paren. apply (inner_print 0 (EOr a b)). done.
Qed.

Lemma piece_print_1 e : names_ok e -> piece OR (print 1 e).
Proof.
  induction e as [| |n|e IH|a IHa b IHb|a IHa b IHb]; intros He.
  1-4,6: match goal with |- piece _ (print _ ?e) => by apply (piece_print_2 OR e) end.
  destruct He. cbn [print Nat.leb]. by apply piece_and; [apply IHa|apply IHb].
Qed.

(** ** Splitting at the operators *)

Fixpoint join (op : Z) (p : bytes) (ps : list bytes) : bytes :=
  match ps with [] => p | q :: ps => p ++ op :: join op q ps end.

Lemma parse_pieces op : op = AND \/ op = OR -> forall ps p formula st acc pre,
  Forall (piece op) (p :: ps) -> formula = pre ++ join op p ps -> default (length pre) st = length pre ->
  exists start subs, parse_loop formula op (mkParse st 0 acc) (length pre) (join op p ps) = Ok (mkParse (Some start) 0 subs)
    /\ subs ++ [substr formula start (length formula - start)] = acc ++ p :: ps.
Proof.
  intros Hop. induction ps as [|q ps IH]; intros p formula st acc pre Hp Hf Hs; apply Forall_cons in Hp as [Hp Hps].
  - pose proof (Hp formula st acc (length pre) []) as E. rewrite app_nil_r in E. cbn [join] in *. rewrite E, Hs. cbn [parse_loop].
    exists (length pre), acc. split; [done|]. f_equal. f_equal. unfold substr. rewrite Hf, drop_app_length, length_app.
    rewrite take_ge by lia. done.
  - cbn [join] in *. rewrite Hp, Hs. cbn [parse_loop parse_char].
    assert (Ho : (op =? RPAR) = false /\ (op =? LPAR) = false /\ belongsToName op || (op =? NOT) = false) by (by destruct Hop as [->| ->]).
    destruct Ho as (-> & -> & ->). cbn [Z.eqb negb]. rewrite Z.eqb_refl.
    destruct (IH q formula (Some (length pre + length p + 1)%nat)
                (acc ++ [substr formula (length pre) (length pre + length p - length pre)]) (pre ++ p ++ [op])) as (start & subs & E & Es);
      [done|by rewrite Hf, <- !app_assoc|cbn; rewrite !length_app; cbn [length]; lia|].
    replace (length (pre ++ p ++ [op])) with (S (length pre + length p)) in E by (rewrite !length_app; cbn [length]; lia).
    rewrite E. exists start, subs. split; [done|]. rewrite Es, <- app_assoc. cbn [app]. f_equal. f_equal.
    unfold substr. rewrite Hf, drop_app_length, Nat.add_comm, Nat.add_sub. by rewrite take_app_length.
Qed.

Lemma singleParse_pieces op p ps : op = AND \/ op = OR -> Forall (piece op) (p :: ps) -> singleParse (join op p ps) op = Ok (p :: ps).
Proof.
  intros Hop Hp. destruct (parse_pieces op Hop ps p (join op p ps) None [] [] Hp eq_refl eq_refl) as (start & subs & E & Es).
  unfold singleParse. cbn [length] in E. rewrite E. cbn [start_pos parity_count subexpressions]. by rewrite Es.
Qed.

(** The operands of a sum and of a product. *)
Fixpoint or_parts (e : expr) : list expr := match e with EOr a b => or_parts a ++ or_parts b | _ => [e] end.
Fixpoint and_parts (e : expr) : list expr := match e with EAnd a b => and_parts a ++ and_parts b | _ => [e] end.

Lemma join_app op p ps q qs : join op p (ps ++ q :: qs) = join op p ps ++ op :: join op q qs.
Proof. revert p. induction ps as [|x ps IH]; intros p; cbn [app join]; [done|]. by rewrite IH, <- app_assoc. Qed.

Lemma or_print e : exists p ps, print 1 <$> or_parts e = p :: ps /\ print 0 e = join OR p ps.
Proof.
  induction e as [| |n|e IH|a IHa b IHb|a IHa b IHb]; try (by eexists _, []).
  destruct IHa as (p & ps & Ea & Pa), IHb as (q & qs & Eb & Pb). exists p, (ps ++ q :: qs).
  cbn [or_parts print Nat.leb]. rewrite fmap_app, Ea, Eb, Pa, Pb, join_app. done.
Qed.

Lemma and_print e : exists p ps, print 2 <$> and_parts e = p :: ps /\ (print 1 e = join AND p ps).
Proof.
  induction e as [| |n|e IH|a IHa b IHb|a IHa b IHb]; try (by eexists _, []).
  destruct IHa as (p & ps & Ea & Pa), IHb as (q & qs & Eb & Pb). exists p, (ps ++ q :: qs).
  cbn [and_parts print Nat.leb]. rewrite fmap_app, Ea, Eb, Pa, Pb, join_app. done.
Qed.

Lemma parts_names e : names_ok e -> Forall names_ok (or_parts e) /\ Forall names_ok (and_parts e).
Proof.
  induction e as [| |n|e IH|a IHa b IHb|a IHa b IHb]; intros He; cbn [or_parts and_parts];
    try (split; by apply Forall_singleton); destruct He; (split; [|]); try (by apply Forall_singleton);
    apply Forall_app; split; (apply IHa || apply IHb); done.
Qed.

(** ** Resolving written formulas *)

Definition at_first (s : bytes) : Z := default 0 (head s).

Section Resolution.
Context (v : gmap bytes bool).

Lemma resolve_all_app f r acc l l' :
  resolve_all r f acc (l ++ l') = let* x := resolve_all r f acc l in resolve_all r f x l'.
Proof. revert acc. induction l as [|e l IH]; intros acc; cbn [app resolve_all]; [done|]. by destruct (r e). Qed.

Lemma resolve_sum r e acc :
  Forall (fun x => r (print 1 x) = eval v x) (or_parts e) ->
  resolve_all r orb acc (print 1 <$> or_parts e) = let* x := eval v e in Ok (acc || x).
Proof.
  revert acc. induction e as [| |n|e IH|a IHa b IHb|a IHa b IHb]; intros acc H.
  1-5: cbn [or_parts] in H; apply Forall_cons in H as [H _]; cbn [or_parts fmap list_fmap resolve_all]; rewrite H; by destruct (eval v _).
  cbn [or_parts eval] in *. apply Forall_app in H as [Ha Hb]. rewrite fmap_app, resolve_all_app, IHa by done.
  destruct (eval v a) as [x|]; [|done]. rewrite IHb by done. destruct (eval v b); [|done]. by rewrite orb_assoc.
Qed.

Lemma resolve_product r e acc :
  Forall (fun x => r (print 2 x) = eval v x) (and_parts e) ->
  resolve_all r andb acc (print 2 <$> and_parts e) = let* x := eval v e in Ok (acc && x).
Proof.
  revert acc. induction e as [| |n|e IH|a IHa b IHb|a IHa b IHb]; intros acc H.
  1-4,6: cbn [and_parts] in H; apply Forall_cons in H as [H _]; cbn [and_parts fmap list_fmap resolve_all]; rewrite H; by destruct (eval v _).
  cbn [and_parts eval] in *. apply Forall_app in H as [Ha Hb]. rewrite fmap_app, resolve_all_app, IHa by done.
  destruct (eval v a) as [x|]; [|done]. rewrite IHb by done. destruct (eval v b); [|done]. by rewrite andb_assoc.
Qed.

Lemma print_spaces l e : names_ok e -> Forall (fun c => isspace c = false) (print l e).
Proof.
  revert l. induction e as [| |n|e IH|a IHa b IHb|a IHa b IHb]; intros l He; cbn [print names_ok] in *.
  1-2: by repeat constructor.
  - destruct He as (_ & He & _). eapply Forall_impl; [exact He|]. intros c Hc. apply name_char in Hc. tauto.
  - constructor; [done|by apply IH].
  - destruct He. assert (Forall (fun c => isspace c = false) (print 1 a ++ AND :: print 1 b)).
    { apply Forall_app. split; [by apply IHa|]. constructor; [done|by apply IHb]. }
    destruct (_ <=? _)%nat; [done|]. constructor; [done|]. apply Forall_app. split; [done|by repeat constructor].
  - destruct He. assert (Forall (fun c => isspace c = false) (print 0 a ++ OR :: print 0 b)).
    { apply Forall_app. split; [by apply IHa|]. constructor; [done|by apply IHb]. }
    destruct (_ <=? _)%nat; [done|]. constructor; [done|]. apply Forall_app. split; [done|by repeat constructor].
Qed.

Lemma removeWhitespaces_none s : Forall (fun c => isspace c = false) s -> removeWhitespaces s = s.
Proof.
  unfold removeWhitespaces. induction 1 as [|c s Hc Hs IH]; [done|]. by rewrite filter_cons_True, IH.
Qed.

Lemma print_nonempty l e : names_ok e -> print l e <> [].
Proof.
  destruct e as [| |n|e|a b|a b]; cbn [print]; try done; [by intros [? _]|intros _..];
    (destruct (_ <=? _)%nat; [by destruct (print _ a)|done]).
Qed.

(** One step of [resolve_fuel] on a source without spaces. *)
Lemma resolve_step depth s :
  s <> [] -> Forall (fun c => isspace c = false) s ->
  resolve_fuel (S depth) v s =
    let r := resolve_fuel depth v in
    let* subs := singleParse s OR in
    let* (current_op, subs) :=
      if (length subs =? 1)%nat then let* subs := singleParse s AND in Ok (AND, subs) else Ok (OR, subs) in
    match subs with
    | [] => Err (NotAFormula s)
    | [_] =>
      if at_first s =? NOT then let* b := r (drop 1 s) in Ok (negb b)
      else if at_first s =? LPAR then r (substr s 1 (length s - 2))
      else if bool_decide (s = chars "1") then Ok true
      else if bool_decide (s = chars "0") then Ok false
      else match v !! s with None => Err (VariableNotFound s) | Some b => Ok b end
    | _ => if current_op =? OR then resolve_all r orb false subs else resolve_all r andb true subs
    end.
Proof.
  intros Hn Hs. cbn [resolve_fuel]. rewrite (removeWhitespaces_none s) by done. by destruct s.
Qed.

Lemma resolve_single depth s :
  s <> [] -> Forall (fun c => isspace c = false) s -> piece OR s -> piece AND s ->
  resolve_fuel (S depth) v s =
    if at_first s =? NOT then let* b := resolve_fuel depth v (drop 1 s) in Ok (negb b)
    else if at_first s =? LPAR then resolve_fuel depth v (substr s 1 (length s - 2))
    else if bool_decide (s = chars "1") then Ok true
    else if bool_decide (s = chars "0") then Ok false
    else match v !! s with None => Err (VariableNotFound s) | Some b => Ok b end.
Proof.
  intros Hn Hs Ho Ha. rewrite resolve_step by done. cbv zeta.
  pose proof (singleParse_pieces OR s [] ltac:(tauto) (proj2 (Forall_singleton _ _) Ho)) as E1.
  pose proof (singleParse_pieces AND s [] ltac:(tauto) (proj2 (Forall_singleton _ _) Ha)) as E2. cbn [join] in E1, E2.
  rewrite E1. cbn [length Nat.eqb]. by rewrite E2.
Qed.

Lemma join_shorter op p ps x : ps <> [] -> x ∈ p :: ps -> (length x < length (join op p ps))%nat.
Proof.
  revert p. induction ps as [|q ps IH]; intros p Hne Hx; [done|]. cbn [join]. rewrite length_app. cbn [length].
  apply elem_of_cons in Hx as [->|Hx]; [lia|]. destruct ps as [|q' ps]; [apply list_elem_of_singleton in Hx as ->; cbn; lia|].
  specialize (IH q ltac:(done) Hx). lia.
Qed.

Lemma resolve_paren depth s r :
  inner s -> Forall (fun c => isspace c = false) s -> resolve_fuel depth v s = r ->
  resolve_fuel (S depth) v (LPAR :: s ++ [RPAR]) = r.
Proof.
  intros Hi Hs Hr. rewrite resolve_single; [|done| |by apply piece_paren|by apply piece_paren].
  - cbn [at_first head default]. change (LPAR =? NOT) with false. rewrite Z.eqb_refl. unfold substr. cbn [length skipn].
    rewrite drop_0, length_app. cbn [length]. replace (S (length s + 1) - 2)%nat with (length s) by lia. by rewrite take_app_length.
  - constructor; [done|]. apply Forall_app. split; [done|by repeat constructor].
Qed.

(** A sum has at least two parts, each shorter than the whole; so has a product. *)
Lemma or_pieces a b : exists p ps, ps <> [] /\ print 1 <$> or_parts (EOr a b) = p :: ps /\ print 0 (EOr a b) = join OR p ps.
Proof.
  destruct (or_print (EOr a b)) as (p & ps & Ep & Ej). exists p, ps. splits; try done.
  intros ->. apply (f_equal length) in Ep. cbn [or_parts] in Ep. rewrite length_fmap, length_app in Ep.
  destruct (or_print a) as (? & ? & Ea%(f_equal length) & _), (or_print b) as (? & ? & Eb%(f_equal length) & _).
  rewrite length_fmap in Ea, Eb. cbn in *. lia.
Qed.
Lemma and_pieces a b : exists p ps, ps <> [] /\ print 2 <$> and_parts (EAnd a b) = p :: ps /\ print 1 (EAnd a b) = join AND p ps.
Proof.
  destruct (and_print (EAnd a b)) as (p & ps & Ep & Ej). exists p, ps. splits; try done.
  intros ->. apply (f_equal length) in Ep. cbn [and_parts] in Ep. rewrite length_fmap, length_app in Ep.
  destruct (and_print a) as (? & ? & Ea%(f_equal length) & _), (and_print b) as (? & ? & Eb%(f_equal length) & _).
  rewrite length_fmap in Ea, Eb. cbn in *. lia.
Qed.
Lemma or_shorter a b x : x ∈ or_parts (EOr a b) -> (length (print 1 x) < length (print 0 (EOr a b)))%nat.
Proof.
  destruct (or_pieces a b) as (p & ps & Hps & Ep & ->). intros Hx. apply join_shorter; [done|]. rewrite <- Ep.
  by apply (list_elem_of_fmap_2 (print 1)).
Qed.
Lemma and_shorter a b x : x ∈ and_parts (EAnd a b) -> (length (print 2 x) < length (print 1 (EAnd a b)))%nat.
Proof.
  destruct (and_pieces a b) as (p & ps & Hps & Ep & ->). intros Hx. apply join_shorter; [done|]. rewrite <- Ep.
  by apply (list_elem_of_fmap_2 (print 2)).
Qed.

Lemma resolve_or depth a b :
  names_ok (EOr a b) ->
  Forall (fun x => resolve_fuel depth v (print 1 x) = eval v x) (or_parts (EOr a b)) ->
  resolve_fuel (S depth) v (print 0 (EOr a b)) = eval v (EOr a b).
Proof.
  intros Hn HF. pose proof (resolve_sum _ _ false HF) as Hsum.
  rewrite resolve_step by (by apply print_nonempty || by apply print_spaces). cbv zeta.
  destruct (or_pieces a b) as (p & ps & Hps & Ep & Ej). rewrite Ej.
  rewrite singleParse_pieces; [|tauto|].
  - destruct ps as [|q ps]; [done|]. cbn [length Nat.eqb]. rewrite Z.eqb_refl, <- Ep, Hsum. by destruct (eval v (EOr a b)).
  - rewrite <- Ep. apply Forall_fmap. eapply Forall_impl; [apply (proj1 (parts_names _ Hn))|]. intros x Hx. by apply piece_print_1.
Qed.

Lemma resolve_and depth a b :
  names_ok (EAnd a b) ->
  Forall (fun x => resolve_fuel depth v (print 2 x) = eval v x) (and_parts (EAnd a b)) ->
  resolve_fuel (S depth) v (print 1 (EAnd a b)) = eval v (EAnd a b).
Proof.
  intros Hn HF. pose proof (resolve_product _ _ true HF) as Hsum.
  rewrite resolve_step by (by apply print_nonempty || by apply print_spaces). cbv zeta.
  pose proof (singleParse_pieces OR _ [] ltac:(tauto) (proj2 (Forall_singleton _ _) (piece_print_1 _ Hn))) as E1. cbn [join] in E1.
  rewrite E1. cbn [length Nat.eqb]. clear E1. destruct (and_pieces a b) as (p & ps & Hps & Ep & Ej). rewrite Ej.
  rewrite singleParse_pieces; [|tauto|].
  - destruct ps as [|q ps]; [done|]. change (AND =? OR) with false. rewrite <- Ep, Hsum. by destruct (eval v (EAnd a b)).
  - rewrite <- Ep. apply Forall_fmap. eapply Forall_impl; [apply (proj2 (parts_names _ Hn))|]. intros x Hx. by apply piece_print_2.
Qed.

(** A written formula resolves to its value. *)
Lemma resolve_print depth : forall l e, names_ok e -> (length (print l e) < depth)%nat -> resolve_fuel depth v (print l e) = eval v e.
Proof.
  induction depth as [|depth IH]; intros l e He Hd; [lia|].
  assert (Hat : forall l', (length (print l' e) < S depth)%nat ->
    match e with EOr _ _ => l' = 0%nat | EAnd _ _ => l' = 1%nat | _ => True end -> resolve_fuel (S depth) v (print l' e) = eval v e).
  { intros l' Hl Hk. destruct e as [| |n|e|a b|a b].
    - rewrite resolve_single by (done || (by apply print_spaces) || (by apply (piece_print_2 _ ETrue))). done.
    - rewrite resolve_single by (done || (by apply print_spaces) || (by apply (piece_print_2 _ EFalse))). done.
    - pose proof He as (Hne & Hn & H1 & H0). cbn [print] in *.
      rewrite resolve_single by (done || (by apply (print_spaces 2 (EVar n))) || (by apply (piece_print_2 _ (EVar n)))).
      destruct n as [|c n]; [done|]. apply Forall_cons in Hn as [Hc _]. apply name_char in Hc as (_ & Hl' & Hn' & _).
      change (at_first (c :: n)) with c. rewrite Hl', Hn', !bool_decide_eq_false_2 by done. done.
    - cbn [print length eval] in *. rewrite resolve_single; [|done| |by apply (piece_print_2 _ (ENot e))..].
      + cbn [at_first head default skipn]. rewrite Z.eqb_refl, drop_0, IH by (done || lia). done.
      + constructor; [done|by apply print_spaces].
    - subst l'. apply resolve_and; [done|]. apply Forall_forall. intros x Hx. pose proof (and_shorter a b x Hx).
      apply IH; [by eapply Forall_forall; [apply (proj2 (parts_names _ He))|]|lia].
    - subst l'. apply resolve_or; [done|]. apply Forall_forall. intros x Hx. pose proof (or_shorter a b x Hx).
      apply IH; [by eapply Forall_forall; [apply (proj1 (parts_names _ He))|]|lia]. }
  destruct e as [| |n|e|a b|a b]; try (by apply Hat).
  - destruct l as [|[|l]]; [by apply (Hat 1%nat)|by apply (Hat 1%nat)|]. change (print (S (S l)) (EAnd a b)) with (LPAR :: print 1 (EAnd a b) ++ [RPAR]) in *.
    apply resolve_paren; [by apply inner_print|by apply print_spaces|]. apply IH; [done|]. cbn [length] in Hd. rewrite length_app in Hd. lia.
  - destruct l as [|l]; [by apply (Hat 0%nat)|]. change (print (S l) (EOr a b)) with (LPAR :: print 0 (EOr a b) ++ [RPAR]) in *.
    apply resolve_paren; [by apply inner_print|by apply print_spaces|]. apply IH; [done|]. cbn [length] in Hd. rewrite length_app in Hd. lia.
Qed.
End Resolution.

(** ** Termination *)

Lemma substr_length f s n : (length (substr f s n) <= n)%nat /\ (length (substr f s n) <= length f - s)%nat.
Proof. unfold substr. rewrite length_take, length_drop. lia. Qed.

(** Every subexpression the scanner has pushed is shorter than the formula, and the next
    one does not begin at its front. *)
Definition shorter (f : bytes) (st : parse_state) : Prop :=
  Forall (fun x => length x < length f)%nat (subexpressions st)
  /\ (subexpressions st <> [] -> exists k, start_pos st = Some (S k)).

Lemma parse_loop_shorter f op rest : forall st i st',
  (i + length rest = length f)%nat -> shorter f st -> parse_loop f op st i rest = Ok st' -> shorter f st'.
Proof.
  induction rest as [|c rest IH]; intros st i st' Hi Hs; cbn [parse_loop]; [by intros [= ->]|].
  destruct (parse_char f op st i c) as [st1|] eqn:E; [|done]. cbn [length] in Hi. apply IH; [lia|].
  revert E. destruct st as [start p subs], Hs as [H1 H2]. cbn [start_pos subexpressions] in *. unfold parse_char.
  destruct (c =? RPAR); [by intros [= <-]|]. destruct (c =? LPAR).
  { intros [= <-]. split; [done|]. cbn [start_pos subexpressions]. intros Hn. destruct (H2 Hn) as [k ->]. by exists k. }
  destruct (p =? 0); [|by intros [= <-]]. destruct start as [start|].
  - destruct (negb (belongsToName c || _)); [|by intros [= <-]]. destruct (op =? c); [|destruct (_ && _); [done|by intros [= <-]]].
    intros [= <-]. split; cbn [start_pos subexpressions].
    + apply Forall_app. split; [done|]. apply Forall_singleton. pose proof (substr_length f start (i - start)). lia.
    + intros _. exists i. by rewrite Nat.add_1_r.
  - intros [= <-]. split; [done|]. cbn [start_pos subexpressions]. intros Hn. by destruct (H2 Hn).
Qed.

Lemma singleParse_shorter f op subs : singleParse f op = Ok subs -> (2 <= length subs)%nat -> Forall (fun x => length x < length f)%nat subs.
Proof.
  unfold singleParse. destruct (parse_loop _ _ _ _ _) as [st|] eqn:E; [|done].
  apply parse_loop_shorter in E as [H1 H2]; [|lia|split; [constructor|done]].
  destruct (negb _); [done|]. intros [= <-]. destruct (start_pos st) as [start|]; [|done]. rewrite length_app. cbn [length]. intros Hl.
  destruct (subexpressions st) as [|x l] eqn:Es; [cbn in Hl; lia|]. destruct H2 as [k [= ->]]; [done|].
  apply Forall_app. split; [done|]. apply Forall_singleton. pose proof (substr_length f (S k) (length f - S k)).
  apply Forall_cons in H1 as [? _]. lia.
Qed.

Lemma singleParse_deep f op : singleParse f op <> Err TooDeep.
Proof.
  unfold singleParse. assert (H : forall rest st i, parse_loop f op st i rest <> Err TooDeep).
  { induction rest as [|c rest IH]; intros st i; [done|]. cbn [parse_loop].
    destruct (parse_char f op st i c) as [st1|e] eqn:E; [apply IH|]. intros [= ->]. revert E. unfold parse_char.
    destruct st as [start p subs]. by repeat case_match. }
  specialize (H f (mkParse None 0 []) 0%nat). destruct (parse_loop _ _ _ _ _); [by destruct (negb _)|congruence].
Qed.

Lemma resolve_all_deep r f acc l : Forall (fun x => r x <> Err TooDeep) l -> resolve_all r f acc l <> Err TooDeep.
Proof.
  intros H. revert acc. induction H as [|x l Hx Hl IH]; intros acc; [done|]. cbn [resolve_all]. destruct (r x); [apply IH|congruence].
Qed.

Lemma removeWhitespaces_length s : (length (removeWhitespaces s) <= length s)%nat.
Proof. apply length_filter. Qed.

Lemma resolve_fuel_deep v depth : forall s, (length s < depth)%nat -> resolve_fuel depth v s <> Err TooDeep.
Proof.
  induction depth as [|depth IH]; intros s Hs; [lia|]. cbn [resolve_fuel]. pose proof (removeWhitespaces_length s) as Hl.
  destruct (removeWhitespaces s) as [|c t] eqn:Es; [done|]. set (source := c :: t) in *. assert (Hsz : length source = S (length t)) by done.
  pose proof (singleParse_deep source OR) as D1. pose proof (singleParse_deep source AND) as D2.
  destruct (singleParse source OR) as [subs1|e1] eqn:E1; [|congruence].
  assert (Hall : forall op subs f acc, singleParse source op = Ok subs -> (2 <= length subs)%nat ->
    resolve_all (resolve_fuel depth v) f acc subs <> Err TooDeep).
  { intros op subs f acc E H2. apply resolve_all_deep. eapply Forall_impl; [by eapply singleParse_shorter|].
    intros x Hx. apply IH. cbn beta in Hx. lia. }
  assert (Hone : (if c =? NOT then let* b := resolve_fuel depth v (drop 1 source) in Ok (negb b)
    else if c =? LPAR then resolve_fuel depth v (substr source 1 (length source - 2))
    else if bool_decide (source = chars "1") then Ok true else if bool_decide (source = chars "0") then Ok false
    else match v !! source with None => Err (VariableNotFound source) | Some b => Ok b end) <> Err TooDeep).
  { destruct (c =? NOT).
    - pose proof (IH (drop 1 source)) as Hr. rewrite length_drop in Hr. destruct (resolve_fuel depth v (drop 1 source)); [done|].
      intros [= ->]. apply Hr; [lia|done].
    - destruct (c =? LPAR); [|by repeat case_match]. apply IH. pose proof (substr_length source 1 (length source - 2)). lia. }
  destruct subs1 as [|x1 [|y1 l1]]; cbn [length Nat.eqb]; [done| |].
  - destruct (singleParse source AND) as [[|x2 [|y2 l2]]|e2] eqn:E2; [done|done| |congruence].
    change (AND =? OR) with false. eapply Hall; [done|cbn; lia].
  - rewrite Z.eqb_refl. eapply Hall; [done|cbn; lia].
Qed.

(** Verifier expressions are evaluated as their documentation says.  However white space
    is put into a written formula, [resolve] yields the value of the formula under the
    valuation, and the error for its leftmost unknown variable when there is one; and on
    any string at all it returns or throws without exhausting its recursion. *)
Theorem resolve_correct (v : gmap bytes bool) :
  (forall e s, names_ok e -> removeWhitespaces s = print 0 e -> resolve s v = eval v e)
  /\ (forall s, resolve s v <> Err TooDeep).
Proof.
  split.
  - intros e s He Es. unfold resolve. pose proof (removeWhitespaces_length s) as Hl. rewrite Es in Hl.
    pose proof (resolve_print v (S (length s)) 0 e He ltac:(lia)) as <-. cbn [resolve_fuel].
    by rewrite Es, (removeWhitespaces_none (print 0 e)) by (by apply print_spaces).
  - intros s. apply resolve_fuel_deep. lia.
Qed.

(** Other strings pass as well, although the documentation admits no other formula: what
    stands before the first name of a sum or product is dropped, a negation sign of
    another notation included. *)
Theorem resolve_drops_leading_characters (b : bool) :
  let v : gmap bytes bool := {[ chars "ABC" := b; chars "DEF" := false ]} in
  resolve (chars "~ABC|DEF") v = Ok b /\ resolve (chars "-ABC|DEF") v = Ok b /\ resolve (chars "|ABC|DEF") v = Ok b
  /\ resolve (chars "&%ABC&ABC") v = Ok b /\ is_ok (resolve (chars "~ABC") v) = false.
Proof. destruct b; vm_compute; done. Qed.
