(* ===== verification/AssetScripts.v ===== *)
(** * Asset scripts: [src/assets/assettypes.h], [src/assets/assets.cpp], [src/script/script.cpp]

    The data an asset output carries, its serialization, the construction of the
    scripts ([Construct...Transaction]) and their parsing ([...FromScript]).  Strings
    are lists of characters.  A parser returns [None] where the code returns [false];
    its address is the string [EncodeDestination] yields for the destination of the
    script. *)

From S2P Require Import Prelude Endian Serialize Script Interpreter Standard Base58 AssetNames.

(** ** Data *)

Definition MAX_UNIT : Z := 8.
Definition MIN_UNIT : Z := 0.
Definition IPFS_SHA2_256 : Z := 0x12.
Definition TXID_NOTIFIER : Z := 0x54.
Definition IPFS_SHA2_256_LEN : Z := 0x20.
Definition OWNER_ASSET_AMOUNT : Z := 100000000.

Record CNewAsset := mkNewAsset {
  na_strName : bytes;
  na_nAmount : Z;
  na_units : Z;
  na_nReissuable : Z;
  na_nHasIPFS : Z;
  na_strIPFSHash : bytes;
}.
Record CAssetTransfer := mkTransfer {
  tr_strName : bytes;
  tr_nAmount : Z;
  tr_message : bytes;
  tr_nExpireTime : Z;
}.
Record CReissueAsset := mkReissue {
  re_strName : bytes;
  re_nAmount : Z;
  re_nUnits : Z;
  re_nReissuable : Z;
  re_strIPFSHash : bytes;
}.
Record CNullAssetTxData := mkNullData { nd_asset_name : bytes; nd_flag : Z }.

(** ** Serialization *)

Definition i8 (x : Z) : Z := swrap 8 x.
Definition is_i8 (x : Z) : Prop := - 2 ^ 7 <= x < 2 ^ 7.
Definition ser_int8 : codec Z :=
  mkCodec ser_writedata8 (fun s => let* (x, s) := ser_readdata8 s in Ok (i8 x, s)) 1.

(** [ReadWriteAssetHash] of a stream being read: the hash, or [None] when it returns
    [false] and leaves the hash empty. *)
Definition ReadAssetHash (s : bytes) : result ser_error (option bytes * bytes) :=
  if (33 <=? length s)%nat then
    let* (sha2_256, s) := read ser_uint8 s in
    let* (hash, s) := read ser_string s in
    let os := if sha2_256 =? IPFS_SHA2_256 then [IPFS_SHA2_256; IPFS_SHA2_256_LEN] else [] in
    Ok (Some (os ++ take 32 hash), s)
  else Ok (None, s).

(** And of one being written: what it writes, and its result. *)
Definition WriteAssetHash (strIPFSHash : bytes) : bytes * bool :=
  if (length strIPFSHash =? 34)%nat then (write ser_uint8 IPFS_SHA2_256 ++ write ser_string (drop 2 strIPFSHash), true)
  else if (length strIPFSHash =? 32)%nat then (write ser_uint8 TXID_NOTIFIER ++ write ser_string strIPFSHash, true)
  else ([], false).

Definition write_CNewAsset (a : CNewAsset) : bytes :=
  write ser_string (na_strName a) ++ write ser_int64 (na_nAmount a) ++ write ser_int8 (na_units a) ++
  write ser_int8 (na_nReissuable a) ++ write ser_int8 (na_nHasIPFS a) ++
  (if na_nHasIPFS a =? 1 then (WriteAssetHash (na_strIPFSHash a)).1 else []).

(** Into an object its constructor has set to null. *)
Definition read_CNewAsset (s : bytes) : result ser_error (CNewAsset * bytes) :=
  let* (strName, s) := read ser_string s in
  let* (nAmount, s) := read ser_int64 s in
  let* (units, s) := read ser_int8 s in
  let* (nReissuable, s) := read ser_int8 s in
  let* (nHasIPFS, s) := read ser_int8 s in
  let* (hash, s) := if nHasIPFS =? 1 then ReadAssetHash s else Ok (None, s) in
  Ok (mkNewAsset strName nAmount units nReissuable nHasIPFS (default [] hash), s).

Definition write_CAssetTransfer (t : CAssetTransfer) : bytes :=
  let '(hash, validIPFS) := WriteAssetHash (tr_message t) in
  write ser_string (tr_strName t) ++ write ser_int64 (tr_nAmount t) ++ hash ++
  (if validIPFS && negb (tr_nExpireTime t =? 0) then write ser_int64 (tr_nExpireTime t) else []).

Definition read_CAssetTransfer (s : bytes) : result ser_error (CAssetTransfer * bytes) :=
  let* (strName, s) := read ser_string s in
  let* (nAmount, s) := read ser_int64 s in
  let* (message, s) := ReadAssetHash s in
  let* (nExpireTime, s) :=
    match message with
    | Some _ => if (8 <=? length s)%nat then read ser_int64 s else Ok (0, s)
    | None => Ok (0, s)
    end in
  Ok (mkTransfer strName nAmount (default [] message) nExpireTime, s).

Definition write_CReissueAsset (r : CReissueAsset) : bytes :=
  write ser_string (re_strName r) ++ write ser_int64 (re_nAmount r) ++ write ser_int8 (re_nUnits r) ++
  write ser_int8 (re_nReissuable r) ++ (WriteAssetHash (re_strIPFSHash r)).1.

Definition read_CReissueAsset (s : bytes) : result ser_error (CReissueAsset * bytes) :=
  let* (strName, s) := read ser_string s in
  let* (nAmount, s) := read ser_int64 s in
  let* (nUnits, s) := read ser_int8 s in
  let* (nReissuable, s) := read ser_int8 s in
  let* (hash, s) := ReadAssetHash s in
  Ok (mkReissue strName nAmount nUnits nReissuable (default [] hash), s).

Definition write_CNullAssetTxData (d : CNullAssetTxData) : bytes :=
  write ser_string (nd_asset_name d) ++ write ser_int8 (nd_flag d).
Definition read_CNullAssetTxData (s : bytes) : result ser_error (CNullAssetTxData * bytes) :=
  let* (asset_name, s) := read ser_string s in
  let* (flag, s) := read ser_int8 s in
  Ok (mkNullData asset_name flag, s).

(** ** Construction *)

(** [script << OP_HNB_ASSET << ToByteVector(vchMessage) << OP_DROP], where the message
    is [rvn], a letter and the data. *)
Definition asset_payload (letter : Z) (data : bytes) : bytes := [HNB_R; HNB_V; HNB_N; letter] ++ data.
Definition append_asset (script vchMessage : bytes) : bytes :=
  script ++ [opcode_value OP_HNB_ASSET] ++ push_data vchMessage ++ [opcode_value OP_DROP].

Definition NewAsset_ConstructTransaction (a : CNewAsset) (script : bytes) : bytes :=
  append_asset script (asset_payload HNB_Q (write_CNewAsset a)).
Definition ConstructOwnerTransaction (a : CNewAsset) (script : bytes) : bytes :=
  append_asset script (asset_payload HNB_O (write ser_string (na_strName a ++ OWNER_TAG))).
Definition Transfer_ConstructTransaction (t : CAssetTransfer) (script : bytes) : bytes :=
  append_asset script (asset_payload HNB_T (write_CAssetTransfer t)).
Definition Reissue_ConstructTransaction (r : CReissueAsset) (script : bytes) : bytes :=
  append_asset script (asset_payload HNB_R (write_CReissueAsset r)).

(** A null asset script, behind [OP_HNB_ASSET] and the key hash, or the two
    [OP_RESERVED] of a global restriction. *)
Definition NullData_ConstructTransaction (d : CNullAssetTxData) (script : bytes) : bytes :=
  script ++ push_data (write_CNullAssetTxData d).
Definition ConstructGlobalRestrictionTransaction (d : CNullAssetTxData) (script : bytes) : bytes :=
  script ++ [opcode_value OP_HNB_ASSET; opcode_value OP_RESERVED; opcode_value OP_RESERVED] ++ push_data (write_CNullAssetTxData d).
Definition Verifier_ConstructTransaction (verifier_string : bytes) (script : bytes) : bytes :=
  script ++ [opcode_value OP_HNB_ASSET; opcode_value OP_RESERVED] ++ push_data (write ser_string verifier_string).

(** ** Parsing *)

Definition IsScriptNewAsset (s : bytes) : option nat :=
  match IsAssetScript s with Some (TX_NEW_ASSET, false, nStartingIndex) => Some nStartingIndex | _ => None end.
Definition IsScriptOwnerAsset (s : bytes) : option nat :=
  match IsAssetScript s with Some (TX_NEW_ASSET, true, nStartingIndex) => Some nStartingIndex | _ => None end.
Definition IsScriptReissueAsset (s : bytes) : option nat :=
  match IsAssetScript s with Some (TX_REISSUE_ASSET, _, nStartingIndex) => Some nStartingIndex | _ => None end.
Definition IsScriptTransferAsset (s : bytes) : option nat :=
  match IsAssetScript s with Some (TX_TRANSFER_ASSET, _, nStartingIndex) => Some nStartingIndex | _ => None end.

(** [ssAsset >> object] in a [try] block. *)
Definition from_stream {A} (r : bytes -> result ser_error (A * bytes)) (s : bytes) : option A :=
  match r s with Ok (a, _) => Some a | Err _ => None end.

Section Parsing.
(** [Base58Prefix] of the selected chain, and whether [AreTransferScriptsSizeDeployed]. *)
Context (PUBKEY_ADDRESS SCRIPT_ADDRESS : bytes) (fTransferScriptsSizeDeployed : bool).

Definition script_address (s : bytes) : result fault bytes :=
  EncodeDestination PUBKEY_ADDRESS SCRIPT_ADDRESS (default CNoDestination (ExtractDestination s)).

Definition AssetFromScript (s : bytes) : result fault (option (CNewAsset * bytes)) :=
  match IsScriptNewAsset s with
  | None => Ok None
  | Some nStartingIndex =>
    strAddress ← script_address s;
    Ok (asset ← from_stream read_CNewAsset (drop nStartingIndex s); Some (asset, strAddress))
  end.

(** [IsScriptNewUniqueAsset] and its like: a new asset whose name has one of the types. *)
Definition is_new_of (types : list AssetType) (s : bytes) : result fault bool :=
  match IsAssetScript s with
  | None => Ok false
  | Some _ =>
    r ← AssetFromScript s;
    Ok (match r with
        | None => false
        | Some (asset, _) =>
          match IsAssetNameValid (na_strName asset) with
          | Ok assetType => bool_decide (assetType ∈ types)
          | Err _ => false
          end
        end)
  end.
Definition IsScriptNewUniqueAsset : bytes -> result fault bool := is_new_of [UNIQUE].
Definition IsScriptNewMsgChannelAsset : bytes -> result fault bool := is_new_of [MSGCHANNEL].
Definition IsScriptNewQualifierAsset : bytes -> result fault bool := is_new_of [QUALIFIER; SUB_QUALIFIER].
Definition IsScriptNewRestrictedAsset : bytes -> result fault bool := is_new_of [RESTRICTED].

(** The parsers of these types; the starting index is the one [IsAssetScript] yields. *)
Definition typed_from_script (is_new : bytes -> result fault bool) (s : bytes) : result fault (option (CNewAsset * bytes)) :=
  let* ok := is_new s in
  if ok then
    strAddress ← script_address s;
    Ok (match IsAssetScript s with
        | Some (_, _, nStartingIndex) => asset ← from_stream read_CNewAsset (drop nStartingIndex s); Some (asset, strAddress)
        | None => None
        end)
  else Ok None.
Definition MsgChannelAssetFromScript := typed_from_script IsScriptNewMsgChannelAsset.
Definition QualifierAssetFromScript := typed_from_script IsScriptNewQualifierAsset.
Definition RestrictedAssetFromScript := typed_from_script IsScriptNewRestrictedAsset.

Definition OwnerAssetFromScript (s : bytes) : result fault (option (bytes * bytes)) :=
  match IsScriptOwnerAsset s with
  | None => Ok None
  | Some nStartingIndex =>
    strAddress ← script_address s;
    Ok (assetName ← from_stream (read ser_string) (drop nStartingIndex s); Some (assetName, strAddress))
  end.

Definition ReissueAssetFromScript (s : bytes) : result fault (option (CReissueAsset * bytes)) :=
  match IsScriptReissueAsset s with
  | None => Ok None
  | Some nStartingIndex =>
    strAddress ← script_address s;
    Ok (reissue ← from_stream read_CReissueAsset (drop nStartingIndex s); Some (reissue, strAddress))
  end.

Definition TransferAssetFromScript (s : bytes) : result fault (option (CAssetTransfer * bytes)) :=
  match IsScriptTransferAsset s with
  | None => Ok None
  | Some nStartingIndex =>
    strAddress ← script_address s;
    let vchTransferAsset := if fTransferScriptsSizeDeployed then drop nStartingIndex s else drop 31 s in
    Ok (assetTransfer ← from_stream read_CAssetTransfer vchTransferAsset; Some (assetTransfer, strAddress))
  end.

Definition AssetNullDataFromScript (s : bytes) : result fault (option (CNullAssetTxData * bytes)) :=
  if negb (IsNullAssetTxDataScript s) then Ok None
  else
    strAddress ← script_address s;
    Ok (assetData ← from_stream read_CNullAssetTxData (drop 23 s); Some (assetData, strAddress)).

Definition GlobalAssetNullDataFromScript (s : bytes) : option CNullAssetTxData :=
  if negb (IsNullGlobalRestrictionAssetTxDataScript s) then None
  else from_stream read_CNullAssetTxData (drop 4 s).

Definition AssetNullVerifierDataFromScript (s : bytes) : option bytes :=
  if negb (IsNullAssetVerifierTxDataScript s) then None
  else from_stream (read ser_string) (drop 3 s).

(** [CAssetOutputEntry], the fields [GetAssetData] sets. *)
Record CAssetOutputEntry := mkOutputEntry {
  oe_type : txnouttype;
  oe_assetName : bytes;
  oe_destination : CTxDestination;
  oe_nAmount : Z;
  oe_message : bytes;
  oe_expireTime : Z;
}.

(** The branches of [GetAssetData] behind a failed [AssetFromScript] set fields of the
    entry and return [false]. *)
Definition GetAssetData (s : bytes) : result fault (option CAssetOutputEntry) :=
  let entry type name address amount message expire :=
    destination ← DecodeDestination PUBKEY_ADDRESS SCRIPT_ADDRESS address;
    Ok (Some (mkOutputEntry type name destination amount message expire)) in
  match IsAssetScript s with
  | None => Ok None
  | Some (TX_NEW_ASSET, false, _) =>
    r ← AssetFromScript s;
    match r with
    | Some (asset, address) => entry TX_NEW_ASSET (na_strName asset) address (na_nAmount asset) [] 0
    | None => Ok None
    end
  | Some (TX_TRANSFER_ASSET, _, _) =>
    r ← TransferAssetFromScript s;
    match r with
    | Some (transfer, address) =>
      entry TX_TRANSFER_ASSET (tr_strName transfer) address (tr_nAmount transfer) (tr_message transfer) (tr_nExpireTime transfer)
    | None => Ok None
    end
  | Some (TX_NEW_ASSET, true, _) =>
    r ← OwnerAssetFromScript s;
    match r with
    | Some (assetName, address) => entry TX_NEW_ASSET assetName address OWNER_ASSET_AMOUNT [] 0
    | None => Ok None
    end
  | Some (TX_REISSUE_ASSET, _, _) =>
    r ← ReissueAssetFromScript s;
    match r with
    | Some (reissue, address) => entry TX_REISSUE_ASSET (re_strName reissue) address (re_nAmount reissue) [] 0
    | None => Ok None
    end
  | Some _ => Ok None
  end.

Definition GetAssetInfoFromScript (s : bytes) : result fault (option (bytes * Z)) :=
  r ← GetAssetData s; Ok (data ← r; Some (oe_assetName data, oe_nAmount data)).
End Parsing.

(** *** The amount, as the consensus library computes it *)

Definition AmountFromNewAssetScript (s : bytes) : option Z :=
  match IsScriptNewAsset s with
  | None => None
  | Some nStartingIndex => asset ← from_stream read_CNewAsset (drop nStartingIndex s); Some (na_nAmount asset)
  end.
Definition AmountFromTransferScript (s : bytes) : option Z :=
  match IsScriptTransferAsset s with
  | None => None
  | Some nStartingIndex => asset ← from_stream read_CAssetTransfer (drop nStartingIndex s); Some (tr_nAmount asset)
  end.
Definition AmountFromReissueScript (s : bytes) : option Z :=
  match IsScriptReissueAsset s with
  | None => None
  | Some nStartingIndex => asset ← from_stream read_CReissueAsset (drop nStartingIndex s); Some (re_nAmount asset)
  end.

Definition GetAssetAmountFromScript (s : bytes) : option Z :=
  match IsAssetScript s with
  | None => None
  | Some (TX_NEW_ASSET, false, _) => AmountFromNewAssetScript s
  | Some (TX_TRANSFER_ASSET, _, _) => AmountFromTransferScript s
  | Some (TX_NEW_ASSET, true, _) => Some OWNER_ASSET_AMOUNT
  | Some (TX_REISSUE_ASSET, _, _) => AmountFromReissueScript s
  | Some _ => None
  end.

Definition IsUnspendable (s : bytes) : bool :=
  ((0 <? length s)%nat && (at_ s 0 =? OP_RETURN)) || ((0 <? length s)%nat && (at_ s 0 =? OP_HNB_ASSET)) ||
  (MAX_SCRIPT_SIZE <? Z.of_nat (length s)) || bool_decide (GetAssetAmountFromScript s = Some 0).

(** ** What is written is read back *)

#[export] Instance ser_int8_ok : CodecOk ser_int8 is_i8.
Proof.
  split.
  - intros x rest Hx. cbn [read write ser_int8]. pose proof (read_write (c:=ser_uint8) (u8 x) rest) as H.
    cbn [read write ser_uint8] in H. unfold ser_writedata8 in *. unfold u8 in *. rewrite Z.mod_mod in H by done.
    rewrite H by (unfold is_u8; apply Z.mod_pos_bound; done). unfold i8. by rewrite swrap_mod.
  - intros. apply writedata8_bytes.
  - cbn. lia.
Qed.

(** The hashes the objects carry: none, a transaction id, or an IPFS hash. *)
Definition hash_ok (h : bytes) : Prop :=
  h = [] \/ (length h = 32%nat /\ is_bytes h)
  \/ exists r, h = IPFS_SHA2_256 :: IPFS_SHA2_256_LEN :: r /\ length r = 32%nat /\ is_bytes r.

Lemma blob_32 r : length r = 32%nat -> is_bytes r -> blob_ok r.
Proof. intros H ?. split; [rewrite H; unfold MAX_SIZE; lia|done]. Qed.

Lemma string_length (n : bytes) : (length n <= length (write ser_string n))%nat.
Proof. cbn [write ser_string]. unfold Serialize_blob. rewrite length_app. lia. Qed.

Lemma tagged_hash_read c r rest :
  is_u8 c -> length r = 32%nat -> is_bytes r ->
  ReadAssetHash ((write ser_uint8 c ++ write ser_string r) ++ rest)
  = Ok (Some ((if c =? IPFS_SHA2_256 then [IPFS_SHA2_256; IPFS_SHA2_256_LEN] else []) ++ r), rest).
Proof.
  intros Hc Hl Hr. unfold ReadAssetHash.
  assert (33 <= length ((write ser_uint8 c ++ write ser_string r) ++ rest))%nat as H33.
  { rewrite !length_app. pose proof (string_length r). cbn [write ser_uint8]. unfold ser_writedata8. rewrite le_split_length. lia. }
  rewrite (proj2 (Nat.leb_le _ _) H33), <- !app_assoc.
  rewrite (read_write (c:=ser_uint8)) by done. rewrite (read_write (c:=ser_string)) by (by apply blob_32).
  by rewrite take_ge by lia.
Qed.

Lemma hash_read h rest :
  hash_ok h -> (length rest < 33)%nat ->
  ReadAssetHash ((WriteAssetHash h).1 ++ rest) = Ok (if (WriteAssetHash h).2 then Some h else None, rest)
  /\ ((WriteAssetHash h).2 = false <-> h = []).
Proof.
  unfold WriteAssetHash. intros [->|[[Hl Hb]|(r & -> & Hl & Hb)]] Hr.
  - cbn [length Nat.eqb fst snd app]. split; [|done]. unfold ReadAssetHash. by rewrite (proj2 (Nat.leb_gt _ _)).
  - rewrite Hl. cbn [Nat.eqb fst snd]. rewrite tagged_hash_read by done. split; [done|]. by destruct h.
  - cbn [length]. rewrite Hl. cbn [Nat.eqb fst snd drop]. rewrite drop_0, tagged_hash_read by done. done.
Qed.

Lemma hash_length h : hash_ok h -> (length (WriteAssetHash h).1 <= 34)%nat.
Proof.
  assert (H : forall c r, length r = 32%nat -> length (write ser_uint8 c ++ write ser_string r) = 34%nat).
  { intros c r Hl. cbn [write ser_uint8 ser_string]. unfold Serialize_blob, ser_writedata8. by rewrite !length_app, le_split_length, Hl. }
  unfold WriteAssetHash. intros [->|[[Hl Hb]|(r & -> & Hl & Hb)]]; cbn [length].
  - cbn. lia.
  - rewrite Hl. cbn [Nat.eqb fst]. rewrite H by done. lia.
  - rewrite Hl. cbn [Nat.eqb fst]. rewrite H by done. lia.
Qed.

Definition name_ok (n : bytes) : Prop := (length n <= 40)%nat /\ is_bytes n.
Lemma name_blob n : name_ok n -> blob_ok n.
Proof. intros [H ?]. split; [unfold MAX_SIZE; lia|done]. Qed.

Definition new_asset_ok (a : CNewAsset) : Prop :=
  name_ok (na_strName a) /\ is_i64 (na_nAmount a) /\ is_i8 (na_units a) /\ is_i8 (na_nReissuable a) /\ is_i8 (na_nHasIPFS a)
  /\ hash_ok (na_strIPFSHash a) /\ (na_nHasIPFS a <> 1 -> na_strIPFSHash a = []).
Definition transfer_ok (t : CAssetTransfer) : Prop :=
  name_ok (tr_strName t) /\ is_i64 (tr_nAmount t) /\ hash_ok (tr_message t) /\ is_i64 (tr_nExpireTime t)
  /\ (tr_message t = [] -> tr_nExpireTime t = 0).
Definition reissue_ok (r : CReissueAsset) : Prop :=
  name_ok (re_strName r) /\ is_i64 (re_nAmount r) /\ is_i8 (re_nUnits r) /\ is_i8 (re_nReissuable r) /\ hash_ok (re_strIPFSHash r).

Lemma default_hash h : hash_ok h -> default [] (if (WriteAssetHash h).2 then Some h else None) = h.
Proof.
  intros H. destruct (hash_read h [] H ltac:(cbn; lia)) as [_ Hh]. destruct (WriteAssetHash h).2; [done|]. by rewrite (proj1 Hh).
Qed.

Lemma read_write_new_asset a rest :
  new_asset_ok a -> (length rest < 33)%nat -> read_CNewAsset (write_CNewAsset a ++ rest) = Ok (a, rest).
Proof.
  intros (H1%name_blob & H2 & H3 & H4 & H5 & H6 & H7) Hr. unfold read_CNewAsset, write_CNewAsset. rewrite <- !app_assoc.
  rewrite (read_write (c:=ser_string)), (read_write (c:=ser_int64)), !(read_write (c:=ser_int8)) by done.
  destruct (Z.eqb_spec (na_nHasIPFS a) 1) as [E|E].
  - rewrite (proj1 (hash_read _ _ H6 Hr)), default_hash by done. by destruct a.
  - cbn [app default]. rewrite <- (H7 E). by destruct a.
Qed.

Lemma read_write_reissue r rest :
  reissue_ok r -> (length rest < 33)%nat -> read_CReissueAsset (write_CReissueAsset r ++ rest) = Ok (r, rest).
Proof.
  intros (H1%name_blob & H2 & H3 & H4 & H5) Hr. unfold read_CReissueAsset, write_CReissueAsset. rewrite <- !app_assoc.
  rewrite (read_write (c:=ser_string)), (read_write (c:=ser_int64)), !(read_write (c:=ser_int8)) by done.
  rewrite (proj1 (hash_read _ _ H5 Hr)), default_hash by done. by destruct r.
Qed.

Lemma read_write_transfer t rest :
  transfer_ok t -> (length rest < 8)%nat -> read_CAssetTransfer (write_CAssetTransfer t ++ rest) = Ok (t, rest).
Proof.
  intros (H1%name_blob & H2 & H3 & H4 & H5) Hr. unfold read_CAssetTransfer, write_CAssetTransfer.
  pose proof (default_hash _ H3) as Hd.
  assert (Hlen : (length ((if negb (tr_nExpireTime t =? 0)%Z then write ser_int64 (tr_nExpireTime t) else []) ++ rest) < 33)%nat).
  { rewrite length_app. destruct (negb _); [|cbn; lia]. cbn [write ser_int64]. unfold ser_writedata64. rewrite le_split_length. lia. }
  destruct (hash_read _ _ H3 Hlen) as [E Hh]. destruct (WriteAssetHash (tr_message t)) as [h valid]. cbn [fst snd] in *.
  rewrite <- !app_assoc. rewrite (read_write (c:=ser_string)), (read_write (c:=ser_int64)) by done.
  destruct valid; cbn [andb].
  - rewrite E. destruct (Z.eqb_spec (tr_nExpireTime t) 0) as [E0|E0]; cbn [negb] in *.
    + cbn [app]. rewrite (proj2 (Nat.leb_gt 8 _)) by done. cbn [default]. rewrite <- E0. by destruct t.
    + assert (8 <= length (write ser_int64 (tr_nExpireTime t) ++ rest))%nat as H8.
      { rewrite length_app. cbn [write ser_int64]. unfold ser_writedata64. rewrite le_split_length. lia. }
      rewrite (proj2 (Nat.leb_le _ _) H8), (read_write (c:=ser_int64)) by done. by destruct t.
  - rewrite (proj1 Hh eq_refl) in *. rewrite H5 in * by done. cbn [negb Z.eqb app] in *. rewrite E. cbn [default].
    destruct t as [n a m e]. cbn in *. destruct Hh as [Hm _]. rewrite Hm, H5 by (done || by apply Hm). done.
Qed.

(** ** Where the data of an asset script is *)

(** The script of an asset output to a key: the parts [IsAssetScript] and [Solver] look at. *)
Record asset_script_parts (s id data : bytes) (letter : Z) (idx : nat) : Prop := {
  asp_length : (32 + length data <= length s <= 200)%nat;
  asp_op : at_ s 25 = OP_HNB_ASSET;
  asp_first : at_ s 0 = OP_DUP;
  asp_key : take 20 (drop 3 s) = id;
  asp_marker : asset_marker s = Some idx;
  asp_letter : at_ s idx = letter;
  asp_data : drop (S idx) s = data ++ [opcode_value OP_DROP];
  asp_short : (length data <= 71)%nat -> idx = 30%nat;
}.

(** The push of the payload is found below 114 bytes, where its length is not an [r]. *)
Lemma asset_script_shape id letter data :
  length id = 20%nat -> (length data <= 109)%nat ->
  exists idx, asset_script_parts (append_asset (GetScriptForDestination (CKeyID id)) (asset_payload letter data)) id data letter idx.
Proof.
  intros Hid Hd. unfold append_asset, asset_payload. cbn [GetScriptForDestination]. unfold p2pkh_script. rewrite push_data_20 by done.
  destruct (list_20 id Hid) as (? & ? & ? & ? & ? & ? & ? & ? & ? & ? & ? & ? & ? & ? & ? & ? & ? & ? & ? & ? & ->).
  cbn [app]. unfold push_data. change (opcode_value OP_PUSHDATA1) with 76. cbn [length].
  destruct (Z.ltb_spec (Z.of_nat (S (S (S (S (length data)))))) 76) as [H|H].
  - exists 30%nat. constructor; try reflexivity. cbn [length app]. rewrite length_app. cbn [length]. lia.
  - rewrite (proj2 (Z.leb_le _ 255)) by lia. cbn [app]. exists 31%nat. constructor; try reflexivity.
    + cbn [length app]. rewrite length_app. cbn [length]. lia.
    + unfold asset_marker, at_. cbn [nth]. rewrite (proj2 (Z.eqb_neq _ HNB_R)) by (unfold HNB_R; lia). reflexivity.
    + lia.
Qed.

Definition letter_type (letter : Z) : option (txnouttype * bool) :=
  if letter =? HNB_T then Some (TX_TRANSFER_ASSET, false)
  else if letter =? HNB_Q then Some (TX_NEW_ASSET, false)
  else if letter =? HNB_O then Some (TX_NEW_ASSET, true)
  else if letter =? HNB_R then Some (TX_REISSUE_ASSET, false)
  else None.

Lemma parts_IsAssetScript s id data letter idx type owner :
  asset_script_parts s id data letter idx -> (letter = HNB_Q -> 8 <= length data)%nat -> letter_type letter = Some (type, owner) ->
  IsAssetScript s = Some (type, owner, S idx).
Proof.
  intros [] Hq Ht. unfold IsAssetScript. rewrite (proj2 (Nat.ltb_lt 31 _)) by lia.
  rewrite asp_op0, Z.eqb_refl, asp_marker0, asp_letter0. unfold letter_type in Ht.
  destruct (letter =? HNB_T); [by injection Ht as <- <-|]. destruct (Z.eqb_spec letter HNB_Q) as [E|E].
  - specialize (Hq E). rewrite (proj2 (Nat.ltb_lt 39 _)) by lia. cbn [andb]. by injection Ht as <- <-.
  - cbn [andb]. destruct (letter =? HNB_O); [by injection Ht as <- <-|]. destruct (letter =? HNB_R); [by injection Ht as <- <-|done].
Qed.

Lemma parts_destination s id data letter idx type owner i :
  asset_script_parts s id data letter idx -> letter_type letter = Some (type, owner) -> IsAssetScript s = Some (type, owner, i) ->
  ExtractDestination s = Some (CKeyID id).
Proof.
  intros [] Ht Ha. unfold ExtractDestination, Solver, IsPayToScriptHash.
  rewrite (proj2 (Nat.eqb_neq (length s) 23)) by lia. cbn [andb]. rewrite Ha, asp_key0.
  unfold letter_type in Ht.
  repeat match type of Ht with (if ?b then _ else _) = _ => destruct b; [by injection Ht as <- <-|] end. done.
Qed.

Lemma parts_unspendable s id data letter idx :
  asset_script_parts s id data letter idx -> IsUnspendable s = bool_decide (GetAssetAmountFromScript s = Some 0).
Proof.
  intros []. unfold IsUnspendable. rewrite asp_first0. rewrite (proj2 (Z.ltb_ge MAX_SCRIPT_SIZE _)) by (unfold MAX_SCRIPT_SIZE; lia).
  change (OP_DUP =? OP_RETURN) with false. change (OP_DUP =? OP_HNB_ASSET) with false. by rewrite !andb_false_r.
Qed.

(** ** Lengths *)

Lemma string_small n : (length n <= 40)%nat -> length (write ser_string n) = S (length n).
Proof.
  intros H. cbn [write ser_string]. unfold Serialize_blob, WriteCompactSize. rewrite (proj2 (Z.ltb_lt _ 253)) by lia.
  rewrite length_app. unfold ser_writedata8. by rewrite le_split_length.
Qed.

Lemma int64_length x : length (write ser_int64 x) = 8%nat.
Proof. apply le_split_length. Qed.
Lemma int8_length x : length (write ser_int8 x) = 1%nat.
Proof. apply le_split_length. Qed.

Lemma new_asset_length a : new_asset_ok a -> (12 <= length (write_CNewAsset a) <= 86)%nat.
Proof.
  intros ([Hn _] & _ & _ & _ & _ & Hh%hash_length & _). unfold write_CNewAsset. rewrite !length_app, string_small by done.
  rewrite int64_length, !int8_length. destruct (_ =? _); cbn [length]; lia.
Qed.
Lemma reissue_length r : reissue_ok r -> (length (write_CReissueAsset r) <= 86)%nat.
Proof.
  intros ([Hn _] & _ & _ & _ & Hh%hash_length). unfold write_CReissueAsset. rewrite !length_app, string_small by done.
  rewrite int64_length, !int8_length. lia.
Qed.
Lemma transfer_length t : transfer_ok t -> (length (write_CAssetTransfer t) <= 91)%nat.
Proof.
  intros ([Hn _] & _ & Hh%hash_length & _). unfold write_CAssetTransfer. destruct (WriteAssetHash _) as [h v]. cbn [fst] in Hh.
  rewrite !length_app, string_small by done. rewrite int64_length.
  destruct (_ && _); rewrite ?int64_length; cbn [length]; lia.
Qed.

(** ** Null asset scripts *)

Lemma push_only_step fuel x rest :
  Z.of_nat (length x) < 2 ^ 32 -> IsPushOnly_loop (S fuel) (push_data x ++ rest) = IsPushOnly_loop fuel rest.
Proof.
  intros H. cbn [IsPushOnly_loop]. rewrite GetOp_push_data by done. cbn [go_ok opcodeRet go_pc negb].
  assert ((push_opcode x >? OP_16) = false) as -> by (pose proof (push_opcode_range x) as Hr; change (opcode_value OP_PUSHDATA4) with 78 in Hr; change (opcode_value OP_16) with 96; lia).
  destruct (push_data x ++ rest) eqn:E; [|done]. apply app_eq_nil in E as [E _]. by apply push_data_nonempty in E.
Qed.

Lemma push_only_two x y : Z.of_nat (length x) < 2 ^ 32 -> Z.of_nat (length y) < 2 ^ 32 -> IsPushOnly (push_data x ++ push_data y) = true.
Proof.
  intros Hx Hy. unfold IsPushOnly. rewrite length_app.
  destruct (length (push_data x)) as [|n] eqn:En; [by apply nil_length_inv, push_data_nonempty in En|].
  destruct (length (push_data y)) as [|m] eqn:Em; [by apply nil_length_inv, push_data_nonempty in Em|].
  cbn [Nat.add]. rewrite push_only_step by done. rewrite Nat.add_succ_r, <- (app_nil_r (push_data y)), push_only_step by done. by destruct (n + m)%nat.
Qed.

(** The name of a qualifier or restricted asset, in ASCII. *)
Definition null_data_ok (d : CNullAssetTxData) : Prop :=
  (1 <= length (nd_asset_name d) <= 40)%nat /\ Forall (fun c => 0 <= c < 128) (nd_asset_name d) /\ 0 <= nd_flag d < 128.

Lemma ascii_bytes n : Forall (fun c => 0 <= c < 128) n -> is_bytes n.
Proof. intros H. eapply Forall_impl; [exact H|]. intros c Hc. cbn beta in Hc. ranges; lia. Qed.

Lemma read_write_null_data d rest : null_data_ok d -> read_CNullAssetTxData (write_CNullAssetTxData d ++ rest) = Ok (d, rest).
Proof.
  intros ([_ Hl] & Hn%ascii_bytes & Hf). unfold read_CNullAssetTxData, write_CNullAssetTxData. rewrite <- !app_assoc.
  rewrite (read_write (c:=ser_string)), (read_write (c:=ser_int8)) by (done || (by apply name_blob) || (unfold is_i8; lia)). by destruct d.
Qed.

Lemma null_data_length d : null_data_ok d -> length (write_CNullAssetTxData d) = (2 + length (nd_asset_name d))%nat.
Proof. intros ([_ Hl] & _). unfold write_CNullAssetTxData. rewrite length_app, string_small, int8_length by done. lia. Qed.

Lemma push_short x : (length x <= 75)%nat -> push_data x = Z.of_nat (length x) :: x.
Proof. intros H. unfold push_data. change (opcode_value OP_PUSHDATA1) with 76. by rewrite (proj2 (Z.ltb_lt _ 76)) by lia. Qed.

Lemma null_data_script id d :
  length id = 20%nat -> null_data_ok d ->
  let s := NullData_ConstructTransaction d (GetScriptForNullAssetDataDestination (CKeyID id)) in
  IsNullAssetTxDataScript s = true /\ drop 23 s = write_CNullAssetTxData d /\ ExtractDestination s = Some (CKeyID id).
Proof.
  intros Hid Hd. pose proof (null_data_length d Hd) as Hl. destruct Hd as ([H1 H40] & Hn & Hf).
  unfold NullData_ConstructTransaction. cbn [GetScriptForNullAssetDataDestination].
  assert (Hp : IsPushOnly (push_data id ++ push_data (write_CNullAssetTxData d)) = true) by (apply push_only_two; lia).
  rewrite push_data_20, (push_short (write_CNullAssetTxData d)) in * by (done || lia).
  assert (Ha : nth 2 (write_CNullAssetTxData d) 0 <> OP_HNB_ASSET).
  { unfold write_CNullAssetTxData. change (opcode_value OP_HNB_ASSET) with 192. cbn [write ser_string]. unfold Serialize_blob, WriteCompactSize.
    rewrite (proj2 (Z.ltb_lt _ 253)) by lia. cbn [ser_writedata8 le_split app nth]. 
    destruct (nd_asset_name d) as [|x [|y n]]; cbn [app nth length] in *; [lia| |].
    - cbn [write ser_int8]. unfold ser_writedata8. rewrite le_split_one by apply u8_range. cbn [nth]. unfold u8. rewrite Z.mod_small by lia. cbn. lia.
    - apply Forall_cons in Hn as [_ [Hy _]%Forall_cons]. cbn. lia. }
  destruct (list_20 id Hid) as (? & ? & ? & ? & ? & ? & ? & ? & ? & ? & ? & ? & ? & ? & ? & ? & ? & ? & ? & ? & ->).
  set (w := write_CNullAssetTxData d) in *. set (m := Z.of_nat (length w)) in *. clearbody m.
  destruct w as [|w0 [|w1 [|w2 w]]]; [cbn in Hl; lia..|]. cbn [nth] in Ha. cbn [app] in *. split; [done|]. split; [done|].
  unfold ExtractDestination, Solver, IsPayToScriptHash, IsAssetScript, IsWitnessProgram, at_. cbn [nth length andb].
  rewrite (proj2 (Z.eqb_neq _ _) Ha). cbn [skipn]. rewrite Hp.
  destruct (31 <? _)%nat, (_ || _)%bool; reflexivity.
Qed.

(** ** The round trips *)

Lemma amount_zero (x : Z) : bool_decide (Some x = Some 0) = (x =? 0).
Proof.
  destruct (Z.eqb_spec x 0) as [->|H]; [by apply bool_decide_eq_true_2|]. apply bool_decide_eq_false_2. by intros [= ->].
Qed.

Section RoundTrips.
Context (a b : Z) (Ha : is_u8 a) (Hb : is_u8 b) (Hab : a <> b).
Context (id : bytes) (Hid : is_bytes id) (Hlen : length id = 20%nat).

Abbreviation out := (GetScriptForDestination (CKeyID id)) (only parsing).

(** What the parsers find in the output they have built. *)
Lemma output_parsed letter data type owner :
  (length data <= 109)%nat -> ((letter = HNB_Q)%Z -> (8 <= length data)%nat) -> letter_type letter = Some (type, owner) ->
  let s := append_asset out (asset_payload letter data) in
  exists idx, IsAssetScript s = Some (type, owner, S idx) /\ drop (S idx) s = data ++ [opcode_value OP_DROP]
    /\ script_address [a] [b] s = EncodeDestination [a] [b] (CKeyID id)
    /\ IsUnspendable s = bool_decide (GetAssetAmountFromScript s = Some 0)
    /\ ((length data <= 71)%nat -> idx = 30%nat).
Proof.
  intros Hl Hq Ht s. destruct (asset_script_shape id letter data Hlen Hl) as [idx Hp]. fold s in Hp. exists idx.
  assert (HA : IsAssetScript s = Some (type, owner, S idx)) by (by eapply parts_IsAssetScript).
  splits; [done|by destruct Hp| |by eapply parts_unspendable|by destruct Hp].
  unfold script_address. by rewrite (parts_destination _ _ _ _ _ _ _ _ Hp Ht HA).
Qed.

Lemma key_address : exists addr, EncodeDestination [a] [b] (CKeyID id) = Ok addr /\ DecodeDestination [a] [b] addr = Ok (CKeyID id).
Proof. destruct (address_roundtrip a b Ha Hb Hab (CKeyID id)) as (s & ? & ? & _); [done|]. by exists s. Qed.

Lemma new_asset_parsed na : new_asset_ok na ->
  let s := NewAsset_ConstructTransaction na out in
  AssetFromScript [a] [b] s = (addr ← EncodeDestination [a] [b] (CKeyID id); Ok (Some (na, addr)))
  /\ IsUnspendable s = (na_nAmount na =? 0).
Proof.
  intros Hn. pose proof (new_asset_length na Hn) as Hl.
  destruct (output_parsed HNB_Q (write_CNewAsset na) TX_NEW_ASSET false) as (idx & E & Ed & Ea & Eu & _); [lia|lia|done|].
  unfold NewAsset_ConstructTransaction. cbn zeta. rewrite Eu. unfold AssetFromScript, GetAssetAmountFromScript, AmountFromNewAssetScript, IsScriptNewAsset.
  rewrite E, Ea, Ed. unfold from_stream. rewrite read_write_new_asset by (done || (cbn; lia)). split; [done|].
  apply amount_zero.
Qed.

Lemma reissue_parsed r : reissue_ok r ->
  let s := Reissue_ConstructTransaction r out in
  ReissueAssetFromScript [a] [b] s = (addr ← EncodeDestination [a] [b] (CKeyID id); Ok (Some (r, addr)))
  /\ IsUnspendable s = (re_nAmount r =? 0).
Proof.
  intros Hn. pose proof (reissue_length r Hn) as Hl.
  destruct (output_parsed HNB_R (write_CReissueAsset r) TX_REISSUE_ASSET false) as (idx & E & Ed & Ea & Eu & _); [lia|done|done|].
  unfold Reissue_ConstructTransaction. cbn zeta. rewrite Eu. unfold ReissueAssetFromScript, GetAssetAmountFromScript, AmountFromReissueScript, IsScriptReissueAsset.
  rewrite E, Ea, Ed. unfold from_stream. rewrite read_write_reissue by (done || (cbn; lia)). split; [done|].
  apply amount_zero.
Qed.

Lemma transfer_parsed deployed t : transfer_ok t -> deployed = true \/ (length (write_CAssetTransfer t) <= 71)%nat ->
  let s := Transfer_ConstructTransaction t out in
  TransferAssetFromScript [a] [b] deployed s = (addr ← EncodeDestination [a] [b] (CKeyID id); Ok (Some (t, addr)))
  /\ IsUnspendable s = (tr_nAmount t =? 0).
Proof.
  intros Hn Hd. pose proof (transfer_length t Hn) as Hl.
  destruct (output_parsed HNB_T (write_CAssetTransfer t) TX_TRANSFER_ASSET false) as (idx & E & Ed & Ea & Eu & E30); [lia|done|done|].
  unfold Transfer_ConstructTransaction. cbn zeta. rewrite Eu. unfold TransferAssetFromScript, GetAssetAmountFromScript, AmountFromTransferScript, IsScriptTransferAsset.
  rewrite E, Ea, Ed. match goal with |- context[if deployed then ?x else ?y] => replace (if deployed then x else y) with x end.
  2: { destruct deployed; [done|]. destruct Hd as [|Hd]; [done|]. by rewrite <- Ed, (E30 Hd). }
  unfold from_stream. rewrite read_write_transfer by (done || (cbn; lia)). split; [done|].
  apply amount_zero.
Qed.

Lemma owner_parsed na : (length (na_strName na) <= 39)%nat -> is_bytes (na_strName na) ->
  let s := ConstructOwnerTransaction na out in
  OwnerAssetFromScript [a] [b] s = (addr ← EncodeDestination [a] [b] (CKeyID id); Ok (Some (na_strName na ++ OWNER_TAG, addr)))
  /\ IsUnspendable s = false.
Proof.
  intros Hl Hn. assert (Ho : name_ok (na_strName na ++ OWNER_TAG)).
  { split; [rewrite length_app; cbn; lia|]. apply Forall_app_2; [done|]. by repeat constructor. }
  destruct (output_parsed HNB_O (write ser_string (na_strName na ++ OWNER_TAG)) TX_NEW_ASSET true) as (idx & E & Ed & Ea & Eu & _);
    [rewrite string_small by apply Ho; destruct Ho; lia|done|done|].
  unfold ConstructOwnerTransaction. cbn zeta. rewrite Eu. unfold OwnerAssetFromScript, GetAssetAmountFromScript, IsScriptOwnerAsset.
  rewrite E, Ea, Ed. unfold from_stream. rewrite (read_write (c:=ser_string)) by (by apply name_blob). done.
Qed.
End RoundTrips.

Lemma null_data_parsed a b id d :
  length id = 20%nat -> null_data_ok d ->
  AssetNullDataFromScript [a] [b] (NullData_ConstructTransaction d (GetScriptForNullAssetDataDestination (CKeyID id)))
  = (addr ← EncodeDestination [a] [b] (CKeyID id); Ok (Some (d, addr))).
Proof.
  intros Hid Hd. destruct (null_data_script id d Hid Hd) as (E1 & E2 & E3). unfold AssetNullDataFromScript, script_address.
  rewrite E1, E2, E3. cbn [negb default]. unfold from_stream. rewrite <- (app_nil_r (write_CNullAssetTxData d)), read_write_null_data by done. done.
Qed.

Lemma global_parsed d : null_data_ok d -> GlobalAssetNullDataFromScript (ConstructGlobalRestrictionTransaction d []) = Some d.
Proof.
  intros Hd. pose proof (null_data_length d Hd) as Hl. pose proof Hd as ([H1 H40] & _).
  unfold ConstructGlobalRestrictionTransaction, GlobalAssetNullDataFromScript. rewrite push_short by lia.
  pose proof (read_write_null_data d [] Hd) as Hr. rewrite app_nil_r in Hr. set (w := write_CNullAssetTxData d) in *. clearbody w.
  unfold IsNullGlobalRestrictionAssetTxDataScript, from_stream. cbn [app length]. rewrite (proj2 (Nat.ltb_lt 6 _)) by lia.
  cbn [andb at_ nth skipn negb]. rewrite !Z.eqb_refl, drop_0. cbn [andb negb]. by rewrite Hr.
Qed.

Lemma string_head v : (length v < 253)%nat -> write ser_string v = Z.of_nat (length v) :: v.
Proof.
  intros H. cbn [write ser_string]. unfold Serialize_blob, WriteCompactSize. rewrite (proj2 (Z.ltb_lt _ 253)) by lia.
  unfold ser_writedata8. rewrite le_split_one by apply u8_range. unfold u8. by rewrite Z.mod_small by lia.
Qed.

Lemma string_read v : (length v < 253)%nat -> is_bytes v -> from_stream (read ser_string) (Z.of_nat (length v) :: v) = Some v.
Proof.
  intros H Hv. rewrite <- string_head by done. unfold from_stream. rewrite <- (app_nil_r (write ser_string v)).
  rewrite (read_write (c:=ser_string)); [done|]. split; [unfold MAX_SIZE; lia|done].
Qed.

(** A verifier string is read back as it was written up to 74 characters. *)
Lemma verifier_parsed v : (length v <= 74)%nat -> is_bytes v ->
  AssetNullVerifierDataFromScript (Verifier_ConstructTransaction v []) = Some v.
Proof.
  intros Hl Hv. unfold AssetNullVerifierDataFromScript, Verifier_ConstructTransaction.
  rewrite string_head by lia. rewrite push_short by (cbn; lia). cbn [length app].
  unfold IsNullAssetVerifierTxDataScript, at_. cbn [length nth skipn]. rewrite !Z.eqb_refl.
  rewrite (proj2 (Z.eqb_neq (Z.of_nat (S (length v))) _)) by (change (opcode_value OP_RESERVED) with 80; lia). cbn [Nat.ltb Nat.leb andb negb].
  apply string_read; [lia|done].
Qed.

(** Behind a longer push its length byte is taken for a character. *)
Lemma verifier_long v : (75 <= length v <= 251)%nat -> is_bytes v ->
  AssetNullVerifierDataFromScript (Verifier_ConstructTransaction v []) = Some (Z.of_nat (length v) :: v).
Proof.
  intros Hl Hv. unfold AssetNullVerifierDataFromScript, Verifier_ConstructTransaction.
  rewrite string_head by lia. unfold push_data. change (opcode_value OP_PUSHDATA1) with 76. cbn [length].
  rewrite (proj2 (Z.ltb_ge _ 76)), (proj2 (Z.leb_le _ 255)) by lia. cbn [length app].
  unfold IsNullAssetVerifierTxDataScript, at_. cbn [length nth skipn]. rewrite !Z.eqb_refl.
  change (negb (negb _)) with false. cbn [Nat.ltb Nat.leb andb negb].
  rewrite <- (string_read (Z.of_nat (length v) :: v)); [done|cbn; lia|]. constructor; [ranges; lia|done].
Qed.

(** C33: Asset outputs are read back as they were written: a new asset, its owner token, a
    reissue, a transfer (one whose data exceeds 71 bytes only once the new script sizes
    are deployed), a qualifier or freeze of an address and a global freeze yield the
    object they carry and the address they pay to, and an output is unspendable exactly
    when it carries no amount.  A verifier string is read back up to 74 characters; from 75
    on, while the limit of the code is 80, the string that is read begins with the
    character whose code is the length. *)
Theorem asset_scripts_roundtrip a b id na t r d deployed :
  is_u8 a -> is_u8 b -> a <> b -> is_bytes id -> length id = 20%nat ->
  new_asset_ok na -> transfer_ok t -> reissue_ok r -> null_data_ok d ->
  (length (na_strName na) <= 39)%nat -> deployed = true \/ (length (write_CAssetTransfer t) <= 71)%nat ->
  let out := GetScriptForDestination (CKeyID id) in
  exists addr, EncodeDestination [a] [b] (CKeyID id) = Ok addr /\ DecodeDestination [a] [b] addr = Ok (CKeyID id)
  /\ AssetFromScript [a] [b] (NewAsset_ConstructTransaction na out) = Ok (Some (na, addr))
  /\ OwnerAssetFromScript [a] [b] (ConstructOwnerTransaction na out) = Ok (Some (na_strName na ++ OWNER_TAG, addr))
  /\ ReissueAssetFromScript [a] [b] (Reissue_ConstructTransaction r out) = Ok (Some (r, addr))
  /\ TransferAssetFromScript [a] [b] deployed (Transfer_ConstructTransaction t out) = Ok (Some (t, addr))
  /\ AssetNullDataFromScript [a] [b] (NullData_ConstructTransaction d (GetScriptForNullAssetDataDestination (CKeyID id)))
     = Ok (Some (d, addr))
  /\ GlobalAssetNullDataFromScript (ConstructGlobalRestrictionTransaction d []) = Some d
  /\ IsUnspendable (NewAsset_ConstructTransaction na out) = (na_nAmount na =? 0)
  /\ IsUnspendable (ConstructOwnerTransaction na out) = false
  /\ IsUnspendable (Reissue_ConstructTransaction r out) = (re_nAmount r =? 0)
  /\ IsUnspendable (Transfer_ConstructTransaction t out) = (tr_nAmount t =? 0)
  /\ (forall v, is_bytes v -> (length v <= 74)%nat -> AssetNullVerifierDataFromScript (Verifier_ConstructTransaction v []) = Some v)
  /\ (forall v, is_bytes v -> (75 <= length v <= 80)%nat ->
       AssetNullVerifierDataFromScript (Verifier_ConstructTransaction v []) = Some (Z.of_nat (length v) :: v)).
Proof.
  intros Ha Hb Hab Hid Hl Hn Ht Hr Hd Hname Hdep out. destruct (key_address a b Ha Hb Hab id Hid Hl) as (addr & Ea & Ed).
  destruct (new_asset_parsed a b id Hl na Hn) as [E1 U1].
  destruct (owner_parsed a b id Hl na Hname) as [E2 U2]; [apply Hn|].
  destruct (reissue_parsed a b id Hl r Hr) as [E3 U3]. destruct (transfer_parsed a b id Hl deployed t Ht Hdep) as [E4 U4].
  pose proof (null_data_parsed a b id d Hl Hd) as E5. rewrite Ea in E1, E2, E3, E4, E5.
  exists addr. do 7 (split; [done|]). split; [by apply global_parsed|]. do 4 (split; [done|]).
  split; intros v Hv Hlen; [by apply verifier_parsed|apply verifier_long; [lia|done]].
Qed.

Lemma asset_scripts_roundtrip_witness :
  exists addr, EncodeDestination [40] [85] (CKeyID (replicate 20 7)) = Ok addr.
Proof.
  destruct (asset_scripts_roundtrip 40 85 (replicate 20 7) (mkNewAsset (chars "ABC") 100 8 1 1 (replicate 32 5))
    (mkTransfer (chars "ABC") 7 (0x12 :: 0x20 :: replicate 32 9) 1600000000) (mkReissue (chars "ABC") 1 0 1 [])
    (mkNullData (chars "#ABC") 1) true) as (addr & E & _).
  - done.
  - done.
  - done.
  - by apply Forall_replicate.
  - done.
  - repeat split; try done; try (repeat constructor; done).
  - repeat split; try done; try (repeat constructor; done). right. right. eexists. split; [done|]. split; [done|]. by apply Forall_replicate.
  - repeat split; try done; try (repeat constructor; done).
  - repeat split; cbn; try lia. repeat constructor; done.
  - cbn. lia.
  - by left.
  - by exists addr.
Defined.
