(* ===== verification/AssetRules.v ===== *)
(** * Rules on asset transactions: [src/assets/assets.cpp]

    The context-free rules: the burn fees, the shape of a transaction that issues or
    reissues assets ([IsNew...] and [Verify...] of [CTransaction]), the verifier strings
    and the contents of an issue or reissue.  A rule fails with the message the code
    leaves in [strError]; undefined behaviour is a fault. *)

From S2P Require Import Prelude Serialize Script Transaction Standard Base58 AssetNames LibBoolEE AssetScripts TxVerify.

(** ** Results *)

Inductive rule_exit := Refused (strError : string) | Aborted (f : fault).
Abbreviation rule A := (result rule_exit A).

Definition refuse {A} (e : string) : rule A := Err (Refused e).
Definition require (b : bool) (e : string) : rule unit := if b then Ok tt else refuse e.
Definition lift {A} (m : result fault A) : rule A := match m with Ok a => Ok a | Err f => Err (Aborted f) end.
Definition require_some {A} (m : result fault (option A)) (e : string) : rule A :=
  match m with Ok (Some a) => Ok a | Ok None => refuse e | Err f => Err (Aborted f) end.

(** The characters of a name as a string of a message. *)
Definition string_of (b : bytes) : string := String.string_of_list_ascii ((fun c => Ascii.ascii_of_N (Z.to_N c)) <$> b).

(** ** [std::set] and [std::map] keys, in their order *)

Fixpoint bytes_lt (a b : bytes) : bool :=
  match a, b with
  | _, [] => false
  | [], _ :: _ => true
  | x :: a, y :: b => if x <? y then true else if y <? x then false else bytes_lt a b
  end.

Fixpoint set_insert {A} `{EqDecision A} (lt : A -> A -> bool) (x : A) (l : list A) : list A :=
  match l with
  | [] => [x]
  | y :: l' => if decide (x = y) then l else if lt x y then x :: l else y :: set_insert lt x l'
  end.

(** ** Burn fees *)

(** The fees and burn addresses of a chain ([CChainParams]). *)
Record burn_params := mkBurns {
  nIssueAssetBurnAmount : Z; nReissueAssetBurnAmount : Z; nIssueSubAssetBurnAmount : Z; nIssueUniqueAssetBurnAmount : Z;
  nIssueMsgChannelAssetBurnAmount : Z; nIssueQualifierAssetBurnAmount : Z; nIssueSubQualifierAssetBurnAmount : Z;
  nIssueRestrictedAssetBurnAmount : Z; nAddNullQualifierTagBurnAmount : Z;
  strIssueAssetBurnAddress : bytes; strReissueAssetBurnAddress : bytes; strIssueSubAssetBurnAddress : bytes;
  strIssueUniqueAssetBurnAddress : bytes; strIssueMsgChannelAssetBurnAddress : bytes; strIssueQualifierAssetBurnAddress : bytes;
  strIssueSubQualifierAssetBurnAddress : bytes; strIssueRestrictedAssetBurnAddress : bytes; strAddNullQualifierTagBurnAddress : bytes;
}.

Definition main_burns : burn_params :=
  mkBurns (500 * COIN) (100 * COIN) (100 * COIN) (5 * COIN) (100 * COIN) (1000 * COIN) (100 * COIN) (1500 * COIN) (COIN / 10)
    (chars "RXissueAssetXXXXXXXXXXXXXXXXXhhZGt") (chars "RXReissueAssetXXXXXXXXXXXXXXVEFAWu")
    (chars "RXissueSubAssetXXXXXXXXXXXXXWcwhwL") (chars "RXissueUniqueAssetXXXXXXXXXXWEAe58")
    (chars "RXissueMsgChanneLAssetXXXXXXSjHvAY") (chars "RXissueQuaLifierXXXXXXXXXXXXUgEDbC")
    (chars "RXissueSubQuaLifierXXXXXXXXXVTzvv5") (chars "RXissueRestrictedXXXXXXXXXXXXzJZ1q")
    (chars "RXaddTagBurnXXXXXXXXXXXXXXXXZQm5ya").

Definition test_burns : burn_params :=
  mkBurns (500 * COIN) (100 * COIN) (100 * COIN) (5 * COIN) (100 * COIN) (1000 * COIN) (100 * COIN) (1500 * COIN) (COIN / 10)
    (chars "n1issueAssetXXXXXXXXXXXXXXXXWdnemQ") (chars "n1ReissueAssetXXXXXXXXXXXXXXWG9NLd")
    (chars "n1issueSubAssetXXXXXXXXXXXXXbNiH6v") (chars "n1issueUniqueAssetXXXXXXXXXXS4695i")
    (chars "n1issueMsgChanneLAssetXXXXXXT2PBdD") (chars "n1issueQuaLifierXXXXXXXXXXXXUysLTj")
    (chars "n1issueSubQuaLifierXXXXXXXXXYffPLh") (chars "n1issueRestrictedXXXXXXXXXXXXZVT9V")
    (chars "n1addTagBurnXXXXXXXXXXXXXXXXX5oLMH").

Definition GetBurnAmount (p : burn_params) (type : AssetType) : Z :=
  match type with
  | ROOT => nIssueAssetBurnAmount p
  | SUB => nIssueSubAssetBurnAmount p
  | MSGCHANNEL => nIssueMsgChannelAssetBurnAmount p
  | UNIQUE => nIssueUniqueAssetBurnAmount p
  | REISSUE => nReissueAssetBurnAmount p
  | QUALIFIER => nIssueQualifierAssetBurnAmount p
  | SUB_QUALIFIER => nIssueSubQualifierAssetBurnAmount p
  | RESTRICTED => nIssueRestrictedAssetBurnAmount p
  | NULL_ADD_QUALIFIER => nAddNullQualifierTagBurnAmount p
  | OWNER | VOTE | INVALID => 0
  end.

Definition GetBurnAddress (p : burn_params) (type : AssetType) : bytes :=
  match type with
  | ROOT => strIssueAssetBurnAddress p
  | SUB => strIssueSubAssetBurnAddress p
  | MSGCHANNEL => strIssueMsgChannelAssetBurnAddress p
  | UNIQUE => strIssueUniqueAssetBurnAddress p
  | REISSUE => strReissueAssetBurnAddress p
  | QUALIFIER => strIssueQualifierAssetBurnAddress p
  | SUB_QUALIFIER => strIssueSubQualifierAssetBurnAddress p
  | RESTRICTED => strIssueRestrictedAssetBurnAddress p
  | NULL_ADD_QUALIFIER => strAddNullQualifierTagBurnAddress p
  | OWNER | VOTE | INVALID => []
  end.

(** The chain: its address prefixes and burn parameters, and what is deployed at the tip. *)
Record asset_chain := mkChain {
  PUBKEY_ADDRESS : bytes;
  SCRIPT_ADDRESS : bytes;
  burns : burn_params;
  fTestNet : bool;
  AreTransferScriptsSizeDeployed : bool;
  AreMessagesDeployed : bool;
  AreRestrictedAssetsDeployed : bool;
  AreAssetsDeployed : bool;
  AreEnforcedValuesDeployed : bool;
  AreCoinbaseCheckAssetsDeployed : bool;
}.

Section Rules.
Context (chain : asset_chain).
(** What a local variable of type [AssetType] holds before it is written. *)
Context (uninitialised : AssetType).
(** The text [CTxOut::ToString] prints into a message. *)
Context (txout_ToString : CTxOut -> string).

Abbreviation asset_from s := (AssetFromScript (PUBKEY_ADDRESS chain) (SCRIPT_ADDRESS chain) s).
Abbreviation transfer_from s :=
  (TransferAssetFromScript (PUBKEY_ADDRESS chain) (SCRIPT_ADDRESS chain) (AreTransferScriptsSizeDeployed chain) s).
Abbreviation encode d := (EncodeDestination (PUBKEY_ADDRESS chain) (SCRIPT_ADDRESS chain) d).

(** [AssetType assetType; IsAssetNameValid(name, assetType);]. *)
Definition name_type (before : AssetType) (name : bytes) : AssetType :=
  match IsAssetNameValid name with
  | Ok t => t
  | Err NotWritten => before
  | Err (BadName _) => INVALID
  end.

(** The last steps of the two burn checks. *)
Definition pays_to (s address : bytes) : result fault bool :=
  match ExtractDestination s with
  | None => Ok false
  | Some destination =>
    if negb (IsValidDestination destination) then Ok false
    else strDestination ← encode destination; Ok (bool_decide (strDestination = address))
  end.

Definition CheckIssueBurnTx (txOut : CTxOut) (type : AssetType) (numberIssued : Z) : result fault bool :=
  match type with
  | REISSUE | VOTE | OWNER | INVALID => Ok false
  | _ =>
    let burnAmount := i64 (GetBurnAmount (burns chain) type * numberIssued) in
    if negb (nValue txOut =? burnAmount) then Ok false
    else pays_to (scriptPubKey txOut) (GetBurnAddress (burns chain) type)
  end.

Definition CheckReissueBurnTx (txOut : CTxOut) : result fault bool :=
  if negb (nValue txOut =? nReissueAssetBurnAmount (burns chain)) then Ok false
  else pays_to (scriptPubKey txOut) (strReissueAssetBurnAddress (burns chain)).

(** ** Outputs *)

(** [vout[vout.size() - k]]. *)
Definition vout_back (tx : CTransaction) (k : nat) : result fault CTxOut :=
  match (if (length (vout tx) <? k)%nat then None else vout tx !! (length (vout tx) - k)%nat) with
  | Some o => Ok o
  | None => Err OutOfBounds
  end.

(** A loop over the outputs that stops at the first hit. *)
Fixpoint found (p : CTxOut -> result fault bool) (outs : list CTxOut) : result fault bool :=
  match outs with
  | [] => Ok false
  | o :: outs => let* b := p o in if b then Ok true else found p outs
  end.

(** An output that transfers the token [name]. *)
Definition transfers_token (name : bytes) (o : CTxOut) : result fault bool :=
  r ← transfer_from (scriptPubKey o);
  Ok (match r with Some (transfer, _) => bool_decide (name = tr_strName transfer) | None => false end).

(** [substr(1, size() - 1)], which throws on an empty string. *)
Definition after_first (s : bytes) : result fault bytes :=
  match s with [] => Err OutOfBounds | _ :: s => Ok s end.

(** The four counters of [GetTxOutAssetTypes]. *)
Record asset_counts := mkCounts { nIssues : Z; nReissues : Z; nTransfers : Z; nOwners : Z }.
Definition count_out (c : asset_counts) (o : CTxOut) : asset_counts :=
  match IsAssetScript (scriptPubKey o) with
  | Some (TX_NEW_ASSET, false, _) => mkCounts (nIssues c + 1) (nReissues c) (nTransfers c) (nOwners c)
  | Some (TX_NEW_ASSET, true, _) => mkCounts (nIssues c) (nReissues c) (nTransfers c) (nOwners c + 1)
  | Some (TX_TRANSFER_ASSET, _, _) => mkCounts (nIssues c) (nReissues c) (nTransfers c + 1) (nOwners c)
  | Some (TX_REISSUE_ASSET, _, _) => mkCounts (nIssues c) (nReissues c + 1) (nTransfers c) (nOwners c)
  | _ => c
  end.
Definition GetTxOutAssetTypes (outs : list CTxOut) : asset_counts := foldl count_out (mkCounts 0 0 0 0) outs.

Definition CheckIssueDataTx (txOut : CTxOut) : bool := bool_decide (is_Some (IsScriptNewAsset (scriptPubKey txOut))).
Definition CheckReissueDataTx (txOut : CTxOut) : bool := bool_decide (is_Some (IsScriptReissueAsset (scriptPubKey txOut))).
Definition CheckOwnerDataTx (txOut : CTxOut) : bool := bool_decide (is_Some (IsScriptOwnerAsset (scriptPubKey txOut))).

(** ** [CTransaction]: which operation a transaction is, and whether it is formed well *)

Definition tx_IsNewAsset (tx : CTransaction) : result fault bool :=
  if (length (vout tx) <? 3)%nat then Ok false
  else
    last ← vout_back tx 1; before ← vout_back tx 2;
    if negb (CheckIssueDataTx last) then Ok false
    else if negb (CheckOwnerDataTx before) then Ok false
    else
      let* unique := IsScriptNewUniqueAsset (PUBKEY_ADDRESS chain) (SCRIPT_ADDRESS chain) (scriptPubKey last) in
      if unique then Ok false
      else restricted ← IsScriptNewRestrictedAsset (PUBKEY_ADDRESS chain) (SCRIPT_ADDRESS chain) (scriptPubKey last); Ok (negb restricted).

(** The four predicates that look at the last output only. *)
Definition last_is (is_new : bytes -> result fault bool) (tx : CTransaction) : result fault bool :=
  last ← vout_back tx 1;
  if negb (CheckIssueDataTx last) then Ok false else is_new (scriptPubKey last).
Definition tx_IsNewUniqueAsset := last_is (IsScriptNewUniqueAsset (PUBKEY_ADDRESS chain) (SCRIPT_ADDRESS chain)).
Definition tx_IsNewMsgChannelAsset := last_is (IsScriptNewMsgChannelAsset (PUBKEY_ADDRESS chain) (SCRIPT_ADDRESS chain)).
Definition tx_IsNewQualifierAsset := last_is (IsScriptNewQualifierAsset (PUBKEY_ADDRESS chain) (SCRIPT_ADDRESS chain)).
Definition tx_IsNewRestrictedAsset := last_is (IsScriptNewRestrictedAsset (PUBKEY_ADDRESS chain) (SCRIPT_ADDRESS chain)).

Definition tx_IsReissueAsset (tx : CTransaction) : result fault bool :=
  last ← vout_back tx 1; Ok (CheckReissueDataTx last).

(** The loop over the new unique assets: the names so far, and their parent. *)
Fixpoint unique_loop (outs : list CTxOut) (setUniqueAssets : list bytes) (assetRoot : bytes) (assetOutpointCount : Z)
  : rule (bytes * Z) :=
  match outs with
  | [] => Ok (assetRoot, assetOutpointCount)
  | out :: outs =>
    let* is_unique := lift (IsScriptNewUniqueAsset (PUBKEY_ADDRESS chain) (SCRIPT_ADDRESS chain) (scriptPubKey out)) in
    if is_unique then
      let* (asset, _) := require_some (asset_from (scriptPubKey out)) "bad-txns-issue-unique-asset-from-script" in
      let root := GetParentName (na_strName asset) in
      let assetRoot := if decide (assetRoot = []) then root else assetRoot in
      _ ← require (bool_decide (assetRoot = root)) "bad-txns-issue-unique-asset-compare-failed";
      _ ← require (negb (bool_decide (na_strName asset ∈ setUniqueAssets))) "bad-txns-issue-unique-duplicate-name-in-same-tx";
      unique_loop outs (na_strName asset :: setUniqueAssets) assetRoot (assetOutpointCount + 1)
    else unique_loop outs setUniqueAssets assetRoot assetOutpointCount
  end.

Definition VerifyNewUniqueAsset (tx : CTransaction) : rule unit :=
  _ ← require (negb (length (vout tx) <? 3)%nat) "bad-txns-unique-vout-size-to-small";
  let* (assetRoot, assetOutpointCount) := unique_loop (vout tx) [] [] 0 in
  _ ← require (negb (assetOutpointCount =? 0)) "bad-txns-issue-unique-asset-bad-outpoint-count";
  fBurnOutpointFound ← lift (found (fun out => CheckIssueBurnTx out UNIQUE assetOutpointCount) (vout tx));
  _ ← require fBurnOutpointFound "bad-txns-issue-unique-asset-burn-outpoints-not-found";
  fOwnerOutFound ← lift (found (transfers_token (assetRoot ++ OWNER_TAG)) (vout tx));
  _ ← require fOwnerOutFound "bad-txns-issue-unique-asset-missing-owner-asset";
  let c := GetTxOutAssetTypes (vout tx) in
  require (negb ((0 <? nOwners c) || (0 <? nReissues c) || negb (nIssues c =? assetOutpointCount)))
    "bad-txns-failed-unique-asset-formatting-check".

Definition VerifyNewAsset (tx : CTransaction) : rule unit :=
  _ ← require (negb (length (vout tx) <? 3)%nat) "bad-txns-issue-vout-size-to-small";
  last ← lift (vout_back tx 1); before ← lift (vout_back tx 2);
  _ ← require (CheckIssueDataTx last) "bad-txns-issue-data-not-found";
  _ ← require (CheckOwnerDataTx before) "bad-txns-issue-owner-data-not-found";
  let* (asset, _) := require_some (asset_from (scriptPubKey last)) "bad-txns-issue-serialzation-failed" in
  let assetType := name_type uninitialised (na_strName asset) in
  let* (strOwnerName, _) := require_some (OwnerAssetFromScript (PUBKEY_ADDRESS chain) (SCRIPT_ADDRESS chain) (scriptPubKey before))
    "bad-txns-issue-owner-serialzation-failed" in
  _ ← require (bool_decide (strOwnerName = na_strName asset ++ OWNER_TAG)) "bad-txns-issue-owner-name-doesn't-match";
  fFoundIssueBurnTx ← lift (found (fun out => CheckIssueBurnTx out assetType 1) (vout tx));
  _ ← require fFoundIssueBurnTx "bad-txns-issue-burn-not-found";
  _ ← (if decide (assetType = SUB) then
         fOwnerOutFound ← lift (found (transfers_token (GetParentName (na_strName asset) ++ OWNER_TAG)) (vout tx));
         require fOwnerOutFound "bad-txns-issue-new-asset-missing-owner-asset"
       else Ok tt);
  let c := GetTxOutAssetTypes (vout tx) in
  require (negb (negb (nOwners c =? 1) || negb (nIssues c =? 1) || (0 <? nReissues c))) "bad-txns-failed-issue-asset-formatting-check".

Definition VerifyNewMsgChannelAsset (tx : CTransaction) : rule unit :=
  _ ← require (negb (length (vout tx) <? 3)%nat) "bad-txns-issue-msgchannel-vout-size-to-small";
  last ← lift (vout_back tx 1);
  _ ← require (CheckIssueDataTx last) "bad-txns-issue-data-not-found";
  let* (asset, _) := require_some (MsgChannelAssetFromScript (PUBKEY_ADDRESS chain) (SCRIPT_ADDRESS chain) (scriptPubKey last))
    "bad-txns-issue-msgchannel-serialzation-failed" in
  fFoundIssueBurnTx ← lift (found (fun out => CheckIssueBurnTx out MSGCHANNEL 1) (vout tx));
  _ ← require fFoundIssueBurnTx "bad-txns-issue-msgchannel-burn-not-found";
  fOwnerOutFound ← lift (found (transfers_token (GetParentName (na_strName asset) ++ OWNER_TAG)) (vout tx));
  _ ← require fOwnerOutFound "bad-txns-issue-msg-channel-asset-bad-owner-asset";
  let c := GetTxOutAssetTypes (vout tx) in
  require (negb (negb (nOwners c =? 0) || negb (nIssues c =? 1) || (0 <? nReissues c)))
    "bad-txns-failed-issue-msgchannel-asset-formatting-check".

Definition VerifyNewQualfierAsset (tx : CTransaction) : rule unit :=
  _ ← require (negb (length (vout tx) <? 2)%nat) "bad-txns-issue-qualifier-vout-size-to-small";
  last ← lift (vout_back tx 1);
  _ ← require (CheckIssueDataTx last) "bad-txns-issue-qualifider-data-not-found";
  let* (asset, _) := require_some (QualifierAssetFromScript (PUBKEY_ADDRESS chain) (SCRIPT_ADDRESS chain) (scriptPubKey last))
    "bad-txns-issue-qualifier-serialzation-failed" in
  let assetType := name_type uninitialised (na_strName asset) in
  fFoundIssueBurnTx ← lift (found (fun out => CheckIssueBurnTx out assetType 1) (vout tx));
  _ ← require fFoundIssueBurnTx "bad-txns-issue-qualifier-burn-not-found";
  _ ← (if decide (assetType = SUB_QUALIFIER) then
         fOwnerOutFound ← lift (found (transfers_token (GetParentName (na_strName asset))) (vout tx));
         require fOwnerOutFound "bad-txns-issue-sub-qualifier-parent-outpoint-not-found"
       else Ok tt);
  let c := GetTxOutAssetTypes (vout tx) in
  require (negb (negb (nOwners c =? 0) || negb (nIssues c =? 1) || (0 <? nReissues c))) "bad-txns-failed-issue-asset-formatting-check".

(** [GetVerifierStringFromTx]; a transaction without a verifier string is told apart by [fNotFound]. *)
Inductive verifier_search := VerifierFound (verifier_string : bytes) | VerifierNotFound | VerifierError (strError : string).

Fixpoint verifier_loop (outs : list CTxOut) (verifier : option bytes) : verifier_search :=
  match outs with
  | [] => match verifier with Some v => VerifierFound v | None => VerifierNotFound end
  | out :: outs =>
    if IsNullAssetVerifierTxDataScript (scriptPubKey out) then
      match verifier with
      | Some _ => VerifierError "Multiple verifier strings found in transaction"
      | None =>
        match AssetNullVerifierDataFromScript (scriptPubKey out) with
        | None => VerifierError (String.append "Failed to get verifier string from output: " (txout_ToString out))
        | Some v => verifier_loop outs (Some v)
        end
      end
    else verifier_loop outs verifier
  end.
Definition GetVerifierStringFromTx (tx : CTransaction) : verifier_search := verifier_loop (vout tx) None.
Definition verifier_error (r : verifier_search) : string :=
  match r with VerifierFound _ => EmptyString | VerifierNotFound => "Verifier string not found" | VerifierError e => e end.
Definition verifier_found (r : verifier_search) : bool := match r with VerifierFound _ => true | _ => false end.

Definition VerifyNewRestrictedAsset (tx : CTransaction) : rule unit :=
  _ ← require (negb (length (vout tx) <? 4)%nat) "bad-txns-issue-restricted-vout-size-to-small";
  last ← lift (vout_back tx 1);
  _ ← require (CheckIssueDataTx last) "bad-txns-issue-restricted-data-not-found";
  let* (asset, _) := require_some (RestrictedAssetFromScript (PUBKEY_ADDRESS chain) (SCRIPT_ADDRESS chain) (scriptPubKey last))
    "bad-txns-issue-restricted-serialization-failed" in
  let assetType := name_type uninitialised (na_strName asset) in
  fFoundIssueBurnTx ← lift (found (fun out => CheckIssueBurnTx out assetType 1) (vout tx));
  _ ← require fFoundIssueBurnTx "bad-txns-issue-restricted-burn-not-found";
  stripped ← lift (after_first (GetParentName (na_strName asset)));
  let strippedRoot := stripped ++ OWNER_TAG in
  fRootOwnerOutFound ← lift (found (transfers_token strippedRoot) (vout tx));
  _ ← require fRootOwnerOutFound "bad-txns-issue-restricted-root-owner-token-outpoint-not-found";
  _ ← require (verifier_found (GetVerifierStringFromTx tx)) (verifier_error (GetVerifierStringFromTx tx));
  let c := GetTxOutAssetTypes (vout tx) in
  require (negb (negb (nOwners c =? 0) || negb (nIssues c =? 1) || (0 <? nReissues c))) "bad-txns-failed-issue-asset-formatting-check".

Definition VerifyReissueAsset (tx : CTransaction) : rule unit :=
  _ ← require (negb (length (vout tx) <? 3)%nat) "bad-txns-vout-size-to-small";
  last ← lift (vout_back tx 1);
  _ ← require (CheckReissueDataTx last) "bad-txns-reissue-data-not-found";
  let* (reissue, _) := require_some (ReissueAssetFromScript (PUBKEY_ADDRESS chain) (SCRIPT_ADDRESS chain) (scriptPubKey last))
    "bad-txns-reissue-serialization-failed" in
  let asset_type := name_type INVALID (re_strName reissue) in
  asset_name_to_check ← (if decide (asset_type = RESTRICTED) then lift (after_first (re_strName reissue)) else Ok (re_strName reissue));
  fOwnerOutFound ← lift (found (transfers_token (asset_name_to_check ++ OWNER_TAG)) (vout tx));
  _ ← require fOwnerOutFound "bad-txns-reissue-owner-outpoint-not-found";
  fFoundReissueBurnTx ← lift (found CheckReissueBurnTx (vout tx));
  _ ← require fFoundReissueBurnTx "bad-txns-reissue-burn-outpoint-not-found";
  let c := GetTxOutAssetTypes (vout tx) in
  require (negb ((0 <? nOwners c) || negb (nReissues c =? 1) || (0 <? nIssues c))) "bad-txns-failed-reissue-asset-formatting-check".

Definition CheckAddingTagBurnFee (tx : CTransaction) (count : Z) : result fault bool :=
  found (fun out => CheckIssueBurnTx out NULL_ADD_QUALIFIER count) (vout tx).

(** [OwnerFromTransaction] and [IsNewOwnerTxValid]. *)
Definition OwnerFromTransaction (tx : CTransaction) : result fault (option (bytes * bytes)) :=
  let* b := tx_IsNewAsset tx in
  if b then before ← vout_back tx 2; OwnerAssetFromScript (PUBKEY_ADDRESS chain) (SCRIPT_ADDRESS chain) (scriptPubKey before)
  else Ok None.

Definition IsNewOwnerTxValid (tx : CTransaction) (assetName address : bytes) : rule unit :=
  let* (ownerName, ownerAddress) := require_some (OwnerFromTransaction tx) "bad-txns-bad-owner" in
  _ ← require (bool_decide (ownerAddress = address)) "bad-txns-owner-address-mismatch";
  _ ← require (negb (length ownerName <? 1 + MIN_ASSET_LENGTH)%nat) "bad-txns-owner-asset-length";
  require (bool_decide (ownerName = assetName ++ OWNER_TAG)) "bad-txns-owner-name-mismatch".

(** The asset of the last output, when the transaction is of the type. *)
Definition from_last {A} (is_type : CTransaction -> result fault bool) (parse : bytes -> result fault (option A)) (tx : CTransaction)
  : result fault (option A) :=
  let* b := is_type tx in
  if b then last ← vout_back tx 1; parse (scriptPubKey last) else Ok None.
Definition AssetFromTransaction := from_last tx_IsNewAsset (AssetFromScript (PUBKEY_ADDRESS chain) (SCRIPT_ADDRESS chain)).
Definition MsgChannelAssetFromTransaction :=
  from_last tx_IsNewMsgChannelAsset (MsgChannelAssetFromScript (PUBKEY_ADDRESS chain) (SCRIPT_ADDRESS chain)).
Definition QualifierAssetFromTransaction :=
  from_last tx_IsNewQualifierAsset (QualifierAssetFromScript (PUBKEY_ADDRESS chain) (SCRIPT_ADDRESS chain)).
Definition RestrictedAssetFromTransaction :=
  from_last tx_IsNewRestrictedAsset (RestrictedAssetFromScript (PUBKEY_ADDRESS chain) (SCRIPT_ADDRESS chain)).
Definition UniqueAssetFromTransaction := from_last tx_IsNewUniqueAsset (AssetFromScript (PUBKEY_ADDRESS chain) (SCRIPT_ADDRESS chain)).
Definition ReissueAssetFromTransaction := from_last tx_IsReissueAsset (ReissueAssetFromScript (PUBKEY_ADDRESS chain) (SCRIPT_ADDRESS chain)).
End Rules.

(** ** Contents of an issue and a reissue *)

Definition UNIQUE_ASSET_AMOUNT : Z := 1 * COIN.
Definition QUALIFIER_ASSET_MIN_AMOUNT : Z := 1 * COIN.
Definition QUALIFIER_ASSET_MAX_AMOUNT : Z := 10 * COIN.

(** [nAmount % int64_t(pow(10, MAX_UNIT - nUnits)) == 0]; the power is an integer that
    fits for units from -10 to 8 only. *)
Definition CheckAmountWithUnits (nAmount nUnits : Z) : result fault bool :=
  if (-10 <=? nUnits) && (nUnits <=? 8) then Ok (Z.rem nAmount (10 ^ (MAX_UNIT - nUnits)) =? 0) else Err ArithmeticError.

Definition invalid_name : string :=
  "Invalid parameter: asset_name must only consist of valid characters and have a size between 3 and 30 characters. See help for more details.".

Definition CheckNewAsset (asset : CNewAsset) : rule unit :=
  match IsAssetNameValid (na_strName asset) with
  | Err _ => refuse invalid_name
  | Ok assetType =>
    _ ← (if bool_decide (assetType = UNIQUE \/ assetType = MSGCHANNEL) then
           _ ← require (na_units asset =? 0) "Invalid parameter: units must be 0";
           _ ← require (na_nAmount asset =? UNIQUE_ASSET_AMOUNT) "Invalid parameter: amount must be 100000000";
           require (na_nReissuable asset =? 0) "Invalid parameter: reissuable must be 0"
         else Ok tt);
    _ ← (if bool_decide (assetType = QUALIFIER \/ assetType = SUB_QUALIFIER) then
           _ ← require (na_units asset =? 0) "Invalid parameter: units must be 0";
           _ ← require (negb ((na_nAmount asset <? QUALIFIER_ASSET_MIN_AMOUNT) || (na_nAmount asset >? QUALIFIER_ASSET_MAX_AMOUNT)))
                 "Invalid parameter: amount must be between 100000000 - 1000000000";
           require (na_nReissuable asset =? 0) "Invalid parameter: reissuable must be 0"
         else Ok tt);
    _ ← require (negb (IsAssetNameAnOwner (na_strName asset)))
          "Invalid parameters: asset_name can't have a '!' at the end of it. See help for more details.";
    _ ← require (negb (na_nAmount asset <=? 0)) "Invalid parameter: asset amount can't be equal to or less than zero.";
    _ ← require (negb (na_nAmount asset >? MAX_MONEY)) "Invalid parameter: asset amount greater than max money: 21000000000";
    _ ← require (negb ((na_units asset <? 0) || (na_units asset >? 8))) "Invalid parameter: units must be between 0-8.";
    divisible ← lift (CheckAmountWithUnits (na_nAmount asset) (na_units asset));
    _ ← require divisible "Invalid parameter: amount must be divisible by the smaller unit assigned to the asset";
    _ ← require (negb (negb (na_nReissuable asset =? 0) && negb (na_nReissuable asset =? 1))) "Invalid parameter: reissuable must be 0 or 1";
    require (negb (negb (na_nHasIPFS asset =? 0) && negb (na_nHasIPFS asset =? 1))) "Invalid parameter: has_ipfs must be 0 or 1."
  end.

Definition CheckReissueAsset (fTestNet : bool) (asset : CReissueAsset) : rule unit :=
  _ ← require (negb ((re_nAmount asset <? 0) || (re_nAmount asset >=? MAX_MONEY))) "Unable to reissue asset: amount must be 0 or larger";
  _ ← require (negb ((re_nUnits asset >? MAX_UNIT) || (re_nUnits asset <? -1))) "Unable to reissue asset: unit must be between 8 and -1";
  let fSkip := fTestNet &&
    ((bool_decide (re_strName asset = chars "GAMINGWEB") && (re_nReissuable asset =? 109)) ||
     (bool_decide (re_strName asset = chars "UINT8") && (re_nReissuable asset =? -47))) in
  require (negb (negb fSkip && negb (re_nReissuable asset =? 0) && negb (re_nReissuable asset =? 1)))
    "Unable to reissue asset: reissuable must be 0 or 1".

(** ** Verifier strings *)

(** [[A-Z0-9_.]]. *)
Definition qualifier_char (c : Z) : bool := ((65 <=? c) && (c <=? 90)) || ((48 <=? c) && (c <=? 57)) || (c =? 95) || (c =? 46).

(** The maximal runs of these characters, into a set in its order; [run] is the run being read, backwards. *)
Fixpoint extract_loop (s : bytes) (run : bytes) (qualifiers : list bytes) : list bytes :=
  let flush := match run with [] => qualifiers | _ => set_insert bytes_lt (reverse run) qualifiers end in
  match s with
  | [] => flush
  | c :: s => if qualifier_char c then extract_loop s (c :: run) qualifiers else extract_loop s [] flush
  end.
Definition ExtractVerifierStringQualifiers (verifier : bytes) : list bytes := extract_loop verifier [] [].

Definition GetStrippedVerifierString (verifier : bytes) : bytes := removeCharacter (removeWhitespaces verifier) 35.

Fixpoint check_qualifiers (qualifiers : list bytes) : rule unit :=
  match qualifiers with
  | [] => Ok tt
  | q :: qualifiers =>
    _ ← require (IsQualifierNameValid (35 :: q)) (String.append "bad-txns-null-verifier-invalid-asset-name-" (string_of q));
    check_qualifiers qualifiers
  end.

(** A string between double quotes. *)
Definition quoted (s : string) : string := String (Ascii.ascii_of_nat 34) (String.append s (String (Ascii.ascii_of_nat 34) EmptyString)).

(** The qualifiers found; no caller in the rules passes an error report. *)
Definition CheckVerifierString (verifier : bytes) : rule (list bytes) :=
  if bool_decide (verifier = chars "true") then Ok []
  else
    _ ← require (negb (bool_decide (verifier = [])))
          (String.append "Verifier string can not be empty. To default to true, use " (quoted "true"));
    let strippedVerifier := GetStrippedVerifierString verifier in
    _ ← require (negb (80 <? length strippedVerifier)%nat) "Verifier string has length greater than 80 after whitespaces and '#' are removed";
    let setFoundQualifiers := ExtractVerifierStringQualifiers strippedVerifier in
    _ ← check_qualifiers setFoundQualifiers;
    let vals : gmap bytes bool := list_to_map ((fun q => (q, true)) <$> setFoundQualifiers) in
    match resolve verifier vals with
    | Ok _ => Ok setFoundQualifiers
    | Err TooDeep => Err (Aborted OutOfFuel)
    | Err _ => refuse "bad-txns-null-verifier-failed-syntax-check"
    end.

Definition CheckVerifierAssetTxOut (txout : CTxOut) : rule unit :=
  match AssetNullVerifierDataFromScript (scriptPubKey txout) with
  | None => refuse "bad-txns-null-verifier-data-serialization"
  | Some verifier_string =>
    _ ← require (negb (bool_decide (32 ∈ verifier_string))) "bad-txns-null-verifier-data-contained-whitespaces";
    _ ← require (negb (bool_decide (35 ∈ verifier_string))) "bad-txns-null-verifier-data-contained-qualifier-character-#";
    _ ← CheckVerifierString verifier_string;
    Ok tt
  end.

Definition VerifyNullAssetDataFlag (flag : Z) : rule unit :=
  require (negb (negb (flag =? 0) && negb (flag =? 1))) "bad-txns-null-data-flag-must-be-0-or-1".

(** ** Burn addresses of another chain *)

(** A string of another version byte is not an address of the chain. *)
Definition foreign (a b : Z) (address : bytes) : bool :=
  match DecodeBase58 address with
  | Ok (Some (x :: _)) => negb (x =? a) && negb (x =? b)
  | _ => false
  end.

Definition burn_types : list AssetType :=
  [ROOT; SUB; MSGCHANNEL; UNIQUE; REISSUE; QUALIFIER; SUB_QUALIFIER; RESTRICTED; NULL_ADD_QUALIFIER].
Definition foreign_burns (a b : Z) (p : burn_params) : bool := forallb (fun t => foreign a b (GetBurnAddress p t)) burn_types.

Section Foreign.
Context (chain : asset_chain) (a b : Z) (Ha : is_u8 a) (Hb : is_u8 b) (Hab : a <> b).
Context (Hpub : PUBKEY_ADDRESS chain = [a]) (Hscr : SCRIPT_ADDRESS chain = [b]).

Lemma encoded_not_foreign d s :
  match d with CNoDestination => False | CKeyID id | CScriptID id => is_bytes id end ->
  EncodeDestination [a] [b] d = Ok s -> foreign a b s = false.
Proof.
  intros Hd He. destruct (address_IsValid [a] [b] (address_Set [a] [b] d)) eqn:E.
  - assert (Hp : proper_destination d) by (unfold address_IsValid in E; b2p; by destruct d).
    destruct (address_roundtrip a b Ha Hb Hab d Hp) as (s' & E' & _ & v & D & Hv). rewrite E' in He. injection He as ->.
    unfold foreign. rewrite D. destruct v as [|x v]; [destruct Hv as [Hv|Hv]; discriminate Hv|]. cbn in Hv |- *.
    destruct Hv as [[= ->]|[= ->]]; rewrite Z.eqb_refl; [done|]. by rewrite andb_false_r.
  - unfold EncodeDestination in He. rewrite E in He. by injection He as <-.
Qed.

Lemma pays_to_foreign s address : is_bytes s -> foreign a b address = true -> pays_to chain s address <> Ok true.
Proof.
  intros Hs Hf. unfold pays_to. rewrite Hpub, Hscr. destruct (ExtractDestination s) as [d|] eqn:E; [|done].
  pose proof (ExtractDestination_bytes _ _ Hs E) as Hd. destruct (negb (IsValidDestination d)); [done|].
  destruct (EncodeDestination [a] [b] d) as [str|] eqn:Ee; cbn [mbind result_bind]; [|done].
  case_bool_decide as Heq; [|done]. subst. by rewrite (encoded_not_foreign d address Hd Ee) in Hf.
Qed.

Context (Hforeign : foreign_burns a b (burns chain) = true).

Lemma burn_address_foreign t : t ∈ burn_types -> foreign a b (GetBurnAddress (burns chain) t) = true.
Proof. intros Ht. unfold foreign_burns in Hforeign. rewrite forallb_forall in Hforeign. apply Hforeign, list_elem_of_In, Ht. Qed.

Lemma CheckIssueBurnTx_foreign o t n : is_bytes (scriptPubKey o) -> CheckIssueBurnTx chain o t n <> Ok true.
Proof.
  intros Hs. unfold CheckIssueBurnTx.
  destruct t; try done; (destruct (negb _); [done|]); apply pays_to_foreign; try done; apply burn_address_foreign;
    unfold burn_types; set_solver.
Qed.

Lemma CheckReissueBurnTx_foreign o : is_bytes (scriptPubKey o) -> CheckReissueBurnTx chain o <> Ok true.
Proof.
  intros Hs. unfold CheckReissueBurnTx. destruct (negb _); [done|]. apply pays_to_foreign; [done|].
  apply (burn_address_foreign REISSUE). unfold burn_types. set_solver.
Qed.
End Foreign.

(** ** Operations pay their fee *)

Lemma found_true p outs : found p outs = Ok true -> exists o, o ∈ outs /\ p o = Ok true.
Proof.
  induction outs as [|o outs IH]; cbn [found]; [done|]. intros H. ok_step H. destruct r.
  - exists o. split; [by left|done].
  - destruct (IH H) as (o' & Hin & Hp). exists o'. split; [by right|done].
Qed.

Lemma require_Ok b e x : require b e = Ok x -> b = true.
Proof. by destruct b. Qed.

Lemma lift_Ok {A} (m : result fault A) x : lift m = Ok x -> m = Ok x.
Proof. destruct m; [by intros [= ->]|done]. Qed.

Lemma require_some_Ok {A} (m : result fault (option A)) e x : require_some m e = Ok x -> m = Ok (Some x).
Proof. destruct m as [[]|]; try done. by intros [= ->]. Qed.

(** Read the successful steps of a rule. *)
Ltac rule_facts :=
  repeat match goal with
  | H : require _ _ = Ok _ |- _ => apply require_Ok in H
  | H : lift _ = Ok _ |- _ => apply lift_Ok in H
  | H : require_some _ _ = Ok _ |- _ => apply require_some_Ok in H
  end; subst.

(** The transaction has an output that pays the fee of an operation on assets. *)
Definition pays_burn (chain : asset_chain) (tx : CTransaction) : Prop :=
  exists o, o ∈ vout tx /\ (CheckReissueBurnTx chain o = Ok true \/ exists t n, CheckIssueBurnTx chain o t n = Ok true).

Lemma pays_burn_issue chain tx t n :
  found (fun out => CheckIssueBurnTx chain out t n) (vout tx) = Ok true -> pays_burn chain tx.
Proof. intros (o & Hin & Ho)%found_true. exists o. eauto. Qed.

Ltac pays_burn_tac := intros H; ok_steps H; rule_facts; by eapply pays_burn_issue.

Lemma VerifyNewAsset_pays chain un tx : VerifyNewAsset chain un tx = Ok tt -> pays_burn chain tx.
Proof. unfold VerifyNewAsset. pays_burn_tac. Qed.
Lemma VerifyNewUniqueAsset_pays chain tx : VerifyNewUniqueAsset chain tx = Ok tt -> pays_burn chain tx.
Proof. unfold VerifyNewUniqueAsset. pays_burn_tac. Qed.
Lemma VerifyNewMsgChannelAsset_pays chain tx : VerifyNewMsgChannelAsset chain tx = Ok tt -> pays_burn chain tx.
Proof. unfold VerifyNewMsgChannelAsset. pays_burn_tac. Qed.
Lemma VerifyNewQualfierAsset_pays chain un tx : VerifyNewQualfierAsset chain un tx = Ok tt -> pays_burn chain tx.
Proof. unfold VerifyNewQualfierAsset. pays_burn_tac. Qed.
Lemma VerifyNewRestrictedAsset_pays chain un ts tx : VerifyNewRestrictedAsset chain un ts tx = Ok tt -> pays_burn chain tx.
Proof. unfold VerifyNewRestrictedAsset. pays_burn_tac. Qed.
Lemma CheckAddingTagBurnFee_pays chain tx n : CheckAddingTagBurnFee chain tx n = Ok true -> pays_burn chain tx.
Proof. apply pays_burn_issue. Qed.
Lemma VerifyReissueAsset_pays chain tx : VerifyReissueAsset chain tx = Ok tt -> pays_burn chain tx.
Proof.
  unfold VerifyReissueAsset. intros H. ok_steps H. rule_facts.
  match goal with E : found (CheckReissueBurnTx _) _ = Ok true |- _ => apply found_true in E as (o & Hin & Ho) end.
  exists o. eauto.
Qed.

#[export] Hint Resolve VerifyNewAsset_pays VerifyNewUniqueAsset_pays VerifyNewMsgChannelAsset_pays VerifyNewQualfierAsset_pays
  VerifyNewRestrictedAsset_pays CheckAddingTagBurnFee_pays VerifyReissueAsset_pays : hnb.

(** Nothing pays a fee when the burn addresses are of another chain. *)
Lemma foreign_no_burn chain a b tx :
  is_u8 a -> is_u8 b -> a <> b -> PUBKEY_ADDRESS chain = [a] -> SCRIPT_ADDRESS chain = [b] ->
  foreign_burns a b (burns chain) = true -> Forall (fun o => is_bytes (scriptPubKey o)) (vout tx) -> ~ pays_burn chain tx.
Proof.
  intros Ha Hb Hab Hp Hs Hf Ho (o & Hin & H). rewrite Forall_forall in Ho. specialize (Ho o Hin). cbn beta in Ho.
  destruct H as [H|(t & n & H)]; revert H;
    [exact (CheckReissueBurnTx_foreign chain a b Ha Hb Hab Hp Hs Hf o Ho)|exact (CheckIssueBurnTx_foreign chain a b Ha Hb Hab Hp Hs Hf o t n Ho)].
Qed.
