(* ===== verification/CheckTransaction.v ===== *)
(** * Context-free transaction checks: [CheckTransaction] of [src/consensus/tx_verify.cpp]

    The whole of [CheckTransaction]: the sizes and values, the null asset data
    (qualifier tags, freezes and verifier strings), the transfers, and the operation
    the transaction performs on assets, with the rules of [AssetRules.v].

    The theorems show what an accepted transaction satisfies, and that with the burn
    addresses of the main network no transaction creates assets or tags. *)

From S2P Require Import Prelude Params Serialize Script Transaction Standard Base58 AssetNames LibBoolEE AssetScripts TxVerify AssetRules.

(** ** State of the loop over the outputs *)

Record out_state := mkOutState {
  os_nValueOut : Z;
  setAssetTransferNames : list bytes;
  (** The keys of [mapNullDataTxCount], in order; a count above one is rejected at once. *)
  mapNullDataTxCount : list (bytes * bytes);
  setNullGlobalAssetChanges : list bytes;
  fContainsNullAssetVerifierTx : bool;
  nCountAddTagOuts : Z;
}.

Definition out_init : out_state := mkOutState 0 [] [] [] false 0.

(** The order of [std::pair] of strings. *)
Definition pair_lt (a b : bytes * bytes) : bool := bytes_lt a.1 b.1 || (bool_decide (a.1 = b.1) && bytes_lt a.2 b.2).

(** What a rule that fails leaves in the validation state. *)
Definition rejecting {A} (level : Z) (prefix : string) (r : rule A) : check A :=
  match r with
  | Ok a => Ok a
  | Err (Refused strError) => DoS level (String.append prefix strError)
  | Err (Aborted f) => Err (Halt f)
  end.
Definition reject_none {A} (level : Z) (reason : string) (m : result fault (option A)) : check A :=
  match m with Ok (Some a) => Ok a | Ok None => DoS level reason | Err f => Err (Halt f) end.

Section Check.
Context (chain : asset_chain) (uninitialised : AssetType) (txout_ToString : CTxOut -> string).
Context (fCheckDuplicateInputs fMempoolCheck fBlockCheck : bool).

(** Values. *)
Definition check_value (st : out_state) (txout : CTxOut) : check out_state :=
  _ ← reject_if (nValue txout <? 0) 100 "bad-txns-vout-negative";
  _ ← reject_if (nValue txout >? MAX_MONEY) 100 "bad-txns-vout-toolarge";
  let nValueOut := i64 (os_nValueOut st + nValue txout) in
  _ ← reject_if (negb (MoneyRange nValueOut)) 100 "bad-txns-txouttotal-toolarge";
  Ok (mkOutState nValueOut (setAssetTransferNames st) (mapNullDataTxCount st) (setNullGlobalAssetChanges st)
        (fContainsNullAssetVerifierTx st) (nCountAddTagOuts st)).

(** Null asset data. *)
Definition check_null_data (st : out_state) (txout : CTxOut) : check out_state :=
  let s := scriptPubKey txout in
  if negb (IsNullAsset s) then Ok st
  else if IsNullAssetTxDataScript s then
    let* (data, address) := reject_none 100 "bad-txns-null-asset-data-serialization"
      (AssetNullDataFromScript (PUBKEY_ADDRESS chain) (SCRIPT_ADDRESS chain) s) in
    _ ← rejecting 100 EmptyString (VerifyNullAssetDataFlag (nd_flag data));
    let pair := (nd_asset_name data, address) in
    _ ← reject_if (bool_decide (pair ∈ mapNullDataTxCount st)) 100 "bad-txns-null-data-only-one-change-per-asset-address";
    let add := IsAssetNameAQualifier (nd_asset_name data) false && (nd_flag data =? 1) in
    Ok (mkOutState (os_nValueOut st) (setAssetTransferNames st) (set_insert pair_lt pair (mapNullDataTxCount st))
          (setNullGlobalAssetChanges st) (fContainsNullAssetVerifierTx st)
          (if add then nCountAddTagOuts st + 1 else nCountAddTagOuts st))
  else if IsNullGlobalRestrictionAssetTxDataScript s then
    data ← reject_none 100 "bad-txns-null-global-asset-data-serialization" (Ok (GlobalAssetNullDataFromScript s));
    _ ← rejecting 100 EmptyString (VerifyNullAssetDataFlag (nd_flag data));
    _ ← reject_if (bool_decide (nd_asset_name data ∈ setNullGlobalAssetChanges st)) 100
          "bad-txns-null-data-only-one-global-change-per-asset-name";
    Ok (mkOutState (os_nValueOut st) (setAssetTransferNames st) (mapNullDataTxCount st)
          (set_insert bytes_lt (nd_asset_name data) (setNullGlobalAssetChanges st)) (fContainsNullAssetVerifierTx st) (nCountAddTagOuts st))
  else if IsNullAssetVerifierTxDataScript s then
    _ ← rejecting 100 EmptyString (CheckVerifierAssetTxOut txout);
    _ ← reject_if (fContainsNullAssetVerifierTx st) 100 "bad-txns-null-data-only-one-verifier-per-tx";
    Ok (mkOutState (os_nValueOut st) (setAssetTransferNames st) (mapNullDataTxCount st) (setNullGlobalAssetChanges st) true (nCountAddTagOuts st))
  else Ok st.

(** The amount a transfer may carry, by the type of its name. *)
Definition check_transfer_amount (assetType : AssetType) (transfer : CAssetTransfer) : check unit :=
  _ ← reject_if (IsAssetNameAnOwner (tr_strName transfer) && negb (tr_nAmount transfer =? OWNER_ASSET_AMOUNT)) 100
        "bad-txns-transfer-owner-amount-was-not-1";
  _ ← reject_if (bool_decide (assetType = UNIQUE) && negb (tr_nAmount transfer =? UNIQUE_ASSET_AMOUNT)) 100
        "bad-txns-transfer-unique-amount-was-not-1";
  reject_if (bool_decide (assetType = QUALIFIER \/ assetType = SUB_QUALIFIER) &&
             ((tr_nAmount transfer <? QUALIFIER_ASSET_MIN_AMOUNT) || (tr_nAmount transfer >? QUALIFIER_ASSET_MAX_AMOUNT))) 100
    "bad-txns-transfer-qualifier-amount-must be between 1 - 100".

(** Asset outputs. *)
Definition check_asset_out (st : out_state) (txout : CTxOut) : check out_state :=
  match IsAssetScript (scriptPubKey txout) with
  | None => Ok st
  | Some (TX_TRANSFER_ASSET, _, _) =>
    let* (transfer, _) := reject_none 100 "bad-txns-transfer-asset-bad-deserialize"
      (TransferAssetFromScript (PUBKEY_ADDRESS chain) (SCRIPT_ADDRESS chain) (AreTransferScriptsSizeDeployed chain) (scriptPubKey txout)) in
    assetType ← match IsAssetNameValid (tr_strName transfer) with
                | Ok t => Ok t
                | Err _ => DoS 100 "bad-txns-transfer-asset-name-invalid"
                end;
    _ ← check_transfer_amount assetType transfer;
    _ ← reject_if (negb (nValue txout =? 0)) 100 "bad-txns-asset-transfer-amount-isn't-zero";
    Ok (mkOutState (os_nValueOut st) (set_insert bytes_lt (tr_strName transfer) (setAssetTransferNames st)) (mapNullDataTxCount st)
          (setNullGlobalAssetChanges st) (fContainsNullAssetVerifierTx st) (nCountAddTagOuts st))
  | Some (TX_NEW_ASSET, _, _) =>
    _ ← reject_if (negb (nValue txout =? 0)) 100 "bad-txns-asset-issued-amount-isn't-zero"; Ok st
  | Some (TX_REISSUE_ASSET, _, _) =>
    _ ← reject_if (AreEnforcedValuesDeployed chain && fBlockCheck && negb (nValue txout =? 0)) 0 "bad-txns-asset-reissued-amount-isn't-zero";
    _ ← reject_if (fMempoolCheck && negb (nValue txout =? 0)) 0 "bad-mempool-txns-asset-reissued-amount-isn't-zero";
    Ok st
  | Some _ => DoS 0 "bad-asset-type-not-any-of-the-main-three"
  end.

Definition check_out (st : out_state) (txout : CTxOut) : check out_state :=
  st ← check_value st txout; st ← check_null_data st txout; check_asset_out st txout.

Fixpoint check_outs (st : out_state) (outs : list CTxOut) : check out_state :=
  match outs with [] => Ok st | o :: outs => st ← check_out st o; check_outs st outs end.

(** The tags and freezes are backed by a transfer; an empty name has no first character. *)
Fixpoint check_null_entries (names : list bytes) (entries : list (bytes * bytes)) : check unit :=
  match entries with
  | [] => Ok tt
  | (name, _) :: entries =>
    c ← halting (match name with [] => Err OutOfBounds | c :: _ => Ok c end);
    _ ← (if c =? 36 then
           reject_if (negb (bool_decide (drop 1 name ++ OWNER_TAG ∈ names))) 100
             "bad-txns-tx-contains-restricted-asset-null-tx-without-asset-transfer"
         else
           reject_if (negb (bool_decide (name ∈ names))) 100
             "bad-txns-tx-contains-qualifier-asset-null-tx-without-asset-transfer");
    check_null_entries names entries
  end.

Fixpoint check_global_entries (names globals : list bytes) : check unit :=
  match globals with
  | [] => Ok tt
  | name :: globals =>
    _ ← reject_if (bool_decide (name = [])) 100 "bad-txns-tx-contains-global-asset-null-tx-with-null-asset-name";
    _ ← reject_if (negb (bool_decide (drop 1 name ++ OWNER_TAG ∈ names))) 100
          "bad-txns-tx-contains-global-asset-null-tx-without-asset-transfer";
    check_global_entries names globals
  end.

Fixpoint check_inputs_distinct (seen : list COutPoint) (ins : list CTxIn) : check unit :=
  match ins with
  | [] => Ok tt
  | i :: ins =>
    _ ← reject_if (bool_decide (prevout i ∈ seen)) 100 "bad-txns-inputs-duplicate";
    check_inputs_distinct (prevout i :: seen) ins
  end.

Definition check_coinbase (tx : CTransaction) : check unit :=
  if IsCoinBase tx then
    script ← halting (match vin tx with i :: _ => Ok (scriptSig i) | [] => Err OutOfBounds end);
    _ ← reject_if ((length script <? 2)%nat || (100 <? length script)%nat) 100 "bad-cb-length";
    reject_if (AreCoinbaseCheckAssetsDeployed chain &&
               existsb (fun o => bool_decide (is_Some (IsAssetScript (scriptPubKey o))) || IsNullAsset (scriptPubKey o)) (vout tx)) 0
      "bad-txns-coinbase-contains-asset-txes"
  else reject_if (existsb (fun i => outpoint_IsNull (prevout i)) (vin tx)) 10 "bad-txns-prevout-null".

(** The assets of a transaction that issues unique assets. *)
Fixpoint check_unique_outs (outs : list CTxOut) : check unit :=
  match outs with
  | [] => Ok tt
  | o :: outs =>
    let* b := halting (IsScriptNewUniqueAsset (PUBKEY_ADDRESS chain) (SCRIPT_ADDRESS chain) (scriptPubKey o)) in
    if b then
      let* (asset, _) := reject_none 100 "bad-txns-check-transaction-issue-unique-asset-serialization"
        (AssetFromScript (PUBKEY_ADDRESS chain) (SCRIPT_ADDRESS chain) (scriptPubKey o)) in
      _ ← rejecting 100 "bad-txns-issue-unique" (CheckNewAsset asset);
      check_unique_outs outs
    else check_unique_outs outs
  end.

(** No operation: the asset outputs are transfers. *)
Fixpoint check_plain_outs (outs : list CTxOut) : check unit :=
  match outs with
  | [] => Ok tt
  | o :: outs =>
    _ ← match IsAssetScript (scriptPubKey o) with
        | Some (nType, _, _) => reject_if (negb (bool_decide (nType = TX_TRANSFER_ASSET))) 100 "bad-txns-bad-asset-transaction"
        | None =>
          reject_if (negb (Find (scriptPubKey o) OP_HNB_ASSET =? 0) && negb (at_ (scriptPubKey o) 0 =? OP_HNB_ASSET)) 100
            "bad-txns-op-rvn-asset-not-in-right-script-location"
        end;
    check_plain_outs outs
  end.

(** The operation, and whether it is an issue or a reissue of a restricted asset. *)
Definition check_operation (tx : CTransaction) : check (bool * bool) :=
  let* is_new := halting (tx_IsNewAsset chain tx) in
  if is_new then
    _ ← rejecting 100 EmptyString (VerifyNewAsset chain uninitialised tx);
    let* (asset, strAddress) := reject_none 100 "bad-txns-issue-asset-from-transaction" (AssetFromTransaction chain tx) in
    _ ← rejecting 100 EmptyString (IsNewOwnerTxValid chain tx (na_strName asset) strAddress);
    _ ← rejecting 100 EmptyString (CheckNewAsset asset);
    Ok (false, false)
  else
  let* is_reissue := halting (tx_IsReissueAsset tx) in
  if is_reissue then
    _ ← rejecting 100 EmptyString (VerifyReissueAsset chain tx);
    let* (reissue, _) := reject_none 100 "bad-txns-reissue-asset" (ReissueAssetFromTransaction chain tx) in
    _ ← rejecting 100 EmptyString (CheckReissueAsset (fTestNet chain) reissue);
    if decide (name_type uninitialised (re_strName reissue) = RESTRICTED) then
      match GetVerifierStringFromTx txout_ToString tx with
      | VerifierError strError => DoS 100 (String.append "bad-txns-reissue-restricted-verifier-" strError)
      | _ => Ok (false, true)
      end
    else Ok (false, false)
  else
  let* is_unique := halting (tx_IsNewUniqueAsset chain tx) in
  if is_unique then
    _ ← rejecting 100 EmptyString (VerifyNewUniqueAsset chain tx);
    _ ← check_unique_outs (vout tx);
    Ok (false, false)
  else
  let* is_channel := halting (tx_IsNewMsgChannelAsset chain tx) in
  if is_channel then
    _ ← rejecting 100 EmptyString (VerifyNewMsgChannelAsset chain tx);
    let* (asset, _) := reject_none 100 "bad-txns-issue-msgchannel-from-transaction" (MsgChannelAssetFromTransaction chain tx) in
    _ ← rejecting 100 "bad-txns-issue-msgchannel" (CheckNewAsset asset);
    Ok (false, false)
  else
  let* is_qualifier := halting (tx_IsNewQualifierAsset chain tx) in
  if is_qualifier then
    _ ← rejecting 100 EmptyString (VerifyNewQualfierAsset chain uninitialised tx);
    let* (asset, _) := reject_none 100 "bad-txns-issue-qualifier-from-transaction" (QualifierAssetFromTransaction chain tx) in
    _ ← rejecting 100 "bad-txns-issue-qualfier" (CheckNewAsset asset);
    Ok (false, false)
  else
  let* is_restricted := halting (tx_IsNewRestrictedAsset chain tx) in
  if is_restricted then
    _ ← rejecting 100 EmptyString (VerifyNewRestrictedAsset chain uninitialised txout_ToString tx);
    let* (asset, _) := reject_none 100 "bad-txns-issue-restricted-from-transaction" (RestrictedAssetFromTransaction chain tx) in
    _ ← rejecting 100 "bad-txns-issue-restricted" (CheckNewAsset asset);
    let search := GetVerifierStringFromTx txout_ToString tx in
    _ ← reject_if (negb (verifier_found search)) 100 (String.append "bad-txns-issue-restricted-verifier-search-" (verifier_error search));
    Ok (true, false)
  else
    _ ← check_plain_outs (vout tx);
    Ok (false, false).

Definition CheckTransaction (tx : CTransaction) : check unit :=
  _ ← reject_if (bool_decide (vin tx = [])) 10 "bad-txns-vin-empty";
  _ ← reject_if (bool_decide (vout tx = [])) 10 "bad-txns-vout-empty";
  _ ← reject_if (Z.of_nat (length (SerializeTransaction false tx)) * WITNESS_SCALE_FACTOR >? GetMaxBlockWeight) 100 "bad-txns-oversize";
  st ← check_outs out_init (vout tx);
  _ ← (if nCountAddTagOuts st =? 0 then Ok tt
       else
         paid ← halting (CheckAddingTagBurnFee chain tx (nCountAddTagOuts st));
         reject_if (negb paid) 100 "bad-txns-tx-doesn't-contain-required-burn-fee-for-adding-tags");
  _ ← check_null_entries (setAssetTransferNames st) (mapNullDataTxCount st);
  _ ← check_global_entries (setAssetTransferNames st) (setNullGlobalAssetChanges st);
  _ ← (if fCheckDuplicateInputs then check_inputs_distinct [] (vin tx) else Ok tt);
  _ ← check_coinbase tx;
  let* (fContainsNewRestrictedAsset, fContainsRestrictedAssetReissue) := check_operation tx in
  _ ← reject_if (fContainsNullAssetVerifierTx st && negb fContainsRestrictedAssetReissue && negb fContainsNewRestrictedAsset) 100
        "bad-txns-tx-cointains-verifier-string-without-restricted-asset-issuance-or-reissuance";
  reject_if (fContainsNewRestrictedAsset && negb (fContainsNullAssetVerifierTx st)) 100
    "bad-txns-tx-cointains-restricted-asset-issuance-without-verifier".
End Check.

(** ** What the outputs say *)

Section Outputs.
Context (chain : asset_chain) (fMempoolCheck fBlockCheck : bool).
Abbreviation transfer_of o :=
  (TransferAssetFromScript (PUBKEY_ADDRESS chain) (SCRIPT_ADDRESS chain) (AreTransferScriptsSizeDeployed chain) (scriptPubKey o)).

(** The asset an output transfers. *)
Definition transfer_name (o : CTxOut) : option bytes :=
  match IsAssetScript (scriptPubKey o) with
  | Some (TX_TRANSFER_ASSET, _, _) => match transfer_of o with Ok (Some (t, _)) => Some (tr_strName t) | _ => None end
  | _ => None
  end.

(** The tag or freeze of an address, and the global freeze, of an output. *)
Definition null_data (o : CTxOut) : option (CNullAssetTxData * bytes) :=
  match AssetNullDataFromScript (PUBKEY_ADDRESS chain) (SCRIPT_ADDRESS chain) (scriptPubKey o) with Ok r => r | Err _ => None end.
Definition null_pair (o : CTxOut) : option (bytes * bytes) := (fun '(d, a) => (nd_asset_name d, a)) <$> null_data o.
Definition global_name (o : CTxOut) : option bytes := nd_asset_name <$> GlobalAssetNullDataFromScript (scriptPubKey o).
Definition adds_tag (o : CTxOut) : bool :=
  match null_data o with Some (d, _) => IsAssetNameAQualifier (nd_asset_name d) false && (nd_flag d =? 1) | None => false end.
Definition verifiers (outs : list CTxOut) : nat :=
  length (List.filter (fun o => IsNullAssetVerifierTxDataScript (scriptPubKey o)) outs).

(** An output that only moves assets. *)
Definition only_transfers (o : CTxOut) : Prop :=
  match IsAssetScript (scriptPubKey o) with Some (t, _, _) => t = TX_TRANSFER_ASSET | None => True end.

(** The rules on one output. *)
Definition amount_ok (t : CAssetTransfer) : Prop :=
  exists ty, IsAssetNameValid (tr_strName t) = Ok ty
  /\ (IsAssetNameAnOwner (tr_strName t) = true \/ ty = UNIQUE -> tr_nAmount t = COIN)
  /\ (ty = QUALIFIER \/ ty = SUB_QUALIFIER -> COIN <= tr_nAmount t <= 10 * COIN).

Definition out_ok (o : CTxOut) : Prop :=
  0 <= nValue o <= MAX_MONEY
  /\ match IsAssetScript (scriptPubKey o) with
     | None => True
     | Some (TX_TRANSFER_ASSET, _, _) => nValue o = 0 /\ exists t a, transfer_of o = Ok (Some (t, a)) /\ amount_ok t
     | Some (TX_NEW_ASSET, _, _) => nValue o = 0
     | Some (TX_REISSUE_ASSET, _, _) => fMempoolCheck = true \/ AreEnforcedValuesDeployed chain = true /\ fBlockCheck = true -> nValue o = 0
     | Some _ => False
     end
  /\ (IsNullAssetTxDataScript (scriptPubKey o) = true -> exists d a, null_data o = Some (d, a) /\ (nd_flag d = 0 \/ nd_flag d = 1))
  /\ (IsNullGlobalRestrictionAssetTxDataScript (scriptPubKey o) = true ->
        exists d, GlobalAssetNullDataFromScript (scriptPubKey o) = Some d /\ (nd_flag d = 0 \/ nd_flag d = 1)).

(** ** Steps of the loop *)

Lemma reject_if_Ok b l e x : reject_if b l e = Ok x -> b = false.
Proof. by destruct b. Qed.
Lemma rejecting_Ok {A} l p (r : rule A) x : rejecting l p r = Ok x -> r = Ok x.
Proof. destruct r as [|[]]; [by intros [= ->]|done|done]. Qed.
Lemma reject_none_Ok {A} l e (m : result fault (option A)) x : reject_none l e m = Ok x -> m = Ok (Some x).
Proof. destruct m as [[]|]; try done. by intros [= ->]. Qed.
Lemma halting_Ok {A} (m : result fault A) x : halting m = Ok x -> m = Ok x.
Proof. destruct m; [by intros [= ->]|done]. Qed.

(** Read the successful steps of a check. *)
Ltac check_facts :=
  repeat match goal with
  | H : reject_if _ _ _ = Ok _ |- _ => apply reject_if_Ok in H
  | H : rejecting _ _ _ = Ok _ |- _ => apply rejecting_Ok in H
  | H : reject_none _ _ _ = Ok _ |- _ => apply reject_none_Ok in H
  | H : halting _ = Ok _ |- _ => apply halting_Ok in H
  end; b2p.

Lemma set_insert_elem {A} `{EqDecision A} (lt : A -> A -> bool) x y l : x ∈ set_insert lt y l <-> x = y \/ x ∈ l.
Proof.
  induction l as [|z l IH]; cbn [set_insert]; [by rewrite list_elem_of_singleton, elem_of_nil; tauto|].
  destruct (decide (y = z)) as [->|]; [rewrite elem_of_cons; tauto|]. destruct (lt y z); rewrite !elem_of_cons, ?IH; tauto.
Qed.

(** What each of the three steps does to the state. *)
Lemma check_value_spec st o st' :
  check_value st o = Ok st' -> 0 <= os_nValueOut st <= MAX_MONEY ->
  0 <= nValue o <= MAX_MONEY /\ 0 <= os_nValueOut st' <= MAX_MONEY
  /\ st' = mkOutState (os_nValueOut st + nValue o) (setAssetTransferNames st) (mapNullDataTxCount st)
       (setNullGlobalAssetChanges st) (fContainsNullAssetVerifierTx st) (nCountAddTagOuts st).
Proof.
  unfold check_value. intros H Hst. ok_steps H. check_facts. injection H as <-.
  assert (Hi : i64 (os_nValueOut st + nValue o) = os_nValueOut st + nValue o).
  { apply i64_id. unfold MAX_MONEY, COIN in *. ranges. lia. }
  rewrite Hi in *. cbn [os_nValueOut]. unfold MoneyRange in *. b2p. splits; try done; lia.
Qed.

(** The kinds of null asset data exclude each other. *)
Lemma null_kinds s :
  (IsNullAssetTxDataScript s = true -> IsNullGlobalRestrictionAssetTxDataScript s = false /\ IsNullAssetVerifierTxDataScript s = false)
  /\ (IsNullGlobalRestrictionAssetTxDataScript s = true -> IsNullAssetVerifierTxDataScript s = false).
Proof.
  unfold IsNullAssetTxDataScript, IsNullGlobalRestrictionAssetTxDataScript, IsNullAssetVerifierTxDataScript.
  split; intros H; b2p.
  - replace (at_ s 1 =? OP_RESERVED) with false; [by rewrite !andb_false_r|]. symmetry. apply Z.eqb_neq.
    change (opcode_value OP_RESERVED) with 80. lia.
  - replace (at_ s 2 =? OP_RESERVED) with true by (symmetry; by apply Z.eqb_eq). by rewrite !andb_false_r.
Qed.

Lemma null_data_none o : IsNullAssetTxDataScript (scriptPubKey o) = false -> null_data o = None.
Proof. unfold null_data, AssetNullDataFromScript. by intros ->. Qed.
Lemma global_none o : IsNullGlobalRestrictionAssetTxDataScript (scriptPubKey o) = false -> GlobalAssetNullDataFromScript (scriptPubKey o) = None.
Proof. unfold GlobalAssetNullDataFromScript. by intros ->. Qed.

(** The null data of an output, recorded in the state. *)
Definition null_step (st st' : out_state) (o : CTxOut) : Prop :=
  os_nValueOut st' = os_nValueOut st /\ setAssetTransferNames st' = setAssetTransferNames st
  /\ (forall p, p ∈ mapNullDataTxCount st' <-> p ∈ mapNullDataTxCount st \/ null_pair o = Some p)
  /\ (forall p, null_pair o = Some p -> p ∉ mapNullDataTxCount st)
  /\ (forall n, n ∈ setNullGlobalAssetChanges st' <-> n ∈ setNullGlobalAssetChanges st \/ global_name o = Some n)
  /\ (forall n, global_name o = Some n -> n ∉ setNullGlobalAssetChanges st)
  /\ fContainsNullAssetVerifierTx st' = fContainsNullAssetVerifierTx st || IsNullAssetVerifierTxDataScript (scriptPubKey o)
  /\ (IsNullAssetVerifierTxDataScript (scriptPubKey o) = true -> fContainsNullAssetVerifierTx st = false)
  /\ nCountAddTagOuts st' = nCountAddTagOuts st + (if adds_tag o then 1 else 0)
  /\ (IsNullAssetTxDataScript (scriptPubKey o) = true -> exists d a, null_data o = Some (d, a) /\ (nd_flag d = 0 \/ nd_flag d = 1))
  /\ (IsNullGlobalRestrictionAssetTxDataScript (scriptPubKey o) = true ->
        exists d, GlobalAssetNullDataFromScript (scriptPubKey o) = Some d /\ (nd_flag d = 0 \/ nd_flag d = 1)).

Lemma flag_ok f x : VerifyNullAssetDataFlag f = Ok x -> f = 0 \/ f = 1.
Proof.
  unfold VerifyNullAssetDataFlag, require. destruct (Z.eqb_spec f 0), (Z.eqb_spec f 1); try done; auto.
Qed.

Ltac null_step_tac := try (intros; rewrite ?set_insert_elem; simplify_eq/=; intuition (simplify_eq/=; auto)).

Lemma check_null_data_spec st o st' : check_null_data chain st o = Ok st' -> null_step st st' o.
Proof.
  unfold check_null_data, IsNullAsset, null_step, null_pair, global_name, adds_tag. cbv zeta.
  destruct (null_kinds (scriptPubKey o)) as [K1 K2].
  pose proof (null_data_none o) as N1. pose proof (global_none o) as N2.
  destruct (IsNullAssetTxDataScript (scriptPubKey o)) eqn:E1.
  - destruct (K1 eq_refl) as [K3 ->]. rewrite (N2 K3), K3. cbn [orb negb]. intros H. ok_steps H. check_facts. injection H as <-.
    apply flag_ok in E0. unfold null_data in *. rewrite E in *. cbn.
    apply bool_decide_eq_false in E2. rewrite orb_false_r.
    clear K1 K2 N1 N2. splits; null_step_tac; try (by do 2 eexists; eauto); destruct (_ && _); lia.
  - rewrite (N1 eq_refl).
    destruct (IsNullGlobalRestrictionAssetTxDataScript (scriptPubKey o)) eqn:E2.
    + rewrite (K2 eq_refl). cbn [orb negb]. intros H. ok_steps H. check_facts. injection H as <-. injection E as Eg. rewrite Eg.
      apply flag_ok in E0. apply bool_decide_eq_false in E3. cbn. rewrite orb_false_r, Z.add_0_r.
      clear K1 K2 N1 N2. splits; null_step_tac; eauto.
    + rewrite (N2 eq_refl).
      destruct (IsNullAssetVerifierTxDataScript (scriptPubKey o)) eqn:E3; cbn [orb negb].
      * intros H. ok_steps H. check_facts. injection H as <-. cbn. rewrite E0, Z.add_0_r. clear K1 K2 N1 N2. splits; null_step_tac.
      * intros [= <-]. cbn. rewrite orb_false_r, Z.add_0_r. clear K1 K2 N1 N2. splits; null_step_tac.
Qed.

Lemma check_transfer_amount_spec ty t x :
  IsAssetNameValid (tr_strName t) = Ok ty -> check_transfer_amount ty t = Ok x -> amount_ok t.
Proof.
  unfold check_transfer_amount. intros Hn H. ok_steps H. check_facts. exists ty.
  unfold OWNER_ASSET_AMOUNT, UNIQUE_ASSET_AMOUNT, QUALIFIER_ASSET_MIN_AMOUNT, QUALIFIER_ASSET_MAX_AMOUNT, COIN in *. splits; [done|..].
  - intros [Ho| ->]; [rewrite Ho in E|rewrite bool_decide_true in E0 by done]; cbn [andb] in *; b2p; lia.
  - intros Hq. rewrite bool_decide_true in H by done. cbn [andb] in H. b2p. lia.
Qed.

(** The transfer of an output, recorded in the state. *)
Lemma check_asset_out_spec st o st' :
  check_asset_out chain fMempoolCheck fBlockCheck st o = Ok st' ->
  (forall n, n ∈ setAssetTransferNames st' <-> n ∈ setAssetTransferNames st \/ transfer_name o = Some n)
  /\ st' = mkOutState (os_nValueOut st) (setAssetTransferNames st') (mapNullDataTxCount st) (setNullGlobalAssetChanges st)
       (fContainsNullAssetVerifierTx st) (nCountAddTagOuts st)
  /\ match IsAssetScript (scriptPubKey o) with
     | None => True
     | Some (TX_TRANSFER_ASSET, _, _) => nValue o = 0 /\ exists t a, transfer_of o = Ok (Some (t, a)) /\ amount_ok t
     | Some (TX_NEW_ASSET, _, _) => nValue o = 0
     | Some (TX_REISSUE_ASSET, _, _) => fMempoolCheck = true \/ AreEnforcedValuesDeployed chain = true /\ fBlockCheck = true -> nValue o = 0
     | Some _ => False
     end.
Proof.
  unfold check_asset_out, transfer_name. destruct (IsAssetScript (scriptPubKey o)) as [[[t w] idx]|].
  2: { intros [= <-]. destruct st. splits; try done. naive_solver. }
  destruct t; try done; intros H; ok_steps H; check_facts.
  - injection H as <-. destruct st. splits; try done. naive_solver.
  - injection H as <-. destruct st. splits; try done; [naive_solver|].
    intros [Hm|[Hm1 Hm2]]; destruct (Z.eqb_spec (nValue o) 0) as [|Hv]; try done.
    + by rewrite Hm in *.
    + by rewrite Hm1, Hm2 in *.
  - injection H as <-. rewrite E. splits; try done; [intros n; cbn; rewrite set_insert_elem; naive_solver|].
    do 2 eexists. split; [done|]. destruct (IsAssetNameValid _) eqn:En; [|done]. injection E0 as ->.
    by eapply check_transfer_amount_spec.
Qed.

(** ** The loop over the outputs *)

Lemma elem_of_omap_cons {A B} (f : A -> option B) x l y : y ∈ omap f (x :: l) <-> f x = Some y \/ y ∈ omap f l.
Proof. cbn. destruct (f x); [rewrite elem_of_cons|]; naive_solver. Qed.

Lemma NoDup_omap_cons {A B} (f : A -> option B) x l :
  (forall y, f x = Some y -> y ∉ omap f l) -> NoDup (omap f l) -> NoDup (omap f (x :: l)).
Proof. intros H Hl. cbn. destruct (f x) as [y|]; [|done]. constructor; [by apply H|done]. Qed.

(** The keys of the outputs are new to the set of the state, and recorded there. *)
Definition recorded {B} (f : CTxOut -> option B) (outs : list CTxOut) (before after : list B) : Prop :=
  NoDup (omap f outs) /\ (forall y, y ∈ omap f outs -> y ∉ before) /\ (forall y, y ∈ after <-> y ∈ before \/ y ∈ omap f outs).

Lemma recorded_cons {B} (f : CTxOut -> option B) o outs before mid after :
  (forall y, y ∈ mid <-> y ∈ before \/ f o = Some y) -> (forall y, f o = Some y -> y ∉ before) ->
  recorded f outs mid after -> recorded f (o :: outs) before after.
Proof.
  intros Hm Hn (N & D & R). unfold recorded. splits.
  - apply NoDup_omap_cons; [|done]. intros y Hy Hin. apply (D y Hin), Hm. by right.
  - intros y [Hy|Hy]%elem_of_omap_cons; [by apply Hn|]. intros Hb. apply (D y Hy), Hm. by left.
  - intros y. rewrite R, Hm, elem_of_omap_cons. tauto.
Qed.

Lemma check_outs_spec outs : forall st st',
  check_outs chain fMempoolCheck fBlockCheck st outs = Ok st' -> 0 <= os_nValueOut st <= MAX_MONEY ->
  Forall out_ok outs
  /\ os_nValueOut st' = os_nValueOut st + sum_Z (nValue <$> outs) /\ 0 <= os_nValueOut st' <= MAX_MONEY
  /\ (forall n, n ∈ setAssetTransferNames st' <-> n ∈ setAssetTransferNames st \/ n ∈ omap transfer_name outs)
  /\ recorded null_pair outs (mapNullDataTxCount st) (mapNullDataTxCount st')
  /\ recorded global_name outs (setNullGlobalAssetChanges st) (setNullGlobalAssetChanges st')
  /\ ((if fContainsNullAssetVerifierTx st then 1 else 0) + verifiers outs = if fContainsNullAssetVerifierTx st' then 1 else 0)%nat
  /\ nCountAddTagOuts st' = nCountAddTagOuts st + Z.of_nat (length (List.filter adds_tag outs)).
Proof.
  induction outs as [|o outs IH]; intros st st' H Hst; cbn [check_outs] in H.
  { injection H as <-. cbn. unfold recorded. cbn. splits; try done; try lia; try (constructor); intros; rewrite ?elem_of_nil in *; tauto || lia. }
  ok_step H. unfold check_out in E. ok_step E. ok_step E.
  destruct (check_value_spec _ _ _ E0 Hst) as (V1 & V2 & ->).
  destruct (check_null_data_spec _ _ _ E1) as (N1 & N2 & N3 & N4 & N5 & N6 & N7 & N8 & N9 & N10 & N11).
  destruct (check_asset_out_spec _ _ _ E) as (A1 & A2 & A3).
  rewrite A2 in H. destruct (IH _ _ H) as (F & S1 & S2 & T & R1 & R2 & W & C); [cbn; rewrite N1; exact V2|].
  cbn [os_nValueOut setAssetTransferNames mapNullDataTxCount setNullGlobalAssetChanges fContainsNullAssetVerifierTx nCountAddTagOuts] in *.
  splits; try done.
  - constructor; [exact (conj V1 (conj A3 (conj N10 N11)))|done].
  - rewrite S1, N1. change (sum_Z (nValue <$> o :: outs)) with (nValue o + sum_Z (nValue <$> outs)). lia.
  - apply S2.
  - apply S2.
  - intros n. rewrite T, A1, N2, elem_of_omap_cons. tauto.
  - by eapply recorded_cons.
  - by eapply recorded_cons.
  - rewrite <- W, N7. unfold verifiers. cbn. destruct (IsNullAssetVerifierTxDataScript _); [rewrite N8 by done|]; cbn; [lia|].
    by rewrite orb_false_r.
  - rewrite C, N9. cbn. destruct (adds_tag o); cbn; lia.
Qed.
(** ** The rest of the checks *)

(** The token whose transfer must back a tag or freeze: the owner token of a restricted
    asset, and the qualifier itself. *)
Definition backing_token (name : bytes) : bytes := if at_ name 0 =? 36 then drop 1 name ++ OWNER_TAG else name.

Lemma check_null_entries_spec names entries x :
  check_null_entries names entries = Ok x -> Forall (fun '(n, _) => n <> [] /\ backing_token n ∈ names) entries.
Proof.
  induction entries as [|[n a] entries IH]; cbn [check_null_entries]; [constructor|]. intros H. ok_steps H. check_facts.
  destruct n as [|c n]; [done|]. injection E as <-. constructor; [|by apply IH]. split; [done|].
  unfold backing_token. change (at_ (c :: n) 0) with c. destruct (c =? 36); check_facts; by apply bool_decide_eq_true in E0.
Qed.

Lemma check_global_entries_spec names globals x :
  check_global_entries names globals = Ok x -> Forall (fun n => n <> [] /\ drop 1 n ++ OWNER_TAG ∈ names) globals.
Proof.
  induction globals as [|n globals IH]; cbn [check_global_entries]; [constructor|]. intros H. ok_steps H. check_facts.
  apply bool_decide_eq_false in E. apply bool_decide_eq_true in E0. constructor; [done|by apply IH].
Qed.

Lemma check_inputs_distinct_spec ins : forall seen x,
  check_inputs_distinct seen ins = Ok x -> NoDup (prevout <$> ins) /\ forall i, i ∈ ins -> prevout i ∉ seen.
Proof.
  induction ins as [|i ins IH]; intros seen x; cbn [check_inputs_distinct].
  { intros _. split; [constructor|]. by intros i []%elem_of_nil. }
  intros H. ok_steps H. check_facts. apply bool_decide_eq_false in E. destruct (IH _ _ H) as [N D]. split.
  - cbn. constructor; [|done]. intros (j & Hj & Hin)%list_elem_of_fmap. apply (D j Hin). rewrite Hj. by left.
  - intros j [->|Hj]%elem_of_cons; [done|]. intros Hs. apply (D j Hj). by right.
Qed.

Lemma check_plain_outs_spec outs x : check_plain_outs outs = Ok x -> Forall only_transfers outs.
Proof.
  induction outs as [|o outs IH]; cbn [check_plain_outs]; [constructor|]. intros H. ok_steps H. constructor; [|by apply IH].
  unfold only_transfers. destruct (IsAssetScript (scriptPubKey o)) as [[[t w] idx]|]; [|done]. check_facts.
  by apply bool_decide_eq_true in E.
Qed.

(** A restricted asset is issued, or some asset reissued, by the last output. *)
Definition restricted_operation (tx : CTransaction) (r : bool * bool) : Prop :=
  (r.1 = true -> tx_IsNewRestrictedAsset chain tx = Ok true) /\ (r.2 = true -> tx_IsReissueAsset tx = Ok true).

Ltac operation_case H :=
  ok_steps H; check_facts; injection H as <-;
  repeat match goal with u : unit |- _ => destruct u end; split; [done|]; eauto with hnb.

Lemma check_operation_spec un ts tx r :
  check_operation chain un ts tx = Ok r -> restricted_operation tx r /\ (pays_burn chain tx \/ Forall only_transfers (vout tx)).
Proof.
  unfold check_operation, restricted_operation. intros H. ok_step H. check_facts. destruct r0.
  { operation_case H. }
  ok_step H. check_facts. destruct r0.
  { ok_step H. ok_steps H. check_facts. destruct r0.
    split; [|eauto with hnb]. destruct (decide _); [destruct (GetVerifierStringFromTx _ _); try done|]; by injection H as <-. }
  ok_step H. check_facts. destruct r0.
  { operation_case H. }
  ok_step H. check_facts. destruct r0.
  { operation_case H. }
  ok_step H. check_facts. destruct r0.
  { operation_case H. }
  ok_step H. check_facts. destruct r0.
  { operation_case H. }
  ok_steps H. injection H as <-. split; [done|]. right. by eapply check_plain_outs_spec.
Qed.
End Outputs.

(** ** What an accepted transaction satisfies *)

Record tx_sound (chain : asset_chain) (fCheckDuplicateInputs fMempoolCheck fBlockCheck : bool) (tx : CTransaction) : Prop := mkSound {
  ts_nonempty : vin tx <> [] /\ vout tx <> [];
  ts_size : Z.of_nat (length (SerializeTransaction false tx)) * 4 <= 8000000;
  ts_outs : Forall (out_ok chain fMempoolCheck fBlockCheck) (vout tx);
  ts_value : 0 <= sum_Z (nValue <$> vout tx) <= MAX_MONEY;
  ts_inputs : fCheckDuplicateInputs = true -> NoDup (prevout <$> vin tx);
  ts_coinbase : if IsCoinBase tx then Forall (fun i => (2 <= length (scriptSig i) <= 100)%nat) (vin tx)
                else Forall (fun i => outpoint_IsNull (prevout i) = false) (vin tx);
  (** One tag or freeze for a name and address, backed by the transfer of its token. *)
  ts_null : NoDup (omap (null_pair chain) (vout tx))
    /\ Forall (fun '(n, _) => n <> [] /\ backing_token n ∈ omap (transfer_name chain) (vout tx)) (omap (null_pair chain) (vout tx));
  ts_global : NoDup (omap global_name (vout tx))
    /\ Forall (fun n => n <> [] /\ drop 1 n ++ OWNER_TAG ∈ omap (transfer_name chain) (vout tx)) (omap global_name (vout tx));
  (** At most one verifier string, only where a restricted asset is issued or an asset reissued. *)
  ts_verifier : (verifiers (vout tx) = 0 \/ verifiers (vout tx) = 1 /\
    (tx_IsNewRestrictedAsset chain tx = Ok true \/ tx_IsReissueAsset tx = Ok true))%nat;
  (** Assets are created, and addresses tagged, for a fee only. *)
  ts_fee : pays_burn chain tx \/ Forall (fun o => only_transfers o /\ adds_tag chain o = false) (vout tx);
}.

Lemma filter_none {A} (f : A -> bool) l : length (List.filter f l) = 0%nat -> Forall (fun x => f x = false) l.
Proof. induction l as [|x l IH]; cbn; [constructor|]. destruct (f x) eqn:E; [done|]. intros H. constructor; [done|by apply IH]. Qed.

Lemma check_coinbase_spec chain tx x : check_coinbase chain tx = Ok x ->
  if IsCoinBase tx then Forall (fun i => (2 <= length (scriptSig i) <= 100)%nat) (vin tx)
  else Forall (fun i => outpoint_IsNull (prevout i) = false) (vin tx).
Proof.
  unfold check_coinbase. destruct (IsCoinBase tx) eqn:Ec; intros H.
  - unfold IsCoinBase in Ec. destruct (vin tx) as [|i [|]]; try done. ok_steps H. apply halting_Ok in E. injection E as <-.
    apply reject_if_Ok in E0. b2p. constructor; [lia|constructor].
  - apply reject_if_Ok in H. rewrite Forall_forall. intros i Hi. destruct (outpoint_IsNull (prevout i)) eqn:E; [|done].
    exfalso. apply eq_true_false_abs with (2 := H). apply existsb_exists. exists i. by rewrite <- list_elem_of_In.
Qed.

Lemma CheckTransaction_facts chain un ts fDup fMem fBlock tx :
  CheckTransaction chain un ts fDup fMem fBlock tx = Ok tt -> tx_sound chain fDup fMem fBlock tx.
Proof.
  unfold CheckTransaction. intros H. do 4 ok_step H.
  destruct (check_outs_spec chain fMem fBlock (vout tx) _ _ E2) as (O1 & O2 & O3 & O4 & (N1 & _ & N2) & (G1 & _ & G2) & W & C);
    [cbn; unfold MAX_MONEY, COIN; lia|]. cbn in O2, O4, N2, G2, W, C.
  do 6 ok_step H. destruct r8 as [fNew fRe]. destruct (check_operation_spec _ _ _ _ _ E8) as [[R1 R2] Hop].
  ok_step H. apply reject_if_Ok in H, E, E0, E1, E9. b2p.
  constructor.
  - by apply bool_decide_eq_false in E, E0.
  - unfold WITNESS_SCALE_FACTOR, GetMaxBlockWeight, MAX_BLOCK_WEIGHT_RIP2 in *. lia.
  - done.
  - by rewrite O2, Z.add_0_l in O3.
  - intros ->. by apply check_inputs_distinct_spec in E6 as [? _].
  - by apply check_coinbase_spec in E7.
  - apply check_null_entries_spec in E4. split; [done|]. rewrite Forall_forall in E4 |- *. intros [n a] Hn.
    destruct (E4 (n, a)) as [F1 F2]; [apply N2; by right|]. split; [done|]. apply O4 in F2 as [[]%elem_of_nil|]; done.
  - apply check_global_entries_spec in E5. split; [done|]. rewrite Forall_forall in E5 |- *. intros n Hn.
    destruct (E5 n) as [F1 F2]; [apply G2; by right|]. split; [done|]. apply O4 in F2 as [[]%elem_of_nil|]; done.
  - destruct (fContainsNullAssetVerifierTx r2); [right|by left]. split; [done|].
    destruct fNew; [left; by apply R1|]. destruct fRe; [right; by apply R2|done].
  - destruct (Z.eqb_spec (nCountAddTagOuts r2) 0) as [Hc|Hc].
    + destruct Hop as [|Hop]; [by left|]. right. apply Forall_and. split; [done|]. apply filter_none. lia.
    + left. ok_step E3. cbn [mbind result_bind] in E3. apply halting_Ok in E10. apply reject_if_Ok in E3. b2p. subst. by eapply CheckAddingTagBurnFee_pays.
Qed.

(** C12: A transaction that [CheckTransaction] accepts is sound: it has inputs and outputs
    and fits a block; every value and their exact sum are in the money range; the inputs
    are distinct (where asked for) and not null, or the coinbase script has 2 to 100
    bytes; asset outputs carry no coins, and the amounts of owner tokens, unique assets
    and qualifiers are in their bounds; no name and address is tagged or frozen twice,
    and each tag or freeze is backed by a transfer of its token; there is at most one
    verifier string; and assets or tags are created only next to a burn output. *)
Theorem CheckTransaction_sound chain un ts fDup fMem fBlock tx :
  CheckTransaction chain un ts fDup fMem fBlock tx = Ok tt -> tx_sound chain fDup fMem fBlock tx.
Proof. apply CheckTransaction_facts. Qed.

(** ** Examples *)

Definition main_chain : asset_chain := mkChain [40] [85] main_burns false true true true true true true.
Definition test_chain : asset_chain := mkChain [111] [196] test_burns true true true true true true true.

(** The script that pays to the burn address of an operation. *)
Definition burn_script (chain : asset_chain) (t : AssetType) : bytes :=
  match DecodeDestination (PUBKEY_ADDRESS chain) (SCRIPT_ADDRESS chain) (GetBurnAddress (burns chain) t) with
  | Ok d => GetScriptForDestination d
  | Err _ => []
  end.

Definition example_key : bytes := GetScriptForDestination (CKeyID (replicate 20 7)).
Definition example_asset : CNewAsset := mkNewAsset (chars "TOKEN") (1000 * COIN) 0 1 0 [].
Definition example_tx (outs : list CTxOut) : CTransaction := mkTx [mkTxIn (mkOutPoint (replicate 32 1) 0) [] 0 []] outs 2 0.
Definition issue_tx (chain : asset_chain) : CTransaction :=
  example_tx [mkTxOut (500 * COIN) (burn_script chain ROOT); mkTxOut 0 (ConstructOwnerTransaction example_asset example_key);
              mkTxOut 0 (NewAsset_ConstructTransaction example_asset example_key)].
Definition transfer_tx : CTransaction :=
  example_tx [mkTxOut 0 (Transfer_ConstructTransaction (mkTransfer (chars "TOKEN!") COIN [] 0) example_key); mkTxOut (5 * COIN) example_key].

(** An issue on the test network is accepted. *)
Lemma CheckTransaction_sound_witness :
  CheckTransaction test_chain INVALID (fun _ => EmptyString) true true true (issue_tx test_chain) = Ok tt
  /\ tx_sound test_chain true true true (issue_tx test_chain).
Proof.
  split; [vm_compute; reflexivity|].
  apply (CheckTransaction_sound test_chain INVALID (fun _ => EmptyString) true true true (issue_tx test_chain)). vm_compute. reflexivity.
Defined.

(** C34: On the main network nothing can be issued.  Its burn addresses have a version byte
    that no address of the network has, so that no output pays a burn fee; a transaction
    that [CheckTransaction] accepts therefore neither issues nor reissues an asset and
    adds no qualifier to an address. *)
Theorem mainnet_no_issuance chain un ts fDup fMem fBlock tx :
  PUBKEY_ADDRESS chain = [40] -> SCRIPT_ADDRESS chain = [85] -> burns chain = main_burns ->
  Forall (fun o => is_bytes (scriptPubKey o)) (vout tx) ->
  CheckTransaction chain un ts fDup fMem fBlock tx = Ok tt ->
  Forall (fun o => only_transfers o /\ adds_tag chain o = false) (vout tx).
Proof.
  intros Hp Hs Hb Ho H. apply CheckTransaction_facts, ts_fee in H as [H|H]; [|done]. exfalso. revert H.
  apply (foreign_no_burn chain 40 85); try done. rewrite Hb. vm_compute. reflexivity.
Qed.

Lemma mainnet_no_issuance_witness :
  CheckTransaction main_chain INVALID (fun _ => EmptyString) true true true transfer_tx = Ok tt
  /\ Forall (fun o => only_transfers o /\ adds_tag main_chain o = false) (vout transfer_tx).
Proof.
  split; [vm_compute; reflexivity|].
  apply (mainnet_no_issuance main_chain INVALID (fun _ => EmptyString) true true true transfer_tx);
    [reflexivity|reflexivity|reflexivity| |vm_compute; reflexivity].
  apply Forall_forall. intros o. rewrite list_elem_of_In. intros [<-|[<-|[]]]; 
    unfold is_u8; apply (bool_decide_unpack _); vm_compute; exact I.
Defined.
