(* ===== verification/BlockCheck.v ===== *)
(** * Blocks: [src/validation.cpp], [src/primitives/block.cpp], [src/hash.h], [src/checkpoints.cpp]

    The hash of a block header, the subsidy, and the checks of a block: [CheckBlockHeader],
    [CheckBlock], [ContextualCheckBlockHeader] and [ContextualCheckBlock], with the
    commitment to the witnesses that a miner adds.  The hash functions of sphlib are the
    class [SphLib]; what the running node knows (its clock, connections and command line)
    is an argument.

    The theorems: what a block that passes satisfies, transaction by transaction; that the
    commitment [GenerateCoinbaseCommitment] adds is accepted and binds the witnesses; that
    the subsidies of all blocks stay below the money limit; and what becomes of a header
    whose claimed height is not the height of the block. *)

From S2P Require Import Progpow Ethash Keccak.
From S2P Require Import Prelude Endian Params HashFns ArithUint256 Chain MedianTime Merkle Pow VersionBits Serialize Script Transaction.
From S2P Require Import TxVerify AssetNames AssetScripts AssetRules CheckTransaction.

(** ** The hash of a header *)

(** sphlib: the sixteen functions of 512 bits, by the number X16R gives them, and Tiger. *)
Class SphLib := { sph512 : Z -> bytes -> bytes; sph_tiger : bytes -> bytes }.

Definition GetNibble (h : bytes) (index : Z) : Z :=
  let index := 63 - index in
  let byte := nth (Z.to_nat (index / 2)) h 0 in
  if index mod 2 =? 1 then Z.shiftr byte 4 else Z.land byte 0x0f.
Definition GetHashSelection (PrevBlockHash : bytes) (index : Z) : Z := GetNibble PrevBlockHash (48 + index).

Section HeaderHash.
Context {sph : SphLib}.

(** [uint512] is zero before it is written; Tiger writes the first 24 bytes of it. *)
Definition tiger_first (data : bytes) : bytes := sph_tiger data ++ replicate 40 0.

Definition x16r_step (PrevBlockHash toHash : bytes) (i : nat) : bytes :=
  sph512 (GetHashSelection PrevBlockHash (Z.of_nat i)) toHash.
Definition x16rv2_step (PrevBlockHash toHash : bytes) (i : nat) : bytes :=
  let s := GetHashSelection PrevBlockHash (Z.of_nat i) in
  if (s =? 4) || (s =? 6) || (s =? 15) then sph512 s (tiger_first toHash) else sph512 s toHash.

Definition HashX16R (data PrevBlockHash : bytes) : bytes := take 32 (foldl (x16r_step PrevBlockHash) data (seq 0 16)).
Definition HashX16RV2 (data PrevBlockHash : bytes) : bytes := take 32 (foldl (x16rv2_step PrevBlockHash) data (seq 0 16)).

Definition MAINNET_X16RV2ACTIVATIONTIME : Z := 1750856400.
Definition TESTNET_X16RV2ACTIVATIONTIME : Z := 1750860000.
Definition REGTEST_X16RV2ACTIVATIONTIME : Z := 3582830167.

Record BlockNetwork := mkNetwork { fOnTestnet : bool; fOnRegtest : bool }.
Definition SetNetwork (bNetwork : BlockNetwork) (net : string) : BlockNetwork :=
  if String.eqb net "test" then mkNetwork true (fOnRegtest bNetwork)
  else if String.eqb net "regtest" then mkNetwork (fOnTestnet bNetwork) true
  else bNetwork.

Context (bNetwork : BlockNetwork) (nKAWPOWActivationTime : Z).

(** The memory from [nVersion] to the end of [nNonce]. *)
Definition header_memory (h : CBlockHeader) : bytes :=
  WriteLE32 (u32 (hdr_nVersion h)) ++ hdr_hashPrevBlock h ++ hdr_hashMerkleRoot h ++
  WriteLE32 (hdr_nTime h) ++ WriteLE32 (hdr_nBits h) ++ WriteLE32 (hdr_nNonce h).

Definition x16_hash (h : CBlockHeader) : bytes :=
  let nTimeToUse := if fOnTestnet bNetwork then TESTNET_X16RV2ACTIVATIONTIME
                    else if fOnRegtest bNetwork then REGTEST_X16RV2ACTIVATIONTIME
                    else MAINNET_X16RV2ACTIVATIONTIME in
  if hdr_nTime h >=? nTimeToUse then HashX16RV2 (header_memory h) (hdr_hashPrevBlock h)
  else HashX16R (header_memory h) (hdr_hashPrevBlock h).

Definition header_GetHash (h : CBlockHeader) : bytes :=
  if hdr_nTime h <? nKAWPOWActivationTime then x16_hash h else KAWPOWHash_OnlyMix h.

(** The hash, the mix hash (zero where the function leaves it alone) and the context that
    [KAWPOWHash] keeps. *)
Definition GetHashFull (cached : option epoch_context) (h : CBlockHeader) : result fault (bytes * bytes * option epoch_context) :=
  if hdr_nTime h <? nKAWPOWActivationTime then Ok (x16_hash h, null_uint256, cached)
  else
    let* (final, mix, c) := KAWPOWHash cached h in
    Ok (final, mix, Some c).
End HeaderHash.

(** ** The subsidy *)

Definition GetBlockSubsidy (nHeight : Z) (consensusParams : Params) : result fault Z :=
  halvings ← or_trap (c_div nHeight (nSubsidyHalvingInterval consensusParams));
  if halvings >=? 64 then Ok 0 else Ok (Z.shiftr (5000 * COIN) halvings).

(** ** Checkpoints *)

(** [mapCheckpoints], in the order of heights. *)
Abbreviation CCheckpointData := (list (Z * bytes)).

Definition GetLastCheckpoint (mapBlockIndex : gmap bytes ptr) (data : CCheckpointData) : option ptr :=
  foldr (fun i found => match found with
                        | Some p => Some p
                        | None => mapBlockIndex !! snd i
                        end) None data.

(** ** Checks without context *)

(** [CBlock]. *)
Record CBlock := mkBlock { block_header : CBlockHeader; vtx : list CTransaction; fChecked : bool }.

Section Checks.
Context {sph : SphLib} (bNetwork : BlockNetwork) (nKAWPOWActivationTime nDGWActivationBlock : Z).
Context (consensusParams : Params) (checkpoints : CCheckpointData).
(** What [CheckTransaction] reads. *)
Context (chain : asset_chain) (uninitialised : AssetType) (txout_ToString : CTxOut -> string).

Section Index.
Context (mem : heap) (mapBlockIndex : gmap bytes ptr).

Definition is_kawpow (h : CBlockHeader) : bool := hdr_nTime h >=? nKAWPOWActivationTime.

(** Accepts with the context the hash function keeps. *)
Definition CheckBlockHeader (cached : option epoch_context) (block : CBlockHeader) (fCheckPOW : bool) : check (option epoch_context) :=
  below ← (if fCheckPOW && is_kawpow block then
             match GetLastCheckpoint mapBlockIndex checkpoints with
             | Some p => b ← halting (deref mem p); Ok (hdr_nHeight block <=? u32 (Chain.nHeight b))
             | None => Ok false
             end
           else Ok false);
  if below : bool then
    _ ← reject_if (negb (CheckProofOfWork consensusParams (header_GetHash bNetwork nKAWPOWActivationTime block) (hdr_nBits block))) 50 "high-hash";
    Ok cached
  else if negb fCheckPOW then Ok cached
  else
    let* (hash, mix, cached) := halting (GetHashFull bNetwork nKAWPOWActivationTime cached block) in
    _ ← reject_if (negb (CheckProofOfWork consensusParams hash (hdr_nBits block))) 50 "high-hash";
    _ ← reject_if (is_kawpow block && negb (bool_decide (mix = hdr_mix_hash block))) 50 "invalid-mix-hash";
    Ok cached.

Fixpoint check_transactions (fDBCheck : bool) (txs : list CTransaction) : check unit :=
  match txs with
  | [] => Ok tt
  | tx :: txs =>
    _ ← CheckTransaction chain uninitialised txout_ToString true false (negb fDBCheck) tx;
    check_transactions fDBCheck txs
  end.

Definition block_data (block : CBlock) : CBlockHeader * list CTransaction := (block_header block, vtx block).

Definition CheckBlock (cached : option epoch_context) (block : CBlock) (fCheckPOW fCheckMerkleRoot fDBCheck : bool)
  : check (CBlock * option epoch_context) :=
  if fChecked block then Ok (block, cached)
  else
    cached ← CheckBlockHeader cached (block_header block) fCheckPOW;
    _ ← (if fCheckMerkleRoot then
           let* (hashMerkleRoot2, mutated) := halting (BlockMerkleRoot Hash2 (GetHash <$> vtx block)) in
           _ ← reject_if (negb (bool_decide (hdr_hashMerkleRoot (block_header block) = hashMerkleRoot2))) 100 "bad-txnmrklroot";
           reject_if mutated 100 "bad-txns-duplicate"
         else Ok tt);
    _ ← reject_if (bool_decide (vtx block = [])
                   || (Z.of_nat (length (vtx block)) * WITNESS_SCALE_FACTOR >? GetMaxBlockWeight)
                   || (Z.of_nat (length (write (ser_block nKAWPOWActivationTime false) (block_data block))) * WITNESS_SCALE_FACTOR >? GetMaxBlockWeight))
          100 "bad-blk-length";
    _ ← reject_if (match vtx block with [] => true | tx :: _ => negb (IsCoinBase tx) end) 100 "bad-cb-missing";
    _ ← reject_if (existsb IsCoinBase (drop 1 (vtx block))) 100 "bad-cb-multiple";
    _ ← check_transactions fDBCheck (vtx block);
    let nSigOps := foldl (fun n tx => u32 (n + GetLegacySigOpCount tx)) 0 (vtx block) in
    _ ← reject_if (u32 (nSigOps * WITNESS_SCALE_FACTOR) >? MAX_BLOCK_SIGOPS_COST) 100 "bad-blk-sigops";
    Ok (mkBlock (block_header block) (vtx block) (fCheckPOW && fCheckMerkleRoot), cached).

(** ** The witness commitment *)

(** [IsWitnessEnabled] is [nSegwitEnabled]. *)
Definition is_commitment (s : bytes) : bool :=
  (38 <=? length s)%nat && bool_decide (take 6 s = [opcode_value OP_RETURN; 0x24; 0xaa; 0x21; 0xa9; 0xed]).

Fixpoint commitment_loop (outs : list CTxOut) (o commitpos : Z) : Z :=
  match outs with
  | [] => commitpos
  | out :: outs => commitment_loop outs (o + 1) (if is_commitment (scriptPubKey out) then o else commitpos)
  end.
Definition GetWitnessCommitmentIndex (block : CBlock) : Z :=
  match vtx block with [] => -1 | tx :: _ => commitment_loop (vout tx) 0 (-1) end.

Definition set_coinbase (block : CBlock) (tx : CTransaction) : CBlock :=
  mkBlock (block_header block) (tx :: drop 1 (vtx block)) (fChecked block).

(** [vtx[0]] and [vin[0]]. *)
Definition coinbase (block : CBlock) : result fault CTransaction :=
  match vtx block with [] => Err OutOfBounds | tx :: _ => Ok tx end.
Definition first_input (tx : CTransaction) : result fault CTxIn :=
  match vin tx with [] => Err OutOfBounds | i :: _ => Ok i end.

(** [stack.resize(1); stack[0] = nonce] *)
Definition set_witness_nonce (tx : CTransaction) (nonce : bytes) : result fault CTransaction :=
  i ← first_input tx;
  Ok (mkTx (mkTxIn (prevout i) (scriptSig i) (nSequence i) [nonce] :: drop 1 (vin tx)) (vout tx) (nVersion tx) (nLockTime tx)).

Definition UpdateUncommittedBlockStructures (block : CBlock) : result fault CBlock :=
  let commitpos := GetWitnessCommitmentIndex block in
  if negb (commitpos =? -1) && nSegwitEnabled consensusParams then
    tx ← coinbase block;
    if HasWitness tx then Ok block
    else tx ← set_witness_nonce tx (replicate 32 0); Ok (set_coinbase block tx)
  else Ok block.

Definition commitment_script (hash : bytes) : bytes := [opcode_value OP_RETURN; 0x24; 0xaa; 0x21; 0xa9; 0xed] ++ hash.

(** [BlockWitnessMerkleRoot], then [CHash256] over the root and the nonce, which is
    [Hash] of two ranges. *)
Definition witness_commitment (block : CBlock) (nonce : bytes) : result fault bytes :=
  let* (witnessroot, _) := BlockWitnessMerkleRoot Hash2 (GetWitnessHash <$> vtx block) in
  Ok (Hash2 witnessroot nonce).

Definition GenerateCoinbaseCommitment (block : CBlock) : result fault (CBlock * bytes) :=
  let commitpos := GetWitnessCommitmentIndex block in
  let* (block, commitment) :=
    (if nSegwitEnabled consensusParams && (commitpos =? -1) then
       hash ← witness_commitment block (replicate 32 0);
       tx ← coinbase block;
       let out := mkTxOut 0 (commitment_script hash) in
       Ok (set_coinbase block (mkTx (vin tx) (vout tx ++ [out]) (nVersion tx) (nLockTime tx)), scriptPubKey out)
     else Ok (block, [])) in
  block ← UpdateUncommittedBlockStructures block;
  Ok (block, commitment).

(** ** Checks against the chain *)

(** What the running node contributes to the check of a header. *)
Record node_view := mkNode {
  chainActive : CChain;
  nMaxReorgDepth : Z;
  nMinReorgPeers : Z;
  nMinReorgAge : Z;
  (** The number of connections, when there is a connection manager. *)
  g_connman : option Z;
  node_GetTime : Z;
  fCheckpointsEnabled : bool;
  nAdjustedTime : Z;
}.

Definition MAX_FUTURE_BLOCK_TIME : Z := 2 * 60 * 60.
Definition MAX_FUTURE_BLOCK_TIME_DGW : Z := MAX_FUTURE_BLOCK_TIME / 10.

(** [%08x] of an [int32_t]. *)
Definition hex_digit (d : Z) : Ascii.ascii :=
  nth (Z.to_nat d) (String.list_ascii_of_string "0123456789abcdef") Ascii.zero.
Definition hex8 (x : Z) : string :=
  String.string_of_list_ascii ((fun i => hex_digit (Z.land (Z.shiftr (u32 x) (28 - 4 * Z.of_nat i)) 15)) <$> seq 0 8).

(** The check that a fork is not too deep. *)
Definition check_reorg (node : node_view) (nHeight : Z) : check unit :=
  let fGreaterThanMaxReorg := Height (chainActive node) - (nHeight - 1) >=? nMaxReorgDepth node in
  match g_connman node with
  | Some nCurrentNodeCount =>
    if fGreaterThanMaxReorg then
      tip ← halting (deref_opt mem (Tip (chainActive node)));
      let bIsCurrentChainCaughtUp := node_GetTime node - nTime tip <=? nMinReorgAge node in
      reject_if ((nCurrentNodeCount >=? nMinReorgPeers node) && bIsCurrentChainCaughtUp) 10 "bad-fork-prior-to-maxreorgdepth"
    else Ok tt
  | None => Ok tt
  end.

Definition ContextualCheckBlockHeader (node : node_view) (block : CBlockHeader) (pindexPrev : ptr) : check unit :=
  prev ← halting (deref mem pindexPrev);
  let nHeight := Chain.nHeight prev + 1 in
  _ ← check_reorg node nHeight;
  nextWork ← halting (GetNextWorkRequired consensusParams nKAWPOWActivationTime nDGWActivationBlock mem pindexPrev block);
  _ ← reject_if (negb (hdr_nBits block =? nextWork)) 100 "bad-diffbits";
  _ ← (if fCheckpointsEnabled node then
         match GetLastCheckpoint mapBlockIndex checkpoints with
         | Some p => b ← halting (deref mem p); reject_if (nHeight <? Chain.nHeight b) 100 "bad-fork-prior-to-checkpoint"
         | None => Ok tt
         end
       else Ok tt);
  mtp ← halting (GetMedianTimePast mem pindexPrev);
  _ ← reject_if (hdr_nTime block <=? mtp) 0 "time-too-old";
  let drift := if IsDGWActive nDGWActivationBlock (u32 (Chain.nHeight prev + 1)) then MAX_FUTURE_BLOCK_TIME_DGW else MAX_FUTURE_BLOCK_TIME in
  _ ← reject_if (hdr_nTime block >? nAdjustedTime node + drift) 0 "time-too-new";
  reject_if (AreAssetsDeployed chain && (hdr_nVersion block <? VERSIONBITS_TOP_BITS_ASSETS)) 0
    (String.append "bad-version(0x" (String.append (hex8 (hdr_nVersion block)) ")")).

(** The height of the coinbase, and the commitment to the witnesses: whether the block has one. *)
Definition check_coinbase_height (block : CBlock) (nHeight : Z) : check unit :=
  let expect := push_int64 nHeight in
  tx ← halting (coinbase block);
  i ← halting (first_input tx);
  reject_if ((length (scriptSig i) <? length expect)%nat || negb (bool_decide (take (length expect) (scriptSig i) = expect))) 100 "bad-cb-height".

Definition check_commitment (block : CBlock) : check bool :=
  let commitpos := GetWitnessCommitmentIndex block in
  if negb (nSegwitEnabled consensusParams) || (commitpos =? -1) then Ok false
  else
    _ ← halting (BlockWitnessMerkleRoot Hash2 (GetWitnessHash <$> vtx block));
    tx ← halting (coinbase block);
    i ← halting (first_input tx);
    nonce ← match scriptWitness i with
            | [nonce] => if (length nonce =? 32)%nat then Ok nonce else DoS 100 "bad-witness-nonce-size"
            | _ => DoS 100 "bad-witness-nonce-size"
            end;
    hashWitness ← halting (witness_commitment block nonce);
    out ← halting (match vout tx !! Z.to_nat commitpos with Some out => Ok out | None => Err OutOfBounds end);
    _ ← reject_if (negb (bool_decide (take 32 (drop 6 (scriptPubKey out)) = hashWitness))) 100 "bad-witness-merkle-match";
    Ok true.

Definition ContextualCheckBlock (block : CBlock) (pindexPrev : option ptr) : check unit :=
  nHeight ← match pindexPrev with None => Ok 0 | Some p => b ← halting (deref mem p); Ok (Chain.nHeight b + 1) end;
  nLockTimeCutoff ← match pindexPrev with
                    | Some p => if nCSVEnabled consensusParams then halting (GetMedianTimePast mem p) else Ok (hdr_nTime (block_header block))
                    | None => Ok (hdr_nTime (block_header block))
                    end;
  _ ← reject_if (negb (forallb (fun tx => IsFinalTx tx nHeight nLockTimeCutoff) (vtx block))) 10 "bad-txns-nonfinal";
  _ ← (if nBIP34Enabled consensusParams then check_coinbase_height block nHeight else Ok tt);
  fHaveWitness ← check_commitment block;
  _ ← reject_if (negb fHaveWitness && existsb HasWitness (vtx block)) 100 "unexpected-witness";
  reject_if (GetBlockWeight nKAWPOWActivationTime (block_data block) >? GetMaxBlockWeight) 100 "bad-blk-weight".
End Index.
End Checks.

(** ** The subsidy *)

Definition subsidy_of (p : Params) (nHeight : Z) : Z := match GetBlockSubsidy nHeight p with Ok s => s | Err _ => 0 end.
Definition total_subsidy (p : Params) (n : nat) : Z := sum_Z (subsidy_of p ∘ Z.of_nat <$> seq 0 n).

Section Subsidy.
Context (p : Params) (Hp : 0 < nSubsidyHalvingInterval p).
Local Abbreviation interval := (nSubsidyHalvingInterval p).
Local Abbreviation reward := (5000 * COIN).

Lemma GetBlockSubsidy_spec h : 0 <= h -> GetBlockSubsidy h p = Ok (reward / 2 ^ (h / interval)).
Proof.
  intros Hh. unfold GetBlockSubsidy, c_div, or_trap. destruct (Z.eqb_spec interval 0); [lia|]. cbn [mbind result_bind].
  rewrite Z.quot_div_nonneg by lia. pose proof (Z.div_pos h interval Hh Hp) as Hq. rewrite Z.geb_leb. destruct (Z.leb_spec 64 (h / interval)).
  - f_equal. symmetry. apply Z.div_small. split; [unfold COIN; lia|].
    eapply Z.lt_le_trans; [|apply (Z.pow_le_mono_r 2 64); lia]. unfold COIN. lia.
  - by rewrite Z.shiftr_div_pow2.
Qed.
Lemma subsidy_of_spec h : 0 <= h -> subsidy_of p h = reward / 2 ^ (h / interval).
Proof. intros Hh. unfold subsidy_of. by rewrite GetBlockSubsidy_spec. Qed.

Lemma total_subsidy_S n : total_subsidy p (S n) = total_subsidy p n + subsidy_of p (Z.of_nat n).
Proof.
  unfold total_subsidy. rewrite seq_S, fmap_app. unfold sum_Z. rewrite foldr_app. cbn [fmap list_fmap foldr compose].
  rewrite Z.add_0_r, Nat.add_0_l. generalize (subsidy_of p (Z.of_nat n)). intros x. clear Hp.
  generalize ((subsidy_of p ∘ Z.of_nat) <$> seq 0 n). intros l.
  induction l as [|y l IH]; cbn [foldr]; lia.
Qed.

(** After [q] halvings at most [2 * interval * (reward - reward / 2 ^ q)] has been paid. *)
Lemma total_subsidy_step n : let q := Z.of_nat n / interval in let r := Z.of_nat n mod interval in
  total_subsidy p n <= interval * (2 * reward - 2 * (reward / 2 ^ q)) + r * (reward / 2 ^ q).
Proof.
  induction n as [|n IH].
  - cbn zeta. cbn [Z.of_nat]. rewrite Z.div_0_l, Z.mod_0_l, Z.pow_0_r, Z.div_1_r by lia.
    change (total_subsidy p 0) with 0. lia.
  - cbn zeta in *. rewrite total_subsidy_S, subsidy_of_spec by lia.
    pose proof (Z.div_mod (Z.of_nat n) interval ltac:(lia)) as D. pose proof (Z.mod_pos_bound (Z.of_nat n) interval Hp) as B.
    set (q := Z.of_nat n / interval) in *. set (r := Z.of_nat n mod interval) in *. rewrite Nat2Z.inj_succ.
    assert (0 <= q) by (apply Z.div_pos; lia). set (a := reward / 2 ^ q) in *.
    destruct (Z.eq_dec (r + 1) interval) as [Er|Er].
    + rewrite <- (Z.div_unique (Z.succ (Z.of_nat n)) interval (q + 1) 0) by nia.
      rewrite <- (Z.mod_unique (Z.succ (Z.of_nat n)) interval (q + 1) 0) by nia.
      assert (2 * (reward / 2 ^ (q + 1)) <= a) as Ha.
      { subst a. rewrite Z.pow_add_r, <- Z.div_div by (lia || apply Z.pow_nonzero; lia). change (2 ^ 1) with 2.
        pose proof (Z.mul_div_le (reward / 2 ^ q) 2). lia. }
      nia.
    + rewrite <- (Z.div_unique (Z.succ (Z.of_nat n)) interval q (r + 1)) by nia.
      rewrite <- (Z.mod_unique (Z.succ (Z.of_nat n)) interval q (r + 1)) by nia. fold a. nia.
Qed.

Lemma total_subsidy_bound n : 0 <= total_subsidy p n <= 2 * interval * reward.
Proof.
  split.
  - induction n as [|n IH]; [done|]. rewrite total_subsidy_S, subsidy_of_spec by lia.
    assert (0 <= reward / 2 ^ (Z.of_nat n / interval)); [|lia].
    apply Z.div_pos; [unfold COIN; lia|]. apply Z.pow_pos_nonneg; [lia|]. apply Z.div_pos; lia.
  - pose proof (total_subsidy_step n) as H. cbn zeta in H.
    pose proof (Z.mod_pos_bound (Z.of_nat n) interval Hp). set (a := reward / _) in *.
    assert (0 <= a); [|nia]. apply Z.div_pos; [unfold COIN; lia|]. apply Z.pow_pos_nonneg; [lia|]. apply Z.div_pos; lia.
Qed.
End Subsidy.

(** ** The Merkle root *)

Lemma merkle_unmutated h2 leaves r : leaves <> [] -> Z.of_nat (length leaves) <= 2 ^ 31 -> ComputeMerkleRoot h2 leaves = Ok (r, false) ->
  r = merkle_root h2 leaves /\ ~ has_twin h2 leaves.
Proof.
  intros Hl Hmax H. assert (Hn : (0 < length leaves)%nat) by (destruct leaves; [done|cbn; lia]).
  destruct (MerkleComputation_spec h2 leaves 0 [] false (u32 (-1)) Hn Hmax Hn) as (mu & br & E & Hmu & _); [done|].
  unfold ComputeMerkleRoot in H. rewrite E in H. injection H as <- ->. split; [done|]. intros Ht. apply Hmu in Ht. done.
Qed.
Lemma merkle_total h2 leaves : leaves <> [] -> Z.of_nat (length leaves) <= 2 ^ 31 ->
  exists mutated, ComputeMerkleRoot h2 leaves = Ok (merkle_root h2 leaves, mutated).
Proof.
  intros Hl Hmax. assert (Hn : (0 < length leaves)%nat) by (destruct leaves; [done|cbn; lia]).
  destruct (MerkleComputation_spec h2 leaves 0 [] false (u32 (-1)) Hn Hmax Hn) as (mu & br & E & _); [done|].
  exists mu. unfold ComputeMerkleRoot. by rewrite E.
Qed.

(** ** Signature operations *)

Definition legacy_sigops (tx : CTransaction) : Z :=
  sum_Z ((fun i => GetSigOpCount (scriptSig i) false) <$> vin tx) + sum_Z ((fun o => GetSigOpCount (scriptPubKey o) false) <$> vout tx).

Lemma blen_sum_nonneg {A} (s : A -> bytes) l : 0 <= sum_Z ((fun x => blen (s x)) <$> l).
Proof. unfold sum_Z, blen. induction l as [|x l IH]; cbn [fmap list_fmap foldr]; lia. Qed.

Lemma concat_sum {A} (f : A -> bytes) (g : A -> Z) l : (forall x, g x <= blen (f x)) -> sum_Z (g <$> l) <= blen (concat (f <$> l)).
Proof.
  intros H. unfold sum_Z, blen in *. induction l as [|x l IH]; cbn; [lia|]. rewrite length_app, Nat2Z.inj_add. specialize (H x). lia.
Qed.
Lemma vector_sum {A} (c : codec A) (g : A -> Z) l : (forall x, g x <= blen (write c x)) -> sum_Z (g <$> l) <= blen (write (ser_vector c) l).
Proof.
  intros H. pose proof (concat_sum (write c) g l H). cbn [write ser_vector]. unfold Serialize_vector, blen in *. rewrite length_app. lia.
Qed.
Lemma script_le s : blen s <= blen (write ser_script s).
Proof. cbn. unfold Serialize_blob, blen. rewrite length_app. lia. Qed.

(** Scripts are part of what is serialized. *)
Lemma tx_scripts_le tx :
  sum_Z ((fun i => blen (scriptSig i)) <$> vin tx) + sum_Z ((fun o => blen (scriptPubKey o)) <$> vout tx)
  <= blen (SerializeTransaction false tx).
Proof.
  assert (sum_Z ((fun i => blen (scriptSig i)) <$> vin tx) <= blen (write ser_vin (vin tx))) as H1.
  { apply vector_sum. intros i. cbn [write ser_txin]. pose proof (script_le (scriptSig i)). unfold blen in *. rewrite !length_app. lia. }
  assert (sum_Z ((fun o => blen (scriptPubKey o)) <$> vout tx) <= blen (write ser_vout (vout tx))) as H2.
  { apply vector_sum. intros o. cbn [write ser_txout]. pose proof (script_le (scriptPubKey o)). unfold blen in *. rewrite !length_app. lia. }
  unfold SerializeTransaction. cbn zeta. cbn [Z.eqb negb]. unfold blen in *. rewrite !length_app. lia.
Qed.

Lemma block_txs_le t (b : CBlockHeader * list CTransaction) :
  sum_Z ((fun tx => blen (SerializeTransaction false tx)) <$> b.2) <= blen (write (ser_block t false) b).
Proof.
  assert (sum_Z ((fun tx => blen (SerializeTransaction false tx)) <$> b.2) <= blen (write (ser_vector (ser_tx false)) b.2)) as H.
  { apply vector_sum. intros tx. done. }
  unfold ser_block. cbn [write ser_pair]. unfold blen in *. rewrite length_app. lia.
Qed.

Lemma sigops_sum {A} (s : A -> bytes) l : sum_Z ((fun x => blen (s x)) <$> l) <= 2 ^ 24 ->
  Forall (fun x => 0 <= GetSigOpCount (s x) false) l
  /\ 0 <= sum_Z ((fun x => GetSigOpCount (s x) false) <$> l) <= 20 * sum_Z ((fun x => blen (s x)) <$> l).
Proof.
  unfold sum_Z. induction l as [|x l IH]; cbn; [split; [constructor|lia]|]. intros H.
  assert (0 <= foldr Z.add 0 ((fun x => blen (s x)) <$> l)) by (clear; induction l; cbn; unfold blen in *; lia).
  destruct IH as [F R]; [unfold blen in *; lia|].
  pose proof (GetSigOpCount_range false (s x) ltac:(unfold blen in *; lia)) as Hx. unfold blen in *. split; [constructor; [lia|exact F]|]. lia.
Qed.

Lemma GetLegacySigOpCount_exact tx : blen (SerializeTransaction false tx) <= 2 ^ 24 ->
  GetLegacySigOpCount tx = legacy_sigops tx /\ 0 <= legacy_sigops tx <= 20 * blen (SerializeTransaction false tx).
Proof.
  intros H. pose proof (tx_scripts_le tx) as Hs.
  pose proof (blen_sum_nonneg scriptSig (vin tx)) as N1. pose proof (blen_sum_nonneg scriptPubKey (vout tx)) as N2.
  destruct (sigops_sum scriptSig (vin tx)) as [F1 R1]; [lia|]. destruct (sigops_sum scriptPubKey (vout tx)) as [F2 R2]; [lia|].
  destruct (foldl_u32_sum _ _ 0 ltac:(lia) F1) as [E1 _]; [lia|].
  pose proof (proj1 R1) as N3. unfold GetLegacySigOpCount, legacy_sigops. cbv zeta. rewrite E1.
  set (si := sum_Z ((fun i => GetSigOpCount (scriptSig i) false) <$> vin tx)) in *.
  destruct (foldl_u32_sum _ _ (0 + si) ltac:(lia) F2) as [E2 _]; [lia|]. rewrite E2. lia.
Qed.

(** The count of a block does not wrap around. *)
Lemma block_sigops_exact txs : sum_Z ((fun tx => blen (SerializeTransaction false tx)) <$> txs) <= 2000000 ->
  foldl (fun n tx => u32 (n + GetLegacySigOpCount tx)) 0 txs = sum_Z (legacy_sigops <$> txs)
  /\ 0 <= sum_Z (legacy_sigops <$> txs) <= 40000000.
Proof.
  intros H. assert (Forall (fun tx => GetLegacySigOpCount tx = legacy_sigops tx /\ 0 <= legacy_sigops tx) txs
    /\ 0 <= sum_Z (legacy_sigops <$> txs) <= 20 * sum_Z ((fun tx => blen (SerializeTransaction false tx)) <$> txs)) as [F R].
  { induction txs as [|tx txs IH]; cbn [fmap list_fmap] in *; [split; [constructor|done]|]. unfold sum_Z in *. cbn [foldr] in *.
    pose proof (blen_sum_nonneg (SerializeTransaction false) txs). unfold sum_Z in *.
    assert (0 <= blen (SerializeTransaction false tx)) by (unfold blen; lia).
    destruct (GetLegacySigOpCount_exact tx ltac:(lia)) as [E Rt]. destruct IH as [F R]; [lia|]. split; [constructor; [split; [exact E|lia]|exact F]|lia]. }
  split; [|lia]. assert (Forall (fun tx => 0 <= GetLegacySigOpCount tx) txs) as F0 by (eapply Forall_impl; [exact F|]; intros tx [Et Hn]; cbv beta; by rewrite Et).
  assert (GetLegacySigOpCount <$> txs = legacy_sigops <$> txs) as E.
  { clear -F. induction F as [|tx txs [E _] F IH]; [done|]. cbn. by rewrite E, IH. }
  destruct (foldl_u32_sum _ _ 0 ltac:(lia) F0) as [-> _]; rewrite E; lia.
Qed.

(** ** What an accepted block satisfies *)

Section Sound.
Context {sph : SphLib} (net : BlockNetwork) (kt dgw : Z) (params : Params) (checkpoints : CCheckpointData).
Context (chain : asset_chain) (un : AssetType) (ts : CTxOut -> string) (mem : heap) (index : gmap bytes ptr).
Local Abbreviation CheckHeader := (CheckBlockHeader net kt params checkpoints mem index).
Local Abbreviation Check := (CheckBlock net kt params checkpoints chain un ts mem index).
Local Abbreviation ContextualHeader := (ContextualCheckBlockHeader kt dgw params checkpoints chain mem index).
Local Abbreviation Contextual := (ContextualCheckBlock kt params mem).

(** The identity of an accepted header meets its target. *)
Lemma CheckBlockHeader_pow cached h c : CheckHeader cached h true = Ok c ->
  CheckProofOfWork params (header_GetHash net kt h) (hdr_nBits h) = true.
Proof.
  unfold CheckBlockHeader. cbn [andb negb]. intros H. apply bind_Ok in H as (below & _ & H). cbv beta in H. destruct below.
  { apply bind_Ok in H as ([] & E & _). apply reject_if_Ok in E. by apply negb_false_iff in E. }
  destruct (halting (GetHashFull net kt cached h)) as [[[hash mix] c']|] eqn:E; [|discriminate]. apply halting_Ok in E.
  apply bind_Ok in H as ([] & E1 & H). apply bind_Ok in H as ([] & E2 & _). apply reject_if_Ok in E1, E2. apply negb_false_iff in E1.
  unfold GetHashFull, header_GetHash, is_kawpow in *. rewrite Z.geb_leb, Z.leb_antisym in E2.
  destruct (hdr_nTime h <? kt); [by injection E as <- _ _|]. cbn in E2.
  destruct (KAWPOWHash cached h) as [[[final mix'] c'']|] eqn:EK; [|discriminate]. injection E as <- <- <-.
  apply negb_false_iff, bool_decide_eq_true in E2. by rewrite (KAWPOWHash_only_mix _ _ _ _ _ EK).
Qed.

Lemma check_transactions_facts db txs : check_transactions chain un ts db txs = Ok tt -> Forall (tx_sound chain true false (negb db)) txs.
Proof.
  induction txs as [|tx txs IH]; cbn [check_transactions]; [constructor|]. intros H. apply bind_Ok in H as ([] & E & H).
  constructor; [by eapply CheckTransaction_facts|by apply IH].
Qed.

(** The part of the block that does not depend on the chain. *)
Record block_sound (db : bool) (block : CBlock) : Prop := mkBlockSound {
  bs_pow : CheckProofOfWork params (header_GetHash net kt (block_header block)) (hdr_nBits (block_header block)) = true;
  bs_merkle : hdr_hashMerkleRoot (block_header block) = merkle_root Hash2 (GetHash <$> vtx block) /\ ~ has_twin Hash2 (GetHash <$> vtx block);
  bs_coinbase : exists cb txs, vtx block = cb :: txs /\ IsCoinBase cb = true /\ Forall (fun tx => IsCoinBase tx = false) txs;
  bs_transactions : Forall (tx_sound chain true false (negb db)) (vtx block);
  bs_size : blen (write (ser_block kt false) (block_data block)) * 4 <= 8000000;
  bs_sigops : sum_Z (legacy_sigops <$> vtx block) * 4 <= 80000;
}.

Lemma CheckBlock_facts cached block db block' c : fChecked block = false -> Check cached block true true db = Ok (block', c) ->
  block_sound db block /\ block' = mkBlock (block_header block) (vtx block) true.
Proof.
  intros Hck. unfold CheckBlock. rewrite Hck. intros H.
  apply bind_Ok in H as (c' & Epow & H). cbv beta in H. apply CheckBlockHeader_pow in Epow.
  apply bind_Ok in H as ([] & Em & H). cbv beta in H.
  destruct (halting (BlockMerkleRoot Hash2 (GetHash <$> vtx block))) as [[root mutated]|] eqn:Er; [|discriminate]. apply halting_Ok in Er.
  apply bind_Ok in Em as ([] & Em & Emut). apply reject_if_Ok in Em, Emut.
  apply bind_Ok in H as ([] & Elen & H). apply bind_Ok in H as ([] & Ecb & H). apply bind_Ok in H as ([] & Emul & H).
  apply bind_Ok in H as ([] & Etx & H). cbv beta zeta in H. apply bind_Ok in H as ([] & Esig & H). injection H as <- <-.
  apply reject_if_Ok in Elen, Ecb, Emul, Esig. apply negb_false_iff, bool_decide_eq_true in Em. apply check_transactions_facts in Etx.
  apply orb_false_iff in Elen as [Elen Esize]. apply orb_false_iff in Elen as [Ene Ecnt]. apply bool_decide_eq_false in Ene.
  unfold WITNESS_SCALE_FACTOR, GetMaxBlockWeight, MAX_BLOCK_WEIGHT_RIP2, MAX_BLOCK_SIGOPS_COST in *.
  rewrite Z.gtb_ltb, Z.ltb_ge in Ecnt, Esize.
  split; [|done]. constructor; try done.
  - rewrite Em, Emut in *. apply merkle_unmutated; [|rewrite length_fmap; lia|exact Er]. by destruct (vtx block).
  - destruct (vtx block) as [|cb txs]; [done|]. exists cb, txs. apply negb_false_iff in Ecb. split; [done|]. split; [done|].
    cbn [drop] in Emul. clear -Emul. induction txs as [|tx txs IH]; [constructor|]. cbn in Emul. apply orb_false_iff in Emul as [E1 E2].
    constructor; [done|by apply IH].
  - pose proof (block_txs_le kt (block_data block)) as Hs. cbn [block_data snd] in Hs. unfold blen in Hs at 2. unfold block_data in *.
    destruct (block_sigops_exact (vtx block)) as [E R]; [lia|]. rewrite E in Esig. rewrite u32_id in Esig by (unfold is_u32; lia).
    rewrite Z.gtb_ltb, Z.ltb_ge in Esig. lia.
Qed.

Lemma block_sound_count db block : block_sound db block -> Z.of_nat (length (vtx block)) <= 2 ^ 31.
Proof.
  intros H. pose proof (bs_size _ _ H) as Hs. pose proof (block_txs_le kt (block_data block)) as Hb. cbn [block_data snd] in Hb.
  assert (Z.of_nat (length (vtx block)) <= sum_Z ((fun tx => blen (SerializeTransaction false tx)) <$> vtx block)); [|lia].
  clear. unfold sum_Z, blen. induction (vtx block) as [|tx l IH]; cbn [fmap list_fmap foldr length]; [lia|].
  assert (0 < length (SerializeTransaction false tx))%nat; [|lia]. unfold SerializeTransaction. cbn zeta. rewrite length_app. cbn. lia.
Qed.

(** *** Against the chain *)

Lemma commitment_loop_spec outs : forall o pos,
  let r := commitment_loop outs o pos in
  (r = pos /\ Forall (fun out => is_commitment (scriptPubKey out) = false) outs)
  \/ exists out, outs !! Z.to_nat (r - o) = Some out /\ o <= r < o + Z.of_nat (length outs) /\ is_commitment (scriptPubKey out) = true.
Proof.
  induction outs as [|out outs IH]; intros o pos; cbn [commitment_loop]; [by left|]. cbn zeta.
  destruct (IH (o + 1) (if is_commitment (scriptPubKey out) then o else pos)) as [[E F]|(x & Hx & Hr & Hc)]; cbn zeta in *.
  - rewrite E. destruct (is_commitment (scriptPubKey out)) eqn:Ec.
    + right. exists out. rewrite Z.sub_diag. split; [done|]. split; [cbn; lia|done].
    + left. split; [done|by constructor].
  - right. exists x. set (r := commitment_loop _ _ _) in *. replace (Z.to_nat (r - o)) with (S (Z.to_nat (r - (o + 1)))) by lia.
    split; [done|]. split; [cbn [length]; lia|done].
Qed.

(** The block commits to its witnesses: the last output of the coinbase with the magic
    bytes carries the hash of the witness root and of the nonce in the coinbase. *)
Definition commits (block : CBlock) : Prop :=
  exists cb txs i nonce out, vtx block = cb :: txs /\ vin cb !! 0%nat = Some i /\ scriptWitness i = [nonce] /\ length nonce = 32%nat
    /\ vout cb !! Z.to_nat (GetWitnessCommitmentIndex block) = Some out /\ is_commitment (scriptPubKey out) = true
    /\ take 32 (drop 6 (scriptPubKey out)) = Hash2 (merkle_root Hash2 (uint256_zero :: (GetWitnessHash <$> txs))) nonce.

Lemma witness_commitment_spec cb txs h c nonce : Z.of_nat (length (cb :: txs)) <= 2 ^ 31 ->
  witness_commitment (mkBlock h (cb :: txs) c) nonce = Ok (Hash2 (merkle_root Hash2 (uint256_zero :: (GetWitnessHash <$> txs))) nonce).
Proof.
  intros Hl. unfold witness_commitment, BlockWitnessMerkleRoot. cbn [vtx fmap list_fmap].
  destruct (merkle_total Hash2 (uint256_zero :: (GetWitnessHash <$> txs))) as [mu E]; [done|cbn [length] in *; rewrite length_fmap; lia|].
  change (list_fmap _ _ GetWitnessHash txs) with (GetWitnessHash <$> txs) in *. rewrite E. reflexivity.
Qed.

(** Segregated witness is on and the coinbase has a commitment. *)
Definition has_commitment (block : CBlock) : bool := nSegwitEnabled params && negb (GetWitnessCommitmentIndex block =? -1).

Lemma check_commitment_facts block have : Z.of_nat (length (vtx block)) <= 2 ^ 31 -> check_commitment params block = Ok have ->
  have = has_commitment block /\ (have = true -> commits block).
Proof.
  intros Hl. unfold check_commitment, has_commitment. rewrite <- (negb_involutive (nSegwitEnabled params)), <- negb_orb, negb_involutive.
  destruct (negb (nSegwitEnabled params) || (GetWitnessCommitmentIndex block =? -1)) eqn:E0; [by intros [= <-]|].
  apply orb_false_iff in E0 as [_ E0]. apply Z.eqb_neq in E0. intros H. apply bind_Ok in H as (? & _ & H). cbv beta in H.
  apply bind_Ok in H as (cb & Ecb & H). apply bind_Ok in H as (i & Ei & H). apply bind_Ok in H as (nonce & En & H).
  apply bind_Ok in H as (hw & Ehw & H). apply bind_Ok in H as (out & Eo & H). apply bind_Ok in H as ([] & Eq & [= <-]). split; [done|]. intros _.
  apply halting_Ok in Ecb, Ei, Ehw, Eo. apply reject_if_Ok, negb_false_iff, bool_decide_eq_true in Eq.
  unfold coinbase in Ecb. destruct block as [h [|cb' txs] ck]; [discriminate|]. injection Ecb as ->. cbn [vtx] in *.
  rewrite witness_commitment_spec in Ehw by done. injection Ehw as <-.
  unfold first_input in Ei. destruct (vin cb) as [|i' vi] eqn:Evi; [discriminate|]. injection Ei as ->.
  destruct (scriptWitness i) as [|n' [|]] eqn:Ew; try discriminate. destruct (length n' =? 32)%nat eqn:El; [|discriminate]. injection En as ->.
  apply Nat.eqb_eq in El. destruct (vout cb !! Z.to_nat (GetWitnessCommitmentIndex _)) as [o|] eqn:Eout; [|discriminate]. injection Eo as ->.
  exists cb, txs, i, nonce, out. rewrite Evi. split_and!; try done.
  pose proof (commitment_loop_spec (vout cb) 0 (-1)) as Hc. cbn zeta in Hc. unfold GetWitnessCommitmentIndex in E0, Eout. cbn [vtx] in E0, Eout.
  destruct Hc as [[E _]|(y & Hx & _ & Hc)]; [done|]. rewrite Z.sub_0_r, Eout in Hx. by injection Hx as ->.
Qed.

(** The part that depends on the chain below the block, whose tip is [p]. *)
Record block_sound_at (p : ptr) (block : CBlock) : Prop := mkBlockSoundAt {
  ba_final : exists b cutoff, mem !! p = Some b
    /\ (if nCSVEnabled params then GetMedianTimePast mem p = Ok cutoff else cutoff = hdr_nTime (block_header block))
    /\ Forall (fun tx => IsFinalTx tx (Chain.nHeight b + 1) cutoff = true) (vtx block)
    (** The input script of the coinbase starts with the height. *)
    /\ (nBIP34Enabled params = true -> exists cb txs i rest, vtx block = cb :: txs /\ vin cb !! 0%nat = Some i
          /\ scriptSig i = push_int64 (Chain.nHeight b + 1) ++ rest);
  ba_witness : if has_commitment block then commits block else Forall (fun tx => HasWitness tx = false) (vtx block);
  ba_weight : GetBlockWeight kt (block_data block) <= 8000000;
}.

Lemma check_coinbase_height_facts block h : check_coinbase_height block h = Ok tt ->
  exists cb txs i rest, vtx block = cb :: txs /\ vin cb !! 0%nat = Some i /\ scriptSig i = push_int64 h ++ rest.
Proof.
  unfold check_coinbase_height. cbv zeta. intros H. apply bind_Ok in H as (cb & Ecb & H). apply bind_Ok in H as (i & Ei & H).
  apply halting_Ok in Ecb, Ei. apply reject_if_Ok, orb_false_iff in H as [_ H]. apply negb_false_iff, bool_decide_eq_true in H.
  unfold coinbase in Ecb. destruct (vtx block) as [|cb' txs]; [discriminate|]. injection Ecb as ->.
  unfold first_input in Ei. destruct (vin cb) as [|i' vi] eqn:Ev; [discriminate|]. injection Ei as ->.
  exists cb, txs, i, (drop (length (push_int64 h)) (scriptSig i)). split; [done|]. rewrite Ev. split; [done|]. rewrite <- H at 1. by rewrite take_drop.
Qed.

Lemma ContextualCheckBlock_facts block p : Z.of_nat (length (vtx block)) <= 2 ^ 31 ->
  Contextual block (Some p) = Ok tt -> block_sound_at p block.
Proof.
  intros Hl. unfold ContextualCheckBlock. intros H. apply bind_Ok in H as (height & Eh & H). cbv beta in H.
  apply bind_Ok in Eh as (b & Eb & Eh). injection Eh as <-. apply halting_Ok in Eb. unfold deref in Eb. destruct (mem !! p) as [b'|] eqn:Ep; [|discriminate].
  injection Eb as ->. apply bind_Ok in H as (cutoff & Ecut & H). cbv beta in H. apply bind_Ok in H as ([] & Efin & H). cbv beta in H.
  apply bind_Ok in H as ([] & Eheight & H). cbv beta in H. apply bind_Ok in H as (have & Ehave & H). cbv beta in H.
  apply bind_Ok in H as ([] & Ewit & H). apply reject_if_Ok in Efin, Ewit, H. apply negb_false_iff in Efin.
  constructor.
  - exists b, cutoff. split; [done|]. split; [destruct (nCSVEnabled params); [by apply halting_Ok|by injection Ecut]|]. split.
    + apply Forall_forall. intros tx Htx. rewrite forallb_forall in Efin. apply Efin. by apply list_elem_of_In.
    + intros E. rewrite E in Eheight. by apply check_coinbase_height_facts in Eheight.
  - apply check_commitment_facts in Ehave as [<- Hc]; [|done]. destruct have; [by apply Hc|]. cbn in Ewit. apply Forall_forall. intros tx Htx.
    destruct (HasWitness tx) eqn:E; [|done]. assert (existsb HasWitness (vtx block) = true); [|congruence].
    apply existsb_exists. exists tx. split; [by apply list_elem_of_In|done].
  - unfold GetMaxBlockWeight, MAX_BLOCK_WEIGHT_RIP2 in H. rewrite Z.gtb_ltb, Z.ltb_ge in H. lia.
Qed.
End Sound.

(** ** The miner's commitment *)

Lemma commitment_loop_app l1 l2 : forall o pos, commitment_loop (l1 ++ l2) o pos =
  commitment_loop l2 (o + Z.of_nat (length l1)) (commitment_loop l1 o pos).
Proof.
  induction l1 as [|x l1 IH]; intros o pos; cbn [app commitment_loop length]; [by rewrite Z.add_0_r|].
  rewrite IH. f_equal. lia.
Qed.

Lemma commitment_script_ok h : length h = 32%nat -> is_commitment (commitment_script h) = true /\ take 32 (drop 6 (commitment_script h)) = h.
Proof.
  intros Hl. split.
  - unfold is_commitment. rewrite andb_true_iff. split; [|by rewrite bool_decide_eq_true].
    apply Nat.leb_le. unfold commitment_script. rewrite length_app, Hl. cbn. lia.
  - change (drop 6 (commitment_script h)) with h. apply take_ge. lia.
Qed.

Lemma Hash2_length a b : length (Hash2 a b) = 32%nat.
Proof. rewrite Hash2_spec. apply sha256_digest. Qed.

Lemma check_commitment_Ok params block cb txs k i nonce out hw :
  nSegwitEnabled params = true -> vtx block = cb :: txs -> GetWitnessCommitmentIndex block = Z.of_nat k ->
  head (vin cb) = Some i -> scriptWitness i = [nonce] -> (length nonce =? 32)%nat = true -> vout cb !! k = Some out ->
  witness_commitment block nonce = Ok hw -> take 32 (drop 6 (scriptPubKey out)) = hw -> check_commitment params block = Ok true.
Proof.
  intros Hseg Hv Hi Hin Hw Hn Ho Hc Hs. unfold check_commitment. rewrite Hi, Hseg. destruct (Z.eqb_spec (Z.of_nat k) (-1)); [lia|].
  assert (first_input cb = Ok i) as Ef by (unfold first_input; destruct (vin cb); [discriminate|by injection Hin as ->]).
  unfold coinbase. rewrite Hv, Nat2Z.id.
  destruct (BlockWitnessMerkleRoot Hash2 (GetWitnessHash <$> cb :: txs)) as [[r m]|] eqn:Er;
    [|unfold witness_commitment in Hc; rewrite Hv, Er in Hc; discriminate].
  cbn [negb orb halting mbind result_bind]. rewrite Ef. cbn [halting mbind result_bind]. rewrite Hw, Hn. cbn [mbind result_bind]. rewrite Hc. cbn [halting mbind result_bind].
  rewrite Ho. cbn [halting mbind result_bind]. by rewrite Hs, bool_decide_true.
Qed.

Section Commitment.
Context (params : Params) (h : CBlockHeader) (ck : bool) (cb : CTransaction) (i : CTxIn) (vi : list CTxIn) (txs : list CTransaction).
Context (Hin : vin cb = i :: vi).
Local Abbreviation zero_nonce := (replicate 32 0).
Local Abbreviation witness_root := (merkle_root Hash2 (uint256_zero :: (GetWitnessHash <$> txs))).

(** The coinbase that [GenerateCoinbaseCommitment] leaves. *)
Definition committed : CTransaction :=
  mkTx (mkTxIn (prevout i) (scriptSig i) (nSequence i) [zero_nonce] :: vi)
       (vout cb ++ [mkTxOut 0 (commitment_script (Hash2 witness_root zero_nonce))]) (Transaction.nVersion cb) (nLockTime cb).

Lemma committed_index : GetWitnessCommitmentIndex (mkBlock h (committed :: txs) ck) = Z.of_nat (length (vout cb)).
Proof.
  unfold GetWitnessCommitmentIndex, committed. cbn [vtx vout]. rewrite commitment_loop_app. cbn [commitment_loop scriptPubKey].
  rewrite (proj1 (commitment_script_ok _ (Hash2_length _ _))). lia.
Qed.

Lemma GenerateCoinbaseCommitment_spec : Z.of_nat (length (cb :: txs)) <= 2 ^ 31 -> nSegwitEnabled params = true -> HasWitness cb = false ->
  GetWitnessCommitmentIndex (mkBlock h (cb :: txs) ck) = -1 ->
  GenerateCoinbaseCommitment params (mkBlock h (cb :: txs) ck)
  = Ok (mkBlock h (committed :: txs) ck, commitment_script (Hash2 witness_root zero_nonce)).
Proof.
  intros Hl Hseg Hw Hi. unfold GenerateCoinbaseCommitment. rewrite Hseg, Hi. cbn [Z.eqb Pos.eqb andb].
  rewrite witness_commitment_spec by done. unfold coinbase. cbn [vtx mbind result_bind].
  unfold UpdateUncommittedBlockStructures. rewrite Hseg.
  set (b := set_coinbase _ _).
  assert (GetWitnessCommitmentIndex b = Z.of_nat (length (vout cb))) as ->.
  { rewrite <- committed_index. reflexivity. }
  destruct (Z.eqb_spec (Z.of_nat (length (vout cb))) (-1)); [lia|]. cbn [negb andb].
  change (coinbase b) with (Ok (E := fault) (mkTx (vin cb) (vout cb ++ [mkTxOut 0 (commitment_script (Hash2 witness_root zero_nonce))])
    (Transaction.nVersion cb) (nLockTime cb))).
  cbn [mbind result_bind]. unfold HasWitness in *. cbn [vin]. rewrite Hw. unfold set_witness_nonce, first_input. cbn [vin]. rewrite Hin.
  reflexivity.
Qed.

Lemma committed_check : Z.of_nat (length (cb :: txs)) <= 2 ^ 31 -> nSegwitEnabled params = true ->
  check_commitment params (mkBlock h (committed :: txs) ck) = Ok true.
Proof.
  intros Hl Hseg. destruct (commitment_script_ok _ (Hash2_length witness_root zero_nonce)) as [_ Hscript].
  refine (check_commitment_Ok params (mkBlock h (committed :: txs) ck) committed txs (length (vout cb)) _ zero_nonce
    (mkTxOut 0 (commitment_script (Hash2 witness_root zero_nonce))) _
    Hseg eq_refl committed_index eq_refl eq_refl eq_refl _ (witness_commitment_spec committed txs h ck zero_nonce Hl) Hscript).
  unfold committed. cbn [vout]. rewrite lookup_app_r, Nat.sub_diag by lia. exact eq_refl.
Qed.
End Commitment.

(** ** The claimed height *)

Definition set_height (h : CBlockHeader) (n : Z) : CBlockHeader :=
  mkHeader (hdr_nVersion h) (hdr_hashPrevBlock h) (hdr_hashMerkleRoot h) (hdr_nTime h) (hdr_nBits h) (hdr_nNonce h) n
           (hdr_nNonce64 h) (hdr_mix_hash h).

Lemma CheckBlockHeader_halts {sph : SphLib} net kt params checkpoints mem index cached h :
  is_kawpow kt h = true -> GetLastCheckpoint index checkpoints = None -> cached_ok cached ->
  2 ^ 31 <= hdr_nHeight h <= 2 ^ 32 - 128 * epoch_length ->
  exists f, CheckBlockHeader net kt params checkpoints mem index cached h true = Err (Halt f).
Proof.
  intros Hk Hc Hcached Hh. unfold CheckBlockHeader. rewrite Hk, Hc. cbn [andb negb mbind result_bind].
  unfold GetHashFull. unfold is_kawpow in Hk. rewrite Z.geb_leb in Hk. rewrite Z.ltb_antisym, Hk. cbn [negb].
  destruct (KAWPOWHash_aborts cached h Hh Hcached) as [f ->]. exists f. reflexivity.
Qed.

Lemma CheckBlockHeader_below {sph : SphLib} net kt params checkpoints mem index cached h p b :
  is_kawpow kt h = true -> GetLastCheckpoint index checkpoints = Some p -> mem !! p = Some b ->
  hdr_nHeight h <= u32 (Chain.nHeight b) ->
  CheckBlockHeader net kt params checkpoints mem index cached h true
  = (if CheckProofOfWork params (KAWPOWHash_OnlyMix h) (hdr_nBits h) then Ok cached else DoS 50 "high-hash").
Proof.
  intros Hk Hc Hb Hh. unfold CheckBlockHeader. rewrite Hk, Hc. unfold deref. rewrite Hb. cbn [andb halting mbind result_bind].
  rewrite (proj2 (Z.leb_le _ _) Hh). unfold header_GetHash. unfold is_kawpow in Hk. rewrite Z.geb_leb in Hk. rewrite Z.ltb_antisym, Hk. cbn [negb].
  by destruct (CheckProofOfWork params _ _).
Qed.

(** ** Theorems *)

(** The money that blocks create is bounded.  For every halving interval up to that of
    the main network each block has a subsidy, the first block's is the largest, and the
    subsidies of any number of blocks together stay within [MAX_MONEY], so that no sum of
    them overflows. *)
Theorem total_subsidy_bounded (p : Params) (n : nat) : 0 < nSubsidyHalvingInterval p <= 2100000 ->
  (forall h, 0 <= h -> GetBlockSubsidy h p = Ok (5000 * COIN / 2 ^ (h / nSubsidyHalvingInterval p)))
  /\ 0 <= total_subsidy p n <= MAX_MONEY /\ MAX_MONEY < 2 ^ 63.
Proof.
  intros Hp. split; [intros h Hh; apply GetBlockSubsidy_spec; lia|]. split; [|done].
  pose proof (total_subsidy_bound p ltac:(lia) n) as H. unfold MAX_MONEY, COIN in *. lia.
Qed.

Lemma total_subsidy_bounded_witness : 0 <= total_subsidy main_params (Z.to_nat 10000000) <= MAX_MONEY.
Proof.
  apply (total_subsidy_bounded main_params (Z.to_nat 10000000)). vm_compute. split; [reflexivity|discriminate].
Defined.

(** C1: An accepted block is sound.  A block that passes [CheckBlock] with all checks, and
    then [ContextualCheckBlock] on top of the block [p], has a proof of work on the hash
    that identifies it; the Merkle root of its header is that of its transactions, which
    contain no repetition that the root hides; exactly the first transaction is a
    coinbase; every transaction has the properties that [CheckTransaction] establishes and
    is final; the coinbase starts with the height; the coinbase commits to the witnesses,
    or there are none; and size, weight and the exact number of signature operations are
    within the limits. *)
Theorem block_accepted_sound {sph : SphLib} net kt params checkpoints chain un ts mem index cached block db block' c p :
  fChecked block = false ->
  CheckBlock net kt params checkpoints chain un ts mem index cached block true true db = Ok (block', c) ->
  ContextualCheckBlock kt params mem block (Some p) = Ok tt ->
  block_sound net kt params chain db block /\ block_sound_at kt params mem p block
  /\ block' = mkBlock (block_header block) (vtx block) true.
Proof.
  intros Hck H1 H2. destruct (CheckBlock_facts _ _ _ _ _ _ _ _ _ _ _ _ _ _ Hck H1) as [Hs ->]. split; [done|]. split; [|done].
  apply ContextualCheckBlock_facts; [|done]. apply (block_sound_count _ _ _ _ _ _ Hs).
Qed.

(** A node that hashes everything to zero, and a block on the example chain: a coinbase
    for height 3 and a payment, with the commitment that the miner adds. *)
Definition zero_sph : SphLib := {| sph512 := fun _ _ => replicate 64 0; sph_tiger := fun _ => replicate 24 0 |}.
Definition example_coinbase : CTransaction :=
  mkTx [mkTxIn outpoint_SetNull [0x53; 0] SEQUENCE_FINAL []] [mkTxOut (5000 * COIN) [opcode_value OP_RETURN]] 1 0.
Definition example_payment : CTransaction := mkTx [mkTxIn (mkOutPoint (replicate 32 7) 0) [] SEQUENCE_FINAL []] [mkTxOut COIN [opcode_value OP_RETURN]] 1 0.
Definition example_header (root : bytes) : CBlockHeader := mkHeader 0x30000000 null_uint256 root 2000 0x1e0fffff 0 0 0 null_uint256.
Definition uncommitted_block : CBlock := mkBlock (example_header null_uint256) [example_coinbase; example_payment] false.
Definition example_block : CBlock := Eval vm_compute in
  match GenerateCoinbaseCommitment main_params uncommitted_block with
  | Ok (b, _) => mkBlock (example_header (merkle_root Hash2 (GetHash <$> vtx b))) (vtx b) false
  | Err _ => uncommitted_block
  end.
Lemma example_check : CheckBlock (sph := zero_sph) (mkNetwork false false) 5000000 main_params [] test_chain INVALID (fun _ => EmptyString)
  ex_heap ∅ None example_block true true false = Ok (mkBlock (block_header example_block) (vtx example_block) true, None).
Proof. vm_compute. reflexivity. Qed.
Lemma example_contextual : ContextualCheckBlock 5000000 main_params ex_heap example_block (Some 3%positive) = Ok tt.
Proof. vm_compute. reflexivity. Qed.

Lemma block_accepted_sound_witness :
  block_sound (sph := zero_sph) (mkNetwork false false) 5000000 main_params test_chain false example_block
  /\ block_sound_at 5000000 main_params ex_heap 3%positive example_block.
Proof.
  destruct (block_accepted_sound (sph := zero_sph) (mkNetwork false false) 5000000 main_params [] test_chain INVALID (fun _ => EmptyString)
    ex_heap ∅ None example_block false _ None 3%positive eq_refl example_check example_contextual) as (H1 & H2 & _).
  split; [exact H1|exact H2].
Defined.

(** The commitment that a miner adds is the one that validators look for.  On a block
    whose coinbase has neither a commitment nor a witness, [GenerateCoinbaseCommitment]
    appends one output and sets the nonce, leaves the header and the other transactions
    as they are, and the result passes the check of the commitment and commits to the
    witnesses of the other transactions. *)
Theorem commitment_accepted (params : Params) (h : CBlockHeader) (ck : bool) (cb : CTransaction) (txs : list CTransaction) :
  nSegwitEnabled params = true -> vin cb <> [] -> HasWitness cb = false -> Z.of_nat (length (cb :: txs)) <= 2 ^ 31 ->
  GetWitnessCommitmentIndex (mkBlock h (cb :: txs) ck) = -1 ->
  exists cb' out, GenerateCoinbaseCommitment params (mkBlock h (cb :: txs) ck) = Ok (mkBlock h (cb' :: txs) ck, scriptPubKey out)
    /\ vout cb' = vout cb ++ [out] /\ nValue out = 0
    /\ check_commitment params (mkBlock h (cb' :: txs) ck) = Ok true /\ commits (mkBlock h (cb' :: txs) ck).
Proof.
  intros Hseg Hin Hw Hl Hi. destruct (vin cb) as [|i vi] eqn:Ev; [done|].
  exists (committed cb i vi txs), (mkTxOut 0 (commitment_script (Hash2 (merkle_root Hash2 (uint256_zero :: (GetWitnessHash <$> txs))) (replicate 32 0)))).
  assert (check_commitment params (mkBlock h (committed cb i vi txs :: txs) ck) = Ok true) as Hc by (by apply committed_check).
  split; [by apply GenerateCoinbaseCommitment_spec|]. split; [done|]. split; [done|]. split; [exact Hc|].
  apply (check_commitment_facts params) in Hc as [_ Hc]; [by apply Hc|exact Hl].
Qed.

Lemma commitment_accepted_witness : exists cb' out,
  GenerateCoinbaseCommitment main_params uncommitted_block = Ok (mkBlock (block_header uncommitted_block) (cb' :: [example_payment]) false, scriptPubKey out)
  /\ check_commitment main_params (mkBlock (block_header uncommitted_block) (cb' :: [example_payment]) false) = Ok true.
Proof.
  destruct (commitment_accepted main_params (example_header null_uint256) false example_coinbase [example_payment]) as (cb' & out & E & _ & _ & Hc & _);
    [reflexivity|discriminate|reflexivity|vm_compute; discriminate|vm_compute; reflexivity|]. exists cb', out. split; [exact E|exact Hc].
Defined.

(** C38: The height that a header claims is never compared with the height of the block.
    [ContextualCheckBlockHeader] has the same answer for every claimed height.  A header
    that claims a height below the last checkpoint is accepted without the memory-hard
    hash, whatever its real height; and without a checkpoint in the index, one that claims
    a height from 2^31 to 2^32 - 960000, which as an [int] is -960000 or less, makes the
    hash function fail (it divides by the size of an empty data set), so that the check
    does not return. *)
Theorem claimed_height_unchecked {sph : SphLib} net kt dgw params checkpoints chain mem index node cached h prev :
  is_kawpow kt h = true ->
  (forall n, ContextualCheckBlockHeader kt dgw params checkpoints chain mem index node (set_height h n) prev
             = ContextualCheckBlockHeader kt dgw params checkpoints chain mem index node h prev)
  /\ (forall p b n, GetLastCheckpoint index checkpoints = Some p -> mem !! p = Some b -> n <= u32 (Chain.nHeight b) ->
      CheckBlockHeader net kt params checkpoints mem index cached (set_height h n) true
      = (if CheckProofOfWork params (KAWPOWHash_OnlyMix (set_height h n)) (hdr_nBits h) then Ok cached else DoS 50 "high-hash"))
  /\ (GetLastCheckpoint index checkpoints = None -> cached_ok cached -> forall n, 2 ^ 31 <= n <= 2 ^ 32 - 128 * epoch_length ->
      exists f, CheckBlockHeader net kt params checkpoints mem index cached (set_height h n) true = Err (Halt f)).
Proof.
  intros Hk. split; [reflexivity|]. split.
  - intros p b n Hc Hb Hn. exact (CheckBlockHeader_below net kt params checkpoints mem index cached (set_height h n) p b Hk Hc Hb Hn).
  - intros Hc Hcached n Hn. exact (CheckBlockHeader_halts net kt params checkpoints mem index cached (set_height h n) Hk Hc Hcached Hn).
Qed.

Lemma claimed_height_unchecked_witness : exists f,
  CheckBlockHeader (sph := zero_sph) (mkNetwork false false) 1000 main_params [] ex_heap ∅ None (set_height (example_header null_uint256) (2 ^ 32 - 960000)) true
  = Err (Halt f).
Proof.
  refine (proj2 (proj2 (claimed_height_unchecked (sph := zero_sph) (mkNetwork false false) 1000 0 main_params [] test_chain ex_heap ∅
    (mkNode [] 0 0 0 None 0 false 0) None (example_header null_uint256) 3%positive _)) _ _ (2 ^ 32 - 960000) _);
    [reflexivity|reflexivity|exact I|vm_compute; split; discriminate].
Defined.
