(* ===== verification/BlockBinding.v ===== *)
(** * What the header of a block determines

    The Merkle root in the header fixes the transactions of an accepted block, and the
    commitment in the coinbase fixes their witnesses ([CheckBlock] and
    [ContextualCheckBlock] of [src/validation.cpp]).  Two accepted blocks with the same
    header are therefore equal, or two of the strings that were hashed for them are an
    explicit collision of double SHA-256. *)

From S2P Require Import Progpow Ethash Keccak.
From S2P Require Import Prelude Params HashFns Chain Merkle Serialize Transaction.
From S2P Require Import TxVerify AssetNames AssetScripts AssetRules CheckTransaction BlockCheck.

(** ** Hashes of strings *)

Lemma Hash2_Hash a b : Hash2 a b = Hash (a ++ b).
Proof. by rewrite Hash2_spec, Hash_spec. Qed.
Lemma Hash_length x : length (Hash x) = 32%nat.
Proof. rewrite Hash_spec. apply sha256_digest. Qed.

(** ** The strings hashed for a Merkle tree *)

Local Abbreviation tree := (merkle_tree Hash2).

Fixpoint tree_inputs (h : nat) (l : list bytes) : list bytes :=
  match h with
  | O => []
  | S h =>
    if decide (length l <= 2 ^ h)%nat then (tree h l ++ tree h l) :: tree_inputs h l
    else (tree h (take (2 ^ h) l) ++ tree h (drop (2 ^ h) l)) :: tree_inputs h (take (2 ^ h) l) ++ tree_inputs h (drop (2 ^ h) l)
  end.

Local Abbreviation hashes := (Forall (fun x : bytes => length x = 32%nat)).

Lemma tree_length h l : hashes l -> length (tree h l) = 32%nat.
Proof.
  destruct h as [|h]; cbn [merkle_tree]; [|intros; destruct (decide _); apply Hash2_length].
  destruct 1; [reflexivity|done].
Qed.

(** The hash of a node determines the hashes of its children. *)
Lemma node_binding xs ys a b c d : (a ++ b) ∈ xs -> (c ++ d) ∈ ys -> length a = 32%nat -> length c = 32%nat ->
  Hash2 a b = Hash2 c d -> (a = c /\ b = d) \/ collides xs ys.
Proof.
  intros Hx Hy Ha Hc. rewrite !Hash2_Hash. intros E. destruct (Hash_binding xs ys _ _ Hx Hy E) as [H|H]; [left|by right].
  apply app_inj_1 in H; [done|congruence].
Qed.

Lemma tree_inputs_binding h : forall l1 l2, hashes l1 -> hashes l2 -> (0 < length l1)%nat -> (0 < length l2)%nat ->
  tree h l1 = tree h l2 -> pad h l1 = pad h l2 \/ collides (tree_inputs h l1) (tree_inputs h l2).
Proof.
  induction h as [|h IH]; intros l1 l2 F1 F2 N1 N2 E.
  - left. destruct l1, l2; cbn in *; try lia. by rewrite E.
  - pose proof (pow2_pos h). cbn [merkle_tree pad tree_inputs] in *.
    assert (forall l, hashes l -> hashes (take (2 ^ h) l) /\ hashes (drop (2 ^ h) l)) as Hf
      by (intros l F; split; [by apply Forall_take|by apply Forall_drop]).
    destruct (Hf l1 F1), (Hf l2 F2).
    destruct (decide (length l1 <= 2 ^ h)%nat), (decide (length l2 <= 2 ^ h)%nat);
      match type of E with Hash2 ?a ?b = Hash2 ?c ?d =>
        match goal with |- _ \/ collides ?xs ?ys =>
          destruct (node_binding xs ys a b c d) as [[Ea Eb]|]; [by left|by left|by apply tree_length|by apply tree_length|done| |by right]
        end
      end;
      (apply IH in Ea; [|done|done|rewrite ?length_take; lia|rewrite ?length_take; lia]);
      (apply IH in Eb; [|done|done|rewrite ?length_take, ?length_drop; lia|rewrite ?length_take, ?length_drop; lia]);
      (destruct Ea as [Ea|Ea]; [|right; eapply collides_mono; [..|exact Ea]; sub_list]);
      (destruct Eb as [Eb|Eb]; [|right; eapply collides_mono; [..|exact Eb]; sub_list]); left; congruence.
Qed.

Lemma height_fits (l : list bytes) : l <> [] -> (0 < length l <= 2 ^ tree_height (length l))%nat.
Proof.
  intros Hl. assert (0 < length l)%nat by (destruct l; [done|cbn; lia]). split; [done|]. by apply Nat.log2_up_le_pow2.
Qed.

Lemma merkle_inputs_binding l1 l2 : l1 <> [] -> l2 <> [] -> hashes l1 -> hashes l2 -> tree_height (length l1) = tree_height (length l2) ->
  ~ has_twin Hash2 l1 -> ~ has_twin Hash2 l2 -> merkle_root Hash2 l1 = merkle_root Hash2 l2 ->
  l1 = l2 \/ collides (tree_inputs (tree_height (length l1)) l1) (tree_inputs (tree_height (length l2)) l2).
Proof.
  intros N1 N2 F1 F2 Hh T1 T2 E.
  pose proof (height_fits l1 N1) as H1. pose proof (height_fits l2 N2) as H2.
  assert (tree (tree_height (length l1)) l1 = tree (tree_height (length l2)) l2) as E' by (unfold merkle_root in E; by destruct l1, l2).
  rewrite <- Hh in *. set (h := tree_height (length l1)) in *.
  destruct (tree_inputs_binding h l1 l2 F1 F2 ltac:(lia) ltac:(lia) E') as [Hp|]; [left|by right].
  destruct (lt_eq_lt_dec (length l1) (length l2)) as [[Hlt|Heq]|Hgt].
  - destruct T2. apply (pad_twin Hash2 h l1); try done; lia.
  - rewrite <- (pad_prefix h l1), <- (pad_prefix h l2) by done. by rewrite Hp, Heq.
  - destruct T1. apply (pad_twin Hash2 h l2); try done; lia.
Qed.

(** Lists of the same length need no condition on repetitions. *)
Lemma merkle_inputs_same l1 l2 : l1 <> [] -> hashes l1 -> hashes l2 -> length l1 = length l2 ->
  merkle_root Hash2 l1 = merkle_root Hash2 l2 ->
  l1 = l2 \/ collides (tree_inputs (tree_height (length l1)) l1) (tree_inputs (tree_height (length l2)) l2).
Proof.
  intros N1 F1 F2 Hl E. rewrite <- Hl. set (h := tree_height (length l1)).
  pose proof (height_fits l1 N1 : (0 < length l1 <= 2 ^ h)%nat) as H1.
  assert (tree h l1 = tree h l2) as E' by (unfold merkle_root in E; rewrite <- Hl in E; by destruct l1, l2).
  destruct (tree_inputs_binding h l1 l2 F1 F2 ltac:(lia) ltac:(lia) E') as [Hp|]; [left|by right].
  rewrite <- (pad_prefix h l1), <- (pad_prefix h l2) by lia. by rewrite Hp, Hl.
Qed.

(** ** The strings hashed for a block *)

(** The nonce in the witness of the coinbase. *)
Definition witness_nonce (block : CBlock) : bytes :=
  match vtx block with
  | cb :: _ => match vin cb with i :: _ => concat (scriptWitness i) | [] => [] end
  | [] => []
  end.

Definition tx_leaves (block : CBlock) : list bytes := GetHash <$> vtx block.
Definition witness_leaves (block : CBlock) : list bytes := uint256_zero :: (GetWitnessHash <$> drop 1 (vtx block)).
Definition leaf_inputs (l : list bytes) : list bytes := tree_inputs (tree_height (length l)) l.

Definition hashed (block : CBlock) : list bytes :=
  leaf_inputs (tx_leaves block) ++ (SerializeTransaction false <$> vtx block)
  ++ [merkle_root Hash2 (witness_leaves block) ++ witness_nonce block]
  ++ leaf_inputs (witness_leaves block) ++ (SerializeTransaction true <$> drop 1 (vtx block)).

(** Lists with the same hashes, where the hashed string determines [g]. *)
Lemma list_binding {B} (P : CTransaction -> Prop) (h f : CTransaction -> bytes) (g : CTransaction -> B) l1 :
  (forall t, h t = Hash (f t)) -> (forall t1 t2, P t1 -> P t2 -> f t1 = f t2 -> g t1 = g t2) ->
  forall l2, Forall P l1 -> Forall P l2 -> h <$> l1 = h <$> l2 -> g <$> l1 = g <$> l2 \/ collides (f <$> l1) (f <$> l2).
Proof.
  intros Hh Hf. induction l1 as [|t1 l1 IH]; intros [|t2 l2] F1 F2 E; try done; [by left|].
  cbn [fmap list_fmap] in *. apply Forall_cons in F1 as [P1 F1], F2 as [P2 F2]. injection E as E El. rewrite !Hh in E.
  destruct (Hash_binding (f t1 :: (f <$> l1)) (f t2 :: (f <$> l2)) (f t1) (f t2)) as [Ef|]; [by left|by left|done| |by right].
  destruct (IH l2) as [Eg|C]; [done|done|done| |right; eapply collides_mono; [..|exact C]; sub_list].
  left. f_equal; [by apply Hf|exact Eg].
Qed.

Lemma ids_binding l1 l2 : Forall tx_ok l1 -> Forall tx_ok l2 -> GetHash <$> l1 = GetHash <$> l2 ->
  strip_witness <$> l1 = strip_witness <$> l2 \/ collides (SerializeTransaction false <$> l1) (SerializeTransaction false <$> l2).
Proof.
  apply list_binding; [exact GetHash_spec|]. intros t1 t2 H1 H2 E. by apply (SerializeTransaction_inj false t1 t2).
Qed.

Lemma witness_ids_binding l1 l2 : Forall (fun t => tx_ok t /\ vin t <> []) l1 -> Forall (fun t => tx_ok t /\ vin t <> []) l2 ->
  GetWitnessHash <$> l1 = GetWitnessHash <$> l2 ->
  id <$> l1 = id <$> l2 \/ collides (SerializeTransaction true <$> l1) (SerializeTransaction true <$> l2).
Proof.
  apply list_binding; [exact GetWitnessHash_spec|]. intros t1 t2 [H1 N1] [H2 N2] E. apply (SerializeTransaction_inj true t1 t2); [done|done|by intros ? ?|by intros ? ?|done].
Qed.

Lemma no_witness_strip l : Forall (fun tx => HasWitness tx = false) l -> strip_witness <$> l = l.
Proof.
  induction 1 as [|tx l H F IH]; [done|]. cbn. f_equal; [|exact IH]. unfold strip_witness. rewrite HasWitness_false by done. by destruct tx.
Qed.

(** The same coinbase but for the witness, and the same nonce. *)
Lemma coinbase_binding cb1 cb2 n : IsCoinBase cb1 = true -> strip_witness cb1 = strip_witness cb2 ->
  (forall i, vin cb1 !! 0%nat = Some i -> scriptWitness i = n) -> (forall i, vin cb2 !! 0%nat = Some i -> scriptWitness i = n) -> cb1 = cb2.
Proof.
  unfold IsCoinBase, strip_witness. destruct cb1 as [v1 o1 ver1 lt1], cb2 as [v2 o2 ver2 lt2]. cbn [vin vout Transaction.nVersion nLockTime].
  intros Hc [= Hv -> -> ->] H1 H2. f_equal. destruct v1 as [|i1 [|]]; try done. destruct v2 as [|i2 [|]]; try done.
  cbn in Hv. injection Hv as Hv. specialize (H1 i1 eq_refl). specialize (H2 i2 eq_refl).
  destruct i1, i2. cbn in *. congruence.
Qed.

Section Binding.
Context {sph : SphLib} (net1 net2 : BlockNetwork) (kt : Z) (params : Params) (chain : asset_chain).

Lemma hashes_ids l : hashes (GetHash <$> l).
Proof. apply Forall_fmap, Forall_true. intros tx. unfold compose. rewrite GetHash_spec. apply Hash_length. Qed.
Lemma hashes_witness_ids l : hashes (uint256_zero :: (GetWitnessHash <$> l)).
Proof. constructor; [done|]. apply Forall_fmap, Forall_true. intros tx. unfold compose. rewrite GetWitnessHash_spec. apply Hash_length. Qed.

(** Two commitments to witnesses in the same output. *)
Lemma commits_binding b1 b2 : commits b1 -> commits b2 -> strip_witness <$> vtx b1 = strip_witness <$> vtx b2 ->
  Forall (fun t => tx_ok t /\ vin t <> []) (vtx b1) -> Forall (fun t => tx_ok t /\ vin t <> []) (vtx b2) ->
  (forall cb txs, vtx b1 = cb :: txs -> IsCoinBase cb = true) ->
  vtx b1 = vtx b2 \/ collides (hashed b1) (hashed b2).
Proof.
  intros (cb1 & txs1 & i1 & n1 & o1 & V1 & I1 & W1 & L1 & O1 & _ & C1) (cb2 & txs2 & i2 & n2 & o2 & V2 & I2 & W2 & L2 & O2 & _ & C2) Es F1 F2 Hcb.
  specialize (Hcb _ _ V1).
  assert (witness_nonce b1 = n1 /\ witness_nonce b2 = n2) as [N1 N2].
  { unfold witness_nonce. rewrite V1, V2. destruct (vin cb1), (vin cb2); try done. cbn in I1, I2. injection I1 as ->. injection I2 as ->.
    rewrite W1, W2. cbn. by rewrite !app_nil_r. }
  unfold GetWitnessCommitmentIndex in O1, O2. unfold hashed, witness_leaves. rewrite N1, N2, V1, V2 in *. cbn [drop] in *. rewrite !drop_0.
  assert (strip_witness cb1 = strip_witness cb2) as Ecb by (cbn in Es; congruence).
  assert (vout cb1 = vout cb2) as Ev by (apply (f_equal vout) in Ecb; exact Ecb).
  assert (length txs1 = length txs2) as El by (apply (f_equal length) in Es; rewrite !length_fmap in Es; by injection Es).
  rewrite Ev in O1. rewrite O1 in O2. injection O2 as ->. rewrite C1 in C2.
  assert (forall (xs ys zs : list bytes) x, x ∈ xs ++ ys ++ [x] ++ zs) as Hmid
    by (intros; apply elem_of_app; right; apply elem_of_app; right; by left).
  assert (forall txs, length (merkle_root Hash2 (uint256_zero :: (GetWitnessHash <$> txs))) = 32%nat) as Hlen
    by (intros txs; apply (tree_length _ (uint256_zero :: _)), hashes_witness_ids).
  match goal with |- _ \/ collides (?xs ++ ?ys ++ _ ++ ?zs) (?xs' ++ ?ys' ++ _ ++ ?zs') =>
    destruct (node_binding _ _ _ _ _ _ (Hmid xs ys zs _) (Hmid xs' ys' zs' _) (Hlen txs1) (Hlen txs2) C2) as [[Er <-]|C]; [|right; exact C]
  end.
  destruct (merkle_inputs_same (uint256_zero :: (GetWitnessHash <$> txs1)) (uint256_zero :: (GetWitnessHash <$> txs2)) ltac:(discriminate) (hashes_witness_ids txs1) (hashes_witness_ids txs2) ltac:(cbn; rewrite !length_fmap; lia) Er)
    as [Ew|C]; [|right; eapply collides_mono; [..|exact C]; unfold leaf_inputs; sub_list].
  injection Ew as Ew. apply Forall_cons in F1 as [_ F1], F2 as [_ F2].
  destruct (witness_ids_binding _ _ F1 F2 Ew) as [Et|C]; [left|right; eapply collides_mono; [..|exact C]; sub_list].
  rewrite !list_fmap_id in Et. rewrite Et. f_equal. apply (coinbase_binding cb1 cb2 [n1]); congruence.
Qed.

(** From the soundness of the two blocks. *)
Lemma sound_blocks_binding mem1 mem2 db1 db2 p1 p2 b1 b2 :
  block_sound net1 kt params chain db1 b1 -> block_sound_at kt params mem1 p1 b1 ->
  block_sound net2 kt params chain db2 b2 -> block_sound_at kt params mem2 p2 b2 ->
  Forall tx_ok (vtx b1) -> Forall tx_ok (vtx b2) ->
  hdr_hashMerkleRoot (block_header b1) = hdr_hashMerkleRoot (block_header b2) ->
  tree_height (length (vtx b1)) = tree_height (length (vtx b2)) ->
  vtx b1 = vtx b2 \/ collides (hashed b1) (hashed b2).
Proof.
  intros S1 A1 S2 A2 F1 F2 Er Eh.
  destruct (bs_merkle _ _ _ _ _ _ S1) as [R1 T1], (bs_merkle _ _ _ _ _ _ S2) as [R2 T2].
  destruct (bs_coinbase _ _ _ _ _ _ S1) as (cb1 & txs1 & V1 & CB1 & _), (bs_coinbase _ _ _ _ _ _ S2) as (cb2 & txs2 & V2 & _ & _).
  rewrite R1, R2 in Er.
  destruct (merkle_inputs_binding (tx_leaves b1) (tx_leaves b2)) as [El|C]; unfold tx_leaves;
    [by rewrite V1|by rewrite V2|apply hashes_ids|apply hashes_ids|by rewrite !length_fmap|done|done|done| |].
  2:{ right. eapply collides_mono; [..|exact C]; unfold hashed, leaf_inputs; sub_list. }
  destruct (ids_binding _ _ F1 F2 El) as [Es|C]; [|right; eapply collides_mono; [..|exact C]; unfold hashed; sub_list].
  assert (GetWitnessCommitmentIndex b1 = GetWitnessCommitmentIndex b2) as Ei.
  { unfold GetWitnessCommitmentIndex. rewrite V1, V2 in *. cbn in Es. assert (strip_witness cb1 = strip_witness cb2) as E by congruence.
    apply (f_equal vout) in E. cbn in E. by rewrite E. }
  pose proof (ba_witness _ _ _ _ _ A1) as W1. pose proof (ba_witness _ _ _ _ _ A2) as W2. unfold has_commitment in *. rewrite Ei in W1.
  destruct (nSegwitEnabled params && negb (GetWitnessCommitmentIndex b2 =? -1)).
  - assert (forall net db b, block_sound net kt params chain db b -> Forall tx_ok (vtx b) -> Forall (fun t => tx_ok t /\ vin t <> []) (vtx b)) as Hn.
    { intros net db b S F. apply Forall_and. split; [exact F|]. eapply Forall_impl; [exact (bs_transactions _ _ _ _ _ _ S)|].
      intros t Ht. apply (ts_nonempty _ _ _ _ _ Ht). }
    apply commits_binding; [done|done|done|by eapply Hn|by eapply Hn|]. intros cb txs E. rewrite V1 in E. by injection E as <- _.
  - left. rewrite <- (no_witness_strip (vtx b1)), <- (no_witness_strip (vtx b2)) by done. exact Es.
Qed.
End Binding.

(** C7: The header determines the block.  Two well-formed blocks that are accepted with the
    same Merkle root in their headers, and whose trees have the same height, have the same
    transactions, witnesses included; or a string hashed for one of them and a different
    string hashed for the other have the same double SHA-256. *)
Theorem header_determines_block {sph : SphLib} net kt params checkpoints chain un ts mem1 mem2 index1 index2
    cached1 cached2 db1 db2 b1 b2 r1 r2 p1 p2 :
  fChecked b1 = false -> CheckBlock net kt params checkpoints chain un ts mem1 index1 cached1 b1 true true db1 = Ok r1 ->
  ContextualCheckBlock kt params mem1 b1 (Some p1) = Ok tt ->
  fChecked b2 = false -> CheckBlock net kt params checkpoints chain un ts mem2 index2 cached2 b2 true true db2 = Ok r2 ->
  ContextualCheckBlock kt params mem2 b2 (Some p2) = Ok tt ->
  Forall tx_ok (vtx b1) -> Forall tx_ok (vtx b2) ->
  hdr_hashMerkleRoot (block_header b1) = hdr_hashMerkleRoot (block_header b2) ->
  tree_height (length (vtx b1)) = tree_height (length (vtx b2)) ->
  vtx b1 = vtx b2 \/ collides (hashed b1) (hashed b2).
Proof.
  intros U1 K1 X1 U2 K2 X2. destruct r1, r2.
  apply CheckBlock_facts in K1 as [S1 _]; [|done]. apply CheckBlock_facts in K2 as [S2 _]; [|done].
  apply ContextualCheckBlock_facts in X1; [|by eapply block_sound_count]. apply ContextualCheckBlock_facts in X2; [|by eapply block_sound_count].
  by eapply sound_blocks_binding.
Qed.

Lemma example_block_txs_ok : Forall tx_ok (vtx example_block).
Proof. repeat constructor; cbn; try lia; try (apply (bool_decide_unpack _); vm_compute; exact I). Qed.

Lemma header_determines_block_witness : vtx example_block = vtx example_block \/ collides (hashed example_block) (hashed example_block).
Proof.
  exact (header_determines_block (sph := zero_sph) (mkNetwork false false) 5000000 main_params [] test_chain INVALID (fun _ => EmptyString)
    ex_heap ex_heap ∅ ∅ None None false false example_block example_block _ _ 3%positive 3%positive
    eq_refl example_check example_contextual eq_refl example_check example_contextual
    example_block_txs_ok example_block_txs_ok eq_refl eq_refl).
Defined.
