(* ===== verification/BlockTree.v ===== *)
(** * The tree of headers: [src/validation.cpp], [src/chain.h]

    The block index as the node grows it: [AddToBlockIndex], [AcceptBlockHeader] and
    [ProcessNewBlockHeaders], with the checks of [BlockCheck] and the marks of invalid
    branches.  The state is a record of the global variables these functions change.

    The theorems: whatever headers arrive, in whatever order, the functions end with an
    answer and keep the index a tree in which every entry has the height, work, skip
    pointer and time bounds that the rest of the node relies on, and the best header is
    the one with the most work; and what the index makes of the height a header claims. *)

From S2P Require Import Progpow Ethash Keccak.
From S2P Require Import Prelude Endian Params HashFns ArithUint256 Chain MedianTime Merkle Pow VersionBits Serialize Script Transaction.
From S2P Require Import TxVerify AssetNames AssetScripts AssetRules CheckTransaction BlockCheck.

(** ** Block status *)

Definition BLOCK_VALID_TREE : Z := 2.
Definition BLOCK_VALID_TRANSACTIONS : Z := 3.
Definition BLOCK_VALID_SCRIPTS : Z := 5.
Definition BLOCK_HAVE_DATA : Z := 8.
Definition BLOCK_FAILED_VALID : Z := 32.
Definition BLOCK_FAILED_CHILD : Z := 64.
Definition BLOCK_OPT_WITNESS : Z := 128.

Definition has_flag (b : CBlockIndex) (flag : Z) : bool := negb (Z.land (nStatus b) flag =? 0).

(** Assignments to fields of an entry. *)
Definition set_status (b : CBlockIndex) (s : Z) : CBlockIndex :=
  mkBlockIndex (phashBlock b) (pprev b) (pskip b) (Chain.nHeight b) (nFile b) (nDataPos b) (nUndoPos b) (nChainWork b)
    (nTx b) (nChainTx b) s (Chain.nVersion b) (hashMerkleRoot b) (nTime b) (nBits b) (nNonce b) (nNonce64 b) (mix_hash b)
    (nSequenceId b) (nTimeMax b).
Definition set_prev (b : CBlockIndex) (q : ptr) (height : Z) : CBlockIndex :=
  mkBlockIndex (phashBlock b) (Some q) (pskip b) height (nFile b) (nDataPos b) (nUndoPos b) (nChainWork b)
    (nTx b) (nChainTx b) (nStatus b) (Chain.nVersion b) (hashMerkleRoot b) (nTime b) (nBits b) (nNonce b) (nNonce64 b) (mix_hash b)
    (nSequenceId b) (nTimeMax b).
Definition set_work (b : CBlockIndex) (timeMax : Z) (work : base_uint) (s : Z) : CBlockIndex :=
  mkBlockIndex (phashBlock b) (pprev b) (pskip b) (Chain.nHeight b) (nFile b) (nDataPos b) (nUndoPos b) work
    (nTx b) (nChainTx b) s (Chain.nVersion b) (hashMerkleRoot b) (nTime b) (nBits b) (nNonce b) (nNonce64 b) (mix_hash b)
    (nSequenceId b) timeMax.

(** [CBlockIndex(const CBlockHeader&)], with the hash the map gives it. *)
Definition index_of_header (hash : bytes) (block : CBlockHeader) : CBlockIndex :=
  mkBlockIndex (le_combine hash) None None (i32 (hdr_nHeight block)) 0 0 0 base_uint_zero 0 0 0
    (hdr_nVersion block) (le_combine (hdr_hashMerkleRoot block)) (hdr_nTime block) (hdr_nBits block) (hdr_nNonce block)
    (hdr_nNonce64 block) (le_combine (hdr_mix_hash block)) 0 0.

(** [CBlockIndex::GetBlockHeader]. *)
Definition GetBlockHeader (mem : heap) (b : CBlockIndex) : result fault CBlockHeader :=
  hashPrev ← match pprev b with
             | Some q => bq ← deref mem q; Ok (uint256_of_Z (phashBlock bq))
             | None => Ok null_uint256
             end;
  Ok (mkHeader (Chain.nVersion b) hashPrev (uint256_of_Z (hashMerkleRoot b)) (nTime b) (nBits b) (nNonce b)
        (u32 (Chain.nHeight b)) (nNonce64 b) (uint256_of_Z (mix_hash b))).

(** ** The state *)

(** The global variables.  [tree_cached] is the context that the proof-of-work hash keeps
    from one call to the next. *)
Record block_tree := mkTree {
  tree_mem : heap;
  mapBlockIndex : gmap bytes ptr;
  pindexBestHeader : option ptr;
  g_failed_blocks : gset ptr;
  setDirtyBlockIndex : gset ptr;
  tree_cached : option epoch_context;
}.

Definition with_mem (t : block_tree) (m : heap) : block_tree :=
  mkTree m (mapBlockIndex t) (pindexBestHeader t) (g_failed_blocks t) (setDirtyBlockIndex t) (tree_cached t).
Definition with_cached (t : block_tree) (c : option epoch_context) : block_tree :=
  mkTree (tree_mem t) (mapBlockIndex t) (pindexBestHeader t) (g_failed_blocks t) (setDirtyBlockIndex t) c.

Section Tree.
Context {sph : SphLib} (net : BlockNetwork) (kt dgw : Z) (params : Params) (checkpoints : CCheckpointData).
Context (chain : asset_chain) (hashGenesisBlock : bytes).
(** [new CBlockIndex]: the address the allocator returns. *)
Context (new : heap -> ptr).

Local Abbreviation header_hash := (header_GetHash net kt).

Definition AddToBlockIndex (t : block_tree) (block : CBlockHeader) : result fault (block_tree * ptr) :=
  let hash := header_hash block in
  match mapBlockIndex t !! hash with
  | Some p => Ok (t, p)
  | None =>
    let pindexNew := new (tree_mem t) in
    let b := index_of_header hash block in
    let mem := <[pindexNew := b]> (tree_mem t) in
    let map := <[hash := pindexNew]> (mapBlockIndex t) in
    mem ← match map !! hdr_hashPrevBlock block with
          | Some q => bq ← deref mem q; BuildSkip (<[pindexNew := set_prev b q (Chain.nHeight bq + 1)]> mem) pindexNew
          | None => Ok mem
          end;
    b ← deref mem pindexNew;
    prev ← match pprev b with Some q => Some <$> deref mem q | None => Ok None end;
    let timeMax := match prev with Some bq => Z.max (nTimeMax bq) (nTime b) | None => nTime b end in
    proof ← GetBlockProof b;
    let work := add (match prev with Some bq => nChainWork bq | None => of_uint64 0 end) proof in
    let* (status, _) := RaiseValidity (nStatus b) BLOCK_VALID_TREE in
    let b := set_work b timeMax work status in
    let mem := <[pindexNew := b]> mem in
    better ← match pindexBestHeader t with
             | None => Ok true
             | Some p => best ← deref mem p; Ok (CompareTo (nChainWork best) (nChainWork b) <? 0)
             end;
    Ok (mkTree mem map (if better : bool then Some pindexNew else pindexBestHeader t) (g_failed_blocks t)
          ({[pindexNew]} ∪ setDirtyBlockIndex t) (tree_cached t), pindexNew)
  end.

(** The walk that marks the entries above [failedit]; the difference of the heights
    is enough fuel. *)
Fixpoint mark_failed (fuel : nat) (t : block_tree) (invalid_walk failedit : ptr) : result fault block_tree :=
  if bool_decide (invalid_walk = failedit) then Ok t
  else match fuel with
       | O => Err OutOfFuel
       | S fuel =>
         b ← deref (tree_mem t) invalid_walk;
         let t := mkTree (<[invalid_walk := set_status b (Z.lor (nStatus b) BLOCK_FAILED_CHILD)]> (tree_mem t)) (mapBlockIndex t)
                    (pindexBestHeader t) (g_failed_blocks t) ({[invalid_walk]} ∪ setDirtyBlockIndex t) (tree_cached t) in
         match pprev b with
         | Some q => mark_failed fuel t q failedit
         | None => Err NullDereference
         end
       end.

(** The loop over [g_failed_blocks]: the first entry that is an ancestor of [pindexPrev]. *)
Fixpoint find_failed (mem : heap) (pindexPrev : ptr) (failed : list ptr) : result fault (option ptr) :=
  match failed with
  | [] => Ok None
  | failedit :: failed =>
    fb ← deref mem failedit;
    anc ← GetAncestor mem pindexPrev (Chain.nHeight fb);
    if bool_decide (anc = Some failedit) then
      if has_flag fb BLOCK_FAILED_VALID then Ok (Some failedit) else Err AssertFailure
    else find_failed mem pindexPrev failed
  end.

(** The part of [AcceptBlockHeader] for an unknown header: the parent. *)
Definition check_new_header (t : block_tree) (node : node_view) (block : CBlockHeader) : check (option epoch_context * ptr) :=
  cached ← CheckBlockHeader net kt params checkpoints (tree_mem t) (mapBlockIndex t) (tree_cached t) block true;
  match mapBlockIndex t !! hdr_hashPrevBlock block with
  | None => DoS 10 "prev-blk-not-found"
  | Some pindexPrev =>
    prev ← halting (deref (tree_mem t) pindexPrev);
    _ ← reject_if (has_flag prev BLOCK_FAILED_MASK) 100 "bad-prevblk";
    _ ← ContextualCheckBlockHeader kt dgw params checkpoints chain (tree_mem t) (mapBlockIndex t) node block pindexPrev;
    Ok (cached, pindexPrev)
  end.

Definition add_header (t : block_tree) (block : CBlockHeader) : block_tree * result check_exit ptr :=
  match AddToBlockIndex t block with
  | Ok (t', p) => (t', Ok p)
  | Err f => (t, Err (Halt f))
  end.

(** The check that no ancestor is known to be invalid; a branch that grows from one is marked. *)
Definition check_failed_ancestor (t : block_tree) (pindexPrev : ptr) : block_tree * result check_exit unit :=
  match (prev ← deref (tree_mem t) pindexPrev; IsValid prev BLOCK_VALID_SCRIPTS) with
  | Err f => (t, Err (Halt f))
  | Ok true => (t, Ok tt)
  | Ok false =>
    match find_failed (tree_mem t) pindexPrev (merge_sort Pos.le (elements (g_failed_blocks t))) with
    | Err f => (t, Err (Halt f))
    | Ok None => (t, Ok tt)
    | Ok (Some failedit) =>
      match (prev ← deref (tree_mem t) pindexPrev; mark_failed (S (Z.to_nat (Chain.nHeight prev))) t pindexPrev failedit) with
      | Err f => (t, Err (Halt f))
      | Ok t => (t, DoS 100 "bad-prevblk")
      end
    end
  end.

(** Returns the state on every path, since a rejection may mark entries. *)
Definition AcceptBlockHeader (t : block_tree) (node : node_view) (block : CBlockHeader) : block_tree * result check_exit ptr :=
  let hash := header_hash block in
  if bool_decide (hash = hashGenesisBlock) then add_header t block
  else
    match mapBlockIndex t !! hash with
    | Some p =>
      (t, b ← halting (deref (tree_mem t) p); _ ← reject_if (has_flag b BLOCK_FAILED_MASK) 0 "duplicate"; Ok p)
    | None =>
      match check_new_header t node block with
      | Err e => (t, Err e)
      | Ok (cached, pindexPrev) =>
        match check_failed_ancestor (with_cached t cached) pindexPrev with
        | (t, Err e) => (t, Err e)
        | (t, Ok _) => add_header t block
        end
      end
    end.

(** Each header comes with what the node reads while it checks it (the clock moves on).
    The result is the last entry, or the exit with [first_invalid]. *)
Fixpoint ProcessNewBlockHeaders (t : block_tree) (headers : list (node_view * CBlockHeader)) (ppindex : option ptr)
  : block_tree * result (check_exit * CBlockHeader) (option ptr) :=
  match headers with
  | [] => (t, Ok ppindex)
  | (node, header) :: headers =>
    match AcceptBlockHeader t node header with
    | (t, Err e) => (t, Err (e, header))
    | (t, Ok p) => ProcessNewBlockHeaders t headers (Some p)
    end
  end.
End Tree.

(** ** Heaps that grow *)

(** What the shape of the tree depends on: all but the status and the data of a block. *)
Definition shape (b : CBlockIndex) : Z * option ptr * option ptr * Z * base_uint * Z * Z * Z :=
  (phashBlock b, pprev b, pskip b, Chain.nHeight b, nChainWork b, nTime b, nBits b, nTimeMax b).
Definition extends (m m' : heap) : Prop := forall p b, m !! p = Some b -> exists b', m' !! p = Some b' /\ shape b' = shape b.

Lemma extends_insert m p b : m !! p = None -> extends m (<[p := b]> m).
Proof. intros Hp q c Hq. exists c. split; [|done]. rewrite lookup_insert_ne by congruence. done. Qed.

Lemma extends_status m p b s : m !! p = Some b -> extends m (<[p := set_status b s]> m) /\ extends (<[p := set_status b s]> m) m.
Proof.
  intros Hp. split; intros q c Hq.
  - destruct (decide (p = q)) as [<-|Hn]; [|exists c; by rewrite lookup_insert_ne].
    exists (set_status b s). rewrite lookup_insert_eq. split; [done|]. rewrite Hp in Hq. by injection Hq as <-.
  - destruct (decide (p = q)) as [<-|Hn]; [|rewrite lookup_insert_ne in Hq by done; by exists c].
    rewrite lookup_insert_eq in Hq. injection Hq as <-. by exists b.
Qed.

Section Extends.
Context (m m' : heap) (Hext : extends m m').

Lemma extends_lookup p b : m !! p = Some b -> exists b', m' !! p = Some b' /\ pprev b' = pprev b /\ pskip b' = pskip b
  /\ Chain.nHeight b' = Chain.nHeight b /\ nTime b' = nTime b /\ nBits b' = nBits b /\ nChainWork b' = nChainWork b.
Proof. intros Hp. destruct (Hext p b Hp) as (b' & Hb' & E). exists b'. injection E as ?????? ??. done. Qed.

Lemma extends_prevs n : forall p, tree_ok m -> is_Some (m !! p) -> prevs m' n p = prevs m n p.
Proof.
  induction n as [|n IH]; intros p Ht [b Hp]; [done|]. cbn [prevs].
  destruct (extends_lookup p b Hp) as (b' & Hb' & Ep & _). rewrite Hp, Hb'. cbn. rewrite Ep.
  destruct (Ht p b Hp) as [_ Hprev]. destruct (pprev b) as [q|]; [|done]. cbn. destruct Hprev as (bq & Hq & _).
  apply IH; [done|by exists bq].
Qed.

Lemma extends_ancestor p h : tree_ok m -> is_Some (m !! p) -> ancestor_at m' p h = ancestor_at m p h.
Proof.
  intros Ht [b Hp]. unfold ancestor_at. destruct (extends_lookup p b Hp) as (b' & Hb' & _ & _ & Eh & _). rewrite Hp, Hb', Eh.
  by rewrite extends_prevs by (done || by exists b).
Qed.

Lemma extends_times n : forall p, tree_ok m -> (forall q, p = Some q -> is_Some (m !! q)) -> times_back m' n p = times_back m n p.
Proof.
  induction n as [|n IH]; intros p Ht Hp; [done|]. destruct p as [q|]; [|done]. cbn [times_back].
  destruct (Hp q eq_refl) as [b Hb]. destruct (extends_lookup q b Hb) as (b' & Hb' & Ep & _ & _ & Et & _). rewrite Hb, Hb', Ep, Et. f_equal.
  apply IH; [done|]. intros r Hr. destruct (Ht q b Hb) as [_ Hprev]. rewrite Hr in Hprev. destruct Hprev as (br & -> & _). by exists br.
Qed.

Lemma extends_mtp p : tree_ok m -> is_Some (m !! p) -> mtp m' p = mtp m p.
Proof. intros Ht Hp. unfold mtp. rewrite extends_times; [done|done|]. by intros q [= <-]. Qed.

Lemma extends_prev_ok b b' : prev_ok m b -> pprev b' = pprev b -> Chain.nHeight b' = Chain.nHeight b -> prev_ok m' b'.
Proof.
  intros [H0 Hprev] Ep Eh. split; [lia|]. rewrite Ep, Eh. destruct (pprev b) as [q|]; [|done]. destruct Hprev as (bq & Hq & Hh).
  destruct (extends_lookup q bq Hq) as (bq' & Hq' & _ & _ & E & _). exists bq'. split; [done|lia].
Qed.
End Extends.

(** A heap with the same shape. *)
Lemma same_shape_index m m' : extends m m' -> extends m' m -> index_ok m -> index_ok m'.
Proof.
  intros H1 H2 [Ht Hs]. split; intros p b' Hp; destruct (H2 p b' Hp) as (b & Hb & E); injection E as ? Ep Es Eh ? ? ? ?.
  - eapply extends_prev_ok; [exact H1|by eapply Ht|done|done].
  - unfold skip_ok. rewrite <- Es. specialize (Hs p b Hb). unfold skip_ok in Hs. destruct (pskip b) as [q|]; [|done].
    rewrite (extends_ancestor m m' H1) by (done || by exists b). by rewrite <- Eh.
Qed.

Lemma same_shape_times m m' : extends m m' -> extends m' m -> tree_ok m -> block_times_ok m -> block_times_ok m'.
Proof.
  intros H1 H2 Ht Hb p b' q Hp Hq. destruct (H2 p b' Hp) as (b & Hpb & E). injection E as ? Ep ? ? ? Et ? ?.
  rewrite <- Et. rewrite <- Ep in Hq. rewrite (extends_mtp m m' H1); [by eapply Hb|done|].
  destruct (Ht p b Hpb) as [_ Hprev]. rewrite Hq in Hprev. destruct Hprev as (bq & -> & _). by exists bq.
Qed.

(** A new leaf. *)
Lemma tree_insert m p b : tree_ok m -> m !! p = None -> prev_ok m b -> tree_ok (<[p := b]> m).
Proof.
  intros Ht Hp Hprev q c Hq. pose proof (extends_insert m p b Hp) as He.
  destruct (decide (p = q)) as [<-|Hn]; [rewrite lookup_insert_eq in Hq; injection Hq as <-|rewrite lookup_insert_ne in Hq by done];
    (eapply extends_prev_ok; [exact He| |done|done]); [done|by eapply Ht].
Qed.

Lemma index_insert m p b : index_ok m -> m !! p = None -> prev_ok m b -> skip_ok (<[p := b]> m) p b -> index_ok (<[p := b]> m).
Proof.
  intros [Ht Hs] Hp Hprev Hskip. split; [by apply tree_insert|]. intros q c Hq.
  destruct (decide (p = q)) as [<-|Hn]; [rewrite lookup_insert_eq in Hq; by injection Hq as <-|rewrite lookup_insert_ne in Hq by done].
  specialize (Hs q c Hq). unfold skip_ok in *. destruct (pskip c) as [r|]; [|done].
  by rewrite (extends_ancestor m _ (extends_insert m p b Hp)) by (done || by exists c).
Qed.

(** The skip pointer that [BuildSkip] gives a new leaf. *)
Lemma leaf_skip m p b q bq : tree_ok m -> m !! p = None -> pprev b = Some q -> m !! q = Some bq -> Chain.nHeight b = Chain.nHeight bq + 1 ->
  let s := ancestor_at m q (GetSkipHeight (Chain.nHeight b)) in ancestor_at (<[p := b]> m) p (GetSkipHeight (Chain.nHeight b)) = s /\ is_Some s.
Proof.
  intros Ht Hp Hq Hbq Hh s. destruct (Ht q bq Hbq) as [H0 _]. pose proof (GetSkipHeight_range (Chain.nHeight b) ltac:(lia)) as Hr.
  assert (prev_ok m b) as Hprev by (split; [lia|]; rewrite Hq; exists bq; split; [done|lia]).
  split.
  - rewrite (ancestor_at_prev _ p b q); [|by apply tree_insert|by rewrite lookup_insert_eq|done|lia].
    apply (extends_ancestor m _ (extends_insert m p b Hp)); [done|by exists bq].
  - destruct (ancestor_at_total m q bq (GetSkipHeight (Chain.nHeight b)) Ht Hbq ltac:(lia)) as (r & ? & E & _). exists r. exact E.
Qed.

Lemma times_insert m p b : tree_ok m -> block_times_ok m -> m !! p = None -> prev_ok m b ->
  (forall q, pprev b = Some q -> mtp m q < nTime b) -> block_times_ok (<[p := b]> m).
Proof.
  intros Ht Hb Hp Hprev Hnew x c q Hx Hq. pose proof (extends_insert m p b Hp) as He.
  assert (prev_ok m c /\ mtp m q < nTime c) as [Hc Hlt].
  { destruct (decide (p = x)) as [<-|Hn]; [rewrite lookup_insert_eq in Hx; injection Hx as <-; auto|].
    rewrite lookup_insert_ne in Hx by done. split; [by eapply Ht|by eapply Hb]. }
  rewrite (extends_mtp m); [done|done|done|]. destruct Hc as [_ Hc]. rewrite Hq in Hc. destruct Hc as (bq & -> & _). by exists bq.
Qed.

(** ** Checks that end *)

(** The check accepts with [Q] or rejects; it does not fault. *)
Definition checks {A} (Q : A -> Prop) (m : check A) : Prop :=
  match m with Ok x => Q x | Err (Reject _ _) => True | Err _ => False end.

(** The same, but it may fault when [C] does not hold. *)
Definition checks_if {A} (C : Prop) (Q : A -> Prop) (m : check A) : Prop :=
  match m with Ok x => Q x | Err (Reject _ _) => True | Err _ => ~ C end.

Lemma checks_any {A} C (Q : A -> Prop) (m : check A) : checks Q m -> checks_if C Q m.
Proof. by destruct m as [x|[]]. Qed.
Lemma checks_bind {A B} (P : A -> Prop) (Q : B -> Prop) (m : check A) (f : A -> check B) :
  checks P m -> (forall x, P x -> checks Q (f x)) -> checks Q (m ≫= f).
Proof. intros Hm Hf. destruct m as [x|[]]; cbn in *; [by apply Hf|done..]. Qed.
Lemma checks_reject_if (Q : unit -> Prop) b l e : (b = false -> Q tt) -> checks Q (reject_if b l e).
Proof. intros H. unfold reject_if. destruct b; cbn; [done|by apply H]. Qed.
Lemma checks_halting {A} (Q : A -> Prop) m x : m = Ok x -> Q x -> checks Q (halting m).
Proof. by intros ->. Qed.
Lemma checks_weaken {A} (P Q : A -> Prop) m : checks P m -> (forall x, P x -> Q x) -> checks Q m.
Proof. intros Hm H. destruct m as [x|[]]; cbn in *; auto. Qed.

(** What the functions of sphlib return. *)
Definition sph_ok (sph : SphLib) : Prop := forall i d, is_hash 64 (sph512 i d).

Lemma header_hash_ok {sph : SphLib} net kt h : sph_ok sph -> is_hash 32 (header_GetHash net kt h).
Proof.
  intros Hs. unfold header_GetHash. destruct (_ <? _).
  - assert (forall d, is_hash 32 (take 32 (foldl (x16r_step (hdr_hashPrevBlock h)) d (seq 0 16)))
      /\ is_hash 32 (take 32 (foldl (x16rv2_step (hdr_hashPrevBlock h)) d (seq 0 16)))) as H.
    { intros d. rewrite (seq_app 15 1), !foldl_app. cbn [foldl seq Nat.add]. unfold x16r_step at 1, x16rv2_step at 1. cbv zeta.
      assert (forall i x, is_hash 32 (take 32 (sph512 i x))) as Ht.
      { intros i x. destruct (Hs i x) as [Hl Hb]. split; [rewrite length_take; lia|by apply Forall_take]. }
      split; [apply Ht|]. destruct (_ || _ || _); apply Ht. }
    unfold x16_hash, HashX16R, HashX16RV2. destruct (_ >=? _); apply H.
  - unfold KAWPOWHash_OnlyMix, hex_order, hash_no_verify. destruct (final_state_hash (seed_state (reverse (GetKAWPOWHeaderHash h)) (hdr_nNonce64 h)) (reverse (hdr_mix_hash h))) as [Hl Hb].
    split; [by rewrite length_reverse|by apply Forall_reverse].
Qed.

Lemma GetLastCheckpoint_in index data p : GetLastCheckpoint index data = Some p -> exists x, index !! x = Some p.
Proof.
  unfold GetLastCheckpoint. induction data as [|[n x] l IH]; cbn; [done|]. destruct (foldr _ None l); [exact IH|]. by exists x.
Qed.

(** A height that the proof-of-work hash can take. *)
Definition height_ok (kt : Z) (h : CBlockHeader) : Prop := is_kawpow kt h = true -> 0 <= hdr_nHeight h < height_limit.

Lemma CheckBlockHeader_checks {sph : SphLib} net kt params checkpoints mem index cached h : cached_ok cached -> height_ok kt h ->
  (forall x p, index !! x = Some p -> is_Some (mem !! p)) ->
  checks cached_ok (CheckBlockHeader net kt params checkpoints mem index cached h true).
Proof.
  intros Hc Hh Hmap. unfold CheckBlockHeader. cbn [andb negb]. apply (checks_bind (fun _ => True)).
  { destruct (is_kawpow kt h); [|done]. destruct (GetLastCheckpoint index checkpoints) as [p|] eqn:E; [|done].
    apply GetLastCheckpoint_in in E as [x [b Hb]%Hmap]. unfold deref. by rewrite Hb. }
  intros below _. destruct below.
  - apply (checks_bind (fun _ => True)); [by apply checks_reject_if|]. intros _ _. exact Hc.
  - assert (exists hash mix c, GetHashFull net kt cached h = Ok (hash, mix, c) /\ cached_ok c) as (hash & mix & c & -> & Hc').
    { unfold GetHashFull. unfold height_ok, is_kawpow in Hh. rewrite Z.geb_leb, Z.leb_antisym in Hh. destruct (hdr_nTime h <? kt); [eauto|].
      destruct (KAWPOWHash_ok cached h (Hh eq_refl) Hc) as (final & mix & c & -> & Ec & _). exists final, mix, (Some c). split; [reflexivity|].
      pose proof (create_epoch_context_ok (get_epoch_number (hdr_nHeight h)) (epoch_range _ (Hh eq_refl))) as Hr.
      apply returns_Ok in Hr as (c' & Ec' & _ & En). rewrite Ec in Ec'. injection Ec' as <-. unfold cached_ok. by rewrite En. }
    cbn [halting mbind result_bind]. apply (checks_bind (fun _ => True)); [by apply checks_reject_if|]. intros _ _.
    apply (checks_bind (fun _ => True)); [by apply checks_reject_if|]. intros _ _. exact Hc'.
Qed.

(** The context that is kept is the one of its epoch, whatever height was claimed. *)
Lemma CheckBlockHeader_cached {sph : SphLib} net kt params checkpoints mem index cached h c : cached_ok cached ->
  CheckBlockHeader net kt params checkpoints mem index cached h true = Ok c -> cached_ok c.
Proof.
  intros Hc E. unfold CheckBlockHeader in E. cbn [andb negb] in E. apply bind_Ok in E as (below & _ & E). destruct below.
  { apply bind_Ok in E as ([] & _ & E). by injection E as <-. }
  destruct (GetHashFull net kt cached h) as [[[final mix] c']|] eqn:Eg; [|discriminate]. cbn [halting mbind result_bind] in E.
  apply bind_Ok in E as ([] & _ & E). apply bind_Ok in E as ([] & _ & E). injection E as <-.
  unfold GetHashFull in Eg. destruct (_ <? _); [by injection Eg as _ _ <-|]. destruct (KAWPOWHash cached h) as [[[f m] k]|] eqn:Ek; [|discriminate].
  injection Eg as _ _ <-. unfold KAWPOWHash in Ek. cbv zeta in Ek. apply bind_Ok in Ek as (ctx & Ectx & Ek).
  destruct (hash _ _ _ _) as [[fh mh]|]; [|discriminate]. injection Ek as _ _ <-.
  assert (forall e, create_epoch_context e = Ok ctx -> cached_ok (Some ctx)) as Hnew by (intros e He; cbn [cached_ok]; by rewrite (create_epoch_number _ _ He)).
  destruct cached as [k|]; [|by eapply Hnew]. destruct (_ =? _); [by injection Ectx as <-|by eapply Hnew].
Qed.

(** The view of a node that has an active chain. *)
Definition node_ok (mem : heap) (node : node_view) : Prop := exists p b, Tip (chainActive node) = Some p /\ mem !! p = Some b.

Lemma ContextualCheckBlockHeader_checks kt dgw params checkpoints chain mem index node h prev b :
  pow_params_ok params -> index_ok mem -> bits_ok mem (pow_limit params) -> mem !! prev = Some b -> Chain.nHeight b < 2 ^ 31 - 1 ->
  node_ok mem node -> (forall x p, index !! x = Some p -> is_Some (mem !! p)) ->
  checks (fun _ => valid_bits (pow_limit params) (hdr_nBits h) /\ mtp mem prev < hdr_nTime h)
    (ContextualCheckBlockHeader kt dgw params checkpoints chain mem index node h prev).
Proof.
  intros Hpp Hi Hb Hp Hh (tip & bt & Ht & Hbt) Hmap. unfold ContextualCheckBlockHeader.
  eapply checks_bind; [by apply (checks_halting (eq b) _ b); [by apply deref_ok|]|]. intros ? <-.
  apply (checks_bind (fun _ => True)).
  { unfold check_reorg. destruct (g_connman node); [|done]. destruct (_ >=? _); [|done]. rewrite Ht. cbn [deref_opt].
    rewrite (deref_ok _ _ _ Hbt). cbn [halting mbind result_bind]. by apply checks_reject_if. }
  intros _ _. destruct (GetNextWorkRequired_valid params kt dgw mem prev b h Hpp Hi Hb Hp Hh) as (c & -> & Hc).
  cbn [halting mbind result_bind]. apply (checks_bind (fun _ => hdr_nBits h = c)).
  { apply checks_reject_if. intros E. by apply negb_false_iff, Z.eqb_eq in E. }
  intros _ <-. apply (checks_bind (fun _ => True)).
  { destruct (fCheckpointsEnabled node); [|done]. destruct (GetLastCheckpoint index checkpoints) as [q|] eqn:E; [|done].
    apply GetLastCheckpoint_in in E as [x [bq Hq]%Hmap]. rewrite (deref_ok _ _ _ Hq). cbn [halting mbind result_bind]. by apply checks_reject_if. }
  intros _ _. rewrite (GetMedianTimePast_spec mem prev b) by (done || apply Hi). cbn [halting mbind result_bind].
  apply (checks_bind (fun _ => mtp mem prev < hdr_nTime h)); [apply checks_reject_if; intros E; by apply Z.leb_gt in E|].
  intros _ Hm. apply (checks_bind (fun _ => True)); [by apply checks_reject_if|]. intros _ _. apply checks_reject_if. done.
Qed.

(** ** The invariant *)

Section Invariant.
Context {sph : SphLib} (net : BlockNetwork) (kt dgw : Z) (params : Params) (checkpoints : CCheckpointData).
Context (chain : asset_chain) (hashGenesisBlock : bytes) (new : heap -> ptr).
Context (Hsph : sph_ok sph) (Hparams : pow_params_ok params) (Hnew : forall m, m !! new m = None).
Local Abbreviation Add := (AddToBlockIndex net kt new).
Local Abbreviation Accept := (AcceptBlockHeader net kt dgw params checkpoints chain hashGenesisBlock new).
Local Abbreviation Process := (ProcessNewBlockHeaders net kt dgw params checkpoints chain hashGenesisBlock new).

Definition prev_work (m : heap) (b : CBlockIndex) : Z :=
  match pprev b with
  | Some q => match m !! q with Some bq => eval (nChainWork bq) | None => 0 end
  | None => 0
  end.
Definition prev_time_max (m : heap) (b : CBlockIndex) : Z :=
  match pprev b with
  | Some q => match m !! q with Some bq => Z.max (nTimeMax bq) (nTime b) | None => nTime b end
  | None => nTime b
  end.

Definition entry_ok (m : heap) (b : CBlockIndex) : Prop :=
  wf (nChainWork b) /\ eval (nChainWork b) = (prev_work m b + block_work (nBits b)) mod 2 ^ 256 /\ nTimeMax b = prev_time_max m b.

Record tree_inv (t : block_tree) : Prop := mkInv {
  (** Parents, heights and skip pointers; targets; times. *)
  ti_index : index_ok (tree_mem t);
  ti_bits : bits_ok (tree_mem t) (pow_limit params);
  ti_times : block_times_ok (tree_mem t);
  ti_height : forall p b, tree_mem t !! p = Some b -> Chain.nHeight b < Z.of_nat (size (tree_mem t));
  (** Accumulated work and latest time. *)
  ti_entry : forall p b, tree_mem t !! p = Some b -> entry_ok (tree_mem t) b;
  (** The map leads to exactly the entries, by their hash. *)
  ti_map : forall h p, mapBlockIndex t !! h = Some p <-> is_hash 32 h /\ exists b, tree_mem t !! p = Some b /\ phashBlock b = le_combine h;
  (** The best header has the most work. *)
  ti_best : exists p b, pindexBestHeader t = Some p /\ tree_mem t !! p = Some b
    /\ forall q c, tree_mem t !! q = Some c -> eval (nChainWork c) <= eval (nChainWork b);
  ti_genesis : is_Some (mapBlockIndex t !! hashGenesisBlock);
  ti_failed : forall p, p ∈ g_failed_blocks t -> exists b, tree_mem t !! p = Some b /\ has_flag b BLOCK_FAILED_VALID = true;
  ti_cached : cached_ok (tree_cached t);
}.

Lemma inv_map t : tree_inv t -> forall h p, mapBlockIndex t !! h = Some p -> is_Some (tree_mem t !! p).
Proof. intros H h p Hm. apply (ti_map t H) in Hm as (_ & b & Hb & _). by exists b. Qed.

(** *** Marking entries *)

(** The same entries in the same places, with at most more flags. *)
Definition marked (m m' : heap) : Prop :=
  forall p, match m !! p, m' !! p with
            | Some b, Some b' => exists s, b' = set_status b s /\ forall f, has_flag b f = true -> has_flag b' f = true
            | None, None => True
            | _, _ => False
            end.

Lemma marked_refl m : marked m m.
Proof. intros p. destruct (m !! p) as [b|]; [|done]. exists (nStatus b). split; [by destruct b|done]. Qed.
Lemma marked_trans m1 m2 m3 : marked m1 m2 -> marked m2 m3 -> marked m1 m3.
Proof.
  intros H1 H2 p. specialize (H1 p). specialize (H2 p). destruct (m1 !! p), (m2 !! p), (m3 !! p); try done.
  destruct H1 as (s1 & -> & F1), H2 as (s2 & -> & F2). exists s2. split; [done|]. intros f Hf. by apply F2, F1.
Qed.
Lemma marked_insert m p b flag : m !! p = Some b -> marked m (<[p := set_status b (Z.lor (nStatus b) flag)]> m).
Proof.
  intros Hp q. destruct (decide (p = q)) as [<-|Hn].
  - rewrite lookup_insert_eq, Hp. eexists; split; [done|]. intros f. unfold has_flag. cbn [nStatus set_status].
    rewrite !negb_true_iff, !Z.eqb_neq. rewrite Z.land_lor_distr_l. intros Hf E. apply Hf. by apply Z.lor_eq_0_iff in E as [E _].
  - rewrite lookup_insert_ne by done. apply marked_refl.
Qed.
Lemma marked_extends m m' : marked m m' -> extends m m' /\ extends m' m.
Proof.
  intros H. split; intros p b Hp; specialize (H p); rewrite Hp in H.
  - destruct (m' !! p) as [b'|]; [|done]. destruct H as (s & -> & _). eauto.
  - destruct (m !! p) as [b'|]; [|done]. destruct H as (s & -> & _). eauto.
Qed.
Lemma marked_lookup m m' p b : marked m m' -> m !! p = Some b -> exists s, m' !! p = Some (set_status b s)
  /\ forall f, has_flag b f = true -> has_flag (set_status b s) f = true.
Proof. intros H Hp. specialize (H p). rewrite Hp in H. destruct (m' !! p); [|done]. destruct H as (s & -> & F). eauto. Qed.
Lemma marked_lookup_rev m m' p b' : marked m m' -> m' !! p = Some b' -> exists b s, m !! p = Some b /\ b' = set_status b s.
Proof. intros H Hp. specialize (H p). rewrite Hp in H. destruct (m !! p); [|done]. destruct H as (s & -> & F). eauto. Qed.
Lemma marked_size m m' : marked m m' -> size m' = size m.
Proof.
  intros H. rewrite <- !size_dom. f_equal. apply set_eq. intros p. rewrite !elem_of_dom. specialize (H p).
  destruct (m !! p), (m' !! p); try done; split; intros [x Hx]; try done; eauto.
Qed.

Definition with_marks (t : block_tree) (m : heap) (dirty : gset ptr) : block_tree :=
  mkTree m (mapBlockIndex t) (pindexBestHeader t) (g_failed_blocks t) dirty (tree_cached t).

Lemma marked_inv t m dirty : tree_inv t -> marked (tree_mem t) m -> tree_inv (with_marks t m dirty).
Proof.
  intros H Hm. destruct (marked_extends _ _ Hm) as [E1 E2]. constructor; cbn [with_marks tree_mem mapBlockIndex pindexBestHeader g_failed_blocks tree_cached].
  - eapply same_shape_index; [exact E1|exact E2|apply H].
  - intros p b Hp. destruct (marked_lookup_rev _ _ _ _ Hm Hp) as (b0 & s & Hb & ->). apply (ti_bits t H _ _ Hb).
  - eapply same_shape_times; [exact E1|exact E2|apply H..].
  - intros p b Hp. rewrite (marked_size _ _ Hm). destruct (marked_lookup_rev _ _ _ _ Hm Hp) as (b0 & s & Hb & ->). apply (ti_height t H _ _ Hb).
  - intros p b Hp. destruct (marked_lookup_rev _ _ _ _ Hm Hp) as (b0 & s & Hb & ->). destruct (ti_entry t H _ _ Hb) as (Hw & Ew & Et).
    split; [exact Hw|]. unfold prev_work, prev_time_max in *. cbn [set_status nChainWork nBits pprev nTime nTimeMax] in *.
    destruct (pprev b0) as [q|]; [|done]. pose proof (Hm q) as Hq. destruct (tree_mem t !! q), (m !! q); try done.
    destruct Hq as (s' & -> & _). done.
  - intros h p. rewrite (ti_map t H). split; intros (Hh & b & Hb & E); (split; [exact Hh|]).
    + destruct (marked_lookup _ _ _ _ Hm Hb) as (s & Hs & _). eauto.
    + destruct (marked_lookup_rev _ _ _ _ Hm Hb) as (b0 & s & Hb0 & ->). eauto.
  - destruct (ti_best t H) as (p & b & Hp & Hb & Hmax). destruct (marked_lookup _ _ _ _ Hm Hb) as (s & Hs & _). exists p, (set_status b s).
    split; [done|]. split; [done|]. intros q c Hq. destruct (marked_lookup_rev _ _ _ _ Hm Hq) as (c0 & s' & Hc & ->). by apply (Hmax q c0).
  - apply H.
  - intros p Hp. destruct (ti_failed t H p Hp) as (b & Hb & Hf). destruct (marked_lookup _ _ _ _ Hm Hb) as (s & Hs & F). eauto.
  - apply H.
Qed.

Lemma mark_failed_spec fuel : forall t p b q, tree_ok (tree_mem t) -> tree_mem t !! p = Some b -> is_ancestor (tree_mem t) q p ->
  Chain.nHeight b < Z.of_nat fuel ->
  exists m dirty, mark_failed fuel t p q = Ok (with_marks t m dirty) /\ marked (tree_mem t) m.
Proof.
  induction fuel as [|fuel IH]; intros t p b q Ht Hp Ha Hf; [destruct (Ht _ _ Hp); lia|]. cbn [mark_failed].
  destruct (bool_decide_reflect (p = q)) as [->|Hne].
  { exists (tree_mem t), (setDirtyBlockIndex t). split; [by destruct t|apply marked_refl]. }
  rewrite (deref_ok _ _ _ Hp). cbn [mbind result_bind]. cbv zeta.
  destruct (is_ancestor_step _ _ _ _ Hp Ha ltac:(congruence)) as (r & Hr & Har). rewrite Hr.
  destruct (Ht _ _ Hp) as [_ Hprev]. rewrite Hr in Hprev. destruct Hprev as (br & Hbr & Hh).
  pose proof (marked_insert _ _ _ BLOCK_FAILED_CHILD Hp) as Hm1. destruct (marked_extends _ _ Hm1) as [E1 E2].
  destruct (marked_lookup _ _ _ _ Hm1 Hbr) as (s & Hs & _).
  set (t1 := mkTree _ _ _ _ _ _).
  destruct (IH t1 r (set_status br s) q) as (m & dirty & E & Hm).
  - intros x c Hx. destruct (E2 x c Hx) as (c0 & Hc0 & Esh). injection Esh as ? Ep ? Eh ? ? ? ?.
    eapply extends_prev_ok; [exact E1|by eapply Ht|by symmetry|by symmetry].
  - exact Hs.
  - destruct Har as [n Hn]. exists n. rewrite (extends_prevs _ _ E1); [exact Hn|exact Ht|by exists br].
  - cbn. lia.
  - exists m, dirty. split; [exact E|]. eapply marked_trans; [exact Hm1|exact Hm].
Qed.

Lemma find_failed_spec m p b : index_ok m -> m !! p = Some b -> forall failed,
  (forall q, q ∈ failed -> exists c, m !! q = Some c /\ has_flag c BLOCK_FAILED_VALID = true) ->
  exists r, find_failed m p failed = Ok r /\ match r with Some q => is_ancestor m q p | None => True end.
Proof.
  intros Hi Hp. induction failed as [|q failed IH]; intros Hf; cbn [find_failed]; [by exists None|].
  destruct (Hf q) as (c & Hq & Hflag); [by left|]. rewrite (deref_ok _ _ _ Hq). cbn [mbind result_bind].
  rewrite (GetAncestor_spec m p b) by done. cbn [mbind result_bind]. destruct (bool_decide_reflect (ancestor_at m p (Chain.nHeight c) = Some q)) as [E|E].
  - rewrite Hflag. exists (Some q). split; [done|]. unfold ancestor_at in E. rewrite Hp in E. destruct (_ && _); [|done]. by eexists.
  - apply IH. intros x Hx. apply Hf. by right.
Qed.

Lemma check_failed_ancestor_spec t p b : tree_inv t -> tree_mem t !! p = Some b ->
  exists m dirty r, check_failed_ancestor t p = (with_marks t m dirty, r) /\ marked (tree_mem t) m /\ checks (fun _ => True) r
    /\ (r = Ok tt -> m = tree_mem t).
Proof.
  intros H Hp. unfold check_failed_ancestor. rewrite (deref_ok _ _ _ Hp). cbn [mbind result_bind].
  assert (forall (r : check unit), checks (fun _ => True) r -> exists m dirty r', (t, r) = (with_marks t m dirty, r') /\ marked (tree_mem t) m /\ checks (fun _ => True) r' /\ (r' = Ok tt -> m = tree_mem t)) as Hsame.
  { intros r Hr. exists (tree_mem t), (setDirtyBlockIndex t), r. split; [by destruct t|]. split; [apply marked_refl|done]. }
  unfold IsValid. change (Z.land BLOCK_VALID_SCRIPTS (Z.lnot BLOCK_VALID_MASK) =? 0) with true. cbn [negb].
  assert (exists v, (if negb (Z.land (nStatus b) BLOCK_FAILED_MASK =? 0) then Ok false else Ok (BLOCK_VALID_SCRIPTS <=? Z.land (nStatus b) BLOCK_VALID_MASK)) = Ok (E := fault) v) as [v ->]
    by (destruct (negb _); eauto).
  destruct v; [by apply Hsame|].
  destruct (find_failed_spec (tree_mem t) p b (ti_index t H) Hp (merge_sort Pos.le (elements (g_failed_blocks t)))) as (r & -> & Hr).
  { intros q Hq. apply (ti_failed t H). rewrite merge_sort_Permutation in Hq. by apply elem_of_elements. }
  destruct r as [q|]; [|by apply Hsame].
  destruct (mark_failed_spec (S (Z.to_nat (Chain.nHeight b))) t p b q) as (m & dirty & -> & Hm); [apply (ti_index t H)|done|done|lia|].
  exists m, dirty, (DoS 100 "bad-prevblk"). split; [done|]. split; [done|]. split; [done|]. discriminate.
Qed.

(** *** A new entry *)

(** The entry that [AddToBlockIndex] makes of a header on top of [q]. *)
Definition new_entry (m : heap) (block : CBlockHeader) (q : ptr) (bq : CBlockIndex) (work : base_uint) : CBlockIndex :=
  let b := set_prev (index_of_header (header_GetHash net kt block) block) q (Chain.nHeight bq + 1) in
  set_work (set_pskip b (ancestor_at m q (GetSkipHeight (Chain.nHeight bq + 1)))) (Z.max (nTimeMax bq) (hdr_nTime block)) (add (nChainWork bq) work) 2.

Lemma AddToBlockIndex_known t block p : mapBlockIndex t !! header_GetHash net kt block = Some p -> Add t block = Ok (t, p).
Proof. unfold AddToBlockIndex. by intros ->. Qed.

Lemma AddToBlockIndex_new t block q bq : tree_inv t -> mapBlockIndex t !! header_GetHash net kt block = None ->
  mapBlockIndex t !! hdr_hashPrevBlock block = Some q -> tree_mem t !! q = Some bq -> is_u32 (hdr_nBits block) ->
  exists work best bb, let p := new (tree_mem t) in let b := new_entry (tree_mem t) block q bq work in
    GetBlockProof b = Ok work /\ wf work /\ eval work = block_work (hdr_nBits block)
    /\ pindexBestHeader t = Some best /\ tree_mem t !! best = Some bb
    /\ Add t block = Ok (mkTree (<[p := b]> (tree_mem t)) (<[header_GetHash net kt block := p]> (mapBlockIndex t))
         (if CompareTo (nChainWork bb) (nChainWork b) <? 0 then Some p else Some best) (g_failed_blocks t)
         ({[p]} ∪ setDirtyBlockIndex t) (tree_cached t), p).
Proof.
  intros H Hnone Hprev Hq Hbits. destruct (ti_best t H) as (best & bb & Ebest & Hbb & _).
  set (m := tree_mem t) in *. pose proof (Hnew m) as Hp. set (p := new m) in *.
  assert (p <> q) as Hpq by congruence. assert (p <> best) as Hpb by congruence.
  unfold AddToBlockIndex. rewrite Hnone. fold m p. cbv zeta. rewrite lookup_insert_ne by congruence. rewrite Hprev.
  rewrite (deref_ok _ q bq) by (by rewrite lookup_insert_ne). cbn [mbind result_bind]. rewrite insert_insert_eq.
  set (b := set_prev _ _ _).
  assert (prev_ok m b) as Hok.
  { destruct (proj1 (ti_index t H) q bq Hq) as [H0 _]. split; [cbn; lia|]. cbn. exists bq. split; [exact Hq|lia]. }
  assert (index_ok (<[p := b]> m)) as Hi by (apply index_insert; [apply (ti_index t H)|done|done|done]).
  unfold BuildSkip. rewrite (deref_ok _ p b) by (by rewrite lookup_insert_eq). cbn [mbind result_bind]. change (pprev b) with (Some q). cbv iota.
  rewrite (GetAncestor_spec _ q bq) by (done || by rewrite lookup_insert_ne). cbn [mbind result_bind].
  rewrite (extends_ancestor m _ (extends_insert m p b Hp)) by (apply (ti_index t H) || by exists bq).
  rewrite insert_insert_eq. rewrite (deref_ok _ p _) by (by rewrite lookup_insert_eq). cbn [mbind result_bind]. cbn [pprev set_pskip b set_prev].
  rewrite (deref_ok _ q bq) by (by rewrite lookup_insert_ne). cbn [mbind result_bind fmap result_fmap].
  set (b2 := set_pskip _ _). destruct (GetBlockProof_spec b2 Hbits) as (work & Ew & Hw & Hev). rewrite Ew. cbn [mbind result_bind].
  change (RaiseValidity (nStatus b2) BLOCK_VALID_TREE) with (Ok (E := fault) (2, true)). cbn [mbind result_bind]. rewrite insert_insert_eq, Ebest.
  rewrite (deref_ok _ best bb) by (by rewrite lookup_insert_ne). cbn [mbind result_bind].
  exists work, best, bb. split; [exact Ew|]. split; [done|]. split; [done|]. split; [done|]. split; [done|]. reflexivity.
Qed.

Lemma hash_combine_inj a b : is_hash 32 a -> is_hash 32 b -> le_combine a = le_combine b -> a = b.
Proof. intros [La Ha] [Lb Hb] E. rewrite <- (le_split_combine a), <- (le_split_combine b) by done. by rewrite La, Lb, E. Qed.

Lemma new_entry_prev_ok m block q bq work : m !! q = Some bq -> 0 <= Chain.nHeight bq -> prev_ok m (new_entry m block q bq work).
Proof. intros Hq H0. split; [cbn; lia|]. cbn. exists bq. split; [exact Hq|lia]. Qed.

Lemma AddToBlockIndex_inv t block q bq : tree_inv t -> mapBlockIndex t !! header_GetHash net kt block = None ->
  mapBlockIndex t !! hdr_hashPrevBlock block = Some q -> tree_mem t !! q = Some bq ->
  valid_bits (pow_limit params) (hdr_nBits block) -> mtp (tree_mem t) q < hdr_nTime block ->
  exists t' b, let p := new (tree_mem t) in Add t block = Ok (t', p) /\ tree_inv t' /\ tree_mem t' = <[p := b]> (tree_mem t)
    /\ mapBlockIndex t' = <[header_GetHash net kt block := p]> (mapBlockIndex t)
    /\ exists work, b = new_entry (tree_mem t) block q bq work.
Proof.
  intros H Hnone Hprev Hq Hbits Htime.
  destruct (AddToBlockIndex_new t block q bq H Hnone Hprev Hq (proj1 Hbits)) as (work & best & bb & Ew & Hw & Hev & Ebest & Hbb & E).
  cbv zeta in *. set (m := tree_mem t) in *. pose proof (Hnew m) as Hp. set (p := new m) in *. set (b := new_entry m block q bq work) in *.
  set (t' := mkTree _ _ _ _ _ _) in E. exists t', b. split; [exact E|]. split; [|split; [done|split; [done|by exists work]]].
  pose proof (ti_index t H) as [Ht Hs]. fold m in Ht, Hs. destruct (Ht q bq Hq) as [H0 _]. pose proof (extends_insert m p b Hp) as He.
  pose proof (new_entry_prev_ok m block q bq work Hq H0) as Hprevok. fold b in Hprevok.
  destruct (ti_entry t H q bq Hq) as (Hwq & _ & _). destruct (add_spec (nChainWork bq) work Hwq Hw) as [Hwb Heb].
  assert (entry_ok (<[p := b]> m) b) as Hentry.
  { split; [exact Hwb|]. unfold prev_work, prev_time_max. cbn [pprev b new_entry set_work set_pskip set_prev]. rewrite lookup_insert_ne, Hq by congruence.
    split; [|done]. cbn [nChainWork nBits b new_entry set_work]. rewrite Heb, Hev. done. }
  constructor; cbn [t' tree_mem mapBlockIndex pindexBestHeader g_failed_blocks tree_cached].
  - apply index_insert; [split; assumption|exact Hp|exact Hprevok|].
    destruct (leaf_skip m p b q bq Ht Hp eq_refl Hq eq_refl) as [Es [r Er]]. unfold skip_ok.
    change (pskip b) with (ancestor_at m q (GetSkipHeight (Chain.nHeight b))). rewrite Er, Es. exact Er.
  - intros x c Hx. destruct (decide (p = x)) as [<-|Hn]; [rewrite lookup_insert_eq in Hx; by injection Hx as <-|].
    rewrite lookup_insert_ne in Hx by done. by apply (ti_bits t H x).
  - apply times_insert; [exact Ht|apply (ti_times t H)|exact Hp|exact Hprevok|]. intros r [= <-]. exact Htime.
  - intros x c Hx. rewrite map_size_insert_None by exact Hp. destruct (decide (p = x)) as [<-|Hn].
    + rewrite lookup_insert_eq in Hx. injection Hx as <-. pose proof (ti_height t H q bq Hq) as Hhq. fold m in Hhq. change (Chain.nHeight b) with (Chain.nHeight bq + 1). lia.
    + rewrite lookup_insert_ne in Hx by done. pose proof (ti_height t H x c Hx) as Hhx. fold m in Hhx. lia.
  - intros x c Hx. destruct (decide (p = x)) as [<-|Hn]; [rewrite lookup_insert_eq in Hx; injection Hx as <-; exact Hentry|].
    rewrite lookup_insert_ne in Hx by done. destruct (ti_entry t H x c Hx) as (? & Hwork & Hmax). split; [done|].
    destruct (Ht x c Hx) as [_ Hc]. unfold prev_work, prev_time_max in *. destruct (pprev c) as [r|]; [|done]. destruct Hc as (cr & Hr & _).
    rewrite lookup_insert_ne by congruence. done.
  - intros h x. split.
    + intros Hx. destruct (decide (header_GetHash net kt block = h)) as [<-|Hn].
      * rewrite lookup_insert_eq in Hx. injection Hx as <-. split; [by apply header_hash_ok|]. exists b. rewrite lookup_insert_eq. done.
      * rewrite lookup_insert_ne in Hx by done. apply (ti_map t H) in Hx as (Hh & c & Hc & Ec). split; [done|]. exists c.
        rewrite lookup_insert_ne by (intros <-; fold m in Hc; congruence). done.
    + intros (Hh & c & Hc & Ec). destruct (decide (p = x)) as [<-|Hn].
      * rewrite lookup_insert_eq in Hc. injection Hc as <-. cbn in Ec. apply hash_combine_inj in Ec as <-; [by rewrite lookup_insert_eq|by apply header_hash_ok|done].
      * rewrite lookup_insert_ne in Hc by done. assert (mapBlockIndex t !! h = Some x) as Hx by (apply (ti_map t H); split; [done|by exists c]).
        rewrite lookup_insert_ne by congruence. done.
  - destruct (ti_best t H) as (best' & bb' & E1 & E2 & Hmax). rewrite Ebest in E1. injection E1 as <-. fold m in E2, Hmax. rewrite Hbb in E2. injection E2 as <-.
    destruct (ti_entry t H best bb Hbb) as (Hwbb & _). rewrite CompareTo_spec by done.
    destruct (Z.ltb_spec (Z.sgn (eval (nChainWork bb) - eval (nChainWork b))) 0) as [Hlt|Hge].
    + exists p, b. rewrite lookup_insert_eq. split; [done|]. split; [done|]. intros x c Hx. destruct (decide (p = x)) as [<-|Hn].
      * rewrite lookup_insert_eq in Hx. by injection Hx as <-.
      * rewrite lookup_insert_ne in Hx by done. specialize (Hmax x c Hx). lia.
    + exists best, bb. rewrite lookup_insert_ne by congruence. split; [done|]. split; [done|]. intros x c Hx. destruct (decide (p = x)) as [<-|Hn].
      * rewrite lookup_insert_eq in Hx. injection Hx as <-. lia.
      * rewrite lookup_insert_ne in Hx by done. by apply (Hmax x c).
  - destruct (ti_genesis t H) as [g Hg]. exists g. rewrite lookup_insert_ne by congruence. done.
  - intros x Hx. destruct (ti_failed t H x Hx) as (c & Hc & Hf). fold m in Hc. exists c. rewrite lookup_insert_ne by congruence. done.
  - apply (ti_cached t H).
Qed.

Lemma cached_inv t c : tree_inv t -> cached_ok c -> tree_inv (with_cached t c).
Proof. intros H Hc. destruct H. constructor; assumption. Qed.

(** One header: the state stays well formed, and there is an answer, unless the header
    claims a height that the proof-of-work hash cannot take. *)
Lemma AcceptBlockHeader_inv t node block : tree_inv t -> node_ok (tree_mem t) node ->
  Z.of_nat (size (tree_mem t)) < 2 ^ 31 ->
  let '(t', r) := Accept t node block in
  tree_inv t' /\ extends (tree_mem t) (tree_mem t') /\ (size (tree_mem t') <= S (size (tree_mem t)))%nat
  /\ checks_if (height_ok kt block) (fun p => mapBlockIndex t' !! header_GetHash net kt block = Some p
       /\ (mapBlockIndex t !! header_GetHash net kt block = None -> exists q bq work,
             mapBlockIndex t !! hdr_hashPrevBlock block = Some q /\ tree_mem t !! q = Some bq
             /\ tree_mem t' = <[p := new_entry (tree_mem t) block q bq work]> (tree_mem t))) r.
Proof.
  intros H Hnode Hsize. unfold AcceptBlockHeader. cbv zeta. destruct (bool_decide_reflect (header_GetHash net kt block = hashGenesisBlock)) as [Eg|Eg].
  { destruct (ti_genesis t H) as [g Hg]. rewrite <- Eg in Hg. unfold add_header. rewrite (AddToBlockIndex_known t block g Hg).
    split; [done|]. split; [by intros p b Hp; exists b|]. split; [lia|]. split; [exact Hg|congruence]. }
  destruct (mapBlockIndex t !! header_GetHash net kt block) as [p|] eqn:Emap.
  { split; [done|]. split; [by intros q b Hq; exists b|]. split; [lia|]. destruct (inv_map t H _ _ Emap) as [b Hb].
    rewrite (deref_ok _ _ _ Hb). cbn [halting mbind result_bind]. apply checks_any.
    apply (checks_bind (fun _ => True)); [by apply checks_reject_if|]. intros _ _. split; [exact Emap|discriminate]. }
  assert (checks_if (height_ok kt block) (fun '(c, q) => cached_ok c /\ mapBlockIndex t !! hdr_hashPrevBlock block = Some q
    /\ valid_bits (pow_limit params) (hdr_nBits block) /\ mtp (tree_mem t) q < hdr_nTime block)
    (check_new_header net kt dgw params checkpoints chain t node block)) as Hcheck.
  { unfold check_new_header. destruct (CheckBlockHeader _ _ _ _ _ _ _ _ _) as [c|e] eqn:Ec.
    2:{ destruct e; [done| |]; intros Hh; pose proof (CheckBlockHeader_checks net kt params checkpoints (tree_mem t) (mapBlockIndex t) (tree_cached t) block
          (ti_cached t H) Hh (inv_map t H)) as HC; by rewrite Ec in HC. }
    pose proof (CheckBlockHeader_cached _ _ _ _ _ _ _ _ _ (ti_cached t H) Ec) as Hc. cbn [mbind result_bind]. apply checks_any.
    destruct (mapBlockIndex t !! hdr_hashPrevBlock block) as [q|] eqn:Eq; [|done].
    destruct (inv_map t H _ _ Eq) as [bq Hq]. rewrite (deref_ok _ _ _ Hq). cbn [halting mbind result_bind].
    apply (checks_bind (fun _ => True)); [by apply checks_reject_if|]. intros _ _. pose proof (ti_height t H q bq Hq).
    eapply checks_bind; [eapply (ContextualCheckBlockHeader_checks kt dgw params checkpoints chain _ _ node block q bq);
      [done|apply (ti_index t H)|apply (ti_bits t H)|done|lia|done|apply (inv_map t H)]|]. intros _ [Hb Ht]. done. }
  destruct (check_new_header _ _ _ _ _ _ _ _ _) as [[c q]|e]; [|split; [done|]; split; [by intros p b Hp; exists b|]; split; [lia|by destruct e]].
  destruct Hcheck as (Hc & Hq & Hb & Ht). pose proof (cached_inv t c H Hc) as Hcinv.
  destruct (inv_map t H _ _ Hq) as [bq Hbq].
  destruct (check_failed_ancestor_spec (with_cached t c) q bq Hcinv Hbq) as (m & dirty & r & -> & Hm & Hr & Hsame).
  pose proof (marked_inv _ m dirty Hcinv Hm) as Hinv. destruct r as [[]|e].
  - specialize (Hsame eq_refl). subst m. set (t1 := with_marks _ _ _) in *.
    destruct (AddToBlockIndex_inv t1 block q bq Hinv Emap Hq Hbq Hb Ht) as (t' & b & E & Hinv' & Emem & Emap' & work & ->). cbv zeta in E.
    unfold add_header. rewrite E. split; [done|]. pose proof (Hnew (tree_mem t)) as Hfresh. change (tree_mem t1) with (tree_mem t) in *. rewrite Emem.
    split; [by apply extends_insert|]. split; [by rewrite map_size_insert_None|]. cbn. rewrite Emap', lookup_insert_eq. split; [done|]. intros _. by exists q, bq, work.
  - split; [exact Hinv|]. split; [apply (marked_extends _ _ Hm)|]. split; [cbn [with_marks tree_mem]; rewrite (marked_size _ _ Hm); cbn; lia|by destruct e].
Qed.

Lemma extends_trans m1 m2 m3 : extends m1 m2 -> extends m2 m3 -> extends m1 m3.
Proof. intros H1 H2 p b Hp. destruct (H1 p b Hp) as (b' & Hb' & <-). by apply H2. Qed.
Lemma extends_node m m' node : extends m m' -> node_ok m node -> node_ok m' node.
Proof. intros He (p & b & Ht & Hb). destruct (He p b Hb) as (b' & Hb' & _). by exists p, b'. Qed.

(** Hashes stay known. *)
Lemma extends_known t t' h : tree_inv t -> tree_inv t' -> extends (tree_mem t) (tree_mem t') ->
  is_Some (mapBlockIndex t !! h) -> is_Some (mapBlockIndex t' !! h).
Proof.
  intros H H' He [p Hp]. apply (ti_map t H) in Hp as (Hh & b & Hb & E). destruct (He p b Hb) as (b' & Hb' & Es). exists p.
  apply (ti_map t' H'). split; [done|]. exists b'. split; [done|]. injection Es as Es _ _ _ _ _ _ _. congruence.
Qed.

Lemma ProcessNewBlockHeaders_inv headers : forall t pp, tree_inv t ->
  Forall (node_ok (tree_mem t)) headers.*1 ->
  Z.of_nat (size (tree_mem t)) + Z.of_nat (length headers) <= 2 ^ 31 ->
  let '(t', r) := Process t headers pp in
  tree_inv t' /\ extends (tree_mem t) (tree_mem t')
  /\ match r with
     | Ok _ => Forall (fun '(_, h) => is_Some (mapBlockIndex t' !! header_GetHash net kt h)) headers
     | Err (Reject _ _, h) => h ∈ headers.*2
     | Err (_, h) => h ∈ headers.*2 /\ ~ height_ok kt h
     end.
Proof.
  induction headers as [|[node h] headers IH]; intros t pp H F Hsize; cbn [ProcessNewBlockHeaders].
  { split; [done|]. split; [by intros p b Hp; exists b|constructor]. }
  cbn [fmap list_fmap fst] in F. apply Forall_cons in F as [Hn F]. cbn [length] in Hsize.
  pose proof (AcceptBlockHeader_inv t node h H Hn ltac:(lia)) as HA. destruct (Accept t node h) as [t1 r1]. destruct HA as (H1 & E1 & S1 & C1).
  destruct r1 as [p|[]]; cbn in C1; [apply proj1 in C1|split; [done|split; [done|by left]]|split; [done|split; [done|split; [by left|done]]]..].
  specialize (IH t1 (Some p) H1). destruct (Process t1 headers (Some p)) as [t2 r2].
  destruct IH as (H2 & E2 & C2); [|lia|].
  { eapply Forall_impl; [exact F|]. intros node' Hn'. by eapply extends_node. }
  split; [done|]. split; [by eapply extends_trans|]. destruct r2 as [pp'|[[] h']]; [|by right|split; [right; apply C2|apply C2]..].
  constructor; [|exact C2]. eapply extends_known; [exact H1|exact H2|exact E2|by exists p].
Qed.

Lemma uint256_combine x : is_hash 32 x -> uint256_of_Z (le_combine x) = x.
Proof. intros [L B]. unfold uint256_of_Z. rewrite <- L. by apply le_split_combine. Qed.

(** The header that the index keeps. *)
Lemma stored_header t t' block p q bq b work : tree_inv t -> mapBlockIndex t !! hdr_hashPrevBlock block = Some q -> tree_mem t !! q = Some bq ->
  is_hash 32 (hdr_hashMerkleRoot block) -> is_hash 32 (hdr_mix_hash block) ->
  extends (tree_mem t) (tree_mem t') -> tree_mem t' !! p = Some b -> b = new_entry (tree_mem t) block q bq work ->
  GetBlockHeader (tree_mem t') b = Ok (set_height block (u32 (Chain.nHeight bq + 1))).
Proof.
  intros H Hq Hbq Hm Hx He Hb ->. unfold GetBlockHeader. cbn [pprev new_entry set_work set_pskip set_prev].
  apply (ti_map t H) in Hq as (Hp & bq' & Hbq' & Eh). rewrite Hbq in Hbq'. injection Hbq' as <-.
  destruct (He q bq Hbq) as (bq' & Hbq' & Es). injection Es as Es _ _ _ _ _ _ _. rewrite (deref_ok _ _ _ Hbq'). cbn [mbind result_bind].
  rewrite Es, Eh. cbn [new_entry set_work set_pskip set_prev index_of_header Chain.nVersion hashMerkleRoot nTime nBits nNonce nNonce64 mix_hash Chain.nHeight].
  by rewrite !uint256_combine.
Qed.
End Invariant.

(** ** Theorems *)

(** C5: Headers keep the tree.  However many headers arrive, valid or not, known or not, in
    any order, [ProcessNewBlockHeaders] ends with all of them in the index or with the
    rejection of one of them, or it faults on one that claims a height which the
    proof-of-work hash cannot take.  In each case every entry stays where it is and keeps
    its parent, height, skip pointer, work and times, and the index stays a tree: heights
    count up from the genesis block, skip pointers lead to the ancestors they should,
    targets are valid, times lie above the median of the eleven blocks before, work
    accumulates modulo 2^256, the map leads to exactly the entries by their hash, and the
    best header has the most work of all. *)
Theorem headers_keep_tree {sph : SphLib} net kt dgw params checkpoints chain hashGenesisBlock new t headers pp :
  sph_ok sph -> pow_params_ok params -> (forall m : heap, m !! new m = None) -> tree_inv params hashGenesisBlock t ->
  Forall (node_ok (tree_mem t)) headers.*1 ->
  Z.of_nat (size (tree_mem t)) + Z.of_nat (length headers) <= 2 ^ 31 ->
  let '(t', r) := ProcessNewBlockHeaders net kt dgw params checkpoints chain hashGenesisBlock new t headers pp in
  tree_inv params hashGenesisBlock t' /\ extends (tree_mem t) (tree_mem t')
  /\ match r with
     | Ok _ => Forall (fun '(_, h) => is_Some (mapBlockIndex t' !! header_GetHash net kt h)) headers
     | Err (Reject _ _, h) => h ∈ headers.*2
     | Err (_, h) => h ∈ headers.*2 /\ ~ height_ok kt h
     end.
Proof. intros Hsph Hp Hnew. apply ProcessNewBlockHeaders_inv; done. Qed.

(** C39: The index forgets the height that a header claims.  An accepted header on top of the
    entry [q] is stored with the height of [q] plus one, so that the header that
    [GetBlockHeader] gives back, from which the hash is computed when the index is loaded
    from disk, is the accepted one with another height, unless it claimed the right one. *)
Theorem claimed_height_forgotten {sph : SphLib} net kt dgw params checkpoints chain hashGenesisBlock new t node block t' p :
  sph_ok sph -> pow_params_ok params -> (forall m : heap, m !! new m = None) -> tree_inv params hashGenesisBlock t ->
  node_ok (tree_mem t) node -> Z.of_nat (size (tree_mem t)) < 2 ^ 31 ->
  is_hash 32 (hdr_hashMerkleRoot block) -> is_hash 32 (hdr_mix_hash block) ->
  mapBlockIndex t !! header_GetHash net kt block = None ->
  AcceptBlockHeader net kt dgw params checkpoints chain hashGenesisBlock new t node block = (t', Ok p) ->
  exists b q bq, tree_mem t' !! p = Some b /\ mapBlockIndex t !! hdr_hashPrevBlock block = Some q /\ tree_mem t !! q = Some bq
    /\ phashBlock b = le_combine (header_GetHash net kt block) /\ Chain.nHeight b = Chain.nHeight bq + 1
    /\ GetBlockHeader (tree_mem t') b = Ok (set_height block (u32 (Chain.nHeight bq + 1))).
Proof.
  intros Hsph Hp Hnew H Hn Hs Hm Hx Hnone E.
  pose proof (AcceptBlockHeader_inv net kt dgw params checkpoints chain hashGenesisBlock new Hsph Hp Hnew t node block H Hn Hs) as HA.
  rewrite E in HA. destruct HA as (_ & He & _ & _ & Hex). destruct (Hex Hnone) as (q & bq & work & Hq & Hbq & Emem).
  exists (new_entry net kt (tree_mem t) block q bq work), q, bq. assert (tree_mem t' !! p = Some (new_entry net kt (tree_mem t) block q bq work)) as Hb
    by (rewrite Emem; by rewrite lookup_insert_eq).
  split; [exact Hb|]. split; [done|]. split; [done|]. split; [done|]. split; [done|]. by eapply (stored_header net kt).
Qed.

(** *** An example: a genesis block and a header on top of it *)

(** A hash that returns the bytes it is given, and the first free address. *)
Definition echo_sph : SphLib :=
  {| sph512 := fun _ d => (fun x => x mod 256) <$> take 64 (d ++ replicate 64 0); sph_tiger := fun d => d |}.
Definition first_free (m : heap) : ptr := fresh (dom m : gset ptr).

Definition genesis_block : CBlockHeader := mkHeader 0x30000000 null_uint256 null_uint256 1000 0x1e0fffff 0 0 0 null_uint256.
Definition example_net : BlockNetwork := mkNetwork false false.
Definition genesis_hash : bytes := Eval vm_compute in header_GetHash (sph := echo_sph) example_net 5000000 genesis_block.
Definition genesis_entry : CBlockIndex := Eval vm_compute in
  set_work (index_of_header genesis_hash genesis_block) 1000 (match GetBlockProof (index_of_header genesis_hash genesis_block) with Ok w => w | Err _ => [] end) 2.
Definition genesis_tree : block_tree := mkTree {[1%positive := genesis_entry]} {[genesis_hash := 1%positive]} (Some 1%positive) ∅ ∅ None.
Definition genesis_view : node_view := mkNode [Some 1%positive] 0 0 0 None 2000 true 3000.
Definition second_header : CBlockHeader := mkHeader 0x30000001 genesis_hash null_uint256 2000 0x1e0fffff 0 7 0 null_uint256.

Lemma echo_ok : sph_ok echo_sph.
Proof.
  intros i d. unfold sph512, echo_sph. split; [rewrite length_fmap, length_take, length_app, length_replicate; lia|]. apply Forall_fmap, Forall_true.
  intros x. apply (Z.mod_pos_bound x 256). lia.
Qed.
Lemma first_free_ok (m : heap) : m !! first_free m = None.
Proof. apply (not_elem_of_dom (D := gset ptr)). exact (is_fresh (dom m)). Qed.

Lemma genesis_inv : tree_inv main_params genesis_hash genesis_tree.
Proof.
  assert (forall p b, tree_mem genesis_tree !! p = Some b -> p = 1%positive /\ b = genesis_entry) as Hone.
  { intros p b Hp. cbn in Hp. apply lookup_singleton_Some in Hp as [<- <-]. done. }
  constructor.
  - split; intros p b Hp; destruct (Hone p b Hp) as [-> ->]; [split; [vm_compute; discriminate|reflexivity]|exact I].
  - intros p b Hp. destruct (Hone p b Hp) as [_ ->]. vm_compute. repeat split; discriminate.
  - intros p b q Hp Hq. destruct (Hone p b Hp) as [_ ->]. discriminate.
  - intros p b Hp. destruct (Hone p b Hp) as [_ ->]. by vm_compute.
  - intros p b Hp. destruct (Hone p b Hp) as [_ ->]. split; [apply (bool_decide_unpack _); by vm_compute|]. by vm_compute.
  - intros h p. unfold genesis_tree. cbn [mapBlockIndex tree_mem]. rewrite lookup_singleton_Some. split.
    + intros [<- <-]. split; [split; [done|apply (bool_decide_unpack _); by vm_compute]|]. exists genesis_entry. done.
    + intros (Hh & b & Hb & E). destruct (Hone p b Hb) as [-> ->]. split; [|done]. apply hash_combine_inj; [|done|exact E].
      split; [done|apply (bool_decide_unpack _); by vm_compute].
  - exists 1%positive, genesis_entry. split; [done|]. split; [done|]. intros q c Hq. by destruct (Hone q c Hq) as [_ ->].
  - by exists 1%positive.
  - intros p Hp. by apply elem_of_empty in Hp.
  - done.
Qed.

Lemma headers_keep_tree_witness :
  let '(t', r) := ProcessNewBlockHeaders (sph := echo_sph) example_net 5000000 1000000 main_params [] test_chain genesis_hash first_free
    genesis_tree [(genesis_view, second_header)] None in
  tree_inv main_params genesis_hash t' /\ r = Ok (pindexBestHeader t') /\ size (tree_mem t') = 2%nat.
Proof.
  pose proof (headers_keep_tree (sph := echo_sph) example_net 5000000 1000000 main_params [] test_chain genesis_hash first_free
    genesis_tree [(genesis_view, second_header)] None echo_ok main_params_ok first_free_ok genesis_inv) as H.
  assert (snd (ProcessNewBlockHeaders (sph := echo_sph) example_net 5000000 1000000 main_params [] test_chain genesis_hash first_free
    genesis_tree [(genesis_view, second_header)] None) = Ok (Some 2%positive)) as E by (vm_compute; reflexivity).
  assert (size (tree_mem (fst (ProcessNewBlockHeaders (sph := echo_sph) example_net 5000000 1000000 main_params [] test_chain genesis_hash first_free
    genesis_tree [(genesis_view, second_header)] None))) = 2%nat) as E2 by (vm_compute; reflexivity).
  assert (pindexBestHeader (fst (ProcessNewBlockHeaders (sph := echo_sph) example_net 5000000 1000000 main_params [] test_chain genesis_hash first_free
    genesis_tree [(genesis_view, second_header)] None)) = Some 2%positive) as E3 by (vm_compute; reflexivity).
  destruct (ProcessNewBlockHeaders _ _ _ _ _ _ _ _ _ _ _) as [t' r]. cbn [fst snd] in *. rewrite E, E3.
  destruct H as (H & _); [constructor; [by exists 1%positive, genesis_entry|constructor]|vm_compute; discriminate|].
  split; [exact H|]. split; [reflexivity|exact E2].
Defined.

(** The header claims height 7; the index has it at height 1. *)
Lemma claimed_height_forgotten_witness :
  let '(t', r) := AcceptBlockHeader (sph := echo_sph) example_net 5000000 1000000 main_params [] test_chain genesis_hash first_free
    genesis_tree genesis_view second_header in
  exists p b, r = Ok p /\ tree_mem t' !! p = Some b /\ GetBlockHeader (tree_mem t') b = Ok (set_height second_header 1).
Proof.
  pose proof (claimed_height_forgotten (sph := echo_sph) example_net 5000000 1000000 main_params [] test_chain genesis_hash first_free
    genesis_tree genesis_view second_header) as H.
  assert (snd (AcceptBlockHeader (sph := echo_sph) example_net 5000000 1000000 main_params [] test_chain genesis_hash first_free
    genesis_tree genesis_view second_header) = Ok 2%positive) as E by (vm_compute; reflexivity).
  destruct (AcceptBlockHeader _ _ _ _ _ _ _ _ _ _) as [t' r]. cbn [snd] in E. subst r.
  destruct (H t' 2%positive echo_ok main_params_ok first_free_ok genesis_inv) as (b & q & bq & Hb & Hq & Hbq & _ & _ & E);
    [by exists 1%positive, genesis_entry|vm_compute; reflexivity| | |vm_compute; reflexivity|reflexivity|].
  1-2: split; [reflexivity|apply (bool_decide_unpack _); vm_compute; exact I].
  exists 2%positive, b. split; [reflexivity|]. split; [exact Hb|]. rewrite E. vm_compute in Hq. injection Hq as <-.
  vm_compute in Hbq. injection Hbq as <-. vm_compute. reflexivity.
Defined.
