(* ===== verification/ChainSelect.v ===== *)
(** * The choice of the best chain: [src/validation.cpp]

    How a block whose transactions have arrived becomes a candidate for the tip
    ([ReceivedBlockTransactions]), and how the candidate to switch to is found
    ([FindMostWorkChain], [PruneBlockIndexCandidates], [InvalidBlockFound]).

    The theorems: the bookkeeping of blocks that arrive before their parents loses none of
    them, whatever the order of arrival; and [FindMostWorkChain] ends with the candidate of
    most work among those whose branch is complete and not known to be invalid. *)

From S2P Require Import Prelude Params ArithUint256 Chain Transaction BlockCheck BlockTree.

(** ** The state *)

Definition set_data (b : CBlockIndex) (ntx file pos status : Z) : CBlockIndex :=
  mkBlockIndex (phashBlock b) (pprev b) (pskip b) (Chain.nHeight b) file pos 0 (nChainWork b)
    ntx 0 status (Chain.nVersion b) (hashMerkleRoot b) (nTime b) (nBits b) (nNonce b) (nNonce64 b) (mix_hash b)
    (nSequenceId b) (nTimeMax b).
Definition set_linked (b : CBlockIndex) (chainTx seq : Z) : CBlockIndex :=
  mkBlockIndex (phashBlock b) (pprev b) (pskip b) (Chain.nHeight b) (nFile b) (nDataPos b) (nUndoPos b) (nChainWork b)
    (nTx b) chainTx (nStatus b) (Chain.nVersion b) (hashMerkleRoot b) (nTime b) (nBits b) (nNonce b) (nNonce64 b) (mix_hash b)
    seq (nTimeMax b).

(** The global variables of the selection.  [mapBlocksUnlinked] is a multimap: pairs in
    the order of insertion.  [setBlockIndexCandidates] is ordered by the comparator below;
    no operation changes the key of a member. *)
Record select_state := mkSelect {
  sel_mem : heap;
  setBlockIndexCandidates : gset ptr;
  mapBlocksUnlinked : list (ptr * ptr);
  nBlockSequenceId : Z;
  pindexBestInvalid : option ptr;
  sel_failed_blocks : gset ptr;
  sel_dirty : gset ptr;
}.

Definition sel_with_mem (s : select_state) (m : heap) : select_state :=
  mkSelect m (setBlockIndexCandidates s) (mapBlocksUnlinked s) (nBlockSequenceId s) (pindexBestInvalid s) (sel_failed_blocks s) (sel_dirty s).
Definition sel_with_candidates (s : select_state) (c : gset ptr) : select_state :=
  mkSelect (sel_mem s) c (mapBlocksUnlinked s) (nBlockSequenceId s) (pindexBestInvalid s) (sel_failed_blocks s) (sel_dirty s).
Definition sel_with_unlinked (s : select_state) (u : list (ptr * ptr)) : select_state :=
  mkSelect (sel_mem s) (setBlockIndexCandidates s) u (nBlockSequenceId s) (pindexBestInvalid s) (sel_failed_blocks s) (sel_dirty s).

(** [CBlockIndexWorkComparator]. *)
Definition entry_less (pa : ptr) (a : CBlockIndex) (pb : ptr) (b : CBlockIndex) : bool :=
  if CompareTo (nChainWork a) (nChainWork b) >? 0 then false
  else if CompareTo (nChainWork a) (nChainWork b) <? 0 then true
  else if nSequenceId a <? nSequenceId b then false
  else if nSequenceId a >? nSequenceId b then true
  else if (pa <? pb)%positive then false
  else (pb <? pa)%positive.
Definition work_less (m : heap) (pa pb : ptr) : result fault bool :=
  a ← deref m pa; b ← deref m pb; Ok (entry_less pa a pb b).

(** ** Blocks with transactions *)

Section Select.
Context (params : Params) (chainActive : CChain).

(** One turn of the loop over the queue: the entry is linked, becomes a candidate unless
    it is worse than the tip, and its waiting children join the queue. *)
Definition link_entry (s : select_state) (p : ptr) : result fault (select_state * list ptr) :=
  b ← deref (sel_mem s) p;
  base ← match pprev b with Some q => bq ← deref (sel_mem s) q; Ok (nChainTx bq) | None => Ok 0 end;
  let m := <[p := set_linked b (u32 (base + nTx b)) (nBlockSequenceId s)]> (sel_mem s) in
  candidate ← match Tip chainActive with
              | None => Ok true
              | Some tip => less ← work_less m p tip; Ok (negb less)
              end;
  let children := snd <$> filter (fun '(a, _) => a = p) (mapBlocksUnlinked s) in
  Ok (mkSelect m (if candidate : bool then {[p]} ∪ setBlockIndexCandidates s else setBlockIndexCandidates s)
        (filter (fun '(a, _) => a <> p) (mapBlocksUnlinked s)) (i32 (nBlockSequenceId s + 1)) (pindexBestInvalid s)
        (sel_failed_blocks s) (sel_dirty s), children).

(** Every turn takes the waiting children out of [mapBlocksUnlinked], so that its length
    is enough fuel. *)
Fixpoint link_queue (fuel : nat) (s : select_state) (queue : list ptr) : result fault select_state :=
  match queue with
  | [] => Ok s
  | p :: queue =>
    match fuel with
    | O => Err OutOfFuel
    | S fuel => let* (s, children) := link_entry s p in link_queue fuel s (queue ++ children)
    end
  end.

Definition ReceivedBlockTransactions (s : select_state) (block : CBlock) (pindexNew : ptr) (file pos : Z) : result fault select_state :=
  b ← deref (sel_mem s) pindexNew;
  let status := Z.lor (nStatus b) BLOCK_HAVE_DATA in
  let status := if nSegwitEnabled params then Z.lor status BLOCK_OPT_WITNESS else status in
  let* (status, _) := RaiseValidity status BLOCK_VALID_TRANSACTIONS in
  let m := <[pindexNew := set_data b (u32 (Z.of_nat (length (vtx block)))) file pos status]> (sel_mem s) in
  let s := mkSelect m (setBlockIndexCandidates s) (mapBlocksUnlinked s) (nBlockSequenceId s) (pindexBestInvalid s) (sel_failed_blocks s)
             ({[pindexNew]} ∪ sel_dirty s) in
  prev ← match pprev b with Some q => bq ← deref m q; Ok (Some (q, bq)) | None => Ok None end;
  match prev with
  | None => link_queue (S (length (mapBlocksUnlinked s))) s [pindexNew]
  | Some (q, bq) =>
    if negb (nChainTx bq =? 0) then link_queue (S (length (mapBlocksUnlinked s))) s [pindexNew]
    else valid ← IsValid bq BLOCK_VALID_TREE;
         Ok (if valid : bool then sel_with_unlinked s (mapBlocksUnlinked s ++ [(q, pindexNew)]) else s)
  end.

(** ** The best candidate *)

(** [*setBlockIndexCandidates.rbegin()]. *)
Fixpoint best_of (m : heap) (best : ptr) (l : list ptr) : result fault ptr :=
  match l with
  | [] => Ok best
  | p :: l => less ← work_less m best p; best_of m (if less : bool then p else best) l
  end.
Definition best_candidate (s : select_state) : result fault (option ptr) :=
  match elements (setBlockIndexCandidates s) with
  | [] => Ok None
  | p :: l => Some <$> best_of (sel_mem s) p l
  end.

(** The walk down to the active chain: the first entry that has failed or has no data, and
    whether it has failed. *)
Fixpoint find_unusable (fuel : nat) (m : heap) (pindexTest : option ptr) : result fault (option (ptr * bool)) :=
  match pindexTest with
  | None => Ok None
  | Some p =>
    contained ← Contains m chainActive p;
    if contained : bool then Ok None
    else
      b ← deref m p;
      if (nChainTx b =? 0) && negb (Chain.nHeight b =? 0) then Err AssertFailure
      else
        let fFailedChain := has_flag b BLOCK_FAILED_MASK in
        let fMissingData := negb (has_flag b BLOCK_HAVE_DATA) in
        if fFailedChain || fMissingData then Ok (Some (p, fFailedChain))
        else match fuel with
             | O => Err OutOfFuel
             | S fuel => find_unusable fuel m (pprev b)
             end
  end.

(** The entries from [pindexFailed] down to [pindexTest] leave the set. *)
Fixpoint remove_chain (fuel : nat) (s : select_state) (pindexFailed pindexTest : ptr) (fFailedChain : bool) : result fault select_state :=
  if bool_decide (pindexTest = pindexFailed) then Ok (sel_with_candidates s (setBlockIndexCandidates s ∖ {[pindexTest]}))
  else match fuel with
       | O => Err OutOfFuel
       | S fuel =>
         b ← deref (sel_mem s) pindexFailed;
         match pprev b with
         | None => Err NullDereference
         | Some q =>
           let s := if fFailedChain
                    then sel_with_mem s (<[pindexFailed := set_status b (Z.lor (nStatus b) BLOCK_FAILED_CHILD)]> (sel_mem s))
                    else sel_with_unlinked s (mapBlocksUnlinked s ++ [(q, pindexFailed)]) in
           remove_chain fuel (sel_with_candidates s (setBlockIndexCandidates s ∖ {[pindexFailed]})) q pindexTest fFailedChain
         end
       end.

Definition raise_best_invalid (s : select_state) (p : ptr) : result fault select_state :=
  b ← deref (sel_mem s) p;
  better ← match pindexBestInvalid s with
           | None => Ok true
           | Some q => bq ← deref (sel_mem s) q; Ok (CompareTo (nChainWork b) (nChainWork bq) >? 0)
           end;
  Ok (if better : bool
      then mkSelect (sel_mem s) (setBlockIndexCandidates s) (mapBlocksUnlinked s) (nBlockSequenceId s) (Some p) (sel_failed_blocks s) (sel_dirty s)
      else s).

(** Every turn removes a candidate, so that their number is enough fuel. *)
Fixpoint FindMostWorkChain (fuel : nat) (s : select_state) : result fault (select_state * option ptr) :=
  best ← best_candidate s;
  match best with
  | None => Ok (s, None)
  | Some pindexNew =>
    b ← deref (sel_mem s) pindexNew;
    bad ← find_unusable (S (Z.to_nat (Chain.nHeight b))) (sel_mem s) (Some pindexNew);
    match bad with
    | None => Ok (s, Some pindexNew)
    | Some (pindexTest, fFailedChain) =>
      match fuel with
      | O => Err OutOfFuel
      | S fuel =>
        s ← (if fFailedChain then raise_best_invalid s pindexNew else Ok s);
        s ← remove_chain (Z.to_nat (Chain.nHeight b)) s pindexNew pindexTest fFailedChain;
        FindMostWorkChain fuel s
      end
    end
  end.

(** The entries below the tip come first in the ordered set. *)
Fixpoint worse_than (m : heap) (tip : ptr) (l : list ptr) : result fault (list ptr) :=
  match l with
  | [] => Ok []
  | p :: l => less ← work_less m p tip; rest ← worse_than m tip l; Ok (if less : bool then p :: rest else rest)
  end.
Definition PruneBlockIndexCandidates (s : select_state) : result fault select_state :=
  match Tip chainActive with
  | None => match elements (setBlockIndexCandidates s) with [] => Err AssertFailure | _ => Err NullDereference end
  | Some tip =>
    worse ← worse_than (sel_mem s) tip (elements (setBlockIndexCandidates s));
    let left := setBlockIndexCandidates s ∖ list_to_set worse in
    if bool_decide (left = ∅) then Err AssertFailure else Ok (sel_with_candidates s left)
  end.

(** [InvalidBlockFound] with [InvalidChainFound], without the log and the warnings. *)
Definition InvalidBlockFound (s : select_state) (p : ptr) (corruption : bool) : result fault select_state :=
  if corruption then Ok s
  else
    b ← deref (sel_mem s) p;
    let s := mkSelect (<[p := set_status b (Z.lor (nStatus b) BLOCK_FAILED_VALID)]> (sel_mem s)) (setBlockIndexCandidates s ∖ {[p]})
               (mapBlocksUnlinked s) (nBlockSequenceId s) (pindexBestInvalid s) ({[p]} ∪ sel_failed_blocks s) ({[p]} ∪ sel_dirty s) in
    s ← raise_best_invalid s p;
    match Tip chainActive with None => Err AssertFailure | Some _ => Ok s end.
End Select.

(** ** The order of the candidates *)

Definition precedes (pa : ptr) (a : CBlockIndex) (pb : ptr) (b : CBlockIndex) : Prop :=
  eval (nChainWork a) < eval (nChainWork b)
  \/ eval (nChainWork a) = eval (nChainWork b) /\ (nSequenceId b < nSequenceId a \/ nSequenceId b = nSequenceId a /\ (pb < pa)%positive).

Lemma entry_less_spec pa a pb b : wf (nChainWork a) -> wf (nChainWork b) -> entry_less pa a pb b = true <-> precedes pa a pb b.
Proof.
  intros Ha Hb. unfold entry_less, precedes. rewrite CompareTo_spec, !Z.gtb_ltb by done.
  destruct (Z.ltb_spec 0 (Z.sgn (eval (nChainWork a) - eval (nChainWork b)))); [split; [done|lia]|].
  destruct (Z.ltb_spec (Z.sgn (eval (nChainWork a) - eval (nChainWork b))) 0); [split; [lia|done]|].
  destruct (Z.ltb_spec (nSequenceId a) (nSequenceId b)); [split; [done|lia]|].
  destruct (Z.ltb_spec (nSequenceId b) (nSequenceId a)); [split; [lia|done]|].
  destruct (Pos.ltb_spec pa pb); [split; [done|lia]|]. rewrite Pos.ltb_lt. split; lia.
Qed.

(** The entry at [x] comes before the entry at [y]. *)
Definition worse (m : heap) (x y : ptr) : Prop := exists a b, m !! x = Some a /\ m !! y = Some b /\ precedes x a y b.

Lemma worse_trans m x y z : worse m x y -> worse m y z -> worse m x z.
Proof.
  intros (a & b & Ha & Hb & H1) (b' & c & Hb' & Hc & H2). rewrite Hb in Hb'. injection Hb' as <-. exists a, c. split; [done|]. split; [done|].
  unfold precedes in *. lia.
Qed.
Lemma worse_total m x y : is_Some (m !! x) -> is_Some (m !! y) -> x = y \/ worse m x y \/ worse m y x.
Proof.
  intros [a Ha] [b Hb]. destruct (decide (x = y)) as [|Hn]; [by left|right]. unfold worse, precedes.
  destruct (Z.lt_total (eval (nChainWork a)) (eval (nChainWork b))) as [|[|]]; [left|..|right]; [by exists a, b; auto| |by exists b, a; auto].
  destruct (Z.lt_total (nSequenceId a) (nSequenceId b)) as [|[|]]; [right; exists b, a; split_and!; try done; lia| |left; exists a, b; split_and!; try done; lia].
  destruct (Pos.lt_total x y) as [|[|]]; [right; exists b, a; split_and!; try done; lia|done|left; exists a, b; split_and!; try done; lia].
Qed.
Lemma worse_irrefl m x : ~ worse m x x.
Proof. intros (a & b & Ha & Hb & H). rewrite Ha in Hb. injection Hb as <-. unfold precedes in H. lia. Qed.

Definition works_ok (m : heap) : Prop := forall p b, m !! p = Some b -> wf (nChainWork b).

Lemma work_less_spec m x y : works_ok m -> is_Some (m !! x) -> is_Some (m !! y) ->
  exists r, work_less m x y = Ok r /\ (r = true <-> worse m x y).
Proof.
  intros Hw [a Ha] [b Hb]. unfold work_less. rewrite (deref_ok _ _ _ Ha), (deref_ok _ _ _ Hb). cbn [mbind result_bind]. eexists; split; [done|].
  rewrite entry_less_spec by (by eapply Hw). split; [by exists a, b|]. intros (a' & b' & Ha' & Hb' & H). congruence.
Qed.

Lemma best_of_spec m l : works_ok m -> forall best, is_Some (m !! best) -> (forall x, x ∈ l -> is_Some (m !! x)) ->
  exists r, best_of m best l = Ok r /\ r ∈ best :: l /\ forall x, x ∈ best :: l -> x = r \/ worse m x r.
Proof.
  intros Hw. induction l as [|p l IH]; intros best Hb Hl; cbn [best_of].
  { exists best. split; [done|]. split; [by left|]. intros x Hx. left. by apply elem_of_cons in Hx as [->|Hx%elem_of_nil]. }
  destruct (work_less_spec m best p Hw Hb) as (less & -> & Hless); [apply Hl; by left|]. cbn [mbind result_bind].
  destruct (IH (if less then p else best)) as (r & -> & Hr & Hmax).
  { destruct less; [apply Hl; by left|done]. }
  { intros x Hx. apply Hl. by right. }
  exists r. split; [done|]. split.
  { destruct less; set_solver. }
  intros x Hx. assert (best = r \/ worse m best r) as Hbest; [|assert (p = r \/ worse m p r) as Hp; [|set_solver]].
  - destruct less; [|apply Hmax; by left]. destruct (Hmax p) as [<-|Hp]; [by left|right; by apply Hless|].
    right. eapply worse_trans; [by apply Hless|exact Hp].
  - destruct less; [apply Hmax; by left|]. destruct (Hmax best) as [E|Hbr]; [by left| |].
    + destruct (worse_total m p best) as [->|[Hpb|Hbp]]; [apply Hl; by left|done|by left|right; by rewrite <- E|]. apply Hless in Hbp. done.
    + destruct (worse_total m p best) as [->|[Hpb|Hbp]]; [apply Hl; by left|done|by right|right; by eapply worse_trans|]. apply Hless in Hbp. done.
Qed.

(** ** Usable branches *)

Section Search.
Context (active : CChain) (tip : ptr).

(** Every entry of the branch above the active chain has its data and has not failed. *)
Definition usable (m : heap) (p : ptr) : Prop :=
  forall a b, is_ancestor m a p -> m !! a = Some b -> ~ is_ancestor m a tip ->
    has_flag b BLOCK_FAILED_MASK = false /\ has_flag b BLOCK_HAVE_DATA = true.
(** Every entry of the branch has been linked. *)
Definition linked_up (m : heap) (p : ptr) : Prop :=
  forall a b, is_ancestor m a p -> m !! a = Some b -> nChainTx b <> 0 \/ Chain.nHeight b = 0.

Lemma find_unusable_spec m fuel : forall p b, tree_ok m -> chain_ok m active tip -> m !! p = Some b -> linked_up m p ->
  Chain.nHeight b < Z.of_nat fuel ->
  exists r, find_unusable active fuel m (Some p) = Ok r /\
    match r with
    | None => usable m p
    | Some (q, failed) => is_ancestor m q p /\ ~ is_ancestor m q tip /\ exists bq, m !! q = Some bq /\ has_flag bq BLOCK_FAILED_MASK = failed
        /\ (failed = false -> has_flag bq BLOCK_HAVE_DATA = false)
    end.
Proof.
  induction fuel as [|fuel IH]; intros p b Ht Hc Hp Hl Hf; [destruct (Ht p b Hp); lia|]. cbn [find_unusable].
  destruct (Contains_spec m active tip p b Ht Hc Hp) as (c & -> & Hiff). cbn [mbind result_bind]. destruct c.
  { exists None. split; [done|]. intros a ba Ha _ Hn. destruct Hn. eapply is_ancestor_trans; [exact Ha|by apply Hiff]. }
  rewrite (deref_ok _ _ _ Hp). cbn [mbind result_bind].
  assert ((nChainTx b =? 0) && negb (Chain.nHeight b =? 0) = false) as ->.
  { apply andb_false_iff. rewrite negb_false_iff, Z.eqb_neq, Z.eqb_eq. apply (Hl p b); [apply is_ancestor_refl|done]. }
  assert (~ is_ancestor m p tip) as Hnot by (intros H; by apply Hiff in H).
  destruct (has_flag b BLOCK_FAILED_MASK) eqn:Ef; cbn [orb negb].
  { eexists; split; [done|]. split; [apply is_ancestor_refl|]. split; [done|]. by exists b. }
  destruct (has_flag b BLOCK_HAVE_DATA) eqn:Ed; cbn [negb].
  2:{ eexists; split; [done|]. split; [apply is_ancestor_refl|]. split; [done|]. by exists b. }
  destruct (Ht p b Hp) as [H0 Hprev]. destruct (pprev b) as [q|] eqn:Eq.
  - destruct Hprev as (bq & Hbq & Hh). pose proof (is_ancestor_parent m p b q Hp Eq) as Hqp.
    destruct (IH q bq) as (r & -> & Hr); [done|done|done| |lia|].
    { intros a ba Ha. apply Hl. by eapply is_ancestor_trans. }
    exists r. split; [done|]. destruct r as [[x failed]|].
    + destruct Hr as (Hx & Hrest). split; [by eapply is_ancestor_trans|exact Hrest].
    + intros a ba Ha Hba Hn. destruct (decide (a = p)) as [->|Hne]; [rewrite Hp in Hba; by injection Hba as <-|].
      destruct (is_ancestor_step m a p b Hp Ha Hne) as (q' & Eq' & Ha'). rewrite Eq in Eq'. injection Eq' as <-. by apply (Hr a ba).
  - exists None. split; [by destruct fuel|]. intros a ba Ha Hba _. destruct (decide (a = p)) as [->|Hne]; [rewrite Hp in Hba; by injection Hba as <-|].
    destruct (is_ancestor_step m a p b Hp Ha Hne) as (q' & Eq' & _). congruence.
Qed.

(** *** Removing a chain of candidates *)

Lemma marked_ancestor m m' a p : tree_ok m -> marked m m' -> is_Some (m !! p) -> (is_ancestor m' a p <-> is_ancestor m a p).
Proof.
  intros Ht Hm Hp. destruct (marked_extends _ _ Hm) as [E _]. unfold is_ancestor.
  split; intros [n Hn]; exists n; [rewrite <- (extends_prevs m m' E)|rewrite (extends_prevs m m' E)]; done.
Qed.
Lemma marked_ancestor_inv m m' a p : tree_ok m -> marked m m' -> is_Some (m !! a) -> is_ancestor m' a p -> is_ancestor m a p.
Proof.
  intros Ht Hm Ha H. destruct (m !! p) as [b|] eqn:Ep; [apply (marked_ancestor m m' a p Ht Hm) in H; [done|by exists b]|].
  exfalso. destruct H as [[|n] Hn]; cbn in Hn; [injection Hn as ->; rewrite Ep in Ha; by destruct Ha|].
  specialize (Hm p). rewrite Ep in Hm. by destruct (m' !! p).
Qed.
Lemma marked_tree m m' : marked m m' -> tree_ok m -> tree_ok m'.
Proof.
  intros Hm Ht p b' Hp. destruct (marked_lookup_rev _ _ _ _ Hm Hp) as (b & s & Hb & ->). destruct (marked_extends _ _ Hm) as [E _].
  eapply extends_prev_ok; [exact E|by eapply Ht|done|done].
Qed.
Lemma marked_chain m m' : marked m m' -> tree_ok m -> chain_ok m active tip -> chain_ok m' active tip.
Proof.
  intros Hm Ht (b & Hb & Hl & Hv). destruct (marked_lookup _ _ _ _ Hm Hb) as (s & Hs & _). exists (set_status b s). split; [done|]. split; [exact Hl|].
  intros i Hi. rewrite (Hv i Hi). f_equal. symmetry. apply (extends_ancestor m m' (proj1 (marked_extends _ _ Hm))); [done|by exists b].
Qed.

(** Only descendants of [q] change. *)
Definition only_below (q : ptr) (m m' : heap) : Prop := marked m m' /\ forall x, m' !! x = m !! x \/ is_ancestor m q x.

Lemma remove_chain_spec fuel : forall s p b q failed, tree_ok (sel_mem s) -> sel_mem s !! p = Some b -> is_ancestor (sel_mem s) q p ->
  Chain.nHeight b <= Z.of_nat fuel ->
  exists s', remove_chain fuel s p q failed = Ok s' /\ only_below q (sel_mem s) (sel_mem s')
    /\ setBlockIndexCandidates s' ⊆ setBlockIndexCandidates s /\ (p ∉ setBlockIndexCandidates s')
    /\ (forall x, x ∈ setBlockIndexCandidates s -> x ∉ setBlockIndexCandidates s' -> is_ancestor (sel_mem s) q x)
    /\ (failed = false -> sel_mem s' = sel_mem s) /\ pindexBestInvalid s' = pindexBestInvalid s.
Proof.
  induction fuel as [|fuel IH]; intros s p b q failed Ht Hp Ha Hf; cbn [remove_chain]; destruct (bool_decide_reflect (q = p)) as [->|Hne].
  1, 3: eexists; split; [done|]; cbn; split; [split; [apply marked_refl|by left]|]; split; [set_solver|]; split; [set_solver|]; split; [|done];
    intros x Hx Hnx; destruct (decide (x = p)) as [->|Hxp]; [apply is_ancestor_refl|set_solver].
  - exfalso. destruct (is_ancestor_step _ _ _ _ Hp Ha Hne) as (r & Er & _). destruct (Ht p b Hp) as [H0 Hprev]. rewrite Er in Hprev.
    destruct Hprev as (br & Hr & Hh). destruct (Ht r br Hr). lia.
  - rewrite (deref_ok _ _ _ Hp). cbn [mbind result_bind]. destruct (is_ancestor_step _ _ _ _ Hp Ha Hne) as (r & Er & Har). rewrite Er.
    destruct (Ht p b Hp) as [H0 Hprev]. rewrite Er in Hprev. destruct Hprev as (br & Hr & Hh).
    set (s1 := if failed then _ else _). set (s2 := sel_with_candidates _ _).
    assert (only_below q (sel_mem s) (sel_mem s2) /\ (failed = false -> sel_mem s2 = sel_mem s)) as [[Hm Hbelow] Hsame].
    { subst s2 s1. destruct failed; cbn; [|split; [split; [apply marked_refl|by left]|done]]. split; [|done]. split; [by apply marked_insert|].
      intros x. destruct (decide (p = x)) as [<-|Hn]; [by right|left; by rewrite lookup_insert_ne]. }
    assert (setBlockIndexCandidates s2 = setBlockIndexCandidates s ∖ {[p]}) as Ec by (subst s2 s1; by destruct failed).
    assert (pindexBestInvalid s2 = pindexBestInvalid s) as Eb by (subst s2 s1; by destruct failed).
    assert (is_Some (sel_mem s !! q)) as Hq by (destruct Ha as [k Hk]; destruct (prevs_height _ _ _ _ _ Ht Hp Hk) as (bq & -> & _); by exists bq).
    destruct (marked_lookup _ _ _ _ Hm Hr) as (st & Hs & _).
    destruct (IH s2 r (set_status br st) q failed) as (s' & -> & [Hm' Hbelow'] & Hsub & Hnr & Hrem & Hsame' & Einv).
    + by eapply marked_tree.
    + done.
    + apply (marked_ancestor _ _ q r Ht Hm); [by exists br|done].
    + cbn. lia.
    + rewrite Ec in *. exists s'. split; [done|]. split; [split; [by eapply marked_trans|]|].
      { intros x. destruct (Hbelow' x) as [->|Hx]; [apply Hbelow|]. right. by apply (marked_ancestor_inv _ _ q x Ht Hm). }
      split; [set_solver|]. split; [set_solver|]. split; [|split; [intros E; by rewrite Hsame', Hsame|congruence]].
      intros x Hx Hnx. destruct (decide (x = p)) as [->|Hxp]; [done|]. apply (marked_ancestor_inv _ _ q x Ht Hm); [done|]. apply Hrem; set_solver.
Qed.

(** *** The search *)

Record search_ok (s : select_state) : Prop := mkSearch {
  so_tree : tree_ok (sel_mem s);
  so_chain : chain_ok (sel_mem s) active tip;
  so_works : works_ok (sel_mem s);
  so_candidates : forall c, c ∈ setBlockIndexCandidates s -> is_Some (sel_mem s !! c) /\ linked_up (sel_mem s) c;
  so_invalid : forall p, pindexBestInvalid s = Some p -> is_Some (sel_mem s !! p);
}.

(** A step of the search: entries are at most marked, where that does not matter, and
    candidates that are not usable are dropped. *)
Definition search_step (s s' : select_state) : Prop :=
  marked (sel_mem s) (sel_mem s') /\ (forall x, is_Some (sel_mem s !! x) -> (usable (sel_mem s') x <-> usable (sel_mem s) x))
  /\ setBlockIndexCandidates s' ⊆ setBlockIndexCandidates s
  /\ forall x, x ∈ setBlockIndexCandidates s -> (x ∉ setBlockIndexCandidates s') -> ~ usable (sel_mem s) x.

Lemma search_step_refl s : search_step s s.
Proof. split; [apply marked_refl|]. split; [done|]. split; [done|]. done. Qed.

Lemma search_step_trans s1 s2 s3 : search_ok s1 -> search_step s1 s2 -> search_step s2 s3 -> search_step s1 s3.
Proof.
  intros H1 (M1 & U1 & C1 & R1) (M2 & U2 & C2 & R2). split; [by eapply marked_trans|]. split.
  { intros x Hx. rewrite U2, U1; [done|done|]. destruct Hx as [b Hb]. destruct (marked_lookup _ _ _ _ M1 Hb) as (st & -> & _). by eexists. }
  split; [set_solver|]. intros x Hx Hnx. destruct (decide (x ∈ setBlockIndexCandidates s2)) as [Hx2|Hx2]; [|by apply R1].
  rewrite <- U1; [by apply R2|]. by apply (so_candidates s1 H1).
Qed.

(** Marking the descendants of a failed entry does not change what is usable. *)
Lemma mark_usable m m' q bq x : tree_ok m -> is_Some (m !! tip) -> only_below q m m' -> m !! q = Some bq -> ~ is_ancestor m q tip ->
  has_flag bq BLOCK_FAILED_MASK = true -> is_Some (m !! x) -> (usable m' x <-> usable m x).
Proof.
  intros Ht Htip [Hm Hb] Hq Hnt Hbad [bx Hx].
  assert (forall a, is_ancestor m' a x <-> is_ancestor m a x) as Ha by (intros a; apply marked_ancestor; [done|done|by exists bx]).
  assert (forall a, is_ancestor m' a tip <-> is_ancestor m a tip) as Htip' by (intros a; by apply marked_ancestor).
  destruct (decide (ancestor_at m x (Chain.nHeight bq) = Some q)) as [Hqx|Hqx]; rewrite (ancestor_at_iff m x bx q bq Ht Hx Hq) in Hqx.
  - destruct (marked_lookup _ _ _ _ Hm Hq) as (sq & Hsq & Hfq). split; intros Hu; exfalso.
    + destruct (Hu q (set_status bq sq)) as [H3 _]; [by apply Ha|done|by rewrite Htip'|]. apply Hfq in Hbad. congruence.
    + destruct (Hu q bq) as [H3 _]; [done|done|done|congruence].
  - assert (forall a, is_ancestor m a x -> m' !! a = m !! a) as Hsame.
    { intros a Hax. destruct (Hb a) as [E|E]; [done|]. destruct Hqx. by eapply is_ancestor_trans. }
    split; intros Hu a b Hax Hab Hnat.
    + apply (Hu a b); [by apply Ha|by rewrite Hsame|by rewrite Htip'].
    + apply Ha in Hax. rewrite (Hsame a Hax) in Hab. apply (Hu a b); [done|done|by rewrite <- Htip'].
Qed.

Lemma raise_best_invalid_spec s p : is_Some (sel_mem s !! p) -> (forall q, pindexBestInvalid s = Some q -> is_Some (sel_mem s !! q)) ->
  exists s', raise_best_invalid s p = Ok s' /\ sel_mem s' = sel_mem s /\ setBlockIndexCandidates s' = setBlockIndexCandidates s
    /\ forall q, pindexBestInvalid s' = Some q -> is_Some (sel_mem s !! q).
Proof.
  intros [b Hp] Hinv. unfold raise_best_invalid. rewrite (deref_ok _ _ _ Hp). cbn [mbind result_bind].
  destruct (pindexBestInvalid s) as [q|] eqn:Eq.
  - destruct (Hinv q eq_refl) as [bq Hq]. rewrite (deref_ok _ _ _ Hq). cbn [mbind result_bind]. destruct (_ >? 0); eexists; (split; [done|]); cbn; (split; [done|]); (split; [done|]).
    + intros r [= <-]. by exists b.
    + intros r Hr. apply Hinv. congruence.
  - eexists; split; [done|]. cbn. split; [done|]. split; [done|]. intros r [= <-]. by exists b.
Qed.

Lemma best_candidate_spec s : search_ok s ->
  match best_candidate s with
  | Ok None => setBlockIndexCandidates s = ∅
  | Ok (Some p) => p ∈ setBlockIndexCandidates s /\ forall x, x ∈ setBlockIndexCandidates s -> x = p \/ worse (sel_mem s) x p
  | Err _ => False
  end.
Proof.
  intros H. unfold best_candidate. destruct (elements (setBlockIndexCandidates s)) as [|p l] eqn:E.
  - by apply elements_empty_inv, leibniz_equiv in E.
  - assert (forall x, x ∈ setBlockIndexCandidates s <-> x ∈ p :: l) as Hin by (intros x; rewrite <- E; by rewrite elem_of_elements).
    destruct (best_of_spec (sel_mem s) l (so_works s H) p) as (r & -> & Hr & Hmax).
    + apply (so_candidates s H), Hin. by left.
    + intros x Hx. apply (so_candidates s H), Hin. by right.
    + cbn. split; [by apply Hin|]. intros x Hx. by apply Hmax, Hin.
Qed.

Lemma search_step_ok s s' : search_ok s -> search_step s s' -> (forall q, pindexBestInvalid s' = Some q -> is_Some (sel_mem s !! q)) -> search_ok s'.
Proof.
  intros H (Hm & _ & Hc & _) Hinv. constructor.
  - by eapply marked_tree, H.
  - eapply marked_chain; [exact Hm|apply H..].
  - intros p b Hp. destruct (marked_lookup_rev _ _ _ _ Hm Hp) as (b0 & st & Hb & ->). apply (so_works s H p b0 Hb).
  - intros c Hcc. apply Hc in Hcc. destruct (so_candidates s H c Hcc) as [[bc Hbc] Hl]. split; [destruct (marked_lookup _ _ _ _ Hm Hbc) as (st & -> & _); by eexists|].
    intros a b Ha Hb. destruct (marked_lookup_rev _ _ _ _ Hm Hb) as (b0 & st & Hb0 & ->). apply (Hl a b0); [|done].
    apply (marked_ancestor _ _ a c (so_tree s H) Hm); [by exists bc|done].
  - intros p Hp. destruct (Hinv p Hp) as [b Hb]. destruct (marked_lookup _ _ _ _ Hm Hb) as (st & -> & _). by eexists.
Qed.

Lemma FindMostWorkChain_spec fuel : forall s, search_ok s -> (size (setBlockIndexCandidates s) <= fuel)%nat ->
  exists s' r, FindMostWorkChain active fuel s = Ok (s', r) /\ search_step s s' /\
    match r with
    | None => setBlockIndexCandidates s' = ∅
    | Some p => p ∈ setBlockIndexCandidates s' /\ usable (sel_mem s) p
        /\ forall x, x ∈ setBlockIndexCandidates s' -> x = p \/ worse (sel_mem s) x p
    end.
Proof.
  induction fuel as [|fuel IH]; intros s H Hsize; cbn [FindMostWorkChain]; pose proof (best_candidate_spec s H) as Hbest;
    destruct (best_candidate s) as [[p|]|]; try done; cbn [mbind result_bind];
    try (exists s, None; split; [done|]; split; [apply search_step_refl|exact Hbest]).
  1:{ exfalso. assert (setBlockIndexCandidates s = ∅) as E by (apply leibniz_equiv, size_empty_inv; lia). set_solver. }
  destruct Hbest as [Hp Hmax]. destruct (so_candidates s H p Hp) as [[b Hb] Hl]. rewrite (deref_ok _ _ _ Hb). cbn [mbind result_bind].
  destruct (find_unusable_spec (sel_mem s) (S (Z.to_nat (Chain.nHeight b))) p b (so_tree s H) (so_chain s H) Hb Hl) as (bad & -> & Hbad); [lia|].
  cbn [mbind result_bind]. destruct bad as [[q failed]|].
  2:{ exists s, (Some p). split; [done|]. split; [apply search_step_refl|]. done. }
  destruct Hbad as (Hqp & Hqt & bq & Hbq & Hflag & Hdata).
  assert (exists s1, (if failed then raise_best_invalid s p else Ok s) = Ok s1 /\ sel_mem s1 = sel_mem s /\ setBlockIndexCandidates s1 = setBlockIndexCandidates s
    /\ forall x, pindexBestInvalid s1 = Some x -> is_Some (sel_mem s !! x)) as (s1 & -> & Em1 & Ec1 & Hinv1).
  { destruct failed; [apply raise_best_invalid_spec; [by exists b|apply (so_invalid s H)]|]. exists s. split; [done|]. split; [done|]. split; [done|]. apply (so_invalid s H). }
  cbn [mbind result_bind].
  destruct (remove_chain_spec (Z.to_nat (Chain.nHeight b)) s1 p b q failed) as (s2 & -> & Hbelow & Hsub & Hnp & Hrem & Hsame & Einv2);
    rewrite ?Em1; [apply H|done|done|destruct (so_tree s H p b Hb); lia|]. rewrite Em1, Ec1 in *. cbn [mbind result_bind].
  assert (forall x, is_Some (sel_mem s !! x) -> (usable (sel_mem s2) x <-> usable (sel_mem s) x)) as Hus.
  { intros x Hx. destruct failed; [|by rewrite Hsame]. destruct (so_chain s H) as (bt & Hbt & _). apply (mark_usable _ _ q bq); [apply H|by exists bt|done..]. }
  assert (search_step s s2) as Hstep.
  { split; [apply Hbelow|]. split; [exact Hus|]. split; [exact Hsub|]. intros x Hx Hnx Hu. specialize (Hrem x Hx Hnx).
    destruct (Hu q bq Hrem Hbq Hqt) as [H1 H2]. destruct failed; [congruence|]. by rewrite Hdata in H2. }
  assert (search_ok s2) as H2 by (eapply search_step_ok; [exact H|exact Hstep|]; intros x Hx; apply Hinv1; congruence).
  destruct (IH s2 H2) as (s' & r & -> & Hstep2 & Hr).
  { assert (size (setBlockIndexCandidates s2) < size (setBlockIndexCandidates s))%nat; [|lia]. apply subset_size. set_solver. }
  exists s', r. split; [done|]. split; [by eapply search_step_trans|]. destruct r as [r|]; [|done]. destruct Hr as (Hr & Hur & Hmaxr).
  assert (r ∈ setBlockIndexCandidates s) as Hrs by (destruct Hstep2 as (_ & _ & Hc2 & _); set_solver).
  split; [done|]. split; [apply Hus; [by apply (so_candidates s H)|done]|]. intros x Hx. destruct (Hmaxr x Hx) as [|(a & c & Ha & Hc & Hpr)]; [by left|right].
  destruct (marked_lookup_rev _ _ _ _ (proj1 Hstep) Ha) as (a0 & sa & Ha0 & ->). destruct (marked_lookup_rev _ _ _ _ (proj1 Hstep) Hc) as (c0 & sc & Hc0 & ->).
  exists a0, c0. done.
Qed.
End Search.

(** ** Blocks that arrive before their parents *)

Section Links.
Context (params : Params) (active : CChain) (tip : ptr).
(** At most [M] transactions in a block; see [links_ok]. *)
Context (M : Z).

Definition prev_linked (m : heap) (b : CBlockIndex) : Prop :=
  match pprev b with None => True | Some q => exists bq, m !! q = Some bq /\ nChainTx bq <> 0 end.

(** An entry on its own: the count of its transactions, the count of those of its branch,
    and its status. *)
Record entry_links (m : heap) (b : CBlockIndex) : Prop := mkEntryLinks {
  el_tx : 0 <= nTx b <= M;
  el_chain : 0 <= nChainTx b <= (Chain.nHeight b + 1) * M;
  el_fits : (Chain.nHeight b + 1) * M < 2 ^ 32;
  (** Linked entries have transactions, and so do their parents. *)
  el_linked : nChainTx b <> 0 -> nTx b <> 0 /\ prev_linked m b
    /\ nChainTx b = nTx b + match pprev b with Some q => match m !! q with Some bq => nChainTx bq | None => 0 end | None => 0 end;
  el_data : nTx b <> 0 -> has_flag b BLOCK_HAVE_DATA = true;
  el_valid : has_flag b BLOCK_FAILED_MASK = false -> BLOCK_VALID_TREE <= Z.land (nStatus b) BLOCK_VALID_MASK;
}.

(** The state while the entries of [queue] wait to be linked. *)
Record links_inv (s : select_state) (queue : list ptr) : Prop := mkLinks {
  li_tree : tree_ok (sel_mem s);
  li_works : works_ok (sel_mem s);
  li_tip : exists bt, Tip active = Some tip /\ sel_mem s !! tip = Some bt /\ nChainTx bt <> 0;
  li_entry : forall p b, sel_mem s !! p = Some b -> entry_links (sel_mem s) b;
  (** What waits in the queue can be linked. *)
  li_queue : NoDup queue /\ forall p, p ∈ queue -> exists b, sel_mem s !! p = Some b /\ nTx b <> 0 /\ nChainTx b = 0 /\ prev_linked (sel_mem s) b;
  (** What waits for its parent has transactions, and the parent is not linked. *)
  li_unlinked : NoDup (mapBlocksUnlinked s).*2 /\ forall q p, (q, p) ∈ mapBlocksUnlinked s -> exists b bq, sel_mem s !! p = Some b
    /\ pprev b = Some q /\ nTx b <> 0 /\ nChainTx b = 0 /\ sel_mem s !! q = Some bq /\ nChainTx bq = 0;
  (** Nothing is lost: a block with transactions is linked, or waits, or its parent has failed. *)
  li_complete : forall p b, sel_mem s !! p = Some b -> nTx b <> 0 -> nChainTx b = 0 ->
    p ∈ queue \/ exists q bq, pprev b = Some q /\ sel_mem s !! q = Some bq /\ ((q, p) ∈ mapBlocksUnlinked s \/ has_flag bq BLOCK_FAILED_MASK = true);
  (** The candidates are linked, and every linked entry as good as the tip is one. *)
  li_candidates : forall c, c ∈ setBlockIndexCandidates s -> exists b, sel_mem s !! c = Some b /\ nChainTx b <> 0;
  li_chosen : forall p b, sel_mem s !! p = Some b -> nChainTx b <> 0 -> has_flag b BLOCK_FAILED_MASK = false ->
    p ∈ setBlockIndexCandidates s \/ worse (sel_mem s) p tip;
}.

(** An update that keeps parents, heights and work. *)
Lemma update_tree m p b b' : tree_ok m -> m !! p = Some b -> pprev b' = pprev b -> Chain.nHeight b' = Chain.nHeight b -> tree_ok (<[p := b']> m).
Proof.
  intros Ht Hp Ep Eh.
  assert (forall c c', prev_ok m c -> pprev c' = pprev c -> Chain.nHeight c' = Chain.nHeight c -> prev_ok (<[p := b']> m) c') as Hprev.
  { intros c c' [H0 Hc] E1 E2. split; [lia|]. rewrite E1, E2. destruct (pprev c) as [q|]; [|done]. destruct Hc as (bq & Hq & Hh).
    destruct (decide (p = q)) as [<-|Hn]; [exists b'; rewrite lookup_insert_eq; split; [done|]; rewrite Hp in Hq; injection Hq as <-; lia|].
    exists bq. by rewrite lookup_insert_ne. }
  intros x c Hx. destruct (decide (p = x)) as [<-|Hn]; [rewrite lookup_insert_eq in Hx; injection Hx as <-; by eapply Hprev; [by eapply Ht|..]|].
  rewrite lookup_insert_ne in Hx by done. by eapply Hprev; [by eapply Ht|..].
Qed.

Lemma worse_update m p b b' x y : m !! p = Some b -> p <> x -> p <> y -> (worse (<[p := b']> m) x y <-> worse m x y).
Proof. intros Hp Hx Hy. unfold worse. by rewrite !lookup_insert_ne by done. Qed.

(** The children of [p] and the other pairs. *)
Lemma split_children p (l : list (ptr * ptr)) : NoDup l.*2 ->
  NoDup (snd <$> filter (fun '(a, _) => a = p) l) /\ NoDup (filter (fun '(a, _) => a <> p) l).*2
  /\ (length (snd <$> filter (fun '(a, _) => a = p) l) + length (filter (fun '(a, _) => a <> p) l) = length l)%nat.
Proof.
  intros Hnd. split; [|split].
  - eapply sublist_NoDup; [exact Hnd|]. apply fmap_sublist, sublist_filter.
  - eapply sublist_NoDup; [exact Hnd|]. apply fmap_sublist, sublist_filter.
  - rewrite length_fmap. clear Hnd. induction l as [|[a c] l IH]; [done|]. rewrite !filter_cons.
    destruct (decide (a = p)) as [Ha|Ha]; destruct (decide (a <> p)) as [Hb|Hb]; try done; cbn [length]; lia.
Qed.

(** *** One turn of the queue *)

Section Turn.
Context (s : select_state) (p : ptr) (queue : list ptr) (b : CBlockIndex).
Context (H : links_inv s (p :: queue)) (Hb : sel_mem s !! p = Some b).

Definition turn_base : Z :=
  match pprev b with Some q => match sel_mem s !! q with Some bq => nChainTx bq | None => 0 end | None => 0 end.
Local Abbreviation b' := (set_linked b (turn_base + nTx b) (nBlockSequenceId s)).
Local Abbreviation m' := (<[p := set_linked b (turn_base + nTx b) (nBlockSequenceId s)]> (sel_mem s)).
Local Abbreviation kids := (snd <$> filter (fun '(a, _) => a = p) (mapBlocksUnlinked s)).
Local Abbreviation rest := (filter (fun '(a, _) => a <> p) (mapBlocksUnlinked s)).

Lemma turn_entry : nTx b <> 0 /\ nChainTx b = 0 /\ prev_linked (sel_mem s) b.
Proof. destruct (proj2 (li_queue s _ H) p) as (c & Hc & Hrest); [by left|]. rewrite Hb in Hc. by injection Hc as <-. Qed.
Lemma turn_other x : x <> p -> m' !! x = sel_mem s !! x.
Proof. intros Hx. by rewrite lookup_insert_ne. Qed.
Lemma turn_self : m' !! p = Some b'.
Proof. by rewrite lookup_insert_eq. Qed.
Lemma turn_tip : exists bt, Tip active = Some tip /\ m' !! tip = Some bt /\ nChainTx bt <> 0 /\ p <> tip.
Proof.
  destruct (li_tip s _ H) as (bt & Etip & Hbt & Hlt). destruct turn_entry as (_ & Hz & _). assert (p <> tip) as Hpt by congruence.
  exists bt. by rewrite turn_other.
Qed.

Lemma turn_base_spec : match pprev b with Some q => bq ← deref (sel_mem s) q; Ok (nChainTx bq) | None => Ok 0 end = Ok (E := fault) turn_base
  /\ 0 <= turn_base /\ 0 < turn_base + nTx b <= (Chain.nHeight b + 1) * M.
Proof.
  destruct turn_entry as (Htx & _ & _). pose proof (li_entry s _ H p b Hb) as [[Htx0 Htx1] _ _ _ _ _]. destruct (li_tree s _ H p b Hb) as [Hh0 Hprevok].
  unfold turn_base. destruct (pprev b) as [q|]; [|split; [done|nia]]. destruct Hprevok as (bq & Hbq & Hh). rewrite (deref_ok _ _ _ Hbq), Hbq.
  split; [done|]. pose proof (el_chain _ _ (li_entry s _ H q bq Hbq)). nia.
Qed.

Lemma turn_prev c : prev_linked (sel_mem s) c -> prev_linked m' c.
Proof.
  destruct turn_entry as (_ & Hz & _). unfold prev_linked. destruct (pprev c) as [q|]; [|done]. intros (bq & Hbq & Hn). exists bq. rewrite turn_other; [done|congruence].
Qed.
(** An entry is not its own parent. *)
Lemma turn_loop x c : sel_mem s !! x = Some c -> pprev c <> Some x.
Proof. intros Hx E. destruct (li_tree s _ H x c Hx) as [_ Ho]. rewrite E in Ho. destruct Ho as (d & Hd & Hh). rewrite Hx in Hd. injection Hd as <-. lia. Qed.

Lemma turn_kids x : x ∈ kids <-> (p, x) ∈ mapBlocksUnlinked s.
Proof.
  rewrite list_elem_of_fmap. split.
  - intros ([a c] & -> & Hin). apply list_elem_of_filter in Hin as [-> Hin]. exact Hin.
  - intros Hin. exists (p, x). split; [done|]. by apply list_elem_of_filter.
Qed.
Lemma turn_rest q x : (q, x) ∈ rest <-> q <> p /\ (q, x) ∈ mapBlocksUnlinked s.
Proof. by rewrite list_elem_of_filter. Qed.

Lemma turn_works : works_ok m'.
Proof.
  intros x c Hx. destruct (decide (x = p)) as [->|Hn]; [rewrite turn_self in Hx; injection Hx as <-; apply (li_works s _ H p b Hb)|].
  rewrite turn_other in Hx by done. by eapply (li_works s _ H).
Qed.

Lemma turn_entry_links x c : m' !! x = Some c -> entry_links m' c.
Proof.
  intros Hx. destruct (decide (x = p)) as [->|Hn].
  - rewrite turn_self in Hx. injection Hx as <-. pose proof (li_entry s _ H p b Hb) as [? ? ? _ ? ?]. destruct turn_entry as (Htx & _ & Hprev).
    destruct turn_base_spec as (_ & _ & Hbase). constructor; cbn [set_linked nTx nChainTx Chain.nHeight pprev]; [done|lia|done| |done|done].
    intros _. split; [done|]. split; [by apply (turn_prev b)|]. pose proof (turn_loop p b Hb) as Hloop. unfold turn_base at 1. destruct (pprev b) as [q|]; [|lia].
    rewrite turn_other by congruence. lia.
  - rewrite turn_other in Hx by done. pose proof (li_entry s _ H x c Hx) as [? ? ? Hl ? ?]. constructor; try done. intros Hc. destruct (Hl Hc) as (E1 & E2 & E3).
    split; [done|]. split; [by apply (turn_prev c)|]. rewrite E3. f_equal. destruct turn_entry as (_ & Hz & _). unfold prev_linked in E2.
    destruct (pprev c) as [q|]; [|done]. destruct E2 as (bq & Hbq & Hnq). by rewrite turn_other by congruence.
Qed.

(** The queue with the children. *)
Lemma turn_queue : NoDup (queue ++ kids) /\ forall x, x ∈ queue ++ kids -> exists c, m' !! x = Some c /\ nTx c <> 0 /\ nChainTx c = 0 /\ prev_linked m' c.
Proof.
  destruct (li_queue s _ H) as [[Hpq Hnd]%NoDup_cons Hq]. destruct (li_unlinked s _ H) as [Hndu Hu]. destruct turn_entry as (_ & Hz & _). split.
  - apply NoDup_app. split; [done|]. split; [|by apply split_children]. intros x Hx Hk. apply turn_kids in Hk. destruct (Hq x) as (bx & Hbx & _ & _ & Hplx); [by right|].
    destruct (Hu _ _ Hk) as (bx' & bp & Hbx' & Epx & _ & _ & Hbp & Hcp). rewrite Hbx in Hbx'. injection Hbx' as <-. unfold prev_linked in Hplx.
    rewrite Epx in Hplx. destruct Hplx as (bq & Hbq & Hnq). congruence.
  - intros x Hx. apply elem_of_app in Hx as [Hx|Hx].
    + destruct (Hq x) as (bx & Hbx & E1 & E2 & E3); [by right|]. assert (x <> p) by (by intros ->). exists bx. rewrite turn_other by done. split_and!; try done. by apply turn_prev.
    + apply turn_kids in Hx. destruct (Hu _ _ Hx) as (bx & bp & Hbx & Epx & E1 & E2 & Hbp & _). assert (x <> p) as Hxp by (intros ->; by apply (turn_loop p bx)).
      exists bx. rewrite turn_other by done. split_and!; try done. unfold prev_linked. rewrite Epx. exists b'. split; [exact turn_self|].
      destruct turn_base_spec as (_ & _ & Hbase). cbn. lia.
Qed.

Lemma turn_unlinked q x : (q, x) ∈ rest -> exists c d, m' !! x = Some c /\ pprev c = Some q /\ nTx c <> 0 /\ nChainTx c = 0 /\ m' !! q = Some d /\ nChainTx d = 0.
Proof.
  intros [Hqp Hin]%turn_rest. destruct (proj2 (li_unlinked s _ H) _ _ Hin) as (bx & bq & Hbx & Epx & E1 & E2 & Hbq & E3). assert (x <> p) as Hxp.
  { intros ->. destruct turn_entry as (_ & _ & Hprev). rewrite Hb in Hbx. injection Hbx as <-. unfold prev_linked in Hprev. rewrite Epx in Hprev.
    destruct Hprev as (c & Hc & Hnc). congruence. }
  exists bx, bq. rewrite !turn_other by done. done.
Qed.

Lemma turn_complete x c : m' !! x = Some c -> nTx c <> 0 -> nChainTx c = 0 -> x ∈ queue ++ kids
  \/ exists q d, pprev c = Some q /\ m' !! q = Some d /\ ((q, x) ∈ rest \/ has_flag d BLOCK_FAILED_MASK = true).
Proof.
  intros Hx E1 E2. destruct turn_base_spec as (_ & _ & Hbase).
  destruct (decide (x = p)) as [->|Hxp]; [rewrite turn_self in Hx; injection Hx as <-; cbn in E2; lia|]. rewrite turn_other in Hx by done.
  destruct (li_complete s _ H x c Hx E1 E2) as [Hin|(q & bq & Epx & Hbq & Hor)].
  - left. apply elem_of_app. left. by apply elem_of_cons in Hin as [->|Hin].
  - destruct (decide (q = p)) as [->|Hqp].
    + destruct Hor as [Hin|Hf]; [left; apply elem_of_app; right; by apply turn_kids|]. right. exists p, b'. split; [done|]. split; [exact turn_self|]. right.
      rewrite Hb in Hbq. injection Hbq as <-. exact Hf.
    + right. exists q, bq. rewrite turn_other by done. split; [done|]. split; [done|]. destruct Hor as [Hin|Hf]; [left; by apply turn_rest|by right].
Qed.

Lemma turn_inv less seq inv failed dirty : (less = true <-> worse m' p tip) ->
  links_inv (mkSelect m' (if negb less then {[p]} ∪ setBlockIndexCandidates s else setBlockIndexCandidates s) rest seq inv failed dirty) (queue ++ kids).
Proof.
  intros Hless. destruct turn_tip as (bt & Etip & Hbt & Hlt & Hpt). destruct turn_entry as (_ & Hz & _). destruct turn_base_spec as (_ & _ & Hbase).
  constructor; cbn [sel_mem mapBlocksUnlinked setBlockIndexCandidates].
  - by eapply update_tree; [apply (li_tree s _ H)|exact Hb|..].
  - exact turn_works.
  - by exists bt.
  - exact turn_entry_links.
  - exact turn_queue.
  - split; [apply split_children, (li_unlinked s _ H)|exact turn_unlinked].
  - exact turn_complete.
  - intros c Hc. assert (c = p \/ c ∈ setBlockIndexCandidates s) as [->|Hcs] by (destruct less; cbn [negb] in Hc; set_solver).
    + exists b'. split; [exact turn_self|]. cbn. lia.
    + destruct (li_candidates s _ H c Hcs) as (bc & Hbc & Hn). exists bc. rewrite turn_other by congruence. done.
  - intros x c Hx E1 E2. destruct (decide (x = p)) as [->|Hxp]; [destruct less; [right; by apply Hless|left; set_solver]|].
    rewrite turn_other in Hx by done. destruct (li_chosen s _ H x c Hx E1 E2) as [Hin|Hw]; [left; destruct less; set_solver|right].
    apply (worse_update _ p b); congruence.
Qed.

Lemma link_entry_spec :
  exists s' children, link_entry active s p = Ok (s', children) /\ links_inv s' (queue ++ children)
    /\ (length children + length (mapBlocksUnlinked s') = length (mapBlocksUnlinked s))%nat
    /\ (forall x, nTx <$> sel_mem s' !! x = nTx <$> sel_mem s !! x).
Proof.
  destruct turn_base_spec as (Ebase & Hbase0 & Hbase). pose proof (el_fits _ _ (li_entry s _ H p b Hb)) as Hfits. pose proof turn_entry as (Htx & _ & _).
  pose proof (el_tx _ _ (li_entry s _ H p b Hb)) as Htx0. destruct turn_tip as (bt & Etip & Hbt & _ & _).
  unfold link_entry. rewrite (deref_ok _ _ _ Hb). cbn [mbind result_bind]. rewrite Ebase. cbn [mbind result_bind]. rewrite u32_id by (unfold is_u32; lia).
  rewrite Etip. destruct (work_less_spec m' p tip turn_works) as (less & -> & Hless); [eexists; exact turn_self|by exists bt|]. cbn [mbind result_bind].
  eexists _, _. split; [reflexivity|]. split; [by apply turn_inv|]. split; [by apply split_children, (li_unlinked s _ H)|].
  intros x. cbn [sel_mem]. destruct (decide (x = p)) as [->|Hx]; [by rewrite turn_self, Hb|by rewrite turn_other].
Qed.
End Turn.

Lemma link_queue_spec fuel : forall s queue, links_inv s queue -> (length queue + length (mapBlocksUnlinked s) <= fuel)%nat ->
  exists s', link_queue active fuel s queue = Ok s' /\ links_inv s' [] /\ forall x, nTx <$> sel_mem s' !! x = nTx <$> sel_mem s !! x.
Proof.
  induction fuel as [|fuel IH]; intros s [|p queue] H Hf; cbn [link_queue length] in *; try lia; [by exists s..|].
  destruct (proj2 (li_queue s _ H) p) as (b & Hb & _); [by left|].
  destruct (link_entry_spec s p queue b H Hb) as (s1 & children & -> & H1 & Hlen & Htx). cbn [mbind result_bind].
  destruct (IH s1 (queue ++ children) H1) as (s' & -> & H' & Htx'); [rewrite length_app; lia|].
  exists s'. split; [done|]. split; [done|]. intros x. by rewrite Htx'.
Qed.

(** *** The status of a block whose transactions have arrived *)

Lemma land_lor_const s a b : Z.land (Z.lor s a) b = Z.lor (Z.land s b) (Z.land a b).
Proof. apply Z.land_lor_distr_l. Qed.

Definition received_status (s : Z) : Z :=
  let s := Z.lor s BLOCK_HAVE_DATA in if nSegwitEnabled params then Z.lor s BLOCK_OPT_WITNESS else s.

Lemma received_status_spec s : exists st changed, RaiseValidity (received_status s) BLOCK_VALID_TRANSACTIONS = Ok (st, changed)
  /\ Z.land st BLOCK_HAVE_DATA <> 0 /\ Z.land st BLOCK_FAILED_MASK = Z.land s BLOCK_FAILED_MASK
  /\ (Z.land s BLOCK_FAILED_MASK = 0 -> BLOCK_VALID_TREE <= Z.land st BLOCK_VALID_MASK).
Proof.
  assert (Z.land (received_status s) BLOCK_HAVE_DATA <> 0 /\ Z.land (received_status s) BLOCK_FAILED_MASK = Z.land s BLOCK_FAILED_MASK) as [Hd Hf].
  { assert (forall x, Z.land (Z.lor x BLOCK_HAVE_DATA) BLOCK_HAVE_DATA <> 0) as Hbit.
    { intros x E. rewrite land_lor_const in E. apply Z.lor_eq_0_iff in E as [_ E]. discriminate. }
    unfold received_status. cbv zeta. destruct (nSegwitEnabled params); rewrite !land_lor_const.
    - change (Z.land BLOCK_OPT_WITNESS BLOCK_HAVE_DATA) with 0. change (Z.land BLOCK_OPT_WITNESS BLOCK_FAILED_MASK) with 0.
      change (Z.land BLOCK_HAVE_DATA BLOCK_FAILED_MASK) with 0. rewrite !Z.lor_0_r. rewrite <- land_lor_const. split; [apply Hbit|done].
    - change (Z.land BLOCK_HAVE_DATA BLOCK_FAILED_MASK) with 0. rewrite !Z.lor_0_r. rewrite <- land_lor_const. split; [apply Hbit|done]. }
  unfold RaiseValidity. change (Z.land BLOCK_VALID_TRANSACTIONS (Z.lnot BLOCK_VALID_MASK) =? 0) with true. cbn [negb]. rewrite Hf.
  destruct (Z.eqb_spec (Z.land s BLOCK_FAILED_MASK) 0) as [E|E]; cbn [negb].
  - destruct (Z.ltb_spec (Z.land (received_status s) BLOCK_VALID_MASK) BLOCK_VALID_TRANSACTIONS) as [Hlt|Hge].
    + eexists _, _. split; [done|]. rewrite !land_lor_const, <- !Z.land_assoc.
      change (Z.land (u32 (Z.lnot BLOCK_VALID_MASK)) BLOCK_HAVE_DATA) with BLOCK_HAVE_DATA.
      change (Z.land (u32 (Z.lnot BLOCK_VALID_MASK)) BLOCK_FAILED_MASK) with BLOCK_FAILED_MASK.
      change (Z.land (u32 (Z.lnot BLOCK_VALID_MASK)) BLOCK_VALID_MASK) with 0.
      change (Z.land BLOCK_VALID_TRANSACTIONS BLOCK_HAVE_DATA) with 0. change (Z.land BLOCK_VALID_TRANSACTIONS BLOCK_FAILED_MASK) with 0.
      rewrite !Z.lor_0_r, Z.land_0_r, Z.lor_0_l, Hf. split; [done|]. split; [done|]. intros _. by vm_compute.
    + eexists _, _. split; [done|]. split; [done|]. split; [done|]. intros _. unfold BLOCK_VALID_TRANSACTIONS, BLOCK_VALID_TREE in *. lia.
  - eexists _, _. split; [done|]. split; [done|]. split; [done|]. done.
Qed.

(** *** The arrival of transactions *)

Section Arrival.
Context (s : select_state) (p : ptr) (b : CBlockIndex) (n file pos st : Z).
Context (H : links_inv s []) (Hb : sel_mem s !! p = Some b) (Hnone : nTx b = 0) (Hn : 0 < n <= M).
Context (Hdata : Z.land st BLOCK_HAVE_DATA <> 0) (Hfail : Z.land st BLOCK_FAILED_MASK = Z.land (nStatus b) BLOCK_FAILED_MASK).
Context (Hvalid : Z.land (nStatus b) BLOCK_FAILED_MASK = 0 -> BLOCK_VALID_TREE <= Z.land st BLOCK_VALID_MASK).
Local Abbreviation b' := (set_data b n file pos st).
Local Abbreviation m' := (<[p := set_data b n file pos st]> (sel_mem s)).

Lemma arrival_unlinked : nChainTx b = 0.
Proof. destruct (Z.eq_dec (nChainTx b) 0) as [|E]; [done|]. destruct (el_linked _ _ (li_entry s _ H p b Hb) E) as [? _]. lia. Qed.
Lemma arrival_other x : x <> p -> m' !! x = sel_mem s !! x.
Proof. intros Hx. by rewrite lookup_insert_ne. Qed.
Lemma arrival_prev c : prev_linked (sel_mem s) c -> prev_linked m' c.
Proof.
  unfold prev_linked. destruct (pprev c) as [q|]; [|done]. intros (bq & Hbq & E). exists bq. rewrite arrival_other; [done|].
  intros ->. pose proof arrival_unlinked. congruence.
Qed.

(** The state after the assignments, where only [p] may be missing from the lists. *)
Lemma arrival_inv queue unlinked dirty :
  NoDup queue -> (forall x, x ∈ queue -> x = p /\ prev_linked m' b') ->
  NoDup unlinked.*2 -> (forall q x, (q, x) ∈ unlinked <-> (q, x) ∈ mapBlocksUnlinked s
     \/ x = p /\ (q, x) ∈ unlinked /\ pprev b = Some q /\ exists bq, sel_mem s !! q = Some bq /\ nChainTx bq = 0) ->
  (p ∈ queue \/ exists q bq, pprev b = Some q /\ sel_mem s !! q = Some bq /\ ((q, p) ∈ unlinked \/ has_flag bq BLOCK_FAILED_MASK = true)) ->
  links_inv (mkSelect m' (setBlockIndexCandidates s) unlinked (nBlockSequenceId s) (pindexBestInvalid s) (sel_failed_blocks s) dirty) queue.
Proof.
  intros Hndq Hq Hndu Hu Hc. pose proof arrival_unlinked as Hz. destruct (li_tip s _ H) as (bt & Etip & Hbt & Hlt). assert (p <> tip) as Hpt by congruence.
  destruct (li_tree s _ H p b Hb) as [Hh0 Hprevok]. pose proof (li_entry s _ H p b Hb) as [_ _ Hfits _ _ _].
  assert (m' !! p = Some b') as Hmp by (by rewrite lookup_insert_eq).
  assert (has_flag b' BLOCK_FAILED_MASK = has_flag b BLOCK_FAILED_MASK) as Hflag by (unfold has_flag; cbn [set_data nStatus]; by rewrite Hfail).
  assert (forall q, pprev b = Some q -> q <> p) as Hloop.
  { intros q Eq ->. rewrite Eq in Hprevok. destruct Hprevok as (c & Hcc & Hhc). rewrite Hb in Hcc. injection Hcc as <-. lia. }
  constructor; cbn [sel_mem mapBlocksUnlinked setBlockIndexCandidates].
  - by eapply update_tree; [apply (li_tree s _ H)|exact Hb|..].
  - intros x c Hx. destruct (decide (x = p)) as [->|Hxp]; [rewrite Hmp in Hx; injection Hx as <-; apply (li_works s _ H p b Hb)|].
    rewrite arrival_other in Hx by done. by eapply (li_works s _ H).
  - exists bt. rewrite arrival_other by done. done.
  - intros x c Hx. destruct (decide (x = p)) as [->|Hxp].
    + rewrite Hmp in Hx. injection Hx as <-. constructor; cbn [set_data nTx nChainTx Chain.nHeight]; [lia|nia|done|done| |].
      * intros _. unfold has_flag. cbn [set_data nStatus]. by apply negb_true_iff, Z.eqb_neq.
      * intros E. rewrite Hflag in E. unfold has_flag in E. apply negb_false_iff, Z.eqb_eq in E. by apply Hvalid.
    + rewrite arrival_other in Hx by done. pose proof (li_entry s _ H x c Hx) as [? ? ? Hl ? ?]. constructor; try done.
      intros Ec. destruct (Hl Ec) as (E1 & E2 & E3). split; [done|]. split; [by apply arrival_prev|]. rewrite E3. f_equal.
      unfold prev_linked in E2. destruct (pprev c) as [q|]; [|done]. destruct E2 as (bq & Hbq & Hnq). by rewrite arrival_other by congruence.
  - split; [done|]. intros x Hx. destruct (Hq x Hx) as [-> Hpl]. exists b'. split; [done|]. split; [cbn; lia|]. split; [done|exact Hpl].
  - split; [done|]. intros q x Hin. apply Hu in Hin as [Hin|(-> & Hin & Eq & bq & Hbq & Ez)].
    + destruct (proj2 (li_unlinked s _ H) q x Hin) as (bx & bq & Hbx & Epx & E1 & E2 & Hbq & E3). assert (x <> p) as Hxp by congruence.
      destruct (decide (q = p)) as [->|Hqp].
      * exists bx, b'. rewrite (arrival_other x) by done. done.
      * exists bx, bq. rewrite !arrival_other by done. done.
    + exists b', bq. rewrite (arrival_other q) by (by apply Hloop). split; [done|]. split; [done|]. split; [cbn; lia|]. done.
  - intros x c Hx E1 E2. destruct (decide (x = p)) as [->|Hxp].
    + rewrite Hmp in Hx. injection Hx as <-. destruct Hc as [Hc|(q & bq & Eq & Hbq & Hor)]; [by left|right]. exists q, bq.
      rewrite (arrival_other q) by (by apply Hloop). done.
    + rewrite arrival_other in Hx by done. destruct (li_complete s _ H x c Hx E1 E2) as [Hin|(q & bq & Epx & Hbq & Hor)]; [by apply elem_of_nil in Hin|right].
      assert ((q, x) ∈ mapBlocksUnlinked s -> (q, x) ∈ unlinked) as Hin by (intros Hi; apply Hu; by left).
      destruct (decide (q = p)) as [->|Hqp].
      * exists p, b'. split; [done|]. split; [done|]. rewrite Hb in Hbq. injection Hbq as <-. rewrite Hflag. tauto.
      * exists q, bq. rewrite arrival_other by done. tauto.
  - intros c Hcc. destruct (li_candidates s _ H c Hcc) as (bc & Hbc & E). exists bc. rewrite arrival_other by congruence. done.
  - intros x c Hx E1 E2. destruct (decide (x = p)) as [->|Hxp]; [rewrite Hmp in Hx; injection Hx as <-; done|].
    rewrite arrival_other in Hx by done. destruct (li_chosen s _ H x c Hx E1 E2) as [Hin|Hw]; [by left|right]. apply (worse_update _ p b); congruence.
Qed.
End Arrival.

Lemma ReceivedBlockTransactions_spec s block p b file pos : links_inv s [] -> sel_mem s !! p = Some b -> nTx b = 0 ->
  0 < Z.of_nat (length (vtx block)) <= M -> M < 2 ^ 32 ->
  exists s', ReceivedBlockTransactions params active s block p file pos = Ok s' /\ links_inv s' []
    /\ forall x, nTx <$> sel_mem s' !! x = if decide (x = p) then Some (Z.of_nat (length (vtx block))) else nTx <$> sel_mem s !! x.
Proof.
  intros H Hb Hnone Hn HM. set (n := Z.of_nat (length (vtx block))) in *. unfold ReceivedBlockTransactions. rewrite (deref_ok _ _ _ Hb). cbn [mbind result_bind]. cbv zeta.
  fold (received_status (nStatus b)). destruct (received_status_spec (nStatus b)) as (st & ch & -> & Hd & Hf & Hv). cbn [mbind result_bind].
  fold n. rewrite u32_id by (unfold is_u32; lia). set (b' := set_data b n file pos st). set (m := <[p := b']> (sel_mem s)).
  destruct (li_tree s _ H p b Hb) as [Hh0 Hprevok]. destruct (li_unlinked s _ H) as [Hndu Hu].
  assert (forall x, nTx <$> m !! x = if decide (x = p) then Some n else nTx <$> sel_mem s !! x) as Htx.
  { intros x. subst m. destruct (decide (x = p)) as [->|Hx]; [by rewrite lookup_insert_eq|by rewrite lookup_insert_ne]. }
  assert (forall q, ~ (q, p) ∈ mapBlocksUnlinked s) as Hnp.
  { intros q Hin. destruct (Hu q p Hin) as (c & ? & Hc & _ & Hctx & _). rewrite Hb in Hc. injection Hc as <-. lia. }
  (* The parent is linked, or there is none. *)
  assert (prev_linked m b' -> exists s', link_queue active (S (length (mapBlocksUnlinked s)))
    (mkSelect m (setBlockIndexCandidates s) (mapBlocksUnlinked s) (nBlockSequenceId s) (pindexBestInvalid s) (sel_failed_blocks s) ({[p]} ∪ sel_dirty s)) [p] = Ok s'
    /\ links_inv s' [] /\ forall x, nTx <$> sel_mem s' !! x = if decide (x = p) then Some n else nTx <$> sel_mem s !! x) as Hlinked.
  { intros Hpl. edestruct link_queue_spec as (s' & -> & H' & Htx').
    - apply (arrival_inv s p b n file pos st H Hb Hnone Hn Hd Hf Hv [p]); [apply NoDup_singleton| |exact Hndu| |left; by left].
      + intros x Hx. apply list_elem_of_singleton in Hx as ->. done.
      + intros q x. split; [by left|]. intros [Hin|(-> & Hin & _)]; done.
    - cbn [mapBlocksUnlinked length]. lia.
    - exists s'. split; [done|]. split; [done|]. intros x. rewrite Htx'. apply Htx. }
  destruct (pprev b) as [q|] eqn:Eq; cbn [mbind result_bind].
  2:{ apply Hlinked. unfold prev_linked. cbn. by rewrite Eq. }
  destruct Hprevok as (bq & Hbq & Hhq). assert (q <> p) as Hqp by (intros ->; rewrite Hb in Hbq; injection Hbq as <-; lia).
  rewrite (deref_ok m q bq) by (subst m; by rewrite lookup_insert_ne). cbn [mbind result_bind].
  destruct (Z.eqb_spec (nChainTx bq) 0) as [Ez|Ez]; cbn [negb].
  2:{ apply Hlinked. unfold prev_linked. cbn. rewrite Eq. exists bq. split; [|done]. subst m. by rewrite lookup_insert_ne. }
  unfold IsValid. change (Z.land BLOCK_VALID_TREE (Z.lnot BLOCK_VALID_MASK) =? 0) with true. cbn [negb].
  pose proof (el_valid _ _ (li_entry s _ H q bq Hbq)) as Hvq. unfold has_flag in Hvq at 1.
  destruct (Z.eqb_spec (Z.land (nStatus bq) BLOCK_FAILED_MASK) 0) as [Efq|Efq]; cbn [negb mbind result_bind] in *.
  - rewrite (proj2 (Z.leb_le _ _) (Hvq eq_refl)). eexists; split; [done|]. split; [|exact Htx].
    apply (arrival_inv s p b n file pos st H Hb Hnone Hn Hd Hf Hv []); [constructor|by intros x Hx%elem_of_nil| | |].
    + rewrite fmap_app. apply NoDup_app. split; [done|]. split; [|apply NoDup_singleton]. intros x Hx Hxp. apply list_elem_of_singleton in Hxp as ->.
      apply list_elem_of_fmap in Hx as ([q' p'] & E & Hin). cbn in E. subst p'. by apply (Hnp q').
    + intros q' x. rewrite elem_of_app, list_elem_of_singleton. split; [|tauto]. intros [Hin|[= -> ->]]; [by left|right].
      split; [done|]. split; [by right|]. split; [done|]. by exists bq.
    + right. exists q, bq. split; [done|]. split; [done|]. left. apply elem_of_app. right. by apply list_elem_of_singleton.
  - eexists; split; [done|]. split; [|exact Htx].
    apply (arrival_inv s p b n file pos st H Hb Hnone Hn Hd Hf Hv []); [constructor|by intros x Hx%elem_of_nil|exact Hndu| |].
    + intros q' x. split; [by left|]. intros [Hin|(-> & Hin & _)]; done.
    + right. exists q, bq. split; [done|]. split; [done|]. right. unfold has_flag. by apply negb_true_iff, Z.eqb_neq.
Qed.

(** A branch whose blocks have all arrived, none of them failed, is linked. *)
Lemma complete_branch_linked s : links_inv s [] -> forall k p b, sel_mem s !! p = Some b -> Z.to_nat (Chain.nHeight b) = k ->
  (forall a ba, is_ancestor (sel_mem s) a p -> sel_mem s !! a = Some ba -> nTx ba <> 0 /\ has_flag ba BLOCK_FAILED_MASK = false) -> nChainTx b <> 0.
Proof.
  intros H. induction k as [|k IH]; intros p b Hb Hk Hall E; destruct (Hall p b (is_ancestor_refl _ _) Hb) as [Htx _];
    (destruct (li_complete s _ H p b Hb Htx E) as [Hin|(q & bq & Eq & Hbq & Hor)]; [by apply elem_of_nil in Hin|]);
    destruct (li_tree s _ H p b Hb) as [H0 Hprev]; rewrite Eq in Hprev; destruct Hprev as (c & Hc & Hh); rewrite Hbq in Hc; injection Hc as <-;
    destruct (li_tree s _ H q bq Hbq) as [Hq0 _]; [lia|].
  pose proof (is_ancestor_parent _ p b q Hb Eq) as Hqp. destruct (Hall q bq Hqp Hbq) as [_ Hfq]. destruct Hor as [Hin|Hf]; [|congruence].
  destruct (proj2 (li_unlinked s _ H) q p Hin) as (? & bq' & _ & _ & _ & _ & Hbq' & Ez). rewrite Hbq in Hbq'. injection Hbq' as <-.
  apply (IH q bq Hbq ltac:(lia)); [|exact Ez]. intros a ba Ha. apply Hall. by eapply is_ancestor_trans.
Qed.

(** All ancestors of a linked entry are linked. *)
Lemma linked_closed s queue : links_inv s queue -> forall k p b, sel_mem s !! p = Some b -> nChainTx b <> 0 ->
  forall a ba, prevs (sel_mem s) k p = Some a -> sel_mem s !! a = Some ba -> nChainTx ba <> 0.
Proof.
  intros H. induction k as [|k IH]; intros p b Hb Hl a ba Ha Hba; cbn [prevs] in Ha; [injection Ha as <-; congruence|].
  rewrite Hb in Ha. cbn in Ha. destruct (pprev b) as [q|] eqn:Eq; [|done]. cbn in Ha.
  destruct (el_linked _ _ (li_entry s _ H p b Hb) Hl) as (_ & Hpl & _). unfold prev_linked in Hpl. rewrite Eq in Hpl. destruct Hpl as (bq & Hbq & Hlq). by eapply (IH q bq).
Qed.

(** Blocks as they arrive: each with its entry and its place on disk. *)
Fixpoint receive_all (s : select_state) (arrivals : list (CBlock * ptr * (Z * Z))) : result fault select_state :=
  match arrivals with
  | [] => Ok s
  | (block, p, (file, pos)) :: arrivals => s ← ReceivedBlockTransactions params active s block p file pos; receive_all s arrivals
  end.
Definition arrival_ptr (x : CBlock * ptr * (Z * Z)) : ptr := x.1.2.

Lemma receive_all_spec arrivals : M < 2 ^ 32 -> forall s, links_inv s [] -> NoDup (arrival_ptr <$> arrivals) ->
  Forall (fun x => nTx <$> sel_mem s !! arrival_ptr x = Some 0 /\ 0 < Z.of_nat (length (vtx x.1.1)) <= M) arrivals ->
  exists s', receive_all s arrivals = Ok s' /\ links_inv s' []
    /\ Forall (fun x => nTx <$> sel_mem s' !! arrival_ptr x = Some (Z.of_nat (length (vtx x.1.1)))) arrivals
    /\ forall x, (x ∉ arrival_ptr <$> arrivals) -> nTx <$> sel_mem s' !! x = nTx <$> sel_mem s !! x.
Proof.
  intros HM. induction arrivals as [|[[block p] [file pos]] arrivals IH]; intros s H Hnd F; cbn [receive_all fmap list_fmap] in *.
  { exists s. split; [done|]. split; [done|]. split; [constructor|done]. }
  apply NoDup_cons in Hnd as [Hp Hnd]. apply Forall_cons in F as [[Htx Hn] F]. cbn [arrival_ptr fst snd] in *.
  destruct (sel_mem s !! p) as [b|] eqn:Hb; [|discriminate]. injection Htx as Htx.
  destruct (ReceivedBlockTransactions_spec s block p b file pos H Hb Htx Hn HM) as (s1 & -> & H1 & Htx1). cbn [mbind result_bind].
  destruct (IH s1 H1 Hnd) as (s' & -> & H' & F' & Hrest).
  { apply Forall_forall. intros x Hx. rewrite Forall_forall in F. destruct (F x Hx) as [E Hl]. split; [|done]. rewrite Htx1, decide_False; [done|]. intros Ep. apply Hp. apply list_elem_of_fmap. exists x. done. }
  exists s'. split; [done|]. split; [done|]. split.
  - constructor; [|exact F']. cbn. rewrite Hrest by done. by rewrite Htx1, decide_True.
  - intros x Hx. apply not_elem_of_cons in Hx as [Hxp Hx]. rewrite Hrest by done. by rewrite Htx1, decide_False.
Qed.
End Links.

(** ** Theorems *)

(** C6: Blocks may arrive in any order.  Whatever the order in which the transactions of known
    headers arrive, [ReceivedBlockTransactions] ends, and afterwards every block all of
    whose ancestors have arrived, none of them failed, is linked: it carries the number of
    transactions of its branch and is a candidate, unless it is worse than the tip.  The
    candidates are linked, blocks that wait for their parents are recorded once under
    their parent, and nothing else is in the lists. *)
Theorem received_in_any_order params active tip M s arrivals :
  M < 2 ^ 32 -> links_inv active tip M s [] -> NoDup (arrival_ptr <$> arrivals) ->
  Forall (fun x => nTx <$> sel_mem s !! arrival_ptr x = Some 0 /\ 0 < Z.of_nat (length (vtx x.1.1)) <= M) arrivals ->
  exists s', receive_all params active s arrivals = Ok s' /\ links_inv active tip M s' []
    /\ Forall (fun x => nTx <$> sel_mem s' !! arrival_ptr x = Some (Z.of_nat (length (vtx x.1.1)))) arrivals
    /\ forall p b, sel_mem s' !! p = Some b ->
         (forall a ba, is_ancestor (sel_mem s') a p -> sel_mem s' !! a = Some ba -> nTx ba <> 0 /\ has_flag ba BLOCK_FAILED_MASK = false) ->
         nChainTx b <> 0 /\ (p ∈ setBlockIndexCandidates s' \/ worse (sel_mem s') p tip).
Proof.
  intros HM H Hnd F. destruct (receive_all_spec params active tip M arrivals HM s H Hnd F) as (s' & E & H' & F' & _).
  exists s'. split; [exact E|]. split; [exact H'|]. split; [exact F'|]. intros p b Hb Hall.
  assert (nChainTx b <> 0) as Hl by (by eapply complete_branch_linked). split; [exact Hl|].
  apply (li_chosen _ _ _ s' _ H' p b Hb Hl). apply (Hall p b); [apply is_ancestor_refl|exact Hb].
Qed.

(** The best chain is found.  [FindMostWorkChain] ends, without failing its assertion; it
    drops candidates only if their branch contains, above the active chain, a block that
    has failed or has no data; and it returns the candidate with the most work (the
    earliest received among equals) of those whose branch is usable, or nothing if there
    is none. *)
Theorem FindMostWorkChain_best active tip M s :
  links_inv active tip M s [] -> chain_ok (sel_mem s) active tip -> (forall p, pindexBestInvalid s = Some p -> is_Some (sel_mem s !! p)) ->
  exists s' r, FindMostWorkChain active (size (setBlockIndexCandidates s)) s = Ok (s', r)
    /\ marked (sel_mem s) (sel_mem s')
    /\ match r with
       | None => forall x, x ∈ setBlockIndexCandidates s -> ~ usable tip (sel_mem s) x
       | Some p => p ∈ setBlockIndexCandidates s /\ usable tip (sel_mem s) p
           /\ forall x, x ∈ setBlockIndexCandidates s -> usable tip (sel_mem s) x -> x = p \/ worse (sel_mem s) x p
       end.
Proof.
  intros H Hc Hinv. assert (search_ok active tip s) as Hs.
  { constructor; [apply H|exact Hc|apply H| |exact Hinv]. intros c Hcc. destruct (li_candidates _ _ _ s _ H c Hcc) as (b & Hb & Hl). split; [by exists b|].
    intros a ba [k Ha] Hba. left. exact (linked_closed active tip M s [] H k c b Hb Hl a ba Ha Hba). }
  destruct (FindMostWorkChain_spec active tip _ s Hs (le_n _)) as (s' & r & E & (Hm & _ & Hsub & Hrem) & Hr).
  exists s', r. split; [exact E|]. split; [exact Hm|]. destruct r as [p|].
  - destruct Hr as (Hp & Hu & Hmax). split; [by apply Hsub|]. split; [exact Hu|]. intros x Hx Hux.
    destruct (decide (x ∈ setBlockIndexCandidates s')) as [Hx'|Hx']; [by apply Hmax|]. by destruct (Hrem x Hx Hx').
  - intros x Hx. apply Hrem; [exact Hx|]. rewrite Hr. apply not_elem_of_empty.
Qed.

(** *** An example: two blocks on top of the tip, the second one arrives first *)

Definition example_index (prev : option ptr) (height work ntx chaintx status : Z) : CBlockIndex :=
  mkBlockIndex height prev None height 0 0 0 (of_uint64 work) ntx chaintx status 0 0 1000 0x1e0fffff 0 0 0 0 1000.
Definition example_select : select_state :=
  mkSelect (<[1%positive := example_index None 0 1 1 1 11]> (<[2%positive := example_index (Some 1%positive) 1 2 0 0 2]>
            (<[3%positive := example_index (Some 2%positive) 2 3 0 0 2]> ∅)))
    {[1%positive]} [] 1 None ∅ ∅.
Definition example_active : CChain := [Some 1%positive].
Definition example_arrivals : list (CBlock * ptr * (Z * Z)) := [(example_block, 3%positive, (0, 8)); (example_block, 2%positive, (0, 500))].

Lemma example_select_inv : links_inv example_active 1%positive 10 example_select [].
Proof.
  constructor; cbn [example_select sel_mem mapBlocksUnlinked setBlockIndexCandidates].
  - intros p b Hp. heap_cases Hp; (split; [done|]); cbn; [done|by eexists..].
  - intros p b Hp. heap_cases Hp; apply (bool_decide_unpack _); vm_compute; exact I.
  - eexists. split; [done|]. split; [by rewrite lookup_insert_eq|done].
  - intros p b Hp. heap_cases Hp; constructor; cbn; try done; try (intros _; split; [done|]; split; [exact I|done]).
  - split; [constructor|]. by intros p Hp%elem_of_nil.
  - split; [constructor|]. by intros q p Hp%elem_of_nil.
  - intros p b Hp H1 H2. heap_cases Hp; done.
  - intros c Hc. apply elem_of_singleton in Hc as ->. eexists. split; [by rewrite lookup_insert_eq|done].
  - intros p b Hp Hc _. left. heap_cases Hp; [by apply elem_of_singleton|done|done].
Qed.

Lemma received_in_any_order_witness : exists s', receive_all main_params example_active example_select example_arrivals = Ok s'
  /\ links_inv example_active 1%positive 10 s' [] /\ setBlockIndexCandidates s' = {[1%positive; 2%positive; 3%positive]}.
Proof.
  destruct (received_in_any_order main_params example_active 1%positive 10 example_select example_arrivals) as (s' & E & H & _);
    [reflexivity|exact example_select_inv|apply (bool_decide_unpack _); vm_compute; exact I|
     repeat constructor; vm_compute; discriminate|].
  exists s'. split; [exact E|]. split; [exact H|]. vm_compute in E. injection E as <-. vm_compute. reflexivity.
Defined.

(** The state after both have arrived: the later block is the best. *)
Definition example_received : select_state := Eval vm_compute in
  match receive_all main_params example_active example_select example_arrivals with Ok s => s | Err _ => example_select end.
Lemma example_received_inv : links_inv example_active 1%positive 10 example_received [].
Proof.
  destruct (receive_all_spec main_params example_active 1%positive 10 example_arrivals eq_refl example_select example_select_inv) as (s' & E & H & _);
    [apply (bool_decide_unpack _); vm_compute; exact I|repeat constructor; vm_compute; discriminate|].
  vm_compute in E. injection E as <-. exact H.
Qed.

Lemma FindMostWorkChain_best_witness :
  exists s', FindMostWorkChain example_active (size (setBlockIndexCandidates example_received)) example_received = Ok (s', Some 3%positive)
    /\ usable 1%positive (sel_mem example_received) 3%positive
    /\ forall x, x ∈ setBlockIndexCandidates example_received -> usable 1%positive (sel_mem example_received) x -> x = 3%positive \/ worse (sel_mem example_received) x 3%positive.
Proof.
  destruct (FindMostWorkChain_best example_active 1%positive 10 example_received) as (s' & r & E & _ & Hr);
    [exact example_received_inv| |intros p; discriminate|].
  { eexists. split; [vm_compute; reflexivity|]. split; [reflexivity|]. intros [|i] Hi; [vm_compute; reflexivity|cbn in Hi; lia]. }
  assert (r = Some 3%positive) as -> by (vm_compute in E; congruence). exists s'. split; [exact E|]. split; [apply Hr|apply Hr].
Defined.
