(* ===== verification/ChainActivate.v ===== *)
(** * Switching to the best chain: [src/validation.cpp]

    [ActivateBestChain] with its step: blocks that are not on the best chain are
    disconnected, those on it are connected, and a block that turns out to be invalid sends
    the search of [ChainSelect] to another branch.

    The verdict of [ConnectBlock] on a block, and whether the effects of a block could be
    undone, are arguments: the chain state behind them is not part of this file.  Modelled
    is one call under the lock, without a request to shut down; the memory pool, the
    notifications and the warnings about forks are left out.

    The theorems: unless the disk fails, the call ends, and the tip is then the best entry
    among all whose blocks are complete and valid, wherever the search went wrong in
    between; and with a block whose data is corrupt on disk it never ends. *)

From S2P Require Import Prelude Endian Params ArithUint256 Chain Transaction BlockCheck BlockTree ChainSelect.

(** ** Connecting one block *)

Definition BLOCK_HAVE_UNDO : Z := 16.

Definition set_undo (b : CBlockIndex) (undo status : Z) : CBlockIndex :=
  mkBlockIndex (phashBlock b) (pprev b) (pskip b) (Chain.nHeight b) (nFile b) (nDataPos b) undo (nChainWork b)
    (nTx b) (nChainTx b) status (Chain.nVersion b) (hashMerkleRoot b) (nTime b) (nBits b) (nNonce b) (nNonce64 b) (mix_hash b)
    (nSequenceId b) (nTimeMax b).

(** [GetUndoPos().IsNull()]. *)
Definition undo_pos_null (b : CBlockIndex) : bool := negb (has_flag b BLOCK_HAVE_UNDO) || (nFile b =? -1).

(** How far [ConnectBlock] came before the disk failed: not to the index, to the position
    of the undo data, to the end of its changes of the index. *)
Inductive progress := AtStart | AfterUndo (undo : Z) | AfterRaise (undo : Z).
(** Reading the block, [ConnectBlock] and writing the chain state. *)
Inductive connect_outcome := Connected (undo : Z) | Invalid (corruption : bool) | SystemError (at_ : progress).

(** What [ConnectBlock] does to the entry of the block; the flag tells whether it is dirty. *)
Definition write_undo (b : CBlockIndex) (undo : Z) : CBlockIndex :=
  if undo_pos_null b then set_undo b undo (Z.lor (nStatus b) BLOCK_HAVE_UNDO) else b.
Definition raise_scripts (b : CBlockIndex) (undo : Z) : result fault (CBlockIndex * bool) :=
  valid ← IsValid b BLOCK_VALID_SCRIPTS;
  if undo_pos_null b || negb valid then
    let b := write_undo b undo in
    let* (status, _) := RaiseValidity (nStatus b) BLOCK_VALID_SCRIPTS in
    Ok (set_status b status, true)
  else Ok (b, false).

(** The candidates and the active chain. *)
Record chain_state := mkChain { cs_select : select_state; cs_active : CChain }.

Section Activate.
Context (hashGenesisBlock : bytes).
Context (connect : ptr -> connect_outcome) (disconnect : ptr -> bool).

Definition with_entry (s : select_state) (p : ptr) (b : CBlockIndex) (dirty : bool) : select_state :=
  mkSelect (<[p := b]> (sel_mem s)) (setBlockIndexCandidates s) (mapBlocksUnlinked s) (nBlockSequenceId s) (pindexBestInvalid s)
    (sel_failed_blocks s) (if dirty then {[p]} ∪ sel_dirty s else sel_dirty s).

(** The genesis block is connected without undo data. *)
Definition note_progress (s : select_state) (p : ptr) (b : CBlockIndex) (at_ : progress) : result fault select_state :=
  if phashBlock b =? le_combine hashGenesisBlock then Ok s
  else match at_ with
       | AtStart => Ok s
       | AfterUndo undo => Ok (with_entry s p (write_undo b undo) false)
       | AfterRaise undo => let* (b, dirty) := raise_scripts b undo in Ok (with_entry s p b dirty)
       end.

Inductive tip_result := TipConnected | TipInvalid (corruption : bool) | TipFailed.

Definition ConnectTip (cs : chain_state) (pindexNew : ptr) : result fault (chain_state * tip_result) :=
  let s := cs_select cs in
  b ← deref (sel_mem s) pindexNew;
  if negb (bool_decide (pprev b = Tip (cs_active cs))) then Err AssertFailure
  else match connect pindexNew with
       | SystemError at_ => s ← note_progress s pindexNew b at_; Ok (mkChain s (cs_active cs), TipFailed)
       | Invalid corruption =>
         s ← InvalidBlockFound (cs_active cs) s pindexNew corruption; Ok (mkChain s (cs_active cs), TipInvalid corruption)
       | Connected undo =>
         s ← note_progress s pindexNew b (AfterRaise undo);
         active ← SetTip (sel_mem s) (cs_active cs) (Some pindexNew);
         Ok (mkChain s active, TipConnected)
       end.

(** The flag is false if the block could not be disconnected. *)
Definition DisconnectTip (cs : chain_state) : result fault (chain_state * bool) :=
  match Tip (cs_active cs) with
  | None => Err AssertFailure
  | Some pindexDelete =>
    b ← deref (sel_mem (cs_select cs)) pindexDelete;
    if disconnect pindexDelete then
      active ← SetTip (sel_mem (cs_select cs)) (cs_active cs) (pprev b); Ok (mkChain (cs_select cs) active, true)
    else Ok (cs, false)
  end.

(** ** One step *)

(** The first loop; the length of the chain is enough fuel. *)
Fixpoint disconnect_to (fuel : nat) (cs : chain_state) (pindexFork : option ptr) : result fault (chain_state * bool) :=
  match Tip (cs_active cs) with
  | None => Ok (cs, true)
  | Some tip =>
    if bool_decide (Some tip = pindexFork) then Ok (cs, true)
    else match fuel with
         | O => Err OutOfFuel
         | S fuel => let* (cs, ok) := DisconnectTip cs in if ok : bool then disconnect_to fuel cs pindexFork else Ok (cs, false)
         end
  end.

(** [vpindexToConnect], in the order in which its blocks are connected. *)
Fixpoint to_connect (fuel : nat) (mem : heap) (pindexIter : option ptr) (nHeight : Z) (acc : list ptr) : result fault (list ptr) :=
  match pindexIter with
  | None => Ok acc
  | Some p =>
    b ← deref mem p;
    if Chain.nHeight b =? nHeight then Ok acc
    else match fuel with
         | O => Err OutOfFuel
         | S fuel => to_connect fuel mem (pprev b) nHeight (p :: acc)
         end
  end.

Inductive step_result := StepContinue | StepBetter | StepInvalid | StepFailed.

(** The loop that connects them.  [first] is [vpindexToConnect.back()]. *)
Fixpoint connect_blocks (cs : chain_state) (first : ptr) (l : list ptr) (pindexOldTip : option ptr) : result fault (chain_state * step_result) :=
  match l with
  | [] => Ok (cs, StepContinue)
  | p :: l =>
    let* (cs, r) := ConnectTip cs p in
    match r with
    | TipFailed => Ok (cs, StepFailed)
    | TipInvalid true => Ok (cs, StepInvalid)
    | TipInvalid false =>
      s ← raise_best_invalid (cs_select cs) first;
      match Tip (cs_active cs) with None => Err AssertFailure | Some _ => Ok (mkChain s (cs_active cs), StepInvalid) end
    | TipConnected =>
      s ← PruneBlockIndexCandidates (cs_active cs) (cs_select cs);
      let cs := mkChain s (cs_active cs) in
      better ← match pindexOldTip, Tip (cs_active cs) with
               | None, _ => Ok true
               | Some old, Some tip => bo ← deref (sel_mem s) old; bt ← deref (sel_mem s) tip; Ok (CompareTo (nChainWork bt) (nChainWork bo) >? 0)
               | Some _, None => Err NullDereference
               end;
      if better : bool then Ok (cs, StepBetter) else connect_blocks cs first l pindexOldTip
    end
  end.

(** The second loop: at most 32 blocks at a time. *)
Fixpoint connect_loop (fuel : nat) (cs : chain_state) (pindexMostWork : ptr) (nHeight : Z) (pindexOldTip : option ptr)
  : result fault (chain_state * step_result) :=
  most ← deref (sel_mem (cs_select cs)) pindexMostWork;
  if nHeight =? Chain.nHeight most then Ok (cs, StepContinue)
  else match fuel with
       | O => Err OutOfFuel
       | S fuel =>
         let nTargetHeight := Z.min (nHeight + 32) (Chain.nHeight most) in
         iter ← GetAncestor (sel_mem (cs_select cs)) pindexMostWork nTargetHeight;
         l ← to_connect 32 (sel_mem (cs_select cs)) iter nHeight [];
         let* (cs, r) := connect_blocks cs (default pindexMostWork (head l)) l pindexOldTip in
         match r with
         | StepContinue => connect_loop fuel cs pindexMostWork nTargetHeight pindexOldTip
         | _ => Ok (cs, r)
         end
       end.

Definition ActivateBestChainStep (cs : chain_state) (pindexMostWork : ptr) : result fault (chain_state * step_result) :=
  let mem := sel_mem (cs_select cs) in
  let pindexOldTip := Tip (cs_active cs) in
  pindexFork ← FindFork mem (cs_active cs) (Some pindexMostWork);
  let* (cs, ok) := disconnect_to (length (cs_active cs)) cs pindexFork in
  if negb ok then Ok (cs, StepFailed)
  else
    height ← match pindexFork with Some f => bf ← deref mem f; Ok (Chain.nHeight bf) | None => Ok (-1) end;
    most ← deref mem pindexMostWork;
    connect_loop (Z.to_nat (Chain.nHeight most - height)) cs pindexMostWork height pindexOldTip.

(** ** The loop over the steps *)

(** The result is false if the disk failed. *)
Fixpoint ActivateBestChain (fuel : nat) (cs : chain_state) (pindexMostWork : option ptr) : result fault (chain_state * bool) :=
  match fuel with
  | O => Err OutOfFuel
  | S fuel =>
    let* (cs, pindexMostWork) :=
      match pindexMostWork with
      | Some p => Ok (cs, Some p)
      | None =>
        let* (s, r) := FindMostWorkChain (cs_active cs) (size (setBlockIndexCandidates (cs_select cs))) (cs_select cs) in
        Ok (mkChain s (cs_active cs), r)
      end in
    match pindexMostWork with
    | None => Ok (cs, true)
    | Some p =>
      if bool_decide (Tip (cs_active cs) = Some p) then Ok (cs, true)
      else
        let* (cs, r) := ActivateBestChainStep cs p in
        match r with
        | StepFailed => Ok (cs, false)
        | StepInvalid => if bool_decide (Tip (cs_active cs) = None) then Ok (cs, true) else ActivateBestChain fuel cs None
        | _ => if bool_decide (Tip (cs_active cs) = Some p) then Ok (cs, true) else ActivateBestChain fuel cs (Some p)
        end
    end
  end.
End Activate.

(** ** Entries that keep their place *)

Local Abbreviation failed b := (has_flag b BLOCK_FAILED_MASK).

(** What connecting, marking and searching do to an entry: only its status changes, it
    stays failed if it was, and it stays valid as far as it was. *)
Record kept_entry (b b' : CBlockIndex) : Prop := mkKept {
  ke_shape : shape b' = shape b;
  ke_tx : nTx b' = nTx b;
  ke_chain : nChainTx b' = nChainTx b;
  ke_seq : nSequenceId b' = nSequenceId b;
  ke_failed : failed b = true -> failed b' = true;
  ke_data : has_flag b BLOCK_HAVE_DATA = true -> has_flag b' BLOCK_HAVE_DATA = true;
  ke_valid : failed b' = false -> Z.land (nStatus b) BLOCK_VALID_MASK <= Z.land (nStatus b') BLOCK_VALID_MASK;
}.
Definition kept (m m' : heap) : Prop :=
  forall p, match m !! p, m' !! p with Some b, Some b' => kept_entry b b' | None, None => True | _, _ => False end.

Lemma kept_entry_refl b : kept_entry b b.
Proof. by constructor. Qed.
Lemma kept_entry_trans a b c : kept_entry a b -> kept_entry b c -> kept_entry a c.
Proof.
  intros [A1 A2 A3 A4 A5 A6 A7] [B1 B2 B3 B4 B5 B6 B7]. constructor; [congruence..|auto|auto|]. intros E. specialize (B7 E).
  assert (failed b = false) as Eb by (destruct (failed b); [rewrite B5 in E|]; done). specialize (A7 Eb). lia.
Qed.
Lemma kept_refl m : kept m m.
Proof. intros p. destruct (m !! p); [apply kept_entry_refl|done]. Qed.
Lemma kept_trans m1 m2 m3 : kept m1 m2 -> kept m2 m3 -> kept m1 m3.
Proof. intros H1 H2 p. specialize (H1 p). specialize (H2 p). destruct (m1 !! p), (m2 !! p), (m3 !! p); try done. by eapply kept_entry_trans. Qed.
Lemma kept_insert m p b b' : m !! p = Some b -> kept_entry b b' -> kept m (<[p := b']> m).
Proof.
  intros Hp Hk q. destruct (decide (p = q)) as [<-|Hn]; [by rewrite lookup_insert_eq, Hp|rewrite lookup_insert_ne by done; apply kept_refl].
Qed.

(** More flags. *)
Lemma flags_valid b b' : (forall f, has_flag b f = true -> has_flag b' f = true) -> forall mask, 0 <= mask -> Z.land (nStatus b) mask <= Z.land (nStatus b') mask.
Proof.
  intros Hf mask Hm. assert (Z.ldiff (Z.land (nStatus b) mask) (Z.land (nStatus b') mask) = 0) as E.
  { apply Z.bits_inj'. intros n Hn. rewrite Z.ldiff_spec, !Z.land_spec, Z.bits_0. destruct (Z.testbit (nStatus b) n) eqn:En; [|done].
    destruct (Z.testbit mask n); [|done]. specialize (Hf (2 ^ n)). unfold has_flag in Hf. rewrite !negb_true_iff, !Z.eqb_neq in Hf.
    assert (forall x, Z.land x (2 ^ n) <> 0 <-> Z.testbit x n = true) as Hbit.
    { intros x. destruct (Z.testbit x n) eqn:Ex; split; try done.
      - intros _ E. assert (Z.testbit (Z.land x (2 ^ n)) n = Z.testbit 0 n) as E1 by by rewrite E. rewrite Z.land_spec, Z.pow2_bits_true, Ex, Z.bits_0 in E1 by done. done.
      - intros H. destruct H. apply Z.bits_inj'. intros k Hk. rewrite Z.land_spec, Z.bits_0. destruct (decide (k = n)) as [->|Hkn]; [by rewrite Ex|].
        rewrite Z.pow2_bits_false by done. apply andb_false_r. }
    rewrite !Hbit in Hf. by rewrite Hf. }
  pose proof (Z.sub_nocarry_ldiff _ _ E) as Es. assert (0 <= Z.ldiff (Z.land (nStatus b') mask) (Z.land (nStatus b) mask)); [|lia].
  apply Z.ldiff_nonneg. left. apply Z.land_nonneg. by right.
Qed.
Lemma marked_kept m m' : marked m m' -> kept m m'.
Proof.
  intros H p. specialize (H p). destruct (m !! p) as [b|], (m' !! p) as [b'|]; try done. destruct H as (s & -> & F).
  constructor; try done; [apply F|apply F|]. intros _. apply (flags_valid b (set_status b s) F). by vm_compute.
Qed.

Section Kept.
Context (m m' : heap) (K : kept m m').

Lemma kept_lookup p b : m !! p = Some b -> exists b', m' !! p = Some b' /\ kept_entry b b'.
Proof. intros Hp. specialize (K p). rewrite Hp in K. destruct (m' !! p); [eauto|done]. Qed.
Lemma kept_lookup_rev p b' : m' !! p = Some b' -> exists b, m !! p = Some b /\ kept_entry b b'.
Proof. intros Hp. specialize (K p). rewrite Hp in K. destruct (m !! p); [eauto|done]. Qed.
Lemma kept_extends : extends m m' /\ extends m' m.
Proof.
  split; intros p b Hp; [destruct (kept_lookup p b Hp) as (b' & ? & [E _ _ _ _ _ _])|destruct (kept_lookup_rev p b Hp) as (b' & ? & [E _ _ _ _ _ _])]; by exists b'.
Qed.
Lemma kept_is_Some p : is_Some (m' !! p) <-> is_Some (m !! p).
Proof. specialize (K p). destruct (m !! p), (m' !! p); try done; split; eauto. Qed.
Lemma kept_prevs n : forall p, prevs m' n p = prevs m n p.
Proof.
  induction n as [|n IH]; intros p; [done|]. cbn [prevs]. specialize (K p). destruct (m !! p) as [b|], (m' !! p) as [b'|]; try done.
  destruct K as [E _ _ _ _ _ _]. cbn. injection E as ? -> ? ? ? ? ? ?. destruct (pprev b) as [q|]; [apply IH|done].
Qed.
Lemma kept_ancestor a p : is_ancestor m' a p <-> is_ancestor m a p.
Proof. unfold is_ancestor. split; intros [n Hn]; exists n; [by rewrite <- kept_prevs|by rewrite kept_prevs]. Qed.
Lemma kept_tree : tree_ok m -> tree_ok m'.
Proof.
  intros Ht p b' Hp. destruct (kept_lookup_rev p b' Hp) as (b & Hb & [E _ _ _ _ _ _]). injection E as ? Ep ? Eh ? ? ? ?.
  eapply extends_prev_ok; [apply kept_extends|by eapply Ht|done|done].
Qed.
Lemma kept_index : index_ok m -> index_ok m'.
Proof. apply same_shape_index; apply kept_extends. Qed.
Lemma kept_works : works_ok m -> works_ok m'.
Proof. intros Hw p b' Hp. destruct (kept_lookup_rev p b' Hp) as (b & Hb & [E _ _ _ _ _ _]). injection E as ? ? ? ? -> ? ? ?. by eapply Hw. Qed.
Lemma kept_chain_ok active tip : tree_ok m -> chain_ok m active tip -> chain_ok m' active tip.
Proof.
  intros Ht (b & Hb & Hl & Hv). destruct (kept_lookup tip b Hb) as (b' & Hb' & [E _ _ _ _ _ _]). injection E as ? ? ? Eh ? ? ? ?. exists b'.
  split; [done|]. split; [by rewrite Eh|]. intros i Hi. rewrite (Hv i Hi). f_equal. symmetry. apply (extends_ancestor m m'); [apply kept_extends|done|by exists b].
Qed.
Lemma kept_precedes x a a' y b b' : kept_entry a a' -> kept_entry b b' -> (precedes x a' y b' <-> precedes x a y b).
Proof.
  intros [E1 _ _ S1 _ _ _] [E2 _ _ S2 _ _ _]. injection E1 as ? ? ? ? W1 ? ? ?. injection E2 as ? ? ? ? W2 ? ? ?. unfold precedes. by rewrite W1, W2, S1, S2.
Qed.
Lemma kept_worse x y : worse m' x y <-> worse m x y.
Proof.
  split; intros (a & b & Ha & Hb & H).
  - destruct (kept_lookup_rev x a Ha) as (a0 & Ha0 & Ka), (kept_lookup_rev y b Hb) as (b0 & Hb0 & Kb). exists a0, b0. split; [done|]. split; [done|]. by rewrite <- (kept_precedes x a0 a y b0 b).
  - destruct (kept_lookup x a Ha) as (a0 & Ha0 & Ka), (kept_lookup y b Hb) as (b0 & Hb0 & Kb). exists a0, b0. split; [done|]. split; [done|]. by rewrite (kept_precedes x a a0 y b b0).
Qed.
End Kept.

(** *** The lists of [ChainSelect] *)

(** The invariant of the lists survives when candidates leave that have failed or are
    worse than the new mark [h']. *)
Lemma kept_links A h A' h' M s s' bh : links_inv A h M s [] -> kept (sel_mem s) (sel_mem s') -> mapBlocksUnlinked s' = mapBlocksUnlinked s ->
  setBlockIndexCandidates s' ⊆ setBlockIndexCandidates s ->
  (forall x, x ∈ setBlockIndexCandidates s -> (x ∉ setBlockIndexCandidates s') ->
     (exists b, sel_mem s' !! x = Some b /\ failed b = true) \/ worse (sel_mem s) x h') ->
  Tip A' = Some h' -> sel_mem s !! h' = Some bh -> nChainTx bh <> 0 -> h' = h \/ worse (sel_mem s) h h' ->
  links_inv A' h' M s' [].
Proof.
  intros H K Eu Hsub Hrem Etip Hbh Hlh Hh. constructor.
  - eapply kept_tree; [exact K|apply H].
  - eapply kept_works; [exact K|apply H].
  - destruct (kept_lookup _ _ K h' bh Hbh) as (b' & Hb' & [_ _ Ec _ _ _ _]). exists b'. split; [done|]. split; [done|congruence].
  - intros p b' Hp. destruct (kept_lookup_rev _ _ K p b' Hp) as (b & Hb & [E Et Ec _ Ef Ed Ev]). injection E as ? Ep ? Eh ? ? ? ?.
    destruct (li_entry _ _ _ s _ H p b Hb) as [L1 L2 L3 L4 L5 L6]. constructor; rewrite ?Et, ?Ec, ?Eh; try done.
    + intros Hc. destruct (L4 Hc) as (T1 & T2 & T3). split; [done|]. unfold prev_linked in *. rewrite Ep. destruct (pprev b) as [q|]; [|done].
      destruct T2 as (bq & Hbq & Hcq). rewrite Hbq in T3. destruct (kept_lookup _ _ K q bq Hbq) as (bq' & Hbq' & [_ _ Eq _ _ _ _]).
      split; [exists bq'; split; [done|congruence]|]. by rewrite Hbq', Eq.
    + intros Htx. by apply Ed, L5.
    + intros Hf. assert (failed b = false) as Eb by (destruct (failed b); [rewrite Ef in Hf|]; done). specialize (L6 Eb). specialize (Ev Hf). lia.
  - split; [constructor|by intros p Hp%elem_of_nil].
  - rewrite Eu. split; [apply H|]. intros q p Hin. destruct (proj2 (li_unlinked _ _ _ s _ H) q p Hin) as (b & bq & Hb & Ep & T1 & T2 & Hbq & T3).
    destruct (kept_lookup _ _ K p b Hb) as (b' & Hb' & [E Et Ec _ _ _ _]), (kept_lookup _ _ K q bq Hbq) as (bq' & Hbq' & [_ _ Eq _ _ _ _]).
    injection E as ? Ep' ? ? ? ? ? ?. exists b', bq'. rewrite Ep', Et, Ec, Eq. done.
  - intros p b' Hp Htx Hc. destruct (kept_lookup_rev _ _ K p b' Hp) as (b & Hb & [E Et Ec _ _ _ _]). injection E as ? Ep ? ? ? ? ? ?. rewrite Et in Htx. rewrite Ec in Hc.
    destruct (li_complete _ _ _ s _ H p b Hb Htx Hc) as [Hin|(q & bq & Eq & Hbq & Hor)]; [by apply elem_of_nil in Hin|right].
    destruct (kept_lookup _ _ K q bq Hbq) as (bq' & Hbq' & [_ _ _ _ Efq _ _]). exists q, bq'. rewrite Ep, Eu. split; [done|]. split; [done|]. destruct Hor as [|Hf]; [by left|right; by apply Efq].
  - intros c Hc. destruct (li_candidates _ _ _ s _ H c (Hsub c Hc)) as (b & Hb & Hl). destruct (kept_lookup _ _ K c b Hb) as (b' & Hb' & [_ _ Ec _ _ _ _]).
    exists b'. split; [done|congruence].
  - intros p b' Hp Hc Hf. destruct (kept_lookup_rev _ _ K p b' Hp) as (b & Hb & [_ _ Ec _ Ef _ _]). rewrite Ec in Hc. rewrite (kept_worse _ _ K).
    assert (failed b = false) as Eb by (destruct (failed b); [rewrite Ef in Hf|]; done). destruct (decide (p ∈ setBlockIndexCandidates s')) as [Hin|Hnot]; [by left|right].
    destruct (li_chosen _ _ _ s _ H p b Hb Hc Eb) as [Hin|Hw]; [|destruct Hh as [->|Hh]; [done|by eapply worse_trans]].
    destruct (Hrem p Hin Hnot) as [(c & Hpc & Hfc)|]; [congruence|done].
Qed.

(** ** What a search marks *)

Lemma removed_one (p x : ptr) (X : gset ptr) : x ∈ X -> (x ∉ X ∖ {[p]}) -> x = p.
Proof. intros Hx Hn. destruct (decide (x = p)) as [|Hxp]; [done|]. destruct Hn. apply elem_of_difference. split; [done|]. by rewrite elem_of_singleton. Qed.

(** Neither the entry nor one of its ancestors has failed. *)
Definition good (m : heap) (p : ptr) : Prop := forall a b, is_ancestor m a p -> m !! a = Some b -> failed b = false.

Lemma good_ancestor m a p : good m p -> is_ancestor m a p -> good m a.
Proof. intros Hg Ha c b Hc. apply Hg. by eapply is_ancestor_trans. Qed.
Lemma good_child m p b q : m !! p = Some b -> pprev b = Some q -> failed b = false -> good m q -> good m p.
Proof.
  intros Hp Eq Hf Hg a c Ha Hc. destruct (decide (a = p)) as [->|Hn]; [congruence|]. destruct (is_ancestor_step m a p b Hp Ha Hn) as (q' & Eq' & Ha').
  assert (q' = q) as -> by congruence. by apply (Hg a c).
Qed.

Definition search_marks (s s' : select_state) : Prop :=
  marked (sel_mem s) (sel_mem s') /\ mapBlocksUnlinked s' = mapBlocksUnlinked s /\ setBlockIndexCandidates s' ⊆ setBlockIndexCandidates s
  /\ (forall x, x ∈ setBlockIndexCandidates s -> (x ∉ setBlockIndexCandidates s') -> exists b, sel_mem s' !! x = Some b /\ failed b = true)
  /\ (forall x, sel_mem s' !! x = sel_mem s !! x \/ ~ good (sel_mem s) x)
  /\ forall q, pindexBestInvalid s' = Some q -> pindexBestInvalid s = Some q \/ is_Some (sel_mem s !! q).

Lemma search_marks_refl s : search_marks s s.
Proof. split; [apply marked_refl|]. split; [done|]. split; [done|]. split; [done|]. split; [by left|by left]. Qed.
Lemma marked_good m m' x : marked m m' -> good m' x -> good m x.
Proof.
  intros Hm Hg a b Ha Hb. destruct (marked_lookup _ _ _ _ Hm Hb) as (st & Hst & Hf). destruct (failed b) eqn:E; [|done].
  apply Hf in E. rewrite <- (Hg a (set_status b st)); [done| |done]. by apply (kept_ancestor _ _ (marked_kept _ _ Hm)).
Qed.
Lemma search_marks_trans s1 s2 s3 : search_marks s1 s2 -> search_marks s2 s3 -> search_marks s1 s3.
Proof.
  intros (M1 & U1 & C1 & R1 & B1 & I1) (M2 & U2 & C2 & R2 & B2 & I2). split; [by eapply marked_trans|]. split; [congruence|]. split; [set_solver|]. split.
  - intros x Hx Hnx. destruct (decide (x ∈ setBlockIndexCandidates s2)) as [Hx2|Hx2]; [by apply R2|]. destruct (R1 x Hx Hx2) as (b & Hb & Hf).
    destruct (marked_lookup _ _ _ _ M2 Hb) as (st & Hst & HF). exists (set_status b st). split; [done|by apply HF].
  - split.
    2:{ intros q Hq. destruct (I2 q Hq) as [Hq1|Hq1]; [by apply I1|right]. by apply (kept_is_Some _ _ (marked_kept _ _ M1)). }
    intros x. destruct (B2 x) as [->|Hx]; [apply B1|]. right. intros Hg. destruct (B1 x) as [E|Hn]; [|done]. apply Hx. intros a b Ha Hb.
    apply (kept_ancestor _ _ (marked_kept _ _ M1)) in Ha. destruct (B1 a) as [Ea|Hna]; [rewrite Ea in Hb; by apply (Hg a b)|]. destruct Hna. by eapply good_ancestor.
Qed.

Lemma raise_best_invalid_frame s p s' : raise_best_invalid s p = Ok s' ->
  sel_mem s' = sel_mem s /\ mapBlocksUnlinked s' = mapBlocksUnlinked s /\ setBlockIndexCandidates s' = setBlockIndexCandidates s
  /\ forall q, pindexBestInvalid s' = Some q -> pindexBestInvalid s = Some q \/ is_Some (sel_mem s !! q).
Proof.
  unfold raise_best_invalid. intros E. apply bind_Ok in E as (b & Hb & E). apply bind_Ok in E as (better & _ & E). injection E as <-.
  unfold deref in Hb. destruct (sel_mem s !! p) eqn:Hp; [|done]. destruct better; cbn; (split; [done|]); (split; [done|]); (split; [done|]); intros q Hq; [|by left].
  injection Hq as <-. right. by eexists.
Qed.

Lemma remove_chain_marks fuel : forall s p q s' bq, remove_chain fuel s p q true = Ok s' -> sel_mem s !! q = Some bq -> failed bq = true ->
  is_ancestor (sel_mem s) q p /\ search_marks s s'.
Proof.
  induction fuel as [|fuel IH]; intros s p q s' bq E Hq Hf; cbn [remove_chain] in E; destruct (bool_decide_reflect (q = p)) as [->|Hne]; try done.
  1, 2: injection E as <-; split; [apply is_ancestor_refl|]; split; [apply marked_refl|]; split; [done|]; cbn; split; [apply subseteq_difference_l; done|]; split; [|split; by left];
    intros x Hx Hnx; rewrite (removed_one p x _ Hx Hnx); by exists bq.
  apply bind_Ok in E as (b & Hb & E). unfold deref in Hb. destruct (sel_mem s !! p) as [b0|] eqn:Hp; [|done]. injection Hb as ->.
  destruct (pprev b) as [r|] eqn:Er; [|done]. set (s1 := sel_with_candidates _ _) in E.
  assert (sel_mem s1 = <[p := set_status b (Z.lor (nStatus b) BLOCK_FAILED_CHILD)]> (sel_mem s)) as Em by done.
  destruct (IH s1 r q s' bq E) as [Hqr Hs]; [by rewrite Em, lookup_insert_ne|done|]. assert (marked (sel_mem s) (sel_mem s1)) as Hm by (rewrite Em; by apply marked_insert).
  apply (kept_ancestor _ _ (marked_kept _ _ Hm)) in Hqr. assert (is_ancestor (sel_mem s) q p) as Hqp by (eapply is_ancestor_trans; [exact Hqr|by eapply is_ancestor_parent]).
  split; [done|]. eapply search_marks_trans; [|exact Hs]. split; [done|]. split; [done|]. subst s1. cbn. split; [by apply subseteq_difference_l|]. split.
  - intros x Hx Hnx. rewrite (removed_one p x _ Hx Hnx), lookup_insert_eq. eexists; split; [done|].
    unfold has_flag. cbn [set_status nStatus]. rewrite Z.land_lor_distr_l. apply negb_true_iff, Z.eqb_neq. intros E0. by apply Z.lor_eq_0_iff in E0 as [_ E0].
  - split; [|by left]. intros x. destruct (decide (x = p)) as [->|Hx]; [|left; by rewrite lookup_insert_ne]. right. intros Hg. rewrite (Hg q bq Hqp Hq) in Hf. done.
Qed.

(** The walk found an entry that has failed or has no data. *)
Lemma find_unusable_Ok active m fuel : forall o q f, find_unusable active fuel m o = Ok (Some (q, f)) ->
  exists p bq, o = Some p /\ is_ancestor m q p /\ m !! q = Some bq /\ failed bq = f /\ (f = false -> has_flag bq BLOCK_HAVE_DATA = false).
Proof.
  induction fuel as [|fuel IH]; intros [p|] q f E; cbn [find_unusable] in E; try done; apply bind_Ok in E as (c & _ & E); (destruct c; [done|]);
    apply bind_Ok in E as (b & Hb & E); (unfold deref in Hb; destruct (m !! p) as [b0|] eqn:Hp; [|done]); injection Hb as ->; exists p;
    (destruct (_ && negb _); [done|]); (destruct (failed b || negb _) eqn:Ef;
      [injection E as <- <-; exists b; split; [done|]; split; [apply is_ancestor_refl|]; split; [done|]; split; [done|]; intros E0; rewrite E0 in Ef; by apply negb_true_iff in Ef|]); [done|].
  destruct (IH _ _ _ E) as (r & bq & Er & Hqr & Hrest). exists bq. split; [done|]. split; [|exact Hrest]. eapply is_ancestor_trans; [exact Hqr|by eapply is_ancestor_parent].
Qed.

Lemma best_of_elem m l : forall best r, best_of m best l = Ok r -> r ∈ best :: l.
Proof.
  induction l as [|p l IH]; intros best r E; cbn [best_of] in E; [injection E as <-; by left|].
  apply bind_Ok in E as (less & _ & E). apply IH in E. destruct less; set_solver.
Qed.
Lemma best_candidate_elem s p : best_candidate s = Ok (Some p) -> p ∈ setBlockIndexCandidates s.
Proof.
  unfold best_candidate. destruct (elements (setBlockIndexCandidates s)) as [|c l] eqn:E; [done|]. intros Eb.
  destruct (best_of (sel_mem s) c l) as [r|] eqn:Er; [|done]. injection Eb as ->. apply best_of_elem in Er. rewrite <- E in Er. by apply elem_of_elements.
Qed.

Lemma FindMostWorkChain_marks active fuel : forall s s' r, FindMostWorkChain active fuel s = Ok (s', r) ->
  (forall c a b, c ∈ setBlockIndexCandidates s -> is_ancestor (sel_mem s) a c -> sel_mem s !! a = Some b -> has_flag b BLOCK_HAVE_DATA = true) ->
  search_marks s s'.
Proof.
  induction fuel as [|fuel IH]; intros s s' r E Hd; cbn [FindMostWorkChain] in E; apply bind_Ok in E as (best & Eb & E);
    (destruct best as [p|]; [|injection E as <- _; apply search_marks_refl]); apply bind_Ok in E as (b & Hb & E); apply bind_Ok in E as (bad & Ebad & E);
    (destruct bad as [[q f]|]; [|injection E as <- _; apply search_marks_refl]); [done|].
  destruct (find_unusable_Ok _ _ _ _ _ _ Ebad) as (p' & bq & Ep & Hqp & Hbq & Ef & Hnd). injection Ep as <-. apply best_candidate_elem in Eb.
  destruct f; [|by rewrite (Hd p q bq Eb Hqp Hbq) in Hnd; specialize (Hnd eq_refl)]. apply bind_Ok in E as (s1 & E1 & E). apply bind_Ok in E as (s2 & E2 & E).
  destruct (raise_best_invalid_frame s p s1 E1) as (Em & Eu & Ec & Ei). destruct (remove_chain_marks _ s1 p q s2 bq E2) as [_ Hs]; [by rewrite Em|done|].
  assert (search_marks s s2) as H2.
  { unfold search_marks in *. rewrite Em, Eu, Ec in Hs. destruct Hs as (S1 & S2 & S3 & S4 & S5 & S6). split_and!; try done.
    intros x Hx. destruct (S6 x Hx) as [Hx1|]; [by apply Ei|by right]. }
  eapply search_marks_trans; [exact H2|]. apply (IH s2 s' r E).
  intros c a ba Hc Ha Hba. destruct H2 as (M2 & _ & C2 & _). destruct (marked_lookup_rev _ _ _ _ M2 Hba) as (b0 & st & Hb0 & ->).
  destruct (marked_lookup _ _ _ _ M2 Hb0) as (st' & Hst' & HF). rewrite Hba in Hst'. injection Hst' as Est. rewrite Est. apply HF, (Hd c a b0); [by apply C2| |done].
  by apply (kept_ancestor _ _ (marked_kept _ _ M2)).
Qed.

(** ** The invariant of the call *)

Section Run.
Context (hashGenesisBlock : bytes) (connect : ptr -> connect_outcome) (disconnect : ptr -> bool) (M : Z).

(** Every block of the branch is valid, or so the verdicts do not say otherwise. *)
Definition sound (m : heap) (p : ptr) : Prop := forall a c, is_ancestor m a p -> connect a <> Invalid c.
Definition linked (m : heap) (p : ptr) : Prop := exists b, m !! p = Some b /\ nChainTx b <> 0.

(** A branch without failed and invalid blocks stays without them. *)
Definition moves (m m' : heap) : Prop := kept m m' /\ forall x, good m x -> sound m x -> good m' x.

(** The candidates are complete with respect to [h], the best entry that has been the tip,
    while the chain ends in [tip], which may be below it in the middle of a change. *)
Record act_inv (cs : chain_state) (tip h : ptr) : Prop := mkAct {
  ai_links : links_inv [Some h] h M (cs_select cs) [];
  ai_index : index_ok (sel_mem (cs_select cs));
  ai_root : exists g, forall x, is_Some (sel_mem (cs_select cs) !! x) -> is_ancestor (sel_mem (cs_select cs)) g x;
  ai_chain : chain_ok (sel_mem (cs_select cs)) (cs_active cs) tip;
  ai_invalid : forall p, pindexBestInvalid (cs_select cs) = Some p -> is_Some (sel_mem (cs_select cs) !! p);
  ai_tip : linked (sel_mem (cs_select cs)) tip /\ good (sel_mem (cs_select cs)) tip /\ sound (sel_mem (cs_select cs)) tip;
  ai_high : good (sel_mem (cs_select cs)) h /\ sound (sel_mem (cs_select cs)) h;
}.

Lemma kept_sound m m' p : kept m m' -> (sound m' p <-> sound m p).
Proof. intros K. unfold sound. split; intros H a c Ha; apply H; [by apply (kept_ancestor m m' K)|by apply (kept_ancestor m m' K) in Ha]. Qed.
Lemma kept_linked m m' p : kept m m' -> (linked m' p <-> linked m p).
Proof.
  intros K. split; intros (b & Hb & Hl).
  - destruct (kept_lookup_rev _ _ K p b Hb) as (b' & Hb' & [_ _ E _ _ _ _]). exists b'. split; [done|congruence].
  - destruct (kept_lookup _ _ K p b Hb) as (b' & Hb' & [_ _ E _ _ _ _]). exists b'. split; [done|congruence].
Qed.
Lemma moves_refl m : moves m m.
Proof. split; [apply kept_refl|done]. Qed.
Lemma moves_trans m1 m2 m3 : moves m1 m2 -> moves m2 m3 -> moves m1 m3.
Proof. intros [K1 G1] [K2 G2]. split; [by eapply kept_trans|]. intros x Hg Hs. apply G2; [by apply G1|by apply (kept_sound m1 m2)]. Qed.

Lemma sound_ancestor m a p : sound m p -> is_ancestor m a p -> sound m a.
Proof. intros Hs Ha c k Hc. apply Hs. by eapply is_ancestor_trans. Qed.
Lemma good_self m p b : good m p -> m !! p = Some b -> failed b = false.
Proof. intros Hg Hp. apply (Hg p b); [apply is_ancestor_refl|done]. Qed.

Section Inv.
Context (cs : chain_state) (tip h : ptr) (H : act_inv cs tip h).
Local Abbreviation s := (cs_select cs).
Local Abbreviation m := (sel_mem (cs_select cs)).

Lemma act_tree : tree_ok m.
Proof. apply (ai_index cs tip h H). Qed.
Lemma high_linked : linked m h.
Proof. destruct (li_tip _ _ _ _ _ (ai_links cs tip h H)) as (b & _ & Hb & Hl). by exists b. Qed.
(** Every good entry that is linked is a candidate or worse than the mark. *)
Lemma good_chosen x : linked m x -> good m x -> x ∈ setBlockIndexCandidates s \/ worse m x h.
Proof. intros (b & Hb & Hl) Hg. apply (li_chosen _ _ _ _ _ (ai_links cs tip h H) x b Hb Hl). by eapply good_self. Qed.
Lemma high_candidate : h ∈ setBlockIndexCandidates s.
Proof. destruct (good_chosen h high_linked) as [|Hw]; [apply (ai_high cs tip h H)|done|]. by apply worse_irrefl in Hw. Qed.
Lemma act_Tip : Tip (cs_active cs) = Some tip.
Proof.
  destruct (ai_chain cs tip h H) as (b & Hb & Hl & Hv). unfold Tip. rewrite Hl. cbn [Nat.ltb Nat.leb]. rewrite Hv by lia.
  replace (Z.of_nat (S (Z.to_nat (Chain.nHeight b)) - 1)) with (Chain.nHeight b) by (destruct (act_tree tip b Hb); lia).
  by rewrite (ancestor_at_self _ _ b act_tree Hb).
Qed.
Lemma linked_ancestor x a b : linked m x -> is_ancestor m a x -> m !! a = Some b -> nChainTx b <> 0.
Proof. intros (bx & Hx & Hl) [k Ha] Hb. exact (linked_closed _ _ _ _ _ (ai_links cs tip h H) k x bx Hx Hl a b Ha Hb). Qed.
Lemma linked_data x a b : linked m x -> is_ancestor m a x -> m !! a = Some b -> has_flag b BLOCK_HAVE_DATA = true.
Proof.
  intros Hx Ha Hb. pose proof (li_entry _ _ _ _ _ (ai_links cs tip h H) a b Hb) as [_ _ _ Hl Hd _]. apply Hd, Hl. by eapply linked_ancestor.
Qed.
Lemma candidate_linked c : c ∈ setBlockIndexCandidates s -> linked m c.
Proof. intros Hc. destruct (li_candidates _ _ _ _ _ (ai_links cs tip h H) c Hc) as (b & Hb & Hl). by exists b. Qed.

Lemma usable_good x : linked m x -> (usable tip m x <-> good m x).
Proof.
  intros Hx. split.
  - intros Hu a b Ha Hb. destruct (ai_chain cs tip h H) as (bt & Hbt & _).
    destruct (decide (ancestor_at m tip (Chain.nHeight b) = Some a)) as [E|E]; rewrite (ancestor_at_iff m tip bt a b act_tree Hbt Hb) in E.
    + destruct (ai_tip cs tip h H) as (_ & Hg & _). by apply (Hg a b).
    + by apply (Hu a b Ha Hb E).
  - intros Hg a b Ha Hb _. split; [by apply (Hg a b)|by eapply linked_data].
Qed.

Lemma act_search : search_ok (cs_active cs) tip s.
Proof.
  constructor; [apply act_tree|apply (ai_chain cs tip h H)|apply (ai_links cs tip h H)| |apply (ai_invalid cs tip h H)].
  intros c Hc. pose proof (candidate_linked c Hc) as (b & Hb & Hl). split; [by exists b|]. intros a ba Ha Hba. left. eapply linked_ancestor; [by exists b|done|done].
Qed.

(** A change of the lists that keeps the chain. *)
Lemma act_update s' : moves m (sel_mem s') -> mapBlocksUnlinked s' = mapBlocksUnlinked s -> setBlockIndexCandidates s' ⊆ setBlockIndexCandidates s ->
  (forall x, x ∈ setBlockIndexCandidates s -> (x ∉ setBlockIndexCandidates s') -> (exists b, sel_mem s' !! x = Some b /\ failed b = true) \/ worse m x h) ->
  (forall p, pindexBestInvalid s' = Some p -> is_Some (m !! p)) -> act_inv (mkChain s' (cs_active cs)) tip h.
Proof.
  intros [K G] Eu Hsub Hrem Hinv. destruct high_linked as (bh & Hbh & Hlh). constructor; cbn [cs_select cs_active].
  - eapply kept_links; [apply (ai_links cs tip h H)|exact K|exact Eu|exact Hsub|exact Hrem|done|exact Hbh|exact Hlh|by left].
  - eapply kept_index; [exact K|apply (ai_index cs tip h H)].
  - destruct (ai_root cs tip h H) as (g & Hg). exists g. intros x Hx. apply (kept_ancestor _ _ K), Hg. by apply (kept_is_Some _ _ K).
  - eapply kept_chain_ok; [exact K|apply act_tree|apply (ai_chain cs tip h H)].
  - intros p Hp. apply (kept_is_Some _ _ K). by apply Hinv.
  - destruct (ai_tip cs tip h H) as (Hl & Hg & Hs). split; [by apply (kept_linked _ _ _ K)|]. split; [by apply G|by apply (kept_sound _ _ _ K)].
  - destruct (ai_high cs tip h H) as (Hg & Hs). split; [by apply G|by apply (kept_sound _ _ _ K)].
Qed.
End Inv.

(** *** The search *)

Definition same_good (m m' : heap) : Prop := forall x, good m x -> good m' x.

Lemma search_marks_good s s' : search_marks s s' -> same_good (sel_mem s) (sel_mem s').
Proof.
  intros (Hm & _ & _ & _ & Hb & _). pose proof (marked_kept _ _ Hm) as K. intros x Hg a b Ha Hab. apply (kept_ancestor _ _ K) in Ha.
  destruct (Hb a) as [E|Hn]; [rewrite E in Hab; by apply (Hg a b)|]. destruct Hn. by eapply good_ancestor.
Qed.

(** An entry that no other good one is better than. *)
Definition best_good (m : heap) (p : ptr) : Prop := linked m p /\ good m p /\ forall x, linked m x -> good m x -> x = p \/ worse m x p.

Lemma FindMostWorkChain_act cs tip h : act_inv cs tip h ->
  exists s' p, FindMostWorkChain (cs_active cs) (size (setBlockIndexCandidates (cs_select cs))) (cs_select cs) = Ok (s', Some p)
    /\ act_inv (mkChain s' (cs_active cs)) tip h /\ moves (sel_mem (cs_select cs)) (sel_mem s') /\ same_good (sel_mem (cs_select cs)) (sel_mem s') /\ best_good (sel_mem s') p.
Proof.
  intros H. destruct (FindMostWorkChain_spec (cs_active cs) tip _ (cs_select cs) (act_search cs tip h H) (le_n _)) as (s' & r & E & (Hm & Hus & Hsub & Hrem) & Hr).
  pose proof (FindMostWorkChain_marks _ _ _ _ _ E) as Hsm. assert (search_marks (cs_select cs) s') as Hsearch.
  { apply Hsm. intros c a b Hc Ha Hb. eapply (linked_data cs tip h H); [by apply (candidate_linked cs tip h H)|done|done]. }
  clear Hsm. pose proof (search_marks_good _ _ Hsearch) as Hsg. destruct Hsearch as (Hsm & Eu & Hsub' & Hfl & Hb & Hinv).
  assert (moves (sel_mem (cs_select cs)) (sel_mem s')) as Hmv by (split; [by apply marked_kept|]; intros x Hx _; by apply Hsg).
  assert (h ∈ setBlockIndexCandidates s') as Hh.
  { destruct (decide (h ∈ setBlockIndexCandidates s')) as [|Hn]; [done|]. destruct (Hrem h (high_candidate cs tip h H) Hn).
    apply (usable_good cs tip h H); [apply (high_linked cs tip h H)|apply (ai_high cs tip h H)]. }
  destruct r as [p|]; [|set_solver]. destruct Hr as (Hp & Hup & Hmax). exists s', p. split; [exact E|].
  assert (act_inv (mkChain s' (cs_active cs)) tip h) as H'.
  { apply (act_update cs tip h H); [done|done|done|intros x Hx Hnx; left; by apply Hfl|].
    intros q Hq. destruct (Hinv q Hq) as [Hq'|]; [by apply (ai_invalid cs tip h H)|done]. }
  split; [done|]. split; [done|]. split; [done|].
  assert (linked (sel_mem (cs_select cs)) p) as Hlp by (apply (candidate_linked cs tip h H), Hsub, Hp).
  split; [by apply (kept_linked _ _ _ (proj1 Hmv))|]. split.
  { pose proof (proj1 (usable_good cs tip h H p Hlp) Hup) as Hg. apply Hus in Hup; [|destruct Hlp as (b & Hlb & _); by exists b].
    apply (usable_good _ tip h H'); [by apply (kept_linked _ _ _ (proj1 Hmv))|exact Hup]. }
  intros x Hx Hg. destruct (good_chosen _ tip h H' x Hx Hg) as [Hc|Hw]; rewrite (kept_worse _ _ (proj1 Hmv)); [by apply Hmax|].
  apply (kept_worse _ _ (proj1 Hmv)) in Hw. right. destruct (Hmax h Hh) as [<-|Hhp]; [done|by eapply worse_trans].
Qed.

(** *** Connecting a block *)

Lemma kept_status b undo st : Z.land st BLOCK_FAILED_MASK = Z.land (nStatus b) BLOCK_FAILED_MASK -> Z.land st BLOCK_HAVE_DATA = Z.land (nStatus b) BLOCK_HAVE_DATA ->
  Z.land (nStatus b) BLOCK_VALID_MASK <= Z.land st BLOCK_VALID_MASK -> kept_entry b (set_undo b undo st) /\ failed (set_undo b undo st) = failed b.
Proof.
  intros Ef Ed Ev. assert (failed (set_undo b undo st) = failed b) as E by (unfold has_flag; cbn [set_undo nStatus]; by rewrite Ef). split; [|done].
  constructor; try done; [by rewrite E|]. unfold has_flag. cbn [set_undo nStatus]. by rewrite Ed.
Qed.
Lemma write_undo_kept b undo : kept_entry b (write_undo b undo) /\ failed (write_undo b undo) = failed b.
Proof.
  unfold write_undo. destruct (undo_pos_null b); [|split; [apply kept_entry_refl|done]]. apply kept_status; rewrite Z.land_lor_distr_l.
  - change (Z.land BLOCK_HAVE_UNDO BLOCK_FAILED_MASK) with 0. by rewrite Z.lor_0_r.
  - change (Z.land BLOCK_HAVE_UNDO BLOCK_HAVE_DATA) with 0. by rewrite Z.lor_0_r.
  - change (Z.land BLOCK_HAVE_UNDO BLOCK_VALID_MASK) with 0. by rewrite Z.lor_0_r.
Qed.
Lemma raise_status_kept b : exists st ch, RaiseValidity (nStatus b) BLOCK_VALID_SCRIPTS = Ok (st, ch)
  /\ kept_entry b (set_status b st) /\ failed (set_status b st) = failed b.
Proof.
  unfold RaiseValidity. change (Z.land BLOCK_VALID_SCRIPTS (Z.lnot BLOCK_VALID_MASK) =? 0) with true. cbn [negb].
  destruct (Z.eqb_spec (Z.land (nStatus b) BLOCK_FAILED_MASK) 0) as [E|E]; cbn [negb]; [|eexists _, _; split; [done|]; by apply (kept_status b (nUndoPos b))].
  destruct (Z.ltb_spec (Z.land (nStatus b) BLOCK_VALID_MASK) BLOCK_VALID_SCRIPTS) as [Hlt|Hge]; [|eexists _, _; split; [done|]; by apply (kept_status b (nUndoPos b))].
  eexists _, _. split; [done|]. apply (kept_status b (nUndoPos b)); rewrite Z.land_lor_distr_l, <- Z.land_assoc.
  - change (Z.land (u32 (Z.lnot BLOCK_VALID_MASK)) BLOCK_FAILED_MASK) with BLOCK_FAILED_MASK. change (Z.land BLOCK_VALID_SCRIPTS BLOCK_FAILED_MASK) with 0. by rewrite Z.lor_0_r.
  - change (Z.land (u32 (Z.lnot BLOCK_VALID_MASK)) BLOCK_HAVE_DATA) with BLOCK_HAVE_DATA. change (Z.land BLOCK_VALID_SCRIPTS BLOCK_HAVE_DATA) with 0. by rewrite Z.lor_0_r.
  - change (Z.land (u32 (Z.lnot BLOCK_VALID_MASK)) BLOCK_VALID_MASK) with 0. rewrite Z.land_0_r, Z.lor_0_l. change (Z.land BLOCK_VALID_SCRIPTS BLOCK_VALID_MASK) with BLOCK_VALID_SCRIPTS. lia.
Qed.
Lemma raise_scripts_kept b undo : exists b' dirty, raise_scripts b undo = Ok (b', dirty) /\ kept_entry b b' /\ failed b' = failed b.
Proof.
  unfold raise_scripts, IsValid. change (Z.land BLOCK_VALID_SCRIPTS (Z.lnot BLOCK_VALID_MASK) =? 0) with true. cbn [negb].
  assert (exists valid, (if negb (Z.land (nStatus b) BLOCK_FAILED_MASK =? 0) then Ok false else Ok (BLOCK_VALID_SCRIPTS <=? Z.land (nStatus b) BLOCK_VALID_MASK))
    = Ok (E := fault) valid) as (valid & ->) by (destruct (negb _); eauto). cbn [mbind result_bind].
  destruct (undo_pos_null b || negb valid); [|eexists _, _; split; [done|]; split; [apply kept_entry_refl|done]].
  destruct (write_undo_kept b undo) as [K E]. destruct (raise_status_kept (write_undo b undo)) as (st & ch & -> & K' & E'). cbn [mbind result_bind].
  eexists _, _. split; [done|]. split; [by eapply kept_entry_trans|congruence].
Qed.

(** Entries whose failure does not change. *)
Lemma insert_good m p b b' x : m !! p = Some b -> kept_entry b b' -> failed b' = failed b -> good m x -> good (<[p := b']> m) x.
Proof.
  intros Hp K E Hg a c Ha Hc. apply (kept_ancestor _ _ (kept_insert m p b b' Hp K)) in Ha.
  destruct (decide (a = p)) as [->|Hn]; [rewrite lookup_insert_eq in Hc; injection Hc as <-; rewrite E; by apply (Hg p b)|].
  rewrite lookup_insert_ne in Hc by done. by apply (Hg a c).
Qed.

Lemma note_progress_spec s p b at_ : sel_mem s !! p = Some b ->
  exists s', note_progress hashGenesisBlock s p b at_ = Ok s' /\ kept (sel_mem s) (sel_mem s') /\ (forall x, good (sel_mem s) x -> good (sel_mem s') x)
    /\ setBlockIndexCandidates s' = setBlockIndexCandidates s /\ mapBlocksUnlinked s' = mapBlocksUnlinked s /\ pindexBestInvalid s' = pindexBestInvalid s.
Proof.
  intros Hp. unfold note_progress. destruct (phashBlock b =? le_combine hashGenesisBlock); [exists s; split; [done|]; split; [apply kept_refl|done]|].
  destruct at_ as [|undo|undo]; [exists s; split; [done|]; split; [apply kept_refl|done]|..].
  - destruct (write_undo_kept b undo) as [K E]. eexists; split; [done|]. cbn. split; [by eapply kept_insert|]. split; [|done]. intros x. by eapply insert_good.
  - destruct (raise_scripts_kept b undo) as (b' & dirty & -> & K & E). cbn [mbind result_bind]. eexists; split; [done|]. cbn. split; [by eapply kept_insert|].
    split; [|done]. intros x. by eapply insert_good.
Qed.

Lemma act_note cs tip h p b at_ : act_inv cs tip h -> sel_mem (cs_select cs) !! p = Some b ->
  exists s', note_progress hashGenesisBlock (cs_select cs) p b at_ = Ok s' /\ act_inv (mkChain s' (cs_active cs)) tip h
    /\ moves (sel_mem (cs_select cs)) (sel_mem s') /\ (forall x, good (sel_mem (cs_select cs)) x -> good (sel_mem s') x).
Proof.
  intros H Hp. destruct (note_progress_spec (cs_select cs) p b at_ Hp) as (s' & E & K & G & Ec & Eu & Ei). exists s'. split; [done|].
  assert (moves (sel_mem (cs_select cs)) (sel_mem s')) as Hm by (split; [done|auto]). split; [|done].
  apply (act_update cs tip h H); [done|done|by rewrite Ec|intros x Hx Hnx; by rewrite Ec in Hnx|]. rewrite Ei. apply (ai_invalid cs tip h H).
Qed.

Lemma act_raise_invalid cs tip h p : act_inv cs tip h -> is_Some (sel_mem (cs_select cs) !! p) ->
  exists s', raise_best_invalid (cs_select cs) p = Ok s' /\ act_inv (mkChain s' (cs_active cs)) tip h /\ sel_mem s' = sel_mem (cs_select cs).
Proof.
  intros H Hp. destruct (raise_best_invalid_spec (cs_select cs) p Hp (ai_invalid cs tip h H)) as (s' & E & Em & Ec & Hi). exists s'. split; [done|]. split; [|done].
  destruct (raise_best_invalid_frame _ _ _ E) as (_ & Eu & _). apply (act_update cs tip h H); [rewrite Em; apply moves_refl|done|by rewrite Ec|intros x Hx Hnx; by rewrite Ec in Hnx|exact Hi].
Qed.

(** [InvalidBlockFound] for a block on which [ConnectBlock] says so. *)
Lemma act_invalid cs tip h p b c : act_inv cs tip h -> sel_mem (cs_select cs) !! p = Some b -> connect p = Invalid c ->
  exists s', InvalidBlockFound (cs_active cs) (cs_select cs) p c = Ok s' /\ act_inv (mkChain s' (cs_active cs)) tip h
    /\ moves (sel_mem (cs_select cs)) (sel_mem s')
    /\ if c then s' = cs_select cs else exists b', sel_mem s' !! p = Some b' /\ failed b' = true.
Proof.
  intros H Hp Hc. unfold InvalidBlockFound. destruct c.
  { exists (cs_select cs). split; [done|]. split; [by destruct cs|]. split; [apply moves_refl|done]. }
  rewrite (deref_ok _ _ _ Hp). cbn [mbind result_bind]. set (b' := set_status b _). set (s1 := mkSelect _ _ _ _ _ _ _).
  pose proof (marked_insert _ p b BLOCK_FAILED_VALID Hp) as Hm. pose proof (marked_kept _ _ Hm) as K.
  assert (failed b' = true) as Hf.
  { unfold has_flag. cbn [b' set_status nStatus]. rewrite Z.land_lor_distr_l. apply negb_true_iff, Z.eqb_neq. intros E. by apply Z.lor_eq_0_iff in E as [_ E]. }
  assert (moves (sel_mem (cs_select cs)) (sel_mem s1)) as Hmv.
  { split; [exact K|]. intros x Hg Hs a d Ha Hd. apply (kept_ancestor _ _ K) in Ha. cbn [s1 sel_mem] in Hd. destruct (decide (a = p)) as [->|Hn]; [by destruct (Hs p false Ha)|].
    rewrite lookup_insert_ne in Hd by done. by apply (Hg a d). }
  assert (act_inv (mkChain s1 (cs_active cs)) tip h) as H1.
  { apply (act_update cs tip h H); [done|done|by apply subseteq_difference_l| |apply (ai_invalid cs tip h H)].
    intros x Hx Hnx. left. rewrite (removed_one p x _ Hx Hnx). exists b'. split; [apply lookup_insert_eq|done]. }
  destruct (act_raise_invalid _ tip h p H1) as (s' & E & H' & Em); [cbn [s1 cs_select sel_mem]; rewrite lookup_insert_eq; by eexists|].
  cbn [cs_select] in E, Em. rewrite E. cbn [mbind result_bind]. rewrite (act_Tip cs tip h H). exists s'. split; [done|]. split; [exact H'|]. rewrite Em. split; [done|].
  exists b'. split; [apply lookup_insert_eq|done].
Qed.

(** The chain moves to another entry. *)
Lemma act_set_tip cs tip h p : act_inv cs tip h -> linked (sel_mem (cs_select cs)) p -> good (sel_mem (cs_select cs)) p -> sound (sel_mem (cs_select cs)) p ->
  exists active, SetTip (sel_mem (cs_select cs)) (cs_active cs) (Some p) = Ok active /\ act_inv (mkChain (cs_select cs) active) p h.
Proof.
  intros H Hl Hg Hs. pose proof Hl as (b & Hb & _). destruct (SetTip_spec _ (cs_active cs) p b (act_tree cs tip h H) Hb) as (active & E & Hc); [right; exists tip; apply (ai_chain cs tip h H)|].
  exists active. split; [done|]. destruct H as [? ? ? ? ? ? ?]. by constructor.
Qed.

Lemma ConnectTip_act cs tip h p b : act_inv cs tip h -> sel_mem (cs_select cs) !! p = Some b -> pprev b = Some tip -> nChainTx b <> 0 -> good (sel_mem (cs_select cs)) p ->
  exists cs' r, ConnectTip hashGenesisBlock connect cs p = Ok (cs', r) /\ moves (sel_mem (cs_select cs)) (sel_mem (cs_select cs')) /\
    match r with
    | TipConnected => act_inv cs' p h /\ (exists undo, connect p = Connected undo) /\ forall x, good (sel_mem (cs_select cs)) x -> good (sel_mem (cs_select cs')) x
    | TipInvalid c => act_inv cs' tip h /\ connect p = Invalid c /\ if c then cs' = cs else exists b', sel_mem (cs_select cs') !! p = Some b' /\ failed b' = true
    | TipFailed => act_inv cs' tip h /\ exists at_, connect p = SystemError at_
    end.
Proof.
  intros H Hp Ep Hl Hg. unfold ConnectTip. rewrite (deref_ok _ _ _ Hp). cbn [mbind result_bind]. rewrite Ep, (act_Tip cs tip h H), bool_decide_true by done. cbn [negb].
  destruct (connect p) as [undo|c|at_] eqn:Hc.
  - destruct (act_note cs tip h p b (AfterRaise undo) H Hp) as (s' & -> & H' & Hm & Hgood). cbn [mbind result_bind].
    destruct (act_set_tip _ tip h p H') as (active & E & Ha); cbn [cs_select cs_active] in *.
    + apply (kept_linked _ _ _ (proj1 Hm)). by exists b.
    + by apply Hgood.
    + apply (kept_sound _ _ _ (proj1 Hm)). intros a c Ha. destruct (decide (a = p)) as [->|Hn]; [by rewrite Hc|].
      destruct (is_ancestor_step _ a p b Hp Ha Hn) as (q & Eq & Haq). assert (q = tip) as -> by congruence. by apply (ai_tip cs tip h H).
    + rewrite E. cbn [mbind result_bind]. eexists _, _. split; [done|]. split; [done|]. split; [exact Ha|]. split; [by exists undo|done].
  - destruct (act_invalid cs tip h p b c H Hp Hc) as (s' & -> & H' & Hm & Hres). cbn [mbind result_bind]. eexists _, _. split; [done|]. split; [done|].
    split; [exact H'|]. split; [done|]. destruct c; [|exact Hres]. rewrite Hres. by destruct cs.
  - destruct (act_note cs tip h p b at_ H Hp) as (s' & -> & H' & Hm & _). cbn [mbind result_bind]. eexists _, _. split; [done|]. split; [done|]. split; [exact H'|]. by exists at_.
Qed.

(** *** Dropping worse candidates *)

Lemma worse_than_spec m tip l : works_ok m -> is_Some (m !! tip) -> (forall x, x ∈ l -> is_Some (m !! x)) ->
  exists l', worse_than m tip l = Ok l' /\ forall x, x ∈ l' <-> x ∈ l /\ worse m x tip.
Proof.
  intros Hw Ht. induction l as [|p l IH]; intros Hl; cbn [worse_than]; [exists []; split; [done|]; intros x; rewrite elem_of_nil; tauto|].
  destruct (work_less_spec m p tip Hw) as (less & -> & Hless); [apply Hl; by left|done|]. cbn [mbind result_bind].
  destruct IH as (l' & -> & Hl'); [intros x Hx; apply Hl; by right|]. cbn [mbind result_bind]. eexists; split; [done|]. intros x. rewrite elem_of_cons.
  destruct less; rewrite ?elem_of_cons, Hl'; [split; [|tauto]; intros [->|[]]; [split; [by left|by apply Hless]|tauto]|].
  split; [tauto|]. intros [[->|]]; [by apply Hless in H|tauto].
Qed.

Lemma PruneBlockIndexCandidates_act cs tip h : act_inv cs tip h ->
  exists s' h', PruneBlockIndexCandidates (cs_active cs) (cs_select cs) = Ok s' /\ act_inv (mkChain s' (cs_active cs)) tip h' /\ sel_mem s' = sel_mem (cs_select cs).
Proof.
  intros H. unfold PruneBlockIndexCandidates. rewrite (act_Tip cs tip h H). destruct (ai_tip cs tip h H) as ((bt & Hbt & Hlt) & Hgt & Hst). destruct (high_linked cs tip h H) as (bh & Hbh & Hlh).
  destruct (worse_than_spec (sel_mem (cs_select cs)) tip (elements (setBlockIndexCandidates (cs_select cs)))) as (l & -> & Hl);
    [apply (ai_links cs tip h H)|by exists bt|intros x Hx; apply elem_of_elements in Hx; destruct (candidate_linked cs tip h H x Hx) as (b & Hb & _); by exists b|].
  cbn [mbind result_bind]. set (left_ := setBlockIndexCandidates (cs_select cs) ∖ list_to_set l).
  assert (forall x, x ∈ left_ <-> x ∈ setBlockIndexCandidates (cs_select cs) /\ ~ worse (sel_mem (cs_select cs)) x tip) as Hleft.
  { intros x. subst left_. rewrite elem_of_difference, elem_of_list_to_set, Hl, elem_of_elements. tauto. }
  assert (exists h', h' ∈ left_ /\ (h' = h \/ worse (sel_mem (cs_select cs)) h h') /\ (h' = h \/ h' = tip) /\ (h' = tip \/ worse (sel_mem (cs_select cs)) tip h')) as (h' & Hin & Hup & Hcase & Htip).
  { destruct (worse_total (sel_mem (cs_select cs)) h tip) as [->|[Hw|Hw]]; [by exists bh|by exists bt|..].
    - exists tip. split; [|by auto]. apply Hleft. split; [apply (high_candidate cs tip tip H)|apply worse_irrefl].
    - exists tip. split; [|by auto]. apply Hleft. split; [|apply worse_irrefl]. destruct (good_chosen cs tip h H tip) as [|Hw']; [by exists bt|done|done|].
      exfalso. eapply worse_irrefl. by eapply worse_trans.
    - exists h. split; [|by auto]. apply Hleft. split; [apply (high_candidate cs tip h H)|]. intros Hw'. eapply worse_irrefl. by eapply worse_trans. }
  rewrite bool_decide_false by (intros E; rewrite E in Hin; by apply elem_of_empty in Hin). exists (sel_with_candidates (cs_select cs) left_), h'. split; [done|]. split; [|done].
  assert (exists b', sel_mem (cs_select cs) !! h' = Some b' /\ nChainTx b' <> 0) as (b' & Hb' & Hlb') by (destruct Hcase as [->| ->]; eauto).
  constructor; cbn [cs_select cs_active sel_with_candidates sel_mem pindexBestInvalid]; try apply H.
  - eapply kept_links; [apply (ai_links cs tip h H)|apply kept_refl|done|intros x; cbn; rewrite Hleft; tauto| |done|exact Hb'|exact Hlb'|exact Hup].
    cbn. intros x Hx Hnx. right. rewrite Hleft in Hnx.
    destruct (work_less_spec (sel_mem (cs_select cs)) x tip) as (r & _ & Hr); [apply (ai_links cs tip h H)|destruct (candidate_linked cs tip h H x Hx) as (b & Hb & _); by exists b|by exists bt|].
    assert (worse (sel_mem (cs_select cs)) x tip) as Hw by (destruct r; [by apply Hr|destruct Hnx; split; [done|]; intros E; by apply Hr in E]).
    destruct Htip as [->|]; [done|by eapply worse_trans].
  - destruct Hcase as [->| ->]; [apply (ai_high cs tip h H)|done].
Qed.

(** *** Disconnecting *)

Lemma DisconnectTip_act cs tip h b q : act_inv cs tip h -> sel_mem (cs_select cs) !! tip = Some b -> pprev b = Some q ->
  if disconnect tip then exists cs', DisconnectTip disconnect cs = Ok (cs', true) /\ cs_select cs' = cs_select cs /\ act_inv cs' q h
  else DisconnectTip disconnect cs = Ok (cs, false).
Proof.
  intros H Hb Eq. unfold DisconnectTip. rewrite (act_Tip cs tip h H), (deref_ok _ _ _ Hb). cbn [mbind result_bind]. destruct (disconnect tip); [|done].
  pose proof (is_ancestor_parent _ tip b q Hb Eq) as Ha. destruct (ai_tip cs tip h H) as (Hl & Hg & Hs). rewrite Eq.
  destruct (act_tree cs tip h H tip b Hb) as [_ Hprev]. rewrite Eq in Hprev. destruct Hprev as (bq & Hbq & _).
  destruct (act_set_tip cs tip h q H) as (active & -> & H'); [exists bq; split; [done|by eapply (linked_ancestor cs tip h H tip q)]|by eapply good_ancestor|by eapply sound_ancestor|].
  cbn [mbind result_bind]. eexists; split; [done|]. split; [done|exact H'].
Qed.

Lemma disconnect_to_act fuel : forall cs tip h f b bf, act_inv cs tip h -> sel_mem (cs_select cs) !! tip = Some b -> sel_mem (cs_select cs) !! f = Some bf ->
  is_ancestor (sel_mem (cs_select cs)) f tip -> Chain.nHeight b <= Chain.nHeight bf + Z.of_nat fuel ->
  exists cs' ok, disconnect_to disconnect fuel cs (Some f) = Ok (cs', ok) /\ cs_select cs' = cs_select cs
    /\ if ok : bool then act_inv cs' f h else (exists t, act_inv cs' t h) /\ exists t, disconnect t = false.
Proof.
  induction fuel as [|fuel IH]; intros cs tip h f b bf H Hb Hbf Ha Hh; cbn [disconnect_to]; rewrite (act_Tip cs tip h H);
    (destruct (decide (tip = f)) as [->|Hn]; [rewrite bool_decide_true by done; eexists _, _; split; [done|]; split; [done|exact H]|]);
    rewrite bool_decide_false by congruence; destruct (is_ancestor_step _ f tip b Hb Ha (not_eq_sym Hn)) as (q & Eq & Hfq);
    destruct (act_tree cs tip h H tip b Hb) as [_ Hprev]; rewrite Eq in Hprev; destruct Hprev as (bq & Hbq & Hhq);
    destruct Hfq as [n Hfn]; destruct (prevs_height _ n q f bq (act_tree cs tip h H) Hbq Hfn) as (bf' & Hbf' & Hhf & _); assert (bf' = bf) as -> by congruence; [lia|].
  pose proof (DisconnectTip_act cs tip h b q H Hb Eq) as HD. destruct (disconnect tip) eqn:Ed.
  - destruct HD as (cs1 & -> & Es & H1). cbn [mbind result_bind]. destruct (IH cs1 q h f bq bf H1) as (cs' & ok & -> & Es' & Hok); rewrite ?Es; [done|done|by exists n|lia|].
    eexists _, _. split; [done|]. split; [congruence|exact Hok].
  - rewrite HD. cbn [mbind result_bind]. eexists _, _. split; [done|]. split; [done|]. split; [by exists tip|by exists tip].
Qed.

(** *** The blocks to connect *)

(** [l] leads from [f] up to [p]. *)
Fixpoint path (m : heap) (f : ptr) (l : list ptr) (p : ptr) : Prop :=
  match l with
  | [] => f = p
  | x :: l => (exists b, m !! x = Some b /\ pprev b = Some f) /\ path m x l p
  end.

Lemma path_snoc m l : forall f q p b, path m f l q -> m !! p = Some b -> pprev b = Some q -> path m f (l ++ [p]) p.
Proof.
  induction l as [|x l IH]; intros f q p b Hl Hp Eq; cbn in *; [subst; split; [by exists b|done]|]. destruct Hl as [Hx Hl]. split; [done|]. by eapply IH.
Qed.
Lemma path_ancestor m l : forall f p, path m f l p -> is_ancestor m f p.
Proof.
  induction l as [|x l IH]; intros f p Hl; cbn in Hl; [subst; apply is_ancestor_refl|]. destruct Hl as [(b & Hx & Ef) Hl].
  eapply is_ancestor_trans; [by eapply is_ancestor_parent|by apply IH].
Qed.
Lemma kept_path m m' l : kept m m' -> forall f p, path m f l p -> path m' f l p.
Proof.
  intros K. induction l as [|x l IH]; intros f p Hl; cbn in *; [done|]. destruct Hl as [(b & Hx & Ef) Hl]. split; [|by apply IH].
  destruct (kept_lookup _ _ K x b Hx) as (b' & Hx' & [E _ _ _ _ _ _]). injection E as ? Ep ? ? ? ? ? ?. exists b'. split; [done|congruence].
Qed.

Lemma to_connect_spec m f bf fuel : forall p b acc, tree_ok m -> m !! f = Some bf -> m !! p = Some b -> is_ancestor m f p ->
  Chain.nHeight b <= Chain.nHeight bf + Z.of_nat fuel ->
  exists l, to_connect fuel m (Some p) (Chain.nHeight bf) acc = Ok (l ++ acc) /\ path m f l p /\ (f <> p -> l <> []).
Proof.
  induction fuel as [|fuel IH]; intros p b acc Ht Hf Hp Ha Hh; cbn [to_connect]; rewrite (deref_ok _ _ _ Hp); cbn [mbind result_bind];
    pose proof Ha as [n Hn]; destruct (prevs_height _ n p f b Ht Hp Hn) as (bf' & Hbf' & Hhf & _); assert (bf' = bf) as -> by congruence;
    (destruct (Z.eqb_spec (Chain.nHeight b) (Chain.nHeight bf)) as [E|E];
      [assert (f = p) as -> by (by eapply (is_ancestor_same_height m p f)); exists []; split; [done|]; split; [done|done]|]); [lia|].
  destruct (decide (f = p)) as [->|Hne]; [congruence|]. destruct (is_ancestor_step m f p b Hp Ha Hne) as (q & Eq & Hfq).
  destruct (Ht p b Hp) as [_ Hprev]. rewrite Eq in *. destruct Hprev as (bq & Hbq & Hhq). destruct (IH q bq (p :: acc) Ht Hf Hbq Hfq) as (l & -> & Hl & _); [lia|].
  exists (l ++ [p]). rewrite <- app_assoc. split; [done|]. split; [by eapply path_snoc|]. intros _. by destruct l.
Qed.

(** *** A step *)

Definition disk_failed : Prop := (exists p at_, connect p = SystemError at_) \/ exists p, disconnect p = false.

(** What a step towards [goal] from [tip] leads to. *)
Definition step_to (m : heap) (tip goal : ptr) (cs' : chain_state) (r : step_result) : Prop :=
  exists tip' h', act_inv cs' tip' h' /\ moves m (sel_mem (cs_select cs'))
    /\ match r with
       | StepContinue => tip' = goal /\ same_good m (sel_mem (cs_select cs'))
       | StepBetter => same_good m (sel_mem (cs_select cs')) /\ is_ancestor m tip' goal /\ is_ancestor m tip tip' /\ tip' <> tip
       | StepInvalid => exists p c b, connect p = Invalid c /\ m !! p = Some b /\ failed b = false
           /\ (c = false -> exists b', sel_mem (cs_select cs') !! p = Some b' /\ failed b' = true)
       | StepFailed => disk_failed
       end.

Lemma kept_good m m' x : kept m m' -> good m' x -> good m x.
Proof.
  intros K Hg a b Ha Hb. destruct (kept_lookup _ _ K a b Hb) as (b' & Hb' & [_ _ _ _ Ef _ _]). destruct (failed b) eqn:E; [|done].
  rewrite <- (Hg a b'); [symmetry; by apply Ef|by apply (kept_ancestor _ _ K)|done].
Qed.

(** Steps one after the other. *)
Lemma step_to_trans m1 m2 tip mid goal cs' r : moves m1 m2 -> same_good m1 m2 -> is_ancestor m1 tip mid -> (mid <> tip -> forall x, is_ancestor m1 mid x -> x <> tip) ->
  step_to m2 mid goal cs' r -> step_to m1 tip goal cs' r.
Proof.
  intros Hm Hg Ha Hne (tip' & h' & H' & Hm' & Hr). exists tip', h'. split; [done|]. split; [by eapply moves_trans|]. pose proof (proj1 Hm) as K. destruct r.
  - destruct Hr as [-> Hg']. split; [done|]. intros x Hx. by apply Hg', Hg.
  - destruct Hr as (Hg' & Ht & Hmid & Hn). rewrite (kept_ancestor _ _ K) in Ht, Hmid. split; [intros x Hx; by apply Hg', Hg|]. split; [done|].
    split; [by eapply is_ancestor_trans|]. destruct (decide (mid = tip)) as [->|Hmt]; [done|by apply Hne].
  - destruct Hr as (p & c & b & Hc & Hb & Hf & Hrest). destruct (kept_lookup_rev _ _ K p b Hb) as (b0 & Hb0 & [_ _ _ _ Ef _ _]). exists p, c, b0.
    split; [done|]. split; [done|]. split; [|done]. destruct (failed b0) eqn:E; [|done]. by rewrite Ef in Hf.
  - done.
Qed.

(** Nothing above an entry is the entry's child. *)
Lemma above_child m tip b x y : tree_ok m -> m !! x = Some b -> pprev b = Some tip -> is_Some (m !! y) -> is_ancestor m x y -> y <> tip.
Proof.
  intros Ht Hx Ep [by_ Hy] [n Hn] ->. destruct (prevs_height m n tip x by_ Ht Hy Hn) as (bx & Hbx & Hh & _). assert (bx = b) as -> by congruence.
  destruct (Ht x b Hx) as [_ Hprev]. rewrite Ep in Hprev. destruct Hprev as (bt & Hbt & Hht). assert (bt = by_) as -> by congruence. lia.
Qed.

Lemma connect_blocks_act l : forall cs tip h q first old, act_inv cs tip h -> path (sel_mem (cs_select cs)) tip l q -> linked (sel_mem (cs_select cs)) q ->
  good (sel_mem (cs_select cs)) q -> is_Some (sel_mem (cs_select cs) !! first) -> is_Some (sel_mem (cs_select cs) !! old) ->
  exists cs' r, connect_blocks hashGenesisBlock connect cs first l (Some old) = Ok (cs', r) /\ step_to (sel_mem (cs_select cs)) tip q cs' r.
Proof.
  induction l as [|p l IH]; intros cs tip h q first old H Hpath Hl Hg Hfirst Hold; cbn [connect_blocks].
  { eexists _, _. split; [done|]. exists tip, h. split; [done|]. split; [apply moves_refl|]. split; [exact Hpath|by intros x]. }
  cbn in Hpath. destruct Hpath as [(b & Hb & Ep) Hpath]. pose proof (path_ancestor _ _ _ _ Hpath) as Hpq. pose proof (is_ancestor_parent _ p b tip Hb Ep) as Htp.
  assert (p <> tip) as Hne by (eapply above_child; [apply (act_tree cs tip h H)|exact Hb|exact Ep|by exists b|apply is_ancestor_refl]).
  destruct (ConnectTip_act cs tip h p b H Hb Ep) as (cs1 & r & -> & Hm & Hr); [by eapply (linked_ancestor cs tip h H q p)|by eapply good_ancestor|]. cbn [mbind result_bind].
  pose proof (proj1 Hm) as K. destruct r as [|c|].
  - destruct Hr as (H1 & _ & Hg1). destruct (PruneBlockIndexCandidates_act cs1 p h H1) as (s2 & h2 & -> & H2 & Em). cbn [mbind result_bind cs_select cs_active].
    rewrite (act_Tip cs1 p h H1). destruct Hold as [bo Hbo]. destruct (kept_lookup _ _ K old bo Hbo) as (bo' & Hbo' & _).
    destruct (kept_lookup _ _ K p b Hb) as (b' & Hb' & _). rewrite Em, (deref_ok _ _ _ Hbo'), (deref_ok _ _ _ Hb'). cbn [mbind result_bind]. destruct (_ >? 0).
    + eexists _, _. split; [done|]. exists p, h2. split; [exact H2|]. cbn [cs_select]. rewrite Em. split; [done|]. done.
    + destruct (IH (mkChain s2 (cs_active cs1)) p h2 q first old H2) as (cs' & r & -> & Hstep); cbn [cs_select]; rewrite ?Em.
      * by eapply kept_path.
      * by apply (kept_linked _ _ _ K).
      * by apply Hg1.
      * by apply (kept_is_Some _ _ K).
      * by exists bo'.
      * eexists _, _. split; [done|]. eapply step_to_trans; [exact Hm|exact Hg1|exact Htp| |cbn [cs_select] in Hstep; rewrite Em in Hstep; exact Hstep].
        intros _ x Hx ->. destruct (ai_tip cs tip h H) as ((bt & Hbt & _) & _). exact (above_child _ tip b p tip (act_tree cs tip h H) Hb Ep ltac:(by exists bt) Hx eq_refl).
  - destruct Hr as (H1 & Hc & Hres). assert (failed b = false) as Hfb by (apply (Hg p b); [done|done]). destruct c.
    + subst cs1. eexists _, _. split; [done|]. exists tip, h. split; [done|]. split; [done|]. exists p, true, b. done.
    + destruct (act_raise_invalid cs1 tip h first H1) as (s2 & -> & H2 & Em); [by apply (kept_is_Some _ _ K)|]. cbn [mbind result_bind]. rewrite (act_Tip cs1 tip h H1).
      eexists _, _. split; [done|]. exists tip, h. split; [exact H2|]. cbn [cs_select]. rewrite Em. split; [done|]. exists p, false, b. done.
  - destruct Hr as [H1 (at_ & Hc)]. eexists _, _. split; [done|]. exists tip, h. split; [exact H1|]. split; [done|]. left. by exists p, at_.
Qed.

Lemma connect_loop_act fuel : forall cs tip h most bt bm old, act_inv cs tip h -> sel_mem (cs_select cs) !! tip = Some bt -> sel_mem (cs_select cs) !! most = Some bm ->
  is_ancestor (sel_mem (cs_select cs)) tip most -> linked (sel_mem (cs_select cs)) most -> good (sel_mem (cs_select cs)) most -> is_Some (sel_mem (cs_select cs) !! old) ->
  Chain.nHeight bm <= Chain.nHeight bt + Z.of_nat fuel ->
  exists cs' r, connect_loop hashGenesisBlock connect fuel cs most (Chain.nHeight bt) (Some old) = Ok (cs', r) /\ step_to (sel_mem (cs_select cs)) tip most cs' r.
Proof.
  induction fuel as [|fuel IH]; intros cs tip h most bt bm old H Hbt Hbm Ha Hl Hg Hold Hf; cbn [connect_loop]; rewrite (deref_ok _ _ _ Hbm); cbn [mbind result_bind];
    pose proof (act_tree cs tip h H) as Ht; pose proof Ha as [n Hn]; destruct (prevs_height _ n most tip bm Ht Hbm Hn) as (bt' & Hbt' & Hh & H0); assert (bt' = bt) as -> by congruence;
    (destruct (Z.eqb_spec (Chain.nHeight bt) (Chain.nHeight bm)) as [E|E]; [assert (tip = most) as <- by (by eapply (is_ancestor_same_height _ most tip));
      eexists _, _; split; [done|]; exists tip, h; split; [done|]; split; [apply moves_refl|]; split; [done|by intros x]|]); [lia|].
  set (target := Z.min (Chain.nHeight bt + 32) (Chain.nHeight bm)).
  assert (Chain.nHeight bt < target <= Chain.nHeight bt + 32 /\ target <= Chain.nHeight bm) as Htarget by (subst target; lia). rewrite (GetAncestor_spec _ most bm _ (ai_index cs tip h H) Hbm). cbn [mbind result_bind].
  destruct (ancestor_at_total _ most bm target Ht Hbm ltac:(lia)) as (q & bq & -> & Hbq & Hhq & Hqn).
  assert (is_ancestor (sel_mem (cs_select cs)) q most) as Hqm by (by eexists). assert (is_ancestor (sel_mem (cs_select cs)) tip q) as Htq.
  { apply (ancestor_at_iff _ q bq tip bt Ht Hbq Hbt). rewrite <- (ancestor_at_trans _ most bm q bq (Chain.nHeight bt) Ht Hbm Hbq ltac:(lia)); [by apply (ancestor_at_iff _ most bm tip bt)|].
    by apply (ancestor_at_iff _ most bm q bq). }
  destruct (to_connect_spec _ tip bt 32 q bq [] Ht Hbt Hbq Htq) as (l & -> & Hpath & _); [lia|]. rewrite app_nil_r. cbn [mbind result_bind].
  assert (linked (sel_mem (cs_select cs)) q) as Hlq by (exists bq; split; [done|by eapply (linked_ancestor cs tip h H most q)]).
  destruct (connect_blocks_act l cs tip h q (default most (head l)) old H Hpath Hlq) as (cs1 & r & -> & Hstep); [by eapply good_ancestor| |done|].
  { destruct l as [|x l]; cbn; [by exists bm|]. cbn in Hpath. destruct Hpath as [(bx & Hx & _) _]. by exists bx. }
  cbn [mbind result_bind]. destruct Hstep as (tip1 & h1 & H1 & Hm & Hr). pose proof (proj1 Hm) as K. destruct r.
  - destruct Hr as [-> Hg1]. destruct (kept_lookup _ _ K q bq Hbq) as (bq' & Hbq' & [Eq _ _ _ _ _ _]). injection Eq as ? ? ? Eh ? ? ? ?.
    destruct (kept_lookup _ _ K most bm Hbm) as (bm' & Hbm' & [Em _ _ _ _ _ _]). injection Em as ? ? ? Ehm ? ? ? ?. fold target. rewrite <- Hhq, <- Eh.
    destruct (IH cs1 q h1 most bq' bm' old H1 Hbq' Hbm') as (cs' & r & -> & Hstep');
      [by apply (kept_ancestor _ _ K)|by apply (kept_linked _ _ _ K)|by apply Hg1|by apply (kept_is_Some _ _ K)|lia|].
    eexists _, _. split; [done|]. eapply step_to_trans; [exact Hm|exact Hg1|exact Htq| |exact Hstep']. intros _ x [k Hx] ->.
    destruct (prevs_height _ k tip q bt Ht Hbt Hx) as (? & Hq2 & Hk & _). assert (x = bq) as -> by congruence. lia.
  - eexists _, _. split; [done|]. exists tip1, h1. split; [done|]. split; [done|]. destruct Hr as (Hg1 & Hq1 & Hrest). split; [done|]. split; [by eapply is_ancestor_trans|done].
  - eexists _, _. split; [done|]. exists tip1, h1. done.
  - eexists _, _. split; [done|]. exists tip1, h1. done.
Qed.

Lemma ActivateBestChainStep_act cs tip h p : act_inv cs tip h -> linked (sel_mem (cs_select cs)) p -> good (sel_mem (cs_select cs)) p ->
  exists cs' r f, ActivateBestChainStep hashGenesisBlock connect disconnect cs p = Ok (cs', r) /\ (is_ancestor (sel_mem (cs_select cs)) tip p -> f = tip)
    /\ step_to (sel_mem (cs_select cs)) f p cs' r.
Proof.
  intros H Hl Hg. pose proof Hl as (bp & Hbp & _). pose proof (act_tree cs tip h H) as Ht. destruct (ai_tip cs tip h H) as ((bt & Hbt & _) & _).
  unfold ActivateBestChainStep. destruct (FindFork_spec _ (cs_active cs) tip p bp (ai_index cs tip h H) (ai_chain cs tip h H) Hbp) as (r & -> & Hlca). cbn [mbind result_bind].
  destruct (ai_root cs tip h H) as (g & Hroot). destruct r as [f|]; [|by destruct (proj1 (Hlca g)); split; apply Hroot; eexists].
  destruct (proj2 (Hlca f) (is_ancestor_refl _ f)) as [Hft Hfp]. cbn [anc_opt] in Hft, Hfp. pose proof Hft as [n Hn].
  destruct (prevs_height _ n tip f bt Ht Hbt Hn) as (bf & Hbf & Hhf & Hf0). rewrite (act_Tip cs tip h H).
  destruct (disconnect_to_act (length (cs_active cs)) cs tip h f bt bf H Hbt Hbf Hft) as (cs1 & ok & -> & Es & Hok).
  { destruct (ai_chain cs tip h H) as (bt' & Hbt' & -> & _). assert (bt' = bt) as -> by congruence. lia. }
  cbn [mbind result_bind]. assert (is_ancestor (sel_mem (cs_select cs)) tip p -> f = tip) as Hsame.
  { intros Hanc. assert (is_ancestor (sel_mem (cs_select cs)) tip f) as [k Hk] by (apply (proj1 (Hlca tip)); split; [apply is_ancestor_refl|exact Hanc]).
    destruct (prevs_height _ k f tip bf Ht Hbf Hk) as (bt' & Hbt' & Hh & _). assert (bt' = bt) as -> by congruence. eapply (is_ancestor_same_height _ tip f); [done|done|done|lia|done]. }
  destruct ok; cbn [negb].
  - rewrite (deref_ok _ _ _ Hbf), (deref_ok _ _ _ Hbp). cbn [mbind result_bind].
    destruct (connect_loop_act (Z.to_nat (Chain.nHeight bp - Chain.nHeight bf)) cs1 f h p bf bp tip Hok) as (cs' & r & -> & Hstep); rewrite ?Es; try done; [lia|].
    exists cs', r, f. split; [done|]. split; [done|]. by rewrite <- Es.
  - destruct Hok as ((t & H1) & Hd). exists cs1, StepFailed, f. split; [done|]. split; [done|]. exists t, h. split; [done|]. rewrite Es. split; [apply moves_refl|by right].
Qed.

(** *** The whole call *)

(** The entries that have not failed: every invalid block takes one away. *)
Definition unfailed (m : heap) : gset ptr := dom (filter (fun x => failed x.2 = false) m).

Lemma unfailed_spec m p : p ∈ unfailed m <-> exists b, m !! p = Some b /\ failed b = false.
Proof.
  unfold unfailed. rewrite elem_of_dom. split.
  - intros [b Hb]. apply map_lookup_filter_Some in Hb as [Hb Hf]. by exists b.
  - intros (b & Hb & Hf). exists b. by apply map_lookup_filter_Some.
Qed.
Lemma kept_unfailed m m' : kept m m' -> unfailed m' ⊆ unfailed m.
Proof.
  intros K p. rewrite !unfailed_spec. intros (b' & Hb' & Hf). destruct (kept_lookup_rev _ _ K p b' Hb') as (b & Hb & [_ _ _ _ Ef _ _]). exists b. split; [done|].
  destruct (failed b); [by rewrite Ef in Hf|done].
Qed.

Definition cs_mem (cs : chain_state) : heap := sel_mem (cs_select cs).

(** The call ends, with a best tip unless the disk failed. *)
Definition ends (cs : chain_state) (most : option ptr) : Prop :=
  exists n cs' ok, (forall fuel, (n <= fuel)%nat -> ActivateBestChain hashGenesisBlock connect disconnect fuel cs most = Ok (cs', ok))
    /\ moves (cs_mem cs) (cs_mem cs')
    /\ if ok : bool then exists T h, act_inv cs' T h /\ best_good (cs_mem cs') T else disk_failed /\ exists t h, act_inv cs' t h.

(** A first step that keeps the heap in order, followed by a call that ends. *)
Lemma ends_step cs cs1 most most1 : moves (cs_mem cs) (cs_mem cs1) -> ends cs1 most1 ->
  (forall fuel, ActivateBestChain hashGenesisBlock connect disconnect (S fuel) cs most = ActivateBestChain hashGenesisBlock connect disconnect fuel cs1 most1) -> ends cs most.
Proof.
  intros Hm (n & cs' & ok & E & Hm' & Hok) Hstep. exists (S n), cs', ok. split; [|split; [by eapply moves_trans|done]].
  intros [|fuel] Hf; [lia|]. rewrite Hstep. apply E. lia.
Qed.
Lemma ends_now cs most cs' ok : moves (cs_mem cs) (cs_mem cs') ->
  (if ok : bool then exists T h, act_inv cs' T h /\ best_good (cs_mem cs') T else disk_failed /\ exists t h, act_inv cs' t h) ->
  (forall fuel, ActivateBestChain hashGenesisBlock connect disconnect (S fuel) cs most = Ok (cs', ok)) -> ends cs most.
Proof. intros Hm Hok Hstep. exists 1%nat, cs', ok. split; [|done]. intros [|fuel] Hf; [lia|]. apply Hstep. Qed.

Lemma best_good_moves m m' p : moves m m' -> same_good m m' -> best_good m p -> best_good m' p.
Proof.
  intros [K _] Hg (Hl & Hgp & Hmax). split; [by apply (kept_linked _ _ _ K)|]. split; [by apply Hg|]. intros x Hx Hgx. rewrite (kept_worse _ _ K).
  apply Hmax; [by apply (kept_linked _ _ _ K)|by eapply kept_good].
Qed.

Section Loop.
(** No data on disk is corrupt. *)
Context (Hcorrupt : forall p, connect p <> Invalid true).
Context (k : nat) (IHk : forall cs tip h, act_inv cs tip h -> (size (unfailed (cs_mem cs)) < k)%nat -> ends cs None).

(** The step towards [p], and what comes after it.  [cs0] and [most] are the arguments
    of the turn, [cs] is the state after the search. *)
Lemma ends_towards cs0 most cs tip h p : act_inv cs tip h -> (size (unfailed (cs_mem cs)) <= k)%nat -> moves (cs_mem cs0) (cs_mem cs) -> best_good (cs_mem cs) p ->
  (forall fuel, ActivateBestChain hashGenesisBlock connect disconnect (S fuel) cs0 most =
     if bool_decide (Tip (cs_active cs) = Some p) then Ok (cs, true)
     else let* (cs', r) := ActivateBestChainStep hashGenesisBlock connect disconnect cs p in
          match r with
          | StepFailed => Ok (cs', false)
          | StepInvalid => if bool_decide (Tip (cs_active cs') = None) then Ok (cs', true) else ActivateBestChain hashGenesisBlock connect disconnect fuel cs' None
          | _ => if bool_decide (Tip (cs_active cs') = Some p) then Ok (cs', true) else ActivateBestChain hashGenesisBlock connect disconnect fuel cs' (Some p)
          end) ->
  (forall cs' tip' h', act_inv cs' tip' h' -> moves (cs_mem cs) (cs_mem cs') -> same_good (cs_mem cs) (cs_mem cs') -> is_ancestor (cs_mem cs) tip' p ->
     (is_ancestor (cs_mem cs) tip p -> is_ancestor (cs_mem cs) tip tip' /\ tip' <> tip) -> ends cs' (Some p)) ->
  ends cs0 most.
Proof.
  intros H Hk Hm Hbest Hturn Hnext. pose proof Hbest as (Hl & Hg & _). rewrite (act_Tip cs tip h H) in Hturn. destruct (decide (tip = p)) as [->|Hne].
  { apply (ends_now _ _ cs true Hm); [by exists p, h|]. intros fuel. rewrite Hturn. by rewrite bool_decide_true. }
  destruct (ActivateBestChainStep_act cs tip h p H Hl Hg) as (cs' & r & f & E & Hf & (tip' & h' & H' & Hm' & Hr)). fold (cs_mem cs) (cs_mem cs') in *.
  rewrite bool_decide_false in Hturn by congruence. rewrite E in Hturn. cbn [mbind result_bind] in Hturn. rewrite (act_Tip cs' tip' h' H') in Hturn.
  assert (moves (cs_mem cs0) (cs_mem cs')) as Hm0 by (by eapply moves_trans). destruct r.
  - destruct Hr as [-> Hsg]. apply (ends_now _ _ cs' true Hm0); [|intros fuel; by rewrite Hturn, bool_decide_true]. exists p, h'. split; [done|]. exact (best_good_moves _ _ p Hm' Hsg Hbest).
  - destruct Hr as (Hsg & Htp & Hft & Hn). destruct (decide (tip' = p)) as [->|Hn'].
    + apply (ends_now _ _ cs' true Hm0); [|intros fuel; by rewrite Hturn, bool_decide_true]. exists p, h'. split; [done|]. exact (best_good_moves _ _ p Hm' Hsg Hbest).
    + apply (ends_step _ cs' _ (Some p) Hm0); [|intros fuel; by rewrite Hturn, bool_decide_false by congruence]. apply (Hnext cs' tip' h'); try done.
      intros Hanc. rewrite (Hf Hanc) in *. done.
  - destruct Hr as (x & c & b & Hc & Hb & Hfb & Hnew). destruct c; [by apply Hcorrupt in Hc|]. destruct (Hnew eq_refl) as (b' & Hb' & Hfb').
    apply (ends_step _ cs' _ None Hm0); [|intros fuel; by rewrite Hturn, bool_decide_false]. apply (IHk cs' tip' h' H').
    enough (size (unfailed (cs_mem cs')) < size (unfailed (cs_mem cs)))%nat by lia. apply subset_size. split; [by apply kept_unfailed, Hm'|]. intros Hsub.
    assert (x ∈ unfailed (cs_mem cs')) as Hx by (apply Hsub, unfailed_spec; by exists b). apply unfailed_spec in Hx as (b2 & Hb2 & Hf2). unfold cs_mem in *. congruence.
  - apply (ends_now _ _ cs' false Hm0); [|intros fuel; by rewrite Hturn]. split; [exact Hr|by exists tip', h'].
Qed.

Lemma ends_some d : forall cs tip h p bt bp, act_inv cs tip h -> (size (unfailed (cs_mem cs)) <= k)%nat -> best_good (cs_mem cs) p -> is_ancestor (cs_mem cs) tip p ->
  cs_mem cs !! tip = Some bt -> cs_mem cs !! p = Some bp -> (Z.to_nat (Chain.nHeight bp - Chain.nHeight bt) <= d)%nat -> ends cs (Some p).
Proof.
  induction d as [|d IH]; intros cs tip h p bt bp H Hk Hbest Ha Hbt Hbp Hd; (apply (ends_towards cs (Some p) cs tip h p H Hk (moves_refl _) Hbest); [done|]);
    intros cs' tip' h' H' Hm Hsg Htp Hprog; destruct (Hprog Ha) as [Htt Hne]; pose proof (act_tree cs tip h H) as Ht;
    destruct Htp as [n Hn]; destruct (prevs_height _ n p tip' bp Ht Hbp Hn) as (bt' & Hbt' & Hh & _);
    (assert (Chain.nHeight bt < Chain.nHeight bt') as Hlt by (destruct Htt as [[|j] Hj]; [by injection Hj|];
       destruct (prevs_height _ (S j) tip' tip bt' Ht Hbt' Hj) as (b0 & Hb0 & Hh0 & _); assert (b0 = bt) as -> by (unfold cs_mem in Hbt; congruence); lia)); [lia|].
  pose proof (proj1 Hm) as K. destruct (kept_lookup _ _ K tip' bt' Hbt') as (b1 & Hb1 & [E1 _ _ _ _ _ _]). destruct (kept_lookup _ _ K p bp Hbp) as (b2 & Hb2 & [E2 _ _ _ _ _ _]).
  injection E1 as ? ? ? Eh1 ? ? ? ?. injection E2 as ? ? ? Eh2 ? ? ? ?.
  apply (IH cs' tip' h' p b1 b2 H'); [etrans; [apply subseteq_size, kept_unfailed, K|done]|by eapply best_good_moves|apply (kept_ancestor _ _ K); by exists n|done|done|lia].
Qed.

Lemma ends_none cs tip h : act_inv cs tip h -> (size (unfailed (cs_mem cs)) <= k)%nat -> ends cs None.
Proof.
  intros H Hk. destruct (FindMostWorkChain_act cs tip h H) as (s' & p & E & H1 & Hm & _ & Hbest). set (cs1 := mkChain s' (cs_active cs)) in *.
  assert (size (unfailed (cs_mem cs1)) <= k)%nat as Hk1 by (etrans; [apply subseteq_size, kept_unfailed, Hm|done]).
  apply (ends_towards cs None cs1 tip h p H1 Hk1 Hm Hbest); [intros fuel; cbn [ActivateBestChain]; rewrite E; cbn [mbind result_bind]; done|].
  intros cs' tip' h' H' Hm' Hsg Htp _. pose proof (proj1 Hm') as K. destruct (ai_tip cs' tip' h' H') as ((bt & Hbt & _) & _).
  destruct (best_good_moves _ _ p Hm' Hsg Hbest) as [(bp & Hbp & Hlp) Hrest].
  eapply (ends_some _ cs' tip' h' p bt bp H'); [etrans; [apply subseteq_size, kept_unfailed, K|done]|split; [by exists bp|done]|by apply (kept_ancestor _ _ K)|done|done|done].
Qed.
End Loop.

Lemma ActivateBestChain_ends : (forall p, connect p <> Invalid true) -> forall cs tip h, act_inv cs tip h -> ends cs None.
Proof.
  intros Hc cs tip h H. remember (size (unfailed (cs_mem cs))) as k eqn:Ek. revert cs tip h H Ek. induction (lt_wf k) as [k _ IH]. intros cs tip h H ->.
  apply (ends_none Hc (size (unfailed (cs_mem cs))) (fun cs' tip' h' H' Hlt => IH _ Hlt cs' tip' h' H' eq_refl) cs tip h H (le_n _)).
Qed.

(** *** Corrupt data *)

Lemma best_good_unique m p q : best_good m p -> best_good m q -> p = q.
Proof.
  intros (Lp & Gp & Mp) (Lq & Gq & Mq). destruct (Mp q Lq Gq) as [->|H1]; [done|]. destruct (Mq p Lp Gp) as [|H2]; [done|].
  exfalso. eapply worse_irrefl. by eapply worse_trans.
Qed.

(** A step towards a child of the tip that is corrupt on disk changes nothing. *)
Lemma step_corrupt cs tip h p b : act_inv cs tip h -> sel_mem (cs_select cs) !! p = Some b -> pprev b = Some tip -> nChainTx b <> 0 -> good (sel_mem (cs_select cs)) p ->
  connect p = Invalid true -> ActivateBestChainStep hashGenesisBlock connect disconnect cs p = Ok (cs, StepInvalid).
Proof.
  intros H Hb Ep Hl Hg Hc. pose proof (act_tree cs tip h H) as Ht. destruct (ai_tip cs tip h H) as ((bt & Hbt & _) & _).
  pose proof (is_ancestor_parent _ p b tip Hb Ep) as Htp. destruct (Ht p b Hb) as [H0 Hprev]. rewrite Ep in Hprev. destruct Hprev as (bt' & Hbt' & Hh). assert (bt' = bt) as -> by congruence.
  unfold ActivateBestChainStep. destruct (FindFork_spec _ (cs_active cs) tip p b (ai_index cs tip h H) (ai_chain cs tip h H) Hb) as (r & -> & Hlca). cbn [mbind result_bind].
  pose proof (proj1 (Hlca tip) (conj (is_ancestor_refl _ tip) Htp)) as Hr. destruct r as [f|]; [|done]. cbn [anc_opt] in Hr.
  destruct (proj2 (Hlca f) (is_ancestor_refl _ f)) as [Hft _]. cbn [anc_opt] in Hft. assert (f = tip) as ->.
  { destruct Hft as [n Hn], Hr as [k Hk]. destruct (prevs_height _ n tip f bt Ht Hbt Hn) as (bf & Hbf & E1 & _). destruct (prevs_height _ k f tip bf Ht Hbf Hk) as (b1 & Hb1 & E2 & _).
    assert (b1 = bt) as -> by congruence. assert (n = 0%nat) as -> by lia. by injection Hn. }
  assert (disconnect_to disconnect (length (cs_active cs)) cs (Some tip) = Ok (cs, true)) as -> by (destruct (length (cs_active cs)); cbn [disconnect_to]; by rewrite (act_Tip cs tip h H), bool_decide_true).
  cbn [mbind result_bind negb]. rewrite (deref_ok _ _ _ Hbt), (deref_ok _ _ _ Hb). cbn [mbind result_bind]. replace (Z.to_nat (Chain.nHeight b - Chain.nHeight bt)) with 1%nat by lia.
  cbn [connect_loop]. rewrite (deref_ok _ _ _ Hb). cbn [mbind result_bind]. rewrite (proj2 (Z.eqb_neq (Chain.nHeight bt) (Chain.nHeight b))) by lia.
  rewrite Z.min_r by lia. rewrite (GetAncestor_spec _ p b _ (ai_index cs tip h H) Hb), (ancestor_at_self _ p b Ht Hb). cbn [mbind result_bind to_connect].
  rewrite (deref_ok _ _ _ Hb). cbn [mbind result_bind]. rewrite (proj2 (Z.eqb_neq (Chain.nHeight b) (Chain.nHeight bt))) by lia. rewrite Ep, (deref_ok _ _ _ Hbt).
  cbn [mbind result_bind]. rewrite Z.eqb_refl. cbn [mbind result_bind connect_blocks].
  destruct (ConnectTip_act cs tip h p b H Hb Ep Hl Hg) as (cs' & r & -> & _ & Hr'). cbn [mbind result_bind]. destruct r as [|c|].
  - destruct Hr' as (_ & (undo & E) & _). congruence.
  - destruct Hr' as (_ & E & Hres). rewrite Hc in E. injection E as <-. by rewrite Hres.
  - destruct Hr' as (_ & (at_ & E)). congruence.
Qed.

Lemma corrupt_loops fuel : forall cs tip h p b, act_inv cs tip h -> best_good (cs_mem cs) p -> cs_mem cs !! p = Some b -> pprev b = Some tip -> connect p = Invalid true ->
  ActivateBestChain hashGenesisBlock connect disconnect fuel cs None = Err OutOfFuel.
Proof.
  induction fuel as [|fuel IH]; intros cs tip h p b H Hbest Hb Ep Hc; [done|]. cbn [ActivateBestChain].
  destruct (FindMostWorkChain_act cs tip h H) as (s' & p' & -> & H1 & Hm & Hsg & Hbest'). cbn [mbind result_bind]. set (cs1 := mkChain s' (cs_active cs)) in *.
  pose proof (best_good_moves _ _ p Hm Hsg Hbest) as Hbest1. assert (p' = p) as -> by (by eapply best_good_unique).
  destruct (kept_lookup _ _ (proj1 Hm) p b Hb) as (b1 & Hb1 & [E _ Ec _ _ _ _]). injection E as ? Ep1 ? ? ? ? ? ?. rewrite Ep in Ep1.
  destruct Hbest1 as ((b2 & Hb2 & Hl) & Hg & Hmax). assert (b2 = b1) as -> by congruence.
  rewrite (act_Tip cs1 tip h H1), bool_decide_false. 2:{ intros [= ->]. by apply (above_child _ p b1 p p (act_tree cs1 p h H1) Hb1 Ep1); [by exists b1|apply is_ancestor_refl|]. }
  rewrite (step_corrupt cs1 tip h p b1 H1 Hb1 Ep1 Hl Hg Hc). cbn [mbind result_bind]. rewrite (act_Tip cs1 tip h H1), bool_decide_false by done.
  apply (IH cs1 tip h p b1 H1); [|done..]. split; [by exists b1|done].
Qed.

(** *** From and to the invariant of the lists *)

Lemma act_start active tip s : links_inv active tip M s [] -> index_ok (sel_mem s) -> (exists g, forall x, is_Some (sel_mem s !! x) -> is_ancestor (sel_mem s) g x) ->
  chain_ok (sel_mem s) active tip -> (forall p, pindexBestInvalid s = Some p -> is_Some (sel_mem s !! p)) -> good (sel_mem s) tip -> sound (sel_mem s) tip ->
  act_inv (mkChain s active) tip tip.
Proof.
  intros H Hi Hroot Hc Hinv Hg Hs. destruct (li_tip _ _ _ _ _ H) as (b & _ & Hb & Hl). constructor; cbn [cs_select cs_active]; try done.
  - eapply kept_links; [exact H|apply kept_refl|done|done|by intros x Hx Hnx|done|exact Hb|exact Hl|by left].
  - split; [by exists b|done].
Qed.
Lemma act_end cs tip h : act_inv cs tip h -> best_good (cs_mem cs) tip -> links_inv (cs_active cs) tip M (cs_select cs) [].
Proof.
  intros H ((b & Hb & Hl) & Hg & Hmax). eapply kept_links; [apply (ai_links cs tip h H)|apply kept_refl|done|done|by intros x Hx Hnx|apply (act_Tip cs tip h H)|exact Hb|exact Hl|].
  destruct (Hmax h) as [->|]; [apply (high_linked cs tip h H)|apply (ai_high cs tip h H)|by left|by right].
Qed.
End Run.

(** ** Theorems *)

(** C4: The node ends on the best valid chain.  Start from any state in which the lists of
    [ChainSelect] are in order and the blocks of the active chain are valid, with any
    verdicts of [ConnectBlock] but corruption.  [ActivateBestChain] then ends.  If it
    returns true, the new tip is the entry of most work (the earliest received among
    equals) of all those whose branch is complete, has not failed before and consists of
    blocks that [ConnectBlock] accepts; the active chain is its branch, no block of which
    has failed, and the lists are in order again.  If it returns false, the disk failed. *)
Theorem best_chain_activated hashGenesisBlock connect disconnect M active tip s g :
  links_inv active tip M s [] -> index_ok (sel_mem s) -> (forall x, is_Some (sel_mem s !! x) -> is_ancestor (sel_mem s) g x) ->
  chain_ok (sel_mem s) active tip -> (forall p, pindexBestInvalid s = Some p -> is_Some (sel_mem s !! p)) ->
  good (sel_mem s) tip -> sound connect (sel_mem s) tip -> (forall p, connect p <> Invalid true) ->
  exists n s' active' ok,
    (forall fuel, (n <= fuel)%nat -> ActivateBestChain hashGenesisBlock connect disconnect fuel (mkChain s active) None = Ok (mkChain s' active', ok))
    /\ if ok : bool
       then exists T, links_inv active' T M s' [] /\ chain_ok (sel_mem s') active' T /\ good (sel_mem s') T /\ sound connect (sel_mem s) T
         /\ forall x, linked (sel_mem s) x -> good (sel_mem s) x -> sound connect (sel_mem s) x -> x = T \/ worse (sel_mem s) x T
       else (exists p at_, connect p = SystemError at_) \/ exists p, disconnect p = false.
Proof.
  intros H Hi Hroot Hc Hinv Hg Hs Hcor. pose proof (act_start connect M active tip s H Hi ltac:(by exists g) Hc Hinv Hg Hs) as H0.
  destruct (ActivateBestChain_ends hashGenesisBlock connect disconnect M Hcor _ tip tip H0) as (n & [s' active'] & ok & E & Hm & Hok).
  exists n, s', active', ok. split; [exact E|]. destruct ok; [|exact (proj1 Hok)]. destruct Hok as (T & h & H' & Hbest). pose proof Hbest as (_ & HgT & Hmax).
  exists T. split; [exact (act_end connect M _ T h H' Hbest)|]. split; [apply (ai_chain _ _ _ _ _ H')|]. split; [exact HgT|]. destruct Hm as [K Hmg].
  split; [by apply (kept_sound connect _ _ T K), (ai_tip _ _ _ _ _ H')|]. intros x Hx Hgx Hsx. rewrite <- (kept_worse _ _ K).
  apply Hmax; [by apply (kept_linked _ _ _ K)|by apply Hmg].
Qed.

(** C40: Corrupt data stop the node.  If the best candidate is a child of the tip and its data on
    disk are corrupt, so that [ConnectBlock] rejects it without marking it invalid,
    [ActivateBestChain] finds it again and again and never ends. *)
Theorem corrupt_block_loops hashGenesisBlock connect disconnect M active tip s g p b :
  links_inv active tip M s [] -> index_ok (sel_mem s) -> (forall x, is_Some (sel_mem s !! x) -> is_ancestor (sel_mem s) g x) ->
  chain_ok (sel_mem s) active tip -> (forall q, pindexBestInvalid s = Some q -> is_Some (sel_mem s !! q)) ->
  good (sel_mem s) tip -> sound connect (sel_mem s) tip ->
  best_good (sel_mem s) p -> sel_mem s !! p = Some b -> pprev b = Some tip -> connect p = Invalid true ->
  forall fuel, ActivateBestChain hashGenesisBlock connect disconnect fuel (mkChain s active) None = Err OutOfFuel.
Proof.
  intros H Hi Hroot Hc Hinv Hg Hs Hbest Hb Ep Hcor fuel. pose proof (act_start connect M active tip s H Hi ltac:(by exists g) Hc Hinv Hg Hs) as H0.
  exact (corrupt_loops hashGenesisBlock connect disconnect M fuel _ tip tip p b H0 Hbest Hb Ep Hcor).
Qed.

(** *** An example: a fork whose best branch turns out to be invalid *)

(** The tip is entry 2.  Entry 4 has the most work and is invalid; entry 5, beside it on
    top of entry 3, is the best valid one. *)
Definition fork_select : select_state :=
  mkSelect (<[1%positive := example_index None 0 1 1 1 11]> (<[2%positive := example_index (Some 1%positive) 1 3 1 2 11]>
            (<[3%positive := example_index (Some 1%positive) 1 2 1 2 11]> (<[4%positive := example_index (Some 3%positive) 2 9 1 3 11]>
            (<[5%positive := example_index (Some 3%positive) 2 5 1 3 11]> ∅)))))
    {[2%positive; 4%positive; 5%positive]} [] 1 None ∅ ∅.
Definition fork_active : CChain := [Some 1%positive; Some 2%positive].
Definition fork_connect (p : ptr) : connect_outcome := if bool_decide (p = 4%positive) then Invalid false else Connected 77.

Lemma fork_index : index_ok (sel_mem fork_select).
Proof. split; intros p b Hp; cbn in Hp; heap_cases Hp; first [exact I|split; [done|cbn; first [done|by eexists]]]. Qed.
Lemma fork_links : links_inv fork_active 2%positive 10 fork_select [].
Proof.
  constructor; cbn [fork_select sel_mem mapBlocksUnlinked setBlockIndexCandidates].
  - apply fork_index.
  - intros p b Hp. heap_cases Hp; apply (bool_decide_unpack _); vm_compute; exact I.
  - eexists. split; [done|]. split; [reflexivity|done].
  - intros p b Hp. heap_cases Hp; constructor; cbn; try done; intros _; (split; [done|]); (split; [first [exact I|eexists; split; [reflexivity|done]]|done]).
  - split; [constructor|]. by intros p Hp%elem_of_nil.
  - split; [constructor|]. by intros q p Hp%elem_of_nil.
  - intros p b Hp H1 H2. heap_cases Hp; done.
  - intros c Hc. assert (c = 2 \/ c = 4 \/ c = 5)%positive as [->|[->| ->]] by set_solver; eexists; (split; [reflexivity|done]).
  - intros p b Hp Hc _. heap_cases Hp; [right|left; set_solver|right|left; set_solver..]; (eexists _, _; split; [reflexivity|]; split; [reflexivity|]; left; by vm_compute).
Qed.
Lemma fork_chain : chain_ok (sel_mem fork_select) fork_active 2%positive.
Proof. eexists. split; [reflexivity|]. split; [reflexivity|]. intros [|[|i]] Hi; [vm_compute; reflexivity..|cbn in Hi; lia]. Qed.
Lemma fork_root x : is_Some (sel_mem fork_select !! x) -> is_ancestor (sel_mem fork_select) 1%positive x.
Proof. intros [b Hb]. cbn in Hb. heap_cases Hb; [by exists 0%nat|by exists 1%nat|by exists 1%nat|by exists 2%nat|by exists 2%nat]. Qed.
Lemma fork_good x : good (sel_mem fork_select) x.
Proof. intros a b _ Hb. cbn in Hb. heap_cases Hb; done. Qed.

Lemma best_chain_activated_witness :
  exists n s' active', (forall fuel, (n <= fuel)%nat -> ActivateBestChain [] fork_connect (fun _ => true) fuel (mkChain fork_select fork_active) None = Ok (mkChain s' active', true))
    /\ active' = [Some 1%positive; Some 3%positive; Some 5%positive] /\ links_inv active' 5%positive 10 s' [].
Proof.
  destruct (best_chain_activated [] fork_connect (fun _ => true) 10 fork_active 2%positive fork_select 1%positive) as (n & s' & active' & ok & E & Hok);
    [exact fork_links|exact fork_index|exact fork_root|exact fork_chain|intros p; discriminate|apply fork_good| |intros p; unfold fork_connect; case_bool_decide; discriminate|].
  { intros a c [[|[|k]] Hk]; [injection Hk as <-|injection Hk as <-|]; discriminate. }
  assert (exists s1, forall fuel, ActivateBestChain [] fork_connect (fun _ => true) (10 + fuel) (mkChain fork_select fork_active) None
    = Ok (mkChain s1 [Some 1%positive; Some 3%positive; Some 5%positive], true)) as (s1 & E1) by (eexists; intros fuel; vm_compute; reflexivity).
  pose proof (E (10 + n)%nat ltac:(lia)) as E2. rewrite E1 in E2. assert (ok = true /\ active' = [Some 1%positive; Some 3%positive; Some 5%positive]) as [-> ->] by (split; congruence).
  exists n, s', [Some 1%positive; Some 3%positive; Some 5%positive]. split; [exact E|]. split; [reflexivity|]. destruct Hok as (T & HT & _).
  destruct (li_tip _ _ _ _ _ HT) as (bt & ET & _). assert (T = 5%positive) as -> by (vm_compute in ET; congruence). exact HT.
Defined.

(** The same fork with the tip at entry 3, and the block of entry 4 corrupt. *)
Definition corrupt_select : select_state :=
  mkSelect (sel_mem fork_select) {[2%positive; 3%positive; 4%positive; 5%positive]} [] 1 None ∅ ∅.
Definition corrupt_active : CChain := [Some 1%positive; Some 3%positive].
Definition corrupt_connect (p : ptr) : connect_outcome := if bool_decide (p = 4%positive) then Invalid true else Connected 77.

Lemma corrupt_links : links_inv corrupt_active 3%positive 10 corrupt_select [].
Proof.
  destruct fork_links as [H1 H2 H3 H4 H5 H6 H7 H8 H9]. constructor; cbn [corrupt_select sel_mem mapBlocksUnlinked setBlockIndexCandidates]; try done.
  - eexists. split; [done|]. split; [reflexivity|done].
  - intros c Hc. destruct (decide (c = 3%positive)) as [->|Hn]; [eexists; split; [reflexivity|done]|]. apply H8. cbn. set_solver.
  - intros p b Hp Hc _. cbn in Hp. heap_cases Hp; [right|left; set_solver..]. eexists _, _; split; [reflexivity|]; split; [reflexivity|]; left; by vm_compute.
Qed.

Lemma corrupt_block_loops_witness : corrupt_connect 4%positive = Invalid true
  /\ forall fuel, ActivateBestChain [] corrupt_connect (fun _ => true) fuel (mkChain corrupt_select corrupt_active) None = Err OutOfFuel.
Proof.
  split; [reflexivity|]. apply (corrupt_block_loops [] corrupt_connect (fun _ => true) 10 corrupt_active 3%positive corrupt_select 1%positive 4%positive (example_index (Some 3%positive) 2 9 1 3 11));
    [exact corrupt_links|exact fork_index|exact fork_root| |intros q; discriminate|apply fork_good| | |reflexivity|reflexivity|reflexivity].
  - eexists. split; [reflexivity|]. split; [reflexivity|]. intros [|[|i]] Hi; [vm_compute; reflexivity..|cbn in Hi; lia].
  - intros a c [[|[|k]] Hk]; [injection Hk as <-|injection Hk as <-|]; discriminate.
  - split; [eexists; split; [reflexivity|done]|]. split; [apply fork_good|]. intros x (b & Hb & _) _. cbn in Hb.
    heap_cases Hb; [right|right|right|by left|right]; (eexists _, _; split; [reflexivity|]; split; [reflexivity|]; left; by vm_compute).
Defined.
