(* ===== verification/AssetTotals.v ===== *)
(** * Contextual asset rules: [CheckTxAssets] of [src/consensus/tx_verify.cpp] and the
    [ContextualCheck...] functions of [src/assets/assets.cpp]

    The rules that look at the coins a transaction spends and at the state of the
    assets.  The latter is reached through the class [AssetsView], the promises of the
    assets cache to these rules; a null pointer to the cache is [None].

    The theorems show that transfers conserve every asset as far as 64-bit arithmetic
    can tell, and that they do not beyond. *)

From S2P Require Import Prelude Params Serialize Script Transaction Compressor Standard Base58 AssetNames LibBoolEE AssetScripts.
From S2P Require Import TxVerify AssetRules CheckTransaction.

(** ** The state of the assets *)

(** What [CAssetsCache] answers; the boolean is [fSkipTempCache]. *)
Class AssetsView := mkView {
  CheckIfAssetExists : bytes -> bool;
  GetAssetMetaDataIfExists : bytes -> option CNewAsset;
  GetAssetVerifierStringIfExists : bytes -> bool -> option bytes;
  CheckForAddressQualifier : bytes -> bytes -> bool -> bool;
  CheckForAddressRestriction : bytes -> bytes -> bool -> bool;
  CheckForGlobalRestriction : bytes -> bool -> bool;
}.

(** ** Encoded hashes *)

Definition hexmap : bytes := chars "0123456789abcdef".
Definition HexStr (b : bytes) : bytes := b ≫= (fun val => [nth (Z.to_nat (Z.shiftr val 4)) hexmap 0; nth (Z.to_nat (Z.land val 15)) hexmap 0]).

Definition HexDigit (c : Z) : Z :=
  if (48 <=? c) && (c <=? 57) then c - 48
  else if (65 <=? c) && (c <=? 70) then c - 55
  else if (97 <=? c) && (c <=? 102) then c - 87
  else -1.
Definition IsHex (str : bytes) : bool :=
  forallb (fun c => negb (HexDigit c <? 0)) str && (0 <? length str)%nat && (length str mod 2 =? 0)%nat.

Definition EncodeAssetData (decoded : bytes) : result fault bytes :=
  if (length decoded =? 34)%nat then EncodeBase58 decoded
  else if (length decoded =? 32)%nat then Ok (HexStr decoded)
  else Ok [].

Section Contextual.
Context (chain : asset_chain) (uninitialised : AssetType) (txout_ToString : CTxOut -> string).
(** The globals [fUnitTest] and [mempool.mapAssetToHash]. *)
Context (fUnitTest : bool) (mapAssetToHash : gmap bytes bytes).
Context (assetCache : option AssetsView).

(** The cache, where the code uses the pointer without a test. *)
Definition deref : rule AssetsView := match assetCache with Some v => Ok v | None => Err (Aborted NullDereference) end.

Definition CheckEncoded (hash : bytes) : rule unit :=
  encodedStr ← lift (EncodeAssetData hash);
  if bool_decide (take 2 encodedStr = chars "Qm") && (length encodedStr =? 46)%nat then Ok tt
  else if AreMessagesDeployed chain && IsHex encodedStr && (length encodedStr =? 64)%nat then Ok tt
  else refuse "Invalid parameter: ipfs_hash is not valid, or txid hash is not the right length".

(** ** Tags, freezes and verifier strings *)

Definition VerifyQualifierChange (cache : AssetsView) (data : CNullAssetTxData) (address : bytes) : rule unit :=
  _ ← VerifyNullAssetDataFlag (nd_flag data);
  let fHasQualifier := CheckForAddressQualifier (nd_asset_name data) address true in
  if negb (nd_flag data =? 0) then require (negb fHasQualifier) "bad-txns-null-data-add-qualifier-when-already-assigned"
  else require fHasQualifier "bad-txns-null-data-removing-qualifier-when-not-assigned".

Definition VerifyRestrictedAddressChange (cache : AssetsView) (data : CNullAssetTxData) (address : bytes) : rule unit :=
  _ ← VerifyNullAssetDataFlag (nd_flag data);
  let fIsFrozen := CheckForAddressRestriction (nd_asset_name data) address true in
  if negb (nd_flag data =? 0) then require (negb fIsFrozen) "bad-txns-null-data-freeze-address-when-already-frozen"
  else require fIsFrozen "bad-txns-null-data-unfreeze-address-when-not-frozen".

Definition VerifyGlobalRestrictedChange (cache : AssetsView) (data : CNullAssetTxData) : rule unit :=
  _ ← VerifyNullAssetDataFlag (nd_flag data);
  let fIsGloballyFrozen := CheckForGlobalRestriction (nd_asset_name data) true in
  if negb (nd_flag data =? 0) then require (negb fIsGloballyFrozen) "bad-txns-null-data-global-freeze-when-already-frozen"
  else require fIsGloballyFrozen "bad-txns-null-data-global-unfreeze-when-not-frozen".

(** The loop that looks for the qualifiers of a verifier string. *)
Definition qualifiers_issued (cache : AssetsView) (qualifiers : list bytes) : bool :=
  forallb (fun q => CheckIfAssetExists (35 :: q)) qualifiers.

Definition ContextualCheckVerifierString (verifier check_address : bytes) : rule unit :=
  if bool_decide (verifier = chars "true") then Ok tt
  else
    setFoundQualifiers ← CheckVerifierString verifier;
    _ ← (if bool_decide (setFoundQualifiers = []) then Ok tt
         else cache ← deref;
              require (qualifiers_issued cache setFoundQualifiers) "bad-txns-null-verifier-contains-non-issued-qualifier");
    if bool_decide (check_address = []) then Ok tt
    else
      vals ← (if bool_decide (setFoundQualifiers = []) then Ok []
              else cache ← deref; Ok ((fun q => (q, CheckForAddressQualifier (35 :: q) check_address true)) <$> setFoundQualifiers));
      match resolve verifier (list_to_map vals : gmap bytes bool) with
      | Ok ret => require ret "bad-txns-null-verifier-address-failed-verification"
      | Err TooDeep => Err (Aborted OutOfFuel)
      | Err _ => refuse "bad-txns-null-verifier-failed-contexual-syntax-check"
      end.

(** A call whose message goes to a variable that hides the caller's. *)
Definition hiding_error {A} (r : rule A) : rule A := match r with Err (Refused _) => Err (Refused EmptyString) | _ => r end.

(** [ContextualCheckNullAssetTxOut]; the wallet's list of its own tags is not modelled. *)
Definition ContextualCheckNullAssetTxOut (txout : CTxOut) : rule unit :=
  let* (data, address) := require_some (AssetNullDataFromScript (PUBKEY_ADDRESS chain) (SCRIPT_ADDRESS chain) (scriptPubKey txout))
    "bad-txns-null-asset-data-serialization" in
  match assetCache with
  | None => Ok tt
  | Some cache =>
    if IsAssetNameAQualifier (nd_asset_name data) false then VerifyQualifierChange cache data address
    else if IsAssetNameAnRestricted (nd_asset_name data) then VerifyRestrictedAddressChange cache data address
    else refuse "bad-txns-null-asset-data-on-non-restricted-or-qualifier-asset"
  end.

Definition ContextualCheckGlobalAssetTxOut (txout : CTxOut) : rule unit :=
  data ← require_some (Ok (GlobalAssetNullDataFromScript (scriptPubKey txout))) "bad-txns-null-global-asset-data-serialization";
  match assetCache with
  | None => Ok tt
  | Some cache => VerifyGlobalRestrictedChange cache data
  end.

Definition ContextualCheckVerifierAssetTxOut (txout : CTxOut) : rule unit :=
  verifier ← require_some (Ok (AssetNullVerifierDataFromScript (scriptPubKey txout))) "bad-txns-null-verifier-data-serialization";
  match assetCache with
  | None => Ok tt
  | Some _ => hiding_error (ContextualCheckVerifierString verifier [])
  end.

(** ** Transfers *)

Definition ContextualCheckAgainstVerifyString (strName address : bytes) : rule unit :=
  cache ← deref;
  match GetAssetVerifierStringIfExists strName true with
  | None => refuse (String.append "Verifier String doesn't exist for asset: " (string_of strName))
  | Some verifier => ContextualCheckVerifierString verifier address
  end.

Definition ContextualCheckTransferAsset (transfer : CAssetTransfer) (address : bytes) : rule unit :=
  match IsAssetNameValid (tr_strName transfer) with
  | Err _ => refuse invalid_name
  | Ok assetType =>
    _ ← require (negb (tr_nAmount transfer <=? 0)) "Invalid parameter: asset amount can't be equal to or less than zero.";
    _ ← (if AreMessagesDeployed chain then
           _ ← require (negb (bool_decide (tr_message transfer = []) && (tr_nExpireTime transfer >? 0)))
                 "Invalid parameter: asset transfer expiration time requires a message to be attached to the transfer";
           _ ← require (negb (tr_nExpireTime transfer <? 0)) "Invalid parameter: expiration time must be a positive value";
           if bool_decide (tr_message transfer = []) then Ok tt else CheckEncoded (tr_message transfer)
         else Ok tt);
    _ ← require (negb (bool_decide (assetType = MSGCHANNEL) && negb (AreMessagesDeployed chain)))
          "bad-txns-transfer-msgchannel-before-messaging-is-active";
    _ ← (if decide (assetType = RESTRICTED) then
           _ ← require (AreRestrictedAssetsDeployed chain) "bad-txns-transfer-restricted-before-it-is-active";
           _ ← match assetCache with
               | None => Ok tt
               | Some cache =>
                 require (negb (CheckForGlobalRestriction (tr_strName transfer) true)) "bad-txns-transfer-restricted-asset-that-is-globally-restricted"
               end;
           hiding_error (ContextualCheckAgainstVerifyString (tr_strName transfer) address)
         else Ok tt);
    require (negb (bool_decide (assetType = QUALIFIER \/ assetType = SUB_QUALIFIER) && negb (AreRestrictedAssetsDeployed chain)))
      "bad-txns-transfer-qualifier-before-it-is-active"
  end.

(** ** Issues and reissues *)

Definition in_quotes (name : bytes) : string := String.append (string_of name) "'".

Definition ContextualCheckNewAsset (asset : CNewAsset) (fCheckMempool : bool) : rule unit :=
  _ ← require (negb (negb (AreAssetsDeployed chain) && negb fUnitTest)) "bad-txns-new-asset-when-assets-is-not-active";
  _ ← CheckNewAsset asset;
  cache ← deref;
  _ ← require (negb (CheckIfAssetExists (na_strName asset)))
        (String.append "Invalid parameter: asset_name '" (String.append (in_quotes (na_strName asset)) " has already been used"));
  _ ← require (negb (fCheckMempool && bool_decide (is_Some (mapAssetToHash !! na_strName asset)))) "Asset with this name is already in the mempool";
  let size := length (na_strIPFSHash asset) in
  _ ← require (negb (negb (na_nHasIPFS asset =? 0) && negb (size =? 34)%nat && (negb (AreMessagesDeployed chain) || negb (size =? 32)%nat)))
        "Invalid parameter: ipfs_hash must be 46 characters. Txid must be valid 64 character hash";
  if negb (na_nHasIPFS asset =? 0) then CheckEncoded (na_strIPFSHash asset) else Ok tt.

Fixpoint ContextualCheckUniqueAssetTx (outs : list CTxOut) : rule unit :=
  match outs with
  | [] => Ok tt
  | out :: outs =>
    let* is_unique := lift (IsScriptNewUniqueAsset (PUBKEY_ADDRESS chain) (SCRIPT_ADDRESS chain) (scriptPubKey out)) in
    if is_unique then
      let* (asset, _) := require_some (AssetFromScript (PUBKEY_ADDRESS chain) (SCRIPT_ADDRESS chain) (scriptPubKey out))
        "bad-txns-issue-unique-serialization-failed" in
      _ ← ContextualCheckNewAsset asset false;
      ContextualCheckUniqueAssetTx outs
    else ContextualCheckUniqueAssetTx outs
  end.

(** The verifier string a reissue of a restricted asset is checked against. *)
Definition check_reissue_verifier (reissue_asset : CReissueAsset) (strAddress : bytes) (tx : CTransaction) : rule unit :=
  let check verifier := ContextualCheckVerifierString verifier strAddress in
  match GetVerifierStringFromTx txout_ToString tx with
  | VerifierError strError => refuse strError
  | VerifierNotFound =>
    if re_nAmount reissue_asset >? 0 then
      cache ← deref;
      match GetAssetVerifierStringIfExists (re_strName reissue_asset) false with
      | Some current => check current
      | None =>
        refuse "failed to get verifier string from a restricted asset, database is out of sync. Reindex required. Please report this is to development team"
      end
    else Ok tt
  | VerifierFound new_verifier => if re_nAmount reissue_asset >? 0 then check new_verifier else Ok tt
  end.

Definition ContextualCheckReissueAsset (reissue_asset : CReissueAsset) (tx : CTransaction) : rule unit :=
  let* (_, strAddress) := require_some (ReissueAssetFromTransaction chain tx) "bad-txns-reissue-asset-contextual-check" in
  _ ← CheckReissueAsset (fTestNet chain) reissue_asset;
  cache ← deref;
  let unable := String.append "Unable to reissue asset: asset_name '" (in_quotes (re_strName reissue_asset)) in
  prev_asset ← require_some (Ok (GetAssetMetaDataIfExists (re_strName reissue_asset))) (String.append unable " doesn't exist in the database");
  _ ← require (negb (na_nReissuable prev_asset =? 0)) "Unable to reissue asset: reissuable is set to false";
  _ ← require (negb (i64 (na_nAmount prev_asset + re_nAmount reissue_asset) >? MAX_MONEY))
        (String.append unable " the amount trying to reissue is to large");
  divisible ← lift (CheckAmountWithUnits (re_nAmount reissue_asset) (na_units prev_asset));
  _ ← require divisible "Unable to reissue asset: amount must be divisible by the smaller unit assigned to the asset";
  _ ← require (negb ((re_nUnits reissue_asset <? na_units prev_asset) && negb (re_nUnits reissue_asset =? -1)))
        "Unable to reissue asset: unit must be larger than current unit selection";
  let hash := re_strIPFSHash reissue_asset in
  _ ← require (negb (negb (bool_decide (hash = [])) && negb (length hash =? 34)%nat && (AreMessagesDeployed chain && negb (length hash =? 32)%nat)))
        "Invalid parameter: ipfs_hash must be 34 bytes, Txid must be 32 bytes";
  _ ← (if bool_decide (hash = []) then Ok tt else CheckEncoded hash);
  if IsAssetNameAnRestricted (re_strName reissue_asset) then check_reissue_verifier reissue_asset strAddress tx else Ok tt.

(** ** [CheckTxAssets] *)

Section CheckTxAssets.
(** [inputs.AccessCoin], the map of reissues in the memory pool, and the clock. *)
Context (AccessCoin : COutPoint -> Coin) (mapReissuedAssets : gmap bytes bytes) (currentTime : Z).
Context (fCheckMempool fRunningUnitTests : bool).
(** [setMessages] is not null and messages are kept; the time given to them. *)
Context (keep_messages : bool) (nBlocktime : Z).

Definition Coin_IsAsset (c : Coin) : bool := bool_decide (is_Some (IsAssetScript (scriptPubKey (coin_out c)))).

(** [totals.at(name) += nAmount], or an insertion. *)
Definition add_total (name : bytes) (nAmount : Z) (totals : gmap bytes Z) : gmap bytes Z :=
  match totals !! name with
  | Some t => <[name := i64 (t + nAmount)]> totals
  | None => <[name := nAmount]> totals
  end.

(** The loop over the inputs: the totals and the address each asset comes from. *)
Fixpoint assets_in_loop (ins : list CTxIn) (totalInputs : gmap bytes Z) (mapAddresses : gmap bytes bytes)
  : check (gmap bytes Z * gmap bytes bytes) :=
  match ins with
  | [] => Ok (totalInputs, mapAddresses)
  | txin :: ins =>
    let coin := AccessCoin (prevout txin) in
    if IsSpent coin then Err (Halt AssertFailure)
    else if negb (Coin_IsAsset coin) then assets_in_loop ins totalInputs mapAddresses
    else
      data ← reject_none 100 "bad-txns-failed-to-get-asset-from-script"
        (GetAssetData (PUBKEY_ADDRESS chain) (SCRIPT_ADDRESS chain) (AreTransferScriptsSizeDeployed chain) (scriptPubKey (coin_out coin)));
      let name := oe_assetName data in
      address ← halting (EncodeDestination (PUBKEY_ADDRESS chain) (SCRIPT_ADDRESS chain) (oe_destination data));
      let mapAddresses :=
        if AreMessagesDeployed chain then match mapAddresses !! name with Some _ => mapAddresses | None => <[name := address]> mapAddresses end
        else mapAddresses in
      _ ← (if IsAssetNameAnRestricted name then
             cache ← rejecting 100 EmptyString (deref);
             reject_if (CheckForAddressRestriction name address true) 100 "bad-txns-restricted-asset-transfer-from-frozen-address"
           else Ok tt);
      assets_in_loop ins (add_total name (oe_nAmount data) totalInputs) mapAddresses
  end.

(** [CMessage], as constructed here. *)
Record CMessage := mkMessage { msg_out : COutPoint; msg_strName : bytes; msg_ipfsHash : bytes; msg_nExpiredTime : Z; msg_time : Z }.

(** What the loop over the outputs collects. *)
Record totals_state := mkTotals {
  totalOutputs : gmap bytes Z;
  vPairReissueAssets : list (bytes * bytes);
  setMessages : list CMessage;
}.

Definition check_null_out (txout : CTxOut) : check unit :=
  let s := scriptPubKey txout in
  if negb (IsNullAsset s) then Ok tt
  else
    _ ← reject_if (negb (AreRestrictedAssetsDeployed chain)) 100 "bad-tx-null-asset-data-before-restricted-assets-activated";
    if IsNullAssetTxDataScript s then rejecting 100 EmptyString (ContextualCheckNullAssetTxOut txout)
    else if IsNullGlobalRestrictionAssetTxDataScript s then rejecting 100 EmptyString (ContextualCheckGlobalAssetTxOut txout)
    else if IsNullAssetVerifierTxDataScript s then rejecting 100 EmptyString (ContextualCheckVerifierAssetTxOut txout)
    else DoS 100 "bad-tx-null-asset-data-unknown-type".

(** The units of what is transferred. *)
Definition check_transfer_units (transfer : CAssetTransfer) : check unit :=
  if fRunningUnitTests then Ok tt
  else if IsAssetNameAnOwner (tr_strName transfer) then
    reject_if (negb (tr_nAmount transfer =? OWNER_ASSET_AMOUNT)) 100 "bad-txns-transfer-owner-amount-was-not-1"
  else
    cache ← rejecting 100 EmptyString deref;
    asset ← reject_none 100 "bad-txns-transfer-asset-not-exist" (Ok (GetAssetMetaDataIfExists (tr_strName transfer)));
    _ ← reject_if (negb (bool_decide (na_strName asset = tr_strName transfer))) 100 "bad-txns-asset-database-corrupted";
    divisible ← halting (CheckAmountWithUnits (tr_nAmount transfer) (na_units asset));
    reject_if (negb divisible) 100 "bad-txns-transfer-asset-amount-not-match-units".

(** The message of a transfer, sent from the address that holds the channel. *)
Definition transfer_message (hash : bytes) (index : Z) (mapAddresses : gmap bytes bytes) (transfer : CAssetTransfer) (address : bytes)
  : list CMessage :=
  if AreMessagesDeployed chain && keep_messages &&
     (IsAssetNameAnOwner (tr_strName transfer) || IsAssetNameAnMsgChannel (tr_strName transfer)) &&
     negb (bool_decide (tr_message transfer = [])) &&
     ((tr_nExpireTime transfer =? 0) || (tr_nExpireTime transfer >? currentTime)) &&
     bool_decide (mapAddresses !! tr_strName transfer = Some address)
  then [mkMessage (mkOutPoint hash (u32 index)) (tr_strName transfer) (tr_message transfer) (tr_nExpireTime transfer) nBlocktime]
  else [].

Definition check_asset_output (hash : bytes) (index : Z) (mapAddresses : gmap bytes bytes) (st : totals_state) (txout : CTxOut)
  : check totals_state :=
  let s := scriptPubKey txout in
  _ ← match assetCache with
      | None => Ok tt
      | Some _ =>
        _ ← reject_if (bool_decide (is_Some (IsAssetScript s)) && negb (AreAssetsDeployed chain)) 100 "bad-txns-is-asset-and-asset-not-active";
        check_null_out txout
      end;
  match IsAssetScript s with
  | Some (TX_TRANSFER_ASSET, _, _) =>
    let* (transfer, address) := reject_none 100 "bad-tx-asset-transfer-bad-deserialize"
      (TransferAssetFromScript (PUBKEY_ADDRESS chain) (SCRIPT_ADDRESS chain) (AreTransferScriptsSizeDeployed chain) s) in
    _ ← rejecting 100 EmptyString (ContextualCheckTransferAsset transfer address);
    _ ← check_transfer_units transfer;
    Ok (mkTotals (add_total (tr_strName transfer) (tr_nAmount transfer) (totalOutputs st)) (vPairReissueAssets st)
          (setMessages st ++ transfer_message hash index mapAddresses transfer address))
  | Some (TX_REISSUE_ASSET, _, _) =>
    let* (reissue, _) := reject_none 100 "bad-tx-asset-reissue-bad-deserialize"
      (ReissueAssetFromScript (PUBKEY_ADDRESS chain) (SCRIPT_ADDRESS chain) s) in
    match mapReissuedAssets !! re_strName reissue with
    | Some h => _ ← reject_if (negb (bool_decide (h = hash))) 100 "bad-tx-reissue-chaining-not-allowed"; Ok st
    | None => Ok (mkTotals (totalOutputs st) (vPairReissueAssets st ++ [(re_strName reissue, hash)]) (setMessages st))
    end
  | _ => Ok st
  end.

Fixpoint assets_out_loop (hash : bytes) (index : Z) (mapAddresses : gmap bytes bytes) (st : totals_state) (outs : list CTxOut)
  : check totals_state :=
  match outs with
  | [] => Ok st
  | o :: outs => st ← check_asset_output hash index mapAddresses st o; assets_out_loop hash (index + 1) mapAddresses st outs
  end.

(** No operation: the asset outputs are transfers. *)
Fixpoint contextual_plain_outs (outs : list CTxOut) : check unit :=
  match outs with
  | [] => Ok tt
  | o :: outs =>
    _ ← match IsAssetScript (scriptPubKey o) with
        | Some (nType, _, _) => reject_if (negb (bool_decide (nType = TX_TRANSFER_ASSET))) 100 "bad-txns-bad-asset-transaction"
        | None =>
          if negb (Find (scriptPubKey o) OP_HNB_ASSET =? 0) then
            if AreRestrictedAssetsDeployed chain then
              reject_if (negb (at_ (scriptPubKey o) 0 =? OP_HNB_ASSET)) 100 "bad-txns-op-rvn-asset-not-in-right-script-location"
            else DoS 100 "bad-txns-bad-asset-script"
          else Ok tt
        end;
    contextual_plain_outs outs
  end.

Definition contextual_operation (tx : CTransaction) : check unit :=
  let* is_new := halting (tx_IsNewAsset chain tx) in
  if is_new then
    last ← halting (vout_back tx 1);
    let* (asset, _) := reject_none 100 "bad-txns-issue-serialzation-failed"
      (AssetFromScript (PUBKEY_ADDRESS chain) (SCRIPT_ADDRESS chain) (scriptPubKey last)) in
    rejecting 100 EmptyString (ContextualCheckNewAsset asset fCheckMempool)
  else
  let* is_reissue := halting (tx_IsReissueAsset tx) in
  if is_reissue then
    last ← halting (vout_back tx 1);
    let* (reissue_asset, _) := reject_none 100 "bad-txns-reissue-serialzation-failed"
      (ReissueAssetFromScript (PUBKEY_ADDRESS chain) (SCRIPT_ADDRESS chain) (scriptPubKey last)) in
    rejecting 100 "bad-txns-reissue-contextual-" (ContextualCheckReissueAsset reissue_asset tx)
  else
  let* is_unique := halting (tx_IsNewUniqueAsset chain tx) in
  if is_unique then rejecting 100 "bad-txns-issue-unique-contextual-" (ContextualCheckUniqueAssetTx (vout tx))
  else
  let* is_channel := halting (tx_IsNewMsgChannelAsset chain tx) in
  if is_channel then
    _ ← reject_if (negb (AreMessagesDeployed chain)) 100 "bad-txns-issue-msgchannel-before-messaging-is-active";
    let* (asset, _) := reject_none 100 "bad-txns-issue-msgchannel-serialzation-failed" (MsgChannelAssetFromTransaction chain tx) in
    rejecting 100 "bad-txns-issue-msgchannel-contextual-" (ContextualCheckNewAsset asset fCheckMempool)
  else
  let* is_qualifier := halting (tx_IsNewQualifierAsset chain tx) in
  if is_qualifier then
    _ ← reject_if (negb (AreRestrictedAssetsDeployed chain)) 100 "bad-txns-issue-qualifier-before-it-is-active";
    let* (asset, _) := reject_none 100 "bad-txns-issue-qualifier-serialzation-failed" (QualifierAssetFromTransaction chain tx) in
    rejecting 100 "bad-txns-issue-qualfier-contextual" (ContextualCheckNewAsset asset fCheckMempool)
  else
  let* is_restricted := halting (tx_IsNewRestrictedAsset chain tx) in
  if is_restricted then
    _ ← reject_if (negb (AreRestrictedAssetsDeployed chain)) 100 "bad-txns-issue-restricted-before-it-is-active";
    let* (asset, strAddress) := reject_none 100 "bad-txns-issue-restricted-serialzation-failed" (RestrictedAssetFromTransaction chain tx) in
    _ ← rejecting 100 "bad-txns-issue-restricted-contextual" (ContextualCheckNewAsset asset fCheckMempool);
    match GetVerifierStringFromTx txout_ToString tx with
    | VerifierFound verifier => rejecting 100 EmptyString (ContextualCheckVerifierString verifier strAddress)
    | search => DoS 100 (String.append "bad-txns-issue-restricted-verifier-search-" (verifier_error search))
    end
  else contextual_plain_outs (vout tx).

(** The keys of a [std::map], in its order. *)
Definition ordered_keys (m : gmap bytes Z) : list bytes := foldr (set_insert bytes_lt) [] (map_to_list m).*1.

Fixpoint totals_match (totalInputs outputs : gmap bytes Z) (names : list bytes) : check unit :=
  match names with
  | [] => Ok tt
  | name :: names =>
    let mismatch text := String.append "bad-tx-inputs-outputs-mismatch Bad Transaction - " (String.append text (string_of name)) in
    match totalInputs !! name, outputs !! name with
    | None, _ => DoS 100 (mismatch "Trying to create outpoint for asset that you don't have: ")
    | Some t, Some u =>
      _ ← reject_if (negb (t =? u)) 100 (mismatch "Assets would be burnt "); totals_match totalInputs outputs names
    | Some _, None => totals_match totalInputs outputs names
    end
  end.

(** The reissues and messages of an accepted transaction. *)
Definition CheckTxAssets (tx : CTransaction) : check (list (bytes * bytes) * list CMessage) :=
  _ ← reject_if (negb (HaveInputs AccessCoin tx)) 100 "bad-txns-inputs-missing-or-spent";
  let* (totalInputs, mapAddresses) := assets_in_loop (vin tx) ∅ ∅ in
  st ← assets_out_loop (GetHash tx) 0 mapAddresses (mkTotals ∅ [] []) (vout tx);
  _ ← match assetCache with Some _ => contextual_operation tx | None => Ok tt end;
  _ ← totals_match totalInputs (totalOutputs st) (ordered_keys (totalOutputs st));
  _ ← reject_if (negb (size (totalOutputs st) =? size totalInputs)%nat) 100 "bad-tx-asset-inputs-size-does-not-match-outputs-size";
  Ok (vPairReissueAssets st, setMessages st).
End CheckTxAssets.
End Contextual.

(** ** Totals *)

(** What 64-bit totals can not tell apart. *)
Definition same64 (x y : Z) : Prop := x mod 2 ^ 64 = y mod 2 ^ 64.

Lemma i64_same x : same64 (i64 x) x.
Proof.
  unfold same64, i64, swrap. rewrite Zminus_mod_idemp_l. f_equal. lia.
Qed.

(** The amounts of one asset in a list of named amounts. *)
Definition amounts (name : bytes) (l : list (bytes * Z)) : list Z :=
  omap (fun '(n, a) => if decide (n = name) then Some a else None) l.

Lemma sum_pos l : Forall (fun a => 0 < a) l -> 0 <= sum_Z l.
Proof. unfold sum_Z. induction 1; cbn in *; lia. Qed.

(** A map of totals accounts for a list of named amounts. *)
Definition accounts (m : gmap bytes Z) (l : list (bytes * Z)) : Prop :=
  forall name, match m !! name with
          | Some t => amounts name l <> [] /\ same64 t (sum_Z (amounts name l))
          | None => amounts name l = []
          end.

Lemma accounts_empty : accounts ∅ [].
Proof. intros name. by rewrite lookup_empty. Qed.

Lemma sum_Z_app l l' : sum_Z (l ++ l') = sum_Z l + sum_Z l'.
Proof. unfold sum_Z. induction l as [|x l IH]; cbn; [done|]. rewrite IH. lia. Qed.

Lemma amounts_snoc name l n a : amounts name (l ++ [(n, a)]) = amounts name l ++ (if decide (n = name) then [a] else []).
Proof. unfold amounts. rewrite omap_app. cbn. by destruct (decide (n = name)). Qed.

Lemma accounts_add m l n a : accounts m l -> accounts (add_total n a m) (l ++ [(n, a)]).
Proof.
  intros H name. rewrite amounts_snoc. specialize (H name). unfold add_total.
  destruct (decide (n = name)) as [->|Hne].
  - destruct (m !! name) as [t|] eqn:E; rewrite lookup_insert_eq, sum_Z_app; change (sum_Z [a]) with (a + 0).
    + destruct H as [Hne Hs]. split; [by destruct (amounts name l)|].
      unfold same64 in *. rewrite (i64_same (t + a)), Zplus_mod, Hs, <- Zplus_mod. f_equal. lia.
    + rewrite H. cbn. split; [done|]. unfold same64. f_equal. lia.
  - rewrite app_nil_r. destruct (m !! n); by rewrite lookup_insert_ne.
Qed.

(** Equal totals over the same assets. *)
Lemma accounts_equal m m' l l' :
  accounts m l -> accounts m' l' -> m = m' -> forall name, (amounts name l = [] <-> amounts name l' = [])
    /\ same64 (sum_Z (amounts name l)) (sum_Z (amounts name l')).
Proof.
  intros H H' <- name. specialize (H name). specialize (H' name). destruct (m !! name) as [t|].
  - destruct H as [Hn Hs], H' as [Hn' Hs']. split; [by split|]. unfold same64 in *. congruence.
  - by rewrite H, H'.
Qed.

(** The final comparisons of the two maps. *)
Lemma totals_match_spec ins outs names x :
  totals_match ins outs names = Ok x -> forall n u, n ∈ names -> outs !! n = Some u -> ins !! n = Some u.
Proof.
  induction names as [|k names IH]; cbn [totals_match]; [by intros _ n u []%elem_of_nil|].
  intros H n u Hin Hu. apply elem_of_cons in Hin as [->|Hin].
  - destruct (ins !! k) as [t|]; [|done]. rewrite Hu in H. ok_steps H. apply reject_if_Ok in E. b2p. by subst.
  - destruct (ins !! k) as [t|]; [|done]. destruct (outs !! k); [|by eapply IH]. ok_steps H. by eapply IH.
Qed.

Lemma ordered_keys_elem m n : is_Some (m !! n) -> n ∈ ordered_keys m.
Proof.
  intros [v Hv]. unfold ordered_keys. apply elem_of_map_to_list in Hv.
  induction (map_to_list m) as [|[k w] l IH]; cbn; [by apply elem_of_nil in Hv|]. rewrite set_insert_elem.
  apply elem_of_cons in Hv as [[= -> ->]|Hv]; [by left|right; by apply IH].
Qed.

Lemma totals_equal ins outs x :
  totals_match ins outs (ordered_keys outs) = Ok x -> size outs = size ins -> ins = outs.
Proof.
  intros H Hs. symmetry. apply map_subseteq_size_eq; [|lia].
  apply map_subseteq_spec. intros n u Hu. eapply totals_match_spec; [exact H| |exact Hu]. apply ordered_keys_elem. by exists u.
Qed.

(** ** What the loops collect *)

Section Laws.
Context (chain : asset_chain) (un : AssetType) (ts : CTxOut -> string) (fUnitTest : bool) (mapAssetToHash : gmap bytes bytes).
Context (assetCache : option AssetsView) (AccessCoin : COutPoint -> Coin) (mapReissuedAssets : gmap bytes bytes) (currentTime : Z).
Context (fCheckMempool fRunningUnitTests keep_messages : bool) (nBlocktime : Z).

(** The asset an input spends, with its holder. *)
Definition asset_in (i : CTxIn) : option CAssetOutputEntry :=
  if Coin_IsAsset (AccessCoin (prevout i)) then
    match GetAssetData (PUBKEY_ADDRESS chain) (SCRIPT_ADDRESS chain) (AreTransferScriptsSizeDeployed chain)
            (scriptPubKey (coin_out (AccessCoin (prevout i)))) with Ok r => r | Err _ => None end
  else None.

(** The transfer an output makes, with its receiver. *)
Definition transfer_out (o : CTxOut) : option (CAssetTransfer * bytes) :=
  match IsAssetScript (scriptPubKey o) with
  | Some (TX_TRANSFER_ASSET, _, _) =>
    match TransferAssetFromScript (PUBKEY_ADDRESS chain) (SCRIPT_ADDRESS chain) (AreTransferScriptsSizeDeployed chain) (scriptPubKey o) with
    | Ok r => r
    | Err _ => None
    end
  | _ => None
  end.

Definition inputs_of (ins : list CTxIn) : list (bytes * Z) := (fun d => (oe_assetName d, oe_nAmount d)) <$> omap asset_in ins.
Definition outputs_of (outs : list CTxOut) : list (bytes * Z) := (fun '(t, _) => (tr_strName t, tr_nAmount t)) <$> omap transfer_out outs.

(** A restricted asset is not sent from a frozen address. *)
Definition not_frozen (d : CAssetOutputEntry) : Prop :=
  IsAssetNameAnRestricted (oe_assetName d) = true ->
  exists cache address, assetCache = Some cache
  /\ EncodeDestination (PUBKEY_ADDRESS chain) (SCRIPT_ADDRESS chain) (oe_destination d) = Ok address
  /\ CheckForAddressRestriction (oe_assetName d) address true = false.

Lemma assets_in_loop_spec ins : forall m addrs l m' addrs',
  assets_in_loop chain assetCache AccessCoin ins m addrs = Ok (m', addrs') -> accounts m l ->
  accounts m' (l ++ inputs_of ins) /\ Forall not_frozen (omap asset_in ins).
Proof.
  induction ins as [|i ins IH]; intros m addrs l m' addrs' H Hm; cbn [assets_in_loop] in H.
  { injection H as <- <-. unfold inputs_of. cbn. rewrite app_nil_r. split; [done|constructor]. }
  destruct (IsSpent _); [done|].
  unfold inputs_of, asset_in. cbn [omap list_omap]. destruct (Coin_IsAsset _) eqn:Ea; cbn [negb] in H.
  2: { exact (IH _ _ _ _ _ H Hm). }
  ok_steps H. apply reject_none_Ok in E. apply halting_Ok in E0. rewrite E. cbn [fmap list_fmap].
  destruct (IH _ _ (l ++ [(oe_assetName r, oe_nAmount r)]) _ _ H) as [A F]; [by apply accounts_add|].
  split; [by rewrite <- app_assoc in A|]. constructor; [|exact F].
  intros Hr. rewrite Hr in E1. ok_steps E1. apply rejecting_Ok in E2. apply reject_if_Ok in E1.
  unfold deref in E2. destruct assetCache as [cache|] eqn:Ec; [|done]. injection E2 as <-. by exists cache, r0.
Qed.

(** A transfer of a restricted asset respects a global freeze, and its receiver
    satisfies the verifier string. *)
Definition verified (cache : AssetsView) (verifier address : bytes) : Prop :=
  verifier = chars "true" \/ address = [] \/ exists quals,
    CheckVerifierString verifier = Ok quals /\ Forall (fun q => CheckIfAssetExists (35 :: q) = true) quals
    /\ resolve verifier (list_to_map ((fun q => (q, CheckForAddressQualifier (35 :: q) address true)) <$> quals)) = Ok true.

Definition transfer_allowed (p : CAssetTransfer * bytes) : Prop :=
  let '(t, address) := p in
  0 < tr_nAmount t /\ exists ty, IsAssetNameValid (tr_strName t) = Ok ty
  /\ (ty = RESTRICTED -> exists cache verifier, assetCache = Some cache /\ CheckForGlobalRestriction (tr_strName t) true = false
        /\ GetAssetVerifierStringIfExists (tr_strName t) true = Some verifier /\ verified cache verifier address).

Lemma hiding_error_Ok {A} (r : rule A) x : hiding_error r = Ok x -> r = Ok x.
Proof. destruct r as [|[]]; done. Qed.

Lemma ContextualCheckVerifierString_spec cache verifier address x :
  ContextualCheckVerifierString (Some cache) verifier address = Ok x -> verified cache verifier address.
Proof.
  unfold ContextualCheckVerifierString, verified. destruct (bool_decide_reflect (verifier = chars "true")) as [|Hv]; [by left|].
  intros H. ok_steps H. destruct (bool_decide_reflect (address = [])) as [|Ha]; [by right; left|]. right; right. exists r.
  ok_step H. assert (Hq : Forall (fun q => CheckIfAssetExists (35 :: q) = true) r).
  { destruct (bool_decide_reflect (r = [])) as [->|]; [constructor|]. cbn [deref mbind result_bind] in E0. apply require_Ok in E0.
    unfold qualifiers_issued in E0. rewrite forallb_forall in E0. rewrite Forall_forall. intros q Hq. apply E0. by apply list_elem_of_In. }
  assert (r1 = (fun q => (q, CheckForAddressQualifier (35 :: q) address true)) <$> r) as ->.
  { destruct (bool_decide_reflect (r = [])) as [->|]; [by injection E1 as <-|]. by injection E1 as <-. }
  splits; [done|done|]. destruct (resolve _ _) as [ret|e]; [|by destruct e]. apply require_Ok in H. by subst.
Qed.

Lemma ContextualCheckTransferAsset_spec t address x :
  ContextualCheckTransferAsset chain assetCache t address = Ok x -> transfer_allowed (t, address).
Proof.
  unfold ContextualCheckTransferAsset, transfer_allowed. destruct (IsAssetNameValid (tr_strName t)) as [ty|]; [|done].
  intros H. do 3 ok_step H. apply require_Ok in E. b2p. split; [done|]. exists ty. split; [done|]. intros ->.
  ok_step H. destruct (decide _) in E2; [|done]. ok_steps E2. apply hiding_error_Ok in E2.
  unfold ContextualCheckAgainstVerifyString in E2. ok_step E2. destruct assetCache as [cache|] eqn:Ec; [|done].
  injection E5 as <-. destruct (GetAssetVerifierStringIfExists _ _) as [v|] eqn:Ev; [|done].
  apply require_Ok in E4. b2p. exists cache, v. splits; try done. by eapply ContextualCheckVerifierString_spec.
Qed.

Lemma assets_out_loop_spec hash outs : forall index addrs st l st',
  assets_out_loop chain assetCache mapReissuedAssets currentTime fRunningUnitTests keep_messages nBlocktime hash index addrs st outs = Ok st' ->
  accounts (totalOutputs st) l ->
  accounts (totalOutputs st') (l ++ outputs_of outs) /\ Forall transfer_allowed (omap transfer_out outs).
Proof.
  induction outs as [|o outs IH]; intros index addrs st l st' H Hm; cbn [assets_out_loop] in H.
  { injection H as <-. unfold outputs_of. cbn. rewrite app_nil_r. split; [done|constructor]. }
  ok_step H. unfold check_asset_output in E. ok_step E. clear E0. unfold outputs_of, transfer_out. cbn [omap list_omap].
  destruct (IsAssetScript (scriptPubKey o)) as [[[t w] idx]|]; [|injection E as <-; exact (IH _ _ _ _ _ H Hm)].
  destruct t; try (injection E as <-; exact (IH _ _ _ _ _ H Hm)).
  - ok_steps E. assert (totalOutputs r = totalOutputs st) as Heq.
    { destruct (mapReissuedAssets !! _); [ok_steps E|]; by injection E as <-. }
    rewrite <- Heq in Hm. exact (IH _ _ _ _ _ H Hm).
  - ok_steps E. apply reject_none_Ok in E0. rewrite E0. injection E as <-. cbn [fmap list_fmap].
    destruct (IH _ _ _ (l ++ [(tr_strName c, tr_nAmount c)]) _ H) as [A F]; [by apply accounts_add|].
    split; [by rewrite <- app_assoc in A|]. constructor; [|exact F].
    apply rejecting_Ok in E1. by eapply ContextualCheckTransferAsset_spec.
Qed.

Lemma transfers_positive outs name :
  Forall transfer_allowed (omap transfer_out outs) -> Forall (fun a => 0 < a) (amounts name (outputs_of outs)).
Proof.
  unfold amounts, outputs_of. intros F. induction F as [|[t addr] l [Ht _] F IH]; cbn; [constructor|].
  destruct (decide _); [by constructor|done].
Qed.

Abbreviation check_assets tx :=
  (CheckTxAssets chain ts fUnitTest mapAssetToHash assetCache AccessCoin mapReissuedAssets currentTime fCheckMempool
     fRunningUnitTests keep_messages nBlocktime tx).

(** Everything the accepted transaction satisfies. *)
Lemma CheckTxAssets_spec tx r : check_assets tx = Ok r ->
  Forall not_frozen (omap asset_in (vin tx)) /\ Forall transfer_allowed (omap transfer_out (vout tx))
  /\ forall name, (amounts name (inputs_of (vin tx)) = [] <-> amounts name (outputs_of (vout tx)) = [])
     /\ same64 (sum_Z (amounts name (inputs_of (vin tx)))) (sum_Z (amounts name (outputs_of (vout tx)))).
Proof.
  unfold CheckTxAssets. intros H. do 7 ok_step H. apply reject_if_Ok in E4. b2p.
  destruct (assets_in_loop_spec _ _ _ [] _ _ E0 accounts_empty) as [A F].
  destruct (assets_out_loop_spec _ _ _ _ _ [] _ E1 accounts_empty) as [A' F'].
  splits; [done|done|]. apply (accounts_equal _ _ _ _ A A'). by eapply totals_equal.
Qed.

Lemma IsAssetScript_types s t w idx :
  IsAssetScript s = Some (t, w, idx) -> t = TX_TRANSFER_ASSET \/ t = TX_NEW_ASSET \/ t = TX_REISSUE_ASSET.
Proof.
  unfold IsAssetScript. repeat split_if; try done. destruct (asset_marker s); [|done].
  repeat split_if; try done; intros [= <- <- <-]; auto.
Qed.

(** The address of an asset output is never empty. *)
Lemma asset_address_nonempty a b s t w idx addr :
  is_u8 a -> is_u8 b -> a <> b -> is_bytes s -> IsAssetScript s = Some (t, w, idx) ->
  script_address [a] [b] s = Ok addr -> addr <> [].
Proof.
  intros Ha Hb Hab Hs Hi. assert (Hl : (31 < length s)%nat).
  { unfold IsAssetScript in Hi. destruct (Nat.ltb_spec 31 (length s)); [done|discriminate Hi]. }
  assert (Hd : ExtractDestination s = Some (CKeyID (take 20 (drop 3 s)))).
  { unfold ExtractDestination, Solver. replace (IsPayToScriptHash s) with false.
    2: { unfold IsPayToScriptHash. by rewrite (proj2 (Nat.eqb_neq (length s) 23)) by lia. }
    rewrite Hi. by destruct (IsAssetScript_types _ _ _ _ Hi) as [->|[->| ->]]. }
  unfold script_address. rewrite Hd. cbn [default]. intros He.
  destruct (address_roundtrip a b Ha Hb Hab (CKeyID (take 20 (drop 3 s)))) as (addr' & E & D & _).
  { split; [by apply Forall_take, Forall_drop|]. rewrite length_take, length_drop. lia. }
  unfold id in *. rewrite E in He. injection He as <-. intros ->. vm_compute in D. discriminate D.
Qed.
End Laws.

Lemma transfer_out_address chain a b o t address :
  is_u8 a -> is_u8 b -> a <> b -> PUBKEY_ADDRESS chain = [a] -> SCRIPT_ADDRESS chain = [b] -> is_bytes (scriptPubKey o) ->
  transfer_out chain o = Some (t, address) -> address <> [].
Proof.
  intros Ha Hb Hab Hp Hs Ho. unfold transfer_out, TransferAssetFromScript, IsScriptTransferAsset. rewrite Hp, Hs.
  destruct (IsAssetScript (scriptPubKey o)) as [[[ty w] idx]|] eqn:Ei; [|done]. destruct ty; try done.
  destruct (script_address [a] [b] (scriptPubKey o)) as [addr|] eqn:Ea; cbn [mbind result_bind]; [|done].
  intros H. destruct (from_stream _ _); [|done].
  injection H as <- <-. exact (asset_address_nonempty a b _ _ _ _ _ Ha Hb Hab Ho Ei Ea).
Qed.

(** C13: Transfers conserve assets.  In a transaction that [CheckTxAssets] accepts, the
    assets of the inputs are those of the transfer outputs, every transferred amount is
    positive, and for each asset the sum of the amounts of the inputs and the sum of the
    amounts of the transfer outputs agree modulo 2^64; they are equal when both are below
    2^64.  What issue and reissue outputs create is not part of either sum. *)
Theorem CheckTxAssets_conserves chain ts fUnitTest mapAssetToHash assetCache AccessCoin mapReissuedAssets now fMem fTests keep nBlocktime tx r :
  CheckTxAssets chain ts fUnitTest mapAssetToHash assetCache AccessCoin mapReissuedAssets now fMem fTests keep nBlocktime tx = Ok r ->
  forall name, let ins := amounts name (inputs_of chain AccessCoin (vin tx)) in
  let outs := amounts name (outputs_of chain (vout tx)) in
  (ins = [] <-> outs = []) /\ Forall (fun a => 0 < a) outs /\ same64 (sum_Z ins) (sum_Z outs)
  /\ (0 <= sum_Z ins < 2 ^ 64 -> sum_Z outs < 2 ^ 64 -> sum_Z ins = sum_Z outs).
Proof.
  intros H name ins outs. destruct (CheckTxAssets_spec _ _ _ _ _ _ _ _ _ _ _ _ _ _ H) as (_ & F & C).
  destruct (C name) as [Hiff Hs]. fold ins outs in Hiff, Hs.
  assert (Hpos : Forall (fun a => 0 < a) outs) by (by eapply transfers_positive).
  splits; try done.
  intros Hi Ho. unfold same64 in Hs. pose proof (sum_pos _ Hpos). rewrite !Z.mod_small in Hs by lia. done.
Qed.

(** C36: Restricted assets stay where they may be.  In a transaction that [CheckTxAssets]
    accepts no restricted asset is spent from a frozen address; and a transfer of one is
    not globally frozen, its verifier string is known, and the string is the constant
    [true] or a formula over issued qualifiers that the tags of the receiving address
    make true. *)
Theorem restricted_assets_enforced chain ts fUnitTest mapAssetToHash assetCache AccessCoin mapReissuedAssets now fMem fTests keep nBlocktime
    tx r a b :
  is_u8 a -> is_u8 b -> a <> b -> PUBKEY_ADDRESS chain = [a] -> SCRIPT_ADDRESS chain = [b] ->
  Forall (fun o => is_bytes (scriptPubKey o)) (vout tx) ->
  CheckTxAssets chain ts fUnitTest mapAssetToHash assetCache AccessCoin mapReissuedAssets now fMem fTests keep nBlocktime tx = Ok r ->
  (forall i d, i ∈ vin tx -> asset_in chain AccessCoin i = Some d -> IsAssetNameAnRestricted (oe_assetName d) = true ->
     exists cache address, assetCache = Some cache /\ EncodeDestination [a] [b] (oe_destination d) = Ok address
     /\ CheckForAddressRestriction (oe_assetName d) address true = false)
  /\ (forall o t address, o ∈ vout tx -> transfer_out chain o = Some (t, address) -> IsAssetNameValid (tr_strName t) = Ok RESTRICTED ->
     exists cache verifier, assetCache = Some cache /\ CheckForGlobalRestriction (tr_strName t) true = false
     /\ GetAssetVerifierStringIfExists (tr_strName t) true = Some verifier
     /\ (verifier = chars "true" \/ exists quals,
          CheckVerifierString verifier = Ok quals /\ Forall (fun q => CheckIfAssetExists (35 :: q) = true) quals
          /\ resolve verifier (list_to_map ((fun q => (q, CheckForAddressQualifier (35 :: q) address true)) <$> quals)) = Ok true)).
Proof.
  intros Ha Hb Hab Hp Hs Ho H. destruct (CheckTxAssets_spec _ _ _ _ _ _ _ _ _ _ _ _ _ _ H) as (F1 & F2 & _).
  rewrite Forall_forall in F1. rewrite Forall_forall in F2. rewrite Forall_forall in Ho. split.
  - intros i d Hi Hd Hr. destruct (F1 d) as (cache & address & E1 & E2 & E3); [apply list_elem_of_omap; by exists i|done|].
    rewrite Hp, Hs in E2. by exists cache, address.
  - intros o t address Hin Hd Hty. destruct (F2 (t, address)) as (_ & ty & Et & Hv); [apply list_elem_of_omap; by exists o|].
    rewrite Hty in Et. injection Et as <-. destruct (Hv eq_refl) as (cache & v & E1 & E2 & E3 & [Ev|[->|E4]]);
      exists cache, v; splits; try done; [by left| |by right].
    exfalso. by apply (transfer_out_address chain a b o t [] Ha Hb Hab Hp Hs (Ho o Hin) Hd).
Qed.

(** ** Examples *)

(** Two assets, the restricted one for addresses with the tag [#KYC], which every address has. *)
#[local] Instance example_view : AssetsView := mkView
  (fun name => bool_decide (name ∈ [chars "TOKEN"; chars "$TOKEN"; chars "#KYC"]))
  (fun name => if bool_decide (name ∈ [chars "TOKEN"; chars "$TOKEN"]) then Some (mkNewAsset name (1000 * COIN) 8 1 0 []) else None)
  (fun name _ => if bool_decide (name = chars "$TOKEN") then Some (chars "KYC") else None)
  (fun _ _ _ => true) (fun _ _ _ => false) (fun _ _ => false).

Definition transfer_to_key (name : bytes) (nAmount : Z) : CTxOut :=
  mkTxOut 0 (Transfer_ConstructTransaction (mkTransfer name nAmount [] 0) example_key).
Definition example_coin (name : bytes) (nAmount : Z) (_ : COutPoint) : Coin := mkCoin (transfer_to_key name nAmount) false 1.
Abbreviation example_check coin tx :=
  (CheckTxAssets test_chain (fun _ => EmptyString) false ∅ (Some example_view) coin ∅ 0 true false false 0 tx).

Lemma CheckTxAssets_conserves_witness :
  let tx := example_tx [transfer_to_key (chars "TOKEN") 60; transfer_to_key (chars "TOKEN") 40] in
  example_check (example_coin (chars "TOKEN") 100) tx = Ok ([], [])
  /\ sum_Z (amounts (chars "TOKEN") (inputs_of test_chain (example_coin (chars "TOKEN") 100) (vin tx)))
     = sum_Z (amounts (chars "TOKEN") (outputs_of test_chain (vout tx))).
Proof.
  intros tx. split; [vm_compute; reflexivity|].
  eapply (CheckTxAssets_conserves test_chain (fun _ => EmptyString) false ∅ (Some example_view) (example_coin (chars "TOKEN") 100) ∅ 0
            true false false 0 tx ([], [])); vm_compute; [reflexivity|split; [discriminate|reflexivity]|reflexivity].
Defined.

Lemma restricted_assets_enforced_witness :
  let tx := example_tx [transfer_to_key (chars "$TOKEN") 100] in
  example_check (example_coin (chars "$TOKEN") 100) tx = Ok ([], [])
  /\ exists o t address, o ∈ vout tx /\ transfer_out test_chain o = Some (t, address)
     /\ IsAssetNameValid (tr_strName t) = Ok RESTRICTED
     /\ exists cache : AssetsView, CheckForGlobalRestriction (tr_strName t) true = false.
Proof.
  intros tx. split; [vm_compute; reflexivity|].
  destruct (restricted_assets_enforced test_chain (fun _ => EmptyString) false ∅ (Some example_view) (example_coin (chars "$TOKEN") 100) ∅ 0
              true false false 0 tx ([], []) 111 196) as [_ H];
    [ranges; lia|ranges; lia|lia|reflexivity|reflexivity| |vm_compute; reflexivity|].
  - apply Forall_forall. intros o. rewrite list_elem_of_In. intros [<-|[]].
    unfold is_u8. apply (bool_decide_unpack _). vm_compute. exact I.
  - destruct (transfer_out test_chain (transfer_to_key (chars "$TOKEN") 100)) as [[t address]|] eqn:E; [|vm_compute in E; discriminate E].
    assert (Ht : tr_strName t = chars "$TOKEN") by (vm_compute in E; injection E as <- <-; reflexivity).
    destruct (H (transfer_to_key (chars "$TOKEN") 100) t address) as (cache & v & _ & Hg & _);
      [left|exact E|rewrite Ht; vm_compute; reflexivity|].
    exists (transfer_to_key (chars "$TOKEN") 100), t, address. split; [left|]. split; [exact E|].
    split; [rewrite Ht; vm_compute; reflexivity|]. by exists cache.
Defined.
