(* ===== verification/Coins.v ===== *)
(** * The set of unspent outputs: [src/coins.{h,cpp}] and [CCoinsViewDB] of [src/txdb.cpp]

    A stack of views: the database at the bottom, and above it caches that hold
    modified entries until they are flushed to the view below.  Lookups fill the
    caches, so every operation returns the new stack.  The memory accounting of the
    caches is not modelled, and of [AddCoins] and [SpendCoin] the coins only.  The database
    maps outpoints to coins; the bytes that stand for a coin on disk are those of
    [Compressor], which gives back every coin with an amount in the money range, a script of
    at most 10000 bytes and a height below 2^30.

    The theorems show that a stack implements one map of unspent outputs, whatever the
    caches hold, and that a database write that is cut short can be repeated. *)

From S2P Require Import Prelude Params Serialize Script Transaction Compressor AssetScripts TxVerify.

#[global] Instance COutPoint_countable : Countable COutPoint.
Proof.
  refine (inj_countable' (fun o => (op_hash o, op_n o)) (fun '(h, n) => mkOutPoint h n) _). by intros [].
Defined.

(** ** The database *)

(** The keys [DB_COIN], [DB_BEST_BLOCK] and [DB_HEAD_BLOCKS]. *)
Record coins_db := mkDb { db_coins : gmap COutPoint Coin; db_best : option bytes; db_heads : option (list bytes) }.

(** A batch is written as a whole, its operations in their order. *)
Inductive db_op := WriteCoin (o : COutPoint) (c : Coin) | EraseCoin (o : COutPoint)
| EraseBest | WriteBest (h : bytes) | EraseHeads | WriteHeads (hs : list bytes).

Definition db_apply (d : coins_db) (op : db_op) : coins_db :=
  match op with
  | WriteCoin o c => mkDb (<[o := c]> (db_coins d)) (db_best d) (db_heads d)
  | EraseCoin o => mkDb (delete o (db_coins d)) (db_best d) (db_heads d)
  | EraseBest => mkDb (db_coins d) None (db_heads d)
  | WriteBest h => mkDb (db_coins d) (Some h) (db_heads d)
  | EraseHeads => mkDb (db_coins d) (db_best d) None
  | WriteHeads hs => mkDb (db_coins d) (db_best d) (Some hs)
  end.
Definition WriteBatch (d : coins_db) (batch : list db_op) : coins_db := foldl db_apply d batch.

Definition db_GetBestBlock (d : coins_db) : bytes := default null_uint256 (db_best d).
Definition db_GetHeadBlocks (d : coins_db) : list bytes := default [] (db_heads d).

(** ** Cache entries *)

(** [CCoinsCacheEntry], with its two flags. *)
Record CCoinsCacheEntry := mkEntry { ce_coin : Coin; DIRTY : bool; FRESH : bool }.
Abbreviation CCoinsMap := (gmap COutPoint CCoinsCacheEntry).

Inductive coins_exit := LogicError (what : string) | CoinsHalt (f : fault).

Section Database.
(** [batch.SizeEstimate() > batch_size]. *)
Context (full : list db_op -> bool).

Definition entry_ops (o : COutPoint) (e : CCoinsCacheEntry) : list db_op :=
  if DIRTY e then [if IsSpent (ce_coin e) then EraseCoin o else WriteCoin o (ce_coin e)] else [].

(** The loop: the batch under construction, and the states that partial batches leave. *)
Fixpoint db_write_loop (d : coins_db) (batch : list db_op) (entries : list (COutPoint * CCoinsCacheEntry))
  : coins_db * list db_op * list coins_db :=
  match entries with
  | [] => (d, batch, [])
  | (o, e) :: entries =>
    let batch := batch ++ entry_ops o e in
    if full batch then
      let d := WriteBatch d batch in
      let '(d', batch', written) := db_write_loop d [] entries in (d', batch', d :: written)
    else db_write_loop d batch entries
  end.

Definition db_old_tip (d : coins_db) (hashBlock : bytes) : result coins_exit bytes :=
  let old_tip := db_GetBestBlock d in
  if uint256_IsNull old_tip then
    match db_GetHeadBlocks d with
    | [h; old] => if decide (h = hashBlock) then Ok old else Err (CoinsHalt AssertFailure)
    | _ => Ok old_tip
    end
  else Ok old_tip.

(** The final state, and the states in between. *)
Definition db_BatchWrite (d : coins_db) (entries : list (COutPoint * CCoinsCacheEntry)) (hashBlock : bytes)
  : result coins_exit (coins_db * list coins_db) :=
  if uint256_IsNull hashBlock then Err (CoinsHalt AssertFailure)
  else
    old_tip ← db_old_tip d hashBlock;
    let '(d', batch, written) := db_write_loop d [EraseBest; WriteHeads [hashBlock; old_tip]] entries in
    Ok (WriteBatch d' (batch ++ [EraseHeads; WriteBest hashBlock]), written).
End Database.

(** ** Views *)

Inductive view :=
| CCoinsViewDB (d : coins_db)
| CCoinsViewCache (hashBlock : bytes) (cacheCoins : CCoinsMap) (base : view).

(** A cache is the top of a stack. *)
Record cache := mkCache { hashBlock : bytes; cacheCoins : CCoinsMap; base : view }.
Definition as_view (c : cache) : view := CCoinsViewCache (hashBlock c) (cacheCoins c) (base c).

(** [FetchCoin], given what [base->GetCoin] does. *)
Definition fetch (base_GetCoin : COutPoint -> view * option Coin) (c : cache) (outpoint : COutPoint) : cache * option CCoinsCacheEntry :=
  match cacheCoins c !! outpoint with
  | Some e => (c, Some e)
  | None =>
    match base_GetCoin outpoint with
    | (base, None) => (mkCache (hashBlock c) (cacheCoins c) base, None)
    | (base, Some tmp) =>
      let e := mkEntry tmp false (IsSpent tmp) in
      (mkCache (hashBlock c) (<[outpoint := e]> (cacheCoins c)) base, Some e)
    end
  end.

Fixpoint GetCoin (v : view) (outpoint : COutPoint) : view * option Coin :=
  match v with
  | CCoinsViewDB d => (v, db_coins d !! outpoint)
  | CCoinsViewCache h m base =>
    match fetch (GetCoin base) (mkCache h m base) outpoint with
    | (c, Some e) => (as_view c, if IsSpent (ce_coin e) then None else Some (ce_coin e))
    | (c, None) => (as_view c, None)
    end
  end.

Definition FetchCoin (c : cache) : COutPoint -> cache * option CCoinsCacheEntry := fetch (GetCoin (base c)) c.

Definition AccessCoin (c : cache) (outpoint : COutPoint) : cache * Coin :=
  match FetchCoin c outpoint with
  | (c, Some e) => (c, ce_coin e)
  | (c, None) => (c, Coin_empty)
  end.

Definition HaveCoin (c : cache) (outpoint : COutPoint) : cache * bool :=
  match FetchCoin c outpoint with
  | (c, Some e) => (c, negb (IsSpent (ce_coin e)))
  | (c, None) => (c, false)
  end.

Definition HaveCoinInCache (c : cache) (outpoint : COutPoint) : bool :=
  match cacheCoins c !! outpoint with Some e => negb (IsSpent (ce_coin e)) | None => false end.

Definition with_coins (c : cache) (m : CCoinsMap) : cache := mkCache (hashBlock c) m (base c).

Definition AddCoin (c : cache) (outpoint : COutPoint) (coin : Coin) (possible_overwrite : bool) : result coins_exit cache :=
  if IsSpent coin then Err (CoinsHalt AssertFailure)
  else if IsUnspendable (scriptPubKey (coin_out coin)) then Ok c
  else
    let it := default (mkEntry Coin_empty false false) (cacheCoins c !! outpoint) in
    if negb possible_overwrite && negb (IsSpent (ce_coin it)) then
      Err (LogicError "Adding new coin that replaces non-pruned entry")
    else
      let fresh := negb possible_overwrite && negb (DIRTY it) in
      Ok (with_coins c (<[outpoint := mkEntry coin true (FRESH it || fresh)]> (cacheCoins c))).

(** The coin moved out, or [None] when there is no entry. *)
Definition SpendCoin (c : cache) (outpoint : COutPoint) : cache * option Coin :=
  match FetchCoin c outpoint with
  | (c, None) => (c, None)
  | (c, Some e) =>
    (with_coins c (if FRESH e then delete outpoint (cacheCoins c)
                   else <[outpoint := mkEntry (Coin_Clear (ce_coin e)) true false]> (cacheCoins c)),
     Some (ce_coin e))
  end.

Definition Uncache (c : cache) (outpoint : COutPoint) : cache :=
  match cacheCoins c !! outpoint with
  | Some e => if negb (DIRTY e) && negb (FRESH e) then with_coins c (delete outpoint (cacheCoins c)) else c
  | None => c
  end.

Definition SetBestBlock (c : cache) (h : bytes) : cache := mkCache h (cacheCoins c) (base c).

Fixpoint view_GetBestBlock (v : view) : view * bytes :=
  match v with
  | CCoinsViewDB d => (v, db_GetBestBlock d)
  | CCoinsViewCache h m base =>
    if uint256_IsNull h then let '(base, h) := view_GetBestBlock base in (CCoinsViewCache h m base, h) else (v, h)
  end.

(** The step of [CCoinsViewCache::BatchWrite] for one entry of the child. *)
Definition merge_entry (m : CCoinsMap) (o : COutPoint) (e : CCoinsCacheEntry) : result coins_exit CCoinsMap :=
  if negb (DIRTY e) then Ok m
  else
    match m !! o with
    | None => Ok (if FRESH e && IsSpent (ce_coin e) then m else <[o := mkEntry (ce_coin e) true (FRESH e)]> m)
    | Some us =>
      if FRESH e && negb (IsSpent (ce_coin us)) then
        Err (LogicError "FRESH flag misapplied to cache entry for base transaction with spendable outputs")
      else Ok (if FRESH us && IsSpent (ce_coin e) then delete o m else <[o := mkEntry (ce_coin e) true (FRESH us)]> m)
    end.

Fixpoint merge_entries (m : CCoinsMap) (entries : list (COutPoint * CCoinsCacheEntry)) : result coins_exit CCoinsMap :=
  match entries with
  | [] => Ok m
  | (o, e) :: entries => m ← merge_entry m o e; merge_entries m entries
  end.

Definition BatchWrite (full : list db_op -> bool) (v : view) (mapCoins : CCoinsMap) (hashBlockIn : bytes) : result coins_exit view :=
  match v with
  | CCoinsViewDB d => let* (d, _) := db_BatchWrite full d (map_to_list mapCoins) hashBlockIn in Ok (CCoinsViewDB d)
  | CCoinsViewCache _ m base => m ← merge_entries m (map_to_list mapCoins); Ok (CCoinsViewCache hashBlockIn m base)
  end.

Definition Flush (full : list db_op -> bool) (c : cache) : result coins_exit cache :=
  base ← BatchWrite full (base c) (cacheCoins c) (hashBlock c);
  Ok (mkCache (hashBlock c) ∅ base).

(** The coins of a transaction. *)
Fixpoint add_coins_loop (c : cache) (txid : bytes) (i : Z) (outs : list CTxOut) (nHeight : Z) (fCoinbase check : bool)
  : result coins_exit cache :=
  match outs with
  | [] => Ok c
  | out :: outs =>
    let o := mkOutPoint txid (u32 i) in
    let '(c, overwrite) := if check then HaveCoin c o else (c, fCoinbase) in
    c ← AddCoin c o (mkCoin out fCoinbase nHeight) overwrite;
    add_coins_loop c txid (i + 1) outs nHeight fCoinbase check
  end.
Definition AddCoins (c : cache) (tx : CTransaction) (nHeight : Z) (check : bool) : result coins_exit cache :=
  add_coins_loop c (GetHash tx) 0 (vout tx) nHeight (IsCoinBase tx) check.

Fixpoint have_inputs_loop (c : cache) (ins : list CTxIn) : cache * bool :=
  match ins with
  | [] => (c, true)
  | i :: ins => match HaveCoin c (prevout i) with (c, true) => have_inputs_loop c ins | (c, false) => (c, false) end
  end.
Definition HaveInputs (c : cache) (tx : CTransaction) : cache * bool :=
  if IsCoinBase tx then (c, true) else have_inputs_loop c (vin tx).

Fixpoint value_in (c : cache) (ins : list CTxIn) (nResult : Z) : cache * Z :=
  match ins with
  | [] => (c, nResult)
  | i :: ins => let '(c, coin) := AccessCoin c (prevout i) in value_in c ins (i64 (nResult + nValue (coin_out coin)))
  end.
Definition GetValueIn (c : cache) (tx : CTransaction) : cache * Z :=
  if IsCoinBase tx then (c, 0) else value_in c (vin tx) 0.

(** ** The map a stack of views stands for *)

Definition unspent (c : Coin) : option Coin := if IsSpent c then None else Some c.

Fixpoint utxo (v : view) (o : COutPoint) : option Coin :=
  match v with
  | CCoinsViewDB d => db_coins d !! o ≫= unspent
  | CCoinsViewCache _ m base => match m !! o with Some e => unspent (ce_coin e) | None => utxo base o end
  end.

(** Views with the same unspent outputs. *)
#[global] Instance view_equiv : Equiv view := fun v w => forall o, utxo v o = utxo w o.
#[global] Instance view_equivalence : Equivalence (≡@{view}).
Proof. split; [by intros v o|by intros v w H o; rewrite H|by intros u v w H1 H2 o; rewrite H1]. Qed.

(** What the flags promise: a fresh entry is not unspent below, and a clean entry is as below. *)
Definition entry_ok (base : view) (o : COutPoint) (e : CCoinsCacheEntry) : Prop :=
  (FRESH e = true -> utxo base o = None) /\ (DIRTY e = false -> utxo base o = unspent (ce_coin e)).

Fixpoint wf (v : view) : Prop :=
  match v with
  | CCoinsViewDB d => db_heads d = None
  | CCoinsViewCache _ m base => wf base /\ map_Forall (entry_ok base) m
  end.

Lemma unspent_idemp c : unspent c ≫= unspent = unspent c.
Proof. unfold unspent. destruct (IsSpent c) eqn:E; cbn; [done|]. by rewrite E. Qed.

#[global] Instance cache_proper h m : Proper ((≡) ==> (≡)) (CCoinsViewCache h m).
Proof. intros v w H o. cbn. destruct (m !! o); [done|apply H]. Qed.

#[global] Instance entry_ok_proper : Proper ((≡) ==> eq ==> eq ==> iff) entry_ok.
Proof. intros v w H o ? <- e ? <-. unfold entry_ok. by rewrite (H o). Qed.

(** ** Lookups *)

Lemma wf_replace_base h m v w : v ≡ w -> wf w -> wf (CCoinsViewCache h m v) -> wf (CCoinsViewCache h m w).
Proof. intros H Hw [_ Hm]. split; [done|]. intros o e He. rewrite <- H. by apply Hm. Qed.

(** A lookup in a cache, from what lookups in its base do. *)
Lemma fetch_spec getcoin c o c' r :
  (forall o v' r, getcoin o = (v', r) -> wf (base c) -> wf v' /\ v' ≡ base c /\ r ≫= unspent = utxo (base c) o) ->
  wf (as_view c) -> fetch getcoin c o = (c', r) ->
  wf (as_view c') /\ as_view c' ≡ as_view c /\ cacheCoins c' !! o = r /\ hashBlock c' = hashBlock c
  /\ ((e ← r; unspent (ce_coin e)) = utxo (as_view c) o).
Proof.
  intros Hget Hc. unfold fetch. pose proof Hc as [Hb Hm].
  destruct (cacheCoins c !! o) as [e|] eqn:Ee.
  { intros [= <- <-]. splits; try done. cbn. by rewrite Ee. }
  destruct (getcoin o) as [b [tmp|]] eqn:Eg; destruct (Hget _ _ _ Eg Hb) as (Hb' & Hbe & Hr); intros [= <- <-].
  - cbn in Hr. splits; try done.
    + split; [done|]. cbn. apply map_Forall_insert_2; [|intros p q Hq; rewrite Hbe; by apply Hm].
      unfold entry_ok. cbn. rewrite (Hbe o), <- Hr. unfold unspent. by destruct (IsSpent tmp).
    + intros p. cbn [utxo as_view with_coins cacheCoins hashBlock base]. destruct (decide (o = p)) as [<-|Hne]; [rewrite lookup_insert_eq, Ee; by rewrite <- Hr|].
      rewrite lookup_insert_ne by done. destruct (cacheCoins c !! p); [done|apply Hbe].
    + cbn [cacheCoins]. by rewrite lookup_insert_eq.
    + cbn. by rewrite Ee.
  - cbn in Hr. splits; try done.
    + split; [done|]. intros p q Hq. cbn. rewrite Hbe. by apply Hm.
    + intros p. cbn [utxo as_view with_coins cacheCoins hashBlock base]. destruct (cacheCoins c !! p); [done|apply Hbe].
    + cbn. by rewrite Ee.
Qed.

Lemma GetCoin_spec v : forall o v' r,
  GetCoin v o = (v', r) -> wf v -> wf v' /\ v' ≡ v /\ r ≫= unspent = utxo v o.
Proof.
  induction v as [d|h m base IH]; intros o v' r; cbn [GetCoin].
  { by intros [= <- <-]. }
  destruct (fetch (GetCoin base) (mkCache h m base) o) as [c e] eqn:Ef. intros H Hw.
  destruct (fetch_spec _ (mkCache h m base) _ _ _ IH Hw Ef) as (W & Eq & _ & _ & Hu).
  assert (v' = as_view c /\ r = (e ← e; unspent (ce_coin e))) as [-> ->] by (destruct e; by injection H as <- <-).
  splits; [done|done|]. etrans; [|exact Hu]. destruct e; [|done]. cbn. apply unspent_idemp.
Qed.

Lemma FetchCoin_spec c o c' r :
  wf (as_view c) -> FetchCoin c o = (c', r) ->
  wf (as_view c') /\ as_view c' ≡ as_view c /\ cacheCoins c' !! o = r /\ hashBlock c' = hashBlock c
  /\ ((e ← r; unspent (ce_coin e)) = utxo (as_view c) o).
Proof. apply fetch_spec, GetCoin_spec. Qed.

(** ** Modifications *)

Lemma wf_insert c o e :
  wf (as_view c) -> (FRESH e = true -> utxo (base c) o = None) -> DIRTY e = true -> wf (as_view (with_coins c (<[o := e]> (cacheCoins c)))).
Proof.
  intros [Hb Hm] Hf Hd. split; [done|]. cbn. apply map_Forall_insert_2; [|done]. split; [done|]. by rewrite Hd.
Qed.

Lemma utxo_insert c o e p :
  utxo (as_view (with_coins c (<[o := e]> (cacheCoins c)))) p = if decide (p = o) then unspent (ce_coin e) else utxo (as_view c) p.
Proof.
  cbn [utxo as_view with_coins cacheCoins hashBlock base]. destruct (decide (p = o)) as [->|]; [by rewrite lookup_insert_eq|]. by rewrite lookup_insert_ne.
Qed.

Lemma AddCoin_spec c o coin po :
  wf (as_view c) -> IsSpent coin = false -> (po = false -> utxo (as_view c) o = None) ->
  exists c', AddCoin c o coin po = Ok c' /\ wf (as_view c') /\ hashBlock c' = hashBlock c
  /\ forall p, utxo (as_view c') p = if IsUnspendable (scriptPubKey (coin_out coin)) then utxo (as_view c) p
                               else if decide (p = o) then Some coin else utxo (as_view c) p.
Proof.
  intros Hw Hs Hpo. unfold AddCoin. rewrite Hs. destruct (IsUnspendable _); [by exists c|].
  pose proof Hw as [_ Hm].
  set (it := default _ _). assert (Hit : po = false -> IsSpent (ce_coin it) = true).
  { intros H. specialize (Hpo H). unfold it. cbn in Hpo. destruct (cacheCoins c !! o) as [e|]; [|done].
    cbn. unfold unspent in Hpo. by destruct (IsSpent (ce_coin e)). }
  destruct (negb po && negb (IsSpent (ce_coin it))) eqn:E.
  { b2p. specialize (Hit H). congruence. }
  eexists. split; [done|]. splits; [|done|].
  - apply wf_insert; [done| |done]. cbn. intros Hf. apply orb_true_iff in Hf as [Hf|Hf].
    + unfold it in Hf. destruct (cacheCoins c !! o) as [e|] eqn:Ee; [|done]. by apply (Hm _ _ Ee).
    + b2p. unfold it in *. specialize (Hpo H). cbn in Hpo. destruct (cacheCoins c !! o) as [e|] eqn:Ee; [|done].
      destruct (Hm _ _ Ee) as [_ Hd]. rewrite Hd by done. exact Hpo.
  - intros p. rewrite utxo_insert. cbn [ce_coin]. unfold unspent at 1. by rewrite Hs.
Qed.

Lemma SpendCoin_spec c o c' r :
  wf (as_view c) -> SpendCoin c o = (c', r) ->
  wf (as_view c') /\ hashBlock c' = hashBlock c /\ r ≫= unspent = utxo (as_view c) o
  /\ forall p, utxo (as_view c') p = if decide (p = o) then None else utxo (as_view c) p.
Proof.
  intros Hw. unfold SpendCoin. destruct (FetchCoin c o) as [c1 [e|]] eqn:Ef;
    destruct (FetchCoin_spec _ _ _ _ Hw Ef) as (W & Eq & El & Eh & Hu); intros [= <- <-].
  - destruct (FRESH e) eqn:Efr.
    + destruct W as [Wb Wm]. splits; try done.
      * split; [done|]. intros p q Hq. cbn in Hq. apply lookup_delete_Some in Hq as [_ Hq]. by apply Wm.
      * intros p. rewrite <- (Eq p). cbn [utxo as_view with_coins cacheCoins hashBlock base]. destruct (decide (p = o)) as [->|].
        -- rewrite lookup_delete_eq. by apply (Wm _ _ El).
        -- by rewrite lookup_delete_ne.
    + splits; try done; [by apply wf_insert|]. intros p. rewrite utxo_insert. destruct (decide (p = o)); [done|apply Eq].
  - splits; try done. intros p. destruct (decide (p = o)) as [->|]; [|apply Eq]. rewrite (Eq o). by rewrite <- Hu.
Qed.

Lemma Uncache_spec c o : wf (as_view c) -> wf (as_view (Uncache c o)) /\ as_view (Uncache c o) ≡ as_view c /\ hashBlock (Uncache c o) = hashBlock c.
Proof.
  intros Hw. unfold Uncache. destruct (cacheCoins c !! o) as [e|] eqn:Ee; [|done].
  destruct (negb (DIRTY e) && negb (FRESH e)) eqn:E; [|done]. b2p. destruct Hw as [Wb Wm]. splits; try done.
  - split; [done|]. intros p q Hq. cbn in Hq. apply lookup_delete_Some in Hq as [_ Hq]. by apply Wm.
  - intros p. cbn [utxo as_view with_coins cacheCoins hashBlock base]. destruct (decide (p = o)) as [->|]; [|by rewrite lookup_delete_ne].
    rewrite lookup_delete_eq, Ee. by apply (Wm _ _ Ee).
Qed.

(** ** Writing to a cache below *)

Lemma merge_entry_spec h m base o e :
  wf (CCoinsViewCache h m base) -> entry_ok (CCoinsViewCache h m base) o e ->
  exists m', merge_entry m o e = Ok m' /\ wf (CCoinsViewCache h m' base)
  /\ forall p, utxo (CCoinsViewCache h m' base) p = if decide (p = o) then unspent (ce_coin e) else utxo (CCoinsViewCache h m base) p.
Proof.
  intros Hw [Hf Hd]. set (c := mkCache h m base). unfold merge_entry.
  assert (Hins : forall fr, (fr = true -> utxo base o = None) ->
    wf (CCoinsViewCache h (<[o := mkEntry (ce_coin e) true fr]> m) base) /\
    forall p, utxo (CCoinsViewCache h (<[o := mkEntry (ce_coin e) true fr]> m) base) p
         = if decide (p = o) then unspent (ce_coin e) else utxo (CCoinsViewCache h m base) p).
  { intros fr Hfr. split; [by apply (wf_insert c)|]. intros p. exact (utxo_insert c o (mkEntry (ce_coin e) true fr) p). }
  destruct (DIRTY e) eqn:Ed; cbn [negb].
  2: { exists m. splits; try done. intros p. destruct (decide (p = o)) as [->|]; [by apply Hd|done]. }
  destruct Hw as [Wb Wm]. cbn [utxo] in Hf. destruct (m !! o) as [us|] eqn:Em.
  - destruct (FRESH e && negb (IsSpent (ce_coin us))) eqn:Et.
    { b2p. specialize (Hf H). unfold unspent in Hf. by rewrite H0 in Hf. }
    eexists. split; [done|]. destruct (Wm _ _ Em) as [Wf _].
    destruct (FRESH us) eqn:Efu; cbn [andb]; [|by apply Hins]. destruct (IsSpent (ce_coin e)) eqn:Es; [|by apply Hins].
    split.
    + split; [done|]. intros p q Hq. apply lookup_delete_Some in Hq as [_ Hq]. by apply Wm.
    + intros p. cbn [utxo]. destruct (decide (p = o)) as [->|].
      * rewrite lookup_delete_eq, Wf by done. unfold unspent. by rewrite Es.
      * by rewrite lookup_delete_ne.
  - eexists. split; [done|]. destruct (FRESH e) eqn:Efe; cbn [andb]; [|by apply Hins].
    destruct (IsSpent (ce_coin e)) eqn:Es; [|by apply Hins].
    split; [done|]. intros p. destruct (decide (p = o)) as [->|]; [|done].
    cbn [utxo]. rewrite Em, Hf by done. unfold unspent. by rewrite Es.
Qed.

(** The child's entries over a map. *)
Definition overlay (l : list (COutPoint * CCoinsCacheEntry)) (f : COutPoint -> option Coin) (o : COutPoint) : option Coin :=
  match (list_to_map l : CCoinsMap) !! o with Some e => unspent (ce_coin e) | None => f o end.

Lemma overlay_cons o e l f p :
  o ∉ l.*1 -> overlay ((o, e) :: l) f p = overlay l (fun p => if decide (p = o) then unspent (ce_coin e) else f p) p.
Proof.
  intros Hn. unfold overlay. cbn [list_to_map foldr]. destruct (decide (p = o)) as [->|].
  - cbn. rewrite lookup_insert_eq. by rewrite not_elem_of_list_to_map_1.
  - cbn. by rewrite lookup_insert_ne.
Qed.

Lemma merge_entries_spec h base l : forall m,
  wf (CCoinsViewCache h m base) -> NoDup l.*1 -> Forall (fun '(o, e) => entry_ok (CCoinsViewCache h m base) o e) l ->
  exists m', merge_entries m l = Ok m' /\ wf (CCoinsViewCache h m' base)
  /\ forall p, utxo (CCoinsViewCache h m' base) p = overlay l (utxo (CCoinsViewCache h m base)) p.
Proof.
  induction l as [|[o e] l IH]; intros m Hw Hn Hl; cbn [merge_entries].
  { exists m. splits; done. }
  apply NoDup_cons in Hn as [Hno Hn]. apply Forall_cons in Hl as [He Hl].
  destruct (merge_entry_spec _ _ _ _ _ Hw He) as (m1 & -> & W1 & U1). cbn [mbind result_bind].
  destruct (IH m1 W1 Hn) as (m' & -> & W' & U').
  { rewrite Forall_forall in Hl |- *. intros [p q] Hpq. specialize (Hl _ Hpq). cbn beta iota in Hl |- *.
    unfold entry_ok in *. rewrite U1. destruct (decide (p = o)) as [->|]; [|done].
    exfalso. apply Hno. apply list_elem_of_fmap. by exists (o, q). }
  exists m'. splits; try done. intros p. rewrite U', overlay_cons by done. unfold overlay. destruct (_ !! p); [done|apply U1].
Qed.

(** ** Writing to the database *)

Definition all_ops (l : list (COutPoint * CCoinsCacheEntry)) : list db_op := l ≫= (fun '(o, e) => entry_ops o e).

Lemma WriteBatch_app d a b : WriteBatch d (a ++ b) = WriteBatch (WriteBatch d a) b.
Proof. apply foldl_app. Qed.

(** However the writes are cut into batches, they amount to all operations in order. *)
Lemma db_write_loop_spec full l : forall d batch d' batch' written,
  db_write_loop full d batch l = (d', batch', written) ->
  WriteBatch d' batch' = WriteBatch d (batch ++ all_ops l)
  /\ Forall (fun w => exists k, w = WriteBatch d (batch ++ all_ops (take k l))) written.
Proof.
  induction l as [|[o e] l IH]; intros d batch d' batch' written; cbn [db_write_loop].
  { intros [= <- <- <-]. split; [by rewrite app_nil_r|constructor]. }
  assert (Hsplit : forall l', batch ++ all_ops ((o, e) :: l') = (batch ++ entry_ops o e) ++ all_ops l') by (intros; apply app_assoc).
  destruct (full _).
  - destruct (db_write_loop full _ [] l) as [[d1 b1] w1] eqn:E. intros [= <- <- <-].
    destruct (IH _ _ _ _ _ E) as [H1 H2]. split; [by rewrite H1, Hsplit, <- (WriteBatch_app d (_ ++ _))|]. constructor.
    + exists 1%nat. cbn [firstn]. rewrite take_0, Hsplit. by rewrite app_nil_r.
    + eapply Forall_impl; [exact H2|]. intros w [k ->]. exists (S k). cbn [firstn]. by rewrite Hsplit, <- (WriteBatch_app d (_ ++ _)).
  - intros H. destruct (IH _ _ _ _ _ H) as [H1 H2]. split; [by rewrite H1, Hsplit|].
    eapply Forall_impl; [exact H2|]. intros w [k ->]. exists (S k). cbn [firstn]. by rewrite Hsplit.
Qed.

(** What the operations leave for one outpoint. *)
Definition written_coin (l : list (COutPoint * CCoinsCacheEntry)) (o : COutPoint) (before : option Coin) : option Coin :=
  match (list_to_map l : CCoinsMap) !! o with
  | Some e => if DIRTY e then unspent (ce_coin e) else before
  | None => before
  end.

Lemma entry_ops_coins d o e p :
  db_coins (WriteBatch d (entry_ops o e)) !! p
  = if decide (p = o) then (if DIRTY e then unspent (ce_coin e) else db_coins d !! p) else db_coins d !! p.
Proof.
  unfold entry_ops, unspent. destruct (DIRTY e); [|by destruct (decide _)]. destruct (IsSpent (ce_coin e)); cbn [WriteBatch foldl db_apply db_coins].
  - destruct (decide (p = o)) as [->|]; [by rewrite lookup_delete_eq|by rewrite lookup_delete_ne].
  - destruct (decide (p = o)) as [->|]; [by rewrite lookup_insert_eq|by rewrite lookup_insert_ne].
Qed.

Lemma all_ops_coins l : forall d p, NoDup l.*1 ->
  db_coins (WriteBatch d (all_ops l)) !! p = written_coin l p (db_coins d !! p).
Proof.
  induction l as [|[o e] l IH]; intros d p Hn; [done|]. apply NoDup_cons in Hn as [Hno Hn].
  change (all_ops ((o, e) :: l)) with (entry_ops o e ++ all_ops l). rewrite WriteBatch_app, IH, entry_ops_coins by done.
  unfold written_coin. cbn [list_to_map foldr uncurry]. destruct (decide (p = o)) as [->|].
  - rewrite not_elem_of_list_to_map_1 by done. cbn. by rewrite lookup_insert_eq.
  - cbn. by rewrite lookup_insert_ne.
Qed.

Lemma all_ops_marks l d : db_best (WriteBatch d (all_ops l)) = db_best d /\ db_heads (WriteBatch d (all_ops l)) = db_heads d.
Proof.
  revert d. induction l as [|[o e] l IH]; intros d; [done|].
  change (all_ops ((o, e) :: l)) with (entry_ops o e ++ all_ops l). rewrite WriteBatch_app. destruct (IH (WriteBatch d (entry_ops o e))) as [-> ->].
  unfold entry_ops. destruct (DIRTY e); [|done]. by destruct (IsSpent _).
Qed.

(** The final state does not depend on the sizes of the batches. *)
Definition db_final (d : coins_db) (l : list (COutPoint * CCoinsCacheEntry)) (hashBlock old_tip : bytes) : coins_db :=
  WriteBatch d ([EraseBest; WriteHeads [hashBlock; old_tip]] ++ all_ops l ++ [EraseHeads; WriteBest hashBlock]).

Lemma db_BatchWrite_spec full d l h old :
  uint256_IsNull h = false -> db_old_tip d h = Ok old ->
  exists written, db_BatchWrite full d l h = Ok (db_final d l h old, written)
  /\ Forall (fun w => exists k, w = WriteBatch d ([EraseBest; WriteHeads [h; old]] ++ all_ops (take k l))) written.
Proof.
  intros Hh Ho. unfold db_BatchWrite. rewrite Hh, Ho. cbn [mbind result_bind].
  destruct (db_write_loop full d [EraseBest; WriteHeads [h; old]] l) as [[d' batch] written] eqn:E.
  destruct (db_write_loop_spec _ _ _ _ _ _ _ E) as [H1 H2]. exists written. split; [|done].
  unfold db_final. rewrite (WriteBatch_app d'), H1. by rewrite <- WriteBatch_app, <- app_assoc.
Qed.

Lemma db_final_spec d l h old : NoDup l.*1 ->
  db_heads (db_final d l h old) = None /\ db_best (db_final d l h old) = Some h
  /\ forall p, db_coins (db_final d l h old) !! p = written_coin l p (db_coins d !! p).
Proof.
  intros Hn. unfold db_final. rewrite WriteBatch_app, WriteBatch_app.
  set (d1 := WriteBatch d [EraseBest; WriteHeads [h; old]]). splits; try done. intros p.
  transitivity (db_coins (WriteBatch d1 (all_ops l)) !! p); [done|]. by rewrite all_ops_coins.
Qed.

(** ** Flushing *)

Lemma BatchWrite_spec full v m h :
  wf v -> map_Forall (entry_ok v) m -> uint256_IsNull h = false ->
  exists v', BatchWrite full v m h = Ok v' /\ wf v' /\ v' ≡ CCoinsViewCache h m v.
Proof.
  intros Hw Hm Hh. pose proof (NoDup_fst_map_to_list m) as Hn.
  assert (Hl : (list_to_map (map_to_list m) : CCoinsMap) = m) by apply list_to_map_to_list. destruct v as [d|h0 m0 base]; cbn [BatchWrite].
  - assert (Ho : exists old, db_old_tip d h = Ok old).
    { unfold db_old_tip, db_GetHeadBlocks. rewrite Hw. destruct (uint256_IsNull (db_GetBestBlock d)); eexists; reflexivity. }
    destruct Ho as [old Ho]. destruct (db_BatchWrite_spec full d (map_to_list m) h old Hh Ho) as (w & -> & _).
    eexists. split; [done|]. destruct (db_final_spec d (map_to_list m) h old Hn) as (F1 & _ & F3). split; [done|].
    intros o. cbn [utxo]. rewrite F3. unfold written_coin. rewrite Hl. destruct (m !! o) as [e|] eqn:Em; [|done].
    destruct (DIRTY e) eqn:Ed; [apply unspent_idemp|]. by apply (Hm _ _ Em).
  - destruct (merge_entries_spec h0 base (map_to_list m) m0 Hw Hn) as (m' & -> & W & U).
    { rewrite Forall_forall. intros [o e] Hin. apply elem_of_map_to_list in Hin. by apply Hm. }
    eexists. split; [done|]. split; [exact W|]. intros o. etrans; [apply U|]. unfold overlay. rewrite Hl. by cbn.
Qed.

Lemma Flush_spec full c :
  wf (as_view c) -> uint256_IsNull (hashBlock c) = false ->
  exists c', Flush full c = Ok c' /\ wf (as_view c') /\ as_view c' ≡ as_view c /\ cacheCoins c' = ∅ /\ hashBlock c' = hashBlock c.
Proof.
  intros [Wb Wm] Hh. unfold Flush. destruct (BatchWrite_spec full _ _ _ Wb Wm Hh) as (v' & -> & W & U).
  exists (mkCache (hashBlock c) ∅ v'). splits; try done.
Qed.

(** ** The contract of a cache *)

Inductive coins_op :=
| OpAccess (o : COutPoint)
| OpSpend (o : COutPoint)
| OpAdd (o : COutPoint) (coin : Coin) (possible_overwrite : bool)
| OpUncache (o : COutPoint)
| OpFlush (hashBlock : bytes).

Definition coins_step (full : list db_op -> bool) (c : cache) (op : coins_op) : result coins_exit (cache * option Coin) :=
  match op with
  | OpAccess o => let '(c, coin) := AccessCoin c o in Ok (c, unspent coin)
  | OpSpend o => let '(c, r) := SpendCoin c o in Ok (c, r ≫= unspent)
  | OpAdd o coin po => c ← AddCoin c o coin po; Ok (c, None)
  | OpUncache o => Ok (Uncache c o, None)
  | OpFlush h => c ← Flush full (SetBestBlock c h); Ok (c, None)
  end.

Fixpoint coins_run (full : list db_op -> bool) (c : cache) (ops : list coins_op) : result coins_exit (cache * list (option Coin)) :=
  match ops with
  | [] => Ok (c, [])
  | op :: ops => let* (c, r) := coins_step full c op in let* (c, rs) := coins_run full c ops in Ok (c, r :: rs)
  end.

(** The abstract set of unspent outputs; [None] when the caller breaks the contract:
    coins that are added are unspent and, unless announced, replace none, and a flush
    names a block. *)
Definition set_step (m : gmap COutPoint Coin) (op : coins_op) : option (gmap COutPoint Coin * option Coin) :=
  match op with
  | OpAccess o => Some (m, m !! o)
  | OpSpend o => Some (delete o m, m !! o)
  | OpAdd o coin po =>
    if IsSpent coin || (negb po && bool_decide (is_Some (m !! o))) then None
    else Some (if IsUnspendable (scriptPubKey (coin_out coin)) then m else <[o := coin]> m, None)
  | OpUncache o => Some (m, None)
  | OpFlush h => if uint256_IsNull h then None else Some (m, None)
  end.

Fixpoint set_run (m : gmap COutPoint Coin) (ops : list coins_op) : option (gmap COutPoint Coin * list (option Coin)) :=
  match ops with
  | [] => Some (m, [])
  | op :: ops => '(m, r) ← set_step m op; '(m, rs) ← set_run m ops; Some (m, r :: rs)
  end.

Definition represents (c : cache) (m : gmap COutPoint Coin) : Prop :=
  wf (as_view c) /\ forall o, utxo (as_view c) o = m !! o.

Lemma coins_step_refines full c m op m' r :
  represents c m -> set_step m op = Some (m', r) -> exists c', coins_step full c op = Ok (c', r) /\ represents c' m'.
Proof.
  intros [Hw Hm]. destruct op as [o|o|o coin po|o|h]; cbn [set_step coins_step].
  - intros [= <- <-]. unfold AccessCoin. destruct (FetchCoin c o) as [c1 e] eqn:E.
    destruct (FetchCoin_spec _ _ _ _ Hw E) as (W & Eq & _ & _ & U). exists c1.
    split; [|split; [done|intros p; by rewrite (Eq p)]]. rewrite <- Hm, <- U. by destruct e.
  - intros [= <- <-]. destruct (SpendCoin c o) as [c1 e] eqn:E. destruct (SpendCoin_spec _ _ _ _ Hw E) as (W & _ & U & D).
    exists c1. split; [by rewrite U, Hm|]. split; [done|]. intros p. rewrite D. destruct (decide (p = o)) as [->|].
    + by rewrite lookup_delete_eq.
    + by rewrite lookup_delete_ne.
  - destruct (IsSpent coin) eqn:Es; [done|]. cbn [orb]. destruct (negb po && _) eqn:Ep; [done|]. intros [= <- <-].
    destruct (AddCoin_spec c o coin po Hw Es) as (c1 & -> & W & _ & U).
    { intros ->. cbn in Ep. apply bool_decide_eq_false in Ep. rewrite Hm. by apply eq_None_not_Some. }
    exists c1. split; [done|]. split; [done|]. intros p. rewrite U. destruct (IsUnspendable _); [done|].
    destruct (decide (p = o)) as [->|]; [by rewrite lookup_insert_eq|by rewrite lookup_insert_ne].
  - intros [= <- <-]. destruct (Uncache_spec c o Hw) as (W & Eq & _). exists (Uncache c o). split; [done|]. split; [done|].
    intros p. by rewrite (Eq p).
  - destruct (uint256_IsNull h) eqn:Eh; [done|]. intros [= <- <-].
    destruct (Flush_spec full (SetBestBlock c h) Hw Eh) as (c1 & -> & W & Eq & _). exists c1. split; [done|]. split; [done|].
    intros p. by rewrite (Eq p), <- Hm.
Qed.

Lemma db_eq d1 d2 : db_coins d1 = db_coins d2 -> db_best d1 = db_best d2 -> db_heads d1 = db_heads d2 -> d1 = d2.
Proof. destruct d1, d2. cbn. congruence. Qed.

Lemma take_keys_NoDup {B} k (l : list (COutPoint * B)) : NoDup l.*1 -> NoDup (take k l).*1.
Proof. intros H. rewrite fmap_take. eapply sublist_NoDup; [exact H|apply sublist_take]. Qed.

(** Writing a part of the entries first makes no difference. *)
Lemma written_again k l p b : NoDup l.*1 -> written_coin l p (written_coin (take k l) p b) = written_coin l p b.
Proof.
  intros Hn. unfold written_coin. destruct ((list_to_map (take k l) : CCoinsMap) !! p) as [e|] eqn:E; [|done].
  apply elem_of_list_to_map_2 in E. assert (Hin : (p, e) ∈ l) by (rewrite <- (take_drop k l); apply elem_of_app; by left).
  rewrite (proj1 (elem_of_list_to_map l p e Hn) Hin). by destruct (DIRTY e).
Qed.

(** C8: A stack of caches over the coin database implements a map of unspent outputs.
    For any sequence of lookups, spends, additions, evictions and flushes that keeps the
    contract (coins added without the overwrite flag do not replace an unspent one), the
    stack answers as the map does, throws nothing and fails no assertion, and represents
    the resulting map, however the writes to the database are cut into batches. *)
Theorem coins_cache_refines full ops : forall c m m' rs,
  represents c m -> set_run m ops = Some (m', rs) -> exists c', coins_run full c ops = Ok (c', rs) /\ represents c' m'.
Proof.
  induction ops as [|op ops IH]; intros c m m' rs Hr; cbn [set_run coins_run].
  { intros [= <- <-]. by exists c. }
  destruct (set_step m op) as [[m1 r]|] eqn:Es; cbn; [|done].
  destruct (set_run m1 ops) as [[m2 rs2]|] eqn:Er; cbn; [|done]. intros [= <- <-].
  destruct (coins_step_refines full _ _ _ _ _ Hr Es) as (c1 & -> & Hr1).
  destruct (IH _ _ _ _ Hr1 Er) as (c2 & -> & Hr2). by exists c2.
Qed.

(** C35: A write to the coin database can be cut short and repeated.  Until its last
    batch the database names the new and the old block instead of a best block; and
    starting over from any of these states, with batches of any size, gives the
    state an undisturbed write gives. *)
Theorem db_write_restartable full d l h d' written :
  NoDup l.*1 -> db_BatchWrite full d l h = Ok (d', written) ->
  db_GetBestBlock d' = h /\ db_GetHeadBlocks d' = []
  /\ Forall (fun w => uint256_IsNull (db_GetBestBlock w) = true
       /\ (exists old, db_old_tip d h = Ok old /\ db_GetHeadBlocks w = [h; old])
       /\ forall full', exists written', db_BatchWrite full' w l h = Ok (d', written')) written.
Proof.
  intros Hn H. assert (Hh : uint256_IsNull h = false).
  { unfold db_BatchWrite in H. by destruct (uint256_IsNull h). }
  assert (Ho : exists old, db_old_tip d h = Ok old).
  { unfold db_BatchWrite in H. rewrite Hh in H. apply bind_Ok in H as (old & Ho & _). by exists old. }
  destruct Ho as [old Ho]. destruct (db_BatchWrite_spec full d l h old Hh Ho) as (w' & E & F). rewrite E in H. injection H as <- <-.
  destruct (db_final_spec d l h old Hn) as (F1 & F2 & F3).
  unfold db_GetBestBlock, db_GetHeadBlocks. rewrite F1, F2. splits; try done.
  eapply Forall_impl; [exact F|]. intros w [k ->]. rewrite WriteBatch_app. set (d1 := WriteBatch d [EraseBest; WriteHeads [h; old]]).
  destruct (all_ops_marks (take k l) d1) as [M1 M2]. rewrite M1, M2. splits; [done|by exists old|]. intros full'.
  set (w := WriteBatch d1 (all_ops (take k l))).
  assert (Hw : db_old_tip w h = Ok old).
  { unfold db_old_tip, db_GetBestBlock, db_GetHeadBlocks, w. rewrite M1, M2. cbn. by rewrite decide_True by done. }
  destruct (db_BatchWrite_spec full' w l h old Hh Hw) as (w'' & -> & _). exists w''. do 2 f_equal.
  destruct (db_final_spec w l h old Hn) as (G1 & G2 & G3). apply db_eq; [|congruence|congruence].
  apply map_eq. intros p. rewrite G3, F3. unfold w. rewrite all_ops_coins by (by apply take_keys_NoDup). by apply written_again.
Qed.

(** ** What the transaction checks rely on *)

(** [AccessCoin] as the checks of transactions take it. *)
Definition coin_of (c : cache) (o : COutPoint) : Coin := default Coin_empty (utxo (as_view c) o).

Lemma have_inputs_loop_spec ins : forall c c' b, wf (as_view c) -> have_inputs_loop c ins = (c', b) ->
  wf (as_view c') /\ as_view c' ≡ as_view c /\ b = forallb (fun i => negb (IsSpent (coin_of c (prevout i)))) ins.
Proof.
  induction ins as [|i ins IH]; intros c c' b Hw; cbn [have_inputs_loop forallb]; [by intros [= <- <-]|].
  unfold HaveCoin. destruct (FetchCoin c (prevout i)) as [c1 e] eqn:E. destruct (FetchCoin_spec _ _ _ _ Hw E) as (W & Eq & _ & _ & U).
  assert (Hb : match e with Some e => negb (IsSpent (ce_coin e)) | None => false end = negb (IsSpent (coin_of c (prevout i)))).
  { unfold coin_of. rewrite <- U. destruct e as [e|]; [|done]. cbn. unfold unspent. by destruct (IsSpent (ce_coin e)) eqn:Es; cbn; rewrite ?Es. }
  intros H. replace (match e with Some e => (c1, negb (IsSpent (ce_coin e))) | None => (c1, false) end)
    with (c1, negb (IsSpent (coin_of c (prevout i)))) in H by (rewrite <- Hb; by destruct e).
  destruct (negb (IsSpent (coin_of c (prevout i)))); [|by injection H as <- <-].
  destruct (IH _ _ _ W H) as (W' & Eq' & ->). splits; [done|by rewrite Eq'|]. unfold coin_of.
  clear -Eq. induction ins as [|j ins IHj]; cbn [forallb]; [done|]. by rewrite (Eq (prevout j)), IHj.
Qed.

(** The cache answers [HaveInputs] as the checks of [TxVerify] assume, and its lookups keep the state. *)
Lemma HaveInputs_spec c tx c' b : wf (as_view c) -> HaveInputs c tx = (c', b) ->
  wf (as_view c') /\ as_view c' ≡ as_view c /\ b = TxVerify.HaveInputs (coin_of c) tx.
Proof.
  intros Hw. unfold HaveInputs, TxVerify.HaveInputs. destruct (IsCoinBase tx); [by intros [= <- <-]|]. by apply have_inputs_loop_spec.
Qed.

Lemma AccessCoin_spec c o c' coin : wf (as_view c) -> AccessCoin c o = (c', coin) ->
  wf (as_view c') /\ as_view c' ≡ as_view c /\ IsSpent coin = IsSpent (coin_of c o) /\ (IsSpent coin = false -> coin = coin_of c o).
Proof.
  intros Hw. unfold AccessCoin, coin_of. destruct (FetchCoin c o) as [c1 e] eqn:E.
  destruct (FetchCoin_spec _ _ _ _ Hw E) as (W & Eq & _ & _ & <-).
  destruct e as [e|]; intros [= <- <-]; splits; try done; cbn; unfold unspent; destruct (IsSpent (ce_coin e)) eqn:Es; cbn; by rewrite ?Es.
Qed.

(** ** Examples *)

Definition example_outpoint (n : Z) : COutPoint := mkOutPoint [7] n.
Definition example_output (v : Z) : Coin := mkCoin (mkTxOut v [opcode_value OP_1]) false 5.
Definition example_db : coins_db := mkDb {[example_outpoint 0 := example_output 10]} (Some (replicate 32 1)) None.
(** A cache on a cache on the database. *)
Definition example_cache : cache := mkCache null_uint256 ∅ (CCoinsViewCache null_uint256 ∅ (CCoinsViewDB example_db)).
Definition example_ops : list coins_op :=
  [OpAccess (example_outpoint 0); OpAdd (example_outpoint 1) (example_output 20) false; OpSpend (example_outpoint 0);
   OpFlush (replicate 32 2); OpAccess (example_outpoint 0); OpSpend (example_outpoint 1); OpUncache (example_outpoint 1);
   OpAccess (example_outpoint 1)].

Lemma example_represents : represents example_cache {[example_outpoint 0 := example_output 10]}.
Proof.
  split; [split; [split; [done|apply map_Forall_empty]|apply map_Forall_empty]|]. intros o. cbn [example_cache as_view utxo cacheCoins hashBlock base example_db db_coins].
  rewrite !lookup_empty. destruct (decide (o = example_outpoint 0)) as [->|Hne].
  - by rewrite lookup_singleton_eq.
  - by rewrite lookup_singleton_ne.
Qed.

Lemma coins_cache_refines_witness :
  set_run {[example_outpoint 0 := example_output 10]} example_ops
  = Some (∅, [Some (example_output 10); None; Some (example_output 10); None; None; Some (example_output 20); None; None])
  /\ exists c', coins_run (fun _ => true) example_cache example_ops
     = Ok (c', [Some (example_output 10); None; Some (example_output 10); None; None; Some (example_output 20); None; None])
     /\ represents c' ∅.
Proof.
  split; [vm_compute; reflexivity|].
  apply (coins_cache_refines (fun _ => true) example_ops example_cache {[example_outpoint 0 := example_output 10]});
    [exact example_represents|vm_compute; reflexivity].
Defined.

(** The entries of a block that spends one coin and creates another. *)
Definition example_entries : list (COutPoint * CCoinsCacheEntry) :=
  [(example_outpoint 0, mkEntry Coin_empty true false); (example_outpoint 1, mkEntry (example_output 20) true true)].

Lemma db_write_restartable_witness :
  exists d' written, db_BatchWrite (fun _ => true) example_db example_entries (replicate 32 2) = Ok (d', written)
  /\ db_GetBestBlock d' = replicate 32 2
  /\ Forall (fun w => exists written', db_BatchWrite (fun _ => false) w example_entries (replicate 32 2) = Ok (d', written')) written.
Proof.
  destruct (db_BatchWrite (fun _ => true) example_db example_entries (replicate 32 2)) as [[d' written]|] eqn:E;
    [|vm_compute in E; discriminate E].
  destruct (db_write_restartable (fun _ => true) example_db example_entries (replicate 32 2) d' written) as (Hb & _ & F);
    [apply (bool_decide_unpack _); vm_compute; exact I|exact E|].
  exists d', written. split; [reflexivity|]. split; [exact Hb|].
  eapply Forall_impl; [exact F|]. intros w (_ & _ & Hw). apply Hw.
Defined.

(** The contract is needed: a coin added without the overwrite flag over an unspent one
    that the cache does not hold is taken for new, so that spending it uncovers the old one. *)
Lemma overwrite_flag_needed : exists c1 c2 r,
  AddCoin example_cache (example_outpoint 0) (example_output 20) false = Ok c1
  /\ SpendCoin c1 (example_outpoint 0) = (c2, r) /\ utxo (as_view c2) (example_outpoint 0) = Some (example_output 10).
Proof. do 3 eexists. split; [vm_compute; reflexivity|]. split; vm_compute; reflexivity. Qed.
