(* ===== verification/ConnectBlock.v ===== *)
(** * Blocks and the set of unspent outputs: [src/validation.cpp]

    [ConnectBlock] on the coins view of [Coins]: the checks of [BlockCheck], [TxVerify],
    [AssetTotals] and [Interpreter] on every transaction, the update of the coins, and the
    limit on the value of the coinbase; and the coins that [DisconnectBlock] restores.

    The lookups of the checks only fill the cache, so that they read the coins through
    [coin_of] and leave the view as it is.  The cache of assets is an argument, one view of
    it for each transaction; its updates, the indexes of addresses and spent outputs and
    the writes to disk are not part of this file.

    The theorems: a block adds at most its subsidy to the value of all unspent outputs,
    and so do chains of blocks; and disconnecting a block restores what it was connected
    to. *)

From S2P Require Import Progpow Ethash Keccak.
From S2P Require Import Prelude Endian Params HashFns ArithUint256 Chain MedianTime Merkle Serialize Script Transaction Compressor.
From S2P Require Import Interpreter EvalSafety ScriptFlags SigHash TxVerify AssetNames AssetScripts AssetRules CheckTransaction BlockCheck AssetTotals Coins.

#[global] Instance CTxOut_eq_dec : EqDecision CTxOut.
Proof. solve_decision. Defined.

(** ** Exits *)

Inductive connect_exit := CheckFailed (e : check_exit) | CoinsFailed (e : coins_exit).
Abbreviation connect A := (result connect_exit A).
Definition checked {A} (m : check A) : connect A := match m with Ok a => Ok a | Err e => Err (CheckFailed e) end.
Definition on_coins {A} (m : result coins_exit A) : connect A := match m with Ok a => Ok a | Err e => Err (CoinsFailed e) end.
Definition halt {A} (f : fault) : connect A := Err (CheckFailed (Halt f)).

(** ** Updating the coins *)

(** The coins that are moved out are the undo data. *)
Fixpoint spend_inputs (c : cache) (ins : list CTxIn) : connect (cache * list Coin) :=
  match ins with
  | [] => Ok (c, [])
  | txin :: ins =>
    match SpendCoin c (prevout txin) with
    | (_, None) => halt AssertFailure
    | (c, Some coin) => let* (c, undo) := spend_inputs c ins in Ok (c, coin :: undo)
    end
  end.

Definition UpdateCoins (c : cache) (tx : CTransaction) (nHeight : Z) : connect (cache * list Coin) :=
  let* (c, undo) := (if IsCoinBase tx then Ok (c, []) else spend_inputs c (vin tx)) in
  c ← on_coins (AddCoins c tx nHeight false);
  Ok (c, undo).

(** ** Scripts *)

Section Scripts.
Context {E : Ecdsa} {lows : LowS}.
Context (AccessCoin : COutPoint -> Coin).

(** [CScriptCheck::operator()]. *)
Definition script_check (out : CTxOut) (tx : CTransaction) (nIn : nat) (txin : CTxIn) (flags : Z) : check bool :=
  match VerifyScript (checker := transaction_checker (mkTSC tx nIn (nValue out) (Some (precompute tx)))) (scriptSig txin) (scriptPubKey out)
          (scriptWitness txin) flags with
  | Ok _ => Ok true
  | Err (Abort f) => Err (Halt f)
  | Err _ => Ok false
  end.

Fixpoint check_inputs_loop (tx : CTransaction) (flags : Z) (i : nat) (ins : list CTxIn) : check unit :=
  match ins with
  | [] => Ok tt
  | txin :: ins =>
    let coin := AccessCoin (prevout txin) in
    if IsSpent coin then Err (Halt AssertFailure)
    else
      ok ← script_check (coin_out coin) tx i txin flags;
      if ok : bool then check_inputs_loop tx flags (S i) ins
      else
        _ ← (if Z.land flags STANDARD_NOT_MANDATORY_VERIFY_FLAGS =? 0 then Ok tt
             else ok ← script_check (coin_out coin) tx i txin (Z.land flags (Z.lnot STANDARD_NOT_MANDATORY_VERIFY_FLAGS));
                  reject_if ok 0 "non-mandatory-script-verify-flag");
        DoS 100 "mandatory-script-verify-flag-failed"
  end.

(** Without threads for the scripts.  [executed] tells whether the cache of script
    executions has the transaction. *)
Definition CheckInputs (executed : bool) (tx : CTransaction) (fScriptChecks : bool) (flags : Z) : check unit :=
  if IsCoinBase tx || negb fScriptChecks || executed then Ok tt else check_inputs_loop tx flags 0 (vin tx).
End Scripts.

(** Globals of the node. *)
Record assumed := mkAssumed { hashAssumeValid : bytes; nMinimumChainWork : base_uint; pindexBestHeader : ptr }.

(** Whether the scripts of a block are to be verified: not for an ancestor of the block
    that is assumed to be valid, if it is two weeks of work below the best header. *)
Definition script_checks (mem : heap) (mapBlockIndex : gmap bytes ptr) (g : assumed) (nPowTargetSpacing : Z) (pindex : ptr) : result fault bool :=
  if uint256_IsNull (hashAssumeValid g) then Ok true
  else
    match mapBlockIndex !! (hashAssumeValid g) with
    | None => Ok true
    | Some it =>
      b ← Chain.deref mem pindex;
      a ← GetAncestor mem it (Chain.nHeight b);
      if negb (bool_decide (a = Some pindex)) then Ok true
      else
        a ← GetAncestor mem (pindexBestHeader g) (Chain.nHeight b);
        best ← Chain.deref mem (pindexBestHeader g);
        if negb (bool_decide (a = Some pindex)) || (CompareTo (nChainWork best) (nMinimumChainWork g) <? 0) then Ok true
        else
          t ← GetBlockProofEquivalentTime best b best nPowTargetSpacing;
          Ok (t <=? 60 * 60 * 24 * 7 * 2)
    end.

(** ** Connecting a block *)

Section Connect.
Context {sph : SphLib} {E : Ecdsa} {lows : LowS} (net : BlockNetwork) (kt : Z) (params : Params) (checkpoints : CCheckpointData).
Context (chain : asset_chain) (un : AssetType) (ts : CTxOut -> string) (mem : heap) (mapBlockIndex : gmap bytes ptr) (hashGenesisBlock : bytes).
(** What the checks of assets read: the cache of assets before each transaction. *)
Context (fUnitTest : bool) (mapAssetToHash mapReissuedAssets : gmap bytes bytes) (now : Z) (assets : nat -> AssetsView).
Context (executed : CTransaction -> bool).

Fixpoint no_asset_outs (outs : list CTxOut) : check unit :=
  match outs with
  | [] => Ok tt
  | out :: outs =>
    _ ← reject_if (bool_decide (is_Some (IsAssetScript (scriptPubKey out)))) 100 "bad-txns-assets-not-active";
    _ ← reject_if (IsNullAsset (scriptPubKey out)) 100 "bad-txns-null-data-assets-not-active";
    no_asset_outs outs
  end.

Definition check_assets (i : nat) (c : cache) (nTime : Z) (tx : CTransaction) : check unit :=
  if negb (AreAssetsDeployed chain) then no_asset_outs (vout tx)
  else _ ← CheckTxAssets chain ts fUnitTest mapAssetToHash (Some (assets i)) (coin_of c) mapReissuedAssets now false false true nTime tx; Ok tt.

Definition nLockTimeFlags : Z := if nCSVEnabled params then LOCKTIME_VERIFY_SEQUENCE else 0.

(** The checks of a transaction that is not a coinbase, up to the scripts; returns the fee. *)
Definition connect_checks (i : nat) (c : cache) (pindex : ptr) (nHeight nTime : Z) (tx : CTransaction) (nFees : Z) : check Z :=
  txfee ← CheckTxInputs (coin_of c) tx nHeight (AreEnforcedValuesDeployed chain);
  let nFees := i64 (nFees + txfee) in
  _ ← reject_if (negb (MoneyRange nFees)) 100 "bad-txns-accumulated-fee-outofrange";
  _ ← check_assets i c nTime tx;
  let prevheights := (fun txin => coin_nHeight (coin_of c (prevout txin))) <$> vin tx in
  let* (final, _) := halting (SequenceLocks mem tx nLockTimeFlags prevheights pindex) in
  _ ← reject_if (negb final) 100 "bad-txns-nonfinal";
  Ok nFees.

(** The loop over the transactions: the coins, the fees and the undo data of all but the
    first transaction. *)
Fixpoint connect_txs (pindex : ptr) (nHeight nTime flags : Z) (fScriptChecks : bool) (i : nat) (txs : list CTransaction) (c : cache)
  (nFees nSigOpsCost : Z) : connect (cache * Z * list (list Coin)) :=
  match txs with
  | [] => Ok (c, nFees, [])
  | tx :: txs =>
    nFees ← checked (if IsCoinBase tx then Ok nFees else connect_checks i c pindex nHeight nTime tx nFees);
    cost ← checked (halting (GetTransactionSigOpCost (coin_of c) tx flags));
    let nSigOpsCost := i64 (nSigOpsCost + cost) in
    _ ← checked (reject_if (nSigOpsCost >? MAX_BLOCK_SIGOPS_COST) 100 "bad-blk-sigops");
    _ ← checked (CheckInputs (coin_of c) (executed tx) tx fScriptChecks flags);
    let* (c, txundo) := UpdateCoins c tx nHeight in
    let* (c, nFees, vtxundo) := connect_txs pindex nHeight nTime flags fScriptChecks (S i) txs c nFees nSigOpsCost in
    Ok (c, nFees, if (i =? 0)%nat then vtxundo else txundo :: vtxundo)
  end.

(** The coins, and the undo data. *)
Definition ConnectBlock (cached : option epoch_context) (c : cache) (block : CBlock) (pindex : ptr) (g : assumed)
  : connect (cache * list (list Coin)) :=
  b ← checked (halting (Chain.deref mem pindex));
  let hash := header_GetHash net kt (block_header block) in
  if negb (phashBlock b =? le_combine hash) then halt AssertFailure
  else
    _ ← checked (CheckBlock net kt params checkpoints chain un ts mem mapBlockIndex cached block true true false);
    hashPrevBlock ← checked (halting (match pprev b with Some q => bq ← Chain.deref mem q; Ok (phashBlock bq) | None => Ok 0 end));
    if negb (hashPrevBlock =? le_combine (snd (view_GetBestBlock (as_view c)))) then halt AssertFailure
    else if bool_decide (hash = hashGenesisBlock) then Ok (SetBestBlock c hash, [])
    else
      fScriptChecks ← checked (halting (script_checks mem mapBlockIndex g (nPowTargetSpacing params) pindex));
      let flags := GetBlockScriptFlags (nTime b) params in
      let* (c, nFees, vtxundo) := connect_txs pindex (Chain.nHeight b) (hdr_nTime (block_header block)) flags fScriptChecks 0 (vtx block) c 0 0 in
      subsidy ← checked (halting (GetBlockSubsidy (Chain.nHeight b) params));
      let blockReward := i64 (nFees + subsidy) in
      cb ← checked (halting (match vtx block with cb :: _ => Ok cb | [] => Err OutOfBounds end));
      paid ← checked (match GetValueOut (AreEnforcedValuesDeployed chain) cb with Some v => Ok v | None => Err ThrowOutOfRange end);
      _ ← checked (reject_if (paid >? blockReward) 100 "bad-cb-amount");
      Ok (SetBestBlock c hash, vtxundo).
End Connect.

(** ** Disconnecting a block *)

Inductive DisconnectResult := DISCONNECT_OK | DISCONNECT_UNCLEAN | DISCONNECT_FAILED.

(** The first unspent output of a transaction; [n] outputs from [i] on are tried. *)
Fixpoint AccessByTxid (c : cache) (txid : bytes) (i : Z) (n : nat) : Coin :=
  match n with
  | O => Coin_empty
  | S n => let alternate := coin_of c (mkOutPoint txid i) in
           if negb (IsSpent alternate) then alternate else AccessByTxid c txid (i + 1) n
  end.
(** [GetMaxBlockWeight() / MIN_TRANSACTION_OUTPUT_WEIGHT]. *)
Definition max_outputs : nat := Z.to_nat (GetMaxBlockWeight / (WITNESS_SCALE_FACTOR * 9)).

Definition ApplyTxInUndo (undo : Coin) (c : cache) (out : COutPoint) : connect (cache * DisconnectResult) :=
  let '(c, have) := HaveCoin c out in
  let alternate := if coin_nHeight undo =? 0 then AccessByTxid c (Transaction.op_hash out) 0 max_outputs else undo in
  if (coin_nHeight undo =? 0) && IsSpent alternate then Ok (c, DISCONNECT_FAILED)
  else
    c ← on_coins (AddCoin c out (mkCoin (coin_out undo) (fCoinBase alternate) (coin_nHeight alternate)) have);
    Ok (c, if have then DISCONNECT_UNCLEAN else DISCONNECT_OK).

(** The outputs of a transaction are removed; the flag tells whether they were as they
    should be. *)
Fixpoint remove_outputs (c : cache) (hash : bytes) (nHeight : Z) (is_coinbase : bool) (o : Z) (outs : list CTxOut) (fClean : bool) : cache * bool :=
  match outs with
  | [] => (c, fClean)
  | out :: outs =>
    if IsUnspendable (scriptPubKey out) then remove_outputs c hash nHeight is_coinbase (o + 1) outs fClean
    else
      match SpendCoin c (mkOutPoint hash (u32 o)) with
      | (c, None) => remove_outputs c hash nHeight is_coinbase (o + 1) outs false
      | (c, Some coin) =>
        let same := bool_decide (out = coin_out coin) && (nHeight =? coin_nHeight coin) && Bool.eqb is_coinbase (fCoinBase coin) in
        remove_outputs c hash nHeight is_coinbase (o + 1) outs (fClean && same)
      end
  end.

(** The inputs are restored, the last one first. *)
Fixpoint restore_inputs (c : cache) (l : list (CTxIn * Coin)) (fClean : bool) : connect (cache * DisconnectResult) :=
  match l with
  | [] => Ok (c, if fClean then DISCONNECT_OK else DISCONNECT_UNCLEAN)
  | (txin, undo) :: l =>
    let* (c, res) := ApplyTxInUndo undo c (prevout txin) in
    match res with
    | DISCONNECT_FAILED => Ok (c, DISCONNECT_FAILED)
    | DISCONNECT_UNCLEAN => restore_inputs c l false
    | DISCONNECT_OK => restore_inputs c l fClean
    end
  end.

(** The transactions, the last one first; each but the coinbase with its undo data. *)
Fixpoint disconnect_txs (c : cache) (nHeight : Z) (l : list (CTransaction * option (list Coin))) (fClean : bool) : connect (cache * DisconnectResult) :=
  match l with
  | [] => Ok (c, if fClean then DISCONNECT_OK else DISCONNECT_UNCLEAN)
  | (tx, txundo) :: l =>
    let '(c, fClean) := remove_outputs c (GetHash tx) nHeight (IsCoinBase tx) 0 (vout tx) fClean in
    match txundo with
    | None => disconnect_txs c nHeight l fClean
    | Some vprevout =>
      if negb (length vprevout =? length (vin tx))%nat then Ok (c, DISCONNECT_FAILED)
      else
        let* (c, res) := restore_inputs c (reverse (zip (vin tx) vprevout)) fClean in
        match res with
        | DISCONNECT_FAILED => Ok (c, DISCONNECT_FAILED)
        | DISCONNECT_UNCLEAN => disconnect_txs c nHeight l false
        | DISCONNECT_OK => disconnect_txs c nHeight l true
        end
    end
  end.

(** The coins of [DisconnectBlock], with the undo data it reads. *)
Definition DisconnectBlock (c : cache) (block : CBlock) (vtxundo : list (list Coin)) (nHeight : Z) (hashPrev : bytes) : connect (cache * DisconnectResult) :=
  if negb (length vtxundo + 1 =? length (vtx block))%nat then Ok (c, DISCONNECT_FAILED)
  else
    let* (c, res) := disconnect_txs c nHeight (reverse (zip (vtx block) (None :: (Some <$> vtxundo)))) true in
    match res with
    | DISCONNECT_FAILED => Ok (c, DISCONNECT_FAILED)
    | _ => Ok (SetBestBlock c hashPrev, res)
    end.

(** ** Tips *)

(** [ConnectTip] and [DisconnectTip] on the coins: a view on top of [pcoinsTip], which is
    flushed when all went well. *)
Definition new_view (tip : view) : cache := mkCache null_uint256 ∅ tip.
Definition flush_view (full : list db_op -> bool) (c : cache) : connect view := c ← on_coins (Flush full c); Ok (base c).

Definition tip_connected (full : list db_op -> bool) (connect_block : cache -> connect (cache * list (list Coin))) (tip : view) : connect (view * list (list Coin)) :=
  let* (c, vtxundo) := connect_block (new_view tip) in
  tip ← flush_view full c;
  Ok (tip, vtxundo).

(** [false]: the tip could not be disconnected and stays as it is. *)
Definition tip_disconnected (full : list db_op -> bool) (tip : view) (block : CBlock) (vtxundo : list (list Coin)) (nHeight : Z) (hash hashPrev : bytes)
  : connect (view * bool) :=
  if negb (bool_decide (snd (view_GetBestBlock (as_view (new_view tip))) = hash)) then halt AssertFailure
  else
    let* (c, res) := DisconnectBlock (new_view tip) block vtxundo nHeight hashPrev in
    match res with
    | DISCONNECT_OK => tip ← flush_view full c; Ok (tip, true)
    | _ => Ok (base c, false)
    end.

(** ** Sets of coins *)

Abbreviation coins := (gmap COutPoint Coin).

Definition coin_value (c : Coin) : Z := nValue (coin_out c).
(** The value of all unspent outputs. *)
Definition total (m : coins) : Z := sum_Z (coin_value <$> (map_to_list m).*2).

Lemma sum_Z_perm l l' : l ≡ₚ l' -> sum_Z l = sum_Z l'.
Proof. unfold sum_Z. induction 1; cbn in *; lia. Qed.
Lemma total_insert m o c : m !! o = None -> total (<[o := c]> m) = coin_value c + total m.
Proof. intros Ho. unfold total. by rewrite (sum_Z_perm _ (coin_value <$> ((o, c) :: map_to_list m).*2)) by by rewrite map_to_list_insert. Qed.
Lemma total_delete m o c : m !! o = Some c -> total m = coin_value c + total (delete o m).
Proof. intros Ho. rewrite <- (total_insert (delete o m) o c) by apply lookup_delete_eq. by rewrite insert_delete_id. Qed.

(** What a transaction does to the set. *)
Definition spend_set (m : coins) (ins : list CTxIn) : coins := foldl (fun m i => delete (prevout i) m) m ins.
Fixpoint add_set (m : coins) (txid : bytes) (i : Z) (outs : list CTxOut) (nHeight : Z) (fCoinbase : bool) : coins :=
  match outs with
  | [] => m
  | out :: outs =>
    add_set (if IsUnspendable (scriptPubKey out) then m else <[mkOutPoint txid (u32 i) := mkCoin out fCoinbase nHeight]> m) txid (i + 1) outs nHeight fCoinbase
  end.
Definition connect_set (m : coins) (tx : CTransaction) (nHeight : Z) : coins :=
  add_set (if IsCoinBase tx then m else spend_set m (vin tx)) (GetHash tx) 0 (vout tx) nHeight (IsCoinBase tx).

(** No coin of the transaction is in the set. *)
Definition new_txid (m : coins) (txid : bytes) : Prop := forall n, m !! mkOutPoint txid n = None.

Lemma spend_set_lookup ins : forall m o, spend_set m ins !! o = if decide (o ∈ prevout <$> ins) then None else m !! o.
Proof.
  induction ins as [|i ins IH]; intros m o; cbn [spend_set foldl fmap list_fmap]; [by rewrite decide_False by apply not_elem_of_nil|].
  fold (spend_set (delete (prevout i) m) ins). rewrite IH. destruct (decide (o ∈ prevout <$> ins)) as [Hin|Hin]; [by rewrite decide_True by by right|].
  destruct (decide (o = prevout i)) as [->|Hn]; [rewrite decide_True by (by left); apply lookup_delete_eq|].
  rewrite lookup_delete_ne by done. by rewrite decide_False by (rewrite not_elem_of_cons; done).
Qed.
Lemma add_set_other outs : forall m txid i h cb o, (forall k, i <= k < i + Z.of_nat (length outs) -> o <> mkOutPoint txid (u32 k)) -> add_set m txid i outs h cb !! o = m !! o.
Proof.
  induction outs as [|out outs IH]; intros m txid i h cb o Ho; cbn [add_set length] in *; [done|]. rewrite IH by (intros k Hk; apply Ho; lia).
  destruct (IsUnspendable _); [done|]. apply lookup_insert_ne. intros E. by apply (Ho i); [lia|].
Qed.
(** A coin elsewhere does not matter. *)
Lemma add_set_insert outs : forall m txid i h cb o x, (forall k, i <= k < i + Z.of_nat (length outs) -> o <> mkOutPoint txid (u32 k)) ->
  add_set (<[o := x]> m) txid i outs h cb = <[o := x]> (add_set m txid i outs h cb).
Proof.
  induction outs as [|out outs IH]; intros m txid i h cb o x Ho; cbn [add_set length] in *; [done|]. rewrite <- IH by (intros k Hk; apply Ho; lia).
  destruct (IsUnspendable _); [done|]. f_equal. apply insert_insert_ne. intros E. by apply (Ho i); [lia|].
Qed.
Lemma outpoint_ne txid i k : 0 <= i < k -> k < 2 ^ 32 -> mkOutPoint txid (u32 i) <> mkOutPoint txid (u32 k).
Proof. intros Hi Hk [= E]. rewrite !u32_id in E by (unfold is_u32; lia). lia. Qed.

(** *** Spending *)

Lemma SpendCoin_set c m o coin : represents c m -> m !! o = Some coin -> exists c', SpendCoin c o = (c', Some coin) /\ represents c' (delete o m).
Proof.
  intros [Hw Hm] Ho. destruct (SpendCoin c o) as [c' r] eqn:E. destruct (SpendCoin_spec _ _ _ _ Hw E) as (W & _ & U & D). exists c'. rewrite Hm, Ho in U. split.
  - destruct r as [e|]; [|done]. cbn in U. unfold unspent in U. destruct (IsSpent e); [done|]. by injection U as ->.
  - split; [done|]. intros p. rewrite D. destruct (decide (p = o)) as [->|]; [by rewrite lookup_delete_eq|by rewrite lookup_delete_ne].
Qed.

Lemma spend_inputs_set ins : forall c m, represents c m -> NoDup (prevout <$> ins) -> Forall (fun i => is_Some (m !! prevout i)) ins ->
  exists c' undo, spend_inputs c ins = Ok (c', undo) /\ represents c' (spend_set m ins) /\ Forall2 (fun i u => m !! prevout i = Some u) ins undo
    /\ total m = sum_Z (coin_value <$> undo) + total (spend_set m ins).
Proof.
  induction ins as [|i ins IH]; intros c m H Hnd F; cbn [spend_inputs].
  { exists c, []. split; [done|]. split; [exact H|]. split; [constructor|]. cbn. lia. }
  apply NoDup_cons in Hnd as [Hi Hnd]. apply Forall_cons in F as [[coin Hc] F]. destruct (SpendCoin_set c m _ coin H Hc) as (c1 & -> & H1).
  destruct (IH c1 (delete (prevout i) m) H1 Hnd) as (c' & undo & -> & H' & Hu & Ht).
  { apply Forall_forall. intros j Hj. rewrite Forall_forall in F. destruct (F j Hj) as [x Hx]. exists x. rewrite lookup_delete_ne; [done|].
    intros E. apply Hi. rewrite E. by apply list_elem_of_fmap_2. }
  exists c', (coin :: undo). split; [done|]. split; [exact H'|]. split.
  - constructor; [done|]. eapply Forall2_impl; [exact Hu|]. intros j u Hj. apply lookup_delete_Some in Hj as [_ Hj]. exact Hj.
  - rewrite (total_delete m _ coin Hc), Ht. cbn [fmap list_fmap sum_Z foldr]. fold (sum_Z (coin_value <$> undo)). change (spend_set m (i :: ins)) with (spend_set (delete (prevout i) m) ins). lia.
Qed.

(** *** Adding *)

Definition outs_ok (outs : list CTxOut) : Prop := Forall (fun o => 0 <= nValue o) outs.

Lemma add_coins_set outs : forall c m txid i h cb, represents c m -> outs_ok outs -> 0 <= i -> i + Z.of_nat (length outs) <= 2 ^ 32 ->
  (forall k, i <= k < i + Z.of_nat (length outs) -> m !! mkOutPoint txid (u32 k) = None) ->
  exists c', add_coins_loop c txid i outs h cb false = Ok c' /\ represents c' (add_set m txid i outs h cb)
    /\ total (add_set m txid i outs h cb) <= total m + sum_Z (nValue <$> outs).
Proof.
  induction outs as [|out outs IH]; intros c m txid i h cb H Hv Hi Hl Hf; cbn [add_coins_loop add_set length] in *; [exists c; split; [done|]; split; [done|]; cbn; lia|].
  apply Forall_cons in Hv as [Hv0 Hv]. destruct H as [Hw Hm]. assert (m !! mkOutPoint txid (u32 i) = None) as Hnone by (apply Hf; lia).
  destruct (AddCoin_spec c (mkOutPoint txid (u32 i)) (mkCoin out cb h) cb Hw) as (c1 & -> & W1 & _ & U1).
  { unfold IsSpent, txout_IsNull. cbn. apply Z.eqb_neq. lia. }
  { intros _. by rewrite Hm. }
  cbn [mbind result_bind coin_out] in *. set (m1 := if IsUnspendable (scriptPubKey out) then m else _).
  assert (represents c1 m1) as H1.
  { split; [done|]. intros p. rewrite U1, Hm. subst m1. destruct (IsUnspendable _); [done|]. destruct (decide (p = _)) as [->|Hn]; [by rewrite lookup_insert_eq|by rewrite lookup_insert_ne]. }
  destruct (IH c1 m1 txid (i + 1) h cb H1 Hv) as (c' & -> & H' & Ht); [lia|lia| |].
  { intros k Hk. subst m1. destruct (IsUnspendable _); [apply Hf; lia|]. rewrite lookup_insert_ne by (apply outpoint_ne; lia). apply Hf. lia. }
  exists c'. split; [done|]. split; [done|]. cbn [fmap list_fmap sum_Z foldr]. fold (sum_Z (nValue <$> outs)).
  assert (total m1 <= total m + nValue out); [|lia]. subst m1. destruct (IsUnspendable _); [lia|]. rewrite total_insert by done. unfold coin_value. cbn. lia.
Qed.

(** *** A transaction *)

Lemma UpdateCoins_set c m tx h : represents c m -> outs_ok (vout tx) -> Z.of_nat (length (vout tx)) <= 2 ^ 32 -> new_txid m (GetHash tx) ->
  (IsCoinBase tx = false -> NoDup (prevout <$> vin tx) /\ Forall (fun i => is_Some (m !! prevout i)) (vin tx)) ->
  exists c' undo, UpdateCoins c tx h = Ok (c', undo) /\ represents c' (connect_set m tx h)
    /\ (if IsCoinBase tx then undo = [] else Forall2 (fun i u => m !! prevout i = Some u) (vin tx) undo)
    /\ total (connect_set m tx h) <= total m - sum_Z (coin_value <$> undo) + sum_Z (nValue <$> vout tx).
Proof.
  intros H Hv Hl Hf Hin. unfold UpdateCoins, connect_set, AddCoins. destruct (IsCoinBase tx) eqn:Ecb.
  - cbn [mbind result_bind]. destruct (add_coins_set (vout tx) c m (GetHash tx) 0 h true H Hv ltac:(lia) ltac:(lia)) as (c' & -> & H' & Ht); [intros; apply Hf|].
    exists c', []. split; [done|]. split; [done|]. split; [done|]. cbn [fmap list_fmap]. unfold sum_Z at 1. cbn [foldr]. lia.
  - destruct (Hin eq_refl) as [Hnd F]. destruct (spend_inputs_set (vin tx) c m H Hnd F) as (c1 & undo & -> & H1 & Hu & Ht1). cbn [mbind result_bind].
    destruct (add_coins_set (vout tx) c1 (spend_set m (vin tx)) (GetHash tx) 0 h false H1 Hv ltac:(lia) ltac:(lia)) as (c' & -> & H' & Ht).
    { intros k _. rewrite spend_set_lookup. destruct (decide _); [done|apply Hf]. }
    exists c', undo. split; [done|]. split; [done|]. split; [done|]. lia.
Qed.

Lemma new_txid_connect m tx h txid : new_txid m txid -> txid <> GetHash tx -> new_txid (connect_set m tx h) txid.
Proof.
  intros Hf Hn n. unfold connect_set. rewrite add_set_other by (intros k _ [= E _]; done). destruct (IsCoinBase tx); [apply Hf|]. rewrite spend_set_lookup. destruct (decide _); [done|apply Hf].
Qed.

(** *** What the checks of a transaction give *)

Record tx_fit (tx : CTransaction) : Prop := mkFit {
  tf_outs : outs_ok (vout tx);
  tf_count : Z.of_nat (length (vout tx)) <= 2 ^ 32;
  tf_inputs : NoDup (prevout <$> vin tx);
}.

Lemma sum_ones {A} (l : list A) : sum_Z ((fun _ => 1) <$> l) = Z.of_nat (length l).
Proof. unfold sum_Z. induction l as [|x l IH]; [done|]. csimpl. rewrite IH. lia. Qed.
Lemma vout_count tx : Z.of_nat (length (vout tx)) <= blen (SerializeTransaction false tx).
Proof.
  assert (sum_Z ((fun _ => 1) <$> vout tx) <= blen (write ser_vout (vout tx))) as H.
  { apply vector_sum. intros o. cbn [write ser_txout]. unfold blen. rewrite length_app. cbn [write ser_int64]. unfold ser_writedata64. rewrite le_split_length. lia. }
  rewrite sum_ones in H.
  unfold SerializeTransaction. cbn zeta. cbn [Z.eqb negb]. unfold blen in *. rewrite !length_app. lia.
Qed.
Lemma tx_sound_fit chain fMem fBlock tx : tx_sound chain true fMem fBlock tx -> tx_fit tx.
Proof.
  intros [_ Hsize Houts _ Hin _ _ _ _ _]. constructor.
  - eapply Forall_impl; [exact Houts|]. intros o (Ho & _). lia.
  - pose proof (vout_count tx) as H. unfold blen in H. lia.
  - by apply Hin.
Qed.

(** Outputs that [GetValueOut] leaves out. *)
Definition uncounted (e : bool) (tx : CTransaction) : Z := sum_Z (nValue <$> filter (fun o => ~ counted e o) (vout tx)).

Lemma counted_split e tx : sum_Z (nValue <$> vout tx) = sum_Z (counted_values e (vout tx)) + uncounted e tx.
Proof.
  unfold counted_values, uncounted, sum_Z. induction (vout tx) as [|o l IH]; [done|]. rewrite !filter_cons.
  destruct (decide (counted e o)) as [Hc|Hc]; [rewrite decide_False by tauto|rewrite decide_True by done]; cbn [fmap list_fmap foldr] in *; lia.
Qed.
Lemma uncounted_enforced tx : uncounted true tx = 0.
Proof.
  unfold uncounted, sum_Z. induction (vout tx) as [|o l IH]; [done|]. rewrite filter_cons, decide_False; [done|]. intros H. apply H. by left.
Qed.

Lemma coin_of_set c m o : represents c m -> coin_of c o = default Coin_empty (m !! o).
Proof. intros [_ Hm]. unfold coin_of. by rewrite Hm. Qed.

(** An input that can be spent is in the set. *)
Lemma spendable_set c m h i : represents c m -> spendable (coin_of c) h i -> is_Some (m !! prevout i).
Proof. intros H (Hs & _). rewrite (coin_of_set c m _ H) in Hs. destruct (m !! prevout i); [by eexists|done]. Qed.

(** ** The set after a block *)

Definition connect_all (m : coins) (txs : list CTransaction) (nHeight : Z) : coins := foldl (fun m tx => connect_set m tx nHeight) m txs.

(** The undo data of a transaction, and of several. *)
Definition undo_for (m : coins) (tx : CTransaction) (u : list Coin) : Prop :=
  if IsCoinBase tx then u = [] else Forall2 (fun i c => m !! prevout i = Some c) (vin tx) u.
Fixpoint undo_all (m : coins) (txs : list CTransaction) (us : list (list Coin)) (nHeight : Z) : Prop :=
  match txs, us with
  | [], [] => True
  | tx :: txs, u :: us => undo_for m tx u /\ undo_all (connect_set m tx nHeight) txs us nHeight
  | _, _ => False
  end.

(** The transactions are new to the set and differ from each other. *)
Definition new_txs (m : coins) (txs : list CTransaction) : Prop := NoDup (GetHash <$> txs) /\ Forall (fun tx => new_txid m (GetHash tx)) txs.

Lemma new_txs_cons m tx txs h : new_txs m (tx :: txs) -> new_txid m (GetHash tx) /\ new_txs (connect_set m tx h) txs.
Proof.
  intros [[Hn Hnd]%NoDup_cons [Hf F]%Forall_cons]. split; [done|]. split; [done|]. apply Forall_forall. intros x Hx. rewrite Forall_forall in F.
  apply new_txid_connect; [by apply F|]. intros E. apply Hn. rewrite <- E. by apply list_elem_of_fmap_2.
Qed.

Section Supply.
Context {sph : SphLib} {E : Ecdsa} {lows : LowS} (net : BlockNetwork) (kt : Z) (params : Params) (checkpoints : CCheckpointData).
Context (chain : asset_chain) (un : AssetType) (ts : CTxOut -> string) (mem : heap) (mapBlockIndex : gmap bytes ptr) (hashGenesisBlock : bytes).
Context (fUnitTest : bool) (mapAssetToHash mapReissuedAssets : gmap bytes bytes) (now : Z) (assets : nat -> AssetsView) (executed : CTransaction -> bool).
Local Abbreviation enforced := (AreEnforcedValuesDeployed chain).
Local Abbreviation txs_loop := (connect_txs params chain ts mem fUnitTest mapAssetToHash mapReissuedAssets now assets executed).

(** What a transaction may add: a coinbase all its outputs, another one what is not counted. *)
Definition created (tx : CTransaction) : Z := if IsCoinBase tx then sum_Z (nValue <$> vout tx) else uncounted enforced tx.

Lemma connect_checks_fee i c m pindex h t tx fees fees' : represents c m -> 0 <= fees <= MAX_MONEY ->
  connect_checks params chain ts mem fUnitTest mapAssetToHash mapReissuedAssets now assets i c pindex h t tx fees = Ok fees' ->
  0 <= fees' <= MAX_MONEY /\ Forall (spendable (coin_of c) h) (vin tx)
  /\ sum_Z (input_values (coin_of c) (vin tx)) = sum_Z (counted_values enforced (vout tx)) + (fees' - fees).
Proof.
  intros H Hfees Ech. unfold connect_checks in Ech. apply bind_Ok in Ech as (fee & Efee & Ech). cbv zeta in Ech. apply bind_Ok in Ech as ([] & Er & Ech).
  apply bind_Ok in Ech as ([] & _ & Ech). apply CheckTxInputs_spec in Efee as (Hs & Hout & Hsum & Hfee & Hin). pose proof (sum_Z_nonneg _ Hout) as Hpos.
  destruct (halting _) as [[final hs]|]; [|discriminate]. apply bind_Ok in Ech as ([] & _ & Ech). injection Ech as <-.
  apply reject_if_Ok, negb_false_iff, MoneyRange_spec in Er. rewrite (amount_add fees fee) in * by lia. split; [done|]. split; [done|]. lia.
Qed.

(** The coins that are spent are those whose values were summed. *)
Lemma undo_values c m ins undo : represents c m -> Forall2 (fun i u => m !! prevout i = Some u) ins undo -> sum_Z (coin_value <$> undo) = sum_Z (input_values (coin_of c) ins).
Proof.
  intros H. unfold input_values, sum_Z. induction 1 as [|i u ins undo Hu _ IH]; [done|]. cbn [fmap list_fmap foldr] in *. rewrite IH, (coin_of_set c m _ H), Hu. done.
Qed.

Lemma connect_txs_set pindex h t flags fs txs : forall i c m fees sig c' fees' undos,
  represents c m -> Forall tx_fit txs -> new_txs m txs -> 0 <= fees <= MAX_MONEY ->
  txs_loop pindex h t flags fs i txs c fees sig = Ok (c', fees', undos) ->
  represents c' (connect_all m txs h) /\ 0 <= fees' <= MAX_MONEY /\ total (connect_all m txs h) + fees' <= total m + fees + sum_Z (created <$> txs)
  /\ exists us, undo_all m txs us h /\ undos = if (i =? 0)%nat then tail us else us.
Proof.
  induction txs as [|tx txs IH]; intros i c m fees sig c' fees' undos H F Hnew Hfees Ec; cbn [connect_txs] in Ec.
  { injection Ec as <- <- <-. split; [done|]. split; [done|]. split; [cbn; lia|]. exists []. split; [done|by destruct (i =? 0)%nat]. }
  apply Forall_cons in F as [[Hv Hl Hnd] F]. destruct (new_txs_cons m tx txs h Hnew) as [Hf Hnew'].
  apply bind_Ok in Ec as (fees1 & Efee & Ec). apply bind_Ok in Ec as (cost & _ & Ec). cbv zeta in Ec. apply bind_Ok in Ec as ([] & _ & Ec). apply bind_Ok in Ec as ([] & _ & Ec).
  assert (0 <= fees1 <= MAX_MONEY /\ (IsCoinBase tx = false -> Forall (fun i => is_Some (m !! prevout i)) (vin tx)
      /\ sum_Z (input_values (coin_of c) (vin tx)) = sum_Z (counted_values enforced (vout tx)) + (fees1 - fees))
    /\ (IsCoinBase tx = true -> fees1 = fees)) as (Hfees1 & Hplain & Hcb).
  { destruct (IsCoinBase tx); [injection Efee as <-; done|]. destruct (connect_checks _ _ _ _ _ _ _ _ _ i c pindex h t tx fees) as [f|] eqn:Ech; [|discriminate].
    injection Efee as <-. destruct (connect_checks_fee i c m pindex h t tx fees f H Hfees Ech) as (Hr & Hs & Hsum). split; [done|]. split; [|done]. intros _. split; [|done].
    eapply Forall_impl; [exact Hs|]. intros j Hj. by eapply spendable_set. }
  destruct (UpdateCoins_set c m tx h H Hv Hl Hf) as (c1 & undo & Eu & H1 & Hundo & Ht1); [intros Ecb; split; [done|by apply Hplain]|]. rewrite Eu in Ec. cbn [mbind result_bind] in Ec.
  destruct (txs_loop pindex h t flags fs (S i) txs c1 fees1 _) as [[[c2 fees2] undos2]|] eqn:Erest; [|discriminate]. injection Ec as <- <- <-.
  destruct (IH _ _ _ _ _ _ _ _ H1 F Hnew' Hfees1 Erest) as (H2 & Hf2 & Ht2 & us & Hus & Eus). split; [exact H2|]. split; [exact Hf2|]. split.
  - cbn [fmap list_fmap sum_Z foldr]. fold (sum_Z (created <$> txs)). change (connect_all m (tx :: txs) h) with (connect_all (connect_set m tx h) txs h).
    pose proof (counted_split enforced tx) as Hsplit. pose proof (eq_refl (created tx)) as Ecr. unfold created at 2 in Ecr. destruct (IsCoinBase tx) eqn:Ecb.
    + subst undo. cbn [fmap list_fmap] in Ht1. unfold sum_Z at 1 in Ht1. cbn [foldr] in Ht1. rewrite (Hcb eq_refl) in *. lia.
    + destruct (Hplain eq_refl) as [_ Hsum]. rewrite (undo_values c m _ _ H Hundo) in Ht1. lia.
  - exists (undo :: us). split; [split; [exact Hundo|exact Hus]|]. cbn [Nat.eqb] in Eus. subst undos2. by destruct (i =? 0)%nat.
Qed.

Lemma reject_if_checked b level reason : checked (reject_if b level reason) = Ok tt -> b = false.
Proof. by destruct b. Qed.
Lemma created_plain txs : Forall (fun tx => IsCoinBase tx = false) txs -> sum_Z (created <$> txs) = sum_Z (uncounted enforced <$> txs).
Proof. unfold sum_Z. induction 1 as [|tx txs Htx _ IH]; [done|]. cbn [fmap list_fmap foldr]. rewrite IH. unfold created at 1. by rewrite Htx. Qed.
Lemma subsidy_reward h : 0 < nSubsidyHalvingInterval params -> 0 <= h -> subsidy_of params h = 5000 * COIN / 2 ^ (h / nSubsidyHalvingInterval params).
Proof. intros Hp Hh. unfold subsidy_of. by rewrite GetBlockSubsidy_spec. Qed.
Lemma subsidy_small h : 0 < nSubsidyHalvingInterval params -> 0 <= h -> 0 <= subsidy_of params h <= 5000 * COIN.
Proof.
  intros Hp Hh. rewrite subsidy_reward by done. assert (0 < 2 ^ (h / nSubsidyHalvingInterval params)) as H2 by (apply Z.pow_pos_nonneg; [lia|by apply Z.div_pos]).
  split; [apply Z.div_pos; [unfold COIN; lia|done]|]. apply Z.div_le_upper_bound; [done|]. unfold COIN. nia.
Qed.

Lemma SetBestBlock_set c m h : represents c m -> represents (SetBestBlock c h) m.
Proof. by intros [Hw Hm]. Qed.

(** [ConnectBlock] on a set of coins. *)
Lemma ConnectBlock_set cached c m block pindex b g c' undos : represents c m -> mem !! pindex = Some b -> 0 <= Chain.nHeight b -> 0 < nSubsidyHalvingInterval params ->
  fChecked block = false -> new_txs m (vtx block) -> header_GetHash net kt (block_header block) <> hashGenesisBlock ->
  ConnectBlock net kt params checkpoints chain un ts mem mapBlockIndex hashGenesisBlock fUnitTest mapAssetToHash mapReissuedAssets now assets executed
    cached c block pindex g = Ok (c', undos) ->
  represents c' (connect_all m (vtx block) (Chain.nHeight b))
  /\ total (connect_all m (vtx block) (Chain.nHeight b)) <= total m + subsidy_of params (Chain.nHeight b) + sum_Z (uncounted enforced <$> vtx block)
  /\ Forall tx_fit (vtx block) /\ exists cb txs us, vtx block = cb :: txs /\ IsCoinBase cb = true /\ Forall (fun tx => IsCoinBase tx = false) txs
       /\ undo_all (connect_set m cb (Chain.nHeight b)) txs us (Chain.nHeight b) /\ undos = us /\ hashBlock c' = header_GetHash net kt (block_header block).
Proof.
  intros H Hb Hh Hint Hck Hnew Hgen Ec. unfold ConnectBlock in Ec. rewrite (Chain.deref_ok _ _ _ Hb) in Ec. cbn [halting checked mbind result_bind] in Ec. cbv zeta in Ec.
  destruct (negb (phashBlock b =? _)); [discriminate|]. apply bind_Ok in Ec as ([block' cc] & Ecb & Ec). destruct (CheckBlock _ _ _ _ _ _ _ _ _ _ _ _ _ _) as [[bl ca]|] eqn:Eck; [|discriminate].
  clear Ecb. destruct (CheckBlock_facts _ _ _ _ _ _ _ _ _ _ _ _ _ _ Hck Eck) as ([_ _ (cb & txs & Evtx & Hcb & Htxs) Hsound _ _] & _). clear Eck.
  assert (Forall tx_fit (vtx block)) as Hfit by (eapply Forall_impl; [exact Hsound|]; intros tx; apply tx_sound_fit).
  apply bind_Ok in Ec as (hp & _ & Ec). destruct (negb (hp =? _)); [discriminate|]. rewrite bool_decide_false in Ec by done. apply bind_Ok in Ec as (fs & _ & Ec). cbv zeta in Ec.
  destruct (txs_loop pindex _ _ _ fs 0%nat (vtx block) c 0 0) as [[[c1 fees] undos1]|] eqn:Eloop; [|discriminate].
  assert (0 <= 0 <= MAX_MONEY) as Hzero by (unfold MAX_MONEY, COIN; lia).
  destruct (connect_txs_set _ _ _ _ _ _ _ _ _ _ _ _ _ _ H Hfit Hnew Hzero Eloop) as (H1 & Hfees & Ht & us & Hus & ->).
  rewrite (GetBlockSubsidy_spec params Hint (Chain.nHeight b) Hh) in Ec. cbn [halting checked mbind result_bind] in Ec. rewrite Evtx in Ec, Hus. cbn [halting checked mbind result_bind] in Ec.
  destruct (GetValueOut enforced cb) as [paid|] eqn:Epaid; [|discriminate]. cbn [checked mbind result_bind] in Ec.
  apply GetValueOut_loop_spec in Epaid as (Hout & Epaid & _); [|exact Hzero]. apply bind_Ok in Ec as ([] & Epay & Ec). injection Ec as <- <-.
  split; [by apply SetBestBlock_set|]. rewrite Evtx in *. destruct us as [|u us]; [done|]. cbn [undo_all] in Hus. split; [|split; [exact Hfit|exists cb, txs, us; by destruct Hus]].
  apply reject_if_checked in Epay. rewrite Z.gtb_ltb, Z.ltb_ge in Epay. pose proof (subsidy_small (Chain.nHeight b) Hint Hh) as Hsmall. rewrite (subsidy_reward _ Hint Hh) in *.
  rewrite i64_id in Epay by (unfold is_i64; unfold MAX_MONEY, COIN in *; lia). cbn [fmap list_fmap sum_Z foldr] in *. fold (sum_Z (created <$> txs)) (sum_Z (uncounted enforced <$> txs)) in *.
  rewrite (created_plain txs Htxs) in Ht. unfold created in Ht. rewrite Hcb, (counted_split enforced cb) in Ht. lia.
Qed.
End Supply.

(** ** Back to the set before a block *)

(** Coins as [AddCoin] leaves them in the set: none is unspendable, spent, negative or of the genesis block. *)
Definition coins_ok (m : coins) : Prop :=
  map_Forall (fun _ c => IsUnspendable (scriptPubKey (coin_out c)) = false /\ coin_nHeight c <> 0 /\ IsSpent c = false /\ 0 <= coin_value c) m.

Lemma add_set_ok outs : forall m txid i h cb, coins_ok m -> outs_ok outs -> h <> 0 -> coins_ok (add_set m txid i outs h cb).
Proof.
  induction outs as [|out outs IH]; intros m txid i h cb Hm Hv Hh; cbn [add_set]; [done|]. apply Forall_cons in Hv as [Hv0 Hv]. apply IH; [|done|done].
  destruct (IsUnspendable (scriptPubKey out)) eqn:Eu; [done|]. intros o c Ho. destruct (decide (o = mkOutPoint txid (u32 i))) as [->|Hn].
  - rewrite lookup_insert_eq in Ho. injection Ho as <-. split; [done|]. split; [done|]. split; [unfold IsSpent, txout_IsNull; cbn; apply Z.eqb_neq; lia|exact Hv0].
  - rewrite lookup_insert_ne in Ho by done. by apply (Hm o c).
Qed.
Lemma connect_set_ok m tx h : coins_ok m -> outs_ok (vout tx) -> h <> 0 -> coins_ok (connect_set m tx h).
Proof.
  intros Hm Hv Hh. apply add_set_ok; [|done|done]. destruct (IsCoinBase tx); [done|]. intros o c Ho. rewrite spend_set_lookup in Ho. destruct (decide _); [done|]. by apply (Hm o c).
Qed.

(** The outputs are found as they were added, and are removed. *)
Lemma remove_outputs_set outs : forall c m txid i h cb fl, represents c (add_set m txid i outs h cb) -> 0 <= i -> i + Z.of_nat (length outs) <= 2 ^ 32 ->
  (forall k, i <= k < i + Z.of_nat (length outs) -> m !! mkOutPoint txid (u32 k) = None) ->
  exists c', remove_outputs c txid h cb i outs fl = (c', fl) /\ represents c' m.
Proof.
  induction outs as [|out outs IH]; intros c m txid i h cb fl H Hi Hl Hf; cbn [remove_outputs add_set length] in *; [by exists c|].
  destruct (IsUnspendable (scriptPubKey out)); [apply IH; [done|lia|lia|intros k Hk; apply Hf; lia]|].
  assert (forall k, i + 1 <= k < i + 1 + Z.of_nat (length outs) -> mkOutPoint txid (u32 i) <> mkOutPoint txid (u32 k)) as Hne by (intros k Hk; apply outpoint_ne; lia).
  rewrite add_set_insert in H by exact Hne. destruct (SpendCoin_set c _ (mkOutPoint txid (u32 i)) (mkCoin out cb h) H) as (c1 & -> & H1); [apply lookup_insert_eq|].
  rewrite delete_insert_id in H1 by (rewrite add_set_other by exact Hne; apply Hf; lia). cbn [coin_out coin_nHeight fCoinBase].
  rewrite bool_decide_true, Z.eqb_refl, Bool.eqb_reflx by done. cbn [andb]. rewrite andb_true_r. apply IH; [done|lia|lia|intros k Hk; apply Hf; lia].
Qed.

Lemma ApplyTxInUndo_set c m undo out : represents c m -> m !! out = None -> IsUnspendable (scriptPubKey (coin_out undo)) = false -> coin_nHeight undo <> 0 -> IsSpent undo = false ->
  exists c', ApplyTxInUndo undo c out = Ok (c', DISCONNECT_OK) /\ represents c' (<[out := undo]> m).
Proof.
  intros [Hw Hm] Hout Hu Hh Hs. unfold ApplyTxInUndo, HaveCoin. destruct (FetchCoin c out) as [c1 e] eqn:Ef. destruct (FetchCoin_spec _ _ _ _ Hw Ef) as (W1 & Eq & _ & _ & U).
  rewrite Hm, Hout in U. assert (match e with Some e => (c1, negb (IsSpent (ce_coin e))) | None => (c1, false) end = (c1, false)) as ->.
  { destruct e as [e|]; [|done]. cbn in U. unfold unspent in U. by destruct (IsSpent (ce_coin e)). }
  rewrite (proj2 (Z.eqb_neq _ _) Hh). cbn [andb]. destruct undo as [o cb h]. cbn [coin_out fCoinBase coin_nHeight] in *.
  destruct (AddCoin_spec c1 out (mkCoin o cb h) false W1 Hs) as (c2 & -> & W2 & _ & U2); [intros _; by rewrite (Eq out), Hm|]. cbn [on_coins mbind result_bind].
  exists c2. split; [done|]. split; [done|]. intros p. rewrite U2. cbn [coin_out]. rewrite Hu. destruct (decide (p = out)) as [->|Hn]; [by rewrite lookup_insert_eq|].
  by rewrite lookup_insert_ne, (Eq p), Hm by done.
Qed.

Lemma restore_inputs_app c l1 l2 fl : restore_inputs c (l1 ++ l2) fl =
  let* (c, res) := restore_inputs c l1 fl in
  match res with DISCONNECT_FAILED => Ok (c, DISCONNECT_FAILED) | DISCONNECT_UNCLEAN => restore_inputs c l2 false | DISCONNECT_OK => restore_inputs c l2 true end.
Proof.
  revert c fl. induction l1 as [|[i u] l1 IH]; intros c fl; cbn [restore_inputs app]; [by destruct fl|]. destruct (ApplyTxInUndo u c (prevout i)) as [[c1 []]|e]; cbn; [apply IH|apply IH|done|done].
Qed.

Lemma restore_inputs_set ins undo : forall c m, Forall2 (fun i u => m !! prevout i = Some u) ins undo -> NoDup (prevout <$> ins) -> coins_ok m ->
  represents c (spend_set m ins) -> exists c', restore_inputs c (reverse (zip ins undo)) true = Ok (c', DISCONNECT_OK) /\ represents c' m.
Proof.
  revert undo. induction ins as [|i ins IH]; intros undo c m Hu Hnd Hok H; inversion Hu as [|? u ? undo' Hu0 Hu']; subst; cbn [zip zip_with]; [by exists c|].
  cbn [fmap list_fmap] in Hnd. apply NoDup_cons in Hnd as [Hi Hnd]. rewrite reverse_cons, restore_inputs_app.
  destruct (IH undo' c (delete (prevout i) m)) as (c1 & -> & H1); [|done| |exact H|].
  { eapply Forall2_impl; [apply Forall2_same_length_lookup_2; [by eapply Forall2_length|intros k x y Hx Hy; exact (conj (Forall2_lookup_lr _ _ _ _ _ _ Hu' Hx Hy) (list_elem_of_lookup_2 _ _ _ Hx))]|].
    intros j w [Hj Hin]. cbn beta in *. rewrite lookup_delete_ne; [done|]. intros E. apply Hi. rewrite E. by apply list_elem_of_fmap_2. }
  { intros o x Ho. apply lookup_delete_Some in Ho as [_ Ho]. by apply (Hok o x). }
  cbn [mbind result_bind restore_inputs]. destruct (Hok (prevout i) u Hu0) as (Hu1 & Hu2 & Hu3 & _).
  destruct (ApplyTxInUndo_set c1 _ u (prevout i) H1) as (c2 & -> & H2); [apply lookup_delete_eq|done|done|done|]. exists c2. split; [done|]. by rewrite insert_delete_id in H2.
Qed.

Definition undo_item (tx : CTransaction) (u : list Coin) : option (list Coin) := if IsCoinBase tx then None else Some u.

(** One transaction. *)
Lemma disconnect_tx_set c m tx u h l : represents c (connect_set m tx h) -> coins_ok m -> tx_fit tx -> new_txid m (GetHash tx) -> undo_for m tx u ->
  exists c', represents c' m /\ disconnect_txs c h ((tx, undo_item tx u) :: l) true = disconnect_txs c' h l true.
Proof.
  intros H Hok [Hv Hl Hnd] Hf Hu. unfold connect_set in H. cbn [disconnect_txs].
  destruct (remove_outputs_set (vout tx) c _ (GetHash tx) 0 h (IsCoinBase tx) true H) as (c1 & -> & H1); [lia|lia| |].
  { intros k _. destruct (IsCoinBase tx); [apply Hf|]. rewrite spend_set_lookup. destruct (decide _); [done|apply Hf]. }
  unfold undo_for, undo_item in *. destruct (IsCoinBase tx); [by exists c1|]. rewrite (Forall2_length _ _ _ Hu), Nat.eqb_refl. cbn [negb].
  destruct (restore_inputs_set (vin tx) u c1 m Hu Hnd Hok H1) as (c2 & -> & H2). cbn [mbind result_bind]. by exists c2.
Qed.

Lemma disconnect_txs_app c h l1 l2 c1 : disconnect_txs c h l1 true = Ok (c1, DISCONNECT_OK) -> disconnect_txs c h (l1 ++ l2) true = disconnect_txs c1 h l2 true.
Proof.
  assert (forall c fl, match disconnect_txs c h l1 fl with Ok (c1, DISCONNECT_OK) => disconnect_txs c h (l1 ++ l2) fl = disconnect_txs c1 h l2 true | _ => True end) as Hgen.
  { clear. induction l1 as [|[tx u] l1 IH]; intros c fl; cbn [disconnect_txs app]; [by destruct fl|]. destruct (remove_outputs _ _ _ _ _ _ _) as [c2 fl2]. destruct u as [vp|]; [|apply IH].
    destruct (negb _); [done|]. destruct (restore_inputs _ _ _) as [[c3 []]|e]; cbn [mbind result_bind]; [apply IH|apply IH|done|done]. }
  intros E. specialize (Hgen c true). by rewrite E in Hgen.
Qed.

Lemma disconnect_txs_set h txs : forall us c m, h <> 0 -> represents c (connect_all m txs h) -> coins_ok m -> Forall tx_fit txs -> new_txs m txs -> undo_all m txs us h ->
  exists c', disconnect_txs c h (reverse (zip txs (zip_with undo_item txs us))) true = Ok (c', DISCONNECT_OK) /\ represents c' m.
Proof.
  induction txs as [|tx txs IH]; intros us c m Hh H Hok F Hnew Hus; destruct us as [|u us]; try done; cbn [zip_with]; [by exists c|].
  apply Forall_cons in F as [Hfit F]. destruct (new_txs_cons m tx txs h Hnew) as [Hf Hnew']. destruct Hus as [Hu Hus]. rewrite reverse_cons.
  destruct (IH us c (connect_set m tx h) Hh H) as (c1 & E1 & H1); [apply connect_set_ok; [done|apply Hfit|done]|done|done|done|].
  rewrite (disconnect_txs_app _ _ _ _ _ E1). destruct (disconnect_tx_set c1 m tx u h [] H1 Hok Hfit Hf Hu) as (c' & H' & ->). by exists c'.
Qed.

(** ** A node *)

(** [DisconnectBlock] after [ConnectBlock]. *)
Lemma DisconnectBlock_set c m cb txs us h hdr ck hashPrev : h <> 0 -> represents c (connect_all m (cb :: txs) h) -> coins_ok m -> Forall tx_fit (cb :: txs) -> new_txs m (cb :: txs) ->
  IsCoinBase cb = true -> Forall (fun tx => IsCoinBase tx = false) txs -> undo_all (connect_set m cb h) txs us h ->
  exists c', DisconnectBlock c (mkBlock hdr (cb :: txs) ck) us h hashPrev = Ok (c', DISCONNECT_OK) /\ represents c' m /\ hashBlock c' = hashPrev.
Proof.
  intros Hh H Hok F Hnew Hcb Htxs Hus. unfold DisconnectBlock. cbn [vtx length].
  assert (length us = length txs) as Hlen.
  { clear -Hus. revert Hus. generalize (connect_set m cb h). revert us. induction txs as [|tx txs IH]; intros [|u us] m' Hus; try done. cbn. f_equal. by destruct Hus as [_ Hus%IH]. }
  rewrite Hlen, Nat.add_1_r, Nat.eqb_refl. cbn [negb].
  assert (None :: (Some <$> us) = zip_with undo_item (cb :: txs) ([] :: us)) as ->.
  { cbn [zip_with]. unfold undo_item at 1. rewrite Hcb. f_equal. clear -Hlen Htxs. revert us Hlen. induction Htxs as [|tx txs Htx _ IH]; intros [|u us] Hlen; try done. cbn [zip_with fmap list_fmap].
    unfold undo_item at 1. rewrite Htx. f_equal. apply IH. by injection Hlen. }
  destruct (disconnect_txs_set h (cb :: txs) ([] :: us) c m Hh H Hok F Hnew) as (c' & -> & H'); [split; [unfold undo_for; by rewrite Hcb|exact Hus]|].
  cbn [mbind result_bind]. exists (SetBestBlock c' hashPrev). split; [done|]. split; [by apply SetBestBlock_set|done].
Qed.

(** The view of a tip and the set. *)
Definition tip_represents (tip : view) (m : coins) : Prop := represents (new_view tip) m.

Lemma flush_view_spec full c m : represents c m -> uint256_IsNull (hashBlock c) = false ->
  exists tip, flush_view full c = Ok tip /\ tip_represents tip m /\ snd (view_GetBestBlock tip) = hashBlock c.
Proof.
  intros [Hw Hm] Hh. destruct (Flush_spec full c Hw Hh) as (c' & Ef & W & Eq & Ec & Eh). unfold flush_view. rewrite Ef. cbn [on_coins mbind result_bind]. exists (base c'). split; [done|].
  destruct c' as [h mc v]. cbn [cacheCoins hashBlock base] in *. subst mc h. split; [split; [exact W|intros o; rewrite <- Hm, <- (Eq o); done]|]. clear W Eq.
  unfold Flush in Ef. destruct (base c) as [d|h0 m0 b0]; cbn [BatchWrite] in Ef.
  - destruct (db_old_tip d (hashBlock c)) as [old|] eqn:Eo; [|unfold db_BatchWrite in Ef; rewrite Hh, Eo in Ef; discriminate].
    destruct (db_BatchWrite_spec full d (map_to_list (cacheCoins c)) _ _ Hh Eo) as (w & Ew & _). rewrite Ew in Ef. injection Ef as <-. cbn [view_GetBestBlock snd]. unfold db_GetBestBlock.
    by rewrite (proj1 (proj2 (db_final_spec d _ (hashBlock c) old (NoDup_fst_map_to_list (cacheCoins c))))).
  - destruct (merge_entries m0 _) as [m1|]; [|discriminate]. injection Ef as <-. cbn [view_GetBestBlock]. by rewrite Hh.
Qed.

Section Node.
Context {sph : SphLib} {E : Ecdsa} {lows : LowS} (net : BlockNetwork) (kt : Z) (params : Params) (checkpoints : CCheckpointData).
Context (un : AssetType) (ts : CTxOut -> string) (hashGenesisBlock : bytes) (full : list db_op -> bool).

(** A block of the chain, with its undo data on disk and whether the values of all its
    outputs counted. *)
Record chain_block := mkChainBlock { cb_block : CBlock; cb_undo : list (list Coin); cb_enforced : bool }.

(** The coins of the chain, the newest block first; the outputs of the genesis block are
    not spendable. *)
Fixpoint replay (blocks : list chain_block) : coins :=
  match blocks with
  | [] => ∅
  | e :: blocks => connect_all (replay blocks) (vtx (cb_block e)) (Z.of_nat (length blocks) + 1)
  end.
Definition block_hash (e : chain_block) : bytes := header_GetHash net kt (block_header (cb_block e)).
Definition tip_hash (blocks : list chain_block) : bytes := match blocks with [] => hashGenesisBlock | e :: _ => block_hash e end.

(** What a node does with its coins: a block is connected or disconnected, or the view is
    read, written or trimmed.  All that the checks read besides may differ each time. *)
Inductive node_step : view * list chain_block -> view * list chain_block -> Prop :=
| step_connect tip blocks chain mem mapBlockIndex fUnitTest mapAssetToHash mapReissuedAssets now assets executed cached block pindex b g tip' vtxundo :
    mem !! pindex = Some b -> Chain.nHeight b = Z.of_nat (length blocks) + 1 -> fChecked block = false ->
    header_GetHash net kt (block_header block) <> hashGenesisBlock -> uint256_IsNull (header_GetHash net kt (block_header block)) = false ->
    new_txs (replay blocks) (vtx block) ->
    tip_connected full (fun c => ConnectBlock net kt params checkpoints chain un ts mem mapBlockIndex hashGenesisBlock fUnitTest mapAssetToHash mapReissuedAssets now assets executed
      cached c block pindex g) tip = Ok (tip', vtxundo) ->
    node_step (tip, blocks) (tip', mkChainBlock block vtxundo (AreEnforcedValuesDeployed chain) :: blocks)
| step_disconnect tip e blocks tip' :
    tip_disconnected full tip (cb_block e) (cb_undo e) (Z.of_nat (length blocks) + 1) (block_hash e) (tip_hash blocks) = Ok (tip', true) ->
    node_step (tip, e :: blocks) (tip', blocks)
| step_view tip blocks tip' :
    wf tip' -> tip' ≡ tip -> snd (view_GetBestBlock tip') = snd (view_GetBestBlock tip) -> node_step (tip, blocks) (tip', blocks).

Definition node_start (s : view * list chain_block) : Prop :=
  exists tip, s = (tip, []) /\ tip_represents tip ∅ /\ snd (view_GetBestBlock tip) = hashGenesisBlock.
Definition node_reachable (s : view * list chain_block) : Prop := exists s0, node_start s0 /\ rtc node_step s0 s.

(** Each block fits the coins below it. *)
Record block_fits (m : coins) (h : Z) (e : chain_block) : Prop := mkFits {
  bf_txs : Forall tx_fit (vtx (cb_block e));
  bf_new : new_txs m (vtx (cb_block e));
  bf_hash : uint256_IsNull (block_hash e) = false;
  bf_undo : exists cb txs, vtx (cb_block e) = cb :: txs /\ IsCoinBase cb = true /\ Forall (fun tx => IsCoinBase tx = false) txs
    /\ undo_all (connect_set m cb h) txs (cb_undo e) h;
  bf_value : total (connect_all m (vtx (cb_block e)) h) <= total m + subsidy_of params h + sum_Z (uncounted (cb_enforced e) <$> vtx (cb_block e));
}.
Fixpoint blocks_fit (blocks : list chain_block) : Prop :=
  match blocks with [] => True | e :: blocks => block_fits (replay blocks) (Z.of_nat (length blocks) + 1) e /\ blocks_fit blocks end.

Record node_inv (s : view * list chain_block) : Prop := mkInv {
  ni_coins : tip_represents s.1 (replay s.2);
  ni_best : snd (view_GetBestBlock s.1) = tip_hash s.2;
  ni_fit : blocks_fit s.2;
}.

Lemma connect_all_ok m txs h : coins_ok m -> Forall tx_fit txs -> h <> 0 -> coins_ok (connect_all m txs h).
Proof.
  intros Hm F Hh. revert m Hm. induction F as [|tx txs [Hv _ _] _ IH]; intros m Hm; [done|]. cbn [connect_all foldl]. apply IH. by apply connect_set_ok.
Qed.
Lemma replay_ok blocks : blocks_fit blocks -> coins_ok (replay blocks).
Proof. induction blocks as [|e blocks IH]; [by intros _ o c ?|]. intros [He Hb]. cbn [replay]. apply connect_all_ok; [by apply IH|apply He|lia]. Qed.

Lemma tip_represents_equiv tip tip' m : tip_represents tip m -> wf tip' -> tip' ≡ tip -> tip_represents tip' m.
Proof. intros [_ Hm] Hw Eq. split; [split; [exact Hw|by intros o e He]|]. intros o. rewrite <- Hm. exact (Eq o). Qed.

Lemma tip_disconnected_spec tip e blocks : uint256_IsNull hashGenesisBlock = false -> node_inv (tip, e :: blocks) -> exists tip',
  tip_disconnected full tip (cb_block e) (cb_undo e) (Z.of_nat (length blocks) + 1) (block_hash e) (tip_hash blocks) = Ok (tip', true) /\ node_inv (tip', blocks).
Proof.
  intros Hg [Hc Hbest [[Hfit Hnew Hnull (cb & txs & Evtx & Hcb & Htxs & Hus) _] Hbl]]. cbn [fst snd tip_hash replay] in *. unfold tip_disconnected.
  assert (snd (view_GetBestBlock (as_view (new_view tip))) = block_hash e) as ->.
  { cbn [view_GetBestBlock as_view new_view hashBlock base cacheCoins]. change (uint256_IsNull null_uint256) with true. cbn iota. rewrite <- Hbest. by destruct (view_GetBestBlock tip). }
  rewrite bool_decide_true by done. cbn [negb]. destruct (cb_block e) as [hdr vt ck] eqn:Eb. cbn [vtx] in *. subst vt.
  destruct (DisconnectBlock_set _ (replay blocks) cb txs (cb_undo e) (Z.of_nat (length blocks) + 1) hdr ck (tip_hash blocks) ltac:(lia) Hc (replay_ok _ Hbl) Hfit Hnew Hcb Htxs Hus) as (c' & -> & H' & Eh).
  cbn [mbind result_bind]. destruct (flush_view_spec full c' _ H') as (tip' & -> & Ht & Eb').
  - rewrite Eh. destruct blocks as [|e' blocks]; [exact Hg|]. exact (bf_hash _ _ _ (proj1 Hbl)).
  - exists tip'. split; [done|]. constructor; [exact Ht|cbn; by rewrite Eb', Eh|exact Hbl].
Qed.

Lemma node_inv_step s s' : 0 < nSubsidyHalvingInterval params -> uint256_IsNull hashGenesisBlock = false -> node_inv s -> node_step s s' -> node_inv s'.
Proof.
  intros Hint Hg Hinv Hstep. destruct Hstep as [tip blocks chain mem idx fUnit ma mr now assets executed cached block pindex b g tip' undo Hb Hh Hck Hgen Hnull Hnew Ec|tip e blocks tip' Ed|tip blocks tip' Hw Eq Ebest].
  - destruct Hinv as [Hc Hbest Hfit]. cbn [fst snd] in *. unfold tip_connected in Ec. destruct (ConnectBlock _ _ _ _ _ _ _ _ _ _ _ _ _ _ _ _ _ _ _ _ _) as [[c1 undo1]|] eqn:Eblock; [|discriminate]. cbn [mbind result_bind] in Ec.
    assert (0 <= Chain.nHeight b) as Hh0 by lia.
    destruct (ConnectBlock_set _ _ _ _ _ _ _ _ _ _ _ _ _ _ _ _ _ _ _ _ _ _ _ _ _ Hc Hb Hh0 Hint Hck Hnew Hgen Eblock) as (H1 & Ht & Htx & cb & txs & us & Evtx & Hcb & Htxs & Hus & -> & Ehash).
    destruct (flush_view_spec full c1 _ H1) as (t & Ef & Hrep & Ebest); [by rewrite Ehash|]. rewrite Ef in Ec. cbn [mbind result_bind] in Ec. injection Ec as <- <-. rewrite Hh in *.
    constructor; [exact Hrep|cbn; by rewrite Ebest, Ehash|]. split; [|exact Hfit]. constructor; try done. by exists cb, txs.
  - destruct (tip_disconnected_spec tip e blocks Hg Hinv) as (t & Et & Hinv'). rewrite Et in Ed. injection Ed as <-. exact Hinv'.
  - destruct Hinv as [Hc Hbest Hfit]. constructor; [by eapply tip_represents_equiv|cbn in *; by rewrite Ebest|exact Hfit].
Qed.
Lemma node_reachable_inv s : 0 < nSubsidyHalvingInterval params -> uint256_IsNull hashGenesisBlock = false -> node_reachable s -> node_inv s.
Proof.
  intros Hint Hg (s0 & (tip & -> & Htip & Hbest) & Hsteps). assert (node_inv (tip, [])) as Hinv by (constructor; done).
  clear Htip Hbest. induction Hsteps as [|s1 s2 s3 Hs _ IH]; [done|]. apply IH. by eapply node_inv_step.
Qed.

(** What the outputs that did not count added to the coins. *)
Definition leaked (blocks : list chain_block) : Z := sum_Z ((fun e => sum_Z (uncounted (cb_enforced e) <$> vtx (cb_block e))) <$> blocks).

Lemma blocks_fit_total blocks : 0 < nSubsidyHalvingInterval params -> blocks_fit blocks -> total (replay blocks) <= total_subsidy params (S (length blocks)) + leaked blocks.
Proof.
  intros Hint. induction blocks as [|e blocks IH]; intros Hfit.
  - rewrite total_subsidy_S. pose proof (subsidy_small params 0 Hint ltac:(lia)) as H0. change (total_subsidy params 0) with 0. change (total (replay [])) with 0.
    change (leaked []) with 0. cbn [length]. change (total_subsidy params 0) with 0. change (Z.of_nat 0) with 0. lia.
  - destruct Hfit as [[_ _ _ _ Hv] Hfit]. specialize (IH Hfit). cbn [replay length]. rewrite total_subsidy_S. unfold leaked in *. cbn [fmap list_fmap sum_Z foldr] in *.
    fold (sum_Z ((fun e => sum_Z (uncounted (cb_enforced e) <$> vtx (cb_block e))) <$> blocks)) in *. replace (Z.of_nat (S (length blocks))) with (Z.of_nat (length blocks) + 1) by lia.
    fold (sum_Z (uncounted (cb_enforced e) <$> vtx (cb_block e))). lia.
Qed.
Lemma leaked_enforced blocks : Forall (fun e => cb_enforced e = true) blocks -> leaked blocks = 0.
Proof.
  unfold leaked, sum_Z. induction 1 as [|e blocks He _ IH]; [done|]. cbn [fmap list_fmap foldr] in *. rewrite IH, He, Z.add_0_r. generalize (vtx (cb_block e)). intros l.
  induction l as [|tx l IHl]; [done|]. cbn [fmap list_fmap foldr]. rewrite IHl. by rewrite uncounted_enforced.
Qed.
Lemma total_pos m : map_Forall (fun _ c => 0 <= coin_value c) m -> 0 <= total m.
Proof. intros H. unfold total, sum_Z. pose proof (proj1 (map_Forall_to_list _ _) H) as F. induction F as [|[o c] l Hc _ IH]; [done|]. cbn in *. lia. Qed.
End Node.

(** C2: The supply: whatever blocks a node connects and disconnects, with its view read,
    written and trimmed in between, the view holds the coins that the blocks of its chain
    leave, one transaction after the other; their value is at most the subsidies of all
    heights up to the tip and the values that did not count; and no more than [MAX_MONEY]
    when all values counted. *)
Theorem supply_bounded {sph : SphLib} {E : Ecdsa} {lows : LowS} net kt params checkpoints un ts hashGenesisBlock full tip blocks :
  0 < nSubsidyHalvingInterval params <= 2100000 -> uint256_IsNull hashGenesisBlock = false ->
  node_reachable net kt params checkpoints un ts hashGenesisBlock full (tip, blocks) ->
  wf tip /\ (forall o, utxo tip o = replay blocks !! o)
  /\ 0 <= total (replay blocks) <= total_subsidy params (S (length blocks)) + leaked blocks
  /\ (Forall (fun e => cb_enforced e = true) blocks -> total (replay blocks) <= MAX_MONEY).
Proof.
  intros Hint Hg Hr. destruct (node_reachable_inv _ _ _ _ _ _ _ _ _ (proj1 Hint) Hg Hr) as [[[Hw _] Hc] _ Hfit]. cbn [fst snd] in *.
  pose proof (blocks_fit_total net kt params blocks (proj1 Hint) Hfit) as Ht. split; [exact Hw|]. split; [exact Hc|]. split.
  - split; [|exact Ht]. apply total_pos. eapply map_Forall_impl; [exact (replay_ok _ _ _ _ Hfit)|]. intros o c Hoc. apply Hoc.
  - intros He. rewrite (leaked_enforced _ He) in Ht. pose proof (total_subsidy_bound params (proj1 Hint) (S (length blocks))) as Hb. unfold MAX_MONEY, COIN in *. lia.
Qed.

(** C3: Disconnecting: in every state that a node can reach, the part of [DisconnectTip] that
    concerns the coins succeeds with the undo data of the tip: it finds all outputs as they
    were added, and leaves the coins of the chain below the tip, with its tip as the best
    block. *)
Theorem tip_disconnect_restores {sph : SphLib} {E : Ecdsa} {lows : LowS} net kt params checkpoints un ts hashGenesisBlock full tip e blocks :
  0 < nSubsidyHalvingInterval params -> uint256_IsNull hashGenesisBlock = false ->
  node_reachable net kt params checkpoints un ts hashGenesisBlock full (tip, e :: blocks) ->
  exists tip', tip_disconnected full tip (cb_block e) (cb_undo e) (Z.of_nat (length blocks) + 1) (block_hash net kt e) (tip_hash net kt hashGenesisBlock blocks) = Ok (tip', true)
  /\ wf tip' /\ (forall o, utxo tip' o = replay blocks !! o) /\ snd (view_GetBestBlock tip') = tip_hash net kt hashGenesisBlock blocks.
Proof.
  intros Hint Hg Hr. pose proof (node_reachable_inv _ _ _ _ _ _ _ _ _ Hint Hg Hr) as Hinv.
  destruct (tip_disconnected_spec net kt params hashGenesisBlock full tip e blocks Hg Hinv) as (tip' & Et & [[[Hw _] Hc] Hbest _]). by exists tip'.
Qed.

(** ** An example *)

Definition one_sph : SphLib := {| sph512 := fun _ _ => 1 :: replicate 63 0; sph_tiger := fun _ => 1 :: replicate 23 0 |}.
Definition no_ecdsa : Ecdsa := {| ecdsa_verify := fun _ _ _ => false |}.
Definition no_lows : LowS := {| CheckLowS := fun _ => false |}.

(** A coinbase for height 1, and a block of it. *)
Definition first_coinbase : CTransaction := mkTx [mkTxIn outpoint_SetNull [0x51; 0] SEQUENCE_FINAL []] [mkTxOut (5000 * COIN) [opcode_value OP_1]] 1 0.
Definition first_block : CBlock := Eval vm_compute in mkBlock (example_header (merkle_root Hash2 [GetHash first_coinbase])) [first_coinbase] false.
Definition first_hash : bytes := Eval vm_compute in header_GetHash (sph := one_sph) (mkNetwork false false) 5000000 (block_header first_block).
Definition genesis_hash : bytes := replicate 32 9.
Definition first_heap : heap := <[1%positive := ex_entry (le_combine genesis_hash) None None 0]> {[2%positive := ex_entry (le_combine first_hash) (Some 1%positive) None 1]}.
Definition first_tip : view := CCoinsViewDB (mkDb ∅ (Some genesis_hash) None).
Definition first_connect (c : cache) : connect (cache * list (list Coin)) :=
  ConnectBlock (sph := one_sph) (E := no_ecdsa) (lows := no_lows) (mkNetwork false false) 5000000 main_params [] test_chain INVALID (fun _ => EmptyString)
    first_heap ∅ genesis_hash false ∅ ∅ 0 (fun _ => example_view) (fun _ => false) None c first_block 2%positive (mkAssumed null_uint256 base_uint_zero 2%positive).
Definition second_tip : view := Eval vm_compute in
  match tip_connected (fun _ => false) first_connect first_tip with Ok (tip, _) => tip | Err _ => first_tip end.
Lemma first_connected : tip_connected (fun _ => false) first_connect first_tip = Ok (second_tip, []).
Proof. vm_compute. reflexivity. Qed.

Definition first_entry : chain_block := mkChainBlock first_block [] true.
Lemma first_reachable : node_reachable (sph := one_sph) (E := no_ecdsa) (lows := no_lows) (mkNetwork false false) 5000000 main_params [] INVALID (fun _ => EmptyString)
  genesis_hash (fun _ => false) (second_tip, [first_entry]).
Proof.
  exists (first_tip, []). split.
  - exists first_tip. split; [done|]. split; [|done]. split; [by split|]. intros o. cbn. by rewrite !lookup_empty.
  - apply rtc_once. apply (step_connect (mkNetwork false false) 5000000 main_params [] INVALID (fun _ => EmptyString) genesis_hash (fun _ => false) first_tip []
      test_chain first_heap ∅ false ∅ ∅ 0 (fun _ => example_view) (fun _ => false) None first_block 2%positive (ex_entry (le_combine first_hash) (Some 1%positive) None 1) (mkAssumed null_uint256 base_uint_zero 2%positive) second_tip []).
    + reflexivity.
    + reflexivity.
    + reflexivity.
    + vm_compute. discriminate.
    + vm_compute. reflexivity.
    + split; [apply NoDup_singleton|]. apply Forall_singleton. intros n. apply lookup_empty.
    + exact first_connected.
Qed.

Lemma supply_bounded_witness : 0 <= total (replay [first_entry]) <= MAX_MONEY.
Proof.
  assert (0 < nSubsidyHalvingInterval main_params <= 2100000) as Hint by (vm_compute; split; [reflexivity|discriminate]).
  destruct (supply_bounded (sph := one_sph) (E := no_ecdsa) (lows := no_lows) (mkNetwork false false) 5000000 main_params [] INVALID (fun _ => EmptyString) genesis_hash (fun _ => false)
    second_tip [first_entry] Hint eq_refl first_reachable) as (_ & _ & [H0 _] & H). split; [exact H0|]. apply H. by apply Forall_singleton.
Defined.

Lemma tip_disconnect_restores_witness : exists tip', tip_disconnected (fun _ => false) second_tip first_block [] 1 first_hash genesis_hash = Ok (tip', true) /\ forall o, utxo tip' o = None.
Proof.
  assert (0 < nSubsidyHalvingInterval main_params) as Hint by (vm_compute; reflexivity).
  assert (block_hash (sph := one_sph) (mkNetwork false false) 5000000 first_entry = first_hash) as Eh by (vm_compute; reflexivity).
  destruct (tip_disconnect_restores (sph := one_sph) (E := no_ecdsa) (lows := no_lows) (mkNetwork false false) 5000000 main_params [] INVALID (fun _ => EmptyString) genesis_hash (fun _ => false)
    second_tip first_entry [] Hint eq_refl first_reachable) as (tip' & Et & _ & Hc & _). rewrite Eh in Et. exists tip'. split; [exact Et|]. intros o. rewrite Hc. apply lookup_empty.
Defined.
